(* ===== verification/_CoqProject ===== *)
-Q . S2P
Prelude.v
Header.v
BufHeader.v
Buddy.v
BuddyFacts.v
BuddySpec.v
BuddyLaws.v
Fixed.v
FixedLaws.v
Region.v
RegionFacts.v
RegionTheorems.v
Mpsc.v
MpscFacts.v
MpscSeq.v
MpscConc.v
MpscTheorems.v
LocalManager.v
LocalManagerFacts.v
LocalManagerSpec.v
LocalManagerAlloc.v
LocalManagerPrune.v
LocalManagerExec.v
LocalManagerTheorems.v
RemoteManager.v
RemoteManagerFacts.v
RemoteManagerTheorems.v
Bytes.v
Protocol.v
Config.v
Negotiation.v
LegacyQueue.v
LegacyQueueTheorems.v
LegacyBuf.v
LegacyBufFacts.v
LegacyListNew.v
LegacyListConc.v
LegacyListInv.v
LegacyListTheorems.v
LegacyManager.v
LegacyManagerFacts.v
LegacyManagerTheorems.v
LegacyPool.v
Linked.v
LinkedFacts.v
LinkedWrite.v
LinkedPins.v
LinkedRead.v
LinkedHand.v
LinkedTheorems.v
BufReader.v
Socket.v
SocketTheorems.v
Writer.v
StreamIo.v
Compact.v
LegacyStream.v
LegacyStreamFacts.v
LegacyStreamTheorems.v
DataQueue.v
Wakeup.v
DataQueueTheorems.v
Handshake.v
HandshakeFacts.v
HandshakeTheorems.v
LegacyInit.v
LegacyInitTheorems.v
WriteBuf.v
WriteBufFacts.v
ReadBuf.v
ReadBufFacts.v
ReadBufSpec.v
ReadBufTheorems.v
Message.v
Session.v
SessionFacts.v
SessionTheorems.v
Manager.v
StreamOrder.v
StreamOrderTheorems.v
