(* ===== verification/Prelude.v ===== *)
(** * shmipc: a verified model of the shared-memory IPC library

    Two processes exchange messages on streams.  Each side owns a shared-memory
    segment the other side maps, a queue of sixteen-byte elements it sends on, and
    one end of a unix socket.  A message is written into blocks of the sender's
    segment, linked into a chain, and announced by an element with the offset of
    the first block; the receiver reads the blocks in place and hands their
    offsets back through the release queue at the start of the segment.  What does
    not fit travels in frames on the socket, which also carries wakeups and closes
    of streams.  This is the fifth version of the protocol ([src/src/v5], and the
    V5 paths of [src/src/buffer], [src/src/stream.rs] and [src/src/session]).
    Versions two to four share one pool of buffers of fixed sizes and a pair of
    queues between the processes ([src/src/queue.rs], the other files of
    [src/src/buffer] and the V4 paths); the [Legacy] and [Linked] files are
    about them.

    ** The files

    - [Prelude]: results, machine integers at their width, byte memory with loads
      and stores, and the lemmas and tactics the other files share.  [Bytes]:
      integers in little- and big-endian bytes.
    - [Header]: [src/src/v5/region.rs], block headers and the [Allocator] trait, a
      class of operations with a class of laws ([AllocatorLaws]) that clients are
      proved against.  [Buddy], [BuddyFacts], [BuddySpec], [BuddyLaws]:
      [src/src/v5/buddy.rs].  [Fixed], [FixedLaws]: [src/src/v5/fixed.rs].  Both
      discharge the laws.
    - [BufHeader]: [DynShmBufferHeader] of [src/src/v5/dynshm.rs].  [Region],
      [RegionFacts], [RegionTheorems]: shared and dedicated regions of
      [src/src/v5/region.rs], over any allocator with the laws.
    - [Mpsc], [MpscFacts], [MpscSeq], [MpscConc], [MpscTheorems]: the ring of
      [src/src/v5/mpsc.rs] and [src/src/v5/release_queue.rs], as sequential code
      over byte memory and as a machine whose steps are the single shared accesses.
    - [LocalManager] and its [Facts], [Spec], [Alloc], [Prune], [Exec] and
      [Theorems]: the owner of a segment; [RemoteManager] and its files: the side
      that maps it.  Both are [src/src/v5/dynshm.rs].
    - [Protocol]: [src/src/protocol/header.rs] and [event.rs].  [BufReader]:
      [src/src/util/buf_reader.rs].  [Socket]: [Session::read_loop] and
      [handle_events] of [src/src/session/mod.rs], over a class of handlers
      ([Handlers]), and the frames of [Stream::frame_fallback]; its theorems are in
      [SocketTheorems].  [Writer]: the other half of the socket, [write_loop],
      [wait_for_send] and the wakeups of [src/src/session/mod.rs], step by step, over
      a class for the channel ([Channel]).
    - [StreamIo]: the wait of a reader in [src/src/stream.rs] ([read_more] and what is
      built on it) against deliveries and closes, over a class for the notifications
      ([Notify]).  [Compact]: the byte-stream adapter of [src/src/compact.rs].
    - [DataQueue], [DataQueueTheorems]: [src/src/v5/queue.rs].  [Wakeup]: the
      working flag between [Session::wake_up_peer] and the drain, interleaved.
    - [WriteBuf], [ReadBuf] and their files: [src/src/buffer/buf_v5.rs].  [Message]:
      a message written on one side and read on the other, and [Stream::flush_v5] with
      its retries.
    - [Session], [SessionFacts], [SessionTheorems]: the V5 drain, the handlers of
      socket events (an instance of [Handlers]), the stream map and the pool of
      [src/src/session/mod.rs] and [pool.rs], with the stream states of
      [src/src/stream.rs].  [StreamOrder] and its files: one direction of a
      session, from the senders over queue and socket to the readers.
    - [Config]: [src/src/config.rs].  [Negotiation]: the messages and choices of
      [src/src/protocol/negotiation.rs], over a class for the JSON codec.
      [Handshake], [HandshakeFacts], [HandshakeTheorems]: both sides of the
      handshake as blocking programs over a socket ([negotiation.rs], [adapter.rs],
      [block_io.rs], [initializer/mod.rs] and [initializer/v5.rs]), and [exchange],
      which runs them against each other.
    - [LegacyQueue], [LegacyQueueTheorems]: the queue of the older
      protocol versions, [src/src/queue.rs], with [put] and [pop] as code and as the
      sequence of their shared accesses, and the pair of rings of a session.
    - [LegacyBuf], [LegacyBufFacts], [LegacyListNew]: slices, their headers and the free
      lists of the older versions ([src/src/buffer/slice.rs], [list.rs]).
      [LegacyListConc], [LegacyListInv], [LegacyListTheorems]: the
      free list with threads of both processes in it, one shared access at a time.
      [LegacyManager], [LegacyManagerFacts], [LegacyManagerTheorems]: the manager of
      the lists, [src/src/buffer/manager.rs].
    - [LegacyPool]: what a client needs of a pool of slices and of a manager of it, as the
      classes [PoolLaws] and [ManagerLaws], with the manager of [LegacyManager] as an
      instance for either process.  [Linked]: the linked buffer a stream of the older
      versions writes into and reads out of, with the pins of its zero-copy readers
      ([src/src/buffer/linked.rs]); [LinkedFacts], [LinkedWrite], [LinkedPins],
      [LinkedRead], [LinkedHand] and [LinkedTheorems] are proved against the classes.
    - [LegacyStream], [LegacyStreamFacts], [LegacyStreamTheorems]: streams of the older
      versions, from the flush over queue or socket to the reader of the peer, and
      their close ([src/src/stream.rs], [src/src/session/mod.rs]).
    - [LegacyInit], [LegacyInitTheorems]: the initialisers of the older versions
      ([src/src/protocol/initializer]), the pool a client creates for them, and
      negotiation and initialisation of every version as one session start.
    - [Manager]: [src/src/session/manager.rs], the names of sessions, the turns in
      which they serve, and the task that replaces one that has ended.

    ** What the theorems show

    - Allocators and regions: the arena is tiled exactly by free and live blocks;
      an allocation is disjoint from everything live, writes only its header and
      fails only when nothing fits; a block is released once; with nothing live
      every admissible request succeeds; the coalescing scan equals its reference.
    - Segments: along every execution of the owner and the holders of buffers, live
      buffers stay in bounds, disjoint, stamped and unchanged; releases queued by
      the peer are freed exactly once; a chain handed back is freed block by block;
      whatever the peer wrote into the buffers, reads stay inside the mapping and walks
      end ([corrupt_turn_spins]: the release queue itself is trusted).
    - The ring: under any interleaving it is a bounded FIFO, its slots are touched
      by one thread at a time, an undisturbed push finishes; the data queue refines
      a bounded FIFO with a flag, and no wakeup is lost.
    - Buffers: a message comes out byte for byte, the reader's operations keep a
      ledger in which every block is in one place, and bytes on loan never change.
    - The socket: the read loop does the same however the bytes are cut; a framed
      message arrives whole.  The write loop and the wakeups written past it put whole
      frames on the wire, and who waits for one is told the truth; composed with the
      read loop, the peer handles exactly the messages sent, in order
      ([late_send_never_answered] and [early_shutdown_unnoticed] show what is missing).
    - Waiting: a reader never sleeps through data or a close ([eof_overtakes_data]: it may
      see the close first); the adapter yields the stream's bytes exactly
      ([shutdown_drops_unflushed]: its shutdown does not flush).
    - Sessions: the batched drain is delivery one by one, no block is lost in it,
      stream states only move forward, and every stream arrives in order over queue
      and socket together; a V5 flush hands a message over or gives its blocks back; the
      close of a session closes every stream it knows ([close_sends_nothing]: silently).
    - The handshake: two V5 peers always complete it, agree, and map what the other
      created; a negotiation fails with the error that permits a fallback exactly
      if no answer came; metadata round trips; the accepted configurations are
      characterised ([verify_wraps]: in 32 bits).
    - The older queue: under every interleaving of its accesses it is a bounded FIFO,
      and the two processes see the same pair of rings with their roles swapped.
    - The older buffers: with one thread popping, the free list never hands out a buffer
      that is held and loses none ([pop_aba] shows why one); creator and mapper see the
      same lists; allocation takes the smallest size that fits; a recycled message goes
      back to the lists it came from.
    - Linked buffers: what is written is what they contain; reading refines reading a byte
      string, borrowed values keep their bytes until they are dropped, and then every
      slice is back in the pool.
    - Older streams: a message written and flushed on one side is appended byte for byte
      to what the other side reads; a flush that does not reach the queue, and a close,
      return every slice.  Corners are lemmas of their own: [circle_never_moved],
      [reuse_swaps_unsent], [fallback_overtakes_v4], [close_overtakes_v4].
    - Older handshakes: whatever older version a client asks for, both ends complete, agree
      ([devshm_server_takes_eventfd]: also where the documentation says no),
      and have one pool and one pair of queues between them; sessions of a process have
      names of their own that fit a file name, and take turns fairly.

    ** Conventions

    A function that can panic returns an [option]; [None] is the panic.  Errors the
    source returns are values of [result].  Loops without a structural argument
    take fuel; the bound is computed from the input where the loop is called, and
    the theorems show the result is reached ([coalesce_until], [chain_walk] with
    [MAX_CHAIN_NODES], [drain_loop] of the release queue with the ring's length,
    [fill_loop] and [read_loop] with the bytes and the schedule, [frame_chunk] with
    the bytes of the chunk, the loops of [Linked] with the bytes to write or the slices
    of the buffer).  The chain of a V4 message has no bound in the source; its fuel is
    an argument, and the theorems ask for more than the chain is long.  Positions of
    the ring are taken to stay below 2^62, which a ring reaches after centuries;
    within it the wrapping differences of the source are exact.

    Assumptions the model makes: a release build, in which unchecked arithmetic wraps; atomics
    are sequentially consistent, except that the spin of [try_push] may see a released slot
    late; the host is
    little-endian with 64-bit [usize]; both mappings of a segment are one byte
    memory; the clock is read once per operation and is an argument;
    [Vec::with_capacity] gives the capacity asked for; hole punching is an argument
    that may only change bytes of the punched range.  In [StreamOrder] a drain sees
    everything that was published before it, and streams are not reused.

    ** Not modelled

    System calls and their wrappers ([src/src/v5/memfile.rs],
    [src/src/protocol/event_fd.rs], [src/src/transport.rs], [src/src/listener.rs]) have
    no behaviour of their own that a model could show: their results are arguments or
    choices.  Log lines, error texts and counters ([src/src/error.rs],
    [src/src/stats.rs]) influence nothing.  Timeouts of the handshake only end it with
    an error.  The tasks of a session that wait for a timer or a descriptor and then
    drain ([polling_loop], [eventfd_loop], [recv_loop]) add nothing to the drain; the
    circuit breaker is a flag with a timer.  The read loop is modelled without a
    shutdown in the middle, which ends it after some prefix.  Unmapping at the end of a
    session and the reference counts of [Arc] that decide when a stream is dropped
    belong to the memory model of the language, which the development does not have. *)

From Stdlib Require Import ZArith Lia Permutation.
From stdpp Require Import base numbers list gmap sorting.

#[local] Open Scope Z_scope.

(** ** Results

    [Result<A, E>] of the source.  A computation that can panic (an index or a
    slice out of range) returns an [option] around its result, [None] being the
    panic; [x ← e; k] is the option bind of stdpp. *)

Inductive result (E A : Type) : Type :=
| Ok (a : A)
| Err (e : E).

Arguments Ok {E A} a.

Arguments Err {E A} e.

Definition is_ok {E A} (r : result E A) : bool :=
  match r with Ok _ => true | Err _ => false end.

(** ** Machine integers

    [u32], [u64] and [usize] (64 bits on both supported targets) are integers
    of [Z] in range; the places where the source wraps, truncates or checks are
    written with the functions below. *)

Definition W16 : Z := 65536.

Definition W32 : Z := 4294967296.

Definition W64 : Z := 18446744073709551616.

Definition I64_MAX : Z := 9223372036854775807.

Definition wrap16 (z : Z) : Z := z mod W16.

Definition wrap32 (z : Z) : Z := z mod W32.

Definition wrap64 (z : Z) : Z := z mod W64.

(** Reinterpretation of 64 bits as a signed integer. *)
Definition to_i64 (z : Z) : Z := if wrap64 z <=? I64_MAX then wrap64 z else wrap64 z - W64.

(** [a.wrapping_sub(b)] on 64 bits. *)
Definition wrapping_sub (a b : Z) : Z := wrap64 (a - b).

(** [a.checked_add(b)] and [a.checked_sub(b)] on [usize]. *)
Definition checked_add (a b : Z) : option Z := if a + b <? W64 then Some (a + b) else None.

Definition checked_sub (a b : Z) : option Z := if b <=? a then Some (a - b) else None.

Definition saturating_sub (a b : Z) : Z := Z.max 0 (a - b).

(** [usize::try_from] on an [i64]. *)
Definition usize_try_from (z : Z) : option Z := if 0 <=? z then Some z else None.

Definition is_multiple_of (a b : Z) : bool := if b =? 0 then a =? 0 else a mod b =? 0.

Definition is_power_of_two (z : Z) : bool := (0 <? z) && (z =? 2 ^ Z.log2 z).

Definition next_power_of_two (z : Z) : Z := if z <=? 1 then 1 else 2 ^ Z.log2_up z.

Definition div_ceil (a b : Z) : Z := (a + b - 1) / b.

Fixpoint ctz_pos (p : positive) : Z :=
  match p with
  | xO q => 1 + ctz_pos q
  | _ => 0
  end.

(** [usize::trailing_zeros] and [usize::leading_zeros]. *)
Definition trailing_zeros (z : Z) : Z :=
  match z with Zpos p => ctz_pos p | _ => 64 end.

Definition leading_zeros (z : Z) : Z := if z =? 0 then 64 else 63 - Z.log2 z.

(** ** Byte memory

    A mapping is a finite map from addresses to byte cells, absent cells being
    the zeroes a fresh mapping holds.  Multi-byte accesses are little-endian,
    the native order of both targets the crate accepts. *)

Abbreviation mem := (gmap Z Z).

Definition rd (m : mem) (a : Z) : Z := default 0 (m !! a) mod 256.

Fixpoint load (n : nat) (m : mem) (a : Z) : Z :=
  match n with
  | O => 0
  | S n => rd m a + 256 * load n m (a + 1)
  end.

Fixpoint store (n : nat) (m : mem) (a v : Z) : mem :=
  match n with
  | O => m
  | S n => <[a := v mod 256]> (store n m (a + 1) (v / 256))
  end.

Definition load32 : mem -> Z -> Z := load 4.

Definition store32 : mem -> Z -> Z -> mem := store 4.

Definition load64 : mem -> Z -> Z := load 8.

Definition store64 : mem -> Z -> Z -> mem := store 8.

Definition load_i64 (m : mem) (a : Z) : Z := to_i64 (load 8 m a).

(** [ptr::copy] of a byte slice into memory, and its inverse. *)
Fixpoint write_bytes (m : mem) (a : Z) (bs : list Z) : mem :=
  match bs with
  | [] => m
  | b :: bs => <[a := b mod 256]> (write_bytes m (a + 1) bs)
  end.

Fixpoint read_bytes (m : mem) (a : Z) (n : nat) : list Z :=
  match n with
  | O => []
  | S n => rd m a :: read_bytes m (a + 1) n
  end.

Definition is_byte (b : Z) : Prop := 0 <= b < 256.

(** Two memories that agree on a range of addresses. *)
Definition mem_agree (lo hi : Z) (m m' : mem) : Prop := forall a, lo <= a < hi -> rd m a = rd m' a.

(** Two memories that agree everywhere but on a range. *)
Definition mem_frame (lo hi : Z) (m m' : mem) : Prop :=
  forall a, (a < lo \/ hi <= a) -> rd m' a = rd m a.

(** ** Automation *)

Create HintDb shm.

(** Turns the boolean tests of the code into propositions. *)
Ltac bools :=
  repeat match goal with
  | H : andb _ _ = true |- _ => apply andb_true_iff in H as [? ?]
  | H : andb _ _ = false |- _ => apply andb_false_iff in H
  | H : orb _ _ = true |- _ => apply orb_true_iff in H
  | H : orb _ _ = false |- _ => apply orb_false_iff in H as [? ?]
  | H : negb _ = true |- _ => apply negb_true_iff in H
  | H : negb _ = false |- _ => apply negb_false_iff in H
  | H : (_ <=? _) = true |- _ => apply Z.leb_le in H
  | H : (_ <=? _) = false |- _ => apply Z.leb_gt in H
  | H : (_ <? _) = true |- _ => apply Z.ltb_lt in H
  | H : (_ <? _) = false |- _ => apply Z.ltb_ge in H
  | H : (_ =? _) = true |- _ => apply Z.eqb_eq in H
  | H : (_ =? _) = false |- _ => apply Z.eqb_neq in H
  | H : (_ >? _) = true |- _ => rewrite Z.gtb_ltb in H; apply Z.ltb_lt in H
  | H : (_ >? _) = false |- _ => rewrite Z.gtb_ltb in H; apply Z.ltb_ge in H
  | H : (_ >=? _) = true |- _ => rewrite Z.geb_leb in H; apply Z.leb_le in H
  | H : (_ >=? _) = false |- _ => rewrite Z.geb_leb in H; apply Z.leb_gt in H
  | H : (_ =? _)%nat = true |- _ => apply Nat.eqb_eq in H
  | H : (_ =? _)%nat = false |- _ => apply Nat.eqb_neq in H
  | H : (_ <? _)%nat = true |- _ => apply Nat.ltb_lt in H
  | H : (_ <? _)%nat = false |- _ => apply Nat.ltb_ge in H
  | H : (_ <=? _)%nat = true |- _ => apply Nat.leb_le in H
  | H : (_ <=? _)%nat = false |- _ => apply Nat.leb_gt in H
  end.

(** The same, splitting the disjunctions of tests as well. *)
Ltac bcases :=
  bools;
  repeat match goal with
  | H : _ = true \/ _ |- _ => destruct H as [H|H]; bools
  | H : _ = false \/ _ |- _ => destruct H as [H|H]; bools
  end.

(** Splits on the boolean test the goal is stuck on. *)
Ltac case_if :=
  match goal with
  | |- context [if ?b then _ else _] =>
      match type of b with bool => let E := fresh "E" in destruct b eqn:E end
  end.

Ltac case_if_in H :=
  match type of H with
  | context [if ?b then _ else _] =>
      match type of b with bool => let E := fresh "E" in destruct b eqn:E end
  end.

(** Follows an executed match in a hypothesis to the branch that was taken. *)
Ltac step_match H :=
  match type of H with
  | context [match ?e with _ => _ end] => let E := fresh "E" in destruct e eqn:E
  end.

(** ** Lemmas on machine integers *)

Lemma wrap64_small (z : Z) : 0 <= z < W64 -> wrap64 z = z.
Proof. intros. apply Z.mod_small. done. Qed.

Lemma wrap32_small (z : Z) : 0 <= z < W32 -> wrap32 z = z.
Proof. intros. apply Z.mod_small. done. Qed.

Lemma wrap32_bound (z : Z) : 0 <= wrap32 z < W32.
Proof. apply Z.mod_pos_bound. done. Qed.

Lemma wrap64_bound (z : Z) : 0 <= wrap64 z < W64.
Proof. apply Z.mod_pos_bound. done. Qed.

Lemma to_i64_small (z : Z) : 0 <= z <= I64_MAX -> to_i64 z = z.
Proof.
  intros H. unfold to_i64. rewrite wrap64_small by (unfold I64_MAX, W64 in *; lia).
  case_if; bools; lia.
Qed.

Lemma to_i64_wrap (z : Z) : - (I64_MAX + 1) <= z <= I64_MAX -> to_i64 (wrap64 z) = z.
Proof.
  intros H. unfold to_i64, wrap64, I64_MAX, W64 in *.
  rewrite Z.mod_mod by done.
  destruct (Z_le_gt_dec 0 z).
  - rewrite Z.mod_small by lia. case_if; bools; lia.
  - rewrite <- (Z.mod_unique z 18446744073709551616 (-1) (z + 18446744073709551616)) by lia.
    case_if; bools; lia.
Qed.

Lemma to_i64_range (z : Z) : - (I64_MAX + 1) <= to_i64 z <= I64_MAX.
Proof.
  unfold to_i64. pose proof (wrap64_bound z). unfold I64_MAX, W64 in *.
  case_if; bools; lia.
Qed.

Lemma is_power_of_two_spec (z : Z) :
  is_power_of_two z = true <-> exists k, 0 <= k /\ z = 2 ^ k.
Proof.
  unfold is_power_of_two. split.
  - intros H. bools. exists (Z.log2 z). split; [apply Z.log2_nonneg | done].
  - intros (k & Hk & ->). apply andb_true_iff. rewrite Z.log2_pow2 by done.
    split; [apply Z.ltb_lt, Z.pow_pos_nonneg; lia | apply Z.eqb_refl].
Qed.

Lemma ctz_pos_spec (p : positive) : exists q, Zpos p = (2 * q + 1) * 2 ^ ctz_pos p.
Proof.
  induction p as [p _ | p [q IH] | ].
  - exists (Zpos p). change (ctz_pos p~1) with 0. rewrite Pos2Z.inj_xI. lia.
  - exists q. rewrite Pos2Z.inj_xO, IH. change (ctz_pos p~0) with (1 + ctz_pos p).
    assert (0 <= ctz_pos p) by (clear; induction p; simpl; lia).
    rewrite Z.pow_add_r, Z.pow_1_r by lia. ring.
  - exists 0. done.
Qed.

Lemma ctz_pos_nonneg (p : positive) : 0 <= ctz_pos p.
Proof. induction p; simpl; lia. Qed.

Lemma trailing_zeros_pow2 (k : Z) : 0 <= k -> trailing_zeros (2 ^ k) = k.
Proof.
  intros Hk. assert (0 < 2 ^ k) by (apply Z.pow_pos_nonneg; lia).
  destruct (2 ^ k) as [|p|] eqn:Ep; try lia. simpl.
  destruct (ctz_pos_spec p) as [q Hq]. pose proof (ctz_pos_nonneg p).
  rewrite <- Ep in Hq.
  destruct (Z.lt_trichotomy (ctz_pos p) k) as [Hlt | [Heq | Hgt]]; [| done |].
  - replace k with (ctz_pos p + 1 + (k - ctz_pos p - 1)) in Hq by lia.
    rewrite !Z.pow_add_r, Z.pow_1_r in Hq by lia.
    assert (0 < 2 ^ ctz_pos p) by (apply Z.pow_pos_nonneg; lia).
    assert (2 * 2 ^ (k - ctz_pos p - 1) = 2 * q + 1); [|lia].
    apply (Z.mul_reg_l _ _ (2 ^ ctz_pos p)); lia.
  - replace (ctz_pos p) with (k + 1 + (ctz_pos p - k - 1)) in Hq by lia.
    rewrite !Z.pow_add_r, Z.pow_1_r in Hq by lia.
    assert (1 = 2 * ((2 * q + 1) * 2 ^ (ctz_pos p - k - 1))); [|lia].
    apply (Z.mul_reg_l _ _ (2 ^ k)); lia.
Qed.

(** The index of the smallest power of two that holds [z], as the code takes
    it from [leading_zeros]. *)
Lemma leading_zeros_log2_up (z : Z) : 2 <= z -> 64 - leading_zeros (z - 1) = Z.log2_up z.
Proof.
  intros Hz. unfold leading_zeros. case_if; bools; [lia|].
  rewrite Z.log2_up_eqn by lia. replace (Z.pred z) with (z - 1) by lia. lia.
Qed.

Lemma land_pow2_mask (a k : Z) : 0 <= k -> Z.land a (2 ^ k - 1) = a mod 2 ^ k.
Proof.
  intros Hk. rewrite <- Z.land_ones by done. f_equal. rewrite Z.ones_equiv. lia.
Qed.

Lemma lxor_even_block (q k : Z) :
  0 <= k -> Z.even q = true -> Z.lxor (q * 2 ^ k) (2 ^ k) = q * 2 ^ k + 2 ^ k.
Proof.
  intros Hk Hq. symmetry. apply Z.add_nocarry_lxor.
  rewrite <- Z.shiftl_mul_pow2, <- (Z.mul_1_l (2 ^ k)), <- Z.shiftl_mul_pow2 by done.
  rewrite <- Z.shiftl_land. replace (Z.land q 1) with 0; [apply Z.shiftl_0_l|].
  symmetry. change 1 with (Z.ones 1). rewrite Z.land_ones by lia.
  apply Z.even_spec in Hq as [r ->]. rewrite Z.pow_1_r, Z.mul_comm. apply Z.mod_mul. lia.
Qed.

Lemma lxor_odd_block (q k : Z) :
  0 <= k -> Z.even q = false -> Z.lxor (q * 2 ^ k) (2 ^ k) = q * 2 ^ k - 2 ^ k.
Proof.
  intros Hk Hq. assert (Z.even (q - 1) = true) as He.
  { rewrite Z.even_sub, Hq. done. }
  pose proof (lxor_even_block (q - 1) k Hk He) as Hx.
  replace (q * 2 ^ k) with ((q - 1) * 2 ^ k + 2 ^ k) by lia.
  rewrite <- Hx, Z.lxor_assoc, Z.lxor_nilpotent, Z.lxor_0_r. lia.
Qed.

(** ** Lemmas on memory *)

Lemma rd_bound (m : mem) (a : Z) : 0 <= rd m a < 256.
Proof. apply Z.mod_pos_bound. done. Qed.

Lemma rd_insert_eq (m : mem) (a b : Z) : rd (<[a := b]> m) a = b mod 256.
Proof. unfold rd. by rewrite lookup_insert_eq. Qed.

Lemma rd_insert_ne (m : mem) (a a' b : Z) : a <> a' -> rd (<[a := b]> m) a' = rd m a'.
Proof. intros. unfold rd. by rewrite lookup_insert_ne. Qed.

Lemma load_bound (n : nat) (m : mem) (a : Z) : 0 <= load n m a < 256 ^ Z.of_nat n.
Proof.
  revert a. induction n as [|n IH]; intros a; [done|].
  cbn [load]. pose proof (rd_bound m a). specialize (IH (a + 1)).
  rewrite Nat2Z.inj_succ, Z.pow_succ_r by lia. lia.
Qed.

Lemma load32_bound (m : mem) (a : Z) : 0 <= load32 m a < W32.
Proof. apply (load_bound 4). Qed.

Lemma rd_store_out (n : nat) (m : mem) (a v x : Z) :
  (x < a \/ a + Z.of_nat n <= x) -> rd (store n m a v) x = rd m x.
Proof.
  revert a v. induction n as [|n IH]; intros a v Hx; [done|].
  cbn [store]. rewrite rd_insert_ne by lia. apply IH. lia.
Qed.

Lemma load_ext (n : nat) (m m' : mem) (a : Z) :
  (forall x, a <= x < a + Z.of_nat n -> rd m x = rd m' x) -> load n m a = load n m' a.
Proof.
  revert a. induction n as [|n IH]; intros a H; [done|].
  cbn [load]. rewrite H by lia. rewrite (IH (a + 1)); [done|].
  intros x Hx. apply H. lia.
Qed.

Lemma load_store_same (n : nat) (m : mem) (a v : Z) :
  load n (store n m a v) a = v mod 256 ^ Z.of_nat n.
Proof.
  revert a v. induction n as [|n IH]; intros a v.
  - simpl. by rewrite Z.mod_1_r.
  - cbn [load store]. rewrite rd_insert_eq, Z.mod_mod by done.
    rewrite (load_ext n _ (store n m (a + 1) (v / 256)) (a + 1)).
    2:{ intros x Hx. apply rd_insert_ne. lia. }
    rewrite IH, Nat2Z.inj_succ, Z.pow_succ_r by lia.
    rewrite Z.rem_mul_r by (try lia; apply Z.pow_nonzero; lia). done.
Qed.

Lemma load_store_other (n k : nat) (m : mem) (a b v : Z) :
  (a + Z.of_nat n <= b \/ b + Z.of_nat k <= a) -> load n (store k m b v) a = load n m a.
Proof. intros H. apply load_ext. intros x Hx. apply rd_store_out. lia. Qed.

Lemma load32_store32_same (m : mem) (a v : Z) : load32 (store32 m a v) a = wrap32 v.
Proof. apply (load_store_same 4). Qed.

Lemma load64_store64_same (m : mem) (a v : Z) : load64 (store64 m a v) a = wrap64 v.
Proof. apply (load_store_same 8). Qed.

Lemma load_i64_store64_same (m : mem) (a v : Z) :
  - (I64_MAX + 1) <= v <= I64_MAX -> load_i64 (store64 m a v) a = v.
Proof.
  intros H. unfold load_i64, store64. rewrite load_store_same. apply (to_i64_wrap v H).
Qed.

Lemma mem_frame_refl (lo hi : Z) (m : mem) : mem_frame lo hi m m.
Proof. done. Qed.

Lemma mem_frame_trans (lo hi : Z) (m1 m2 m3 : mem) :
  mem_frame lo hi m1 m2 -> mem_frame lo hi m2 m3 -> mem_frame lo hi m1 m3.
Proof. intros H1 H2 a Ha. by rewrite H2, H1. Qed.

Lemma mem_frame_weaken (lo hi lo' hi' : Z) (m m' : mem) :
  lo' <= lo -> hi <= hi' -> mem_frame lo hi m m' -> mem_frame lo' hi' m m'.
Proof. intros ?? H a Ha. apply H. lia. Qed.

Lemma mem_frame_store (n : nat) (lo hi : Z) (m : mem) (a v : Z) :
  lo <= a -> a + Z.of_nat n <= hi -> mem_frame lo hi m (store n m a v).
Proof. intros ?? x Hx. apply rd_store_out. lia. Qed.

Lemma load_frame (n : nat) (lo hi : Z) (m m' : mem) (a : Z) :
  mem_frame lo hi m m' -> (a + Z.of_nat n <= lo \/ hi <= a) -> load n m' a = load n m a.
Proof. intros H Ha. apply load_ext. intros x Hx. apply H. lia. Qed.

Lemma rd_write_bytes_out (m : mem) (a x : Z) (bs : list Z) :
  (x < a \/ a + Z.of_nat (length bs) <= x) -> rd (write_bytes m a bs) x = rd m x.
Proof.
  revert a. induction bs as [|b bs IH]; intros a Hx; [done|].
  cbn [write_bytes length] in *. rewrite rd_insert_ne by lia. apply IH. lia.
Qed.

Lemma read_bytes_length (m : mem) (a : Z) (n : nat) : length (read_bytes m a n) = n.
Proof. revert a. induction n as [|n IH]; intros a; [done|]. simpl. by rewrite IH. Qed.

Lemma read_bytes_ext (m m' : mem) (a : Z) (n : nat) :
  (forall x, a <= x < a + Z.of_nat n -> rd m x = rd m' x) -> read_bytes m a n = read_bytes m' a n.
Proof.
  revert a. induction n as [|n IH]; intros a H; [done|].
  cbn [read_bytes]. rewrite H by lia. f_equal. apply IH. intros x Hx. apply H. lia.
Qed.

Lemma read_write_bytes (m : mem) (a : Z) (bs : list Z) :
  Forall is_byte bs -> read_bytes (write_bytes m a bs) a (length bs) = bs.
Proof.
  revert a. induction bs as [|b bs IH]; intros a Hb; [done|].
  apply Forall_cons in Hb as [Hb Hbs]. cbn [write_bytes length read_bytes].
  rewrite rd_insert_eq, Z.mod_mod, Z.mod_small by (done || apply Hb). f_equal.
  rewrite (read_bytes_ext _ (write_bytes m (a + 1) bs)); [by apply IH|].
  intros x Hx. apply rd_insert_ne. lia.
Qed.

Lemma read_bytes_app (m : mem) (a : Z) (n k : nat) :
  read_bytes m a (n + k) = read_bytes m a n ++ read_bytes m (a + Z.of_nat n) k.
Proof.
  revert a. induction n as [|n IH]; intros a.
  - simpl. by rewrite Z.add_0_r.
  - cbn [Nat.add read_bytes app]. rewrite IH. do 3 f_equal. lia.
Qed.

Lemma mem_frame_write_bytes (lo hi : Z) (m : mem) (a : Z) (bs : list Z) :
  lo <= a -> a + Z.of_nat (length bs) <= hi -> mem_frame lo hi m (write_bytes m a bs).
Proof. intros ?? x Hx. apply rd_write_bytes_out. lia. Qed.

Lemma load_zero (n : nat) (m : mem) (a : Z) :
  (forall x, a <= x < a + Z.of_nat n -> rd m x = 0) -> load n m a = 0.
Proof.
  revert a. induction n as [|n IH]; intros a Hz; [done|].
  cbn [load]. rewrite Hz by lia. rewrite IH; [done|]. intros x Hx. apply Hz. lia.
Qed.

Lemma rd_zeroed (m : mem) (a : Z) (n : nat) (x : Z) :
  a <= x < a + Z.of_nat n -> rd (write_bytes m a (repeat 0 n)) x = 0.
Proof.
  revert a. induction n as [|n IH]; intros a Hx; [lia|]. cbn [repeat write_bytes].
  destruct (Z.eq_dec a x) as [->|Hne].
  - by rewrite rd_insert_eq.
  - rewrite rd_insert_ne by done. apply IH. lia.
Qed.

#[export] Hint Resolve mem_frame_refl mem_frame_trans rd_bound : shm.

(** ** Lemmas on lists *)

(** [Vec::pop]. *)
Definition vec_pop {A} (l : list A) : option (A * list A) :=
  match last l with
  | Some x => Some (x, take (length l - 1) l)
  | None => None
  end.

Lemma vec_pop_snoc {A} (l : list A) (x : A) : vec_pop (l ++ [x]) = Some (x, l).
Proof.
  unfold vec_pop. rewrite last_snoc, length_app. cbn [length].
  replace (length l + 1 - 1)%nat with (length l) by lia.
  by rewrite take_app_length.
Qed.

Lemma vec_pop_Some {A} (l l' : list A) (x : A) : vec_pop l = Some (x, l') -> l = l' ++ [x].
Proof.
  destruct (decide (l = [])) as [->|Hne]; [done|].
  destruct (exists_last Hne) as (l0 & y & ->). rewrite vec_pop_snoc. by intros [= -> ->].
Qed.

Lemma vec_pop_None {A} (l : list A) : vec_pop l = None -> l = [].
Proof.
  destruct (decide (l = [])) as [->|Hne]; [done|].
  destruct (exists_last Hne) as (l0 & y & ->). by rewrite vec_pop_snoc.
Qed.

(** A member of a list other than the one named at a split. *)
Lemma in_others {A} (l1 l2 : list A) (s t : A) :
  In t (l1 ++ s :: l2) -> t <> s -> In t (l1 ++ l2).
Proof. rewrite !in_app_iff. intros [?|[?|?]] ?; [auto|congruence|auto]. Qed.

(** Multi-byte accesses are reasoned about through their lemmas. *)
#[global] Arguments load : simpl never.

#[global] Arguments store : simpl never.

#[global] Arguments load32 : simpl never.

#[global] Arguments store32 : simpl never.

#[global] Arguments load64 : simpl never.

#[global] Arguments store64 : simpl never.

#[global] Arguments read_bytes : simpl never.

#[global] Arguments write_bytes : simpl never.
