(* ===== verification/Header.v ===== *)
(** * Block headers and the allocator interface ([src/src/v5/region.rs])

    The constants, error values and [Allocation] record every region allocator
    shares, the eight-byte block header [[MAGIC:4][order/len:4]] with its three
    accessors, and the trait [Allocator] as a class of operations with a second
    class of laws.  The laws are what a region relies on; [Buddy] and [Fixed]
    discharge them. *)

From S2P Require Import Prelude.
From Stdlib Require Import ZArith Lia.
From stdpp Require Import base numbers list gmap.

#[local] Open Scope Z_scope.

Definition MAGIC : Z := 195948557.

Definition MAGIC_SIZE : Z := 4.

Definition ALLOCATOR_HEADER_SIZE : Z := 8.

(** [region::Error]. *)
Inductive Error : Type :=
| InvalidArenaSize
| BlockSizeNotPowerOfTwo
| InvalidBlockSizeOrder
| BlockTooSmallForHeader
| InvalidSizeClassConfiguration
| InvalidOffset
| NotAllocated
| CorruptMetadata.

#[export] Instance Error_eq_dec : EqDecision Error.
Proof. solve_decision. Defined.

Record Allocation : Type := mkAllocation {
  block_offset : Z;
  data_offset : Z;
  alloc_len : Z;
  alloc_cap : Z;
}.

(** A [&mut [u8]] over part of a mapping: where it starts and its length. *)
Record arena : Type := mkArena {
  a_base : Z;
  a_len : Z;
}.

(** [None] when a whole header does not lie inside the arena. *)
Definition read_header (ar : arena) (m : mem) (offset : Z) : option (Z * Z) :=
  stop ← checked_add offset ALLOCATOR_HEADER_SIZE;
  if stop <=? a_len ar
  then Some (load32 m (a_base ar + offset), load32 m (a_base ar + offset + MAGIC_SIZE))
  else None.

(** Panics ([None]) when the header does not fit the arena. *)
Definition write_header (ar : arena) (m : mem) (offset value : Z) : option mem :=
  if offset + ALLOCATOR_HEADER_SIZE <=? a_len ar
  then Some (store32 (store32 m (a_base ar + offset) MAGIC)
                     (a_base ar + offset + MAGIC_SIZE) (wrap32 value))
  else None.

Definition clear_magic (ar : arena) (m : mem) (offset : Z) : option mem :=
  if offset + MAGIC_SIZE <=? a_len ar
  then Some (store32 m (a_base ar + offset) 0)
  else None.

(** ** The trait *)

Class Allocator (A : Type) : Type := {
  alloc : A -> arena -> mem -> Z -> option (option Allocation * A * mem);
  max_allocation : A -> Z;
  free : A -> arena -> mem -> Allocation -> option (result Error unit * A * mem);
  free_at : A -> arena -> mem -> Z -> option (result Error unit * A * mem);
  is_valid_offset : A -> Z -> bool;
  available : A -> Z;
  reset : A -> arena -> mem -> option (result Error unit * A * mem);
}.

(** A block handed out and not yet released: where it starts in the arena and
    how many bytes it spans, its header included. *)
Record span : Type := mkSpan {
  sp_off : Z;
  sp_size : Z;
}.

#[export] Instance span_eq_dec : EqDecision span.
Proof. solve_decision. Defined.

Definition span_disjoint (s t : span) : Prop :=
  sp_off s + sp_size s <= sp_off t \/ sp_off t + sp_size t <= sp_off s.

(** What an operation never changes: the largest request and the valid offsets. *)
Definition same_shape {A : Type} `{Allocator A} (a a' : A) : Prop :=
  max_allocation a' = max_allocation a /\
  forall off, is_valid_offset a' off = is_valid_offset a off.

(** What a region relies on.  [alloc_ok a ar m live] says that [a] is in a
    consistent state over [ar] with exactly the blocks [live] handed out. *)
Class AllocatorLaws (A : Type) `{Allocator A} : Type := {
  alloc_ok : A -> arena -> mem -> list span -> Prop;
  law_bounds : forall a ar m live s,
    alloc_ok a ar m live -> In s live ->
    0 <= sp_off s /\ ALLOCATOR_HEADER_SIZE < sp_size s /\ sp_off s + sp_size s <= a_len ar;
  law_disjoint : forall a ar m l1 s l2 t l3,
    alloc_ok a ar m (l1 ++ s :: l2 ++ t :: l3) -> span_disjoint s t;
  law_valid : forall a ar m live s,
    alloc_ok a ar m live -> In s live ->
    is_valid_offset a (sp_off s + ALLOCATOR_HEADER_SIZE) = true;
  law_valid_bounds : forall a ar m live off,
    alloc_ok a ar m live -> is_valid_offset a off = true ->
    ALLOCATOR_HEADER_SIZE <= off <= a_len ar;
  law_frame : forall a ar m m' live,
    alloc_ok a ar m live ->
    (forall s x, In s live -> sp_off s <= x < sp_off s + ALLOCATOR_HEADER_SIZE ->
       rd m' (a_base ar + x) = rd m (a_base ar + x)) ->
    alloc_ok a ar m' live;
  law_alloc : forall a ar m live size,
    alloc_ok a ar m live -> 0 <= size ->
    exists r a' m', alloc a ar m size = Some (r, a', m') /\
      same_shape a a' /\
      match r with
      | None => m' = m /\ alloc_ok a' ar m live
      | Some al => exists sz,
          alloc_ok a' ar m' (mkSpan (block_offset al) sz :: live) /\
          data_offset al = block_offset al + ALLOCATOR_HEADER_SIZE /\
          alloc_len al = size /\ 0 < size <= alloc_cap al /\
          alloc_cap al = sz - ALLOCATOR_HEADER_SIZE /\
          mem_frame (a_base ar + block_offset al)
                    (a_base ar + block_offset al + ALLOCATOR_HEADER_SIZE) m m'
      end;
  law_free_at : forall a ar m l1 s l2,
    alloc_ok a ar m (l1 ++ s :: l2) ->
    exists a' m',
      free_at a ar m (sp_off s + ALLOCATOR_HEADER_SIZE) = Some (Ok tt, a', m') /\
      same_shape a a' /\
      alloc_ok a' ar m' (l1 ++ l2) /\
      mem_frame (a_base ar + sp_off s) (a_base ar + sp_off s + ALLOCATOR_HEADER_SIZE) m m';
  law_reset : forall a ar m live,
    alloc_ok a ar m live ->
    exists a', reset a ar m = Some (Ok tt, a', m) /\
      same_shape a a' /\ alloc_ok a' ar m [];
}.

(** ** Lemmas on headers *)

Lemma read_header_Some (ar : arena) (m : mem) (off : Z) :
  0 <= off -> off + 8 <= a_len ar -> a_len ar < W64 ->
  read_header ar m off =
    Some (load32 m (a_base ar + off), load32 m (a_base ar + off + 4)).
Proof.
  intros. unfold read_header, checked_add, ALLOCATOR_HEADER_SIZE.
  rewrite (proj2 (Z.ltb_lt _ _)) by lia. cbn. by rewrite (proj2 (Z.leb_le _ _)).
Qed.

Lemma read_header_inv (ar : arena) (m : mem) (off : Z) (x y : Z) :
  read_header ar m off = Some (x, y) ->
  off + 8 <= a_len ar /\ x = load32 m (a_base ar + off) /\ y = load32 m (a_base ar + off + 4).
Proof.
  unfold read_header, checked_add, ALLOCATOR_HEADER_SIZE. intros H.
  case_if_in H; [|done]. cbn in H. case_if_in H; [|done]. injection H as <- <-. bools. done.
Qed.

Lemma write_header_Some (ar : arena) (m : mem) (off v : Z) :
  off + 8 <= a_len ar -> exists m', write_header ar m off v = Some m'.
Proof.
  intros. unfold write_header, ALLOCATOR_HEADER_SIZE.
  rewrite (proj2 (Z.leb_le _ _)) by lia. eauto.
Qed.

Lemma write_header_spec (ar : arena) (m m' : mem) (off v : Z) :
  write_header ar m off v = Some m' ->
  load32 m' (a_base ar + off) = MAGIC /\
  load32 m' (a_base ar + off + 4) = wrap32 v /\
  mem_frame (a_base ar + off) (a_base ar + off + 8) m m'.
Proof.
  unfold write_header, MAGIC_SIZE. intros H. case_if_in H; [|done]. injection H as <-.
  repeat split.
  - unfold load32, store32. rewrite load_store_other by lia. by rewrite load_store_same.
  - rewrite load32_store32_same. unfold wrap32. apply Z.mod_mod. done.
  - eapply mem_frame_trans; apply mem_frame_store; lia.
Qed.

Lemma clear_magic_spec (ar : arena) (m : mem) (off : Z) :
  off + 8 <= a_len ar ->
  exists m', clear_magic ar m off = Some m' /\
    load32 m' (a_base ar + off) = 0 /\
    mem_frame (a_base ar + off) (a_base ar + off + 8) m m'.
Proof.
  intros. unfold clear_magic, MAGIC_SIZE. rewrite (proj2 (Z.leb_le _ _)) by lia.
  eexists. split; [done|]. rewrite load32_store32_same. split; [done|].
  apply mem_frame_store; lia.
Qed.

(** Header words survive a change elsewhere in the arena. *)
Lemma load32_frame (lo hi : Z) (m m' : mem) (a : Z) :
  mem_frame lo hi m m' -> (a + 4 <= lo \/ hi <= a) -> load32 m' a = load32 m a.
Proof. intros H Ha. apply (load_frame 4 lo hi); [done | simpl; lia]. Qed.
