(* ===== verification/BufHeader.v ===== *)
(** * Buffer headers ([DynShmBufferHeader] of [src/src/v5/dynshm.rs])

    The 24-byte header [[offset:8][next:8][len:4][cap:4]] at the start of every
    buffer of a segment, and the three operations that touch its data:
    [data], [reserve] and [append]. *)

From S2P Require Import Prelude.
From Stdlib Require Import ZArith Lia.
From stdpp Require Import base numbers list gmap.

#[local] Open Scope Z_scope.

Definition DYNSHM_BUFFER_HEADER_SIZE : Z := 24.

Record DynShmBufferHeader : Type := mkHdr {
  h_offset : Z;
  h_next : Z;
  h_len : Z;
  h_cap : Z;
}.

#[export] Instance DynShmBufferHeader_eq_dec : EqDecision DynShmBufferHeader.
Proof. solve_decision. Defined.

Definition default_header : DynShmBufferHeader := mkHdr 0 0 0 0.

(** Field accesses through a pointer [p]. *)
Definition get_offset (m : mem) (p : Z) : Z := load_i64 m p.

Definition get_next (m : mem) (p : Z) : Z := load_i64 m (p + 8).

Definition get_len (m : mem) (p : Z) : Z := load32 m (p + 16).

Definition get_cap (m : mem) (p : Z) : Z := load32 m (p + 20).

Definition set_offset (m : mem) (p v : Z) : mem := store64 m p v.

Definition set_next (m : mem) (p v : Z) : mem := store64 m (p + 8) v.

Definition set_len (m : mem) (p v : Z) : mem := store32 m (p + 16) v.

Definition set_cap (m : mem) (p v : Z) : mem := store32 m (p + 20) v.

(** [ptr::read_unaligned] and the assignment of a whole header. *)
Definition get_hdr (m : mem) (p : Z) : DynShmBufferHeader :=
  mkHdr (get_offset m p) (get_next m p) (get_len m p) (get_cap m p).

Definition put_hdr (m : mem) (p : Z) (h : DynShmBufferHeader) : mem :=
  set_cap (set_len (set_next (set_offset m p (h_offset h)) p (h_next h)) p (h_len h)) p (h_cap h).

(** The bytes written into the block so far. *)
Definition data (m : mem) (hdr : Z) : list Z :=
  read_bytes m (hdr + DYNSHM_BUFFER_HEADER_SIZE) (Z.to_nat (get_len m hdr)).

(** The address of the new room and the memory with the length extended. *)
Definition reserve (m : mem) (hdr size : Z) : option (Z * mem) :=
  let start := get_len m hdr in
  let cap := get_cap m hdr in
  stop ← checked_add start size;
  if stop >? cap then None
  else Some (hdr + (DYNSHM_BUFFER_HEADER_SIZE + start), set_len m hdr (wrap32 stop)).

Definition append (m : mem) (hdr : Z) (payload : list Z) : bool * mem :=
  match reserve m hdr (Z.of_nat (length payload)) with
  | Some (room, m') => (true, write_bytes m' room payload)
  | None => (false, m)
  end.

(** ** Lemmas *)

(** A header whose fields fit their widths. *)
Definition hdr_ok (h : DynShmBufferHeader) : Prop :=
  - (I64_MAX + 1) <= h_offset h <= I64_MAX /\ - (I64_MAX + 1) <= h_next h <= I64_MAX /\
  0 <= h_len h < W32 /\ 0 <= h_cap h < W32.

Lemma mem_frame_put_hdr (m : mem) (p : Z) (h : DynShmBufferHeader) :
  mem_frame p (p + 24) m (put_hdr m p h).
Proof.
  unfold put_hdr, set_cap, set_len, set_next, set_offset, store32, store64.
  repeat (eapply mem_frame_trans; [|apply mem_frame_store; simpl; lia]). apply mem_frame_refl.
Qed.

Ltac field :=
  unfold get_offset, get_next, get_len, get_cap, set_offset, set_next, set_len, set_cap,
    load_i64, load32, store32, store64 in *.

Lemma get_put_hdr (m : mem) (p : Z) (h : DynShmBufferHeader) :
  hdr_ok h -> get_hdr (put_hdr m p h) p = h.
Proof.
  intros (H1 & H2 & H3 & H4). unfold get_hdr, put_hdr. destruct h as [o n l c]. cbn in *.
  f_equal; field.
  - rewrite !load_store_other by (simpl; lia). by apply load_i64_store64_same.
  - rewrite !(load_store_other 8 4) by (simpl; lia). by apply load_i64_store64_same.
  - rewrite load_store_other by (simpl; lia). rewrite load_store_same. by apply Z.mod_small.
  - rewrite load_store_same. by apply Z.mod_small.
Qed.

Lemma get_hdr_ext (m m' : mem) (p : Z) :
  (forall x, p <= x < p + 24 -> rd m' x = rd m x) -> get_hdr m' p = get_hdr m p.
Proof.
  intros H. assert (L : forall n a, p <= a -> a + Z.of_nat n <= p + 24 -> load n m' a = load n m a).
  { intros n a H1 H2. apply load_ext. intros x Hx. apply H. lia. }
  unfold get_hdr. field. rewrite !L by (simpl; lia). done.
Qed.

Lemma get_hdr_frame (lo hi : Z) (m m' : mem) (p : Z) :
  mem_frame lo hi m m' -> (p + 24 <= lo \/ hi <= p) -> get_hdr m' p = get_hdr m p.
Proof. intros Hf Hp. apply get_hdr_ext. intros x Hx. apply Hf. lia. Qed.

(** The four assignments that stamp a freshly allocated buffer. *)
Lemma stamp_spec (m m' : mem) (p off len cap : Z) :
  hdr_ok (mkHdr off 0 len cap) ->
  m' = set_next (set_cap (set_len (set_offset m p off) p len) p cap) p 0 ->
  get_hdr m' p = mkHdr off 0 len cap /\ mem_frame p (p + 24) m m'.
Proof.
  intros (H1 & H2 & H3 & H4) ->. cbn in *. split.
  - unfold get_hdr. field. f_equal.
    + rewrite !(load_store_other 8 8), !(load_store_other 8 4) by (simpl; lia).
      by apply load_i64_store64_same.
    + by apply load_i64_store64_same.
    + rewrite !(load_store_other 4 8), (load_store_other 4 4) by (simpl; lia).
      rewrite load_store_same. by apply Z.mod_small.
    + rewrite !(load_store_other 4 8) by (simpl; lia).
      rewrite load_store_same. by apply Z.mod_small.
  - field. repeat (eapply mem_frame_trans; [|apply mem_frame_store; simpl; lia]).
    apply mem_frame_refl.
Qed.

Lemma get_len_bound (m : mem) (p : Z) : 0 <= get_len m p < W32.
Proof. apply load32_bound. Qed.

Lemma get_cap_bound (m : mem) (p : Z) : 0 <= get_cap m p < W32.
Proof. apply load32_bound. Qed.

(** ** The data of a block under [append] *)

(** A block with its header at [hdr]: what [append] touches is its length field
    and the room between the old and the new length. *)
Lemma append_spec (m : mem) (hdr : Z) (payload : list Z) :
  Forall is_byte payload -> get_len m hdr <= get_cap m hdr ->
  let n := Z.of_nat (length payload) in
  let '(fits, m') := append m hdr payload in
  fits = (get_len m hdr + n <=? get_cap m hdr) /\
  if fits then
    get_hdr m' hdr = mkHdr (get_offset m hdr) (get_next m hdr) (get_len m hdr + n) (get_cap m hdr) /\
    data m' hdr = data m hdr ++ payload /\
    (forall x, (x < hdr + 16 \/ hdr + 20 <= x) ->
       (x < hdr + 24 + get_len m hdr \/ hdr + 24 + get_len m hdr + n <= x) -> rd m' x = rd m x)
  else m' = m.
Proof.
  intros Hb Hle n. unfold append, reserve, checked_add. fold n.
  pose proof (get_len_bound m hdr) as HL. pose proof (get_cap_bound m hdr) as HC.
  case_if; cbn [mbind option_bind]; bools.
  2:{ split; [|done]. symmetry. apply Z.leb_gt. unfold W32, W64 in *. lia. }
  case_if; bools; [split; [|done]; symmetry; by apply Z.leb_gt|].
  split; [symmetry; by apply Z.leb_le|]. unfold DYNSHM_BUFFER_HEADER_SIZE.
  set (len := get_len m hdr) in *. rewrite wrap32_small by (unfold n; lia).
  set (m1 := set_len m hdr (len + n)).
  set (m2 := write_bytes m1 (hdr + (24 + len)) payload).
  assert (Hfr : forall x, (x < hdr + 16 \/ hdr + 20 <= x) ->
    (x < hdr + 24 + len \/ hdr + 24 + len + n <= x) -> rd m2 x = rd m x).
  { intros x H1 H2. unfold m2. rewrite rd_write_bytes_out by (fold n; lia).
    unfold m1. field. apply rd_store_out. simpl. lia. }
  assert (Hl1 : get_len m1 hdr = len + n).
  { unfold m1. field. rewrite load_store_same. apply Z.mod_small. unfold n. unfold W32 in *.
    simpl. lia. }
  assert (Hh2 : forall x, hdr <= x < hdr + 24 -> rd m2 x = rd m1 x).
  { intros x Hx. unfold m2. apply rd_write_bytes_out. lia. }
  assert (Hl2 : get_len m2 hdr = len + n).
  { rewrite <- Hl1. unfold get_len, load32. apply load_ext. intros x Hx. simpl in Hx.
    apply Hh2. lia. }
  split; [|split; [|done]].
  - unfold get_hdr. rewrite Hl2. unfold get_offset, get_next, get_cap, load_i64, load32, to_i64.
    rewrite (load_ext 8 m2 m hdr), (load_ext 8 m2 m (hdr + 8)), (load_ext 4 m2 m (hdr + 20))
      by (intros x Hx; simpl in Hx; apply Hfr; lia). done.
  - unfold data. rewrite Hl2. fold len. unfold DYNSHM_BUFFER_HEADER_SIZE.
    replace (Z.to_nat (len + n)) with (Z.to_nat len + length payload)%nat by lia.
    rewrite read_bytes_app. f_equal.
    + apply read_bytes_ext. intros x Hx. apply Hfr; lia.
    + replace (hdr + 24 + Z.of_nat (Z.to_nat len)) with (hdr + (24 + len)) by lia.
      by apply read_write_bytes.
Qed.
