(* ===== verification/Buddy.v ===== *)
(** * The buddy allocator ([src/src/v5/buddy.rs])

    [BuddyAllocator] with its operations, function by function, and the
    invariant the proofs of [BuddyFacts] are about.  Free lists are Rust [Vec]s:
    [push] appends at the end and [pop] takes from the end, so the offset an
    allocation returns is the one the code returns.  An index outside a [Vec]
    is a panic ([None]). *)

From S2P Require Import Prelude Header.
From Stdlib Require Import ZArith Lia.
From stdpp Require Import base numbers list gmap sorting.

#[local] Open Scope Z_scope.

Definition DEFAULT_MAX_BLOCK_SIZE : Z := 512 * 1024.

Definition DEFAULT_MIN_BLOCK_SIZE : Z := 8 * 1024.

Record BuddyAllocator : Type := mkBuddy {
  arena_size : Z;
  min_block : Z;
  max_block : Z;
  min_shift : Z;
  max_order : nat;
  b_free : list (list Z);
  needs_coalesce : bool;
}.

Definition with_free (b : BuddyAllocator) (f : list (list Z)) (nc : bool) : BuddyAllocator :=
  mkBuddy (arena_size b) (min_block b) (max_block b) (min_shift b) (max_order b) f nc.

(** [self.min_block << order]. *)
Definition order_size (mb : Z) (order : nat) : Z := Z.shiftl mb (Z.of_nat order).

(** ** Construction *)

(** [(lo..hi).step_by(step)], as the offsets it yields. *)
Definition step_offsets (total step : Z) : list Z :=
  (fun i => Z.of_nat i * step) <$> seq 0 (Z.to_nat (div_ceil total step)).

Definition new_with_block_size (arena_size min_block max_block : Z)
    : result Error BuddyAllocator :=
  if negb (is_power_of_two min_block) || negb (is_power_of_two max_block)
  then Err BlockSizeNotPowerOfTwo
  else if min_block >? max_block then Err InvalidBlockSizeOrder
  else if min_block <=? ALLOCATOR_HEADER_SIZE then Err BlockTooSmallForHeader
  else if (arena_size <? max_block) || negb (is_multiple_of arena_size max_block)
  then Err InvalidArenaSize
  else
    let min_shift := trailing_zeros min_block in
    let max_order := Z.to_nat (trailing_zeros max_block - min_shift) in
    let free := replicate max_order [] ++ [step_offsets arena_size max_block] in
    Ok (mkBuddy arena_size min_block max_block min_shift max_order free false).

Definition new (arena_size : Z) : result Error BuddyAllocator :=
  new_with_block_size arena_size DEFAULT_MIN_BLOCK_SIZE DEFAULT_MAX_BLOCK_SIZE.

(** ** Orders *)

Definition order_for (b : BuddyAllocator) (bytes : Z) : nat :=
  if bytes <=? min_block b then O
  else Z.to_nat (64 - leading_zeros (bytes - 1) - min_shift b).

Definition order_for_capacity (b : BuddyAllocator) (cap : Z) : option nat :=
  block_size ← checked_add cap ALLOCATOR_HEADER_SIZE;
  if negb (is_power_of_two block_size) || (block_size <? min_block b)
     || (block_size >? max_block b)
  then None
  else Some (Z.to_nat (trailing_zeros block_size - min_shift b)).

Definition live_order (b : BuddyAllocator) (ar : arena) (m : mem) (block_offset : Z)
    : result Error nat :=
  match read_header ar m block_offset with
  | None => Err InvalidOffset
  | Some (magic, order) =>
      if negb (magic =? MAGIC) then Err NotAllocated
      else if order >? Z.of_nat (max_order b) then Err CorruptMetadata
      else if negb (Z.land block_offset (order_size (min_block b) (Z.to_nat order) - 1) =? 0)
      then Err CorruptMetadata
      else Ok (Z.to_nat order)
  end.

(** ** Releasing *)

Definition release (b : BuddyAllocator) (ar : arena) (m : mem) (block_offset : Z) (order : nat)
    : option (BuddyAllocator * mem) :=
  m' ← clear_magic ar m block_offset;
  l ← b_free b !! order;
  Some (with_free b (<[order := l ++ [block_offset]]> (b_free b))
          (needs_coalesce b || (order <? max_order b)%nat), m').

(** ** Coalescing *)

(** The [while] loop of [coalesce_until] over one sorted list: [i] scans,
    [kept] is where the next survivor is written back, [next] is the list of
    the order above.  [None] is a scan that did not finish. *)
Fixpoint scan_loop (fuel : nat) (block_size : Z) (l : list Z) (i kept : nat) (next : list Z)
    : option (list Z * list Z) :=
  match fuel with
  | O => None
  | S fuel =>
      match l !! i with
      | None => Some (take kept l, next)
      | Some x =>
          match l !! (i + 1)%nat with
          | Some rgt =>
              if Z.lxor x block_size =? rgt
              then scan_loop fuel block_size l (i + 2) kept (next ++ [x])
              else scan_loop fuel block_size (<[kept := x]> l) (i + 1) (kept + 1) next
          | None => scan_loop fuel block_size (<[kept := x]> l) (i + 1) (kept + 1) next
          end
      end
  end.

(** The body of the [for] loop for one order. *)
Definition coalesce_order (mb : Z) (free : list (list Z)) (order : nat)
    : option (list (list Z)) :=
  list ← free !! order;
  next_list ← free !! S order;
  if (length list <? 2)%nat then Some free
  else
    let sorted := merge_sort Z.le list in
    '(list', next') ← scan_loop (S (length sorted)) (order_size mb order) sorted 0 0 next_list;
    Some (<[S order := next']> (<[order := list']> free)).

Fixpoint coalesce_orders (mb : Z) (free : list (list Z)) (orders : list nat)
    : option (list (list Z)) :=
  match orders with
  | [] => Some free
  | order :: orders => free' ← coalesce_order mb free order; coalesce_orders mb free' orders
  end.

Definition coalesce_until (b : BuddyAllocator) (target : nat) : option BuddyAllocator :=
  free' ← coalesce_orders (min_block b) (b_free b) (seq 0 target);
  Some (with_free b free' (needs_coalesce b)).

(** ** Allocating *)

(** [(order..=max_order).find(|&o| !self.free[o].is_empty())], [n] orders left. *)
Fixpoint find_free (free : list (list Z)) (o n : nat) : option (option nat) :=
  match n with
  | O => Some None
  | S n =>
      l ← free !! o;
      match l with
      | [] => find_free free (S o) n
      | _ => Some (Some o)
      end
  end.

(** [while found > order]: the upper halves go back, [d = found - order]. *)
Fixpoint split_down (mb : Z) (free : list (list Z)) (offset : Z) (order d : nat)
    : option (list (list Z)) :=
  match d with
  | O => Some free
  | S d =>
      let found := (order + d)%nat in
      l ← free !! found;
      split_down mb (<[found := l ++ [offset + order_size mb found]]> free) offset order d
  end.

(** The search of [alloc], coalescing when nothing is found. *)
Definition search (b : BuddyAllocator) (order : nat) : option (option nat * BuddyAllocator) :=
  found ← find_free (b_free b) order (S (max_order b) - order);
  match found with
  | Some f => Some (Some f, b)
  | None =>
      if needs_coalesce b then
        b' ← coalesce_until b order;
        found' ← find_free (b_free b') order (S (max_order b) - order);
        match found' with
        | Some f => Some (Some f, b')
        | None => Some (None, with_free b' (b_free b') false)
        end
      else Some (None, b)
  end.

(** Taking the block at the end of list [found] and splitting it down. *)
Definition take_block (b : BuddyAllocator) (ar : arena) (m : mem) (size : Z) (order found : nat)
    : option (option Allocation * BuddyAllocator * mem) :=
  l ← b_free b !! found;
  match vec_pop l with
  | None => Some (None, b, m)
  | Some (offset, l') =>
      free' ← split_down (min_block b) (<[found := l']> (b_free b)) offset order (found - order);
      m' ← write_header ar m offset (Z.of_nat order);
      Some (Some (mkAllocation offset (offset + ALLOCATOR_HEADER_SIZE) size
                    (order_size (min_block b) order - ALLOCATOR_HEADER_SIZE)),
            with_free b free' (needs_coalesce b), m')
  end.

Definition alloc (b : BuddyAllocator) (ar : arena) (m : mem) (size : Z)
    : option (option Allocation * BuddyAllocator * mem) :=
  if negb (a_len ar =? arena_size b) || (size =? 0)
     || (size >? max_block b - ALLOCATOR_HEADER_SIZE)
  then Some (None, b, m)
  else
    let order := order_for b (size + ALLOCATOR_HEADER_SIZE) in
    '(found, b') ← search b order;
    match found with
    | None => Some (None, b', m)
    | Some f => take_block b' ar m size order f
    end.

Definition max_allocation (b : BuddyAllocator) : Z := max_block b - ALLOCATOR_HEADER_SIZE.

(** ** Freeing *)

Definition free (b : BuddyAllocator) (ar : arena) (m : mem) (al : Allocation)
    : option (result Error unit * BuddyAllocator * mem) :=
  if negb (a_len ar =? arena_size b) then Some (Err InvalidArenaSize, b, m)
  else if (block_offset al >=? arena_size b)
          || negb (data_offset al =? block_offset al + ALLOCATOR_HEADER_SIZE)
          || (data_offset al >=? arena_size b)
  then Some (Err InvalidOffset, b, m)
  else if alloc_len al >? alloc_cap al then Some (Err CorruptMetadata, b, m)
  else
    match order_for_capacity b (alloc_cap al) with
    | None => Some (Err CorruptMetadata, b, m)
    | Some claimed =>
        match live_order b ar m (block_offset al) with
        | Err e => Some (Err e, b, m)
        | Ok order =>
            if negb (claimed =? order)%nat then Some (Err CorruptMetadata, b, m)
            else
              '(b', m') ← release b ar m (block_offset al) order;
              Some (Ok tt, b', m')
        end
    end.

Definition is_valid_offset (b : BuddyAllocator) (data_offset : Z) : bool :=
  (data_offset >=? ALLOCATOR_HEADER_SIZE)
  && (data_offset - ALLOCATOR_HEADER_SIZE <? arena_size b)
  && (Z.land (data_offset - ALLOCATOR_HEADER_SIZE) (min_block b - 1) =? 0).

Definition free_at (b : BuddyAllocator) (ar : arena) (m : mem) (data_offset : Z)
    : option (result Error unit * BuddyAllocator * mem) :=
  if negb (a_len ar =? arena_size b) then Some (Err InvalidArenaSize, b, m)
  else if negb (is_valid_offset b data_offset) then Some (Err InvalidOffset, b, m)
  else
    let block_offset := data_offset - ALLOCATOR_HEADER_SIZE in
    match live_order b ar m block_offset with
    | Err e => Some (Err e, b, m)
    | Ok order =>
        '(b', m') ← release b ar m block_offset order;
        Some (Ok tt, b', m')
    end.

(** ** Accounting and reset *)

Fixpoint available_from (mb : Z) (order : nat) (free : list (list Z)) : Z :=
  match free with
  | [] => 0
  | l :: rest =>
      Z.of_nat (length l) * (order_size mb order - ALLOCATOR_HEADER_SIZE)
      + available_from mb (S order) rest
  end.

Definition available (b : BuddyAllocator) : Z := available_from (min_block b) 0 (b_free b).

Definition reset (b : BuddyAllocator) (ar : arena) (m : mem)
    : option (result Error unit * BuddyAllocator * mem) :=
  if negb (a_len ar =? arena_size b) then Some (Err InvalidArenaSize, b, m)
  else
    let cleared := (fun _ => []) <$> b_free b in
    l ← cleared !! max_order b;
    Some (Ok tt,
          with_free b (<[max_order b := l ++ step_offsets (arena_size b) (max_block b)]> cleared)
            false, m).

#[global] Instance Buddy_Allocator : Allocator BuddyAllocator := {|
  Header.alloc := alloc;
  Header.max_allocation := max_allocation;
  Header.free := free;
  Header.free_at := free_at;
  Header.is_valid_offset := is_valid_offset;
  Header.available := available;
  Header.reset := reset;
|}.

(** ** The block view and the invariant *)

(** Every free block with its order. *)
Fixpoint blocks_from (o : nat) (free : list (list Z)) : list (Z * nat) :=
  match free with
  | [] => []
  | l :: rest => ((fun off => (off, o)) <$> l) ++ blocks_from (S o) rest
  end.

Definition free_blocks (b : BuddyAllocator) : list (Z * nat) := blocks_from 0 (b_free b).

(** How many blocks of a list cover address [x]. *)
Definition covers (mb x : Z) (blk : Z * nat) : Z :=
  if (fst blk <=? x) && (x <? fst blk + order_size mb (snd blk)) then 1 else 0.

Fixpoint cover (mb x : Z) (l : list (Z * nat)) : Z :=
  match l with
  | [] => 0
  | blk :: l => covers mb x blk + cover mb x l
  end.

(** A block of a known order, aligned to its own size, inside the arena. *)
Definition block_in (b : BuddyAllocator) (blk : Z * nat) : Prop :=
  (snd blk <= max_order b)%nat /\ 0 <= fst blk /\
  (order_size (min_block b) (snd blk) | fst blk) /\
  fst blk + order_size (min_block b) (snd blk) <= arena_size b.

(** No two free blocks of one order are the halves of a larger block. *)
Definition no_buddies (mb : Z) (l : list (Z * nat)) (o : nat) : Prop :=
  forall off, (order_size mb (S o) | off) ->
    In (off, o) l -> In (off + order_size mb o, o) l -> False.

(** The allocator's own state: the free blocks together with the live ones tile
    the arena exactly, and a cleared [needs_coalesce] means there is nothing to
    merge. *)
Record wf (b : BuddyAllocator) (live : list (Z * nat)) : Prop := {
  wf_shift : 0 <= min_shift b;
  wf_min : min_block b = 2 ^ min_shift b;
  wf_hdr : ALLOCATOR_HEADER_SIZE < min_block b;
  wf_max : max_block b = order_size (min_block b) (max_order b);
  wf_len : length (b_free b) = S (max_order b);
  wf_arena : 0 < arena_size b;
  wf_mult : (max_block b | arena_size b);
  wf_size : arena_size b <= I64_MAX;
  wf_in : Forall (block_in b) (free_blocks b ++ live);
  wf_cover : forall x, 0 <= x < arena_size b ->
    cover (min_block b) x (free_blocks b ++ live) = 1;
  wf_lazy : needs_coalesce b = false ->
    forall o, (o < max_order b)%nat -> no_buddies (min_block b) (free_blocks b) o;
}.

(** Every live block carries its header in memory. *)
Definition live_hdr (ar : arena) (m : mem) (blk : Z * nat) : Prop :=
  load32 m (a_base ar + fst blk) = MAGIC /\
  load32 m (a_base ar + fst blk + 4) = Z.of_nat (snd blk).

Record ok (b : BuddyAllocator) (ar : arena) (m : mem) (live : list (Z * nat)) : Prop := {
  ok_wf : wf b live;
  ok_arena : a_len ar = arena_size b;
  ok_hdr : Forall (live_hdr ar m) live;
}.
