(* ===== verification/BuddyFacts.v ===== *)
(** * Correctness of the buddy allocator

    The block view under updates, the in-place coalescing scan against its
    reference definition, preservation of the tiling invariant by every
    operation, and completeness of the lazily coalescing search. *)

From S2P Require Import Prelude Header Buddy.
From Stdlib Require Import ZArith Lia Permutation.
From stdpp Require Import base numbers list gmap sorting.

#[local] Open Scope Z_scope.

(** ** Sizes *)

Lemma order_size_eq (mb : Z) (o : nat) : order_size mb o = mb * 2 ^ Z.of_nat o.
Proof. unfold order_size. apply Z.shiftl_mul_pow2. lia. Qed.

Lemma order_size_S (mb : Z) (o : nat) : order_size mb (S o) = 2 * order_size mb o.
Proof. rewrite !order_size_eq, Nat2Z.inj_succ, Z.pow_succ_r by lia. lia. Qed.

Lemma order_size_0 (mb : Z) : order_size mb 0 = mb.
Proof. rewrite order_size_eq. simpl. lia. Qed.

Lemma order_size_add (mb : Z) (o d : nat) :
  order_size mb (o + d) = order_size mb o * 2 ^ Z.of_nat d.
Proof. rewrite !order_size_eq, Nat2Z.inj_add, Z.pow_add_r by lia. lia. Qed.

Lemma order_size_pos (mb : Z) (o : nat) : 0 < mb -> mb <= order_size mb o.
Proof.
  intros. rewrite order_size_eq. assert (0 < 2 ^ Z.of_nat o) by (apply Z.pow_pos_nonneg; lia).
  nia.
Qed.

Lemma order_size_divide (mb : Z) (o p : nat) :
  (o <= p)%nat -> (order_size mb o | order_size mb p).
Proof.
  intros. replace p with (o + (p - o))%nat by lia. rewrite order_size_add.
  apply Z.divide_factor_l.
Qed.

Lemma order_size_mono (mb : Z) (o p : nat) :
  0 < mb -> (o <= p)%nat -> order_size mb o <= order_size mb p.
Proof.
  intros. apply Z.divide_pos_le; [pose proof (order_size_pos mb p); lia|].
  by apply order_size_divide.
Qed.

(** ** Coverage *)

Lemma cover_app (mb x : Z) (l1 l2 : list (Z * nat)) :
  cover mb x (l1 ++ l2) = cover mb x l1 + cover mb x l2.
Proof. induction l1; simpl; lia. Qed.

Lemma covers_bound (mb x : Z) (blk : Z * nat) : 0 <= covers mb x blk <= 1.
Proof. unfold covers. case_if; lia. Qed.

Lemma cover_nonneg (mb x : Z) (l : list (Z * nat)) : 0 <= cover mb x l.
Proof. induction l as [|b l]; simpl; [lia|]. pose proof (covers_bound mb x b). lia. Qed.

#[export] Instance cover_Permutation (mb x : Z) : Proper ((≡ₚ) ==> eq) (cover mb x).
Proof. induction 1; simpl; lia. Qed.

Lemma covers_in (mb x off : Z) (o : nat) :
  off <= x < off + order_size mb o -> covers mb x (off, o) = 1.
Proof. intros. unfold covers. case_if; bools; simpl in *; lia. Qed.

Lemma covers_inv (mb x off : Z) (o : nat) :
  covers mb x (off, o) <> 0 -> off <= x < off + order_size mb o.
Proof. unfold covers. case_if; bools; simpl in *; lia. Qed.

Lemma cover_in (mb x : Z) (blk : Z * nat) (l : list (Z * nat)) :
  In blk l -> covers mb x blk <= cover mb x l.
Proof.
  intros H. apply in_split in H as (l1 & l2 & ->). rewrite cover_app. simpl.
  pose proof (cover_nonneg mb x l1). pose proof (cover_nonneg mb x l2). lia.
Qed.

(** A covered address lies in some block. *)
Lemma cover_witness (mb x : Z) (l : list (Z * nat)) :
  0 < cover mb x l -> exists off o, In (off, o) l /\ off <= x < off + order_size mb o.
Proof.
  induction l as [|[off o] l IH]; simpl; intros H; [lia|].
  destruct (Z.eq_dec (covers mb x (off, o)) 0) as [E|E].
  - destruct IH as (off' & o' & ? & ?); [lia|]. exists off', o'. auto.
  - exists off, o. split; [auto|]. by apply covers_inv.
Qed.

(** Two members of a list that share an address make the coverage two. *)
Lemma cover_two (mb x : Z) (b1 b2 : Z * nat) (l : list (Z * nat)) :
  In b1 l -> In b2 l -> b1 <> b2 -> covers mb x b1 + covers mb x b2 <= cover mb x l.
Proof.
  intros H1 H2 Hne. apply in_split in H1 as (l1 & l2 & ->).
  assert (In b2 (l1 ++ l2)) as H3.
  { apply in_app_iff in H2 as [?|[?|?]]; [apply in_app_iff; auto | congruence |].
    apply in_app_iff; auto. }
  apply (cover_in mb x) in H3. rewrite cover_app in H3 |- *. simpl. lia.
Qed.

(** Splitting a block into its halves covers the same addresses. *)
Lemma covers_split (mb x off : Z) (o : nat) :
  0 < mb ->
  covers mb x (off, S o) = covers mb x (off, o) + covers mb x (off + order_size mb o, o).
Proof.
  intros Hmb. pose proof (order_size_pos mb o Hmb).
  unfold covers. simpl. rewrite order_size_S.
  repeat case_if; bools; lia.
Qed.

(** ** The block view under updates *)

Lemma blocks_from_app (o : nat) (f1 f2 : list (list Z)) :
  blocks_from o (f1 ++ f2) = blocks_from o f1 ++ blocks_from (o + length f1) f2.
Proof.
  revert o. induction f1 as [|l f1 IH]; intros o; simpl.
  - by rewrite Nat.add_0_r.
  - rewrite IH, <- app_assoc. do 3 f_equal. lia.
Qed.

Lemma blocks_from_in (o k : nat) (f : list (list Z)) (off : Z) :
  In (off, k) (blocks_from o f) <->
  exists l, (o <= k)%nat /\ f !! (k - o)%nat = Some l /\ In off l.
Proof.
  revert o. induction f as [|l f IH]; intros o; simpl.
  - split; [done|]. intros (l & _ & H & _). by rewrite lookup_nil in H.
  - rewrite in_app_iff, IH. split.
    + intros [H|(l' & Hle & Hl & Hin)].
      * apply in_map_iff in H as (off' & [= -> ->] & Hin). exists l.
        rewrite Nat.sub_diag. done.
      * exists l'. split; [lia|]. replace (k - o)%nat with (S (k - S o)) by lia. done.
    + intros (l' & Hle & Hl & Hin). destruct (decide (o = k)) as [->|Hne].
      * left. rewrite Nat.sub_diag in Hl. injection Hl as ->.
        apply in_map_iff. eauto.
      * right. exists l'. split; [lia|].
        replace (k - o)%nat with (S (k - S o)) in Hl by lia. done.
Qed.

(** Replacing the list of one order exchanges exactly that order's blocks. *)
Lemma blocks_from_insert (o k : nat) (f : list (list Z)) (l l' : list Z) :
  f !! k = Some l ->
  blocks_from o (<[k := l']> f) ++ ((fun off => (off, (o + k)%nat)) <$> l) ≡ₚ
  blocks_from o f ++ ((fun off => (off, (o + k)%nat)) <$> l').
Proof.
  revert o k. induction f as [|l0 f IH]; intros o k Hk; [by rewrite lookup_nil in Hk|].
  destruct k as [|k]; simpl in *.
  - injection Hk as ->. rewrite Nat.add_0_r. solve_Permutation.
  - specialize (IH (S o) k Hk). replace (o + S k)%nat with (S o + k)%nat by lia.
    rewrite <- !app_assoc, IH. done.
Qed.

Lemma blocks_push (k : nat) (f : list (list Z)) (l : list Z) (off : Z) :
  f !! k = Some l -> blocks_from 0 (<[k := l ++ [off]]> f) ≡ₚ (off, k) :: blocks_from 0 f.
Proof.
  intros Hk. pose proof (blocks_from_insert 0 k f l (l ++ [off]) Hk) as H.
  simpl in H. rewrite fmap_app, (Permutation_app_comm (blocks_from 0 f)) in H.
  rewrite (Permutation_app_comm _ (_ <$> l)) in H. rewrite <- app_assoc in H.
  apply Permutation_app_inv_l in H. done.
Qed.

Lemma blocks_pop (k : nat) (f : list (list Z)) (l : list Z) (off : Z) :
  f !! k = Some (l ++ [off]) -> blocks_from 0 f ≡ₚ (off, k) :: blocks_from 0 (<[k := l]> f).
Proof.
  intros Hk. pose proof (blocks_from_insert 0 k f _ l Hk) as H.
  simpl in H. rewrite fmap_app, (Permutation_app_comm (blocks_from 0 f)) in H.
  rewrite (Permutation_app_comm _ (_ ++ _)) in H. rewrite <- app_assoc in H.
  apply Permutation_app_inv_l in H. done.
Qed.

(** ** The coalescing scan *)

(** The reference definition: survivors and merged left halves. *)
Fixpoint pair_scan (bs : Z) (l : list Z) : list Z * list Z :=
  match l with
  | [] => ([], [])
  | x :: tl =>
      match tl with
      | y :: rest =>
          if Z.lxor x bs =? y
          then (fst (pair_scan bs rest), x :: snd (pair_scan bs rest))
          else (x :: fst (pair_scan bs tl), snd (pair_scan bs tl))
      | [] => ([x], [])
      end
  end.

Lemma insert_compact (pre junk rest : list Z) (x : Z) :
  exists junk', <[length pre := x]> (pre ++ junk ++ x :: rest) = (pre ++ [x]) ++ junk' ++ rest /\
    length junk' = length junk.
Proof.
  rewrite insert_app_r_alt by lia. rewrite Nat.sub_diag. destruct junk as [|j junk].
  - exists []. simpl. split; [|done]. by rewrite <- app_assoc.
  - exists (junk ++ [x]). simpl. split; [|rewrite length_app; simpl; lia].
    by rewrite <- !app_assoc.
Qed.

Lemma scan_loop_gen (fuel : nat) (bs : Z) (pre junk rest next : list Z) :
  (length rest < fuel)%nat ->
  scan_loop fuel bs (pre ++ junk ++ rest) (length pre + length junk) (length pre) next =
  Some (pre ++ fst (pair_scan bs rest), next ++ snd (pair_scan bs rest)).
Proof.
  revert pre junk rest next. induction fuel as [|fuel IH]; intros pre junk rest next Hf; [lia|].
  assert (Hlk : forall j, (pre ++ junk ++ rest) !! (length pre + length junk + j)%nat = rest !! j).
  { intros j. rewrite app_assoc, lookup_app_r by (rewrite length_app; lia).
    f_equal. rewrite length_app. lia. }
  cbn [scan_loop]. pose proof (Hlk 0%nat) as H0. rewrite Nat.add_0_r in H0.
  rewrite H0, (Hlk 1%nat). destruct rest as [|x [|y rest]]; cbn [lookup list_lookup].
  - cbn. by rewrite take_app_length, !app_nil_r.
  - destruct (insert_compact pre junk [] x) as (junk' & Hc & Hl). rewrite Hc.
    replace (length pre + length junk + 1)%nat with (length (pre ++ [x]) + length junk')%nat
      by (rewrite length_app; simpl; lia).
    replace (length pre + 1)%nat with (length (pre ++ [x])) by (rewrite length_app; simpl; lia).
    rewrite IH by (simpl in *; lia). cbn. by rewrite !app_nil_r.
  - cbn [pair_scan]. case_if.
    + replace (length pre + length junk + 2)%nat
        with (length pre + length (junk ++ [x; y]))%nat by (rewrite length_app; simpl; lia).
      replace (pre ++ junk ++ x :: y :: rest) with (pre ++ (junk ++ [x; y]) ++ rest)
        by (by rewrite <- app_assoc).
      rewrite IH by (simpl in *; lia). cbn. by rewrite <- app_assoc.
    + destruct (insert_compact pre junk (y :: rest) x) as (junk' & Hc & Hl). rewrite Hc.
      replace (length pre + length junk + 1)%nat with (length (pre ++ [x]) + length junk')%nat
        by (rewrite length_app; simpl; lia).
      replace (length pre + 1)%nat with (length (pre ++ [x])) by (rewrite length_app; simpl; lia).
      rewrite IH by (simpl in *; lia). cbn [fst snd]. by rewrite <- app_assoc.
Qed.

Lemma scan_loop_pair_scan (bs : Z) (l next : list Z) :
  scan_loop (S (length l)) bs l 0 0 next =
  Some (fst (pair_scan bs l), next ++ snd (pair_scan bs l)).
Proof. apply (scan_loop_gen (S (length l)) bs [] [] l next). lia. Qed.

(** A sorted buddy pair is the lower and the upper half of one larger block. *)
Lemma buddy_pair (k x y : Z) :
  0 <= k -> (2 ^ k | x) -> x < y -> Z.lxor x (2 ^ k) = y ->
  (2 * 2 ^ k | x) /\ y = x + 2 ^ k.
Proof.
  intros Hk [q ->] Hlt Hx. assert (0 < 2 ^ k) by (apply Z.pow_pos_nonneg; lia).
  destruct (Z.even q) eqn:Eq.
  - rewrite lxor_even_block in Hx by done. split; [|lia].
    apply Z.even_spec in Eq as [r ->]. exists r. lia.
  - rewrite lxor_odd_block in Hx by done. lia.
Qed.

Lemma not_buddy_pair (k x : Z) :
  0 <= k -> (2 * 2 ^ k | x) -> Z.lxor x (2 ^ k) = x + 2 ^ k.
Proof.
  intros Hk [q ->]. replace (q * (2 * 2 ^ k)) with ((2 * q) * 2 ^ k) by lia.
  apply lxor_even_block; [done|]. apply Z.even_spec. by exists q.
Qed.

Lemma sorted_next_multiple (s x y : Z) :
  0 < s -> (s | x) -> (s | y) -> x < y -> x + s <= y.
Proof. intros Hs [a ->] [c ->] H. assert (a < c) by nia. nia. Qed.

Record pair_scan_ok (s : Z) (l kept merged : list Z) : Prop := {
  ps_perm : l ≡ₚ kept ++ merged ++ ((fun x => x + s) <$> merged);
  ps_even : Forall (fun x => (2 * s | x)) merged;
  ps_none : forall x, (2 * s | x) -> In x kept -> In (x + s) kept -> False;
}.

Lemma pair_scan_spec (k : Z) (l : list Z) :
  0 <= k -> Forall (fun x => (2 ^ k | x)) l -> StronglySorted Z.lt l ->
  pair_scan_ok (2 ^ k) l (fst (pair_scan (2 ^ k) l)) (snd (pair_scan (2 ^ k) l)).
Proof.
  intros Hk. assert (0 < 2 ^ k) as Hs by (apply Z.pow_pos_nonneg; lia).
  induction l as [l IH] using (well_founded_induction (well_founded_ltof _ (@length Z))).
  intros Hd Hsort. destruct l as [|x [|y rest]]; cbn [pair_scan].
  - split; cbn; [done | constructor | done].
  - split; cbn; [done | constructor |]. intros e He [->|[]] [E|[]]. lia.
  - apply Forall_cons in Hd as [Hx Hd]. pose proof Hd as Hd'. apply Forall_cons in Hd as [Hy Hd].
    apply StronglySorted_inv in Hsort as [Hsort Hlt].
    pose proof Hlt as Hlt'. apply Forall_cons in Hlt as [Hxy Hlt]. case_if.
    + bools. destruct (buddy_pair k x y Hk Hx Hxy E) as [He Hyx].
      apply StronglySorted_inv in Hsort as [Hsort _].
      assert (ltof (list Z) length rest (x :: y :: rest)) as Hl by (unfold ltof; simpl; lia).
      destruct (IH rest Hl Hd Hsort) as [P1 P2 P3].
      split; cbn [fst snd]; [|by constructor|done].
      rewrite P1 at 1. cbn. rewrite Hyx. solve_Permutation.
    + bools. assert (ltof (list Z) length (y :: rest) (x :: y :: rest)) as Hl
        by (unfold ltof; simpl; lia).
      destruct (IH (y :: rest) Hl Hd' Hsort) as [P1 P2 P3].
      set (ps := pair_scan (2 ^ k) (y :: rest)) in *.
      assert (Hin : forall e, In e (fst ps) -> In e (y :: rest)).
      { intros e He. apply (Permutation_in e (Permutation_sym P1)), in_app_iff. auto. }
      split; cbn [fst snd]; [by rewrite P1 at 1|done|].
      intros e He [<-|H1] [H2|H2]; [lia| |  |by apply (P3 e)].
      * apply Hin in H2. assert (y <= x + 2 ^ k) as Hle.
        { apply StronglySorted_inv in Hsort as [_ Hall]. destruct H2 as [->|H2]; [lia|].
          rewrite List.Forall_forall in Hall. specialize (Hall _ H2). lia. }
        pose proof (sorted_next_multiple _ _ _ Hs Hx Hy Hxy).
        rewrite not_buddy_pair in E by done. lia.
      * apply Hin in H1. rewrite List.Forall_forall in Hlt'. specialize (Hlt' _ H1). lia.
Qed.

(** ** Well-formed free lists *)

Section coalesce.
Context (mb ms : Z) (top : nat).
Hypothesis mb_pow : mb = 2 ^ ms.
Hypothesis ms_nonneg : 0 <= ms.

Lemma mb_positive : 0 < mb.
Proof. subst mb. apply Z.pow_pos_nonneg; lia. Qed.

Lemma order_size_pow (o : nat) : order_size mb o = 2 ^ (ms + Z.of_nat o).
Proof. rewrite order_size_eq, mb_pow, <- Z.pow_add_r by lia. done. Qed.

(** Free lists whose blocks are aligned, never overlap and never exceed the
    top order; the part of the invariant coalescing needs. *)
Record lists_ok (N : Z) (f : list (list Z)) (others : list (Z * nat)) : Prop := {
  lo_len : length f = S top;
  lo_in : Forall (fun blk => (snd blk <= top)%nat /\ 0 <= fst blk /\
                    (order_size mb (snd blk) | fst blk) /\
                    fst blk + order_size mb (snd blk) <= N) (blocks_from 0 f ++ others);
  lo_cover : forall x, 0 <= x < N -> cover mb x (blocks_from 0 f ++ others) = 1;
}.

Lemma block_nodup (N : Z) (l : list (Z * nat)) :
  Forall (fun blk => 0 <= fst blk /\ fst blk + order_size mb (snd blk) <= N) l ->
  (forall x, 0 <= x < N -> cover mb x l <= 1) -> NoDup l.
Proof.
  induction l as [|[off o] l IH]; intros HF Hc; constructor.
  - intros Hin%list_elem_of_In. apply Forall_cons in HF as [[H1 H2] _]. simpl in *.
    pose proof (order_size_pos mb o mb_positive) as Hp. pose proof mb_positive.
    specialize (Hc off ltac:(lia)).
    apply (cover_in mb off) in Hin. rewrite covers_in in Hin, Hc by lia. lia.
  - apply Forall_cons in HF as [_ HF]. apply IH; [done|]. intros x Hx.
    specialize (Hc x Hx). simpl in Hc. pose proof (covers_bound mb x (off, o)). lia.
Qed.

Lemma order_list_facts (N : Z) (f : list (list Z)) (others : list (Z * nat)) (o : nat) (l : list Z) :
  lists_ok N f others -> f !! o = Some l ->
  NoDup l /\ Forall (fun x => (order_size mb o | x)) l.
Proof.
  intros [Hlen Hin Hcov] Hl. split.
  - assert (NoDup (blocks_from 0 f ++ others)) as Hnd.
    { apply (block_nodup N); [|intros x Hx; rewrite (Hcov x Hx); done].
      eapply Forall_impl; [exact Hin|]. intros [??]; simpl; tauto. }
    apply NoDup_app in Hnd as [Hnd _].
    pose proof (blocks_from_insert 0 o f l [] Hl) as Hp. simpl in Hp. rewrite app_nil_r in Hp.
    rewrite <- Hp in Hnd. apply NoDup_app in Hnd as (_ & _ & Hnd).
    by apply NoDup_fmap_1 in Hnd.
  - apply List.Forall_forall. intros off Hoff.
    apply Forall_app in Hin as [Hin _]. rewrite List.Forall_forall in Hin.
    specialize (Hin (off, o)). apply Hin. apply blocks_from_in. exists l.
    split; [lia|]. by rewrite Nat.sub_0_r.
Qed.

Lemma sorted_strict (l : list Z) :
  NoDup l -> StronglySorted Z.lt (merge_sort Z.le l).
Proof.
  intros Hnd. rewrite <- (merge_sort_Permutation Z.le l) in Hnd.
  pose proof (StronglySorted_merge_sort Z.le l) as Hs.
  induction Hs as [|x l' Hs IH Hall]; [constructor|].
  apply NoDup_cons in Hnd as [Hni Hnd]. constructor; [by apply IH|].
  rewrite List.Forall_forall in Hall |- *. intros y Hy. specialize (Hall y Hy).
  assert (x <> y); [|lia]. intros ->. apply Hni. by apply list_elem_of_In.
Qed.

Lemma cover_merge (x : Z) (o : nat) (mg : list Z) :
  cover mb x ((fun off => (off, S o)) <$> mg) =
  cover mb x ((fun off => (off, o)) <$> mg) +
  cover mb x ((fun off => (off, o)) <$> ((fun e => e + order_size mb o) <$> mg)).
Proof.
  induction mg as [|e mg IH]; [done|]. rewrite !fmap_cons. cbn [cover].
  rewrite IH, covers_split by apply mb_positive. lia.
Qed.

Lemma no_buddies_list (f : list (list Z)) (o : nat) :
  (forall l off, f !! o = Some l -> (order_size mb (S o) | off) ->
     In off l -> In (off + order_size mb o) l -> False) ->
  no_buddies mb (blocks_from 0 f) o.
Proof.
  intros H off Hd H1 H2. apply blocks_from_in in H1 as (l & _ & Hl & H1).
  apply blocks_from_in in H2 as (l' & _ & Hl' & H2). rewrite Nat.sub_0_r in *.
  rewrite Hl in Hl'. injection Hl' as <-. eauto.
Qed.

Lemma no_buddies_same (f f' : list (list Z)) (o : nat) :
  f' !! o = f !! o -> no_buddies mb (blocks_from 0 f) o -> no_buddies mb (blocks_from 0 f') o.
Proof.
  intros He H off Hd H1 H2. apply (H off Hd); apply blocks_from_in;
    [apply blocks_from_in in H1 as (l & ? & Hl & ?) | apply blocks_from_in in H2 as (l & ? & Hl & ?)];
    exists l; rewrite Nat.sub_0_r in *; rewrite <- He; auto.
Qed.

(** What merging one order does to the set of blocks. *)
Lemma merge_blocks (f : list (list Z)) (o : nat) (cur nxt kept mg : list Z) :
  f !! o = Some cur -> f !! S o = Some nxt ->
  cur ≡ₚ kept ++ mg ++ ((fun e => e + order_size mb o) <$> mg) ->
  blocks_from 0 f ≡ₚ
    (blocks_from 0 (<[S o := []]> (<[o := []]> f)) ++ ((fun x => (x, S o)) <$> nxt) ++
     ((fun x => (x, o)) <$> kept)) ++ ((fun x => (x, o)) <$> mg) ++
     ((fun x => (x, o)) <$> ((fun e => e + order_size mb o) <$> mg)) /\
  blocks_from 0 (<[S o := nxt ++ mg]> (<[o := kept]> f)) ≡ₚ
    (blocks_from 0 (<[S o := []]> (<[o := []]> f)) ++ ((fun x => (x, S o)) <$> nxt) ++
     ((fun x => (x, o)) <$> kept)) ++ ((fun x => (x, S o)) <$> mg).
Proof.
  intros Ho HSo Hp. assert (Hlen : (o < length f)%nat) by (by eapply lookup_lt_Some).
  assert (Hgen : forall k n, blocks_from 0 (<[S o := n]> (<[o := k]> f)) ≡ₚ
    blocks_from 0 (<[S o := []]> (<[o := []]> f)) ++ ((fun x => (x, S o)) <$> n) ++
    ((fun x => (x, o)) <$> k)).
  { intros k n.
    pose proof (blocks_from_insert 0 (S o) (<[S o := []]> (<[o := []]> f)) [] n) as H1.
    pose proof (blocks_from_insert 0 o (<[S o := n]> (<[o := []]> f)) [] k) as H2.
    rewrite list_insert_insert_eq in H1.
    assert (<[o := k]> (<[S o := n]> (<[o := []]> f)) = <[S o := n]> (<[o := k]> f)) as E.
    { rewrite list_insert_insert_ne by lia. by rewrite list_insert_insert_eq. }
    rewrite E in H2.
    simpl in H1, H2. rewrite !app_nil_r in H1, H2. rewrite H2, H1, <- app_assoc; [done| |].
    - apply list_lookup_insert_eq. rewrite length_insert. by eapply lookup_lt_Some.
    - rewrite list_lookup_insert_ne by lia. by apply list_lookup_insert_eq. }
  split.
  - rewrite <- (list_insert_id f o cur Ho) at 1.
    rewrite <- (list_insert_id (<[o := cur]> f) (S o) nxt)
      by (rewrite list_lookup_insert_ne by lia; done).
    rewrite Hgen, Hp, !fmap_app, <- !app_assoc. done.
  - rewrite Hgen, fmap_app, <- !app_assoc. solve_Permutation.
Qed.

Lemma coalesce_order_ok (N : Z) (f : list (list Z)) (others : list (Z * nat)) (o : nat) :
  lists_ok N f others -> (S o <= top)%nat ->
  exists f', coalesce_order mb f o = Some f' /\ lists_ok N f' others /\
    (forall j, j <> o -> j <> S o -> f' !! j = f !! j) /\
    no_buddies mb (blocks_from 0 f') o.
Proof.
  intros Hok Ho. pose proof Hok as [Hlen Hin Hcov].
  destruct (lookup_lt_is_Some_2 f o) as [cur Hcur]; [lia|].
  destruct (lookup_lt_is_Some_2 f (S o)) as [nxt Hnxt]; [lia|].
  destruct (order_list_facts N f others o cur Hok Hcur) as [Hnd Hdiv].
  unfold coalesce_order. rewrite Hcur, Hnxt. cbn [mbind option_bind]. case_if; bools.
  { exists f. do 3 (split; [done|]). apply no_buddies_list. intros l off Hl _ H1 H2.
    rewrite Hcur in Hl. injection Hl as <-. pose proof (order_size_pos mb o mb_positive).
    pose proof mb_positive. destruct cur as [|a [|? ?]]; simpl in *; lia. }
  assert (Hsp : pair_scan_ok (order_size mb o) (merge_sort Z.le cur)
    (fst (pair_scan (order_size mb o) (merge_sort Z.le cur)))
    (snd (pair_scan (order_size mb o) (merge_sort Z.le cur)))).
  { rewrite order_size_pow. apply pair_scan_spec; [lia| |by apply sorted_strict].
    rewrite merge_sort_Permutation, <- order_size_pow. done. }
  rewrite scan_loop_pair_scan. cbn [mbind option_bind].
  set (kept := fst _) in *. set (mg := snd _) in *. destruct Hsp as [Hp Hev Hno].
  rewrite merge_sort_Permutation in Hp.
  destruct (merge_blocks f o cur nxt kept mg Hcur Hnxt Hp) as [HB HB'].
  eexists. split; [done|]. split; [|split].
  - split; [by rewrite !length_insert| |].
    + rewrite HB'. rewrite HB in Hin. rewrite !Forall_app in Hin |- *.
      destruct Hin as [[? Hm] Hot]. apply Forall_app in Hm as [Hm1 Hm2].
      split; [split|]; [tauto| |done].
      apply List.Forall_forall. intros [e oo] He. apply in_map_iff in He as (e' & [= -> <-] & He).
      rewrite List.Forall_forall in Hm1, Hm2, Hev. specialize (Hev e He).
      assert (In (e, o) ((fun x => (x, o)) <$> mg)) as H1 by (apply in_map_iff; eauto).
      assert (In (e + order_size mb o, o)
        ((fun x => (x, o)) <$> ((fun e => e + order_size mb o) <$> mg))) as H2.
      { apply in_map_iff. eexists. split; [done|]. apply in_map_iff. eauto. }
      specialize (Hm1 _ H1). specialize (Hm2 _ H2). cbn [fst snd] in *.
      destruct Hm1 as (_ & ? & _ & _). destruct Hm2 as (_ & _ & _ & ?).
      rewrite order_size_S. repeat split; [lia | lia | done | lia].
    + intros x Hx. specialize (Hcov x Hx). rewrite HB'. rewrite HB in Hcov.
      rewrite !cover_app in Hcov. rewrite !cover_app, (cover_merge x o mg). lia.
  - intros j H1 H2. by rewrite !list_lookup_insert_ne by lia.
  - apply no_buddies_list. intros l off Hl Hd H1 H2.
    rewrite list_lookup_insert_ne, list_lookup_insert_eq in Hl
      by (try lia; by eapply lookup_lt_Some). injection Hl as <-.
    rewrite order_size_S in Hd. by apply (Hno off).
Qed.

Lemma coalesce_orders_ok (N : Z) (n o : nat) (f : list (list Z)) (others : list (Z * nat)) :
  lists_ok N f others -> (o + n <= top)%nat ->
  (forall j, (j < o)%nat -> no_buddies mb (blocks_from 0 f) j) ->
  exists f', coalesce_orders mb f (seq o n) = Some f' /\ lists_ok N f' others /\
    (forall j, (j < o + n)%nat -> no_buddies mb (blocks_from 0 f') j).
Proof.
  revert o f. induction n as [|n IH]; intros o f Hok Hle Hnb; cbn [seq coalesce_orders].
  - exists f. rewrite Nat.add_0_r. done.
  - destruct (coalesce_order_ok N f others o Hok ltac:(lia)) as (f1 & -> & Hok1 & Hsame & Hnb1).
    cbn [mbind option_bind].
    destruct (IH (S o) f1 Hok1 ltac:(lia)) as (f' & -> & Hok' & Hnb').
    + intros j Hj. destruct (decide (j = o)) as [->|]; [done|].
      apply (no_buddies_same f); [apply Hsame; lia | apply Hnb; lia].
    + exists f'. do 2 (split; [done|]). intros j Hj. apply Hnb'. lia.
Qed.
End coalesce.

(** ** Orders and searches *)

Lemma order_for_spec (b : BuddyAllocator) (live : list (Z * nat)) (bytes : Z) :
  wf b live -> 0 < bytes <= max_block b ->
  (order_for b bytes <= max_order b)%nat /\
  bytes <= order_size (min_block b) (order_for b bytes) /\
  (forall o, bytes <= order_size (min_block b) o -> (order_for b bytes <= o)%nat).
Proof.
  intros Hwf Hb. destruct Hwf as [Hsh Hmin Hhdr Hmax _ _ _ _ _ _ _].
  unfold order_for. case_if; bools.
  { rewrite order_size_0. repeat split; lia. }
  unfold ALLOCATOR_HEADER_SIZE in *. rewrite leading_zeros_log2_up by lia.
  pose proof (Z.log2_up_spec bytes ltac:(lia)) as [Hlo Hhi].
  set (k := Z.log2_up bytes) in *.
  assert (min_shift b < k).
  { apply (Z.pow_lt_mono_r_iff 2); [lia | unfold k; apply Z.log2_up_nonneg | lia]. }
  assert (Hge : forall o, bytes <= order_size (min_block b) o ->
    (Z.to_nat (k - min_shift b) <= o)%nat).
  { intros o Ho. rewrite (order_size_pow _ (min_shift b)) in Ho by done.
    assert (Z.pred k < min_shift b + Z.of_nat o); [|lia].
    apply (Z.pow_lt_mono_r_iff 2); lia. }
  repeat split; [| |done].
  - apply Hge. lia.
  - rewrite (order_size_pow _ (min_shift b)) by done.
    replace (min_shift b + Z.of_nat (Z.to_nat (k - min_shift b))) with k by lia. done.
Qed.

Lemma find_free_spec (f : list (list Z)) (n o : nat) :
  (o + n <= length f)%nat ->
  exists r, find_free f o n = Some r /\
    match r with
    | None => forall j, (o <= j < o + n)%nat -> f !! j = Some []
    | Some j => (o <= j < o + n)%nat /\ exists x l, f !! j = Some (x :: l)
    end.
Proof.
  revert o. induction n as [|n IH]; intros o Hlen; cbn [find_free].
  - exists None. split; [done|]. lia.
  - destruct (lookup_lt_is_Some_2 f o) as [l Hl]; [lia|]. rewrite Hl. cbn [mbind option_bind].
    destruct l as [|x l].
    + destruct (IH (S o) ltac:(lia)) as (r & -> & Hr). exists r. split; [done|].
      destruct r as [j|]; [destruct Hr as [? ?]; split; [lia|done]|].
      intros j Hj. destruct (decide (j = o)) as [->|]; [done|]. apply Hr. lia.
    + exists (Some o). split; [done|]. split; [lia|]. eauto.
Qed.

(** The upper halves a split leaves behind. *)
Definition uppers (mb off : Z) (order d : nat) : list (Z * nat) :=
  (fun j => (off + order_size mb j, j)) <$> seq order d.

Lemma split_down_spec (mb off : Z) (order d : nat) (f : list (list Z)) :
  (order + d <= length f)%nat ->
  exists f', split_down mb f off order d = Some f' /\ length f' = length f /\
    blocks_from 0 f' ≡ₚ uppers mb off order d ++ blocks_from 0 f.
Proof.
  revert f. induction d as [|d IH]; intros f Hlen; cbn [split_down].
  - exists f. done.
  - destruct (lookup_lt_is_Some_2 f (order + d)) as [l Hl]; [lia|]. rewrite Hl.
    cbn [mbind option_bind].
    destruct (IH (<[(order + d)%nat := l ++ [off + order_size mb (order + d)]]> f))
      as (f' & -> & Hlen' & Hp); [rewrite length_insert; lia|].
    exists f'. rewrite length_insert in Hlen'. do 2 (split; [done|]).
    rewrite Hp, (blocks_push _ _ _ _ Hl). unfold uppers. rewrite seq_S, fmap_app. cbn.
    rewrite <- app_assoc. done.
Qed.

Lemma cover_uppers (mb off x : Z) (order d : nat) :
  0 < mb ->
  covers mb x (off, (order + d)%nat) =
  covers mb x (off, order) + cover mb x (uppers mb off order d).
Proof.
  intros Hmb. induction d as [|d IH].
  - rewrite Nat.add_0_r. simpl. lia.
  - replace (order + S d)%nat with (S (order + d)) by lia. rewrite covers_split, IH by done.
    unfold uppers. rewrite seq_S, fmap_app, cover_app. simpl. lia.
Qed.

(** ** Nesting and completeness *)

(** Aligned blocks that share an address are nested. *)
Lemma nested (mb f a x : Z) (o j : nat) :
  0 < mb -> (j <= o)%nat -> (order_size mb o | f) -> (order_size mb j | a) ->
  f <= x < f + order_size mb o -> a <= x < a + order_size mb j ->
  f <= a /\ a + order_size mb j <= f + order_size mb o.
Proof.
  intros Hmb Hjo Hf Ha Hx Hx'. pose proof (order_size_pos mb j Hmb).
  pose proof (order_size_divide mb j o Hjo) as Hd.
  assert (order_size mb j | f) as Hjf by (by eapply Z.divide_trans).
  assert (order_size mb j | f + order_size mb o) as Hje by (by apply Z.divide_add_r).
  split.
  - destruct (Z_lt_le_dec a f); [|done].
    pose proof (sorted_next_multiple (order_size mb j) a f ltac:(lia) Ha Hjf ltac:(lia)). lia.
  - apply sorted_next_multiple; try done; lia.
Qed.

(** Two ranges share an address. *)
Definition overlaps (mb off : Z) (order : nat) (blk : Z * nat) : Prop :=
  fst blk < off + order_size mb order /\ off < fst blk + order_size mb (snd blk).

(** A range that meets no live block lies inside one free block, as long as no
    buddies of a smaller order are left unmerged. *)
Lemma free_range_in_block (b : BuddyAllocator) (live : list (Z * nat)) (order : nat) (off : Z) :
  wf b live ->
  (forall j, (j < order)%nat -> no_buddies (min_block b) (free_blocks b) j) ->
  block_in b (off, order) -> ~ Exists (overlaps (min_block b) off order) live ->
  exists f o, In (f, o) (free_blocks b) /\ (order <= o)%nat /\
    f <= off /\ off + order_size (min_block b) order <= f + order_size (min_block b) o.
Proof.
  intros Hwf Hnb (_ & H0 & Hal & Hend) Hno. simpl in *.
  pose proof Hwf as [Hsh Hmin Hhdr _ _ _ _ _ Hin Hcov _].
  set (mb := min_block b) in *. unfold ALLOCATOR_HEADER_SIZE in *. assert (0 < mb) as Hmb by lia.
  assert (Hall : forall j a, (j <= order)%nat -> (order_size mb j | a) ->
    off <= a -> a + order_size mb j <= off + order_size mb order ->
    exists f o, In (f, o) (free_blocks b) /\ (j <= o)%nat /\
      f <= a /\ a + order_size mb j <= f + order_size mb o).
  2:{ apply (Hall order off); [lia | done | lia | lia]. }
  induction j as [|j IH]; intros a Hj Ha Hlo Hhi.
  - pose proof (order_size_pos mb 0 Hmb).
    destruct (cover_witness mb a (free_blocks b)) as (f & o & Hf & Hx).
    { pose proof (Hcov a ltac:(lia)) as Hc. rewrite cover_app in Hc.
      destruct (Z.eq_dec (cover mb a live) 0) as [?|Hl]; [lia|]. exfalso. apply Hno.
      destruct (cover_witness mb a live) as (f & o & Hf & Hx).
      { pose proof (cover_nonneg mb a live). lia. }
      apply Exists_exists. exists (f, o). split; [by apply list_elem_of_In|].
      unfold overlaps. simpl. fold mb. lia. }
    exists f, o. split; [done|]. split; [lia|].
    apply Forall_app in Hin as [Hin _]. rewrite List.Forall_forall in Hin.
    destruct (Hin _ Hf) as (_ & _ & Hd & _).
    apply (nested mb f a a o 0); try done; lia.
  - rewrite order_size_S in *. pose proof (order_size_pos mb j Hmb).
    assert (order_size mb j | a) as Haj by (eapply Z.divide_trans; [|done]; by exists 2).
    destruct (IH a ltac:(lia) Haj ltac:(lia) ltac:(lia)) as (f1 & o1 & Hf1 & Ho1 & H1 & H1').
    destruct (IH (a + order_size mb j) ltac:(lia)) as (f2 & o2 & Hf2 & Ho2 & H2 & H2');
      [by apply Z.divide_add_r | lia | lia |].
    apply Forall_app in Hin as [Hin _]. rewrite List.Forall_forall in Hin.
    destruct (Hin _ Hf1) as (_ & _ & Hd1 & _), (Hin _ Hf2) as (_ & _ & Hd2 & _).
    simpl in *. fold mb in Hd1, Hd2.
    destruct (decide (o1 = j)) as [->|Hne1]; [destruct (decide (o2 = j)) as [->|Hne2]|].
    + exfalso. apply (Hnb j ltac:(lia) a); [by rewrite order_size_S| |].
      * replace a with f1 by lia. done.
      * replace (a + order_size mb j) with f2 by lia. done.
    + exists f2, o2. split; [done|]. split; [lia|].
      pose proof (nested mb f2 a (a + order_size mb j) o2 (S j)) as Hn.
      rewrite order_size_S in Hn. apply Hn; try done; lia.
    + exists f1, o1. split; [done|]. split; [lia|].
      pose proof (nested mb f1 a a o1 (S j)) as Hn.
      rewrite order_size_S in Hn. apply Hn; try done; lia.
Qed.

#[export] Instance overlaps_dec (mb off : Z) (order : nat) (blk : Z * nat) :
  Decision (overlaps mb off order blk).
Proof. unfold overlaps. apply _. Defined.

(** With every list from [order] up empty and no buddies below, no range of that
    order is free: each one meets a live block. *)
Lemma no_space (b : BuddyAllocator) (live : list (Z * nat)) (order : nat) (off : Z) :
  wf b live ->
  (forall j, (order <= j <= max_order b)%nat -> b_free b !! j = Some []) ->
  (forall j, (j < order)%nat -> no_buddies (min_block b) (free_blocks b) j) ->
  block_in b (off, order) -> Exists (overlaps (min_block b) off order) live.
Proof.
  intros Hwf Hemp Hnb Hb.
  destruct (decide (Exists (overlaps (min_block b) off order) live)) as [|Hno]; [done|].
  destruct (free_range_in_block b live order off Hwf Hnb Hb Hno) as (f & o & Hf & Ho & _).
  pose proof (wf_in _ _ Hwf) as Hin. apply Forall_app in Hin as [Hin _].
  rewrite List.Forall_forall in Hin. destruct (Hin _ Hf) as (Hle & _).
  apply blocks_from_in in Hf as (l & _ & Hl & Hil). rewrite Nat.sub_0_r in Hl.
  rewrite Hemp in Hl by (simpl in *; lia). injection Hl as <-. done.
Qed.
