(* ===== verification/BuddySpec.v ===== *)
(** * The operations of the buddy allocator against the tiling invariant

    Construction, allocation, release and reset keep the invariant [ok]; an
    allocation is the smallest order that fits, lands on free space only, and
    fails only when no aligned range of its order is free of live blocks. *)

From S2P Require Import Prelude Header Buddy BuddyFacts.
From Stdlib Require Import ZArith Lia Permutation.
From stdpp Require Import base numbers list gmap sorting.

#[local] Open Scope Z_scope.

(** ** The invariant through updates of the free lists *)

(** Two allocators over the same arena. *)
Definition same_geometry (b b' : BuddyAllocator) : Prop :=
  arena_size b' = arena_size b /\ min_block b' = min_block b /\ max_block b' = max_block b /\
  min_shift b' = min_shift b /\ max_order b' = max_order b.

Lemma wf_lists (b : BuddyAllocator) (live : list (Z * nat)) :
  wf b live -> lists_ok (min_block b) (max_order b) (arena_size b) (b_free b) live.
Proof. intros []. by split. Qed.

Lemma wf_with_free (b : BuddyAllocator) (live live' : list (Z * nat)) (f : list (list Z)) (nc : bool) :
  wf b live -> lists_ok (min_block b) (max_order b) (arena_size b) f live' ->
  (nc = false -> forall o, (o < max_order b)%nat -> no_buddies (min_block b) (blocks_from 0 f) o) ->
  wf (with_free b f nc) live'.
Proof. intros [] [] ?. by split. Qed.

Lemma wf_min_pos (b : BuddyAllocator) (live : list (Z * nat)) : wf b live -> 8 < min_block b.
Proof. by intros []. Qed.

Lemma no_buddies_empty (mb : Z) (f : list (list Z)) (o : nat) :
  f !! o = Some [] -> no_buddies mb (blocks_from 0 f) o.
Proof.
  intros He off _ H _. apply blocks_from_in in H as (l & _ & Hl & Hin).
  rewrite Nat.sub_0_r, He in Hl. by injection Hl as <-.
Qed.

Lemma coalesce_until_spec (b : BuddyAllocator) (live : list (Z * nat)) (order : nat) :
  wf b live -> needs_coalesce b = true -> (order <= max_order b)%nat ->
  exists b', coalesce_until b order = Some b' /\ wf b' live /\ same_geometry b b' /\
    (forall j, (j < order)%nat -> no_buddies (min_block b) (free_blocks b') j).
Proof.
  intros Hwf Hnc Ho. pose proof Hwf as [Hsh Hmin _ _ _ _ _ _ _ _ _].
  destruct (coalesce_orders_ok (min_block b) (min_shift b) (max_order b) Hmin Hsh
    (arena_size b) order 0 (b_free b) live (wf_lists b live Hwf) ltac:(lia))
    as (f' & Hf & Hok & Hnb); [lia|].
  unfold coalesce_until. rewrite Hf. cbn [mbind option_bind].
  eexists. split; [done|]. split; [|done].
  apply (wf_with_free b live); [done..|]. rewrite Hnc. done.
Qed.

(** ** The search *)

Lemma search_spec (b : BuddyAllocator) (live : list (Z * nat)) (order : nat) :
  wf b live -> (order <= max_order b)%nat ->
  exists r b', search b order = Some (r, b') /\ wf b' live /\ same_geometry b b' /\
    match r with
    | Some f => (order <= f <= max_order b)%nat /\ exists x l, b_free b' !! f = Some (x :: l)
    | None => forall off, block_in b (off, order) ->
                Exists (overlaps (min_block b) off order) live
    end.
Proof.
  intros Hwf Ho. pose proof (wf_len b live Hwf) as Hlen. unfold search.
  destruct (find_free_spec (b_free b) (S (max_order b) - order) order ltac:(lia))
    as ([f|] & -> & Hf); cbn [mbind option_bind].
  { exists (Some f), b. destruct Hf as [? ?]. repeat (split; [done|]). split; [lia|done]. }
  destruct (needs_coalesce b) eqn:Hnc.
  2:{ exists None, b. repeat (split; [done|]). intros off Hb.
      apply (no_space b live); [done| | |done].
      - intros j Hj. apply Hf. lia.
      - intros j Hj. apply (wf_lazy b live Hwf Hnc). lia. }
  destruct (coalesce_until_spec b live order Hwf Hnc Ho) as (b' & -> & Hwf' & Hg & Hnb).
  cbn [mbind option_bind]. pose proof Hg as (Ha & Hm & HM & Hsh & Hmo).
  pose proof (wf_len b' live Hwf') as Hlen'. rewrite Hmo in Hlen'.
  destruct (find_free_spec (b_free b') (S (max_order b) - order) order ltac:(lia))
    as ([f|] & -> & Hf'); cbn [mbind option_bind].
  { exists (Some f), b'. destruct Hf' as [? ?]. repeat (split; [done|]). split; [lia|done]. }
  exists None, (with_free b' (b_free b') false). split; [done|].
  assert (Hall : forall o, (o < max_order b')%nat -> no_buddies (min_block b') (free_blocks b') o).
  { intros o Hlt. rewrite Hm. destruct (decide (o < order)%nat); [by apply Hnb|].
    apply no_buddies_empty. apply Hf'. lia. }
  split; [apply (wf_with_free b' live); [done|by apply wf_lists|done]|]. split; [done|].
  intros off Hb. rewrite <- Hm. apply (no_space b' live); [done| | |].
  - intros j Hj. apply Hf'. lia.
  - intros j Hj. apply Hall. lia.
  - unfold block_in in *. rewrite Ha, Hm, Hmo. done.
Qed.

(** ** Taking a block *)

(** Splitting the free block [(x, found)] down to [order] and handing out its
    lowest piece keeps the tiling. *)
Lemma split_lists_ok (b : BuddyAllocator) (live : list (Z * nat)) (f' : list (list Z))
    (rest : list (Z * nat)) (x : Z) (order d : nat) :
  wf b live -> length f' = length (b_free b) ->
  free_blocks b ≡ₚ (x, (order + d)%nat) :: rest ->
  blocks_from 0 f' ≡ₚ uppers (min_block b) x order d ++ rest ->
  lists_ok (min_block b) (max_order b) (arena_size b) f' ((x, order) :: live).
Proof.
  intros Hwf Hlen Hold Hnew. pose proof Hwf as [Hsh Hmin Hhdr _ Hl _ _ _ Hin Hcov _].
  unfold ALLOCATOR_HEADER_SIZE in *. set (mb := min_block b) in *. assert (0 < mb) as Hmb by lia.
  rewrite Hold in Hin. cbn [app] in Hin. apply Forall_cons in Hin as [Hx Hin].
  apply Forall_app in Hin as [Hrest Hlive]. destruct Hx as (Hxo & Hx0 & Hxd & Hxe).
  cbn [fst snd] in *. fold mb in Hxd, Hxe.
  assert (Hle : forall j, (j <= order + d)%nat -> (order_size mb j | x)).
  { intros j Hj. eapply Z.divide_trans; [by apply order_size_divide|done]. }
  split; [by rewrite Hlen| |].
  - rewrite Hnew, <- app_assoc. apply Forall_app. split; [|apply Forall_app; split; [done|]].
    + apply List.Forall_forall. intros [u j] Hu. apply in_map_iff in Hu as (j' & [= <- ->] & Hj).
      apply in_seq in Hj. cbn [fst snd]. pose proof (order_size_pos mb j Hmb).
      pose proof (order_size_mono mb (S j) (order + d) Hmb ltac:(lia)) as Hm.
      rewrite order_size_S in Hm. repeat split; [lia | lia | | lia].
      apply Z.divide_add_r; [apply Hle; lia | apply Z.divide_refl].
    + constructor; [|done]. cbn [fst snd].
      pose proof (order_size_mono mb order (order + d) Hmb ltac:(lia)).
      repeat split; [lia | lia | apply Hle; lia | lia].
  - intros y Hy. specialize (Hcov y Hy). rewrite Hold in Hcov. rewrite Hnew.
    cbn [app cover] in Hcov. rewrite (cover_uppers mb x y order d Hmb) in Hcov.
    rewrite !cover_app in *. cbn [cover]. lia.
Qed.

Lemma split_no_buddies (b : BuddyAllocator) (live : list (Z * nat)) (f' : list (list Z))
    (rest : list (Z * nat)) (x : Z) (order d o : nat) :
  wf b live -> free_blocks b ≡ₚ (x, (order + d)%nat) :: rest ->
  blocks_from 0 f' ≡ₚ uppers (min_block b) x order d ++ rest ->
  no_buddies (min_block b) (free_blocks b) o -> no_buddies (min_block b) (blocks_from 0 f') o.
Proof.
  intros Hwf Hold Hnew Hnb off Hd H1 H2. pose proof (wf_min_pos b live Hwf).
  pose proof Hwf as [_ _ _ _ _ _ _ _ Hin Hcov _].
  set (mb := min_block b) in *. pose proof (order_size_pos mb o ltac:(lia)) as Hp.
  rewrite Hnew in H1, H2.
  assert (Hxin : In (x, (order + d)%nat) (free_blocks b)) by (rewrite Hold; left; done).
  assert (Hxb : block_in b (x, (order + d)%nat)).
  { apply Forall_app in Hin as [Hin _]. rewrite List.Forall_forall in Hin. by apply Hin. }
  destruct Hxb as (_ & Hx0 & Hxd & Hxe). cbn [fst snd] in *. fold mb in Hxd, Hxe.
  assert (Hup : forall u, In (u, o) (uppers mb x order d) ->
    u = x + order_size mb o /\ (S o <= order + d)%nat).
  { intros u Hu. apply in_map_iff in Hu as (j & [= <- ->] & Hj). apply in_seq in Hj.
    split; [done|lia]. }
  assert (Hodd : forall k, (2 * order_size mb o | k) -> (2 * order_size mb o | x) ->
    k = x + order_size mb o -> False).
  { intros k [p Hk] [q Hq] E. assert (2 * (p - q) = 1); [|lia].
    apply (Z.mul_reg_r _ _ (order_size mb o)); lia. }
  assert (Hal : (S o <= order + d)%nat -> (2 * order_size mb o | x)).
  { intros Hle. rewrite <- order_size_S. eapply Z.divide_trans; [|done].
    by apply order_size_divide. }
  apply in_app_iff in H1 as [H1|H1].
  { apply Hup in H1 as [E Hle]. rewrite order_size_S in Hd. apply (Hodd off); auto. }
  apply in_app_iff in H2 as [H2|H2].
  - apply Hup in H2 as [E Hle]. assert (off = x) as -> by lia.
    assert (cover mb x (free_blocks b ++ live) = 1) as Hc.
    { apply Hcov. pose proof (order_size_pos mb (order + d) ltac:(lia)). lia. }
    rewrite Hold in Hc. cbn [app cover] in Hc. rewrite cover_app in Hc.
    apply (cover_in mb x) in H1. pose proof (cover_nonneg mb x live).
    pose proof (order_size_pos mb (order + d) ltac:(lia)).
    rewrite covers_in in H1, Hc by lia. lia.
  - apply (Hnb off Hd); rewrite Hold; right; done.
Qed.

(** Two blocks of a well-formed allocator never share an address. *)
Lemma blocks_disjoint (b : BuddyAllocator) (live rest : list (Z * nat)) (s t : Z * nat) :
  wf b live -> free_blocks b ++ live ≡ₚ s :: t :: rest ->
  fst s + order_size (min_block b) (snd s) <= fst t \/
  fst t + order_size (min_block b) (snd t) <= fst s.
Proof.
  intros Hwf Hp. pose proof (wf_min_pos b live Hwf). pose proof Hwf as [_ _ _ _ _ _ _ _ Hin Hcov _].
  rewrite Hp in Hin. apply Forall_cons in Hin as [Hs Hin]. apply Forall_cons in Hin as [Ht _].
  destruct s as [so oo], t as [to ot], Hs as (_ & ? & _ & ?), Ht as (_ & ? & _ & ?).
  cbn [fst snd] in *. set (mb := min_block b) in *.
  pose proof (order_size_pos mb oo ltac:(lia)). pose proof (order_size_pos mb ot ltac:(lia)).
  destruct (Z_le_gt_dec (so + order_size mb oo) to); [by left|].
  destruct (Z_le_gt_dec (to + order_size mb ot) so); [by right|]. exfalso.
  pose proof (Hcov (Z.max so to) ltac:(lia)) as Hc. rewrite Hp in Hc. cbn [cover] in Hc.
  rewrite !covers_in in Hc by lia. pose proof (cover_nonneg mb (Z.max so to) rest). lia.
Qed.

(** A change confined to the header of one block leaves the other live headers. *)
Lemma live_hdr_frame (b : BuddyAllocator) (ar : arena) (m m' : mem) (blk : Z * nat)
    (live : list (Z * nat)) :
  wf b (blk :: live) -> Forall (live_hdr ar m) live ->
  mem_frame (a_base ar + fst blk) (a_base ar + fst blk + 8) m m' ->
  Forall (live_hdr ar m') live.
Proof.
  intros Hwf Hh Hf. rewrite List.Forall_forall in Hh |- *. intros t Ht.
  apply in_split in Ht as (l1 & l2 & ->).
  destruct (Hh t) as [H1 H2]; [apply in_app_iff; right; left; done|].
  pose proof (wf_min_pos _ _ Hwf).
  destruct (blocks_disjoint b _ (free_blocks b ++ l1 ++ l2) blk t Hwf) as [Hd|Hd];
    [solve_Permutation| |].
  all: pose proof (order_size_pos (min_block b) (snd blk) ltac:(lia));
       pose proof (order_size_pos (min_block b) (snd t) ltac:(lia));
       split; [rewrite <- H1|rewrite <- H2]; apply (load32_frame _ _ _ _ _ Hf); lia.
Qed.

Lemma take_block_spec (b : BuddyAllocator) (ar : arena) (m : mem) (live : list (Z * nat))
    (size : Z) (order found : nat) (x : Z) (l : list Z) :
  ok b ar m live -> (order <= found <= max_order b)%nat -> b_free b !! found = Some (x :: l) ->
  exists off b' m',
    take_block b ar m size order found =
      Some (Some (mkAllocation off (off + 8) size (order_size (min_block b) order - 8)), b', m') /\
    ok b' ar m' ((off, order) :: live) /\ same_geometry b b' /\
    mem_frame (a_base ar + off) (a_base ar + off + 8) m m'.
Proof.
  intros [Hwf Har Hh] Ho Hl. pose proof Hwf as [Hsh Hmin Hhdr Hmax Hlen Hpos Hmul Hsz Hin Hcov Hlz].
  unfold take_block. rewrite Hl. cbn [mbind option_bind].
  destruct (exists_last (l := x :: l) ltac:(done)) as (l' & off & El). rewrite El in *.
  rewrite vec_pop_snoc.
  destruct (split_down_spec (min_block b) off order (found - order) (<[found := l']> (b_free b)))
    as (f' & -> & Hlen' & Hp'); [rewrite length_insert; lia|]. cbn [mbind option_bind].
  pose proof (blocks_pop found (b_free b) l' off Hl) as Hpop.
  assert (Hfd : found = (order + (found - order))%nat) by lia.
  rewrite Hfd in Hpop at 1. rewrite length_insert in Hlen'.
  pose proof (split_lists_ok b live f' _ off order (found - order) Hwf Hlen' Hpop Hp') as Hlo.
  assert (Hoff : 0 <= off /\ off + 8 <= arena_size b).
  { pose proof (lo_in _ _ _ _ _ Hlo) as Hi. apply Forall_app in Hi as [_ Hi].
    apply Forall_cons in Hi as [Hi _]. cbn [fst snd] in Hi. unfold ALLOCATOR_HEADER_SIZE in Hhdr.
    pose proof (order_size_pos (min_block b) order ltac:(lia)). lia. }
  destruct (write_header_Some ar m off (Z.of_nat order)) as [m' Hw]; [lia|].
  rewrite Hw. cbn [mbind option_bind]. destruct (write_header_spec _ _ _ _ _ Hw) as (W1 & W2 & W3).
  assert (wf (with_free b f' (needs_coalesce b)) ((off, order) :: live)) as Hwf'.
  { apply (wf_with_free b live); [done..|]. intros Hnc o Hlt.
    by apply (split_no_buddies b live f' _ off order (found - order) o Hwf Hpop Hp'), Hlz. }
  eexists off, _, m'. split; [done|]. split; [|done]. split; [done|done|].
  constructor; [|by apply (live_hdr_frame _ ar m m' (off, order) live Hwf')].
  split; [done|]. cbn [fst snd]. rewrite W2. apply wrap32_small.
  assert (Z.of_nat order < W32); [|lia].
  pose proof (order_size_pow (min_block b) (min_shift b) Hmin Hsh (max_order b)) as Hpw.
  rewrite <- Hmax in Hpw. pose proof (Z.divide_pos_le _ _ Hpos Hmul).
  assert (Z.of_nat (max_order b) < 64); [|unfold W32; lia].
  destruct (Z_lt_le_dec (Z.of_nat (max_order b)) 64); [done|].
  pose proof (Z.pow_le_mono_r 2 64 (min_shift b + Z.of_nat (max_order b)) ltac:(lia) ltac:(lia)).
  change (2 ^ 64) with 18446744073709551616 in *. unfold I64_MAX in *. lia.
Qed.

Lemma ok_geometry (b b' : BuddyAllocator) (ar : arena) (m : mem) (live : list (Z * nat)) :
  ok b ar m live -> same_geometry b b' -> wf b' live -> ok b' ar m live.
Proof. intros [_ Ha Hh] (E & _) Hwf. split; [done | by rewrite E | done]. Qed.

Lemma same_geometry_trans (b1 b2 b3 : BuddyAllocator) :
  same_geometry b1 b2 -> same_geometry b2 b3 -> same_geometry b1 b3.
Proof. unfold same_geometry. intuition congruence. Qed.

(** What an allocation of [size] bytes does, on every branch. *)
Definition alloc_post (b : BuddyAllocator) (ar : arena) (m : mem) (live : list (Z * nat))
    (size : Z) (r : option Allocation) (b' : BuddyAllocator) (m' : mem) : Prop :=
  let order := order_for b (size + ALLOCATOR_HEADER_SIZE) in
  match r with
  | None => m' = m /\ ok b' ar m live /\
      (size = 0 \/ size > max_allocation b \/
       forall off, block_in b (off, order) -> Exists (overlaps (min_block b) off order) live)
  | Some al =>
      al = mkAllocation (block_offset al) (block_offset al + ALLOCATOR_HEADER_SIZE) size
             (order_size (min_block b) order - ALLOCATOR_HEADER_SIZE) /\
      0 < size <= alloc_cap al /\
      (forall o, size + ALLOCATOR_HEADER_SIZE <= order_size (min_block b) o -> (order <= o)%nat) /\
      ok b' ar m' ((block_offset al, order) :: live) /\
      mem_frame (a_base ar + block_offset al)
                (a_base ar + block_offset al + ALLOCATOR_HEADER_SIZE) m m'
  end.

Lemma alloc_spec (b : BuddyAllocator) (ar : arena) (m : mem) (live : list (Z * nat)) (size : Z) :
  ok b ar m live -> 0 <= size ->
  exists r b' m', alloc b ar m size = Some (r, b', m') /\ same_geometry b b' /\
    alloc_post b ar m live size r b' m'.
Proof.
  intros Hok Hs. pose proof Hok as [Hwf Har Hh]. unfold alloc, alloc_post, max_allocation.
  rewrite Har, Z.eqb_refl. cbn [negb orb]. case_if.
  { exists None, b, m. split; [done|]. split; [done|]. bools. split; [done|]. split; [done|].
    destruct E as [?|?]; bools; [by left | right; left; lia]. }
  bools. unfold ALLOCATOR_HEADER_SIZE in *.
  destruct (order_for_spec b live (size + 8) Hwf ltac:(lia)) as (Ho & Hfit & Hmin).
  set (order := order_for b (size + 8)) in *.
  destruct (search_spec b live order Hwf Ho) as (r & b1 & -> & Hwf1 & Hg & Hr).
  cbn [mbind option_bind]. pose proof Hg as (Ea & Em & EM & Es & Eo). destruct r as [f|].
  - destruct Hr as (Hf & x & l & Hl).
    destruct (take_block_spec b1 ar m live size order f x l) as (off & b' & m' & -> & Hok' & Hg' & Hfr);
      [by apply (ok_geometry b) | lia | done |]. rewrite Em.
    eexists _, b', m'. split; [done|]. split; [by apply (same_geometry_trans b b1)|].
    cbn [block_offset alloc_cap]. split; [done|]. split; [lia|]. done.
  - exists None, b1, m. do 2 (split; [done|]). split; [done|].
    split; [by apply (ok_geometry b)|]. right. right. done.
Qed.

(** ** Releasing a block *)

Lemma ok_perm (b : BuddyAllocator) (ar : arena) (m : mem) (live live' : list (Z * nat)) :
  live ≡ₚ live' -> ok b ar m live -> ok b ar m live'.
Proof.
  intros Hp [Hwf Ha Hh]. split; [|done|by rewrite <- Hp]. destruct Hwf; split; try done.
  - by rewrite <- Hp.
  - intros x Hx. by rewrite <- Hp; auto.
Qed.

Lemma release_spec (b : BuddyAllocator) (ar : arena) (m : mem) (off : Z) (order : nat)
    (live : list (Z * nat)) :
  ok b ar m ((off, order) :: live) ->
  exists b' m', release b ar m off order = Some (b', m') /\ ok b' ar m' live /\
    same_geometry b b' /\ load32 m' (a_base ar + off) = 0 /\
    mem_frame (a_base ar + off) (a_base ar + off + 8) m m'.
Proof.
  intros [Hwf Har Hh]. pose proof Hwf as [Hsh Hmin Hhdr Hmax Hlen Hpos Hmul Hsz Hin Hcov Hlz].
  assert (Hb : block_in b (off, order)).
  { apply Forall_app in Hin as [_ Hin]. by apply Forall_cons in Hin as [Hin _]. }
  destruct Hb as (Hbo & Hb0 & Hbd & Hbe). cbn [fst snd] in *.
  unfold ALLOCATOR_HEADER_SIZE in *. pose proof (order_size_pos (min_block b) order ltac:(lia)).
  unfold release. destruct (clear_magic_spec ar m off) as (m' & -> & Hz & Hf); [lia|].
  cbn [mbind option_bind]. destruct (lookup_lt_is_Some_2 (b_free b) order) as [l Hl]; [lia|].
  rewrite Hl. cbn [mbind option_bind].
  pose proof (blocks_push order (b_free b) l off Hl) as Hp.
  eexists _, m'. split; [done|]. split; [|done]. split; [|done|].
  - assert (Hpp : blocks_from 0 (<[order := l ++ [off]]> (b_free b)) ++ live ≡ₚ
      free_blocks b ++ (off, order) :: live).
    { rewrite Hp. unfold free_blocks. solve_Permutation. }
    apply (wf_with_free b ((off, order) :: live)); [done| |].
    + split; [by rewrite length_insert | by rewrite Hpp |].
      intros x Hx. rewrite Hpp. by apply Hcov.
    + intros Hnc o Ho. bools. assert (order = max_order b) by lia. subst order.
      apply (no_buddies_same _ (b_free b)); [|by apply Hlz].
      by rewrite list_lookup_insert_ne by lia.
  - apply Forall_cons in Hh as [_ Hh]. by apply (live_hdr_frame b ar m m' (off, order) live).
Qed.

(** The header of a live block is read back as the block's order. *)
Lemma live_order_spec (b : BuddyAllocator) (ar : arena) (m : mem) (off : Z) (order : nat)
    (live : list (Z * nat)) :
  ok b ar m ((off, order) :: live) -> live_order b ar m off = Ok order.
Proof.
  intros [Hwf Har Hh]. pose proof Hwf as [Hsh Hmin Hhdr Hmax Hlen Hpos Hmul Hsz Hin Hcov Hlz].
  apply Forall_app in Hin as [_ Hin]. apply Forall_cons in Hin as [(Hbo & Hb0 & Hbd & Hbe) _].
  apply Forall_cons in Hh as [[H1 H2] _]. cbn [fst snd] in *.
  unfold ALLOCATOR_HEADER_SIZE in *. pose proof (order_size_pos (min_block b) order ltac:(lia)).
  unfold live_order. rewrite read_header_Some by (unfold W64, I64_MAX in *; lia).
  rewrite H1, H2, Z.eqb_refl. cbn [negb]. rewrite Nat2Z.id.
  rewrite (order_size_pow (min_block b) (min_shift b)) in * by done.
  rewrite land_pow2_mask by lia.
  rewrite (proj2 (Z.mod_divide off (2 ^ (min_shift b + Z.of_nat order)) ltac:(lia)) Hbd). cbn.
  case_if; bools; [lia|done].
Qed.

Lemma is_valid_live (b : BuddyAllocator) (live : list (Z * nat)) (off : Z) (order : nat) :
  wf b live -> In (off, order) live -> is_valid_offset b (off + ALLOCATOR_HEADER_SIZE) = true.
Proof.
  intros Hwf Hi. pose proof Hwf as [Hsh Hmin Hhdr Hmax Hlen Hpos Hmul Hsz Hin Hcov Hlz].
  apply Forall_app in Hin as [_ Hin]. rewrite List.Forall_forall in Hin.
  destruct (Hin _ Hi) as (Hbo & Hb0 & Hbd & Hbe). cbn [fst snd] in *.
  unfold is_valid_offset, ALLOCATOR_HEADER_SIZE in *. replace (off + 8 - 8) with off by lia.
  pose proof (order_size_pos (min_block b) order ltac:(lia)).
  rewrite !andb_true_iff. rewrite Z.geb_leb, Z.leb_le, Z.ltb_lt, Z.eqb_eq.
  split; [split; lia|]. rewrite Hmin, land_pow2_mask by done.
  apply Z.mod_divide; [lia|]. rewrite <- Hmin. eapply Z.divide_trans; [|exact Hbd].
  rewrite <- (order_size_0 (min_block b)) at 1. apply order_size_divide. lia.
Qed.

Lemma free_at_spec (b : BuddyAllocator) (ar : arena) (m : mem) (off : Z) (order : nat)
    (live : list (Z * nat)) :
  ok b ar m ((off, order) :: live) ->
  exists b' m', free_at b ar m (off + ALLOCATOR_HEADER_SIZE) = Some (Ok tt, b', m') /\
    ok b' ar m' live /\ same_geometry b b' /\ load32 m' (a_base ar + off) = 0 /\
    mem_frame (a_base ar + off) (a_base ar + off + 8) m m'.
Proof.
  intros Hok. pose proof Hok as [Hwf Har _].
  destruct (release_spec b ar m off order live Hok) as (b' & m' & Hr & Hrest).
  exists b', m'. split; [|done]. unfold free_at. rewrite Har, Z.eqb_refl. cbn [negb].
  rewrite (is_valid_live b _ off order Hwf) by (left; done). cbn [negb].
  unfold ALLOCATOR_HEADER_SIZE. replace (off + 8 - 8) with off by lia.
  by rewrite (live_order_spec b ar m off order live Hok), Hr.
Qed.

(** A valid offset names a minimum block that fits the arena. *)
Lemma block_end_of_valid (b : BuddyAllocator) (live : list (Z * nat)) (off : Z) :
  wf b live -> is_valid_offset b off = true ->
  off - ALLOCATOR_HEADER_SIZE + min_block b <= arena_size b.
Proof.
  intros Hwf Hv. pose proof Hwf as [Hsh Hmin Hhdr Hmax Hlen Hpos Hmul Hsz Hin Hcov Hlz].
  unfold is_valid_offset, ALLOCATOR_HEADER_SIZE in *. bools.
  rewrite Hmin, land_pow2_mask in H0 by done. apply Z.mod_divide in H0; [|lia].
  rewrite <- Hmin in H0. apply sorted_next_multiple; [lia | done | | lia].
  eapply Z.divide_trans; [|exact Hmul]. rewrite Hmax.
  rewrite <- (order_size_0 (min_block b)) at 1. apply order_size_divide. lia.
Qed.

(** A block whose magic is gone is refused and nothing changes. *)
Lemma free_at_dead (b : BuddyAllocator) (ar : arena) (m : mem) (off : Z) (live : list (Z * nat)) :
  ok b ar m live -> is_valid_offset b (off + ALLOCATOR_HEADER_SIZE) = true ->
  load32 m (a_base ar + off) <> MAGIC ->
  free_at b ar m (off + ALLOCATOR_HEADER_SIZE) = Some (Err NotAllocated, b, m).
Proof.
  intros [Hwf Har _] Hv Hm. unfold free_at. rewrite Har, Z.eqb_refl, Hv. cbn [negb].
  pose proof (block_end_of_valid b live _ Hwf Hv).
  pose proof Hwf as [_ _ Hhdr _ _ _ _ Hsz _ _ _].
  unfold is_valid_offset, ALLOCATOR_HEADER_SIZE in *. bools.
  replace (off + 8 - 8) with off in * by lia.
  unfold live_order. rewrite read_header_Some by (unfold W64, I64_MAX in *; lia).
  case_if; [done|]. bools. done.
Qed.

Lemma order_for_capacity_spec (b : BuddyAllocator) (live : list (Z * nat)) (order : nat) :
  wf b live -> (order <= max_order b)%nat ->
  order_for_capacity b (order_size (min_block b) order - ALLOCATOR_HEADER_SIZE) = Some order.
Proof.
  intros Hwf Ho. pose proof Hwf as [Hsh Hmin Hhdr Hmax _ Hpos Hmul Hsz _ _ _].
  unfold order_for_capacity, checked_add, ALLOCATOR_HEADER_SIZE in *.
  pose proof (order_size_mono (min_block b) order (max_order b) ltac:(lia) Ho).
  pose proof (order_size_pos (min_block b) order ltac:(lia)).
  pose proof (Z.divide_pos_le _ _ Hpos Hmul).
  replace (order_size (min_block b) order - 8 + 8) with (order_size (min_block b) order) by lia.
  rewrite (proj2 (Z.ltb_lt _ _)) by (unfold W64, I64_MAX in *; lia). cbn [mbind option_bind].
  assert (order_size (min_block b) order = 2 ^ (min_shift b + Z.of_nat order)) as E
    by (by apply order_size_pow).
  assert (is_power_of_two (order_size (min_block b) order) = true) as ->.
  { apply is_power_of_two_spec. exists (min_shift b + Z.of_nat order). split; [lia|done]. }
  cbn [negb orb]. case_if; bools; [destruct E0; bools; lia|].
  rewrite E, trailing_zeros_pow2 by lia. f_equal. lia.
Qed.

(** Releasing through the whole [Allocation] is releasing by offset, once the
    record agrees with the block. *)
Lemma free_is_free_at (b : BuddyAllocator) (ar : arena) (m : mem) (al : Allocation)
    (order : nat) (live : list (Z * nat)) :
  ok b ar m ((block_offset al, order) :: live) ->
  data_offset al = block_offset al + ALLOCATOR_HEADER_SIZE ->
  alloc_cap al = order_size (min_block b) order - ALLOCATOR_HEADER_SIZE ->
  alloc_len al <= alloc_cap al ->
  free b ar m al = free_at b ar m (data_offset al).
Proof.
  intros Hok Hd Hc Hl. pose proof Hok as [Hwf Har _].
  pose proof Hwf as [Hsh Hmin Hhdr Hmax _ Hpos Hmul Hsz Hin _ _].
  apply Forall_app in Hin as [_ Hin]. apply Forall_cons in Hin as [(Hbo & Hb0 & Hbd & Hbe) _].
  cbn [fst snd] in *. unfold free, free_at. rewrite Har, Z.eqb_refl. cbn [negb].
  rewrite Hd, (is_valid_live b _ (block_offset al) order Hwf) by (left; done).
  rewrite Hc, (order_for_capacity_spec b _ order Hwf Hbo).
  unfold ALLOCATOR_HEADER_SIZE in *. pose proof (order_size_pos (min_block b) order ltac:(lia)).
  rewrite Z.eqb_refl. cbn [negb]. rewrite orb_false_r.
  replace (block_offset al + 8 - 8) with (block_offset al) by lia.
  rewrite (live_order_spec b ar m _ order live Hok), Nat.eqb_refl. cbn [negb].
  case_if; bools; [destruct E; bools; lia|]. case_if; bools; [lia|]. done.
Qed.

(** A record whose capacity names another order is refused. *)
Lemma free_wrong_capacity (b : BuddyAllocator) (ar : arena) (m : mem) (al : Allocation)
    (order : nat) (live : list (Z * nat)) :
  ok b ar m ((block_offset al, order) :: live) ->
  data_offset al = block_offset al + ALLOCATOR_HEADER_SIZE -> 0 <= alloc_cap al ->
  alloc_cap al <> order_size (min_block b) order - ALLOCATOR_HEADER_SIZE ->
  free b ar m al = Some (Err CorruptMetadata, b, m).
Proof.
  intros Hok Hd Hc0 Hc. pose proof Hok as [Hwf Har _].
  pose proof Hwf as [Hsh Hmin Hhdr Hmax _ Hpos Hmul Hsz Hin _ _].
  apply Forall_app in Hin as [_ Hin]. apply Forall_cons in Hin as [(Hbo & Hb0 & Hbd & Hbe) _].
  cbn [fst snd] in *. unfold free. rewrite Har, Z.eqb_refl. cbn [negb].
  unfold ALLOCATOR_HEADER_SIZE in *. pose proof (order_size_pos (min_block b) order ltac:(lia)).
  rewrite Hd, Z.eqb_refl. cbn [negb]. rewrite orb_false_r.
  case_if; bools; [destruct E; bools; lia|]. case_if; [done|].
  destruct (order_for_capacity b (alloc_cap al)) as [c|] eqn:Ec; [|done].
  rewrite (live_order_spec b ar m _ order live Hok). case_if; [done|]. bools. subst c.
  exfalso. apply Hc. unfold order_for_capacity, checked_add, ALLOCATOR_HEADER_SIZE in Ec.
  case_if_in Ec; [|done]. cbn [mbind option_bind] in Ec. case_if_in Ec; [done|].
  injection Ec as <-. bools. apply is_power_of_two_spec in H2 as (k & Hk & Ek).
  rewrite (order_size_pow (min_block b) (min_shift b)) by done.
  rewrite Ek, trailing_zeros_pow2, <- (Z.add_simpl_r (alloc_cap al) 8), Ek by done.
  assert (min_shift b <= k); [|do 2 f_equal; lia].
  apply (Z.pow_le_mono_r_iff 2); lia.
Qed.

(** ** Construction and reset *)

(** Consecutive blocks of one order cover their range once. *)
Lemma cover_steps (mb x : Z) (o s n : nat) :
  0 < mb ->
  cover mb x ((fun off => (off, o)) <$> ((fun i => Z.of_nat i * order_size mb o) <$> seq s n)) =
  if (Z.of_nat s * order_size mb o <=? x) && (x <? Z.of_nat (s + n) * order_size mb o)
  then 1 else 0.
Proof.
  intros Hmb. pose proof (order_size_pos mb o Hmb).
  revert s. induction n as [|n IH]; intros s; cbn [seq fmap list_fmap cover].
  - rewrite Nat.add_0_r. case_if; bools; lia.
  - change (list_fmap _ _ ?f ?l) with (f <$> l). rewrite IH. unfold covers. cbn [fst snd].
    replace (Z.of_nat (s + S n) * order_size mb o) with (Z.of_nat (S s + n) * order_size mb o)
      by (do 2 f_equal; lia).
    assert (Z.of_nat (S s) * order_size mb o = Z.of_nat s * order_size mb o + order_size mb o) by lia.
    assert (Z.of_nat (S s) * order_size mb o <= Z.of_nat (S s + n) * order_size mb o) by nia.
    repeat case_if; bcases; lia.
Qed.

Lemma blocks_replicate (o n : nat) : blocks_from o (replicate n []) = [].
Proof. revert o. induction n as [|n IH]; intros o; [done|]. simpl. apply IH. Qed.

(** The initial free lists tile the arena with blocks of the top order. *)
Lemma fresh_lists_ok (mb N : Z) (top : nat) :
  0 < mb -> 0 < N -> (order_size mb top | N) ->
  lists_ok mb top N (replicate top [] ++ [step_offsets N (order_size mb top)]) [].
Proof.
  intros Hmb HN [q Hq]. pose proof (order_size_pos mb top Hmb) as Hp. assert (0 < q) by nia.
  assert (Hn : div_ceil N (order_size mb top) = q).
  { unfold div_ceil. subst N. symmetry. apply (Z.div_unique _ _ _ (order_size mb top - 1)); lia. }
  assert (Hb : blocks_from 0 (replicate top [] ++ [step_offsets N (order_size mb top)]) =
    (fun off => (off, top)) <$>
      ((fun i => Z.of_nat i * order_size mb top) <$> seq 0 (Z.to_nat q))).
  { rewrite blocks_from_app, blocks_replicate, length_replicate. simpl.
    rewrite app_nil_r. unfold step_offsets. by rewrite Hn. }
  split.
  - rewrite length_app, length_replicate. simpl. lia.
  - rewrite app_nil_r, Hb. apply List.Forall_forall. intros [off o] Hi.
    apply in_map_iff in Hi as (off' & [= -> <-] & Hi). apply in_map_iff in Hi as (i & <- & Hi).
    apply in_seq in Hi. cbn [fst snd]. repeat split; [lia | nia | apply Z.divide_factor_r | nia].
  - intros x Hx. rewrite app_nil_r, Hb, cover_steps by done. case_if; [done|].
    bools. destruct E; bools; nia.
Qed.

Lemma fresh_no_buddies (mb N : Z) (top o : nat) (l : list Z) :
  (o < top)%nat -> no_buddies mb (blocks_from 0 (replicate top [] ++ [l])) o.
Proof.
  intros Ho. apply no_buddies_empty. rewrite lookup_app_l by (by rewrite length_replicate).
  by apply lookup_replicate_2.
Qed.

Lemma new_spec (N mn mx : Z) (b : BuddyAllocator) :
  N <= I64_MAX -> new_with_block_size N mn mx = Ok b ->
  wf b [] /\ arena_size b = N /\ min_block b = mn /\ max_block b = mx.
Proof.
  intros HN. unfold new_with_block_size. repeat (case_if; [done|]). intros [= <-]. cbn. bools.
  apply is_power_of_two_spec in H1 as (k & Hk & ->), H2 as (K & HK & ->).
  rewrite !trailing_zeros_pow2 by done. unfold ALLOCATOR_HEADER_SIZE in *.
  assert (0 < 2 ^ K) by (apply Z.pow_pos_nonneg; lia).
  assert (HkK : k <= K).
  { destruct (Z_le_gt_dec k K); [done|]. assert (2 ^ K < 2 ^ k); [|lia].
    apply Z.pow_lt_mono_r; lia. }
  assert (E : order_size (2 ^ k) (Z.to_nat (K - k)) = 2 ^ K).
  { rewrite order_size_eq, <- Z.pow_add_r by lia. f_equal. lia. }
  assert (Hd : (2 ^ K | N)).
  { unfold is_multiple_of in H0. case_if_in H0; bools; [lia|].
    apply Z.mod_divide; lia. }
  split; [|done].
  destruct (fresh_lists_ok (2 ^ k) N (Z.to_nat (K - k))) as [L1 L2 L3]; [lia|lia|by rewrite E|].
  rewrite E in *. split; cbn; try done; try lia.
  intros _ o Ho. by apply (fresh_no_buddies (2 ^ k) N).
Qed.

(** Every combination of sizes is either built or refused for its reason. *)
Lemma new_accepts (N mn mx : Z) :
  is_power_of_two mn = true -> is_power_of_two mx = true ->
  ALLOCATOR_HEADER_SIZE < mn -> mn <= mx -> 0 < N -> (mx | N) ->
  exists b, new_with_block_size N mn mx = Ok b.
Proof.
  intros Hn Hx Hh Hle HN Hd. unfold new_with_block_size. rewrite Hn, Hx. cbn [negb orb].
  unfold ALLOCATOR_HEADER_SIZE in *. pose proof (Z.divide_pos_le _ _ HN Hd).
  assert (is_multiple_of N mx = true) as ->.
  { unfold is_multiple_of. case_if; bools; [lia|]. apply Z.eqb_eq, Z.mod_divide; [lia|done]. }
  cbn [negb]. rewrite orb_false_r.
  repeat (case_if; bools; [lia|]). eauto.
Qed.

Lemma reset_spec (b : BuddyAllocator) (ar : arena) (m : mem) (live : list (Z * nat)) :
  ok b ar m live ->
  exists b', reset b ar m = Some (Ok tt, b', m) /\ ok b' ar m [] /\ same_geometry b b' /\
    b_free b' = replicate (max_order b) [] ++ [step_offsets (arena_size b) (max_block b)].
Proof.
  intros [Hwf Har Hh]. pose proof Hwf as [Hsh Hmin Hhdr Hmax Hlen Hpos Hmul Hsz _ _ _].
  unfold ALLOCATOR_HEADER_SIZE in *.
  unfold reset. rewrite Har, Z.eqb_refl. cbn [negb].
  assert (Hc : (fun _ : list Z => @nil Z) <$> b_free b = replicate (max_order b) [] ++ [[]]).
  { rewrite <- replicate_S_end, <- Hlen. clear. induction (b_free b) as [|? ? IH]; [done|].
    rewrite fmap_cons, IH. done. }
  rewrite Hc. rewrite (list_lookup_middle (replicate (max_order b) []) [] [])
    by (by rewrite length_replicate). cbn [mbind option_bind app].
  rewrite insert_app_r_alt by (by rewrite length_replicate). rewrite length_replicate, Nat.sub_diag.
  cbn [insert list_insert]. eexists. split; [done|]. split; [|done].
  rewrite Hmax in Hmul. pose proof (fresh_lists_ok (min_block b) (arena_size b) (max_order b)
    ltac:(lia) Hpos Hmul) as Hlo. rewrite <- Hmax in Hlo.
  split; [|done|constructor]. apply (wf_with_free b live); [done|done|].
  intros _ o Ho. by apply (fresh_no_buddies _ (arena_size b)).
Qed.
