(* ===== verification/BuddyLaws.v ===== *)
(** * What the buddy allocator promises

    The laws of [Header.AllocatorLaws] for [BuddyAllocator], exact accounting of
    [available], and the correctness theorems of the component. *)

From S2P Require Import Prelude Header Buddy BuddyFacts BuddySpec.
From Stdlib Require Import ZArith Lia Permutation.
From stdpp Require Import base numbers list gmap sorting.

#[local] Open Scope Z_scope.

(** ** The laws *)

Lemma geometry_shape (b b' : BuddyAllocator) : same_geometry b b' -> same_shape b b'.
Proof.
  intros (Ea & Em & EM & _). unfold same_shape. cbn. unfold max_allocation, is_valid_offset.
  by rewrite Ea, Em, EM.
Qed.

Definition to_span (mb : Z) (blk : Z * nat) : span := mkSpan (fst blk) (order_size mb (snd blk)).

Definition buddy_ok (b : BuddyAllocator) (ar : arena) (m : mem) (spans : list span) : Prop :=
  exists live, ok b ar m live /\ spans = to_span (min_block b) <$> live.

Lemma buddy_bounds (b : BuddyAllocator) (ar : arena) (m : mem) (spans : list span) (s : span) :
  buddy_ok b ar m spans -> In s spans ->
  0 <= sp_off s /\ ALLOCATOR_HEADER_SIZE < sp_size s /\ sp_off s + sp_size s <= a_len ar.
Proof.
  intros (live & Hok & ->) Hs. apply in_map_iff in Hs as (blk & <- & Hi).
  destruct Hok as [Hwf Har _]. rewrite Har. pose proof (wf_in _ _ Hwf) as Hin.
  apply Forall_app in Hin as [_ Hin]. rewrite List.Forall_forall in Hin.
  destruct (Hin _ Hi) as (_ & H0 & _ & He). pose proof (wf_min_pos _ _ Hwf).
  pose proof (order_size_pos (min_block b) (snd blk) ltac:(lia)).
  unfold ALLOCATOR_HEADER_SIZE, to_span. cbn. lia.
Qed.

Lemma buddy_disjoint (b : BuddyAllocator) (ar : arena) (m : mem) (l1 : list span)
    (s : span) (l2 : list span) (t : span) (l3 : list span) :
  buddy_ok b ar m (l1 ++ s :: l2 ++ t :: l3) -> span_disjoint s t.
Proof.
  intros (live & [Hwf Har _] & E). symmetry in E.
  apply fmap_app_inv in E as (k1 & k' & -> & E' & ->).
  destruct k' as [|s' k']; [done|]. rewrite fmap_cons in E'. injection E' as -> E'.
  symmetry in E'. apply fmap_app_inv in E' as (k2 & k3 & -> & E3 & ->).
  destruct k3 as [|t' k3]; [done|]. rewrite fmap_cons in E3. injection E3 as -> ->.
  apply (blocks_disjoint b _ (free_blocks b ++ k1 ++ k2 ++ k3) s' t' Hwf). solve_Permutation.
Qed.

Lemma buddy_valid_bounds (b : BuddyAllocator) (ar : arena) (m : mem) (spans : list span) (off : Z) :
  buddy_ok b ar m spans -> is_valid_offset b off = true ->
  ALLOCATOR_HEADER_SIZE <= off <= a_len ar.
Proof.
  intros (live & [Hwf Har _] & _) Hv. rewrite Har. pose proof (block_end_of_valid b live off Hwf Hv).
  pose proof (wf_min_pos b live Hwf).
  unfold is_valid_offset, ALLOCATOR_HEADER_SIZE in *. bools. lia.
Qed.

Lemma buddy_frame (b : BuddyAllocator) (ar : arena) (m m' : mem) (spans : list span) :
  buddy_ok b ar m spans ->
  (forall s x, In s spans -> sp_off s <= x < sp_off s + ALLOCATOR_HEADER_SIZE ->
     rd m' (a_base ar + x) = rd m (a_base ar + x)) ->
  buddy_ok b ar m' spans.
Proof.
  intros (live & [Hwf Har Hh] & ->) Hf. exists live. split; [|done]. split; [done|done|].
  rewrite List.Forall_forall in Hh |- *. intros blk Hi. destruct (Hh blk Hi) as [H1 H2].
  assert (Hb : forall x, fst blk <= x < fst blk + 8 -> rd m' (a_base ar + x) = rd m (a_base ar + x)).
  { intros x Hx. apply (Hf (to_span (min_block b) blk)); [|done]. by apply in_map. }
  unfold live_hdr, load32 in *. rewrite <- H1, <- H2.
  split; apply load_ext; intros x Hx; replace x with (a_base ar + (x - a_base ar)) by lia;
    apply Hb; lia.
Qed.

Lemma buddy_alloc (b : BuddyAllocator) (ar : arena) (m : mem) (spans : list span) (size : Z) :
  buddy_ok b ar m spans -> 0 <= size ->
  exists r b' m', alloc b ar m size = Some (r, b', m') /\
    same_shape b b' /\
    match r with
    | None => m' = m /\ buddy_ok b' ar m spans
    | Some al => exists sz,
        buddy_ok b' ar m' (mkSpan (block_offset al) sz :: spans) /\
        data_offset al = block_offset al + ALLOCATOR_HEADER_SIZE /\
        alloc_len al = size /\ 0 < size <= alloc_cap al /\
        alloc_cap al = sz - ALLOCATOR_HEADER_SIZE /\
        mem_frame (a_base ar + block_offset al)
                  (a_base ar + block_offset al + ALLOCATOR_HEADER_SIZE) m m'
    end.
Proof.
  intros (live & Hok & ->) Hs.
  destruct (alloc_spec b ar m live size Hok Hs) as (r & b' & m' & Ha & Hg & Hp).
  exists r, b', m'. split; [done|]. split; [by apply geometry_shape|]. destruct Hg as (_ & Em & _).
  unfold alloc_post in Hp. destruct r as [al|].
  - destruct Hp as (Eal & Hsz & _ & Hok' & Hf).
    exists (order_size (min_block b) (order_for b (size + ALLOCATOR_HEADER_SIZE))).
    assert (E := Eal). rewrite Eal. rewrite Eal in Hsz. cbn in Hsz |- *.
    split; [|rewrite Eal in Hf; done]. eexists. split; [exact Hok'|].
    rewrite fmap_cons, Em. done.
  - destruct Hp as (-> & Hok' & _). split; [done|]. exists live. by rewrite Em.
Qed.

Lemma buddy_free_at (b : BuddyAllocator) (ar : arena) (m : mem) (l1 : list span)
    (s : span) (l2 : list span) :
  buddy_ok b ar m (l1 ++ s :: l2) ->
  exists b' m', free_at b ar m (sp_off s + ALLOCATOR_HEADER_SIZE) = Some (Ok tt, b', m') /\
    same_shape b b' /\ buddy_ok b' ar m' (l1 ++ l2) /\
    mem_frame (a_base ar + sp_off s) (a_base ar + sp_off s + ALLOCATOR_HEADER_SIZE) m m'.
Proof.
  intros (live & Hok & E). symmetry in E. apply fmap_app_inv in E as (k1 & k' & -> & E' & ->).
  destruct k' as [|[off o] k']; [done|]. rewrite fmap_cons in E'. injection E' as -> ->.
  apply (ok_perm b ar m _ ((off, o) :: k1 ++ k')) in Hok; [|solve_Permutation].
  destruct (free_at_spec b ar m off o (k1 ++ k') Hok) as (b' & m' & Hf & Hok' & Hg & _ & Hfr).
  exists b', m'. split; [done|]. split; [by apply geometry_shape|]. split; [|done].
  destruct Hg as (_ & Em & _).
  exists (k1 ++ k'). by rewrite Em, fmap_app.
Qed.

Lemma buddy_valid (b : BuddyAllocator) (ar : arena) (m : mem) (spans : list span) (s : span) :
  buddy_ok b ar m spans -> In s spans ->
  is_valid_offset b (sp_off s + ALLOCATOR_HEADER_SIZE) = true.
Proof.
  intros (live & [Hwf _ _] & ->) Hs. apply in_map_iff in Hs as ([off o] & <- & Hi).
  by apply (is_valid_live b live off o).
Qed.

Lemma buddy_reset (b : BuddyAllocator) (ar : arena) (m : mem) (spans : list span) :
  buddy_ok b ar m spans ->
  exists b', reset b ar m = Some (Ok tt, b', m) /\
    same_shape b b' /\ buddy_ok b' ar m [].
Proof.
  intros (live & Hok & ->).
  destruct (reset_spec b ar m live Hok) as (b' & Hr & Hok' & Hg & _).
  exists b'. split; [done|]. split; [by apply geometry_shape|]. by exists [].
Qed.

#[global] Instance Buddy_Laws : AllocatorLaws BuddyAllocator := {|
  alloc_ok := buddy_ok;
  law_bounds := buddy_bounds;
  law_disjoint := buddy_disjoint;
  law_valid := buddy_valid;
  law_valid_bounds := buddy_valid_bounds;
  law_frame := buddy_frame;
  law_alloc := buddy_alloc;
  law_free_at := buddy_free_at;
  law_reset := buddy_reset;
|}.

(** ** Accounting *)

Fixpoint sizes (mb : Z) (l : list (Z * nat)) : Z :=
  match l with
  | [] => 0
  | blk :: l => order_size mb (snd blk) + sizes mb l
  end.

Fixpoint sum_to (f : Z -> Z) (n : nat) : Z :=
  match n with
  | O => 0
  | S n => sum_to f n + f (Z.of_nat n)
  end.

Lemma sum_to_covers (mb off : Z) (o n : nat) :
  0 <= off -> 0 <= order_size mb o ->
  sum_to (fun x => covers mb x (off, o)) n =
  Z.max 0 (Z.min (Z.of_nat n) (off + order_size mb o) - off).
Proof.
  intros. induction n as [|n IH]; cbn [sum_to]; [lia|]. rewrite IH. unfold covers. cbn [fst snd].
  case_if; bcases; lia.
Qed.

Lemma sum_to_cover (mb : Z) (l : list (Z * nat)) (n : nat) :
  0 < mb ->
  Forall (fun blk => 0 <= fst blk /\ fst blk + order_size mb (snd blk) <= Z.of_nat n) l ->
  sum_to (fun x => cover mb x l) n = sizes mb l.
Proof.
  intros Hmb. induction l as [|[off o] l IH]; intros HF; cbn [cover sizes].
  - clear. induction n as [|n IH]; [done|]. cbn [sum_to]. lia.
  - apply Forall_cons in HF as [[H1 H2] HF]. cbn [fst snd] in *. rewrite <- IH by done.
    pose proof (order_size_pos mb o Hmb).
    assert (forall k f g, sum_to (fun x => f x + g x) k = sum_to f k + sum_to g k) as Hadd.
    { clear. intros k f g. induction k as [|k IH]; cbn [sum_to]; lia. }
    rewrite Hadd, sum_to_covers by lia. lia.
Qed.

Lemma available_sizes (mb : Z) (o : nat) (f : list (list Z)) :
  available_from mb o f =
  sizes mb (blocks_from o f) - ALLOCATOR_HEADER_SIZE * Z.of_nat (length (blocks_from o f)).
Proof.
  assert (Happ : forall l1 l2, sizes mb (l1 ++ l2) = sizes mb l1 + sizes mb l2).
  { clear. intros l1 l2. induction l1; simpl; lia. }
  revert o. induction f as [|l f IH]; intros o; cbn [available_from blocks_from]; [done|].
  rewrite IH, Happ, length_app, length_fmap.
  assert (sizes mb ((fun off => (off, o)) <$> l) = Z.of_nat (length l) * order_size mb o) as ->; [|lia].
  induction l as [|x l IHl]; [done|]. rewrite fmap_cons. cbn [sizes snd length]. lia.
Qed.

Lemma sizes_tiling (b : BuddyAllocator) (live : list (Z * nat)) :
  wf b live -> sizes (min_block b) (free_blocks b ++ live) = arena_size b.
Proof.
  intros Hwf. pose proof (wf_min_pos _ _ Hwf). pose proof Hwf as [_ _ _ _ _ Hpos _ _ Hin Hcov _].
  rewrite <- (sum_to_cover (min_block b) _ (Z.to_nat (arena_size b))); [|lia|].
  - assert (Hone : forall n, Z.of_nat n <= arena_size b ->
      sum_to (fun x => cover (min_block b) x (free_blocks b ++ live)) n = Z.of_nat n); [|rewrite Hone; lia].
    induction n as [|n IH]; intros Hn; [done|]. cbn [sum_to]. rewrite IH, Hcov by lia. lia.
  - eapply Forall_impl; [exact Hin|]. intros blk (_ & ? & _ & ?). lia.
Qed.

(** ** Theorems *)

(** C26. An allocation in a consistent allocator never panics and keeps the free
    and live blocks an exact tiling of the arena.  When it succeeds the block
    is new, is the smallest order that holds the request and its header, its
    record is the one documented, and only the eight header bytes of the arena
    are written.  When it fails for a request within [max_allocation], every
    aligned range of the needed order really meets a live block: lazy
    coalescing loses no space. *)
Theorem buddy_alloc_correct (b : BuddyAllocator) (ar : arena) (m : mem) (live : list (Z * nat))
    (size : Z) :
  ok b ar m live -> 0 <= size ->
  exists r b' m', alloc b ar m size = Some (r, b', m') /\ same_geometry b b' /\
    alloc_post b ar m live size r b' m'.
Proof. apply alloc_spec. Qed.

(** C39. With no block live, whatever was allocated and released before, every
    request from one byte up to [max_allocation] is served. *)
Theorem buddy_no_fragmentation (b : BuddyAllocator) (ar : arena) (m : mem) (size : Z) :
  ok b ar m [] -> 0 < size <= max_allocation b ->
  exists al b' m', alloc b ar m size = Some (Some al, b', m').
Proof.
  intros Hok Hs. destruct (alloc_spec b ar m [] size Hok ltac:(lia)) as (r & b' & m' & Ha & _ & Hp).
  destruct r as [al|]; [by exists al, b', m'|]. exfalso.
  destruct Hp as (_ & _ & [?|[?|Hno]]); [lia|lia|].
  pose proof Hok as [Hwf _ _]. pose proof Hwf as [Hsh Hmin Hhdr Hmax _ Hpos Hmul _ _ _ _].
  unfold max_allocation, ALLOCATOR_HEADER_SIZE in *.
  destruct (order_for_spec b [] (size + 8) Hwf ltac:(lia)) as (Ho & _ & _).
  specialize (Hno 0). apply Exists_nil in Hno; [done|].
  repeat split; cbn; [done | lia | apply Z.divide_0_r |].
  pose proof (order_size_mono (min_block b) _ _ ltac:(lia) Ho).
  pose proof (Z.divide_pos_le _ _ Hpos Hmul). lia.
Qed.

(** C38. Releasing a live block by the offset of its data succeeds, takes exactly
    that block off the live set and keeps the invariant; releasing it a second
    time is refused as [NotAllocated] and changes nothing. *)
Theorem buddy_free_at_once (b : BuddyAllocator) (ar : arena) (m : mem) (off : Z) (order : nat)
    (live : list (Z * nat)) :
  ok b ar m ((off, order) :: live) ->
  exists b' m',
    free_at b ar m (off + ALLOCATOR_HEADER_SIZE) = Some (Ok tt, b', m') /\
    ok b' ar m' live /\ same_geometry b b' /\
    mem_frame (a_base ar + off) (a_base ar + off + ALLOCATOR_HEADER_SIZE) m m' /\
    free_at b' ar m' (off + ALLOCATOR_HEADER_SIZE) = Some (Err NotAllocated, b', m').
Proof.
  intros Hok. pose proof (ok_wf _ _ _ _ Hok) as Hwf.
  destruct (free_at_spec b ar m off order live Hok) as (b' & m' & Hf & Hok' & Hg & Hz & Hfr).
  exists b', m'. do 4 (split; [done|]). apply (free_at_dead b' ar m' off live Hok').
  - destruct Hg as (Ea & Em & _). unfold is_valid_offset. rewrite Ea, Em.
    apply (is_valid_live b _ off order Hwf). left. done.
  - by rewrite Hz.
Qed.

(** [free] with the record of a live block does what [free_at] does; with a
    capacity that names another order it is refused as [CorruptMetadata] and
    neither the allocator nor the arena changes. *)
Theorem buddy_free_checks_capacity (b : BuddyAllocator) (ar : arena) (m : mem) (al : Allocation)
    (order : nat) (live : list (Z * nat)) :
  ok b ar m ((block_offset al, order) :: live) ->
  data_offset al = block_offset al + ALLOCATOR_HEADER_SIZE -> 0 <= alloc_len al <= alloc_cap al ->
  free b ar m al =
    if alloc_cap al =? order_size (min_block b) order - ALLOCATOR_HEADER_SIZE
    then free_at b ar m (data_offset al)
    else Some (Err CorruptMetadata, b, m).
Proof.
  intros Hok Hd Hl. case_if; bools.
  - by apply (free_is_free_at b ar m al order live); [..|lia].
  - by apply (free_wrong_capacity b ar m al order live); [..|lia|].
Qed.

(** The constructor accepts exactly the documented sizes (powers of two, a
    minimum block larger than the header, an arena that is a positive multiple
    of the maximum block) and what it builds satisfies the invariant with
    nothing live. *)
Theorem buddy_new_correct (N mn mx : Z) :
  0 <= N <= I64_MAX ->
  ((exists b, new_with_block_size N mn mx = Ok b) <->
   is_power_of_two mn = true /\ is_power_of_two mx = true /\
   ALLOCATOR_HEADER_SIZE < mn <= mx /\ 0 < N /\ (mx | N)) /\
  (forall b, new_with_block_size N mn mx = Ok b ->
     wf b [] /\ arena_size b = N /\ min_block b = mn /\ max_block b = mx).
Proof.
  intros HN. split; [split|].
  - intros [b Hb]. destruct (new_spec N mn mx b ltac:(lia) Hb) as (Hwf & <- & <- & <-).
    destruct Hwf as [Hsh Hmin Hhdr Hmax _ Hpos Hmul _ _ _ _]. unfold ALLOCATOR_HEADER_SIZE in *.
    rewrite !is_power_of_two_spec. pose proof (order_size_pos (min_block b) (max_order b) ltac:(lia)).
    repeat split; [by exists (min_shift b) | | lia | lia | lia | done].
    exists (min_shift b + Z.of_nat (max_order b)). split; [lia|]. rewrite Hmax. by apply order_size_pow.
  - intros (? & ? & [? ?] & ? & ?). by apply new_accepts.
  - intros b Hb. apply new_spec; [lia|done].
Qed.

(** The in-place coalescing scan over a sorted free list computes what the
    reference definition [pair_scan] computes: the blocks without a buddy, in
    order, and the lower halves of the merged pairs appended to the next
    order's list.  The scan always terminates with a result. *)
Theorem buddy_scan_reference (block_size : Z) (l next : list Z) :
  scan_loop (S (length l)) block_size l 0 0 next =
  Some (fst (pair_scan block_size l), next ++ snd (pair_scan block_size l)).
Proof. apply scan_loop_pair_scan. Qed.

(** [available] is exact: the arena less the live blocks less one header for
    every free block. *)
Theorem buddy_available_exact (b : BuddyAllocator) (live : list (Z * nat)) :
  wf b live ->
  available b = arena_size b - sizes (min_block b) live
                - ALLOCATOR_HEADER_SIZE * Z.of_nat (length (free_blocks b)).
Proof.
  intros Hwf. unfold available. rewrite available_sizes. fold (free_blocks b).
  pose proof (sizes_tiling b live Hwf) as Ht.
  assert (sizes (min_block b) (free_blocks b ++ live) =
    sizes (min_block b) (free_blocks b) + sizes (min_block b) live); [|lia].
  clear. induction (free_blocks b); simpl; lia.
Qed.

(** ** A sample arena *)

Definition sample_buddy : BuddyAllocator :=
  mkBuddy 128 16 64 4 2 [[]; []; [0; 64]] false.

Definition sample_arena : arena := mkArena 4096 128.

Lemma sample_wf : wf sample_buddy [].
Proof. by apply (new_spec 128 16 64). Qed.

Lemma sample_ok : ok sample_buddy sample_arena ∅ [].
Proof. split; [apply sample_wf | done | constructor]. Qed.

(** The sample after one allocation of 20 bytes. *)
Definition sample_taken : BuddyAllocator :=
  mkBuddy 128 16 64 4 2 [[]; [96]; [0]] false.

Definition sample_mem : mem :=
  store32 (store32 ∅ (4096 + 64) MAGIC) (4096 + 64 + 4) 1.

Lemma sample_taken_ok : ok sample_taken sample_arena sample_mem [(64, 1%nat)].
Proof.
  destruct (alloc_spec sample_buddy sample_arena ∅ [] 20 sample_ok ltac:(lia))
    as (r & b' & m' & Ha & _ & Hp).
  vm_compute in Ha. injection Ha as <- <- <-.
  by destruct Hp as (_ & _ & _ & Hok & _).
Qed.

Lemma buddy_alloc_correct_witness :
  exists r b' m', alloc sample_buddy sample_arena ∅ 20 = Some (r, b', m') /\
    same_geometry sample_buddy b' /\ alloc_post sample_buddy sample_arena ∅ [] 20 r b' m'.
Proof. apply (buddy_alloc_correct sample_buddy sample_arena ∅ [] 20); [apply sample_ok | lia]. Defined.

Lemma buddy_no_fragmentation_witness :
  exists al b' m', alloc sample_buddy sample_arena ∅ 56 = Some (Some al, b', m').
Proof. apply (buddy_no_fragmentation sample_buddy sample_arena ∅ 56); [apply sample_ok | done]. Defined.

Lemma buddy_free_at_once_witness :
  exists b' m',
    free_at sample_taken sample_arena sample_mem 72 = Some (Ok tt, b', m') /\
    ok b' sample_arena m' [] /\ same_geometry sample_taken b' /\
    mem_frame 4160 4168 sample_mem m' /\
    free_at b' sample_arena m' 72 = Some (Err NotAllocated, b', m').
Proof.
  apply (buddy_free_at_once sample_taken sample_arena sample_mem 64 1 []). apply sample_taken_ok.
Defined.

Lemma buddy_free_checks_capacity_witness :
  free sample_taken sample_arena sample_mem (mkAllocation 64 72 20 56) =
  Some (Err CorruptMetadata, sample_taken, sample_mem).
Proof.
  apply (buddy_free_checks_capacity sample_taken sample_arena sample_mem
           (mkAllocation 64 72 20 56) 1 []); [apply sample_taken_ok | done | done].
Defined.

Lemma buddy_new_correct_witness :
  (exists b, new_with_block_size 128 16 64 = Ok b) /\
  (forall b, new_with_block_size 128 16 64 = Ok b ->
     wf b [] /\ arena_size b = 128 /\ min_block b = 16 /\ max_block b = 64).
Proof.
  destruct (buddy_new_correct 128 16 64) as [H1 H2]; [unfold I64_MAX; lia|].
  split; [|exact H2]. apply H1. repeat split; try done. by exists 2.
Defined.

Lemma buddy_available_exact_witness : available sample_taken = 128 - 32 - 8 * 2.
Proof. apply (buddy_available_exact sample_taken [(64, 1%nat)]). apply sample_taken_ok. Defined.
