(* ===== verification/Fixed.v ===== *)
(** * The slab allocator ([src/src/v5/fixed.rs])

    [FixedAllocator]: three areas of equal blocks, one free list each.  The
    [[_; 3]] arrays are lists of length three read with [!!!]; every index the
    code uses is below three. *)

From S2P Require Import Prelude Header.
From Stdlib Require Import ZArith Lia Permutation.
From stdpp Require Import base numbers list gmap.

#[local] Open Scope Z_scope.

Definition DEFAULT_SMALL_SIZE : Z := 8 * 1024.

Definition DEFAULT_MEDIUM_SIZE : Z := 64 * 1024.

Definition DEFAULT_LARGE_SIZE : Z := 128 * 1024.

Definition SMALL_PERCENT : Z := 50.

Definition MEDIUM_PERCENT : Z := 30.

(** [config::SizePercentPair]. *)
Record SizePercentPair : Type := mkPair {
  sp_bytes : Z;
  sp_percent : Z;
}.

Record FixedAllocator : Type := mkFixed {
  f_arena_size : Z;
  f_sizes : list Z;
  f_usable : list Z;
  f_free : list (list Z);
  f_starts : list Z;
  f_counts : list Z;
}.

Definition with_lists (f : FixedAllocator) (fl : list (list Z)) : FixedAllocator :=
  mkFixed (f_arena_size f) (f_sizes f) (f_usable f) fl (f_starts f) (f_counts f).

(** ** Construction *)

(** The blocks of one class: [starts[class] + index * sizes[class]]. *)
Definition class_blocks (start size count : Z) : list Z :=
  (fun i => start + Z.of_nat i * size) <$> seq 0 (Z.to_nat count).

Definition initialize_free_lists (f : FixedAllocator) : FixedAllocator :=
  with_lists f
    ((fun c => class_blocks (f_starts f !!! c) (f_sizes f !!! c) (f_counts f !!! c)) <$> [0; 1; 2]%nat).

(** [None] is the subtraction [total - small_region - medium_region] underflowing. *)
Definition build (total small medium large small_percent medium_percent : Z)
    : option (result Error FixedAllocator) :=
  if (small <=? ALLOCATOR_HEADER_SIZE) || (medium <=? ALLOCATOR_HEADER_SIZE)
     || (large <=? ALLOCATOR_HEADER_SIZE)
  then Some (Err BlockTooSmallForHeader)
  else if (small >? medium) || (medium >? large) then Some (Err InvalidBlockSizeOrder)
  else
    let small_region := (wrap64 (total * small_percent) / 100 / small) * small in
    let medium_region := (wrap64 (total * medium_percent) / 100 / medium) * medium in
    rest ← checked_sub total small_region;
    remaining ← checked_sub rest medium_region;
    let large_region := (remaining / large) * large in
    if (small_region =? 0) || (medium_region =? 0) || (large_region =? 0)
    then Some (Err InvalidArenaSize)
    else
      let sizes := [small; medium; large] in
      let usable := [small - ALLOCATOR_HEADER_SIZE; medium - ALLOCATOR_HEADER_SIZE;
                     large - ALLOCATOR_HEADER_SIZE] in
      let starts := [0; small_region; small_region + medium_region] in
      let counts := [small_region / small; medium_region / medium; large_region / large] in
      Some (Ok (initialize_free_lists (mkFixed total sizes usable [[]; []; []] starts counts))).

Definition new_with_sizes (total small medium large : Z) : option (result Error FixedAllocator) :=
  build total small medium large SMALL_PERCENT MEDIUM_PERCENT.

Definition fixed_new (total : Z) : option (result Error FixedAllocator) :=
  new_with_sizes total DEFAULT_SMALL_SIZE DEFAULT_MEDIUM_SIZE DEFAULT_LARGE_SIZE.

Definition new_from_config (total : Z) (classes : list SizePercentPair)
    : option (result Error FixedAllocator) :=
  match classes with
  | [c0; c1; c2] =>
      let percent := wrap32 (sp_percent c0 + sp_percent c1 + sp_percent c2) in
      if negb (percent =? 100) then Some (Err InvalidSizeClassConfiguration)
      else build total (sp_bytes c0) (sp_bytes c1) (sp_bytes c2) (sp_percent c0) (sp_percent c1)
  | _ => Some (Err InvalidSizeClassConfiguration)
  end.

(** ** Operations *)

Definition alloc_from_class (f : FixedAllocator) (class : nat) : option (Z * FixedAllocator) :=
  match vec_pop (f_free f !!! class) with
  | Some (offset, l) => Some (offset, with_lists f (<[class := l]> (f_free f)))
  | None => None
  end.

(** [(class..3).find_map(..)], the classes left to try being listed. *)
Fixpoint find_class (f : FixedAllocator) (classes : list nat)
    : option (nat * Z * FixedAllocator) :=
  match classes with
  | [] => None
  | c :: classes =>
      match alloc_from_class f c with
      | Some (offset, f') => Some (c, offset, f')
      | None => find_class f classes
      end
  end.

Definition class_for_size (f : FixedAllocator) (size : Z) : option nat :=
  if size <=? f_usable f !!! 0%nat then Some 0%nat
  else if size <=? f_usable f !!! 1%nat then Some 1%nat
  else if size <=? f_usable f !!! 2%nat then Some 2%nat
  else None.

Definition alloc (f : FixedAllocator) (ar : arena) (m : mem) (size : Z)
    : option (option Allocation * FixedAllocator * mem) :=
  if negb (a_len ar =? f_arena_size f) || (size =? 0) then Some (None, f, m)
  else
    match class_for_size f size with
    | None => Some (None, f, m)
    | Some class =>
        match find_class f (seq class (3 - class)) with
        | None => Some (None, f, m)
        | Some (c, block_offset, f') =>
            m' ← write_header ar m block_offset size;
            Some (Some (mkAllocation block_offset (block_offset + ALLOCATOR_HEADER_SIZE) size
                          (f_usable f !!! c)), f', m')
        end
    end.

Definition max_allocation (f : FixedAllocator) : Z := f_usable f !!! 2%nat.

(** The loop over [(0..3).rev()]. *)
Fixpoint class_scan (f : FixedAllocator) (offset : Z) (classes : list nat) : option nat :=
  match classes with
  | [] => None
  | class :: classes =>
      let start := f_starts f !!! class in
      let stop := start + f_counts f !!! class * f_sizes f !!! class in
      if (offset >=? start) && (offset <? stop) then
        if is_multiple_of (offset - start) (f_sizes f !!! class) then Some class else None
      else class_scan f offset classes
  end.

Definition class_for_offset (f : FixedAllocator) (offset : Z) : option nat :=
  class_scan f offset [2; 1; 0]%nat.

Definition free_at (f : FixedAllocator) (ar : arena) (m : mem) (data_offset : Z)
    : option (result Error unit * FixedAllocator * mem) :=
  if negb (a_len ar =? f_arena_size f) then Some (Err InvalidArenaSize, f, m)
  else
    match checked_sub data_offset ALLOCATOR_HEADER_SIZE with
    | None => Some (Err InvalidOffset, f, m)
    | Some block_offset =>
        match class_for_offset f block_offset with
        | None => Some (Err InvalidOffset, f, m)
        | Some class =>
            match read_header ar m block_offset with
            | None => Some (Err InvalidOffset, f, m)
            | Some (magic, _) =>
                if negb (magic =? MAGIC) then Some (Err NotAllocated, f, m)
                else
                  m' ← clear_magic ar m block_offset;
                  Some (Ok tt,
                        with_lists f (<[class := (f_free f !!! class) ++ [block_offset]]> (f_free f)),
                        m')
            end
        end
    end.

Definition free (f : FixedAllocator) (ar : arena) (m : mem) (al : Allocation)
    : option (result Error unit * FixedAllocator * mem) :=
  free_at f ar m (data_offset al).

Definition is_valid_offset (f : FixedAllocator) (data_offset : Z) : bool :=
  match checked_sub data_offset ALLOCATOR_HEADER_SIZE with
  | None => false
  | Some block_offset => match class_for_offset f block_offset with Some _ => true | None => false end
  end.

Definition available (f : FixedAllocator) : Z :=
  foldl (fun total c => total + Z.of_nat (length (f_free f !!! c)) * f_usable f !!! c) 0 [0; 1; 2]%nat.

Definition reset (f : FixedAllocator) (ar : arena) (m : mem)
    : option (result Error unit * FixedAllocator * mem) :=
  if negb (a_len ar =? f_arena_size f) then Some (Err InvalidArenaSize, f, m)
  else Some (Ok tt, initialize_free_lists f, m).

#[global] Instance Fixed_Allocator : Allocator FixedAllocator := {|
  Header.alloc := alloc;
  Header.max_allocation := max_allocation;
  Header.free := free;
  Header.free_at := free_at;
  Header.is_valid_offset := is_valid_offset;
  Header.available := available;
  Header.reset := reset;
|}.

(** ** The invariant *)

(** The blocks of class [c] handed out. *)
Definition live_of (live : list (Z * nat)) (c : nat) : list Z :=
  fst <$> filter (fun blk => snd blk = c) live.

(** Three consecutive areas inside the arena; in each one the free and the live
    blocks together are every block of the class, once. *)
Record wf (f : FixedAllocator) (live : list (Z * nat)) : Prop := {
  wf_len : length (f_free f) = 3%nat;
  wf_usable : forall c, (c < 3)%nat -> f_usable f !!! c = f_sizes f !!! c - ALLOCATOR_HEADER_SIZE;
  wf_sizes : forall c, (c < 3)%nat -> ALLOCATOR_HEADER_SIZE < f_sizes f !!! c;
  wf_asc : f_sizes f !!! 0%nat <= f_sizes f !!! 1%nat <= f_sizes f !!! 2%nat;
  wf_counts : forall c, (c < 3)%nat -> 0 < f_counts f !!! c;
  wf_first : f_starts f !!! 0%nat = 0;
  wf_next : forall c, (c < 2)%nat ->
    f_starts f !!! S c = f_starts f !!! c + f_counts f !!! c * f_sizes f !!! c;
  wf_last : f_starts f !!! 2%nat + f_counts f !!! 2%nat * f_sizes f !!! 2%nat <= f_arena_size f;
  wf_size : f_arena_size f <= I64_MAX;
  wf_live : Forall (fun blk => (snd blk < 3)%nat) live;
  wf_tile : forall c, (c < 3)%nat ->
    (f_free f !!! c) ++ live_of live c ≡ₚ
    class_blocks (f_starts f !!! c) (f_sizes f !!! c) (f_counts f !!! c);
}.

Record ok (f : FixedAllocator) (ar : arena) (m : mem) (live : list (Z * nat)) : Prop := {
  ok_wf : wf f live;
  ok_arena : a_len ar = f_arena_size f;
  ok_hdr : Forall (fun blk => load32 m (a_base ar + fst blk) = MAGIC) live;
}.
