(* ===== verification/FixedLaws.v ===== *)
(** * Correctness of the slab allocator

    Layout of the three areas, the class of an offset, preservation of the
    partition of every area into free and live blocks, and the laws of
    [Header.AllocatorLaws]. *)

From S2P Require Import Prelude Header Fixed.
From Stdlib Require Import ZArith Lia Permutation.
From stdpp Require Import base numbers list gmap.

#[local] Open Scope Z_scope.

(** ** Areas *)

Lemma class_blocks_in (start size count off : Z) :
  In off (class_blocks start size count) <->
  exists i, 0 <= i < count /\ off = start + i * size.
Proof.
  unfold class_blocks. rewrite in_map_iff. split.
  - intros (i & <- & Hi). apply in_seq in Hi. exists (Z.of_nat i). lia.
  - intros (i & Hi & ->). exists (Z.to_nat i). rewrite Z2Nat.id by lia. split; [done|].
    apply in_seq. lia.
Qed.

Lemma class_blocks_nodup (start size count : Z) : 0 < size -> NoDup (class_blocks start size count).
Proof.
  intros Hs. unfold class_blocks. apply NoDup_fmap_2_strong; [|apply NoDup_seq].
  intros x y _ _ H. nia.
Qed.

(** Where the area of a class ends. *)
Definition area_end (f : FixedAllocator) (c : nat) : Z :=
  f_starts f !!! c + f_counts f !!! c * f_sizes f !!! c.

Lemma lt3 (c : nat) : (c < 3)%nat -> c = 0%nat \/ c = 1%nat \/ c = 2%nat.
Proof. lia. Qed.

(** Areas follow one another inside the arena. *)
Lemma area_facts (f : FixedAllocator) (live : list (Z * nat)) (c : nat) :
  wf f live -> (c < 3)%nat ->
  0 <= f_starts f !!! c /\ f_starts f !!! c < area_end f c /\ area_end f c <= f_arena_size f /\
  (forall d, (c < d < 3)%nat -> area_end f c <= f_starts f !!! d).
Proof.
  intros [_ _ Hs _ Hn H0 Hx Hl _ _ _] Hc. unfold area_end, ALLOCATOR_HEADER_SIZE in *.
  pose proof (Hx 0%nat ltac:(lia)) as E1. pose proof (Hx 1%nat ltac:(lia)) as E2.
  pose proof (Hs 0%nat ltac:(lia)) as P0. pose proof (Hs 1%nat ltac:(lia)) as P1.
  pose proof (Hs 2%nat ltac:(lia)) as P2. pose proof (Hn 0%nat ltac:(lia)) as Q0.
  pose proof (Hn 1%nat ltac:(lia)) as Q1. pose proof (Hn 2%nat ltac:(lia)) as Q2.
  assert (0 < f_counts f !!! 0%nat * f_sizes f !!! 0%nat) by nia.
  assert (0 < f_counts f !!! 1%nat * f_sizes f !!! 1%nat) by nia.
  assert (0 < f_counts f !!! 2%nat * f_sizes f !!! 2%nat) by nia.
  destruct (lt3 c Hc) as [-> | [-> | ->]]; (split; [lia|]); (split; [lia|]); (split; [lia|]);
    intros d Hd; (destruct (lt3 d ltac:(lia)) as [-> | [-> | ->]]; lia).
Qed.

(** A block of class [c] starts at a multiple of its size and stays in its area. *)
Definition is_block (f : FixedAllocator) (blk : Z * nat) : Prop :=
  (snd blk < 3)%nat /\ exists i, 0 <= i < f_counts f !!! snd blk /\
    fst blk = f_starts f !!! snd blk + i * f_sizes f !!! snd blk.

Lemma is_block_bounds (f : FixedAllocator) (live : list (Z * nat)) (blk : Z * nat) :
  wf f live -> is_block f blk ->
  f_starts f !!! snd blk <= fst blk /\
  fst blk + f_sizes f !!! snd blk <= area_end f (snd blk).
Proof.
  intros Hwf (Hc & i & Hi & ->). pose proof (wf_sizes f live Hwf _ Hc).
  unfold area_end, ALLOCATOR_HEADER_SIZE in *. nia.
Qed.

Lemma is_block_arena (f : FixedAllocator) (live : list (Z * nat)) (blk : Z * nat) :
  wf f live -> is_block f blk ->
  0 <= fst blk /\ fst blk + f_sizes f !!! snd blk <= f_arena_size f /\
  8 < f_sizes f !!! snd blk.
Proof.
  intros Hwf Hb. pose proof (is_block_bounds f live blk Hwf Hb) as [H1 H2]. destruct Hb as [Hc _].
  destruct (area_facts f live (snd blk) Hwf Hc) as (A1 & _ & A3 & _).
  pose proof (wf_sizes f live Hwf _ Hc). unfold ALLOCATOR_HEADER_SIZE in *. lia.
Qed.

Lemma live_of_in (live : list (Z * nat)) (c : nat) (off : Z) :
  In off (live_of live c) <-> In (off, c) live.
Proof.
  unfold live_of. rewrite in_map_iff. split.
  - intros ([o k] & <- & H). apply list_elem_of_In, list_elem_of_filter in H as [<- H].
    by apply list_elem_of_In.
  - intros H. exists (off, c). split; [done|]. apply list_elem_of_In, list_elem_of_filter.
    split; [done|]. by apply list_elem_of_In.
Qed.

Lemma live_is_block (f : FixedAllocator) (live : list (Z * nat)) (blk : Z * nat) :
  wf f live -> In blk live -> is_block f blk.
Proof.
  intros Hwf Hi. destruct blk as [off c]. pose proof (wf_live f live Hwf) as HF.
  rewrite List.Forall_forall in HF. pose proof (HF _ Hi) as Hc. cbn [snd] in Hc.
  split; [done|]. cbn [fst snd]. apply class_blocks_in.
  eapply Permutation_in; [by apply (wf_tile f live Hwf c Hc)|].
  apply in_app_iff. right. by apply live_of_in.
Qed.

(** ** The class of an offset *)

Lemma class_for_offset_block (f : FixedAllocator) (live : list (Z * nat)) (blk : Z * nat) :
  wf f live -> is_block f blk -> class_for_offset f (fst blk) = Some (snd blk).
Proof.
  intros Hwf Hb. pose proof (is_block_bounds f live blk Hwf Hb) as [H1 H2].
  pose proof (is_block_arena f live blk Hwf Hb) as (_ & _ & H3).
  destruct Hb as (Hc & i & Hi & E). destruct blk as [off c]. cbn [fst snd] in *.
  assert (Hhit : (off >=? f_starts f !!! c) && (off <? area_end f c) = true).
  { rewrite andb_true_iff, Z.geb_leb, Z.leb_le, Z.ltb_lt. lia. }
  assert (Hmul : is_multiple_of (off - f_starts f !!! c) (f_sizes f !!! c) = true).
  { unfold is_multiple_of. rewrite (proj2 (Z.eqb_neq _ _)) by lia. apply Z.eqb_eq.
    replace (off - f_starts f !!! c) with (i * f_sizes f !!! c) by lia. by apply Z_mod_mult. }
  assert (Hmiss : forall d, (c < d < 3)%nat ->
    (off >=? f_starts f !!! d) && (off <? area_end f d) = false).
  { intros d Hd. destruct (area_facts f live c Hwf Hc) as (_ & _ & _ & Hn).
    specialize (Hn d Hd). rewrite andb_false_iff, Z.geb_leb, Z.leb_gt. left. lia. }
  unfold class_for_offset. cbn [class_scan]. unfold area_end in *.
  destruct (lt3 c Hc) as [-> | [-> | ->]].
  - rewrite !Hmiss by lia. by rewrite Hhit, Hmul.
  - rewrite Hmiss by lia. by rewrite Hhit, Hmul.
  - by rewrite Hhit, Hmul.
Qed.

Lemma class_scan_inv (f : FixedAllocator) (off : Z) (classes : list nat) (c : nat) :
  (forall d, In d classes -> 0 < f_sizes f !!! d) ->
  class_scan f off classes = Some c ->
  In c classes /\ exists i, 0 <= i < f_counts f !!! c /\ off = f_starts f !!! c + i * f_sizes f !!! c.
Proof.
  intros Hp. induction classes as [|d classes IH]; [done|]. cbn [class_scan]. intros H.
  case_if_in H.
  - case_if_in H; [|done]. injection H as <-. bools. split; [by left|].
    specialize (Hp d (or_introl eq_refl)).
    unfold is_multiple_of in *. case_if_in E0; bools; [lia|].
    apply Z.mod_divide in E0 as [i Hi]; [|lia]. exists i. nia.
  - destruct IH as [H1 H2]; [|done|].
    + intros e He. apply Hp. by right.
    + split; [by right|done].
Qed.

Lemma class_for_offset_inv (f : FixedAllocator) (live : list (Z * nat)) (off : Z) (c : nat) :
  wf f live -> class_for_offset f off = Some c -> is_block f (off, c).
Proof.
  intros Hwf H. apply class_scan_inv in H as [Hc Hi].
  - split; [|done]. cbn [snd]. simpl in Hc. lia.
  - intros d Hd. pose proof (wf_sizes f live Hwf d). unfold ALLOCATOR_HEADER_SIZE in *.
    simpl in Hd. lia.
Qed.

(** Distinct blocks are disjoint. *)
Lemma is_block_disjoint (f : FixedAllocator) (live : list (Z * nat)) (s t : Z * nat) :
  wf f live -> is_block f s -> is_block f t -> s <> t ->
  fst s + f_sizes f !!! snd s <= fst t \/ fst t + f_sizes f !!! snd t <= fst s.
Proof.
  intros Hwf Hs Ht Hne. pose proof (is_block_bounds _ _ _ Hwf Hs) as [S1 S2].
  pose proof (is_block_bounds _ _ _ Hwf Ht) as [T1 T2].
  pose proof (is_block_arena _ _ _ Hwf Hs) as (_ & _ & S3).
  destruct s as [so sc], t as [to tc], Hs as (Hsc & i & Hi & Es), Ht as (Htc & j & Hj & Et).
  cbn [fst snd] in *. destruct (lt_eq_lt_dec sc tc) as [[Hlt | ->] | Hgt].
  - destruct (area_facts f live sc Hwf Hsc) as (_ & _ & _ & Hn). specialize (Hn tc ltac:(lia)). lia.
  - assert (i <> j) by congruence. destruct (Z_lt_le_dec i j); [left|right]; nia.
  - destruct (area_facts f live tc Hwf Htc) as (_ & _ & _ & Hn). specialize (Hn sc ltac:(lia)). lia.
Qed.

Lemma live_nodup (f : FixedAllocator) (live l1 l2 : list (Z * nat)) (s : Z * nat) :
  wf f live -> live = l1 ++ s :: l2 -> ~ In s (l1 ++ l2).
Proof.
  intros Hwf -> Hin. destruct s as [off c].
  assert (Hc : (c < 3)%nat).
  { pose proof (wf_live f _ Hwf) as HF. apply Forall_app in HF as [_ HF].
    by apply Forall_cons in HF as [HF _]. }
  pose proof (class_blocks_nodup (f_starts f !!! c) (f_sizes f !!! c) (f_counts f !!! c)) as Hnd.
  rewrite <- (wf_tile f _ Hwf c Hc) in Hnd.
  apply NoDup_app in Hnd as (_ & _ & Hnd);
    [|pose proof (wf_sizes f _ Hwf c Hc); unfold ALLOCATOR_HEADER_SIZE in *; lia].
  assert (live_of (l1 ++ (off, c) :: l2) c ≡ₚ off :: live_of (l1 ++ l2) c) as Hp.
  { unfold live_of. rewrite <- Permutation_middle.
    rewrite filter_cons_True by done. done. }
  rewrite Hp in Hnd. apply NoDup_cons in Hnd as [Hni _]. apply Hni.
  by apply list_elem_of_In, live_of_in.
Qed.

(** ** Updates *)

Lemma live_of_cons (off : Z) (c d : nat) (live : list (Z * nat)) :
  live_of ((off, c) :: live) d = if decide (c = d) then off :: live_of live d else live_of live d.
Proof.
  unfold live_of. rewrite filter_cons. cbn [snd]. by repeat destruct decide.
Qed.

#[export] Instance live_of_Permutation (c : nat) : Proper ((≡ₚ) ==> (≡ₚ)) (fun l => live_of l c).
Proof. intros l l' H. unfold live_of. by rewrite H. Qed.

Lemma wf_perm (f : FixedAllocator) (live live' : list (Z * nat)) :
  live ≡ₚ live' -> wf f live -> wf f live'.
Proof.
  intros Hp []. split; try done; [by rewrite <- Hp|]. intros c Hc.
  assert (live_of live' c ≡ₚ live_of live c) as ->; [|auto].
  by apply (live_of_Permutation c).
Qed.

Lemma lookup_total_insert_list (fl : list (list Z)) (c d : nat) (l : list Z) :
  (c < length fl)%nat -> <[c := l]> fl !!! d = if decide (c = d) then l else fl !!! d.
Proof.
  intros Hc. destruct (decide (c = d)) as [->|Hne].
  - by apply list_lookup_total_insert_eq.
  - by apply list_lookup_total_insert_ne.
Qed.

(** Moving a block between a free list and the live set keeps the partition. *)
Lemma wf_move (f : FixedAllocator) (live live' : list (Z * nat)) (c : nat) (l : list Z) :
  wf f live -> (c < 3)%nat -> Forall (fun blk => (snd blk < 3)%nat) live' ->
  l ++ live_of live' c ≡ₚ (f_free f !!! c) ++ live_of live c ->
  (forall d, d <> c -> live_of live' d = live_of live d) ->
  wf (with_lists f (<[c := l]> (f_free f))) live'.
Proof.
  intros Hwf Hc HF Hp Hd. pose proof Hwf as [Hl Hu Hs Ha Hn H0 Hx Hla Hsz HL Ht].
  split; cbn; try done; [by rewrite length_insert|]. intros d Hlt.
  rewrite lookup_total_insert_list by lia. destruct (decide (c = d)) as [->|Hne].
  - rewrite Hp. by apply Ht.
  - rewrite Hd by done. by apply Ht.
Qed.

Lemma alloc_from_class_spec (f : FixedAllocator) (live : list (Z * nat)) (c : nat) :
  wf f live -> (c < 3)%nat ->
  match alloc_from_class f c with
  | None => f_free f !!! c = []
  | Some (off, f') => wf f' ((off, c) :: live) /\ exists fl, f' = with_lists f fl
  end.
Proof.
  intros Hwf Hc. unfold alloc_from_class. destruct (vec_pop (f_free f !!! c)) as [[off l]|] eqn:E.
  - apply vec_pop_Some in E. split; [|by eexists].
    apply (wf_move f live); [done|done|constructor; [done|by apply (wf_live f live)]| |].
    + rewrite live_of_cons, decide_True, E by done. solve_Permutation.
    + intros d Hd. by rewrite live_of_cons, decide_False.
  - by apply vec_pop_None.
Qed.

Lemma find_class_spec (f : FixedAllocator) (live : list (Z * nat)) (n c : nat) :
  wf f live -> (c + n = 3)%nat ->
  match find_class f (seq c n) with
  | None => forall d, (c <= d < 3)%nat -> f_free f !!! d = []
  | Some (d, off, f') =>
      (c <= d < 3)%nat /\ wf f' ((off, d) :: live) /\ (exists fl, f' = with_lists f fl) /\
      (forall e, (c <= e < d)%nat -> f_free f !!! e = [])
  end.
Proof.
  intros Hwf. revert c. induction n as [|n IH]; intros c Hn; cbn [seq find_class].
  - intros d Hd. lia.
  - pose proof (alloc_from_class_spec f live c Hwf ltac:(lia)) as Ha.
    destruct (alloc_from_class f c) as [[off f']|].
    + destruct Ha as [H1 H2]. split; [lia|]. do 2 (split; [done|]). intros e He. lia.
    + specialize (IH (S c) ltac:(lia)). destruct (find_class f (seq (S c) n)) as [[[d off] f']|].
      * destruct IH as (H1 & H2 & H3 & H4). split; [lia|]. do 2 (split; [done|]).
        intros e He. destruct (decide (e = c)) as [->|]; [done|]. apply H4. lia.
      * intros d Hd. destruct (decide (d = c)) as [->|]; [done|]. apply IH. lia.
Qed.

(** A change inside one block's header leaves the other live headers. *)
Lemma fixed_hdr_frame (f : FixedAllocator) (ar : arena) (m m' : mem) (blk : Z * nat)
    (live : list (Z * nat)) :
  wf f (blk :: live) -> Forall (fun b => load32 m (a_base ar + fst b) = MAGIC) live ->
  mem_frame (a_base ar + fst blk) (a_base ar + fst blk + 8) m m' ->
  Forall (fun b => load32 m' (a_base ar + fst b) = MAGIC) live.
Proof.
  intros Hwf Hh Hf. rewrite List.Forall_forall in Hh |- *. intros t Ht.
  rewrite <- (Hh t Ht). apply (load32_frame _ _ _ _ _ Hf).
  assert (Hb : is_block f blk) by (apply (live_is_block f _ _ Hwf); by left).
  assert (Htb : is_block f t) by (apply (live_is_block f _ _ Hwf); by right).
  pose proof (is_block_arena f _ _ Hwf Hb). pose proof (is_block_arena f _ _ Hwf Htb).
  destruct (is_block_disjoint f _ blk t Hwf Hb Htb); [|lia..].
  intros ->. by apply (live_nodup f _ [] live t Hwf eq_refl).
Qed.

(** What an allocation of [size] bytes does, on every branch. *)
Definition fixed_alloc_post (f : FixedAllocator) (ar : arena) (m : mem) (live : list (Z * nat))
    (size : Z) (r : option Allocation) (f' : FixedAllocator) (m' : mem) : Prop :=
  match r with
  | None => m' = m /\ f' = f /\
      (size = 0 \/ size > max_allocation f \/
       forall c, (c < 3)%nat -> size <= f_usable f !!! c -> f_free f !!! c = [])
  | Some al => exists c, (c < 3)%nat /\
      al = mkAllocation (block_offset al) (block_offset al + ALLOCATOR_HEADER_SIZE) size
             (f_usable f !!! c) /\
      0 < size <= f_usable f !!! c /\
      (forall d, (d < c)%nat -> size <= f_usable f !!! d -> f_free f !!! d = []) /\
      ok f' ar m' ((block_offset al, c) :: live) /\ (exists fl, f' = with_lists f fl) /\
      mem_frame (a_base ar + block_offset al)
                (a_base ar + block_offset al + ALLOCATOR_HEADER_SIZE) m m'
  end.

Lemma class_for_size_spec (f : FixedAllocator) (live : list (Z * nat)) (size : Z) :
  wf f live ->
  match class_for_size f size with
  | None => size > max_allocation f
  | Some c => (c < 3)%nat /\
      (forall d, (c <= d < 3)%nat -> size <= f_usable f !!! d) /\
      (forall d, (d < c)%nat -> f_usable f !!! d < size)
  end.
Proof.
  intros [_ Hu _ Ha _ _ _ _ _ _ _]. unfold class_for_size, max_allocation.
  pose proof (Hu 0%nat ltac:(lia)). pose proof (Hu 1%nat ltac:(lia)). pose proof (Hu 2%nat ltac:(lia)).
  repeat case_if; bools; [..|lia]; (split; [lia|]); split; intros d Hd;
    destruct (lt3 d ltac:(lia)) as [-> | [-> | ->]]; lia.
Qed.

Lemma fixed_alloc_spec (f : FixedAllocator) (ar : arena) (m : mem) (live : list (Z * nat)) (size : Z) :
  ok f ar m live -> 0 <= size ->
  exists r f' m', alloc f ar m size = Some (r, f', m') /\ fixed_alloc_post f ar m live size r f' m'.
Proof.
  intros [Hwf Har Hh] Hs. unfold alloc. rewrite Har, Z.eqb_refl. cbn [negb orb]. case_if; bools.
  { exists None, f, m. split; [done|]. by repeat split; left. }
  pose proof (class_for_size_spec f live size Hwf) as Hc.
  destruct (class_for_size f size) as [c|].
  2:{ exists None, f, m. split; [done|]. repeat split. right. by left. }
  destruct Hc as (Hc3 & Hfit & Hsmall).
  pose proof (find_class_spec f live (3 - c) c Hwf ltac:(lia)) as Hf.
  destruct (find_class f (seq c (3 - c))) as [[[d off] f']|].
  2:{ exists None, f, m. split; [done|]. repeat split. right. right. intros e He Hle.
      destruct (le_lt_dec c e); [apply Hf; lia|]. specialize (Hsmall e ltac:(lia)). lia. }
  destruct Hf as (Hd & Hwf' & [fl Efl] & Hskip).
  assert (Hb : is_block f' (off, d)) by (apply (live_is_block f' _ _ Hwf'); by left).
  pose proof (is_block_arena f' _ _ Hwf' Hb) as (B1 & B2 & B3). cbn [fst snd] in *.
  assert (Ea : f_arena_size f' = f_arena_size f) by (by rewrite Efl).
  destruct (write_header_Some ar m off size) as [m' Hw]; [lia|]. rewrite Hw. cbn [mbind option_bind].
  destruct (write_header_spec _ _ _ _ _ Hw) as (W1 & _ & W3).
  eexists _, f', m'. split; [done|]. exists d. cbn. split; [lia|]. split; [done|].
  split; [split; [lia|apply Hfit; lia]|]. split; [|split; [|split; [by exists fl|done]]].
  - intros e He Hle. destruct (le_lt_dec c e); [apply Hskip; lia|].
    specialize (Hsmall e ltac:(lia)). lia.
  - split; [done | by rewrite Ea |]. constructor; [done|].
    by apply (fixed_hdr_frame f' ar m m' (off, d) live).
Qed.

Lemma fixed_free_at_spec (f : FixedAllocator) (ar : arena) (m : mem) (off : Z) (c : nat)
    (live : list (Z * nat)) :
  ok f ar m ((off, c) :: live) ->
  exists f' m', free_at f ar m (off + ALLOCATOR_HEADER_SIZE) = Some (Ok tt, f', m') /\
    ok f' ar m' live /\ (exists fl, f' = with_lists f fl) /\
    load32 m' (a_base ar + off) = 0 /\
    mem_frame (a_base ar + off) (a_base ar + off + 8) m m'.
Proof.
  intros [Hwf Har Hh]. assert (Hb : is_block f (off, c)) by (apply (live_is_block f _ _ Hwf); by left).
  pose proof (is_block_arena f _ _ Hwf Hb) as (B1 & B2 & B3).
  pose proof (class_for_offset_block f _ _ Hwf Hb) as Hco. destruct Hb as (Hc & _).
  cbn [fst snd] in *. pose proof (wf_size f _ Hwf).
  unfold free_at, checked_sub, ALLOCATOR_HEADER_SIZE. rewrite Har, Z.eqb_refl. cbn [negb].
  rewrite (proj2 (Z.leb_le _ _)) by lia. replace (off + 8 - 8) with off by lia.
  rewrite Hco, read_header_Some by (unfold W64, I64_MAX in *; lia).
  pose proof Hh as Hh'. apply Forall_cons in Hh as [Hm Hh]. cbn [fst] in Hm.
  rewrite Hm, Z.eqb_refl. cbn [negb].
  destruct (clear_magic_spec ar m off) as (m' & -> & Hz & Hf); [lia|]. cbn [mbind option_bind].
  eexists _, m'. split; [done|]. split; [|split; [by eexists|done]]. split; [|done|].
  - pose proof (wf_live f _ Hwf) as HL. apply Forall_cons in HL as [_ HL].
    apply (wf_move f ((off, c) :: live)); [done|done|done| |].
    + rewrite live_of_cons, decide_True by done. solve_Permutation.
    + intros d Hd. by rewrite live_of_cons, decide_False.
  - by apply (fixed_hdr_frame f ar m m' (off, c) live).
Qed.

Lemma fixed_free_at_dead (f : FixedAllocator) (ar : arena) (m : mem) (off : Z) (live : list (Z * nat)) :
  ok f ar m live -> is_valid_offset f (off + ALLOCATOR_HEADER_SIZE) = true ->
  load32 m (a_base ar + off) <> MAGIC ->
  free_at f ar m (off + ALLOCATOR_HEADER_SIZE) = Some (Err NotAllocated, f, m).
Proof.
  intros [Hwf Har _] Hv Hm. unfold is_valid_offset, free_at in *. rewrite Har, Z.eqb_refl. cbn [negb].
  unfold checked_sub in *. case_if; [|done]. unfold ALLOCATOR_HEADER_SIZE in *.
  replace (off + 8 - 8) with off in * by lia.
  destruct (class_for_offset f off) as [c|] eqn:Ec; [|done].
  pose proof (class_for_offset_inv f live off c Hwf Ec) as Hb.
  pose proof (is_block_arena f _ _ Hwf Hb) as (B1 & B2 & B3). cbn [fst snd] in *.
  pose proof (wf_size f _ Hwf).
  rewrite read_header_Some by (unfold W64, I64_MAX in *; lia).
  by rewrite (proj2 (Z.eqb_neq _ _)).
Qed.

(** ** Construction and reset *)

Lemma initialize_wf (f : FixedAllocator) (live : list (Z * nat)) :
  wf f live -> wf (initialize_free_lists f) [].
Proof.
  intros []. split; cbn; try done. intros c Hc.
  destruct (lt3 c Hc) as [-> | [-> | ->]]; cbn; by rewrite app_nil_r.
Qed.

(** The shares of the arena the two smaller classes get leave room for each
    other, whatever the rounding. *)
Lemma region_share (total percent size : Z) :
  0 <= total -> total * 100 < W64 -> 0 <= percent <= 100 -> 0 < size ->
  0 <= wrap64 (total * percent) / 100 / size * size /\
  100 * (wrap64 (total * percent) / 100 / size * size) <= total * percent.
Proof.
  intros Ht Hw Hp Hs. rewrite wrap64_small by nia.
  pose proof (Z.mul_div_le (total * percent) 100 ltac:(lia)).
  assert (0 <= total * percent / 100) by (apply Z.div_pos; nia).
  pose proof (Z.mul_div_le (total * percent / 100) size Hs).
  assert (0 <= total * percent / 100 / size) by (apply Z.div_pos; lia). nia.
Qed.

(** The layout [build] computes, with the reason for every refusal. *)
Lemma build_spec (total small medium large sp mp : Z) :
  0 <= total <= I64_MAX -> total * 100 < W64 -> 0 <= sp -> 0 <= mp -> sp + mp <= 100 ->
  exists r, build total small medium large sp mp = Some r /\
    match r with
    | Ok f => wf f [] /\ f_arena_size f = total /\ f_sizes f = [small; medium; large] /\
        ALLOCATOR_HEADER_SIZE < small /\ small <= medium <= large
    | Err BlockTooSmallForHeader =>
        small <= ALLOCATOR_HEADER_SIZE \/ medium <= ALLOCATOR_HEADER_SIZE \/ large <= ALLOCATOR_HEADER_SIZE
    | Err InvalidBlockSizeOrder => medium < small \/ large < medium
    | Err e => e = InvalidArenaSize /\
        (total * sp / 100 < small \/ total * mp / 100 < medium \/
         total - total * sp / 100 / small * small - total * mp / 100 / medium * medium < large)
    end.
Proof.
  intros Ht Hw Hsp Hmp Hsum. unfold build, ALLOCATOR_HEADER_SIZE.
  case_if; [eexists; split; [done|]; bcases; lia|]. case_if; [eexists; split; [done|]; bcases; lia|].
  bools. pose proof (region_share total sp small ltac:(lia) Hw ltac:(lia) ltac:(lia)) as [S1 S2].
  pose proof (region_share total mp medium ltac:(lia) Hw ltac:(lia) ltac:(lia)) as [M1 M2].
  rewrite !wrap64_small in * by nia.
  set (sr := total * sp / 100 / small * small) in *.
  set (mr := total * mp / 100 / medium * medium) in *.
  assert (sr + mr <= total) by nia.
  unfold checked_sub. rewrite (proj2 (Z.leb_le sr total)) by lia. cbn [mbind option_bind].
  rewrite (proj2 (Z.leb_le mr (total - sr))) by lia. cbn [mbind option_bind].
  set (rem := total - sr - mr). case_if.
  - eexists. split; [done|]. split; [done|].
    assert (Hzero : forall a b, 0 < b -> 0 <= a -> a / b * b = 0 -> a < b).
    { intros a b Hb Ha Hz. pose proof (Z.div_mod a b ltac:(lia)).
      pose proof (Z.mod_pos_bound a b Hb). lia. }
    assert (0 <= total * sp / 100) by (apply Z.div_pos; nia).
    assert (0 <= total * mp / 100) by (apply Z.div_pos; nia).
    bcases; [left | right; left | right; right]; apply Hzero; lia.
  - bools. assert (0 < sr) by lia. assert (0 < mr) by lia.
    pose proof (Z.mul_div_le rem large ltac:(lia)).
    assert (0 <= rem / large) by (apply Z.div_pos; lia).
    assert (Hq : forall q s, 0 < s -> q * s / s = q) by (intros; apply Z.div_mul; lia).
    assert (rem / large <> 0) by (intros Ez; rewrite Ez in *; lia).
    eexists. split; [done|]. split; [|cbn; do 2 (split; [done|]); lia].
    assert (Hq1 : sr / small * small = sr) by (unfold sr; rewrite Hq by lia; done).
    assert (Hq2 : mr / medium * medium = mr) by (unfold mr; rewrite Hq by lia; done).
    assert (0 < sr / small) by nia. assert (0 < mr / medium) by nia.
    split; cbn; try done; try lia.
    + intros c Hc. by destruct (lt3 c Hc) as [-> | [-> | ->]].
    + intros c Hc. destruct (lt3 c Hc) as [-> | [-> | ->]]; cbn; unfold ALLOCATOR_HEADER_SIZE; lia.
    + intros c Hc. destruct (lt3 c Hc) as [-> | [-> | ->]]; cbn; [lia..|].
      rewrite Hq by lia. lia.
    + intros c Hc. assert (c = 0%nat \/ c = 1%nat) as [-> | ->] by lia; cbn; lia.
    + rewrite Hq by lia. lia.
    + intros c Hc. destruct (lt3 c Hc) as [-> | [-> | ->]]; cbn; by rewrite app_nil_r.
Qed.

(** ** The laws *)

Definition fixed_span (f : FixedAllocator) (blk : Z * nat) : span :=
  mkSpan (fst blk) (f_sizes f !!! snd blk).

Definition fixed_ok (f : FixedAllocator) (ar : arena) (m : mem) (spans : list span) : Prop :=
  exists live, ok f ar m live /\ spans = fixed_span f <$> live.

Lemma fixed_bounds (f : FixedAllocator) (ar : arena) (m : mem) (spans : list span) (s : span) :
  fixed_ok f ar m spans -> In s spans ->
  0 <= sp_off s /\ ALLOCATOR_HEADER_SIZE < sp_size s /\ sp_off s + sp_size s <= a_len ar.
Proof.
  intros (live & [Hwf Har _] & ->) Hs. apply in_map_iff in Hs as (blk & <- & Hi).
  rewrite Har. pose proof (is_block_arena f live blk Hwf (live_is_block f live blk Hwf Hi)).
  unfold ALLOCATOR_HEADER_SIZE. cbn. lia.
Qed.

Lemma fixed_disjoint (f : FixedAllocator) (ar : arena) (m : mem) (l1 : list span)
    (s : span) (l2 : list span) (t : span) (l3 : list span) :
  fixed_ok f ar m (l1 ++ s :: l2 ++ t :: l3) -> span_disjoint s t.
Proof.
  intros (live & [Hwf Har _] & E). symmetry in E.
  apply fmap_app_inv in E as (k1 & k' & -> & E' & ->).
  destruct k' as [|s' k']; [done|]. rewrite fmap_cons in E'. injection E' as -> E'.
  symmetry in E'. apply fmap_app_inv in E' as (k2 & k3 & -> & E3 & ->).
  destruct k3 as [|t' k3]; [done|]. rewrite fmap_cons in E3. injection E3 as -> ->.
  apply (is_block_disjoint f _ s' t' Hwf).
  - apply (live_is_block f _ _ Hwf), in_app_iff. right. by left.
  - apply (live_is_block f _ _ Hwf), in_app_iff. right. right. apply in_app_iff. right. by left.
  - intros ->. apply (live_nodup f _ k1 (k2 ++ t' :: k3) t' Hwf eq_refl).
    rewrite !in_app_iff. right. right. by left.
Qed.

Lemma fixed_valid (f : FixedAllocator) (ar : arena) (m : mem) (spans : list span) (s : span) :
  fixed_ok f ar m spans -> In s spans ->
  is_valid_offset f (sp_off s + ALLOCATOR_HEADER_SIZE) = true.
Proof.
  intros (live & [Hwf Har _] & ->) Hs. apply in_map_iff in Hs as (blk & <- & Hi).
  pose proof (live_is_block f live blk Hwf Hi) as Hb.
  pose proof (is_block_arena f live blk Hwf Hb).
  unfold is_valid_offset, checked_sub, ALLOCATOR_HEADER_SIZE.
  change (sp_off (fixed_span f blk)) with (fst blk).
  rewrite (proj2 (Z.leb_le _ _)) by lia. replace (fst blk + 8 - 8) with (fst blk) by lia.
  by rewrite (class_for_offset_block f live blk Hwf Hb).
Qed.

Lemma fixed_valid_bounds (f : FixedAllocator) (ar : arena) (m : mem) (spans : list span) (off : Z) :
  fixed_ok f ar m spans -> is_valid_offset f off = true ->
  ALLOCATOR_HEADER_SIZE <= off <= a_len ar.
Proof.
  intros (live & [Hwf Har _] & ->) Hv. unfold is_valid_offset, checked_sub in Hv.
  case_if_in Hv; [|done]. destruct (class_for_offset f _) as [c|] eqn:Ec; [|done]. bools.
  pose proof (is_block_arena f _ _ Hwf (class_for_offset_inv f live _ c Hwf Ec)) as (B1 & B2 & B3).
  cbn [fst snd] in *. unfold ALLOCATOR_HEADER_SIZE in *. lia.
Qed.

Lemma fixed_frame (f : FixedAllocator) (ar : arena) (m m' : mem) (spans : list span) :
  fixed_ok f ar m spans ->
  (forall s x, In s spans -> sp_off s <= x < sp_off s + ALLOCATOR_HEADER_SIZE ->
     rd m' (a_base ar + x) = rd m (a_base ar + x)) ->
  fixed_ok f ar m' spans.
Proof.
  intros (live & [Hwf Har Hh] & ->) Hf. exists live. split; [|done]. split; [done|done|].
  rewrite List.Forall_forall in Hh |- *. intros blk Hi. rewrite <- (Hh blk Hi).
  apply load_ext. intros x Hx. replace x with (a_base ar + (x - a_base ar)) by lia.
  apply (Hf (fixed_span f blk)); [by apply in_map|].
  unfold ALLOCATOR_HEADER_SIZE. cbn. lia.
Qed.

Lemma fixed_alloc (f : FixedAllocator) (ar : arena) (m : mem) (spans : list span) (size : Z) :
  fixed_ok f ar m spans -> 0 <= size ->
  exists r f' m', alloc f ar m size = Some (r, f', m') /\
    same_shape f f' /\
    match r with
    | None => m' = m /\ fixed_ok f' ar m spans
    | Some al => exists sz,
        fixed_ok f' ar m' (mkSpan (block_offset al) sz :: spans) /\
        data_offset al = block_offset al + ALLOCATOR_HEADER_SIZE /\
        alloc_len al = size /\ 0 < size <= alloc_cap al /\
        alloc_cap al = sz - ALLOCATOR_HEADER_SIZE /\
        mem_frame (a_base ar + block_offset al)
                  (a_base ar + block_offset al + ALLOCATOR_HEADER_SIZE) m m'
    end.
Proof.
  intros (live & Hok & ->) Hs.
  destruct (fixed_alloc_spec f ar m live size Hok Hs) as (r & f' & m' & Ha & Hp).
  exists r, f', m'. split; [done|]. unfold fixed_alloc_post in Hp. destruct r as [al|].
  - destruct Hp as (c & Hc & Eal & Hsz & _ & Hok' & [fl ->] & Hf). split; [done|].
    exists (f_sizes f !!! c). rewrite Eal. cbn. rewrite Eal in Hok', Hf. cbn in Hok', Hf.
    pose proof (wf_usable f live (ok_wf _ _ _ _ Hok) c Hc).
    split; [|repeat (split; [done|]); done]. by eexists.
  - destruct Hp as (-> & -> & _). split; [done|]. split; [done|]. by exists live.
Qed.

Lemma fixed_free_at (f : FixedAllocator) (ar : arena) (m : mem) (l1 : list span)
    (s : span) (l2 : list span) :
  fixed_ok f ar m (l1 ++ s :: l2) ->
  exists f' m', free_at f ar m (sp_off s + ALLOCATOR_HEADER_SIZE) = Some (Ok tt, f', m') /\
    same_shape f f' /\ fixed_ok f' ar m' (l1 ++ l2) /\
    mem_frame (a_base ar + sp_off s) (a_base ar + sp_off s + ALLOCATOR_HEADER_SIZE) m m'.
Proof.
  intros (live & [Hwf Har Hh] & E). symmetry in E. apply fmap_app_inv in E as (k1 & k' & -> & E' & ->).
  destruct k' as [|[off c] k']; [done|]. rewrite fmap_cons in E'. injection E' as -> ->.
  assert (Hok : ok f ar m ((off, c) :: k1 ++ k')).
  { split; [|done|]; [apply (wf_perm f _ _ (symmetry (Permutation_middle k1 k' (off, c))) Hwf)|].
    by rewrite Permutation_middle. }
  destruct (fixed_free_at_spec f ar m off c (k1 ++ k') Hok) as (f' & m' & Hf & Hok' & [fl ->] & _ & Hfr).
  eexists _, m'. do 2 (split; [done|]). split; [|done].
  exists (k1 ++ k'). by rewrite fmap_app.
Qed.

Lemma fixed_reset (f : FixedAllocator) (ar : arena) (m : mem) (spans : list span) :
  fixed_ok f ar m spans ->
  exists f', reset f ar m = Some (Ok tt, f', m) /\
    same_shape f f' /\ fixed_ok f' ar m [].
Proof.
  intros (live & [Hwf Har _] & ->). unfold reset. rewrite Har, Z.eqb_refl.
  eexists. do 2 (split; [done|]). exists []. split; [|done].
  split; [by apply (initialize_wf f live) | done | constructor].
Qed.

#[global] Instance Fixed_Laws : AllocatorLaws FixedAllocator := {|
  alloc_ok := fixed_ok;
  law_bounds := fixed_bounds;
  law_disjoint := fixed_disjoint;
  law_valid := fixed_valid;
  law_valid_bounds := fixed_valid_bounds;
  law_frame := fixed_frame;
  law_alloc := fixed_alloc;
  law_free_at := fixed_free_at;
  law_reset := fixed_reset;
|}.

(** ** Theorems *)

(** C40. A slab allocation in a consistent allocator never panics; when it
    succeeds the block comes from the smallest class that both fits and has a
    free block, the partition of every area into free and live blocks is kept
    and only the block's header is written; when it fails for a request within
    [max_allocation], every class the request fits is exhausted. *)
Theorem fixed_alloc_correct (f : FixedAllocator) (ar : arena) (m : mem) (live : list (Z * nat))
    (size : Z) :
  ok f ar m live -> 0 <= size ->
  exists r f' m', alloc f ar m size = Some (r, f', m') /\ fixed_alloc_post f ar m live size r f' m'.
Proof. apply fixed_alloc_spec. Qed.

(** Releasing a live slab block succeeds and returns it to the list of its
    own class; a second release is refused as [NotAllocated] with nothing
    changed, and an offset that is not the data of any block is refused as
    [InvalidOffset]. *)
Theorem fixed_free_at_once (f : FixedAllocator) (ar : arena) (m : mem) (off : Z) (c : nat)
    (live : list (Z * nat)) :
  ok f ar m ((off, c) :: live) ->
  (exists f' m',
    free_at f ar m (off + ALLOCATOR_HEADER_SIZE) = Some (Ok tt, f', m') /\
    ok f' ar m' live /\
    free_at f' ar m' (off + ALLOCATOR_HEADER_SIZE) = Some (Err NotAllocated, f', m')) /\
  (forall bad, is_valid_offset f bad = false -> free_at f ar m bad = Some (Err InvalidOffset, f, m)).
Proof.
  intros Hok. pose proof Hok as [Hwf Har _]. split.
  - destruct (fixed_free_at_spec f ar m off c live Hok) as (f' & m' & Hf & Hok' & [fl ->] & Hz & _).
    eexists _, m'. do 2 (split; [done|]). apply (fixed_free_at_dead _ ar m' off live Hok').
    + apply (fixed_valid f ar m (fixed_span f <$> (off, c) :: live) (fixed_span f (off, c)));
        [by eexists | by left].
    + by rewrite Hz.
  - intros bad Hb. unfold free_at, is_valid_offset in *. rewrite Har, Z.eqb_refl. cbn [negb].
    destruct (checked_sub bad ALLOCATOR_HEADER_SIZE); [|done]. by destruct (class_for_offset f z).
Qed.

(** Building the slab layout over an arena of at most [I64_MAX] bytes never
    panics for shares that sum to at most 100: it gives three consecutive areas
    of whole blocks inside the arena with every block free, or the documented
    error for the reason the error names. *)
Theorem fixed_build_correct (total small medium large sp mp : Z) :
  0 <= total <= I64_MAX -> total * 100 < W64 -> 0 <= sp -> 0 <= mp -> sp + mp <= 100 ->
  exists r, build total small medium large sp mp = Some r /\
    match r with
    | Ok f => wf f [] /\ f_arena_size f = total /\ f_sizes f = [small; medium; large] /\
        ALLOCATOR_HEADER_SIZE < small /\ small <= medium <= large
    | Err BlockTooSmallForHeader =>
        small <= ALLOCATOR_HEADER_SIZE \/ medium <= ALLOCATOR_HEADER_SIZE \/ large <= ALLOCATOR_HEADER_SIZE
    | Err InvalidBlockSizeOrder => medium < small \/ large < medium
    | Err e => e = InvalidArenaSize /\
        (total * sp / 100 < small \/ total * mp / 100 < medium \/
         total - total * sp / 100 / small * small - total * mp / 100 / medium * medium < large)
    end.
Proof. apply build_spec. Qed.

(** ** A sample arena: four blocks of 16, one of 32, one of 40 *)

Definition sample_fixed : FixedAllocator :=
  mkFixed 140 [16; 32; 40] [8; 24; 32] [[0; 16; 32; 48]; [64]; [96]] [0; 64; 96] [4; 1; 1].

Definition sample_fixed_arena : arena := mkArena 1000 140.

Lemma sample_fixed_ok : ok sample_fixed sample_fixed_arena ∅ [].
Proof.
  destruct (build_spec 140 16 32 40 50 30) as (r & Hr & Hp); [unfold I64_MAX, W64; lia..|].
  vm_compute in Hr. injection Hr as <-. destruct Hp as [Hwf _].
  split; [done | done | constructor].
Qed.

(** After one allocation of ten bytes. *)
Definition sample_fixed_taken : FixedAllocator :=
  mkFixed 140 [16; 32; 40] [8; 24; 32] [[0; 16; 32; 48]; []; [96]] [0; 64; 96] [4; 1; 1].

Definition sample_fixed_mem : mem := store32 (store32 ∅ 1064 MAGIC) 1068 10.

Lemma sample_fixed_taken_ok :
  ok sample_fixed_taken sample_fixed_arena sample_fixed_mem [(64, 1%nat)].
Proof.
  destruct (fixed_alloc_spec sample_fixed sample_fixed_arena ∅ [] 10 sample_fixed_ok ltac:(lia))
    as (r & f' & m' & Ha & Hp).
  vm_compute in Ha. injection Ha as <- <- <-. destruct Hp as (c & Hc & _ & _ & _ & Hok & _).
  cbn [block_offset] in Hok. pose proof (ok_wf _ _ _ _ Hok) as Hwf.
  assert (c = 1%nat) as ->; [|done].
  pose proof (live_is_block _ _ (64, c) Hwf (or_introl eq_refl)) as Hb.
  apply (class_for_offset_block _ _ _ Hwf) in Hb. by vm_compute in Hb; injection Hb.
Qed.

Lemma fixed_alloc_correct_witness :
  exists r f' m', alloc sample_fixed sample_fixed_arena ∅ 10 = Some (r, f', m') /\
    fixed_alloc_post sample_fixed sample_fixed_arena ∅ [] 10 r f' m'.
Proof.
  apply (fixed_alloc_correct sample_fixed sample_fixed_arena ∅ [] 10); [apply sample_fixed_ok | lia].
Defined.

Lemma fixed_free_at_once_witness :
  exists f' m',
    free_at sample_fixed_taken sample_fixed_arena sample_fixed_mem 72 = Some (Ok tt, f', m') /\
    ok f' sample_fixed_arena m' [] /\
    free_at f' sample_fixed_arena m' 72 = Some (Err NotAllocated, f', m').
Proof.
  apply (fixed_free_at_once sample_fixed_taken sample_fixed_arena sample_fixed_mem 64 1 []).
  apply sample_fixed_taken_ok.
Defined.

Lemma fixed_build_correct_witness :
  exists r, build 140 16 32 40 50 30 = Some r /\ is_ok r = true.
Proof.
  destruct (fixed_build_correct 140 16 32 40 50 30) as (r & Hr & _); [unfold I64_MAX, W64; lia..|].
  exists r. split; [exact Hr|]. vm_compute in Hr. injection Hr as <-. reflexivity.
Defined.
