(* ===== verification/Region.v ===== *)
(** * Regions ([src/src/v5/region.rs])

    [RegionAllocator], the sum of the two allocators behind the trait;
    [LocalSharedRegion], proved correct against the laws of the trait and not
    against one allocator; [LocalDedicatedRegion].  The wall clock and the
    environment variable are arguments; the region's mutex makes each operation
    atomic. *)

From S2P Require Import Prelude Header BufHeader.
From S2P Require Buddy BuddyFacts BuddySpec BuddyLaws Fixed FixedLaws.
From Stdlib Require Import ZArith Lia Permutation String.
From stdpp Require Import base numbers list gmap strings.

#[local] Open Scope Z_scope.

Definition MIN_BLOCK_SIZE : Z := Z.shiftl 16 10.

Definition MAX_BLOCK_SIZE : Z := Z.shiftl 256 10.

(** ** The allocator a region runs *)

Inductive RegionAllocator : Type :=
| RBuddy (b : Buddy.BuddyAllocator)
| RFixed (f : Fixed.FixedAllocator).

(** The result of the chosen allocator, put back into the enum. *)
Definition wrap_alloc {R A} (k : A -> RegionAllocator) (r : option (R * A * mem))
    : option (R * RegionAllocator * mem) :=
  '(x, a, m) ← r; Some (x, k a, m).

#[export] Instance Region_Allocator : Allocator RegionAllocator := {|
  alloc a ar m size :=
    match a with
    | RBuddy b => wrap_alloc RBuddy (alloc b ar m size)
    | RFixed f => wrap_alloc RFixed (alloc f ar m size)
    end;
  max_allocation a :=
    match a with RBuddy b => max_allocation b | RFixed f => max_allocation f end;
  free a ar m al :=
    match a with
    | RBuddy b => wrap_alloc RBuddy (free b ar m al)
    | RFixed f => wrap_alloc RFixed (free f ar m al)
    end;
  free_at a ar m off :=
    match a with
    | RBuddy b => wrap_alloc RBuddy (free_at b ar m off)
    | RFixed f => wrap_alloc RFixed (free_at f ar m off)
    end;
  is_valid_offset a off :=
    match a with RBuddy b => is_valid_offset b off | RFixed f => is_valid_offset f off end;
  available a :=
    match a with RBuddy b => available b | RFixed f => available f end;
  reset a ar m :=
    match a with
    | RBuddy b => wrap_alloc RBuddy (reset b ar m)
    | RFixed f => wrap_alloc RFixed (reset f ar m)
    end;
|}.

#[export] Instance Region_Laws : AllocatorLaws RegionAllocator.
Proof.
  refine {| alloc_ok := fun a ar m live =>
              match a with RBuddy b => alloc_ok b ar m live | RFixed f => alloc_ok f ar m live end |}.
  - intros [a|a]; exact (law_bounds a).
  - intros [a|a]; exact (law_disjoint a).
  - intros [a|a]; exact (law_valid a).
  - intros [a|a]; exact (law_valid_bounds a).
  - intros [a|a]; exact (law_frame a).
  - intros [a|a] ar m live size Hok Hs; destruct (law_alloc a ar m live size Hok Hs)
      as (r & a' & m' & Ha & Hrest); exists r; eexists; exists m'; cbn [alloc Region_Allocator];
      rewrite Ha; (split; [reflexivity|done]).
  - intros [a|a] ar m l1 s l2 Hok; destruct (law_free_at a ar m l1 s l2 Hok)
      as (a' & m' & Ha & Hrest); eexists; exists m'; cbn [free_at Region_Allocator];
      rewrite Ha; (split; [reflexivity|done]).
  - intros [a|a] ar m live Hok; destruct (law_reset a ar m live Hok)
      as (a' & Ha & Hrest); eexists; cbn [reset Region_Allocator];
      rewrite Ha; (split; [reflexivity|done]).
Defined.

(** ** Shared regions *)

Record LocalSharedRegion (A : Type) : Type := mkShared {
  r_offset : Z;
  r_size : Z;
  r_data : Z;
  r_alloc : A;
  r_allocs : Z;
  r_activated_at : Z;
  r_stale : bool;
}.

Arguments mkShared {A}.

Arguments r_offset {A}.

Arguments r_size {A}.

Arguments r_data {A}.

Arguments r_alloc {A}.

Arguments r_allocs {A}.

Arguments r_activated_at {A}.

Arguments r_stale {A}.

(** [LocalSharedRegion::new]; [env] is the value of [SHMIPC_MEM_ALLOCATOR]. *)
Definition shared_new (env : option string) (data size offset min_block max_block : Z)
    : option (result Error (LocalSharedRegion RegionAllocator)) :=
  let finish a := mkShared offset size data a 0 0 false in
  if decide (env = Some "fixed"%string) then
    let mid := max_block / 4 in
    let mid := if mid <=? min_block then (min_block + max_block) / 2 else mid in
    r ← Fixed.new_from_config size
          [Fixed.mkPair (wrap32 min_block) 50; Fixed.mkPair (wrap32 mid) 30;
           Fixed.mkPair (wrap32 max_block) 20];
    match r with
    | Ok f => Some (Ok (finish (RFixed f)))
    | Err e => Some (Err e)
    end
  else
    match Buddy.new_with_block_size size min_block max_block with
    | Ok b => Some (Ok (finish (RBuddy b)))
    | Err e => Some (Err e)
    end.

Section shared.
Context {A : Type} `{Allocator A}.

Implicit Types (r : LocalSharedRegion A) (m : mem).

(** [slice::from_raw_parts_mut(inner.data, inner.size)]. *)
Definition region_arena r : arena := mkArena (r_data r) (r_size r).

Definition with_state r (a : A) (allocs activated : Z) (stale : bool) : LocalSharedRegion A :=
  mkShared (r_offset r) (r_size r) (r_data r) a allocs activated stale.

Definition max_payload r : Z :=
  saturating_sub (max_allocation (r_alloc r)) DYNSHM_BUFFER_HEADER_SIZE.

(** The activation step at the head of [alloc]; [inr] is the early return. *)
Definition activate r m (now : Z) : option (result unit (LocalSharedRegion A * mem)) :=
  if r_activated_at r =? 0 then
    if r_stale r then
      '(res, a, m') ← reset (r_alloc r) (region_arena r) m;
      match res with
      | Ok _ => Some (Ok (with_state r a 0 now false, m'))
      | Err _ => Some (Err tt)
      end
    else Some (Ok (with_state r (r_alloc r) 0 now (r_stale r), m))
  else Some (Ok (r, m)).

(** [alloc]: the address of the new buffer's header, when there is one. *)
Definition shared_alloc r m (now size : Z) : option (option Z * LocalSharedRegion A * mem) :=
  act ← activate r m now;
  match act with
  | Err _ => Some (None, r, m)
  | Ok (r, m) =>
      '(res, a, m) ← alloc (r_alloc r) (region_arena r) m (DYNSHM_BUFFER_HEADER_SIZE + size);
      match res with
      | None => Some (None, with_state r a (r_allocs r) (r_activated_at r) (r_stale r), m)
      | Some block =>
          let ptr := r_data r + data_offset block in
          let m := set_offset m ptr (r_offset r + data_offset block) in
          let m := set_len m ptr (wrap32 size) in
          let m := set_cap m ptr (wrap32 (alloc_cap block - DYNSHM_BUFFER_HEADER_SIZE)) in
          let m := set_next m ptr 0 in
          Some (Some ptr, with_state r a (r_allocs r + 1) (r_activated_at r) (r_stale r), m)
      end
  end.

Definition shared_free_at r m (global_offset : Z)
    : option (result Error unit * LocalSharedRegion A * mem) :=
  match usize_try_from (global_offset - r_offset r) with
  | None => Some (Err InvalidOffset, r, m)
  | Some local_offset =>
      if negb (is_valid_offset (r_alloc r) local_offset) then Some (Err InvalidOffset, r, m)
      else
        let buf := r_data r + local_offset in
        if get_offset m buf =? 0 then Some (Err NotAllocated, r, m)
        else
          let m := set_offset m buf 0 in
          '(res, a, m) ← free_at (r_alloc r) (region_arena r) m local_offset;
          match res with
          | Err e => Some (Err e, with_state r a (r_allocs r) (r_activated_at r) (r_stale r), m)
          | Ok _ => Some (Ok tt, with_state r a (saturating_sub (r_allocs r) 1)
                                   (r_activated_at r) (r_stale r), m)
          end
  end.

Definition shared_available r : Z := available (r_alloc r).

Definition is_full r : bool := shared_available r <? DYNSHM_BUFFER_HEADER_SIZE + MIN_BLOCK_SIZE.

Definition alloc_count r : Z := r_allocs r.

Definition is_empty r : bool := alloc_count r =? 0.

(** [punch] is the manager's: it hands the pages of a range back. *)
Definition punch_if_idle r m (now max_age : Z) (punch : Z -> Z -> mem -> mem)
    : bool * LocalSharedRegion A * mem :=
  if negb (r_allocs r =? 0) || (r_activated_at r =? 0) || (now - r_activated_at r <? max_age)
  then (false, r, m)
  else (true, with_state r (r_alloc r) (r_allocs r) 0 true, punch (r_offset r) (r_size r) m).

Definition set_activated_at r (timestamp : Z) : LocalSharedRegion A :=
  with_state r (r_alloc r) (r_allocs r) timestamp (r_stale r || (timestamp =? 0)).
End shared.

(** ** Dedicated regions *)

Record LocalDedicatedRegion : Type := mkDedicated {
  d_data : Z;
  d_offset : Z;
  d_size : Z;
  d_updated : Z;
}.

Definition dedicated_new (m : mem) (data size offset : Z) : LocalDedicatedRegion * mem :=
  (mkDedicated data offset size 0, put_hdr m data default_header).

Definition is_freed (d : LocalDedicatedRegion) (m : mem) : bool := get_offset m (d_data d) =? 0.

Definition dedicated_alloc (d : LocalDedicatedRegion) (m : mem) (now size : Z)
    : option Z * LocalDedicatedRegion * mem :=
  if negb (is_freed d m) || (size + DYNSHM_BUFFER_HEADER_SIZE >? d_size d) then (None, d, m)
  else
    let buf := d_data d in
    let m := set_offset m buf (d_offset d) in
    let m := set_len m buf (wrap32 size) in
    let m := set_cap m buf (wrap32 (d_size d - DYNSHM_BUFFER_HEADER_SIZE)) in
    let m := set_next m buf 0 in
    (Some buf, mkDedicated (d_data d) (d_offset d) (d_size d) now, m).

Definition mark_freed (d : LocalDedicatedRegion) (m : mem) (now : Z)
    : result Error unit * LocalDedicatedRegion * mem :=
  let buf := d_data d in
  if get_offset m buf =? 0 then (Err NotAllocated, d, m)
  else (Ok tt, mkDedicated (d_data d) (d_offset d) (d_size d) now, set_offset m buf 0).

Definition set_updated (d : LocalDedicatedRegion) (timestamp : Z) : LocalDedicatedRegion :=
  mkDedicated (d_data d) (d_offset d) (d_size d) timestamp.
