(* ===== verification/RegionFacts.v ===== *)
(** * Correctness of regions

    A shared region over any allocator that satisfies the laws of the trait, and
    a dedicated region: what is handed out is disjoint, inside the region,
    stamped with its own global offset, and released exactly once. *)

From Stdlib Require Import ZArith Lia Permutation String.
From stdpp Require Import base numbers list gmap strings.
From S2P Require Import Prelude Header BufHeader Region.
From S2P Require Buddy BuddyFacts BuddySpec BuddyLaws Fixed FixedLaws.

#[local] Open Scope Z_scope.

(** ** Shared regions *)

Section shared_facts.
Context {A : Type} `{AllocatorLaws A}.

Implicit Types (r : LocalSharedRegion A) (m : mem) (live : list span).

(** Address of the buffer header of a block: past the eight bytes of the
    allocator's own header. *)
Definition buf_ptr r (s : span) : Z := r_data r + sp_off s + 8.

(** The global offset the peer knows the buffer by. *)
Definition global_of r (s : span) : Z := r_offset r + sp_off s + 8.

Definition buf_ok r m (s : span) : Prop :=
  32 <= sp_size s /\
  get_offset m (buf_ptr r s) = global_of r s /\
  get_cap m (buf_ptr r s) = sp_size s - 32 /\
  get_len m (buf_ptr r s) <= sp_size s - 32.

Record region_ok r m live : Prop := {
  ro_alloc : alloc_ok (r_alloc r) (region_arena r) m live;
  ro_count : r_allocs r = Z.of_nat (length live);
  ro_idle : r_activated_at r = 0 -> live = [];
  ro_bufs : Forall (buf_ok r m) live;
  ro_offset : 0 < r_offset r;
  ro_end : r_offset r + r_size r <= I64_MAX;
  ro_size : 0 <= r_size r < W32;
}.

(** Same place, same limits. *)
Definition same_region r r' : Prop :=
  r_offset r' = r_offset r /\ r_size r' = r_size r /\ r_data r' = r_data r /\
  same_shape (r_alloc r) (r_alloc r').

Lemma same_shape_refl (a : A) : same_shape a a.
Proof. done. Qed.

Lemma same_shape_trans (a b c : A) : same_shape a b -> same_shape b c -> same_shape a c.
Proof. intros [H1 H2] [H3 H4]. split; [congruence|]. intros off. by rewrite H4, H2. Qed.

Lemma same_region_refl r : same_region r r.
Proof. done. Qed.

Lemma same_region_trans r1 r2 r3 : same_region r1 r2 -> same_region r2 r3 -> same_region r1 r3.
Proof.
  intros (? & ? & ? & S1) (? & ? & ? & S2).
  repeat split; try congruence; apply (same_shape_trans _ _ _ S1 S2).
Qed.

Lemma max_payload_same r r' : same_region r r' -> max_payload r' = max_payload r.
Proof. intros (_ & _ & _ & E & _). unfold max_payload. by rewrite E. Qed.

Lemma buf_ok_same r r' m (s : span) : same_region r r' -> buf_ok r m s -> buf_ok r' m s.
Proof.
  intros (Eo & _ & Ed & _). unfold buf_ok, buf_ptr, global_of. by rewrite Eo, Ed.
Qed.

(** One live block and any other are disjoint, whatever their order. *)
Lemma live_disjoint (a : A) (ar : arena) m (l1 l2 : list span) (s t : span) :
  alloc_ok a ar m (l1 ++ s :: l2) -> In t (l1 ++ l2) -> span_disjoint s t.
Proof.
  intros Hok Ht. apply in_app_iff in Ht as [Ht|Ht]; apply in_split in Ht as (k1 & k2 & ->).
  - rewrite <- app_assoc in Hok. apply law_disjoint in Hok. unfold span_disjoint in *. lia.
  - by apply law_disjoint in Hok.
Qed.

(** A buffer header survives a change confined to another block. *)
Lemma buf_ok_frame r m m' (s t : span) :
  span_disjoint s t -> buf_ok r m t -> 32 <= sp_size s ->
  mem_frame (r_data r + sp_off s) (r_data r + sp_off s + sp_size s) m m' -> buf_ok r m' t.
Proof.
  intros Hd (H1 & H2 & H3 & H4) Hs Hf.
  assert (E : get_hdr m' (buf_ptr r t) = get_hdr m (buf_ptr r t)).
  { apply (get_hdr_frame _ _ _ _ _ Hf). unfold buf_ptr, span_disjoint in *. lia. }
  injection E as E1 E2 E3 E4. unfold buf_ok. by rewrite E1, E3, E4.
Qed.

Lemma bufs_frame r m m' (l1 l2 : list span) (s : span) (a : A) (ar : arena) (m0 : mem) :
  alloc_ok a ar m0 (l1 ++ s :: l2) -> Forall (buf_ok r m) (l1 ++ l2) -> 32 <= sp_size s ->
  mem_frame (r_data r + sp_off s) (r_data r + sp_off s + sp_size s) m m' ->
  Forall (buf_ok r m') (l1 ++ l2).
Proof.
  intros Hok HF Hs Hf. rewrite List.Forall_forall in HF |- *. intros t Ht.
  apply (buf_ok_frame r m m' s t); [by apply (live_disjoint a ar m0 l1 l2)| |done|done].
  by apply HF.
Qed.

Lemma activate_spec r m live (now : Z) :
  region_ok r m live -> now <> 0 ->
  exists r', activate r m now = Some (Ok (r', m)) /\ region_ok r' m live /\ same_region r r' /\
    r_activated_at r' <> 0.
Proof.
  intros Hok Hn. pose proof Hok as [Ha Hc Hi Hb Ho He Hs]. unfold activate.
  destruct (r_activated_at r =? 0) eqn:Eact; bools.
  2:{ exists r. do 2 (split; [done|]). split; [apply same_region_refl|done]. }
  rewrite (Hi Eact) in *. destruct (r_stale r).
  - destruct (law_reset _ _ _ _ Ha) as (a' & -> & Hsh & Ha'). cbn [mbind option_bind].
    eexists. split; [done|]. split; [|done]. split; cbn; try done.
  - eexists. split; [done|]. split; [|done]. split; cbn; try done.
Qed.

(** A block the allocator handed out joins the live set once its buffer header
    is stamped. *)
Lemma region_push r m m1 m2 live (a' : A) (s : span) (size : Z) :
  region_ok r m live -> r_activated_at r <> 0 -> same_shape (r_alloc r) a' ->
  alloc_ok a' (region_arena r) m1 (s :: live) -> 0 <= size <= sp_size s - 32 ->
  get_hdr m2 (buf_ptr r s) = mkHdr (global_of r s) 0 size (sp_size s - 32) ->
  mem_frame (buf_ptr r s) (buf_ptr r s + 24) m1 m2 ->
  mem_frame (r_data r + sp_off s) (r_data r + sp_off s + 32) m m2 ->
  region_ok (with_state r a' (r_allocs r + 1) (r_activated_at r) (r_stale r)) m2 (s :: live).
Proof.
  intros [Ha Hc Hi Hb Ho He Hsz] Hact Hsh Hal Hs Eg Hf2 Hfr.
  set (r2 := with_state r a' _ _ _). split; cbn [r_alloc r_allocs r_activated_at r_offset r_size r2 with_state]; try done.
  - change (region_arena r2) with (region_arena r).
    apply (law_frame _ _ m1); [exact Hal|]. intros t x Ht Hx. apply Hf2.
    unfold buf_ptr, ALLOCATOR_HEADER_SIZE in *. cbn [region_arena a_base] in *.
    destruct Ht as [<-|Ht]; [lia|].
    pose proof (live_disjoint _ _ _ [] live s t Hal Ht) as Hdis.
    destruct (law_bounds _ _ _ _ t Hal (or_intror Ht)) as (T1 & T2 & T3).
    unfold span_disjoint, ALLOCATOR_HEADER_SIZE in *. lia.
  - cbn [length]. lia.
  - constructor.
    + injection Eg as G1 G2 G3 G4. unfold buf_ok.
      change (buf_ptr r2 s) with (buf_ptr r s). rewrite G1, G3, G4. repeat split; lia.
    + eapply Forall_impl; [|intros t Ht; apply (buf_ok_same r r2); [by split|exact Ht]].
      apply (bufs_frame r m m2 [] live s _ _ _ Hal Hb); [lia|].
      eapply mem_frame_weaken; [| |exact Hfr]; lia.
Qed.

Lemma shared_alloc_spec r m live (now size : Z) :
  region_ok r m live -> 0 <= size -> now <> 0 ->
  exists res r' m', shared_alloc r m now size = Some (res, r', m') /\ same_region r r' /\
    match res with
    | None => m' = m /\ region_ok r' m live
    | Some ptr => exists s,
        region_ok r' m' (s :: live) /\ ptr = buf_ptr r s /\
        get_hdr m' ptr = mkHdr (global_of r s) 0 size (sp_size s - 32) /\
        size <= sp_size s - 32 /\
        mem_frame (r_data r + sp_off s) (r_data r + sp_off s + 32) m m'
    end.
Proof.
  intros Hok Hs Hn. unfold shared_alloc.
  destruct (activate_spec r m live now Hok Hn) as (r1 & -> & Hok1 & Hsame & Hact).
  cbn [mbind option_bind]. pose proof Hok1 as [Ha Hc Hi Hb Ho He Hsz].
  destruct (law_alloc (r_alloc r1) (region_arena r1) m live (DYNSHM_BUFFER_HEADER_SIZE + size))
    as (res & a' & m1 & -> & Hsh & Hp); [done | unfold DYNSHM_BUFFER_HEADER_SIZE; lia |].
  cbn [mbind option_bind]. unfold DYNSHM_BUFFER_HEADER_SIZE in *. destruct res as [al|].
  2:{ destruct Hp as [-> Hp]. eexists None, _, m. split; [done|].
      split; [by apply (same_region_trans r r1)|].
      split; [done|]. split; cbn; done. }
  destruct Hp as (sz & Hal & Hd & Hlen & Hcap & Ec & Hf). unfold ALLOCATOR_HEADER_SIZE in *.
  set (s := mkSpan (block_offset al) sz) in *.
  destruct (law_bounds _ _ _ _ s Hal (or_introl eq_refl)) as (B1 & B2 & B3). cbn in B3.
  pose proof Hsame as (Eo & Es & Ed & _).
  match goal with |- context [Some (Some ?q, ?st, ?mm)] => set (ptr := q); set (r2 := st); set (m2 := mm) end.
  assert (Ep : ptr = buf_ptr r1 s) by (unfold ptr, buf_ptr, s; cbn; lia).
  assert (Eg : get_hdr m2 ptr = mkHdr (global_of r1 s) 0 size (sz - 32) /\
    mem_frame ptr (ptr + 24) m1 m2).
  { apply stamp_spec.
    - unfold hdr_ok, global_of. cbn [sp_off sp_size h_offset h_next h_len h_cap s] in *.
      unfold I64_MAX, W32 in *. lia.
    - unfold m2. cbn [sp_size s] in *.
      rewrite !wrap32_small by (cbn in *; unfold W32 in *; lia).
      replace (alloc_cap al - 24) with (sz - 32) by lia.
      replace (r_offset r1 + data_offset al) with (global_of r1 s)
        by (unfold global_of; cbn [sp_off s]; lia). done. }
  destruct Eg as [Eg Hf2].
  assert (Hfr : mem_frame (r_data r1 + sp_off s) (r_data r1 + sp_off s + 32) m m2).
  { eapply mem_frame_trans; eapply mem_frame_weaken; [| |exact Hf| | |exact Hf2];
      unfold buf_ptr in Ep; cbn [sp_off s region_arena a_base] in *; lia. }
  exists (Some ptr), r2, m2. split; [done|]. split; [by apply (same_region_trans r r1)|]. exists s.
  replace (buf_ptr r s) with (buf_ptr r1 s) by (unfold buf_ptr; by rewrite Ed).
  replace (global_of r s) with (global_of r1 s) by (unfold global_of; by rewrite Eo).
  rewrite Eg, Ep, <- Ed. cbn [sp_size s]. rewrite Ep in *.
  split; [|do 2 (split; [done|]); split; [lia|done]].
  apply (region_push r1 m m1 m2 live a' s size); cbn [sp_size s]; try done; lia.
Qed.

(** ** Releasing *)

Lemma is_valid_global r m (l1 l2 : list span) (s : span) :
  region_ok r m (l1 ++ s :: l2) ->
  usize_try_from (global_of r s - r_offset r) = Some (sp_off s + ALLOCATOR_HEADER_SIZE) /\
  is_valid_offset (r_alloc r) (sp_off s + ALLOCATOR_HEADER_SIZE) = true.
Proof.
  intros [Ha _ _ _ _ _ _]. assert (Hs : In s (l1 ++ s :: l2)) by (apply in_app_iff; right; by left).
  destruct (law_bounds _ _ _ _ s Ha Hs) as (B1 & B2 & B3).
  split; [|by apply (law_valid _ _ _ _ _ Ha Hs)].
  unfold usize_try_from, global_of, ALLOCATOR_HEADER_SIZE.
  replace (r_offset r + sp_off s + 8 - r_offset r) with (sp_off s + 8) by lia.
  by rewrite (proj2 (Z.leb_le _ _)) by lia.
Qed.

Lemma shared_free_at_spec r m (l1 l2 : list span) (s : span) :
  region_ok r m (l1 ++ s :: l2) ->
  exists r' m', shared_free_at r m (global_of r s) = Some (Ok tt, r', m') /\
    region_ok r' m' (l1 ++ l2) /\ same_region r r' /\ get_offset m' (buf_ptr r s) = 0 /\
    mem_frame (r_data r + sp_off s) (r_data r + sp_off s + 16) m m'.
Proof.
  intros Hok. pose proof (is_valid_global r m l1 l2 s Hok) as [Hu Hv].
  pose proof Hok as [Ha Hc Hi Hb Ho He Hsz].
  assert (Hin : In s (l1 ++ s :: l2)) by (apply in_app_iff; right; by left).
  destruct (law_bounds _ _ _ _ s Ha Hin) as (B1 & B2 & B3).
  apply Forall_app in Hb as [Hb1 Hb2]. apply Forall_cons in Hb2 as [Hbs Hb2].
  pose proof Hbs as (S1 & S2 & _). unfold shared_free_at. rewrite Hu, Hv. cbn [negb].
  unfold ALLOCATOR_HEADER_SIZE in *.
  replace (r_data r + (sp_off s + 8)) with (buf_ptr r s) by (unfold buf_ptr; lia).
  rewrite S2. rewrite (proj2 (Z.eqb_neq _ _)) by (unfold global_of; lia).
  set (m1 := set_offset m (buf_ptr r s) 0).
  assert (Hf1 : mem_frame (r_data r + sp_off s + 8) (r_data r + sp_off s + 16) m m1).
  { unfold m1, set_offset, buf_ptr. apply mem_frame_store; simpl; lia. }
  assert (Ha1 : alloc_ok (r_alloc r) (region_arena r) m1 (l1 ++ s :: l2)).
  { apply (law_frame _ _ m); [done|]. intros t x Ht Hx. apply Hf1.
    unfold ALLOCATOR_HEADER_SIZE in *. cbn [region_arena a_base].
    destruct (decide (t = s)) as [->|Hne]; [lia|].
    pose proof (in_others l1 l2 s t Ht ltac:(congruence)) as Ht'.
    pose proof (live_disjoint _ _ _ l1 l2 s t Ha Ht') as Hd.
    destruct (law_bounds _ _ _ _ t Ha Ht) as (T1 & T2 & T3).
    unfold span_disjoint, ALLOCATOR_HEADER_SIZE in *. lia. }
  destruct (law_free_at _ _ _ l1 s l2 Ha1) as (a' & m2 & Hfree & Hsh & Ha2 & Hf2).
  unfold ALLOCATOR_HEADER_SIZE in *. rewrite Hfree. cbn [mbind option_bind].
  cbn [region_arena a_base] in Hf2.
  assert (Hf : mem_frame (r_data r + sp_off s) (r_data r + sp_off s + 16) m m2).
  { eapply mem_frame_trans; eapply mem_frame_weaken; [| |exact Hf1| | |exact Hf2]; lia. }
  eexists _, m2. split; [done|]. split; [|split; [done|split; [|done]]].
  - split; cbn; try done.
    + rewrite Hc, !length_app. unfold saturating_sub. cbn [length]. lia.
    + intros E. specialize (Hi E). by destruct l1.
    + eapply Forall_impl; [|intros t Ht; apply (buf_ok_same r); [by split|exact Ht]].
      apply (bufs_frame r m m2 l1 l2 s _ _ _ Ha); [by apply Forall_app|done|].
      eapply mem_frame_weaken; [| |exact Hf]; lia.
  - assert (E : get_offset m2 (buf_ptr r s) = get_offset m1 (buf_ptr r s)).
    { unfold get_offset, load_i64. f_equal. apply (load_frame 8 _ _ _ _ _ Hf2).
      unfold buf_ptr. simpl. lia. }
    rewrite E. unfold m1, get_offset, set_offset. by apply load_i64_store64_same.
Qed.
(** Releasing a released buffer is refused before anything is written. *)
Lemma shared_free_at_dead r m (local : Z) :
  0 <= local -> is_valid_offset (r_alloc r) local = true -> get_offset m (r_data r + local) = 0 ->
  shared_free_at r m (r_offset r + local) = Some (Err NotAllocated, r, m).
Proof.
  intros H0' Hv Hz. unfold shared_free_at, usize_try_from.
  replace (r_offset r + local - r_offset r) with local by lia.
  rewrite (proj2 (Z.leb_le 0 local)), Hv by done. cbn [negb]. by rewrite Hz.
Qed.

(** Punching happens only with nothing live, whatever it does to the pages. *)
Lemma punch_if_idle_spec r m live (now max_age : Z) (punch : Z -> Z -> mem -> mem) :
  region_ok r m live ->
  let '(b, r', m') := punch_if_idle r m now max_age punch in
  same_region r r' /\
  if b then live = [] /\ r_activated_at r <> 0 /\ max_age <= now - r_activated_at r /\
    m' = punch (r_offset r) (r_size r) m /\ region_ok r' m' [] /\
    r_activated_at r' = 0 /\ r_stale r' = true
  else r' = r /\ m' = m.
Proof.
  intros Hok. pose proof Hok as [Ha Hc Hi Hb Ho He Hsz]. unfold punch_if_idle.
  case_if; [done|]. bools. assert (live = []) as -> by (destruct live; [done|cbn in Hc; lia]).
  split; [done|]. do 4 (split; [done|]). split; [|done].
  split; cbn; try done. apply (law_frame _ _ m); [exact Ha|]. intros t x [].
Qed.

(** ** Executions of a region

    The owner allocates, appends to and releases its own buffers and prunes the
    region; a label names the buffer whose bytes a step may change. *)

Record rstate : Type := mkR {
  rs_region : LocalSharedRegion A;
  rs_mem : mem;
  rs_live : list span;
}.

(** The block behind a buffer header that was just handed out. *)
Definition span_at r m (ptr : Z) : span := mkSpan (ptr - r_data r - 8) (get_cap m ptr + 32).

Inductive rstep : option span -> rstate -> rstate -> Prop :=
| rs_alloc r m live now size ptr r' m' :
    0 <= size -> now <> 0 ->
    shared_alloc r m now size = Some (Some ptr, r', m') ->
    rstep (Some (span_at r m' ptr)) (mkR r m live) (mkR r' m' (span_at r m' ptr :: live))
| rs_alloc_fail r m live now size r' m' :
    0 <= size -> now <> 0 ->
    shared_alloc r m now size = Some (None, r', m') ->
    rstep None (mkR r m live) (mkR r' m' live)
| rs_append r m live s payload :
    In s live -> Forall is_byte payload ->
    rstep (Some s) (mkR r m live) (mkR r (snd (append m (buf_ptr r s) payload)) live)
| rs_free r m l1 s l2 res r' m' :
    shared_free_at r m (global_of r s) = Some (res, r', m') ->
    rstep (Some s) (mkR r m (l1 ++ s :: l2)) (mkR r' m' (l1 ++ l2))
| rs_punch r m live now max_age b r' m' punch :
    punch_if_idle r m now max_age punch = (b, r', m') ->
    rstep None (mkR r m live) (mkR r' m' live).

Definition rstate_ok (st : rstate) : Prop := region_ok (rs_region st) (rs_mem st) (rs_live st).

Lemma append_region_ok r m live (s : span) (payload : list Z) :
  region_ok r m live -> In s live -> Forall is_byte payload ->
  region_ok r (snd (append m (buf_ptr r s) payload)) live /\
  mem_frame (buf_ptr r s) (r_data r + sp_off s + sp_size s) m (snd (append m (buf_ptr r s) payload)).
Proof.
  intros [Ha Hc Hi Hb Ho He Hsz] Hs Hp. apply in_split in Hs as (l1 & l2 & ->).
  pose proof Hb as Hb'. apply Forall_app in Hb as [Hb1 Hb2]. apply Forall_cons in Hb2 as [Hbs Hb2].
  pose proof Hbs as (S1 & S2 & S3 & S4).
  pose proof (append_spec m (buf_ptr r s) payload Hp ltac:(lia)) as Hsp. cbv zeta in Hsp.
  destruct (append m (buf_ptr r s) payload) as [fits m']. destruct Hsp as [Ef Hsp]. cbn [snd].
  destruct fits; [|subst m'; split; [by split|apply mem_frame_refl]].
  destruct Hsp as (Hh & _ & Hfr). symmetry in Ef. bools.
  pose proof (get_len_bound m (buf_ptr r s)).
  assert (Hf : mem_frame (buf_ptr r s + 16) (r_data r + sp_off s + sp_size s) m m').
  { intros x Hx. apply Hfr; unfold buf_ptr in *; lia. }
  assert (Hf' : mem_frame (r_data r + sp_off s) (r_data r + sp_off s + sp_size s) m m').
  { eapply mem_frame_weaken; [| |exact Hf]; unfold buf_ptr; lia. }
  split; [|eapply mem_frame_weaken; [| |exact Hf]; lia]. split; try done.
  - apply (law_frame _ _ m); [done|]. intros t x Ht Hx. apply Hf.
    unfold ALLOCATOR_HEADER_SIZE, buf_ptr in *. cbn [region_arena a_base].
    destruct (decide (t = s)) as [->|Hne]; [lia|].
    pose proof (in_others l1 l2 s t Ht ltac:(congruence)) as Ht'.
    pose proof (live_disjoint _ _ _ l1 l2 s t Ha Ht') as Hd.
    destruct (law_bounds _ _ _ _ t Ha Ht) as (T1 & T2 & T3).
    unfold span_disjoint, ALLOCATOR_HEADER_SIZE in *. lia.
  - pose proof (bufs_frame r m m' l1 l2 s _ _ _ Ha ltac:(by apply Forall_app) S1 Hf') as HF.
    apply Forall_app in HF as [? ?]. apply Forall_app. split; [done|]. constructor; [|done].
    injection Hh as G1 G2 G3 G4. unfold buf_ok. rewrite G1, G3, G4. lia.
Qed.

(** Every step keeps the invariant and changes no byte of a buffer it does not
    name. *)
Lemma rstep_ok (lbl : option span) (st st' : rstate) :
  rstate_ok st -> rstep lbl st st' ->
  rstate_ok st' /\
  forall t x, In t (rs_live st) -> lbl <> Some t ->
    sp_off t <= x < sp_off t + sp_size t ->
    rd (rs_mem st') (r_data (rs_region st) + x) = rd (rs_mem st) (r_data (rs_region st) + x).
Proof.
  unfold rstate_ok. intros Hok Hst. destruct Hst; cbn in *.
  - destruct (shared_alloc_spec r m live now size Hok H1 H2) as (res & r1 & m1 & E & Hsame & Hp).
    rewrite H3 in E. injection E as <- <- <-. destruct Hp as (s & Hok' & -> & Hh & Hle & Hf).
    assert (Es : span_at r m' (buf_ptr r s) = s).
    { unfold span_at. injection Hh as _ _ _ Hc. rewrite Hc. unfold buf_ptr. destruct s. cbn. f_equal; lia. }
    rewrite Es. split; [done|]. intros t x Ht Hne Hx. apply Hf.
    pose proof (live_disjoint _ _ _ [] live s t (ro_alloc _ _ _ Hok') Ht) as Hd.
    unfold span_disjoint in Hd. lia.
  - destruct (shared_alloc_spec r m live now size Hok H1 H2) as (res & r1 & m1 & E & Hsame & Hp).
    rewrite H3 in E. injection E as <- <- <-. by destruct Hp as [-> Hp].
  - destruct (append_region_ok r m live s payload Hok H1 H2) as [Hok' Hf]. split; [done|].
    intros t x Ht Hne Hx. apply Hf. apply in_split in H1 as (l1 & l2 & ->).
    pose proof (in_others l1 l2 s t Ht ltac:(congruence)) as Ht'.
    pose proof (live_disjoint _ _ _ l1 l2 s t (ro_alloc _ _ _ Hok) Ht') as Hd.
    unfold span_disjoint, buf_ptr in *. lia.
  - destruct (shared_free_at_spec r m l1 l2 s Hok) as (r1 & m1 & E & Hok' & _ & _ & Hf).
    rewrite H1 in E. injection E as -> <- <-. split; [done|]. intros t x Ht Hne Hx. apply Hf.
    pose proof (in_others l1 l2 s t Ht ltac:(congruence)) as Ht'.
    pose proof (live_disjoint _ _ _ l1 l2 s t (ro_alloc _ _ _ Hok) Ht') as Hd.
    pose proof (ro_bufs _ _ _ Hok) as HF. apply Forall_app in HF as [_ HF].
    apply Forall_cons in HF as [(S1 & _) _]. unfold span_disjoint in Hd. lia.
  - pose proof (punch_if_idle_spec r m live now max_age punch Hok) as Hp. rewrite H1 in Hp.
    destruct Hp as [_ Hp]. destruct b.
    + destruct Hp as (-> & _ & _ & _ & Hok' & _). split; [done|]. intros t x [].
    + by destruct Hp as [-> ->].
Qed.
End shared_facts.

(** ** Building a region *)

Lemma buddy_fresh_ok (b : Buddy.BuddyAllocator) (N mn mx : Z) (ar : arena) (m : mem) :
  Buddy.new_with_block_size N mn mx = Ok b -> N <= I64_MAX -> a_len ar = N -> alloc_ok b ar m [].
Proof.
  intros Hb HN Ha. destruct (BuddySpec.new_spec N mn mx b HN Hb) as (Hwf & E & _).
  exists []. split; [|done]. split; [done | congruence | constructor].
Qed.

Lemma fixed_fresh_ok (f : Fixed.FixedAllocator) (N : Z) (cs : list Fixed.SizePercentPair)
    (ar : arena) (m : mem) :
  Fixed.new_from_config N cs = Some (Ok f) -> 0 <= N -> N * 100 < W64 -> a_len ar = N ->
  Forall (fun c => 0 <= Fixed.sp_percent c <= 100) cs -> alloc_ok f ar m [].
Proof.
  intros Hf H0 HN Ha Hp. unfold Fixed.new_from_config in Hf.
  destruct cs as [|c0 [|c1 [|c2 [|? ?]]]]; try done.
  apply Forall_cons in Hp as [P0 Hp]. apply Forall_cons in Hp as [P1 Hp].
  apply Forall_cons in Hp as [P2 _]. rewrite wrap32_small in Hf by (unfold W32; lia).
  case_if_in Hf; [done|]. bools.
  destruct (FixedLaws.build_spec N (Fixed.sp_bytes c0) (Fixed.sp_bytes c1) (Fixed.sp_bytes c2)
    (Fixed.sp_percent c0) (Fixed.sp_percent c1)) as (r & Hr & Hspec);
    [unfold I64_MAX, W64 in *; lia | done | lia | lia | lia |].
  rewrite Hf in Hr. injection Hr as <-. destruct Hspec as (Hwf & Ea & _).
  exists []. split; [|done]. split; [done | congruence | constructor].
Qed.

Lemma shared_new_ok (env : option string) (data size offset mn mx : Z)
    (r : LocalSharedRegion RegionAllocator) (m : mem) :
  shared_new env data size offset mn mx = Some (Ok r) ->
  0 < offset -> 0 <= size < W32 -> offset + size <= I64_MAX ->
  region_ok r m [] /\ r_offset r = offset /\ r_size r = size /\ r_data r = data.
Proof.
  intros Hn Ho Hs He. unfold shared_new in Hn. destruct (decide _).
  - destruct (Fixed.new_from_config size _) as [[f|e']|] eqn:E; try done. cbn in Hn.
    injection Hn as <-. split; [|done].
    split; cbn; try done; try lia.
    apply (fixed_fresh_ok f size _ (mkArena data size) m E); [lia | unfold W64, W32 in *; lia | done |].
    repeat apply Forall_cons_2; [cbn; lia..|apply Forall_nil_2].
  - destruct (Buddy.new_with_block_size size mn mx) as [b|e'] eqn:E; [|done].
    injection Hn as <-. split; [|done]. split; cbn; try done; try lia.
    apply (buddy_fresh_ok b size mn mx (mkArena data size) m E); [lia|done].
Qed.

(** ** Dedicated regions *)

(** Busy exactly while the header names the region's own offset; the stamp [-1]
    of a punched region is never a busy region's. *)
Definition dedicated_ok (d : LocalDedicatedRegion) (m : mem) (busy : bool) : Prop :=
  0 < d_offset d /\ 24 < d_size d /\ d_size d < W32 /\ d_offset d + d_size d <= I64_MAX /\
  get_offset m (d_data d) = (if busy then d_offset d else 0) /\
  (busy = true -> get_cap m (d_data d) = d_size d - 24 /\
                  get_len m (d_data d) <= d_size d - 24 /\ d_updated d <> -1).

Lemma dedicated_ok_freed (d : LocalDedicatedRegion) (m : mem) (busy : bool) :
  dedicated_ok d m busy -> is_freed d m = negb busy.
Proof.
  intros (H1 & _ & _ & _ & E & _). unfold is_freed. rewrite E. destruct busy; [|done].
  apply Z.eqb_neq. lia.
Qed.

Lemma dedicated_new_ok (m : mem) (data size offset : Z) :
  0 < offset -> 24 < size < W32 -> offset + size <= I64_MAX ->
  let '(d, m') := dedicated_new m data size offset in
  dedicated_ok d m' false /\ d_data d = data /\ d_size d = size /\ d_offset d = offset /\
  d_updated d = 0 /\ mem_frame data (data + 24) m m'.
Proof.
  intros Ho Hs He. cbn. split; [|repeat (split; [done|]); apply mem_frame_put_hdr].
  unfold dedicated_ok. cbn.
  assert (E : get_hdr (put_hdr m data default_header) data = default_header).
  { apply get_put_hdr. unfold hdr_ok, I64_MAX, W32. cbn. lia. }
  injection E as E _ _ _. rewrite E. repeat split; try lia; discriminate.
Qed.

Lemma dedicated_alloc_spec (d : LocalDedicatedRegion) (m : mem) (busy : bool) (now size : Z) :
  dedicated_ok d m busy -> 0 <= size -> now <> -1 ->
  let '(res, d', m') := dedicated_alloc d m now size in
  d_data d' = d_data d /\ d_size d' = d_size d /\ d_offset d' = d_offset d /\
  match res with
  | None => d' = d /\ m' = m /\ (busy = true \/ d_size d < size + 24)
  | Some p => busy = false /\ size + 24 <= d_size d /\ p = d_data d /\ dedicated_ok d' m' true /\
      d_updated d' = now /\
      get_hdr m' p = mkHdr (d_offset d) 0 size (d_size d - 24) /\
      mem_frame p (p + 24) m m'
  end.
Proof.
  intros Hok Hs Hn. pose proof (dedicated_ok_freed d m busy Hok) as Ef.
  destruct Hok as (H1 & H2 & H3 & H4 & H5 & H6). unfold dedicated_alloc.
  rewrite Ef, negb_involutive. unfold DYNSHM_BUFFER_HEADER_SIZE. case_if.
  { do 5 (split; [done|]). bcases; [by left|right; lia]. }
  bools. do 3 (split; [done|]). rewrite !wrap32_small by (unfold W32 in *; lia).
  set (m' := set_next _ _ _).
  destruct (stamp_spec m m' (d_data d) (d_offset d) size (d_size d - 24)) as [Eg Hf];
    [unfold hdr_ok, I64_MAX, W32 in *; cbn; lia | done |].
  split; [done|]. split; [lia|]. split; [done|]. split; [|done].
  unfold dedicated_ok. cbn [d_offset d_size d_data d_updated]. injection Eg as G1 G2 G3 G4.
  rewrite G1, G3, G4. repeat split; lia.
Qed.

Lemma mark_freed_spec (d : LocalDedicatedRegion) (m : mem) (busy : bool) (now : Z) :
  dedicated_ok d m busy ->
  let '(res, d', m') := mark_freed d m now in
  d_data d' = d_data d /\ d_size d' = d_size d /\ d_offset d' = d_offset d /\
  dedicated_ok d' m' false /\
  if busy then res = Ok tt /\ d_updated d' = now /\ mem_frame (d_data d) (d_data d + 8) m m'
  else res = Err NotAllocated /\ d' = d /\ m' = m.
Proof.
  intros Hok. pose proof Hok as (H1 & H2 & H3 & H4 & H5 & H6). unfold mark_freed. rewrite H5.
  destruct busy; [|by rewrite Z.eqb_refl].
  rewrite (proj2 (Z.eqb_neq _ _)) by lia. do 3 (split; [done|]). split.
  - unfold dedicated_ok. cbn. repeat split; try lia; try discriminate.
    apply load_i64_store64_same. unfold I64_MAX. lia.
  - do 2 (split; [done|]). apply mem_frame_store; simpl; lia.
Qed.
