(* ===== verification/RegionTheorems.v ===== *)
(** * What regions guarantee

    Executions of a shared region from construction on, the release protocol,
    dedicated regions, and what a release that names no live buffer does. *)

From Stdlib Require Import ZArith Lia Permutation String.
From stdpp Require Import base numbers list gmap strings.
From S2P Require Import Prelude Header BufHeader Region RegionFacts.
From S2P Require Buddy BuddyFacts BuddySpec BuddyLaws Fixed FixedLaws.

#[local] Open Scope Z_scope.

Section executions.
Context {A : Type} `{AllocatorLaws A}.

(** Sequences of labelled steps. *)
Inductive rsteps : list (option span) -> rstate -> rstate -> Prop :=
| rsteps_nil st : rsteps [] st st
| rsteps_cons lbl lbls st1 st2 st3 :
    rstep lbl st1 st2 -> rsteps lbls st2 st3 -> rsteps (lbl :: lbls) st1 st3.

(** A buffer no step names stays live. *)
Lemma rstep_live (lbl : option span) (st st' : rstate) (t : span) :
  rstep lbl st st' -> In t (rs_live st) -> lbl <> Some t -> In t (rs_live st').
Proof.
  intros Hst Ht Hne. destruct Hst; cbn in *; try done; [by right|].
  apply (in_others l1 l2 s); [done|congruence].
Qed.

(** Steps never move a region. *)
Lemma rstep_data (lbl : option span) (st st' : rstate) :
  rstate_ok st -> rstep lbl st st' -> r_data (rs_region st') = r_data (rs_region st).
Proof.
  unfold rstate_ok. intros Hok Hst. destruct Hst; cbn in *; try done.
  - destruct (shared_alloc_spec r m live now size Hok H1 H2) as (res & r1 & m1 & E & Hs & _).
    rewrite H3 in E. injection E as <- <- <-. apply Hs.
  - destruct (shared_alloc_spec r m live now size Hok H1 H2) as (res & r1 & m1 & E & Hs & _).
    rewrite H3 in E. injection E as <- <- <-. apply Hs.
  - destruct (shared_free_at_spec r m l1 l2 s Hok) as (r1 & m1 & E & _ & Hs & _).
    rewrite H1 in E. injection E as -> <- <-. apply Hs.
  - pose proof (punch_if_idle_spec r m live now max_age punch Hok) as Hp. rewrite H1 in Hp. apply Hp.
Qed.

Lemma rsteps_ok (lbls : list (option span)) (st st' : rstate) :
  rstate_ok st -> rsteps lbls st st' ->
  rstate_ok st' /\
  forall t, In t (rs_live st) -> ~ In (Some t) lbls ->
    In t (rs_live st') /\
    forall x, sp_off t <= x < sp_off t + sp_size t ->
      rd (rs_mem st') (r_data (rs_region st) + x) = rd (rs_mem st) (r_data (rs_region st) + x).
Proof.
  intros Hok Hs. induction Hs as [st|lbl lbls st1 st2 st3 Hst Hs IH]; [done|].
  destruct (rstep_ok lbl st1 st2 Hok Hst) as [Hok2 Hiso].
  pose proof (rstep_data lbl st1 st2 Hok Hst) as Ed.
  destruct (IH Hok2) as [Hok3 Hrest]. split; [done|]. intros t Ht Hni.
  assert (lbl <> Some t /\ ~ In (Some t) lbls) as [N1 N2] by (split; [intros E; apply Hni; by left | intros E; apply Hni; by right]).
  pose proof (rstep_live lbl st1 st2 t Hst Ht N1) as Ht2.
  destruct (Hrest t Ht2 N2) as [Ht3 Hb]. split; [done|].
  intros x Hx. rewrite <- Ed, Hb by done. rewrite Ed. by apply (Hiso t).
Qed.
End executions.

(** From the construction of a shared region on, over either allocator, any
    sequence of allocations, appends, releases and prunings keeps every live
    buffer inside the region, disjoint from the others and stamped with its own
    global offset; and a buffer that no step of a later stretch names is still
    live at its end with every one of its bytes unchanged. *)
Theorem region_executions (env : option string) (data size offset mn mx : Z)
    (r : LocalSharedRegion RegionAllocator) (m0 : mem)
    (before after : list (option span)) (st1 st2 : rstate) :
  shared_new env data size offset mn mx = Some (Ok r) ->
  0 < offset -> 0 <= size < W32 -> offset + size <= I64_MAX ->
  rsteps before (mkR r m0 []) st1 -> rsteps after st1 st2 ->
  rstate_ok st2 /\
  (forall l1 s l2 t, rs_live st2 = l1 ++ s :: l2 -> In t (l1 ++ l2) -> span_disjoint s t) /\
  (forall t, In t (rs_live st2) ->
     0 <= sp_off t /\ sp_off t + sp_size t <= r_size (rs_region st2) /\
     get_offset (rs_mem st2) (buf_ptr (rs_region st2) t) = global_of (rs_region st2) t) /\
  (forall t, In t (rs_live st1) -> ~ In (Some t) after ->
     In t (rs_live st2) /\
     forall x, sp_off t <= x < sp_off t + sp_size t ->
       rd (rs_mem st2) (r_data (rs_region st1) + x) = rd (rs_mem st1) (r_data (rs_region st1) + x)).
Proof.
  intros Hn Ho Hs He H1 H2.
  destruct (shared_new_ok env data size offset mn mx r m0 Hn Ho Hs He) as [Hok _].
  destruct (rsteps_ok before (mkR r m0 []) _ Hok H1) as [Hok1 _].
  destruct (rsteps_ok after _ _ Hok1 H2) as [Hok2 Hiso].
  pose proof Hok2 as [Ha _ _ Hb _ _ _]. split; [done|]. split; [|split; [|done]].
  - intros l1 s l2 t E Ht. rewrite E in Ha. by apply (live_disjoint _ _ _ l1 l2 s t Ha).
  - intros t Ht. destruct (law_bounds _ _ _ _ t Ha Ht) as (B1 & _ & B3).
    rewrite List.Forall_forall in Hb. destruct (Hb t Ht) as (_ & E & _). done.
Qed.

(** A live buffer of a shared region is released by its global offset exactly
    once: the first release takes it off the live set and keeps the others, the
    second is refused as [NotAllocated] and changes neither the region nor a
    byte of memory. *)
Theorem region_release_once {A : Type} `{AllocatorLaws A} (r : LocalSharedRegion A) (m : mem)
    (l1 l2 : list span) (s : span) :
  region_ok r m (l1 ++ s :: l2) ->
  exists r' m', shared_free_at r m (global_of r s) = Some (Ok tt, r', m') /\
    region_ok r' m' (l1 ++ l2) /\ same_region r r' /\
    shared_free_at r' m' (global_of r s) = Some (Err NotAllocated, r', m').
Proof.
  intros Hok. destruct (shared_free_at_spec r m l1 l2 s Hok) as (r' & m' & Hf & Hok' & Hs & Hz & _).
  exists r', m'. do 3 (split; [done|]). destruct Hs as (Eo & _ & Ed & _ & Hv).
  pose proof (is_valid_global r m l1 l2 s Hok) as [_ Hval].
  assert (Hin : In s (l1 ++ s :: l2)) by (apply in_app_iff; right; by left).
  destruct (law_bounds _ _ _ _ s (ro_alloc _ _ _ Hok) Hin) as (B1 & _).
  unfold ALLOCATOR_HEADER_SIZE in *. unfold global_of. rewrite <- Eo, <- Z.add_assoc.
  apply (shared_free_at_dead r' m' (sp_off s + 8)); [lia | by rewrite Hv |].
  rewrite Ed. unfold buf_ptr in Hz. by replace (r_data r + (sp_off s + 8)) with (r_data r + sp_off s + 8) by lia.
Qed.

(** A dedicated region serves one buffer at a time: an allocation that fits
    is stamped with the region's offset and whole capacity, a second one is
    refused until the release, and a release happens once. *)
Theorem dedicated_cycle (m : mem) (data size offset n k now1 now2 now3 : Z) :
  0 < offset -> 24 < size < W32 -> offset + size <= I64_MAX -> 0 <= n <= size - 24 -> 0 <= k ->
  0 < now1 -> 0 < now2 ->
  let '(d, m0) := dedicated_new m data size offset in
  let '(res1, d1, m1) := dedicated_alloc d m0 now1 n in
  let '(res2, d2, m2) := dedicated_alloc d1 m1 now2 k in
  let '(res3, d3, m3) := mark_freed d2 m2 now3 in
  let '(res4, _, _) := mark_freed d3 m3 now3 in
  res1 = Some data /\ get_hdr m1 data = mkHdr offset 0 n (size - 24) /\
  res2 = None /\ m2 = m1 /\ res3 = Ok tt /\ is_freed d3 m3 = true /\ res4 = Err NotAllocated.
Proof.
  intros Ho Hs He Hn Hk Hn1 Hn2.
  pose proof (dedicated_new_ok m data size offset Ho Hs He) as H0.
  destruct (dedicated_new m data size offset) as [d m0]. destruct H0 as (Hok0 & Ed & Es & Eo & _ & _).
  pose proof (dedicated_alloc_spec d m0 false now1 n Hok0 ltac:(lia) ltac:(lia)) as H1.
  destruct (dedicated_alloc d m0 now1 n) as [[res1 d1] m1]. destruct H1 as (Ed1 & Es1 & Eo1 & H1).
  destruct res1 as [p|]; [|destruct H1 as (_ & _ & [?|?]); [done|lia]].
  destruct H1 as (_ & _ & -> & Hok1 & _ & Hh & _).
  pose proof (dedicated_alloc_spec d1 m1 true now2 k Hok1 Hk ltac:(lia)) as H2.
  destruct (dedicated_alloc d1 m1 now2 k) as [[res2 d2] m2]. destruct H2 as (_ & _ & _ & H2).
  destruct res2; [by destruct H2|]. destruct H2 as (-> & -> & _).
  pose proof (mark_freed_spec d1 m1 true now3 Hok1) as H3.
  destruct (mark_freed d1 m1 now3) as [[res3 d3] m3]. destruct H3 as (_ & _ & _ & Hok3 & -> & _).
  pose proof (mark_freed_spec d3 m3 false now3 Hok3) as H4.
  destruct (mark_freed d3 m3 now3) as [[res4 d4] m4]. destruct H4 as (_ & _ & _ & _ & -> & _).
  rewrite Ed, Eo, Es in Hh. rewrite Ed. do 5 (split; [done|]). split; [|done].
  by apply (dedicated_ok_freed d3 m3 false).
Qed.

(** ** A sample region *)

Definition sample_region : LocalSharedRegion RegionAllocator :=
  mkShared 4096 128 4096 (RBuddy BuddyLaws.sample_buddy) 0 0 false.

Lemma sample_region_ok : region_ok sample_region ∅ [].
Proof. by apply (shared_new_ok None 4096 128 4096 16 64). Qed.

(** One buffer of a 64-byte block handed out, and filled. *)
Definition sample_busy : LocalSharedRegion RegionAllocator :=
  match shared_alloc sample_region ∅ 1 1 with Some (_, r, _) => r | None => sample_region end.

Definition sample_busy_mem : mem :=
  match shared_alloc sample_region ∅ 1 1 with Some (_, _, m) => m | None => ∅ end.

Definition sample_payload : list Z := repeat 7 31.

Definition sample_full_mem : mem := snd (append sample_busy_mem 4168 sample_payload).

Lemma sample_alloc_eq :
  shared_alloc sample_region ∅ 1 1 = Some (Some 4168, sample_busy, sample_busy_mem).
Proof. vm_compute. reflexivity. Qed.

Lemma sample_alloc_steps :
  rsteps [Some (mkSpan 64 64)] (mkR sample_region ∅ [])
         (mkR sample_busy sample_busy_mem [mkSpan 64 64]).
Proof.
  eapply rsteps_cons; [|apply rsteps_nil].
  assert (E : mkSpan 64 64 = span_at sample_region sample_busy_mem 4168) by (vm_compute; reflexivity).
  rewrite E. apply (rs_alloc _ _ _ 1 1); [lia | lia | apply sample_alloc_eq].
Qed.

Lemma sample_append_steps :
  rsteps [Some (mkSpan 64 64)] (mkR sample_busy sample_busy_mem [mkSpan 64 64])
         (mkR sample_busy sample_full_mem [mkSpan 64 64]).
Proof.
  eapply rsteps_cons; [|apply rsteps_nil].
  apply (rs_append sample_busy sample_busy_mem [mkSpan 64 64] (mkSpan 64 64) sample_payload);
    [by left|]. repeat (constructor; [unfold is_byte; lia|]). constructor.
Qed.

Lemma sample_full_ok : region_ok sample_busy sample_full_mem [mkSpan 64 64].
Proof.
  assert (Hok0 : rstate_ok (mkR sample_region ∅ [])) by apply sample_region_ok.
  destruct (rsteps_ok _ _ _ Hok0 sample_alloc_steps) as [Hok1 _].
  by destruct (rsteps_ok _ _ _ Hok1 sample_append_steps) as [Hok2 _].
Qed.

Lemma region_executions_witness :
  rstate_ok (mkR sample_busy sample_full_mem [mkSpan 64 64]).
Proof.
  apply (region_executions None 4096 128 4096 16 64 sample_region ∅
           [Some (mkSpan 64 64)] [Some (mkSpan 64 64)]
           (mkR sample_busy sample_busy_mem [mkSpan 64 64]));
    [reflexivity | lia | unfold W32; lia | unfold I64_MAX; lia
    | apply sample_alloc_steps | apply sample_append_steps].
Defined.

Lemma region_release_once_witness :
  exists r' m', shared_free_at sample_busy sample_full_mem 4168 = Some (Ok tt, r', m') /\
    region_ok r' m' [] /\ same_region sample_busy r' /\
    shared_free_at r' m' 4168 = Some (Err NotAllocated, r', m').
Proof.
  apply (region_release_once sample_busy sample_full_mem [] [] (mkSpan 64 64)).
  apply sample_full_ok.
Defined.

Lemma dedicated_cycle_witness :
  let '(d, m0) := dedicated_new ∅ 4096 4096 4096 in
  let '(res1, d1, m1) := dedicated_alloc d m0 1 100 in
  let '(res2, d2, m2) := dedicated_alloc d1 m1 2 5 in
  let '(res3, d3, m3) := mark_freed d2 m2 3 in
  let '(res4, _, _) := mark_freed d3 m3 3 in
  res1 = Some 4096 /\ get_hdr m1 4096 = mkHdr 4096 0 100 4072 /\
  res2 = None /\ m2 = m1 /\ res3 = Ok tt /\ is_freed d3 m3 = true /\ res4 = Err NotAllocated.
Proof.
  apply (dedicated_cycle ∅ 4096 4096 4096 100 5 1 2 3); unfold W32, I64_MAX; lia.
Defined.

(** A release that was refused with a byte gone. *)
Definition refused_but_zeroed {R} (out : option (result Error unit * R * mem)) (x : Z) : bool :=
  match out with
  | Some (Err NotAllocated, _, m') => rd m' x =? 0
  | _ => false
  end.

Lemma refused_but_zeroed_spec {R} (out : option (result Error unit * R * mem)) (x : Z) :
  refused_but_zeroed out x = true -> exists r' m', out = Some (Err NotAllocated, r', m') /\ rd m' x = 0.
Proof. destruct out as [[[[|[]] r'] m']|]; try done. intros E. exists r', m'. split; [done|by apply Z.eqb_eq]. Qed.

(** A release that names a block boundary inside a live buffer is refused,
    but only after eight bytes of that buffer's payload have been zeroed: the
    region clears the supposed header's offset before the allocator checks the
    block.  A peer's bad release is not simply dropped. *)
Theorem region_bad_release_writes :
  exists (r r' : LocalSharedRegion RegionAllocator) (m m' : mem) (s : span) (x : Z),
    region_ok r m [s] /\ global_of r s <> r_offset r + 104 /\
    shared_free_at r m (r_offset r + 104) = Some (Err NotAllocated, r', m') /\
    buf_ptr r s + 24 <= x < buf_ptr r s + 24 + get_len m (buf_ptr r s) /\
    rd m x = 7 /\ rd m' x = 0.
Proof.
  destruct (refused_but_zeroed_spec (shared_free_at sample_busy sample_full_mem (r_offset sample_busy + 104)) 4200)
    as (r' & m' & E & Hz); [vm_compute; reflexivity|].
  exists sample_busy, r', sample_full_mem, m', (mkSpan 64 64), 4200.
  split; [apply sample_full_ok|]. split; [vm_compute; lia|]. split; [exact E|]. split; [vm_compute; split; congruence|].
  split; [vm_compute; reflexivity|exact Hz].
Qed.
