(* ===== verification/Mpsc.v ===== *)
(** * The shared ring ([src/src/v5/mpsc.rs], [src/src/v5/release_queue.rs])

    Geometry, layout checks and the operations of [Mpsc<T>] over byte memory.
    [T] is any payload with a fixed size; [i64] (the release queue) and the
    queue element of [DataQueue] are the instances.  The operations here run
    without interference; [MpscConc] interleaves their atomic actions. *)

From S2P Require Import Prelude.
From Stdlib Require Import ZArith Lia.
From stdpp Require Import base numbers list gmap.

#[local] Open Scope Z_scope.

Definition PAGE_SIZE : Z := 4096.

Definition MPSC_HEADER_SIZE : Z := 128.

Definition MAX_PAYLOAD_ALIGN : Z := 8.

Definition SLOT_HEADER_SIZE : Z := 8.

(** A [Copy] payload: its size and alignment, its bytes in a slot, and the
    values its bytes can hold. *)
Class Payload (T : Type) : Type := {
  psize : Z;
  palign : Z;
  pwrite : mem -> Z -> T -> mem;
  pread : mem -> Z -> T;
  pok : T -> Prop;
  psize_pos : 0 < psize;
  pread_pwrite : forall m a v, pok v -> pread (pwrite m a v) a = v;
  pwrite_frame : forall m a v, mem_frame a (a + psize) m (pwrite m a v);
  pread_ext : forall m m' a, (forall x, a <= x < a + psize -> rd m x = rd m' x) ->
    pread m a = pread m' a;
}.

#[refine, export] Instance i64_Payload : Payload Z := {|
  psize := 8;
  palign := 8;
  pwrite := store64;
  pread := load_i64;
  pok := fun v => - (I64_MAX + 1) <= v <= I64_MAX;
|}.
Proof.
  - lia.
  - intros. by apply load_i64_store64_same.
  - intros. apply mem_frame_store; simpl; lia.
  - intros m m' a Hx. unfold load_i64. f_equal. apply load_ext. simpl. done.
Defined.

Inductive LayoutError : Type :=
| Unaligned (len : Z)
| Misaligned (base : Z)
| TooSmall (len : Z)
| PayloadOverAligned (align : Z).

Inductive PushError : Type :=
| PushFull
| PushClosed.

Inductive PopResult (T : Type) : Type :=
| Empty
| HeadNotReady
| Ready (v : T).

Arguments Empty {T}.

Arguments HeadNotReady {T}.

Arguments Ready {T} v.

(** [Mpsc<T>]: derived geometry and the producer-side copy of [head]. *)
Record Mpsc : Type := mkMpsc {
  q_base : Z;
  q_len : Z;
  q_cap_shift : Z;
  q_slot_shift : Z;
  q_mask : Z;
  q_head_cache : Z;
}.

Definition with_cache (q : Mpsc) (h : Z) : Mpsc :=
  mkMpsc (q_base q) (q_len q) (q_cap_shift q) (q_slot_shift q) (q_mask q) h.

Section ring.
Context (T : Type) `{Payload T}.

(** ** Geometry *)

Definition slot_size : Z := next_power_of_two (SLOT_HEADER_SIZE + psize).

Definition mpsc_mem_size (cap : Z) : Z :=
  let size := MPSC_HEADER_SIZE + next_power_of_two cap * slot_size in
  Z.land (size + PAGE_SIZE - 1) (Z.lnot (PAGE_SIZE - 1)).

Definition mpsc_cap (mapping_len : Z) : Z :=
  let slots := saturating_sub mapping_len MPSC_HEADER_SIZE / slot_size in
  if slots =? 0 then 0 else Z.shiftl 1 (Z.log2 slots).

Definition from_raw_parts (base len : Z) : result LayoutError Mpsc :=
  if palign >? MAX_PAYLOAD_ALIGN then Err (PayloadOverAligned palign)
  else if negb (is_multiple_of len PAGE_SIZE) then Err (Unaligned len)
  else if len <? MPSC_HEADER_SIZE then Err (TooSmall len)
  else if negb (is_multiple_of base MAX_PAYLOAD_ALIGN) then Err (Misaligned base)
  else
    let slot_shift := Z.log2 slot_size in
    let raw_cap := Z.shiftr (len - MPSC_HEADER_SIZE) slot_shift in
    if raw_cap =? 0 then Err (TooSmall len)
    else
      let cap_shift := Z.log2 raw_cap in
      let capacity := Z.shiftl 1 cap_shift in
      Ok (mkMpsc base len cap_shift slot_shift (capacity - 1) 0).

(** Zeroing the region is what empties the ring. *)
Definition mpsc_new (m : mem) (base len : Z) : result LayoutError Mpsc * mem :=
  match from_raw_parts base len with
  | Ok ring => (Ok ring, write_bytes m base (repeat 0 (Z.to_nat len)))
  | Err e => (Err e, m)
  end.

Definition mpsc_map (base len : Z) : result LayoutError Mpsc := from_raw_parts base len.

(** ** The shared words *)

Definition head_addr (q : Mpsc) : Z := q_base q.

Definition tail_addr (q : Mpsc) : Z := q_base q + 64.

Definition get_head (q : Mpsc) (m : mem) : Z := load64 m (head_addr q).

Definition get_tail (q : Mpsc) (m : mem) : Z := load64 m (tail_addr q).

Definition set_head (q : Mpsc) (m : mem) (v : Z) : mem := store64 m (head_addr q) v.

Definition set_tail (q : Mpsc) (m : mem) (v : Z) : mem := store64 m (tail_addr q) v.

(** The slot of a position; its turn counter is its first eight bytes. *)
Definition slot_ptr (q : Mpsc) (position : Z) : Z :=
  let slot_index := Z.land position (q_mask q) in
  let offset := MPSC_HEADER_SIZE + Z.shiftl slot_index (q_slot_shift q) in
  q_base q + offset.

Definition turn (q : Mpsc) (position : Z) : Z := Z.shiftr position (q_cap_shift q).

Definition get_turn (q : Mpsc) (m : mem) (position : Z) : Z := load64 m (slot_ptr q position).

Definition set_turn (q : Mpsc) (m : mem) (position v : Z) : mem := store64 m (slot_ptr q position) v.

Definition get_val (q : Mpsc) (m : mem) (position : Z) : T :=
  pread m (slot_ptr q position + SLOT_HEADER_SIZE).

Definition set_val (q : Mpsc) (m : mem) (position : Z) (v : T) : mem :=
  pwrite m (slot_ptr q position + SLOT_HEADER_SIZE) v.

(** The turn values that mean "free for this lap" and "published". *)
Definition free_turn (q : Mpsc) (position : Z) : Z := Z.shiftl (turn q position) 1.

Definition full_turn (q : Mpsc) (position : Z) : Z := Z.lor (Z.shiftl (turn q position) 1) 1.

(** What the consumer stores to hand the slot to the next lap. *)
Definition next_turn (q : Mpsc) (position : Z) : Z := Z.shiftl (turn q position + 1) 1.

(** ** Operations without interference *)

(** The part of [try_push] after a successful claim; [None] is the spin on a
    slot that never becomes writable. *)
Definition fill_slot (q : Mpsc) (m : mem) (position : Z) (value : T) : option mem :=
  if get_turn q m position =? free_turn q position then
    let m := set_val q m position value in
    Some (set_turn q m position (full_turn q position))
  else None.

Definition try_push (q : Mpsc) (m : mem) (value : T) : option (bool * Mpsc * mem) :=
  let tail := get_tail q m in
  let claim q := m' ← fill_slot q (set_tail q m (tail + 1)) tail value; Some (true, q, m') in
  if wrapping_sub tail (q_head_cache q) >? q_mask q then
    let head := get_head q m in
    let q := with_cache q head in
    if wrapping_sub tail head >? q_mask q then Some (false, q, m) else claim q
  else claim q.

Definition try_pop (q : Mpsc) (m : mem) : PopResult T * mem :=
  let head := get_head q m in
  if negb (get_turn q m head =? full_turn q head) then
    if head =? get_tail q m then (Empty, m) else (HeadNotReady, m)
  else
    let value := get_val q m head in
    let m := set_turn q m head (next_turn q head) in
    let m := set_head q m (head + 1) in
    (Ready value, m).

(** [pop]: it yields while the head is claimed but not published, which
    without interference never changes. *)
Definition pop (q : Mpsc) (m : mem) : option (option T * mem) :=
  match try_pop q m with
  | (Empty, m) => Some (None, m)
  | (HeadNotReady, _) => None
  | (Ready v, m) => Some (Some v, m)
  end.

Definition head_ready (q : Mpsc) (m : mem) : bool :=
  let head := get_head q m in get_turn q m head =? full_turn q head.

Definition mpsc_len (q : Mpsc) (m : mem) : Z := get_tail q m - get_head q m.

Definition cap (q : Mpsc) : Z := q_mask q + 1.
End ring.

Arguments get_val {T _}.

Arguments set_val {T _}.

Arguments try_push {T _}.

Arguments try_pop {T _}.

Arguments fill_slot {T _}.

Arguments pop {T _}.

(** ** The release queue *)

Definition RQ_SIZE : Z := 128 * PAGE_SIZE.

Definition ReleaseQueue : Type := Mpsc.

(** [data_len] is the length of the slice handed in; only its front is used. *)
Definition new_rq (m : mem) (base data_len : Z) : result LayoutError ReleaseQueue * mem :=
  if data_len <? RQ_SIZE then (Err (TooSmall data_len), m) else mpsc_new Z m base RQ_SIZE.

Definition map_rq (base data_len : Z) : result LayoutError ReleaseQueue :=
  if data_len <? RQ_SIZE then Err (TooSmall data_len) else mpsc_map Z base RQ_SIZE.
