(* ===== verification/MpscFacts.v ===== *)
(** * Ring geometry and the ring without interference

    Slots are disjoint ranges inside the mapping, positions that differ by less
    than the capacity use different slots, and the uninterrupted operations are
    those of a bounded FIFO queue. *)

From S2P Require Import Prelude Mpsc.
From Stdlib Require Import ZArith Lia.
From stdpp Require Import base numbers list gmap.

#[local] Open Scope Z_scope.

(** Positions the proofs cover: below it no counter of the ring wraps. *)
Definition POS_MAX : Z := 2 ^ 62.

Section geometry.
Context (T : Type) `{Payload T}.

Record geo (q : Mpsc) : Prop := {
  geo_cap : 0 <= q_cap_shift q < 62;
  geo_mask : q_mask q = 2 ^ q_cap_shift q - 1;
  geo_slot : 0 <= q_slot_shift q;
  geo_fits : SLOT_HEADER_SIZE + psize <= 2 ^ q_slot_shift q;
  geo_len : MPSC_HEADER_SIZE + 2 ^ q_cap_shift q * 2 ^ q_slot_shift q <= q_len q;
}.

Lemma next_power_of_two_spec (z : Z) :
  1 <= z -> z <= next_power_of_two z /\ exists k, 0 <= k /\ next_power_of_two z = 2 ^ k.
Proof.
  intros Hz. unfold next_power_of_two. case_if; bools.
  - split; [lia|]. by exists 0.
  - pose proof (Z.log2_up_spec z ltac:(lia)). split; [lia|].
    exists (Z.log2_up z). split; [apply Z.log2_up_nonneg|done].
Qed.

Lemma slot_size_pow : exists k, 0 <= k /\ slot_size T = 2 ^ k /\ SLOT_HEADER_SIZE + psize <= 2 ^ k.
Proof.
  pose proof (psize_pos (T := T)) as Hp. unfold slot_size.
  destruct (next_power_of_two_spec (SLOT_HEADER_SIZE + psize)) as [Hle (k & Hk & E)];
    [unfold SLOT_HEADER_SIZE; lia|].
  exists k. rewrite E in *. done.
Qed.

Lemma from_raw_parts_geo (base len : Z) (q : Mpsc) :
  len <= I64_MAX -> from_raw_parts T base len = Ok q ->
  geo q /\ q_base q = base /\ q_len q = len /\ q_head_cache q = 0 /\ cap q = mpsc_cap T len.
Proof.
  intros Hlen. unfold from_raw_parts. repeat (case_if; [done|]). intros [= <-]. cbn. bools.
  destruct slot_size_pow as (k & Hk & Es & Hfit). rewrite Es in *.
  rewrite Z.log2_pow2 in * by done. rewrite Z.shiftr_div_pow2 in * by done.
  assert (0 < 2 ^ k) by (apply Z.pow_pos_nonneg; lia).
  set (raw := (len - MPSC_HEADER_SIZE) / 2 ^ k) in *.
  assert (0 <= raw) by (apply Z.div_pos; lia).
  pose proof (Z.log2_spec raw ltac:(lia)) as [Hlo Hhi].
  pose proof (Z.log2_nonneg raw). rewrite Z.shiftl_1_l.
  pose proof (Z.mul_div_le (len - MPSC_HEADER_SIZE) (2 ^ k) ltac:(lia)) as Hm. fold raw in Hm.
  unfold MPSC_HEADER_SIZE, SLOT_HEADER_SIZE in *. pose proof (psize_pos (T := T)).
  split; [split; cbn; try done; try lia; try nia|].
  - split; [done|]. destruct (Z_lt_le_dec (Z.log2 raw) 62); [done|].
    pose proof (Z.pow_le_mono_r 2 62 (Z.log2 raw) ltac:(lia) ltac:(lia)) as Hbig.
    change (2 ^ 62) with 4611686018427387904 in Hbig. unfold I64_MAX in *. nia.
  - assert (2 ^ Z.log2 raw * 2 ^ k <= raw * 2 ^ k) by (apply Z.mul_le_mono_nonneg_r; lia).
    unfold MPSC_HEADER_SIZE. lia.
  - repeat (split; [done|]). unfold cap, mpsc_cap. cbn [q_mask]. unfold MPSC_HEADER_SIZE.
    rewrite Es. unfold saturating_sub. rewrite Z.max_r by lia. fold raw.
    rewrite (proj2 (Z.eqb_neq raw 0)) by lia. rewrite Z.shiftl_1_l. lia.
Qed.

(** The peer that created the mapping and the one that maps it derive the same
    geometry. *)
Lemma mem_size_cap (c : Z) :
  1 <= c -> mpsc_mem_size T c <= I64_MAX ->
  is_multiple_of (mpsc_mem_size T c) PAGE_SIZE = true /\ c <= mpsc_cap T (mpsc_mem_size T c).
Proof.
  intros Hc Hmax. destruct slot_size_pow as (k & Hk & E & Hfit).
  destruct (next_power_of_two_spec c Hc) as [Hle (j & Hj & Ej)].
  assert (0 < 2 ^ k) by (apply Z.pow_pos_nonneg; lia).
  assert (0 < 2 ^ j) by (apply Z.pow_pos_nonneg; lia).
  unfold mpsc_mem_size, MPSC_HEADER_SIZE, PAGE_SIZE in *. rewrite E, Ej in *.
  set (size := 128 + 2 ^ j * 2 ^ k) in *.
  assert (Hland : Z.land (size + 4096 - 1) (Z.lnot (4096 - 1)) = (size + 4095) / 4096 * 4096).
  { change (4096 - 1) with (Z.ones 12). rewrite <- Z.ldiff_land, Z.ldiff_ones_r by lia.
    rewrite Z.shiftl_mul_pow2, Z.shiftr_div_pow2 by lia. do 2 f_equal. lia. }
  rewrite Hland in *.
  assert (Hge : size <= (size + 4095) / 4096 * 4096).
  { pose proof (Z.div_mod (size + 4095) 4096 ltac:(lia)).
    pose proof (Z.mod_pos_bound (size + 4095) 4096 ltac:(lia)). lia. }
  set (len := (size + 4095) / 4096 * 4096) in *. split.
  - unfold is_multiple_of. rewrite (proj2 (Z.eqb_neq 4096 0)) by lia. unfold len.
    by rewrite Z_mod_mult.
  - unfold mpsc_cap, MPSC_HEADER_SIZE. rewrite E. unfold saturating_sub.
    rewrite Z.max_r by (unfold size in *; nia).
    assert (2 ^ j <= (len - 128) / 2 ^ k).
    { apply Z.div_le_lower_bound; [done|]. unfold size in *. lia. }
    rewrite (proj2 (Z.eqb_neq _ 0)) by lia. rewrite Z.shiftl_1_l.
    transitivity (2 ^ j); [lia|]. apply Z.pow_le_mono_r; [lia|].
    rewrite <- (Z.log2_pow2 j) by done. by apply Z.log2_le_mono.
Qed.

(** ** Slots *)

Section slots.
Context (q : Mpsc).
Hypothesis Hg : geo q.

Definition idx (p : Z) : Z := p mod cap q.

Lemma cap_eq : cap q = 2 ^ q_cap_shift q.
Proof. unfold cap. rewrite (geo_mask q Hg). lia. Qed.

Lemma cap_pos : 0 < cap q.
Proof. rewrite cap_eq. apply Z.pow_pos_nonneg; [lia|apply Hg]. Qed.

Lemma cap_bound : cap q <= POS_MAX.
Proof. rewrite cap_eq. unfold POS_MAX. apply Z.pow_le_mono_r; [lia|]. pose proof (geo_cap q Hg). lia. Qed.

Lemma slot_ptr_eq (p : Z) :
  slot_ptr q p = q_base q + MPSC_HEADER_SIZE + idx p * 2 ^ q_slot_shift q.
Proof.
  unfold slot_ptr, idx. rewrite (geo_mask q Hg), land_pow2_mask by apply Hg.
  rewrite Z.shiftl_mul_pow2 by apply Hg. rewrite cap_eq. lia.
Qed.

Lemma idx_bound (p : Z) : 0 <= idx p < cap q.
Proof. apply Z.mod_pos_bound, cap_pos. Qed.

(** Every slot lies inside the mapping, behind the ring header. *)
Lemma slot_bounds (p : Z) :
  q_base q + MPSC_HEADER_SIZE <= slot_ptr q p /\
  slot_ptr q p + SLOT_HEADER_SIZE + psize <= q_base q + q_len q.
Proof.
  rewrite slot_ptr_eq. pose proof (idx_bound p) as Hi. rewrite cap_eq in Hi.
  destruct Hg as [Hc Hm Hs Hf Hl]. assert (0 < 2 ^ q_slot_shift q) by (apply Z.pow_pos_nonneg; lia).
  nia.
Qed.

Lemma slot_same (p p' : Z) : idx p = idx p' -> slot_ptr q p = slot_ptr q p'.
Proof. intros E. by rewrite !slot_ptr_eq, E. Qed.

Lemma slot_disjoint (p p' : Z) :
  idx p <> idx p' ->
  slot_ptr q p + SLOT_HEADER_SIZE + psize <= slot_ptr q p' \/
  slot_ptr q p' + SLOT_HEADER_SIZE + psize <= slot_ptr q p.
Proof.
  intros Hne. rewrite !slot_ptr_eq. destruct Hg as [Hc Hm Hs Hf Hl].
  assert (0 < 2 ^ q_slot_shift q) by (apply Z.pow_pos_nonneg; lia).
  destruct (Z_lt_le_dec (idx p) (idx p')); [left|right]; nia.
Qed.

(** Positions of one lap window use one slot each. *)
Lemma idx_window (p p' lo : Z) :
  lo <= p < lo + cap q -> lo <= p' < lo + cap q -> idx p = idx p' -> p = p'.
Proof.
  intros H1 H2 E. unfold idx in E. pose proof cap_pos.
  pose proof (Z.div_mod p (cap q) ltac:(lia)). pose proof (Z.div_mod p' (cap q) ltac:(lia)).
  assert (p / cap q = p' / cap q); [|lia].
  destruct (Z.lt_trichotomy (p / cap q) (p' / cap q)) as [?|[?|?]]; [nia|done|nia].
Qed.

Lemma idx_next (p : Z) : idx (p + cap q) = idx p.
Proof. unfold idx. rewrite <- (Z.mul_1_l (cap q)) at 1. apply Z_mod_plus_full. Qed.

(** ** Turns *)

Lemma turn_eq (p : Z) : turn q p = p / cap q.
Proof. unfold turn. rewrite Z.shiftr_div_pow2 by apply Hg. by rewrite cap_eq. Qed.

Lemma free_turn_eq (p : Z) : free_turn q p = 2 * (p / cap q).
Proof. unfold free_turn. rewrite turn_eq, Z.shiftl_mul_pow2 by lia. lia. Qed.

Lemma full_turn_eq (p : Z) : full_turn q p = 2 * (p / cap q) + 1.
Proof.
  unfold full_turn. rewrite turn_eq, Z.shiftl_mul_pow2 by lia. change (2 ^ 1) with 2.
  assert (Z.land (p / cap q * 2) 1 = 0) as E.
  { change 1 with (Z.ones 1). rewrite Z.land_ones by lia. apply Z_mod_mult. }
  pose proof (Z.add_lor_land (p / cap q * 2) 1). lia.
Qed.

Lemma next_turn_free (p : Z) : next_turn q p = free_turn q (p + cap q).
Proof.
  rewrite free_turn_eq. unfold next_turn. rewrite turn_eq, Z.shiftl_mul_pow2 by lia.
  replace (p + cap q) with (p + 1 * cap q) by lia. rewrite Z.div_add; [lia|].
  pose proof cap_pos. lia.
Qed.

Lemma turn_range (p : Z) : 0 <= p < POS_MAX + cap q ->
  0 <= free_turn q p < W64 /\ 0 <= full_turn q p < W64.
Proof.
  intros Hp. rewrite free_turn_eq, full_turn_eq. pose proof cap_pos as Hc.
  assert (0 <= p / cap q) by (apply Z.div_pos; lia).
  pose proof (Z.mul_div_le p (cap q) Hc).
  assert (p / cap q <= POS_MAX) by (unfold POS_MAX in *; nia).
  unfold W64, POS_MAX in *. change (2 ^ 62) with 4611686018427387904 in *. lia.
Qed.

Lemma free_full_ne (p p' : Z) : free_turn q p <> full_turn q p'.
Proof. rewrite free_turn_eq, full_turn_eq. lia. Qed.

(** ** Reads after writes *)

Lemma get_set_head (m : mem) (v : Z) : 0 <= v < W64 -> get_head q (set_head q m v) = v.
Proof. intros. unfold get_head, set_head. rewrite load64_store64_same. by apply wrap64_small. Qed.

Lemma get_set_tail (m : mem) (v : Z) : 0 <= v < W64 -> get_tail q (set_tail q m v) = v.
Proof. intros. unfold get_tail, set_tail. rewrite load64_store64_same. by apply wrap64_small. Qed.

Lemma get_head_set_tail (m : mem) (v : Z) : get_head q (set_tail q m v) = get_head q m.
Proof. apply (load_store_other 8 8). unfold head_addr, tail_addr. simpl. lia. Qed.

Lemma get_tail_set_head (m : mem) (v : Z) : get_tail q (set_head q m v) = get_tail q m.
Proof. apply (load_store_other 8 8). unfold head_addr, tail_addr. simpl. lia. Qed.

(** A read of a header word after a write into a slot. *)
Lemma load64_header (m m' : mem) (p a : Z) :
  q_base q <= a -> a + 8 <= q_base q + MPSC_HEADER_SIZE ->
  mem_frame (slot_ptr q p) (slot_ptr q p + SLOT_HEADER_SIZE + psize) m m' -> load64 m' a = load64 m a.
Proof.
  intros H1 H2 Hf. apply (load_frame 8 _ _ _ _ _ Hf). pose proof (slot_bounds p). simpl. lia.
Qed.

Lemma set_turn_frame (m : mem) (p v : Z) :
  mem_frame (slot_ptr q p) (slot_ptr q p + SLOT_HEADER_SIZE) m (set_turn q m p v).
Proof. apply mem_frame_store; unfold SLOT_HEADER_SIZE; simpl; lia. Qed.

Lemma set_val_frame (m : mem) (p : Z) (v : T) :
  mem_frame (slot_ptr q p + SLOT_HEADER_SIZE) (slot_ptr q p + SLOT_HEADER_SIZE + psize)
    m (set_val q m p v).
Proof. apply pwrite_frame. Qed.

Lemma slot_turn_frame (m : mem) (p v : Z) :
  mem_frame (slot_ptr q p) (slot_ptr q p + SLOT_HEADER_SIZE + psize) m (set_turn q m p v).
Proof.
  pose proof (psize_pos (T := T)). eapply mem_frame_weaken; [| |apply set_turn_frame]; lia.
Qed.

Lemma slot_val_frame (m : mem) (p : Z) (v : T) :
  mem_frame (slot_ptr q p) (slot_ptr q p + SLOT_HEADER_SIZE + psize) m (set_val q m p v).
Proof.
  eapply mem_frame_weaken; [| |apply set_val_frame]; unfold SLOT_HEADER_SIZE; lia.
Qed.

Lemma get_head_slot (m m' : mem) (p : Z) :
  mem_frame (slot_ptr q p) (slot_ptr q p + SLOT_HEADER_SIZE + psize) m m' ->
  get_head q m' = get_head q m /\ get_tail q m' = get_tail q m.
Proof.
  intros Hf. split; apply (load64_header _ _ p); try done;
    unfold head_addr, tail_addr, MPSC_HEADER_SIZE; lia.
Qed.

Lemma get_turn_set_turn (m : mem) (p p' v : Z) : 0 <= v < W64 ->
  get_turn q (set_turn q m p v) p' = if idx p =? idx p' then v else get_turn q m p'.
Proof.
  intros Hv. unfold get_turn, set_turn. case_if; bools.
  - rewrite (slot_same p p' E), load64_store64_same. by apply wrap64_small.
  - apply (load_store_other 8 8). pose proof (slot_disjoint p p' E).
    pose proof (psize_pos (T := T)). unfold SLOT_HEADER_SIZE in *. simpl. lia.
Qed.

Lemma get_turn_set_val (m : mem) (p p' : Z) (v : T) :
  get_turn q (set_val q m p v) p' = get_turn q m p'.
Proof.
  unfold get_turn. apply (load_frame 8 _ _ _ _ _ (set_val_frame m p v)).
  destruct (Z.eq_dec (idx p) (idx p')) as [E|E].
  - rewrite (slot_same p p' E). unfold SLOT_HEADER_SIZE. simpl. lia.
  - pose proof (slot_disjoint p p' E). pose proof (psize_pos (T := T)).
    unfold SLOT_HEADER_SIZE in *. simpl. lia.
Qed.

Lemma get_val_frame (m m' : mem) (lo hi p : Z) :
  mem_frame lo hi m m' ->
  (slot_ptr q p + SLOT_HEADER_SIZE + psize <= lo \/ hi <= slot_ptr q p + SLOT_HEADER_SIZE) ->
  get_val q m' p = get_val q m p.
Proof. intros Hf Hd. apply pread_ext. intros x Hx. apply Hf. lia. Qed.

Lemma get_val_set_turn (m : mem) (p p' v : Z) :
  get_val q (set_turn q m p v) p' = get_val q m p'.
Proof.
  apply (get_val_frame _ _ _ _ _ (set_turn_frame m p v)).
  destruct (Z.eq_dec (idx p) (idx p')) as [E|E].
  - rewrite (slot_same p p' E). lia.
  - pose proof (slot_disjoint p p' E). pose proof (psize_pos (T := T)).
    unfold SLOT_HEADER_SIZE in *. lia.
Qed.

Lemma get_val_set_val (m : mem) (p p' : Z) (v : T) : pok v ->
  get_val q (set_val q m p v) p' = if idx p =? idx p' then v else get_val q m p'.
Proof.
  intros Hv. case_if; bools.
  - unfold get_val, set_val. rewrite (slot_same p p' E). by apply pread_pwrite.
  - apply (get_val_frame _ _ _ _ _ (set_val_frame m p v)).
    pose proof (slot_disjoint p p' E). unfold SLOT_HEADER_SIZE in *. lia.
Qed.

(** A header word write leaves the slots. *)
Lemma header_write_slots (m m' : mem) (p : Z) :
  mem_frame (q_base q) (q_base q + MPSC_HEADER_SIZE) m m' ->
  get_turn q m' p = get_turn q m p /\ get_val q m' p = get_val q m p.
Proof.
  intros Hf. pose proof (slot_bounds p). pose proof (psize_pos (T := T)).
  unfold SLOT_HEADER_SIZE in *. split.
  - apply (load_frame 8 _ _ _ _ _ Hf). simpl. lia.
  - apply (get_val_frame _ _ _ _ _ Hf). unfold SLOT_HEADER_SIZE. lia.
Qed.

Lemma set_head_frame (m : mem) (v : Z) :
  mem_frame (q_base q) (q_base q + MPSC_HEADER_SIZE) m (set_head q m v).
Proof. apply mem_frame_store; unfold head_addr, MPSC_HEADER_SIZE; simpl; lia. Qed.

Lemma set_tail_frame (m : mem) (v : Z) :
  mem_frame (q_base q) (q_base q + MPSC_HEADER_SIZE) m (set_tail q m v).
Proof. apply mem_frame_store; unfold tail_addr, MPSC_HEADER_SIZE; simpl; lia. Qed.
End slots.
End geometry.
