(* ===== verification/MpscSeq.v ===== *)
(** * The ring as a bounded queue

    Without interference the ring is a FIFO queue of at most [cap] values:
    creation, push, pop and the observers against a list. *)

From Stdlib Require Import ZArith Lia.
From stdpp Require Import base numbers list gmap.
From S2P Require Import Prelude Mpsc MpscFacts.

#[local] Open Scope Z_scope.

Section seq.
Context {T : Type} `{Payload T}.

(** Every claimed position is published and holds its value; every other slot
    of the window is free for its lap. *)
Record ring_ok (q : Mpsc) (m : mem) (vals : list T) : Prop := {
  rk_geo : geo T q;
  rk_head : 0 <= get_head q m;
  rk_tail : get_tail q m = get_head q m + Z.of_nat (length vals);
  rk_max : get_tail q m < POS_MAX;
  rk_fits : Z.of_nat (length vals) <= cap q;
  rk_cache : 0 <= q_head_cache q <= get_head q m;
  rk_full : forall i v, vals !! i = Some v ->
    get_turn q m (get_head q m + Z.of_nat i) = full_turn q (get_head q m + Z.of_nat i) /\
    get_val q m (get_head q m + Z.of_nat i) = v;
  rk_free : forall p, get_tail q m <= p < get_head q m + cap q ->
    get_turn q m p = free_turn q p;
}.

Lemma geo_cache (q : Mpsc) (h : Z) : geo T q -> geo T (with_cache q h).
Proof. by intros []. Qed.

(** ** Creation *)

Lemma mpsc_new_ok (m m' : mem) (base len : Z) (q : Mpsc) :
  len <= I64_MAX -> mpsc_new T m base len = (Ok q, m') ->
  ring_ok q m' [] /\ q_base q = base /\ q_len q = len /\ cap q = mpsc_cap T len /\
  mem_frame base (base + len) m m'.
Proof.
  intros Hlen Hn. unfold mpsc_new in Hn.
  destruct (from_raw_parts T base len) as [q0|e] eqn:E; [|done]. injection Hn as -> <-.
  destruct (from_raw_parts_geo T base len q Hlen E) as (Hg & Eb & El & Ec & Ecap).
  assert (Hlen0 : 0 <= len).
  { pose proof (geo_len _ _ Hg) as HL. pose proof (geo_cap _ _ Hg). pose proof (geo_slot _ _ Hg).
    rewrite El in HL. unfold MPSC_HEADER_SIZE in HL.
    assert (0 < 2 ^ q_cap_shift q) by (apply Z.pow_pos_nonneg; lia).
    assert (0 < 2 ^ q_slot_shift q) by (apply Z.pow_pos_nonneg; lia). nia. }
  set (m' := write_bytes m base (repeat 0 (Z.to_nat len))).
  assert (Hz : forall a, base <= a -> a + 8 <= base + len -> load64 m' a = 0).
  { intros a H1 H2. apply (load_zero 8). intros x Hx. apply rd_zeroed. simpl in Hx. lia. }
  pose proof (slot_bounds T q Hg 0) as [S1 S2]. unfold MPSC_HEADER_SIZE, SLOT_HEADER_SIZE in *.
  pose proof (psize_pos (T := T)). rewrite Eb, El in *.
  assert (Eh : get_head q m' = 0) by (apply Hz; unfold head_addr; lia).
  assert (Et : get_tail q m' = 0) by (apply Hz; unfold tail_addr; lia).
  split; [|repeat (split; [done|])].
  - split; try done; rewrite ?Eh, ?Et; cbn; try lia; try done.
    + pose proof (cap_pos T q Hg). lia.
    + intros p Hp. unfold get_turn. pose proof (slot_bounds T q Hg p) as [P1 P2].
      unfold MPSC_HEADER_SIZE, SLOT_HEADER_SIZE in *. rewrite Hz by lia.
      rewrite (free_turn_eq T q Hg), Z.div_small by lia. done.
  - apply mem_frame_write_bytes; [lia|]. rewrite repeat_length. lia.
Qed.

(** ** Push *)

Lemma wrapping_sub_small (a b : Z) : 0 <= b <= a -> a < W64 -> wrapping_sub a b = a - b.
Proof. intros. unfold wrapping_sub. apply wrap64_small. lia. Qed.

(** The window a ring uses, in one place. *)
Ltac ring_range q Hg :=
  pose proof (cap_pos T q Hg); pose proof (cap_bound T q Hg);
  unfold POS_MAX, W64, I64_MAX in *; change (2 ^ 62) with 4611686018427387904 in *.

(** Claiming the tail position and filling its slot. *)
Lemma claim_ok (q q' : Mpsc) (m : mem) (vals : list T) (v : T) :
  ring_ok q m vals -> Z.of_nat (length vals) < cap q -> get_tail q m + 1 < POS_MAX -> pok v ->
  (exists h, q' = with_cache q h /\ 0 <= h <= get_head q m) ->
  exists m', fill_slot q' (set_tail q' m (get_tail q m + 1)) (get_tail q m) v = Some m' /\
    ring_ok q' m' (vals ++ [v]) /\ get_head q m' = get_head q m /\
    mem_frame (q_base q) (q_base q + q_len q) m m'.
Proof.
  intros [Hg Hh Ht Hmax Hfit Hc Hful Hfre] Hlt Hmax' Hv (hc & -> & Hhc).
  pose proof (geo_cache q hc Hg) as Hg'. set (q' := with_cache q hc) in *.
  set (t := get_tail q m) in *. set (m1 := set_tail q' m (t + 1)).
  change (get_head q) with (get_head q') in *. change (get_turn q) with (get_turn q') in *.
  change (@get_val T H q) with (@get_val T H q') in *. change (free_turn q) with (free_turn q') in *.
  change (full_turn q) with (full_turn q') in *. change (cap q) with (cap q') in *.
  assert (Hs1 : forall p, get_turn q' m1 p = get_turn q' m p /\ get_val q' m1 p = get_val q' m p).
  { intros p. apply (header_write_slots T q' Hg'), set_tail_frame. }
  unfold fill_slot. rewrite (proj1 (Hs1 t)), Hfre by lia. rewrite Z.eqb_refl.
  set (m2 := set_val q' m1 t v). set (m3 := set_turn q' m2 t (full_turn q' t)).
  exists m3. split; [done|].
  destruct (get_head_slot T q' Hg' m1 m2 t (slot_val_frame T q' m1 t v)) as [Eh2 Et2].
  destruct (get_head_slot T q' Hg' m2 m3 t (slot_turn_frame T q' m2 t _)) as [Eh3 Et3].
  assert (Eh : get_head q' m3 = get_head q' m).
  { rewrite Eh3, Eh2. unfold m1. apply get_head_set_tail. }
  assert (Et : get_tail q' m3 = t + 1).
  { rewrite Et3, Et2. unfold m1. apply get_set_tail. ring_range q' Hg'. lia. }
  destruct (turn_range T q' Hg' t) as [R1 R2]; [ring_range q' Hg'; lia|].
  assert (Htu : forall p, get_turn q' m3 p =
    if idx q' t =? idx q' p then full_turn q' t else get_turn q' m p).
  { intros p. unfold m3. rewrite (get_turn_set_turn T q' Hg' m2 t p (full_turn q' t) R2).
    case_if; [done|]. unfold m2. rewrite (get_turn_set_val T q' Hg'). apply Hs1. }
  assert (Hva : forall p, get_val q' m3 p = if idx q' t =? idx q' p then v else get_val q' m p).
  { intros p. unfold m3. rewrite (get_val_set_turn T q' Hg'). unfold m2.
    rewrite (get_val_set_val T q' Hg') by done. case_if; [done|]. apply Hs1. }
  assert (Hne : forall p, get_head q' m <= p < get_head q' m + cap q' -> p <> t ->
    (idx q' t =? idx q' p) = false).
  { intros p Hp Hn. apply Z.eqb_neq. intros E. apply Hn. symmetry.
    apply (idx_window T q' Hg' t p (get_head q' m)); [lia|lia|done]. }
  split.
  - split; rewrite ?Eh, ?Et; try done.
    + rewrite length_app. cbn. lia.
    + rewrite length_app. cbn. lia.
    + intros i w Hw. apply lookup_app_Some in Hw as [Hw|[Hi Hw]].
      * pose proof (lookup_lt_Some _ _ _ Hw). rewrite Htu, Hva, Hne by lia. by apply Hful.
      * apply list_lookup_singleton_Some in Hw as [Hi0 <-].
        replace (get_head q' m + Z.of_nat i) with t by lia.
        by rewrite Htu, Hva, Z.eqb_refl.
    + intros p Hp. rewrite Htu, Hne by lia. apply Hfre. lia.
  - split; [done|]. destruct (slot_bounds T q' Hg' t) as [B1 B2]. change (q_base q) with (q_base q').
    change (q_len q) with (q_len q'). unfold MPSC_HEADER_SIZE, SLOT_HEADER_SIZE in *.
    pose proof (psize_pos (T := T)).
    assert (F1 : mem_frame (q_base q') (q_base q' + q_len q') m m1).
    { eapply mem_frame_weaken; [| |apply set_tail_frame]; unfold MPSC_HEADER_SIZE; lia. }
    assert (F2 : mem_frame (q_base q') (q_base q' + q_len q') m1 m2).
    { eapply mem_frame_weaken; [| |apply (slot_val_frame T q')]; unfold SLOT_HEADER_SIZE; lia. }
    eapply mem_frame_trans; [exact F1|]. eapply mem_frame_trans; [exact F2|].
    eapply mem_frame_weaken; [| |apply (slot_turn_frame T q')]; unfold SLOT_HEADER_SIZE; lia.
Qed.

Lemma try_push_spec (q : Mpsc) (m : mem) (vals : list T) (v : T) :
  ring_ok q m vals -> get_tail q m + 1 < POS_MAX -> pok v ->
  exists b q' m', try_push q m v = Some (b, q', m') /\
    b = (Z.of_nat (length vals) <? cap q) /\
    (exists h, q' = with_cache q h /\ get_head q m' = get_head q m) /\
    ring_ok q' m' (if b then vals ++ [v] else vals) /\
    mem_frame (q_base q) (q_base q + q_len q) m m' /\ (b = false -> m' = m).
Proof.
  intros Hok Hmax Hv. pose proof Hok as [Hg Hh Ht Hm Hfit Hc Hful Hfre].
  assert (Hmask : q_mask q = cap q - 1) by (unfold cap; lia).
  assert (Hclaim : forall q', (exists h, q' = with_cache q h /\ 0 <= h <= get_head q m) ->
    Z.of_nat (length vals) < cap q ->
    exists b q1 m',
      (m1 ← fill_slot q' (set_tail q' m (get_tail q m + 1)) (get_tail q m) v; Some (true, q', m1))
        = Some (b, q1, m') /\ b = (Z.of_nat (length vals) <? cap q) /\
      (exists h, q1 = with_cache q h /\ get_head q m' = get_head q m) /\ ring_ok q1 m' (if b then vals ++ [v] else vals) /\
      mem_frame (q_base q) (q_base q + q_len q) m m' /\ (b = false -> m' = m)).
  { intros q' Hq Hlt. destruct (claim_ok q q' m vals v Hok Hlt Hmax Hv Hq) as (m' & E & Hok' & Ehd & Hf).
    rewrite E. cbn [mbind option_bind]. exists true, q', m'.
    rewrite (proj2 (Z.ltb_lt _ _) Hlt). destruct Hq as (h & -> & _).
    repeat (split; [by eauto|]). done. }
  unfold try_push.
  rewrite wrapping_sub_small by (ring_range q Hg; lia).
  case_if; bools.
  - rewrite wrapping_sub_small by (ring_range q Hg; lia).
    destruct (get_tail q m - get_head q m >? q_mask (with_cache q (get_head q m))) eqn:E2;
      cbn [q_mask with_cache] in E2; bools.
    + exists false, (with_cache q (get_head q m)), m. split; [done|].
      split; [symmetry; apply Z.ltb_ge; lia|]. split; [by eexists|].
      split; [|split; [apply mem_frame_refl|done]]. split; try done; try (by apply geo_cache).
    + apply Hclaim; [|lia]. exists (get_head q m). split; [done|lia].
  - destruct (Hclaim q) as (b & q1 & m' & E1 & Hrest); [|lia|].
    + exists (q_head_cache q). split; [by destruct q|lia].
    + exists b, q1, m'. done.
Qed.

(** ** Pop *)

Lemma try_pop_spec (q : Mpsc) (m : mem) (vals : list T) :
  ring_ok q m vals ->
  match vals with
  | [] => try_pop q m = (Empty, m)
  | v :: rest => exists m', try_pop q m = (Ready v, m') /\ ring_ok q m' rest /\
      get_tail q m' = get_tail q m /\ mem_frame (q_base q) (q_base q + q_len q) m m'
  end.
Proof.
  intros [Hg Hh Ht Hm Hfit Hc Hful Hfre]. unfold try_pop. destruct vals as [|v rest].
  - cbn in Ht. rewrite Hfre by (pose proof (cap_pos T q Hg); lia).
    rewrite (proj2 (Z.eqb_neq _ _)) by apply (free_full_ne T q Hg). cbn [negb].
    rewrite Ht, Z.add_0_r, Z.eqb_refl. done.
  - cbn [length] in *. destruct (Hful 0%nat v eq_refl) as [Htu Hva].
    rewrite Z.add_0_r in Htu, Hva. rewrite Htu, Z.eqb_refl, Hva. cbn [negb].
    set (h := get_head q m) in *. set (m1 := set_turn q m h (next_turn q h)).
    set (m2 := set_head q m1 (h + 1)). exists m2. split; [done|].
    pose proof (cap_pos T q Hg) as Hcp. pose proof (cap_bound T q Hg).
    destruct (turn_range T q Hg (h + cap q)) as [R1 _]; [lia|].
    destruct (get_head_slot T q Hg m m1 h (slot_turn_frame T q m h _)) as [Eh1 Et1].
    assert (Eh : get_head q m2 = h + 1).
    { apply get_set_head. ring_range q Hg. lia. }
    assert (Et : get_tail q m2 = get_tail q m).
    { unfold m2. rewrite get_tail_set_head. done. }
    assert (Htu2 : forall p, get_turn q m2 p =
      if idx q h =? idx q p then free_turn q (h + cap q) else get_turn q m p).
    { intros p. rewrite (proj1 (header_write_slots T q Hg m1 m2 p (set_head_frame q m1 (h + 1)))).
      unfold m1. rewrite (get_turn_set_turn T q Hg), (next_turn_free T q Hg); [done|].
      by rewrite (next_turn_free T q Hg). }
    assert (Hva2 : forall p, get_val q m2 p = get_val q m p).
    { intros p. rewrite (proj2 (header_write_slots T q Hg m1 m2 p (set_head_frame q m1 (h + 1)))).
      unfold m1. apply (get_val_set_turn T q Hg). }
    assert (Hne : forall p, h < p < h + cap q -> (idx q h =? idx q p) = false).
    { intros p Hp. apply Z.eqb_neq. intros E.
      assert (h = p); [|lia]. apply (idx_window T q Hg h p h); [lia|lia|done]. }
    split; [|split; [done|]].
    + split; rewrite ?Eh, ?Et; try done; try lia.
      * intros i w Hw. pose proof (lookup_lt_Some _ _ _ Hw).
        destruct (Hful (S i) w Hw) as [F1 F2]. rewrite Htu2, Hva2, Hne by lia.
        replace (h + 1 + Z.of_nat i) with (h + Z.of_nat (S i)) by lia. done.
      * intros p Hp. destruct (Z.eq_dec p (h + cap q)) as [->|Hnp].
        -- by rewrite Htu2, (idx_next q), Z.eqb_refl.
        -- rewrite Htu2, Hne by lia. apply Hfre. lia.
    + destruct (slot_bounds T q Hg h) as [B1 B2]. unfold MPSC_HEADER_SIZE, SLOT_HEADER_SIZE in *.
      pose proof (psize_pos (T := T)).
      eapply mem_frame_trans; [eapply mem_frame_weaken; [| |apply (slot_turn_frame T q)]
        |eapply mem_frame_weaken; [| |apply set_head_frame]];
        unfold MPSC_HEADER_SIZE, SLOT_HEADER_SIZE; lia.
Qed.

Lemma len_spec (q : Mpsc) (m : mem) (vals : list T) :
  ring_ok q m vals -> mpsc_len q m = Z.of_nat (length vals) /\
  head_ready q m = match vals with [] => false | _ => true end.
Proof.
  intros [Hg Hh Ht Hm Hfit Hc Hful Hfre]. unfold mpsc_len, head_ready. split; [lia|].
  destruct vals as [|v rest].
  - cbn in Ht. rewrite Hfre by (pose proof (cap_pos T q Hg); lia).
    apply Z.eqb_neq. apply (free_full_ne T q Hg).
  - destruct (Hful 0%nat v eq_refl) as [Htu _]. rewrite Z.add_0_r in Htu.
    rewrite Htu. apply Z.eqb_refl.
Qed.

(** The ring is untouched by writes outside its mapping. *)
Lemma ring_ok_frame (q : Mpsc) (m m' : mem) (vals : list T) :
  ring_ok q m vals -> mem_agree (q_base q) (q_base q + q_len q) m' m -> ring_ok q m' vals.
Proof.
  intros [Hg Hh Ht Hm Hfit Hc Hful Hfre] Ha.
  assert (Hw : forall a, q_base q <= a -> a + 8 <= q_base q + q_len q -> load64 m' a = load64 m a).
  { intros a H1 H2. apply (load_ext 8). intros x Hx. apply Ha. simpl in Hx. lia. }
  pose proof (slot_bounds T q Hg) as Hb. unfold MPSC_HEADER_SIZE, SLOT_HEADER_SIZE in *.
  pose proof (psize_pos (T := T)). pose proof (Hb 0) as [B1 B2].
  assert (Eh : get_head q m' = get_head q m) by (apply Hw; unfold head_addr; lia).
  assert (Et : get_tail q m' = get_tail q m) by (apply Hw; unfold tail_addr; lia).
  assert (Eu : forall p, get_turn q m' p = get_turn q m p).
  { intros p. destruct (Hb p). apply Hw; lia. }
  assert (Ev : forall p, get_val q m' p = get_val q m p).
  { intros p. destruct (Hb p). apply pread_ext. intros x Hx. apply Ha. unfold SLOT_HEADER_SIZE in *. lia. }
  split; rewrite ?Eh, ?Et; try done.
  - intros i v Hi. rewrite Eu, Ev. by apply Hful.
  - intros p Hp. rewrite Eu. by apply Hfre.
Qed.
End seq.
