(* ===== verification/MpscConc.v ===== *)
(** * The ring under interleaving

    Every shared access of [try_push] and [try_pop] is one step; any number of
    producer threads and the single consumer interleave freely.  Steps act on
    the bytes of the mapping in one global order (sequential consistency), but for the
    spin of [try_push], whose load may return an older turn; the Acquire/Release
    annotations are not weakened further.  The ghost lists
    record the values in the order their positions were claimed and popped. *)

From Stdlib Require Import ZArith Lia.
From stdpp Require Import base numbers list gmap relations.
From S2P Require Import Prelude Mpsc MpscFacts MpscSeq.

#[local] Open Scope Z_scope.

(** Where a producer is inside [try_push], with its local variables. *)
Inductive ppc (T : Type) : Type :=
| PLoadTail (v : T)
| PLoadCache (v : T) (tail : Z)
| PLoadHead (v : T) (tail : Z)
| PStoreCache (v : T) (tail head : Z)
| PCas (v : T) (tail : Z)
| PSpin (v : T) (position : Z)
| PWrite (v : T) (position : Z)
| PPublish (v : T) (position : Z)
| PDone (r : bool).

Arguments PLoadTail {T}.

Arguments PLoadCache {T}.

Arguments PLoadHead {T}.

Arguments PStoreCache {T}.

Arguments PCas {T}.

Arguments PSpin {T}.

Arguments PWrite {T}.

Arguments PPublish {T}.

Arguments PDone {T}.

(** Where the consumer is inside [try_pop]. *)
Inductive cpc (T : Type) : Type :=
| CIdle (last : PopResult T)
| CTurn (head : Z)
| CTail (head : Z)
| CRead (head : Z)
| CRelease (head : Z) (v : T)
| CAdvance (head : Z) (v : T).

Arguments CIdle {T}.

Arguments CTurn {T}.

Arguments CTail {T}.

Arguments CRead {T}.

Arguments CRelease {T}.

Arguments CAdvance {T}.

Section conc.
Context {T : Type} `{Payload T}.

Record cstate : Type := mkC {
  c_mem : mem;
  c_cache : Z;
  c_prods : list (ppc T);
  c_cons : cpc T;
  c_claims : list T;
  c_popped : list T;
}.

(** One atomic action of a producer: memory, head cache, next counter, and the
    value whose position it claimed.  [weak] is a spurious failure of
    [compare_exchange_weak] and, in the spin, a load that still returns an older turn: a
    producer that got its room from the Relaxed [head_cache], which another one filled,
    need not see yet that the consumer has released the slot.  The position counter of a claim stays below
    [POS_MAX]. *)
Definition prod_step (q : Mpsc) (m : mem) (hc : Z) (pc : ppc T) (weak : bool)
    : option (mem * Z * ppc T * option T) :=
  match pc with
  | PLoadTail v => Some (m, hc, PLoadCache v (get_tail q m), None)
  | PLoadCache v tail =>
      if wrapping_sub tail hc >? q_mask q
      then Some (m, hc, PLoadHead v tail, None)
      else Some (m, hc, PCas v tail, None)
  | PLoadHead v tail => Some (m, hc, PStoreCache v tail (get_head q m), None)
  | PStoreCache v tail head =>
      if wrapping_sub tail head >? q_mask q
      then Some (m, head, PDone false, None)
      else Some (m, head, PCas v tail, None)
  | PCas v tail =>
      let current := get_tail q m in
      if negb weak && (current =? tail) then
        if tail + 1 <? POS_MAX
        then Some (set_tail q m (tail + 1), hc, PSpin v tail, Some v)
        else None
      else Some (m, hc, PLoadCache v current, None)
  | PSpin v position =>
      if negb weak && (get_turn q m position =? free_turn q position)
      then Some (m, hc, PWrite v position, None)
      else Some (m, hc, PSpin v position, None)
  | PWrite v position => Some (set_val q m position v, hc, PPublish v position, None)
  | PPublish v position =>
      Some (set_turn q m position (full_turn q position), hc, PDone true, None)
  | PDone _ => None
  end.

(** One atomic action of the consumer, with the value it returned. *)
Definition cons_step (q : Mpsc) (m : mem) (pc : cpc T) : mem * cpc T * option T :=
  match pc with
  | CIdle _ => (m, CTurn (get_head q m), None)
  | CTurn head =>
      if negb (get_turn q m head =? full_turn q head)
      then (m, CTail head, None) else (m, CRead head, None)
  | CTail head =>
      if head =? get_tail q m then (m, CIdle Empty, None) else (m, CIdle HeadNotReady, None)
  | CRead head => (m, CRelease head (get_val q m head), None)
  | CRelease head v => (set_turn q m head (next_turn q head), CAdvance head v, None)
  | CAdvance head v => (set_head q m (head + 1), CIdle (Ready v), Some v)
  end.

(** Who moves next: a thread starts a call, a producer acts, the consumer acts. *)
Inductive choice : Type :=
| Call (i : nat) (v : T)
| Prod (i : nat) (weak : bool)
| Cons.

Definition do_step (q : Mpsc) (c : choice) (st : cstate) : option cstate :=
  match c with
  | Call i v =>
      match c_prods st !! i with
      | Some (PDone _) =>
          Some (mkC (c_mem st) (c_cache st) (<[i := PLoadTail v]> (c_prods st))
                    (c_cons st) (c_claims st) (c_popped st))
      | _ => None
      end
  | Prod i weak =>
      pc ← c_prods st !! i;
      '(m, hc, pc', ev) ← prod_step q (c_mem st) (c_cache st) pc weak;
      Some (mkC m hc (<[i := pc']> (c_prods st)) (c_cons st)
                (c_claims st ++ option_list ev) (c_popped st))
  | Cons =>
      let '(m, pc', ev) := cons_step q (c_mem st) (c_cons st) in
      Some (mkC m (c_cache st) (c_prods st) pc' (c_claims st) (c_popped st ++ option_list ev))
  end.

(** Calls pass values the payload can represent. *)
Definition good_choice (c : choice) : Prop :=
  match c with Call _ v => pok v | _ => True end.

Definition cstep (q : Mpsc) (st st' : cstate) : Prop :=
  exists c, good_choice c /\ do_step q c st = Some st'.

Fixpoint exec (q : Mpsc) (cs : list choice) (st : cstate) : option cstate :=
  match cs with
  | [] => Some st
  | c :: cs => st' ← do_step q c st; exec q cs st'
  end.

(** [n] idle producers over a freshly created ring. *)
Definition cinit (m : mem) (n : nat) : cstate :=
  mkC m 0 (replicate n (PDone true)) (CIdle Empty) [] [].

Lemma exec_rtc (q : Mpsc) (cs : list choice) (st st' : cstate) :
  Forall good_choice cs -> exec q cs st = Some st' -> rtc (cstep q) st st'.
Proof.
  revert st. induction cs as [|c cs IH]; intros st Hg He.
  - injection He as ->. apply rtc_refl.
  - apply Forall_cons in Hg as [Hc Hg]. cbn in He.
    destruct (do_step q c st) as [st1|] eqn:E; [|done]. cbn in He.
    apply rtc_l with st1; [by exists c|by apply IH].
Qed.

(** ** The invariant *)

(** The position a producer has claimed and not yet published. *)
Definition held_pos (pc : ppc T) : option Z :=
  match pc with
  | PSpin _ p | PWrite _ p | PPublish _ p => Some p
  | _ => None
  end.

Definition held (ps : list (ppc T)) : list Z := omap held_pos ps.

#[local] Arguments held : simpl never.

Definition prod_inv (q : Mpsc) (st : cstate) (pc : ppc T) : Prop :=
  let h := get_head q (c_mem st) in
  let t := get_tail q (c_mem st) in
  let holds v p := pok v /\ h <= p < t /\ c_claims st !! Z.to_nat p = Some v in
  match pc with
  | PLoadTail v => pok v
  | PLoadCache v tl | PLoadHead v tl => pok v /\ 0 <= tl <= t
  | PStoreCache v tl hd => pok v /\ 0 <= tl <= t /\ 0 <= hd <= h
  | PCas v tl => pok v /\ 0 <= tl <= t /\ tl < h + cap q
  | PSpin v p => holds v p
  | PWrite v p => holds v p
  | PPublish v p => holds v p /\ get_val q (c_mem st) p = v
  | PDone _ => True
  end.

Definition cons_inv (q : Mpsc) (st : cstate) : Prop :=
  let h := get_head q (c_mem st) in
  let ready hd := hd = h /\ h < get_tail q (c_mem st) in
  match c_cons st with
  | CIdle _ => True
  | CTurn hd | CTail hd => hd = h
  | CRead hd => ready hd /\ get_turn q (c_mem st) h = full_turn q h
  | CRelease hd v => ready hd /\ get_turn q (c_mem st) h = full_turn q h /\
      c_claims st !! Z.to_nat h = Some v
  | CAdvance hd v => ready hd /\ c_claims st !! Z.to_nat h = Some v
  end.

(** The consumer has handed the head slot on but not yet moved the head. *)
Definition released (pc : cpc T) : bool :=
  match pc with CAdvance _ _ => true | _ => false end.

Definition slot_inv (q : Mpsc) (st : cstate) (p : Z) : Prop :=
  let m := c_mem st in
  if get_tail q m <=? p then get_turn q m p = free_turn q p
  else if released (c_cons st) && (p =? get_head q m)
  then get_turn q m p = next_turn q p /\ ~ In p (held (c_prods st))
  else (In p (held (c_prods st)) /\ get_turn q m p = free_turn q p) \/
       (~ In p (held (c_prods st)) /\ get_turn q m p = full_turn q p /\
        c_claims st !! Z.to_nat p = Some (get_val q m p)).

Record inv (q : Mpsc) (st : cstate) : Prop := {
  i_geo : geo T q;
  i_head : 0 <= get_head q (c_mem st) <= get_tail q (c_mem st);
  i_max : get_tail q (c_mem st) < POS_MAX;
  i_cap : get_tail q (c_mem st) <= get_head q (c_mem st) + cap q;
  i_claims : Z.of_nat (length (c_claims st)) = get_tail q (c_mem st);
  i_popped : c_popped st = take (Z.to_nat (get_head q (c_mem st))) (c_claims st);
  i_cache : 0 <= c_cache st <= get_head q (c_mem st);
  i_prods : Forall (prod_inv q st) (c_prods st);
  i_held : NoDup (held (c_prods st));
  i_slots : forall p, get_head q (c_mem st) <= p < get_head q (c_mem st) + cap q -> slot_inv q st p;
  i_cons : cons_inv q st;
}.

Lemma inv_init (q : Mpsc) (m : mem) (n : nat) :
  ring_ok q m ([] : list T) -> get_head q m = 0 -> inv q (cinit m n).
Proof.
  intros [Hg Hh Ht Hm Hfit Hc Hful Hfre] E0. cbn in Ht.
  assert (Hheld : held (replicate n (PDone true)) = []) by (clear; induction n; done).
  pose proof (cap_pos T q Hg).
  split; cbn; try done; try lia.
  - by rewrite E0.
  - by apply Forall_replicate.
  - rewrite Hheld. constructor.
  - intros p Hp. unfold slot_inv. cbn. rewrite (proj2 (Z.leb_le _ _)) by lia. apply Hfre. lia.
Qed.

(** ** Preservation *)

Lemma list_split_at {A} (l : list A) (i : nat) (x : A) :
  l !! i = Some x ->
  exists l1 l2, l = l1 ++ x :: l2 /\ forall y, <[i := y]> l = l1 ++ y :: l2.
Proof.
  intros Hi. exists (take i l), (drop (S i) l). split; [by rewrite take_drop_middle|].
  intros y. apply insert_take_drop. by eapply lookup_lt_Some.
Qed.

Lemma held_app (l1 l2 : list (ppc T)) (pc : ppc T) :
  held (l1 ++ pc :: l2) = held l1 ++ option_list (held_pos pc) ++ held l2.
Proof. unfold held. rewrite omap_app. f_equal. cbn. by destruct (held_pos pc). Qed.

Lemma held_cons (l : list (ppc T)) (pc : ppc T) :
  held (pc :: l) = option_list (held_pos pc) ++ held l.
Proof. apply (held_app [] l pc). Qed.

(** A step of one producer that leaves the shared words alone. *)
Lemma inv_local (q : Mpsc) (st : cstate) (i : nat) (pc pc' : ppc T) (hc : Z) :
  inv q st -> c_prods st !! i = Some pc -> held_pos pc' = held_pos pc ->
  0 <= hc <= get_head q (c_mem st) ->
  prod_inv q st pc' ->
  inv q (mkC (c_mem st) hc (<[i := pc']> (c_prods st)) (c_cons st)
             (c_claims st ++ []) (c_popped st)).
Proof.
  intros [Hg Hh Hmx Hcp Hcl Hpo Hca Hpr Hhe Hsl Hco] Hi Hhp Hhc Hpi.
  destruct (list_split_at _ _ _ Hi) as (l1 & l2 & E & Eins). rewrite Eins, app_nil_r.
  assert (Eh : held (l1 ++ pc' :: l2) = held (c_prods st)) by (by rewrite E, !held_app, Hhp).
  split; cbn; try done.
  - rewrite E in Hpr. apply Forall_app in Hpr as [P1 P2]. apply Forall_cons in P2 as [_ P2].
    apply Forall_app. split; [done|]. by constructor.
  - by rewrite Eh.
  - intros p Hp. specialize (Hsl p Hp). unfold slot_inv in *. cbn. by rewrite Eh.
Qed.

(** Held positions are claimed and not yet popped. *)
Lemma held_range (q : Mpsc) (st : cstate) (l : list (ppc T)) (p : Z) :
  Forall (prod_inv q st) l -> In p (held l) ->
  get_head q (c_mem st) <= p < get_tail q (c_mem st).
Proof.
  intros HF Hp. unfold held in Hp. apply list_elem_of_In, list_elem_of_omap in Hp as (pc & Hpc & Hp).
  rewrite Forall_forall in HF. specialize (HF pc Hpc).
  destruct pc; cbn in Hp; try done; injection Hp as <-; cbn in HF; intuition lia.
Qed.

(** The claim: the tail position passes from free to held. *)
Lemma inv_claim (q : Mpsc) (st : cstate) (i : nat) (v : T) :
  inv q st -> c_prods st !! i = Some (PCas v (get_tail q (c_mem st))) ->
  get_tail q (c_mem st) + 1 < POS_MAX ->
  inv q (mkC (set_tail q (c_mem st) (get_tail q (c_mem st) + 1)) (c_cache st)
             (<[i := PSpin v (get_tail q (c_mem st))]> (c_prods st)) (c_cons st)
             (c_claims st ++ [v]) (c_popped st)).
Proof.
  intros [Hg Hh Hmx Hcp Hcl Hpo Hca Hpr Hhe Hsl Hco] Hi Hmax.
  set (m := c_mem st) in *. set (t := get_tail q m) in *.
  destruct (list_split_at _ _ _ Hi) as (l1 & l2 & E & Eins). rewrite Eins.
  set (m' := set_tail q m (t + 1)).
  assert (Ht' : get_tail q m' = t + 1).
  { apply get_set_tail. unfold POS_MAX, W64 in *. change (2 ^ 62) with 4611686018427387904 in *. lia. }
  assert (Hh' : get_head q m' = get_head q m) by apply get_head_set_tail.
  assert (Hs' : forall p, get_turn q m' p = get_turn q m p /\ get_val q m' p = get_val q m p).
  { intros p. apply (header_write_slots T q Hg), set_tail_frame. }
  rewrite E in Hpr, Hhe. apply Forall_app in Hpr as [P1 P2]. apply Forall_cons in P2 as [P P2].
  destruct P as (Pv & Pt & Pc). fold m in Pt, Pc. fold t in Pt.
  assert (Hlk : (c_claims st ++ [v]) !! Z.to_nat t = Some v).
  { rewrite lookup_app_r by lia. replace (Z.to_nat t - length (c_claims st))%nat with 0%nat by lia. done. }
  assert (Hlk' : forall p x, c_claims st !! p = Some x -> (c_claims st ++ [v]) !! p = Some x).
  { intros p x Hx. by apply lookup_app_l_Some. }
  assert (Hmono : forall pc, prod_inv q st pc -> prod_inv q (mkC m' (c_cache st)
    (l1 ++ PSpin v t :: l2) (c_cons st) (c_claims st ++ [v]) (c_popped st)) pc).
  { intros pc Hpc. destruct pc; cbn in *; fold m in Hpc; rewrite ?Hh', ?Ht';
      fold m t in Hpc; try done; try (intuition lia).
    - destruct Hpc as (? & ? & ?). split; [done|]. split; [lia|auto].
    - destruct Hpc as (? & ? & ?). split; [done|]. split; [lia|auto].
    - destruct Hpc as ((? & ? & ?) & ?). split; [split; [done|split; [lia|auto]]|].
      by rewrite (proj2 (Hs' _)). }
  rewrite held_app in Hhe. cbn in Hhe.
  assert (Hni : ~ In t (held l1 ++ held l2)).
  { intros Hin. apply in_app_iff in Hin as [Hin|Hin];
      [apply (held_range q st l1) in Hin|apply (held_range q st l2) in Hin]; try done;
      fold m t in Hin; lia. }
  split; cbn -[get_turn get_val]; rewrite ?Hh', ?Ht'; try done; try lia.
  - rewrite length_app. cbn. fold m t in Hcl. lia.
  - rewrite Hpo. fold m. rewrite take_app_le by (fold m t in Hcl; lia). done.
  - apply Forall_app. split; [by eapply Forall_impl; [exact P1|]|].
    constructor; [|by eapply Forall_impl; [exact P2|]].
    cbn. rewrite Hh', Ht'. split; [done|]. split; [lia|done].
  - rewrite held_app. cbn. rewrite <- Permutation_middle. apply NoDup_cons. split; [by rewrite list_elem_of_In|done].
  - intros p Hp. specialize (Hsl p Hp). unfold slot_inv in *. cbn -[get_turn get_val].
    fold m in Hsl. fold t in Hsl. rewrite E in Hsl. rewrite !held_app in *. cbn in Hsl |- *.
    rewrite Ht', Hh', (proj1 (Hs' p)), (proj2 (Hs' p)).
    assert (Hin : forall x, In x (held l1 ++ t :: held l2) <-> x = t \/ In x (held l1 ++ held l2)).
    { intros x. rewrite !in_app_iff. cbn. intuition. }
    destruct (t + 1 <=? p) eqn:E1; bools; [by rewrite (proj2 (Z.leb_le t p)) in Hsl by lia|].
    destruct (Z.eq_dec p t) as [->|Hne].
    + rewrite (proj2 (Z.leb_le t t)) in Hsl by lia.
      assert ((released (c_cons st) && (t =? get_head q m)) = false) as ->.
      { destruct (c_cons st) eqn:Ec; try done. cbn. apply Z.eqb_neq.
        unfold cons_inv in Hco. rewrite Ec in Hco. fold m t in Hco. lia. }
      left. split; [|done]. apply Hin. by left.
    + rewrite (proj2 (Z.leb_gt t p)) in Hsl by lia.
      destruct (released (c_cons st) && (p =? get_head q m)).
      * destruct Hsl as [H1 H2]. split; [done|]. rewrite Hin. intuition.
      * destruct Hsl as [[H1 H2]|(H1 & H2 & H3)]; [left|right].
        -- split; [|done]. apply Hin. by right.
        -- split; [rewrite Hin; intuition|]. split; [done|]. by apply Hlk'.
  - unfold cons_inv in *. cbn -[get_turn get_val]. fold m in Hco. fold t in Hco.
    destruct (c_cons st); rewrite ?Hh', ?Ht', ?(proj1 (Hs' _)); try done; intuition (auto; lia).
Qed.

(** Writing the payload of a held slot. *)
Lemma inv_write (q : Mpsc) (st : cstate) (i : nat) (v : T) (p : Z) :
  inv q st -> c_prods st !! i = Some (PWrite v p) ->
  inv q (mkC (set_val q (c_mem st) p v) (c_cache st) (<[i := PPublish v p]> (c_prods st))
             (c_cons st) (c_claims st ++ []) (c_popped st)).
Proof.
  intros [Hg Hh Hmx Hcp Hcl Hpo Hca Hpr Hhe Hsl Hco] Hi. rewrite app_nil_r.
  destruct (list_split_at _ _ _ Hi) as (l1 & l2 & E & Eins). rewrite Eins.
  set (m := c_mem st) in *. set (m' := set_val q m p v).
  destruct (get_head_slot T q Hg m m' p (slot_val_frame T q m p v)) as [Eh Et].
  assert (Eu : forall x, get_turn q m' x = get_turn q m x) by (intros x; apply (get_turn_set_val T q Hg)).
  rewrite E in Hpr, Hhe.
  apply Forall_app in Hpr as [P1 P2]. apply Forall_cons in P2 as [P P2].
  destruct P as (Pv & Pp & Pc). fold m in Pp.
  assert (Ev : forall x, get_head q m <= x < get_head q m + cap q ->
    get_val q m' x = if p =? x then v else get_val q m x).
  { intros x Hx. unfold m'. rewrite (get_val_set_val T q Hg) by done.
    destruct (Z.eqb_spec p x) as [->|Hne]; [by rewrite Z.eqb_refl|].
    rewrite (proj2 (Z.eqb_neq _ _)); [done|]. intros Ei. apply Hne.
    apply (idx_window T q Hg p x (get_head q m)); [lia|lia|done]. }
  rewrite held_app in Hhe. cbn in Hhe. rewrite <- Permutation_middle in Hhe.
  apply NoDup_cons in Hhe as [Hni Hhe]. rewrite list_elem_of_In in Hni.
  assert (Eheld : held (l1 ++ PPublish v p :: l2) = held (l1 ++ PWrite v p :: l2)) by (by rewrite !held_app).
  assert (Hmono : forall l, Forall (prod_inv q st) l -> ~ In p (held l) ->
    Forall (prod_inv q (mkC m' (c_cache st) (l1 ++ PPublish v p :: l2) (c_cons st)
                            (c_claims st) (c_popped st))) l).
  { induction l as [|pc l IH]; intros HF Hnp; [constructor|].
    apply Forall_cons in HF as [Hpc HF].
    rewrite held_cons, in_app_iff in Hnp.
    constructor; [|apply IH; tauto]. assert (Hsub : ~ In p (option_list (held_pos pc))) by tauto.
    destruct pc; cbn in *; fold m in Hpc; rewrite ?Eh, ?Et; try done.
    destruct Hpc as [Hpc Hv]. split; [done|]. rewrite Ev by lia.
    rewrite (proj2 (Z.eqb_neq _ _)) by (intros ->; apply Hsub; by left). done. }
  split; cbn -[get_turn get_val]; rewrite ?Eh, ?Et; try done.
  - apply Forall_app. split; [apply Hmono; [done|rewrite in_app_iff in Hni; tauto]|].
    constructor; [|apply Hmono; [done|rewrite in_app_iff in Hni; tauto]].
    cbn. rewrite Eh, Et, Ev by lia. rewrite Z.eqb_refl. done.
  - rewrite Eheld, held_app. cbn. rewrite <- Permutation_middle. apply NoDup_cons.
    by rewrite list_elem_of_In.
  - intros x Hx. specialize (Hsl x Hx). unfold slot_inv in *. cbn -[get_turn get_val].
    fold m in Hsl. rewrite E in Hsl. rewrite Et, Eh, Eu, Eheld, Ev by done.
    destruct (Z.eqb_spec p x) as [<-|Hne]; [|done].
    assert (Hin : In p (held (l1 ++ PWrite v p :: l2))).
    { rewrite held_app. cbn. apply in_app_iff. right. by left. }
    repeat case_if; intuition.
  - unfold cons_inv in *. cbn -[get_turn get_val]. fold m in Hco.
    by destruct (c_cons st); rewrite ?Eh, ?Et, ?Eu.
Qed.

(** What a turn store does to the slots of the window. *)
Lemma window_turn (q : Mpsc) (m : mem) (h p v x : Z) :
  geo T q -> h <= p < h + cap q -> h <= x < h + cap q -> 0 <= v < W64 ->
  get_turn q (set_turn q m p v) x = if p =? x then v else get_turn q m x.
Proof.
  intros Hg Hp Hx Hv. rewrite (get_turn_set_turn T q Hg) by done.
  destruct (Z.eqb_spec p x) as [->|Hne]; [by rewrite Z.eqb_refl|].
  rewrite (proj2 (Z.eqb_neq _ _)); [done|]. intros Ei. apply Hne.
  by apply (idx_window T q Hg p x h).
Qed.

(** The producer's invariant does not mention turns. *)
Lemma prod_inv_turn (q : Mpsc) (st st' : cstate) (pc : ppc T) :
  prod_inv q st pc ->
  get_head q (c_mem st') = get_head q (c_mem st) -> get_tail q (c_mem st') = get_tail q (c_mem st) ->
  (forall p, get_val q (c_mem st') p = get_val q (c_mem st) p) -> c_claims st' = c_claims st ->
  prod_inv q st' pc.
Proof.
  intros Hp Eh Et Ev Ec. destruct pc; cbn in *; rewrite ?Eh, ?Et, ?Ec, ?Ev; done.
Qed.

(** Publishing: the held position becomes readable. *)
Lemma inv_publish (q : Mpsc) (st : cstate) (i : nat) (v : T) (p : Z) :
  inv q st -> c_prods st !! i = Some (PPublish v p) ->
  inv q (mkC (set_turn q (c_mem st) p (full_turn q p)) (c_cache st) (<[i := PDone true]> (c_prods st))
             (c_cons st) (c_claims st ++ []) (c_popped st)).
Proof.
  intros [Hg Hh Hmx Hcp Hcl Hpo Hca Hpr Hhe Hsl Hco] Hi. rewrite app_nil_r.
  destruct (list_split_at _ _ _ Hi) as (l1 & l2 & E & Eins). rewrite Eins.
  set (m := c_mem st) in *. set (m' := set_turn q m p (full_turn q p)).
  destruct (get_head_slot T q Hg m m' p (slot_turn_frame T q m p _)) as [Eh Et].
  assert (Ev : forall x, get_val q m' x = get_val q m x) by (intros x; apply (get_val_set_turn T q Hg)).
  rewrite E in Hpr, Hhe. apply Forall_app in Hpr as [P1 P2]. apply Forall_cons in P2 as [P P2].
  destruct P as ((Pv & Pp & Pc) & Pval). fold m in Pp, Pval.
  destruct (turn_range T q Hg p) as [_ R]; [pose proof (cap_pos T q Hg); lia|].
  assert (Eu : forall x, get_head q m <= x < get_head q m + cap q ->
    get_turn q m' x = if p =? x then full_turn q p else get_turn q m x).
  { intros x Hx. apply (window_turn q m (get_head q m)); try done; lia. }
  rewrite held_app in Hhe. cbn in Hhe. rewrite <- Permutation_middle in Hhe.
  apply NoDup_cons in Hhe as [Hni Hhe]. rewrite list_elem_of_In in Hni.
  assert (Hold : forall x, In x (held (c_prods st)) <-> x = p \/ In x (held l1 ++ held l2)).
  { intros x. rewrite E, held_app. cbn. rewrite !in_app_iff. cbn. intuition. }
  assert (Enew : held (l1 ++ PDone true :: l2) = held l1 ++ held l2) by (by rewrite held_app).
  assert (Hp : get_turn q m p = free_turn q p).
  { specialize (Hsl p ltac:(lia)). unfold slot_inv in Hsl. fold m in Hsl.
    assert (Hin : In p (held (c_prods st))) by (apply Hold; by left).
    repeat case_if_in Hsl; intuition. }
  split; cbn -[get_turn get_val]; rewrite ?Eh, ?Et; try done.
  - apply Forall_app. split; [|constructor; [done|]].
    all: eapply Forall_impl; [eassumption|]; intros pc Hpc; by apply (prod_inv_turn q st).
  - by rewrite Enew.
  - intros x Hx. specialize (Hsl x Hx). unfold slot_inv in *. cbn -[get_turn get_val].
    fold m in Hsl. rewrite Et, Eh, Ev, Enew, Eu by done.
    destruct (Z.eqb_spec p x) as [<-|Hne].
    + rewrite (proj2 (Z.leb_gt _ _)) in * by lia.
      destruct (released (c_cons st) && (p =? get_head q m)).
      * exfalso. apply (proj2 Hsl), Hold. by left.
      * right. split; [done|]. split; [done|]. by rewrite Pval.
    + pose proof (Hold x) as Hox. repeat case_if; intuition congruence.
  - unfold cons_inv in *. cbn -[get_turn get_val]. fold m in Hco.
    assert (Hcr : get_turn q m (get_head q m) = full_turn q (get_head q m) ->
      get_turn q m' (get_head q m) = full_turn q (get_head q m)).
    { intros Hf. rewrite Eu by (pose proof (cap_pos T q Hg); lia).
      destruct (Z.eqb_spec p (get_head q m)) as [<-|Hne]; [done|done]. }
    destruct (c_cons st); rewrite ?Eh, ?Et; try done; intuition.
Qed.

(** The consumer hands the head slot to the next lap. *)
Lemma inv_release (q : Mpsc) (st : cstate) (h : Z) (v : T) :
  inv q st -> c_cons st = CRelease h v ->
  inv q (mkC (set_turn q (c_mem st) h (next_turn q h)) (c_cache st) (c_prods st)
             (CAdvance h v) (c_claims st) (c_popped st ++ [])).
Proof.
  intros [Hg Hh Hmx Hcp Hcl Hpo Hca Hpr Hhe Hsl Hco] Hc. rewrite app_nil_r.
  set (m := c_mem st) in *. unfold cons_inv in Hco. rewrite Hc in Hco. fold m in Hco.
  destruct Hco as ((-> & Hlt) & Hfull & Hv). set (h := get_head q m) in *.
  set (m' := set_turn q m h (next_turn q h)).
  destruct (get_head_slot T q Hg m m' h (slot_turn_frame T q m h _)) as [Eh Et]. fold h in Eh.
  assert (Ev : forall x, get_val q m' x = get_val q m x) by (intros x; apply (get_val_set_turn T q Hg)).
  pose proof (cap_pos T q Hg) as Hcpos.
  destruct (turn_range T q Hg (h + cap q)) as [R _]; [lia|]. rewrite <- (next_turn_free T q Hg) in R.
  assert (Eu : forall x, h <= x < h + cap q ->
    get_turn q m' x = if h =? x then next_turn q h else get_turn q m x).
  { intros x Hx. apply (window_turn q m h); try done; lia. }
  split; cbn -[get_turn get_val]; rewrite ?Eh, ?Et; try done.
  - eapply Forall_impl; [exact Hpr|]. intros pc Hpc. by apply (prod_inv_turn q st).
  - intros x Hx. specialize (Hsl x Hx). unfold slot_inv in *. cbn -[get_turn get_val].
    fold m h in Hsl. rewrite Hc in Hsl. cbn [released andb] in Hsl. rewrite Et, Eh, Ev, Eu by done.
    rewrite (Z.eqb_sym x h). destruct (Z.eqb_spec h x) as [<-|Hne].
    + rewrite (proj2 (Z.leb_gt _ _)) in * by lia. cbn. split; [done|].
      destruct Hsl as [[_ Hbad]|[Hni _]]; [|done].
      rewrite Hfull in Hbad. symmetry in Hbad. by apply (free_full_ne T q Hg) in Hbad.
    + done.
Qed.

(** The consumer moves the head past the popped position. *)
Lemma inv_advance (q : Mpsc) (st : cstate) (h : Z) (v : T) :
  inv q st -> c_cons st = CAdvance h v ->
  inv q (mkC (set_head q (c_mem st) (h + 1)) (c_cache st) (c_prods st)
             (CIdle (Ready v)) (c_claims st) (c_popped st ++ [v])).
Proof.
  intros [Hg Hh Hmx Hcp Hcl Hpo Hca Hpr Hhe Hsl Hco] Hc.
  set (m := c_mem st) in *. unfold cons_inv in Hco. rewrite Hc in Hco. fold m in Hco.
  destruct Hco as ((-> & Hlt) & Hv). set (h := get_head q m) in *.
  set (m' := set_head q m (h + 1)).
  assert (Eh : get_head q m' = h + 1).
  { apply get_set_head. unfold POS_MAX, W64 in *. change (2 ^ 62) with 4611686018427387904 in *. lia. }
  assert (Et : get_tail q m' = get_tail q m) by apply get_tail_set_head.
  assert (Es : forall x, get_turn q m' x = get_turn q m x /\ get_val q m' x = get_val q m x).
  { intros x. apply (header_write_slots T q Hg), set_head_frame. }
  pose proof (cap_pos T q Hg) as Hcpos.
  assert (Hs : get_turn q m h = next_turn q h /\ ~ In h (held (c_prods st))).
  { specialize (Hsl h ltac:(lia)). unfold slot_inv in Hsl. fold m h in Hsl. rewrite Hc in Hsl.
    rewrite (proj2 (Z.leb_gt _ _)), Z.eqb_refl in Hsl by lia. done. }
  destruct Hs as [Hturn Hnh].
  split; cbn -[get_turn get_val]; rewrite ?Eh, ?Et; try done; try lia.
  - rewrite Hpo. rewrite Z2Nat.inj_add by lia. rewrite Nat.add_1_r.
    by rewrite (take_S_r _ _ v).
  - rewrite List.Forall_forall in Hpr |- *. intros pc Hpc. pose proof (Hpr pc Hpc) as Hpi.
    assert (Hnp : forall p, held_pos pc = Some p -> p <> h).
    { intros p Hp ->. apply Hnh. apply list_elem_of_In, list_elem_of_omap. exists pc.
      split; [by apply list_elem_of_In|done]. }
    destruct pc; cbn in *; fold m h in Hpi; rewrite ?Eh, ?Et, ?(proj2 (Es _)); try done;
      try (specialize (Hnp _ eq_refl)); intuition lia.
  - intros x Hx. unfold slot_inv. cbn -[get_turn get_val].
    rewrite Et, (proj1 (Es x)), (proj2 (Es x)).
    destruct (Z.eq_dec x (h + cap q)) as [->|Hne].
    + rewrite (proj2 (Z.leb_le _ _)) by lia. rewrite <- (next_turn_free T q Hg), <- Hturn.
      unfold get_turn. f_equal. apply (slot_same T q Hg), idx_next.
    + specialize (Hsl x ltac:(lia)). unfold slot_inv in Hsl. fold m h in Hsl. rewrite Hc in Hsl.
      cbn [released andb] in Hsl. rewrite (proj2 (Z.eqb_neq x h)) in Hsl by lia. done.
Qed.

(** ** Every step *)

Lemma inv_prod (q : Mpsc) (st st' : cstate) (i : nat) (weak : bool) :
  inv q st -> do_step q (Prod i weak) st = Some st' -> inv q st'.
Proof.
  intros Hinv Hs. cbn in Hs. destruct (c_prods st !! i) as [pc|] eqn:Ei; [|done]. cbn in Hs.
  pose proof Hinv as [Hg Hh Hmx Hcp Hcl Hpo Hca Hpr Hhe Hsl Hco].
  assert (Hpi : prod_inv q st pc) by (by eapply Forall_lookup_1).
  assert (Hmask : q_mask q = cap q - 1) by (unfold cap; lia).
  pose proof (cap_bound T q Hg) as Hcb. pose proof (cap_pos T q Hg) as Hcpos.
  assert (HW : forall a b, 0 <= a < POS_MAX -> 0 <= b < POS_MAX ->
    wrapping_sub a b <= q_mask q -> b <= a /\ a - b <= q_mask q).
  { intros a b Ha Hb. unfold wrapping_sub, wrap64, POS_MAX, W64 in *.
    change (2 ^ 62) with 4611686018427387904 in *.
    destruct (Z_le_gt_dec b a); [rewrite Z.mod_small by lia; lia|].
    rewrite <- (Z.mod_unique (a - b) 18446744073709551616 (-1) (a - b + 18446744073709551616)) by lia.
    lia. }
  destruct pc as [v|v tl|v tl|v tl hd|v tl|v p|v p|v p|r]; cbn [prod_step] in Hs; [..|done].
  - injection Hs as <-. apply (inv_local q st i (PLoadTail v)); try done.
    split; [done|lia].
  - destruct Hpi as [Hv Htl]. case_if_in Hs; injection Hs as <-; bools;
      apply (inv_local q st i (PLoadCache v tl)); try done; cbn. split; [done|].
    destruct (HW tl (c_cache st)); lia.
  - injection Hs as <-. apply (inv_local q st i (PLoadHead v tl)); try done. cbn in *. intuition lia.
  - destruct Hpi as (Hv & Htl & Hhd). case_if_in Hs; injection Hs as <-; bools;
      apply (inv_local q st i (PStoreCache v tl hd)); try done; cbn.
    split; [done|]. destruct (HW tl hd); lia.
  - destruct Hpi as (Hv & Htl & Hlt). case_if_in Hs.
    + case_if_in Hs; [|done]. injection Hs as <-. bools. subst tl. by apply inv_claim.
    + injection Hs as <-. apply (inv_local q st i (PCas v tl)); try done.
      split; [done|lia].
  - case_if_in Hs; injection Hs as <-; by apply (inv_local q st i (PSpin v p)).
  - injection Hs as <-. by apply inv_write.
  - injection Hs as <-. by apply (inv_publish q st i v p).
Qed.

Lemma inv_cons_local (q : Mpsc) (st : cstate) (pc : cpc T) :
  inv q st -> released (c_cons st) = false -> released pc = false ->
  cons_inv q (mkC (c_mem st) (c_cache st) (c_prods st) pc (c_claims st) (c_popped st)) ->
  inv q (mkC (c_mem st) (c_cache st) (c_prods st) pc (c_claims st) (c_popped st ++ [])).
Proof.
  intros [Hg Hh Hmx Hcp Hcl Hpo Hca Hpr Hhe Hsl Hco] H1 H2 H3. rewrite app_nil_r.
  split; try done. intros p Hp. specialize (Hsl p Hp). unfold slot_inv in *. cbn in *.
  rewrite H1 in Hsl. by rewrite H2.
Qed.

Lemma inv_cons (q : Mpsc) (st st' : cstate) :
  inv q st -> do_step q Cons st = Some st' -> inv q st'.
Proof.
  intros Hinv Hs. pose proof Hinv as [Hg Hh Hmx Hcp Hcl Hpo Hca Hpr Hhe Hsl Hco].
  pose proof (cap_pos T q Hg) as Hcpos. cbn in Hs. unfold cons_inv in Hco.
  destruct (c_cons st) as [res|h|h|h|h v|h v] eqn:Ec; cbn [cons_step] in Hs.
  - injection Hs as <-. apply inv_cons_local; try done. by rewrite Ec.
  - subst h. case_if_in Hs; injection Hs as <-; apply inv_cons_local; try done; try (by rewrite Ec).
    cbn -[get_turn]. bools.
    assert (Hlt : get_head q (c_mem st) < get_tail q (c_mem st)).
    { destruct (Z_lt_le_dec (get_head q (c_mem st)) (get_tail q (c_mem st))); [done|].
      specialize (Hsl (get_head q (c_mem st)) ltac:(lia)). unfold slot_inv in Hsl.
      rewrite (proj2 (Z.leb_le _ _)) in Hsl by lia. rewrite Hsl in E.
      by apply (free_full_ne T q Hg) in E. }
    done.
  - case_if_in Hs; injection Hs as <-; apply inv_cons_local; try done; by rewrite Ec.
  - destruct Hco as ((-> & Hlt) & Hf). injection Hs as <-. apply inv_cons_local; try done; [by rewrite Ec|].
    cbn -[get_turn get_val]. split; [done|]. split; [done|].
    specialize (Hsl (get_head q (c_mem st)) ltac:(lia)). unfold slot_inv in Hsl.
    rewrite Ec, (proj2 (Z.leb_gt _ _)) in Hsl by lia. cbn [released andb] in Hsl.
    destruct Hsl as [[_ Hbad]|(_ & _ & Hcv)]; [|done].
    rewrite Hf in Hbad. symmetry in Hbad. by apply (free_full_ne T q Hg) in Hbad.
  - injection Hs as <-. by apply inv_release.
  - injection Hs as <-. by apply inv_advance.
Qed.

Lemma inv_step (q : Mpsc) (st st' : cstate) : inv q st -> cstep q st st' -> inv q st'.
Proof.
  intros Hinv (c & Hg & Hs). destruct c as [i v|i weak|].
  - cbn in Hs. destruct (c_prods st !! i) as [[]|] eqn:Ei; try done. injection Hs as <-.
    pose proof (inv_local q st i (PDone r) (PLoadTail v) (c_cache st) Hinv Ei eq_refl
      (i_cache _ _ Hinv) Hg) as Hl. by rewrite app_nil_r in Hl.
  - by apply (inv_prod q st st' i weak).
  - by apply (inv_cons q st).
Qed.

Lemma inv_reach (q : Mpsc) (st st' : cstate) : inv q st -> rtc (cstep q) st st' -> inv q st'.
Proof. intros Hinv Hr. induction Hr; [done|]. eauto using inv_step. Qed.
End conc.
