(* ===== verification/MpscTheorems.v ===== *)
(** * What the ring guarantees *)

From Stdlib Require Import ZArith Lia.
From stdpp Require Import base numbers list gmap relations.
From S2P Require Import Prelude Mpsc MpscFacts MpscSeq MpscConc.

#[local] Open Scope Z_scope.

(** Runs a concrete schedule up to the next test. *)
Ltac exec_run :=
  repeat (cbn [mbind option_bind exec do_step prod_step c_prods c_mem c_cache c_cons c_claims
               c_popped option_list negb andb];
          rewrite ?list_insert_insert_eq;
          first [rewrite list_lookup_insert_eq by done | progress idtac]);
  cbn [mbind option_bind exec do_step prod_step c_prods c_mem c_cache c_cons c_claims
               c_popped option_list negb andb].

Section theorems.
Context {T : Type} `{Payload T}.

(** C5. Under any interleaving of any number of producers with the consumer,
    starting from a fresh ring, the values popped so far are exactly the first
    [head] values in the order their positions were claimed (FIFO; nothing
    lost, duplicated or invented) and never more than [cap] positions are
    outstanding. *)
Theorem mpsc_fifo (q : Mpsc) (m : mem) (n : nat) (st : cstate) :
  ring_ok q m ([] : list T) -> get_head q m = 0 -> rtc (cstep q) (cinit m n) st ->
  c_popped st = take (length (c_popped st)) (c_claims st) /\
  Z.of_nat (length (c_popped st)) = get_head q (c_mem st) /\
  Z.of_nat (length (c_claims st)) = get_tail q (c_mem st) /\
  0 <= get_tail q (c_mem st) - get_head q (c_mem st) <= cap q.
Proof.
  intros Hok H0 Hr. pose proof (inv_reach q _ st (inv_init q m n Hok H0) Hr) as Hinv.
  destruct Hinv as [Hg Hh Hmx Hcp Hcl Hpo Hca Hpr Hhe Hsl Hco].
  assert (El : length (c_popped st) = Z.to_nat (get_head q (c_mem st))).
  { rewrite Hpo, length_take. lia. }
  rewrite El. split; [done|]. lia.
Qed.

(** The slot a producer is storing into. *)
Definition writing (pc : ppc T) : option Z :=
  match pc with PWrite _ p | PPublish _ p => Some p | _ => None end.

(** C24. No two threads ever touch one slot at the same time: the slot a producer stores
    into is free, the consumer having released its previous value, two producers never
    have claimed the same slot, and the slot the consumer is reading is not one a
    producer has claimed. *)
Theorem mpsc_race_free (q : Mpsc) (m : mem) (n : nat) (st : cstate) :
  ring_ok q m ([] : list T) -> get_head q m = 0 -> rtc (cstep q) (cinit m n) st ->
  (forall i pc p, c_prods st !! i = Some pc -> writing pc = Some p ->
     get_turn q (c_mem st) p = free_turn q p) /\
  (forall i j pc pc' p p', i <> j -> c_prods st !! i = Some pc -> c_prods st !! j = Some pc' ->
     held_pos pc = Some p -> held_pos pc' = Some p' -> slot_ptr q p <> slot_ptr q p') /\
  (forall i pc p h, c_prods st !! i = Some pc -> held_pos pc = Some p ->
     c_cons st = CRead h -> slot_ptr q p <> slot_ptr q h).
Proof.
  intros Hok H0 Hr. pose proof (inv_reach q _ st (inv_init q m n Hok H0) Hr) as Hinv.
  destruct Hinv as [Hg Hh Hmx Hcp Hcl Hpo Hca Hpr Hhe Hsl Hco].
  assert (Hin : forall i pc p, c_prods st !! i = Some pc -> held_pos pc = Some p ->
    In p (held (c_prods st))).
  { intros i pc p Hi Hp. apply list_elem_of_In, list_elem_of_omap. exists pc.
    split; [by eapply list_elem_of_lookup_2|done]. }
  assert (Hrange := fun p => held_range q st (c_prods st) p Hpr).
  assert (Hslot : forall p p', In p (held (c_prods st)) ->
    get_head q (c_mem st) <= p' < get_head q (c_mem st) + cap q ->
    slot_ptr q p = slot_ptr q p' -> p = p').
  { intros p p' Hp Hp' E. destruct (Z.eq_dec (idx q p) (idx q p')) as [Ei|Ei].
    - specialize (Hrange p Hp). apply (idx_window T q Hg p p' (get_head q (c_mem st))); [lia|lia|done].
    - pose proof (slot_disjoint T q Hg p p' Ei). unfold SLOT_HEADER_SIZE in *.
      pose proof (psize_pos (T := T)). lia. }
  assert (Hfree : forall p, In p (held (c_prods st)) -> get_turn q (c_mem st) p = free_turn q p).
  { intros p Hp. specialize (Hrange p Hp). specialize (Hsl p ltac:(lia)). unfold slot_inv in Hsl.
    repeat case_if_in Hsl; intuition. }
  split; [|split].
  - intros i pc p Hi Hw. apply Hfree, (Hin i pc); [done|]. by destruct pc.
  - intros i j pc pc' p p' Hij Hi Hj Hp Hp' E.
    pose proof (Hin i pc p Hi Hp) as I1. pose proof (Hin j pc' p' Hj Hp') as I2.
    pose proof (Hrange p' I2). pose proof (Hslot p p' I1 ltac:(lia) E) as ->.
    destruct (list_split_at _ _ _ Hi) as (l1 & l2 & El & Eins).
    assert (Hj' : In pc' (l1 ++ l2)).
    { assert (Hlk : <[i := PDone true]> (c_prods st) !! j = Some pc') by (by rewrite list_lookup_insert_ne).
      rewrite Eins in Hlk. apply list_elem_of_lookup_2, list_elem_of_In in Hlk.
      apply (in_others l1 l2 (PDone true)); [done|]. intros ->. done. }
    rewrite El, held_app, Hp in Hhe. cbn in Hhe. rewrite <- Permutation_middle in Hhe.
    apply NoDup_cons in Hhe as [Hni _]. apply Hni. unfold held. rewrite <- omap_app.
    apply list_elem_of_omap. exists pc'. by rewrite list_elem_of_In.
  - intros i pc p h Hi Hp Hc E. unfold cons_inv in Hco. rewrite Hc in Hco.
    destruct Hco as ((-> & Hlt) & Hf). pose proof (Hin i pc p Hi Hp) as I1.
    pose proof (cap_pos T q Hg). pose proof (Hslot p (get_head q (c_mem st)) I1 ltac:(lia) E) as ->.
    rewrite (Hfree _ I1) in Hf. by apply (free_full_ne T q Hg) in Hf.
Qed.

(** C36. A producer that runs undisturbed finishes: from any reachable state with
    room it needs at most eight steps of its own after the call, returns
    [true], and its value is the next one claimed. *)
Theorem mpsc_push_progress (q : Mpsc) (m : mem) (n i : nat) (st : cstate) (r : bool) (v : T) :
  ring_ok q m ([] : list T) -> get_head q m = 0 -> rtc (cstep q) (cinit m n) st ->
  c_prods st !! i = Some (PDone r) -> pok v ->
  get_tail q (c_mem st) < get_head q (c_mem st) + cap q -> get_tail q (c_mem st) + 1 < POS_MAX ->
  exists k st', (k <= 8)%nat /\ exec q (Call i v :: repeat (Prod i false) k) st = Some st' /\
    c_prods st' !! i = Some (PDone true) /\ c_claims st' = c_claims st ++ [v] /\
    c_popped st' = c_popped st.
Proof.
  intros Hok H0 Hr Hi Hv Hroom Hmax.
  pose proof (inv_reach q _ st (inv_init q m n Hok H0) Hr) as Hinv.
  pose proof Hinv as [Hg Hh Hmx Hcp Hcl Hpo Hca Hpr Hhe Hsl Hco].
  assert (Hlen : (i < length (c_prods st))%nat) by (by eapply lookup_lt_Some).
  set (t := get_tail q (c_mem st)) in *. set (h := get_head q (c_mem st)) in *.
  assert (Hmask : q_mask q = cap q - 1) by (unfold cap; lia).
  assert (Hfull : (wrapping_sub t h >? q_mask q) = false).
  { rewrite wrapping_sub_small; [|lia|unfold W64, POS_MAX in *; change (2 ^ 62) with 4611686018427387904 in *; lia].
    rewrite Z.gtb_ltb. apply Z.ltb_ge. lia. }
  set (m1 := set_tail q (c_mem st) (t + 1)).
  assert (Hturn : get_turn q m1 t = free_turn q t).
  { unfold m1. rewrite (proj1 (header_write_slots T q Hg (c_mem st) _ t (set_tail_frame q (c_mem st) (t + 1)))).
    specialize (Hsl t ltac:(lia)). unfold slot_inv in Hsl. fold t in Hsl.
    by rewrite (proj2 (Z.leb_le t t)) in Hsl by lia. }
  assert (Hrun : forall hc, exists st',
    exec q (repeat (Prod i false) 4) (mkC (c_mem st) hc (<[i := PCas v t]> (c_prods st))
      (c_cons st) (c_claims st) (c_popped st)) = Some st' /\
    c_prods st' !! i = Some (PDone true) /\ c_claims st' = c_claims st ++ [v] /\
    c_popped st' = c_popped st).
  { intros hc. cbn [repeat]. exec_run. fold t.
    rewrite Z.eqb_refl, (proj2 (Z.ltb_lt _ _) Hmax). exec_run. fold m1.
    rewrite Hturn, Z.eqb_refl. exec_run. eexists. split; [done|].
    exec_run. by rewrite !app_nil_r. }
  destruct (wrapping_sub t (c_cache st) >? q_mask q) eqn:Ec.
  - destruct (Hrun h) as (st' & He & Hrest). exists 8%nat, st'. split; [lia|]. split; [|done].
    change (repeat (Prod i false) 8) with (repeat (Prod i false) 4 ++ repeat (@Prod T i false) 4).
    cbn [repeat app] in *. exec_run. rewrite Hi. exec_run. fold t. rewrite Ec. exec_run.
    fold h. rewrite Hfull. rewrite <- He. exec_run. by rewrite !app_nil_r.
  - destruct (Hrun (c_cache st)) as (st' & He & Hrest). exists 6%nat, st'. split; [lia|]. split; [|done].
    change (repeat (Prod i false) 6) with (repeat (Prod i false) 2 ++ repeat (@Prod T i false) 4).
    cbn [repeat app] in *. exec_run. rewrite Hi. exec_run. fold t. rewrite Ec. rewrite <- He. exec_run.
    by rewrite !app_nil_r.
Qed.

(** Both peers derive the same geometry from the mapping: a mapping sized for
    [c] payloads is page aligned and holds at least [c]; every slot lies behind
    the header and inside the mapping; slots of different indices are disjoint;
    and positions less than [cap] apart use different slots. *)
Theorem mpsc_layout (c base : Z) (q : Mpsc) :
  1 <= c -> mpsc_mem_size T c <= I64_MAX -> from_raw_parts T base (mpsc_mem_size T c) = Ok q ->
  c <= cap q /\ is_power_of_two (cap q) = true /\
  (forall p, base + MPSC_HEADER_SIZE <= slot_ptr q p /\
     slot_ptr q p + SLOT_HEADER_SIZE + psize <= base + mpsc_mem_size T c) /\
  (forall p p', p < p' < p + cap q ->
     slot_ptr q p + SLOT_HEADER_SIZE + psize <= slot_ptr q p' \/
     slot_ptr q p' + SLOT_HEADER_SIZE + psize <= slot_ptr q p).
Proof.
  intros Hc Hmax Hq. destruct (from_raw_parts_geo T base _ q Hmax Hq) as (Hg & Eb & El & _ & Ecap).
  destruct (mem_size_cap T c Hc Hmax) as [_ Hcap]. split; [lia|]. split; [|split].
  - apply is_power_of_two_spec. exists (q_cap_shift q). split; [apply (geo_cap T q Hg)|apply (cap_eq T q Hg)].
  - intros p. rewrite <- Eb, <- El. apply (slot_bounds T q Hg).
  - intros p p' Hp. apply (slot_disjoint T q Hg). intros E.
    assert (p = p'); [|lia]. apply (idx_window T q Hg p p' p); [lia|lia|done].
Qed.

(** Without interference the ring is a bounded FIFO queue: a push appends
    unless [cap] values are queued, when it is refused and changes nothing; a
    pop removes the oldest value or reports the queue empty; [len] and
    [head_ready] report the queue's length and non-emptiness. *)
Theorem mpsc_queue (q : Mpsc) (m : mem) (vals : list T) (v : T) :
  ring_ok q m vals -> get_tail q m + 1 < POS_MAX -> pok v ->
  (exists q' m', try_push q m v = Some (Z.of_nat (length vals) <? cap q, q', m') /\
     if Z.of_nat (length vals) <? cap q then ring_ok q' m' (vals ++ [v])
     else m' = m /\ ring_ok q' m vals) /\
  match vals with
  | [] => try_pop q m = (Empty, m)
  | w :: rest => exists m', try_pop q m = (Ready w, m') /\ ring_ok q m' rest
  end /\
  mpsc_len q m = Z.of_nat (length vals) /\
  head_ready q m = match vals with [] => false | _ => true end.
Proof.
  intros Hok Hmax Hv. split; [|split; [|by apply len_spec]].
  - destruct (try_push_spec q m vals v Hok Hmax Hv) as (b & q' & m' & E & -> & _ & Hok' & _ & Hsame).
    exists q', m'. split; [done|]. destruct (Z.of_nat (length vals) <? cap q); [done|].
    rewrite (Hsame eq_refl) in *. done.
  - pose proof (try_pop_spec q m vals Hok) as Hp. destruct vals; [done|].
    destruct Hp as (m' & E & Hok' & _). by exists m'.
Qed.
End theorems.

(** ** A sample ring: one page of [i64] *)

Definition sample_q : Mpsc := mkMpsc 0 4096 7 4 127 0.

Lemma sample_q_map : from_raw_parts Z 0 4096 = Ok sample_q.
Proof. vm_compute. reflexivity. Qed.

Definition sample_ring_mem : mem := snd (mpsc_new Z ∅ 0 4096).

Lemma sample_ring_ok : ring_ok sample_q sample_ring_mem ([] : list Z).
Proof.
  apply (mpsc_new_ok ∅ sample_ring_mem 0 4096 sample_q); [unfold I64_MAX; lia|].
  unfold sample_ring_mem, mpsc_new. rewrite sample_q_map. done.
Qed.

Lemma sample_head : get_head sample_q sample_ring_mem = 0.
Proof. vm_compute. reflexivity. Qed.

(** Thread [1] pushes [v] in [k] actions, then the consumer pops. *)
Definition push_pop (k : nat) (v : Z) : list choice :=
  Call 1 v :: repeat (Prod 1 false) k ++ repeat Cons 5.

(** Thread [0] reads the tail and stalls; thread [1] pushes a lap and one more,
    which refreshes the shared head copy; then thread [0] goes on. *)
Definition stale_schedule : list choice :=
  [Call 0 42; Prod 0 false] ++
  concat (repeat (push_pop 6 7) 128) ++ push_pop 8 7 ++ repeat (Prod 0 false) 3.

(** Runs a schedule over the sample ring and tests the final state. *)
Definition run_check (cs : list choice) (outcome : cstate -> bool) : bool :=
  forallb (fun c => match c with Call _ v => (0 <=? v) && (v <=? 42) | _ => true end) cs &&
  match exec sample_q cs (cinit sample_ring_mem 2) with
  | Some st => outcome st
  | None => false
  end.

Lemma run_check_spec (cs : list choice) (outcome : cstate -> bool) :
  run_check cs outcome = true ->
  exists st, rtc (cstep sample_q) (cinit sample_ring_mem 2) st /\ outcome st = true.
Proof.
  unfold run_check. intros Hc. bools.
  destruct (exec sample_q cs (cinit sample_ring_mem 2)) as [st|] eqn:E; [|done].
  exists st. split; [|done]. apply (exec_rtc _ cs); [|done]. clear E H0.
  induction cs as [|c cs IH]; [constructor|]. cbn in H. bools.
  constructor; [|by apply IH]. destruct c; cbn in *; try done. bools. unfold I64_MAX. lia.
Qed.

Definition stale_outcome (st : @cstate Z) : bool :=
  match c_prods st !! 0%nat with Some (PDone false) => true | _ => false end
  && (get_head sample_q (c_mem st) =? get_tail sample_q (c_mem st)).

(** [try_push] can report a full ring that is empty: a producer whose local
    [tail] went stale while others moved the shared [head] copy past it
    computes a wrapped difference twice and gives up. *)
Theorem mpsc_spurious_full :
  exists st, rtc (cstep sample_q) (cinit sample_ring_mem 2) st /\
    c_prods st !! 0%nat = Some (PDone false) /\
    get_head sample_q (c_mem st) = get_tail sample_q (c_mem st).
Proof.
  destruct (run_check_spec stale_schedule stale_outcome) as (st & Hr & Hc);
    [vm_compute; reflexivity|].
  exists st. split; [done|]. unfold stale_outcome in Hc. bools. split; [|done].
  by destruct (c_prods st !! 0%nat) as [[| | | | | | | |[]]|].
Qed.

(** A run with one value pushed and popped, for the witnesses. *)
Definition once_outcome (st : @cstate Z) : bool :=
  bool_decide (c_popped st = [7]) && bool_decide (c_claims st = [7])
  && match c_prods st !! 0%nat with Some (PDone true) => true | _ => false end
  && (get_tail sample_q (c_mem st) =? 1) && (get_head sample_q (c_mem st) =? 1).

Lemma sample_run :
  exists st, rtc (cstep sample_q) (cinit sample_ring_mem 2) st /\
    c_popped st = [7] /\ c_claims st = [7] /\ c_prods st !! 0%nat = Some (PDone true) /\
    get_tail sample_q (c_mem st) = 1 /\ get_head sample_q (c_mem st) = 1.
Proof.
  destruct (run_check_spec (push_pop 6 7) once_outcome) as (st & Hr & Hc);
    [vm_compute; reflexivity|].
  exists st. split; [done|]. unfold once_outcome in Hc. bools.
  apply bool_decide_eq_true in H, H3. repeat (split; [done|]).
  split; [|done]. by destruct (c_prods st !! 0%nat) as [[| | | | | | | |[]]|].
Qed.

Lemma mpsc_fifo_witness :
  exists st, c_popped st = [7] /\ c_popped st = take (length (c_popped st)) (c_claims st).
Proof.
  destruct sample_run as (st & Hr & Hp & _). exists st. split; [exact Hp|].
  apply (mpsc_fifo sample_q sample_ring_mem 2 st sample_ring_ok sample_head Hr).
Defined.

(** Three threads inside the ring: the consumer reads the first slot, thread [1] waits
    to see its slot free, and thread [0] stores into the next one. *)
Definition busy_schedule : list choice :=
  Call 1 7 :: repeat (Prod 1 false) 6 ++ [Cons; Cons] ++
  Call 1 8 :: repeat (Prod 1 false) 3 ++ [Prod 1 true] ++ Call 0 9 :: repeat (Prod 0 false) 4.

Definition busy_outcome (st : @cstate Z) : bool :=
  match c_prods st !! 0%nat, c_prods st !! 1%nat, c_cons st with
  | Some (PWrite 9 2), Some (PSpin 8 1), CRead 0 => true
  | _, _, _ => false
  end.

Lemma busy_run :
  exists st, rtc (cstep sample_q) (cinit sample_ring_mem 2) st /\
    c_prods st !! 0%nat = Some (PWrite 9 2) /\ c_prods st !! 1%nat = Some (PSpin 8 1) /\ c_cons st = CRead 0.
Proof.
  destruct (run_check_spec busy_schedule busy_outcome) as (st & Hr & Hc); [vm_compute; reflexivity|].
  exists st. split; [done|]. unfold busy_outcome in Hc. by repeat case_match; simplify_eq.
Qed.

Lemma mpsc_race_free_witness :
  exists st, c_prods st !! 0%nat = Some (PWrite 9 2) /\ c_prods st !! 1%nat = Some (PSpin 8 1) /\ c_cons st = CRead 0 /\
    get_turn sample_q (c_mem st) 2 = free_turn sample_q 2 /\ slot_ptr sample_q 2 <> slot_ptr sample_q 1 /\
    slot_ptr sample_q 1 <> slot_ptr sample_q 0.
Proof.
  destruct busy_run as (st & Hr & H0 & H1 & Hc). exists st.
  destruct (mpsc_race_free sample_q sample_ring_mem 2 st sample_ring_ok sample_head Hr) as (R1 & R2 & R3).
  split; [exact H0|]. split; [exact H1|]. split; [exact Hc|]. split; [exact (R1 0%nat _ 2 H0 eq_refl)|].
  split; [exact (R2 0%nat 1%nat _ _ 2 1 ltac:(lia) H0 H1 eq_refl eq_refl)|exact (R3 1%nat _ 1 0 H1 eq_refl Hc)].
Defined.

Lemma mpsc_push_progress_witness :
  exists st k st', (k <= 8)%nat /\
    exec sample_q (Call 0 9 :: repeat (Prod 0 false) k) st = Some st' /\
    c_claims st' = [7; 9].
Proof.
  destruct sample_run as (st & Hr & Hp & Hc & Hi & Ht & Hh). exists st.
  destruct (mpsc_push_progress sample_q sample_ring_mem 2 0 st true 9 sample_ring_ok sample_head Hr Hi)
    as (k & st' & Hk & He & _ & Hcl & _).
  - cbn. unfold I64_MAX. lia.
  - rewrite Ht, Hh. vm_compute. reflexivity.
  - rewrite Ht. vm_compute. reflexivity.
  - exists k, st'. rewrite Hcl, Hc. repeat split; assumption.
Defined.

Lemma mpsc_layout_witness : 100 <= cap sample_q /\ is_power_of_two (cap sample_q) = true.
Proof.
  destruct (mpsc_layout (T := Z) 100 0 sample_q) as (H1 & H2 & _);
    [lia | vm_compute; discriminate | vm_compute; reflexivity |].
  split; [exact H1 | exact H2].
Defined.

Lemma mpsc_queue_witness :
  (exists q' m', try_push sample_q sample_ring_mem 5 = Some (true, q', m') /\ ring_ok q' m' [5]) /\
  try_pop (T := Z) sample_q sample_ring_mem = (Empty, sample_ring_mem).
Proof.
  destruct (mpsc_queue sample_q sample_ring_mem [] 5 sample_ring_ok) as ((q' & m' & H1 & H2) & H3 & _).
  - vm_compute. reflexivity.
  - cbn. unfold I64_MAX. lia.
  - split; [|exact H3]. exists q', m'. split; [exact H1|exact H2].
Defined.
