(* ===== verification/LocalManager.v ===== *)
(** * The owning side of a segment ([LocalManager] of [src/src/v5/dynshm.rs])

    The segment is the release queue, then equally sized shared regions, then
    dedicated regions carved downwards from the end.  One operation runs at a
    time here; each takes the time its clock reads return.  [punch] is the
    kernel call that hands a range's pages back; logging and the cleanup
    thread's scheduling are left out, and what that thread runs on each tick is
    [cleanup_tick]. *)

From Stdlib Require Import ZArith Lia String.
From stdpp Require Import base numbers list gmap strings.
From S2P Require Import Prelude Header BufHeader Region Mpsc.

#[local] Open Scope Z_scope.

Definition DYNSHM_TOTAL_SIZE : Z := Z.shiftl 4 30.

Definition SHARED_REGION_SIZE : Z := Z.shiftl 16 20.

Definition DEFAULT_PINNED_REGION_NUM : Z := 4.

(** Thirty seconds, in nanoseconds. *)
Definition MAX_AGE : Z := 30 * 1000000000.

Definition MAX_CHAIN_NODES : Z := DYNSHM_TOTAL_SIZE / MIN_BLOCK_SIZE.

Definition DEDICATED_REGION_PUNCHED : Z := -1.

Definition I32_MAX : Z := 2147483647.

Inductive ManagerError : Type :=
| NoSpace
| MNotAllocated
| MInvalidOffset
| OutOfBounds
| ReleaseQueueFull
| Closed.

#[export] Instance ManagerError_eq_dec : EqDecision ManagerError.
Proof. solve_decision. Defined.

(** [parsed] is the environment value when it parses as a count. *)
Definition pinned_region_num_from (parsed : option Z) (max_region_num : Z) : Z :=
  Z.min (default DEFAULT_PINNED_REGION_NUM parsed) max_region_num.

Definition calc_dedicated_region_size (data_size : Z) : Z :=
  if data_size >? I32_MAX then 0
  else div_ceil (data_size + DYNSHM_BUFFER_HEADER_SIZE) MAX_BLOCK_SIZE * MAX_BLOCK_SIZE.

Abbreviation SharedRegion := (LocalSharedRegion RegionAllocator).

Record LocalManager : Type := mkLM {
  lm_data : Z;
  lm_size : Z;
  lm_rq : ReleaseQueue;
  lm_shared : list SharedRegion;
  lm_min_shared : nat;
  lm_max_payload : Z;
  lm_max_shared_offset : Z;
  lm_alloc_idx : Z;
  lm_min_block : Z;
  lm_max_block : Z;
  lm_dedicated : list LocalDedicatedRegion;
  lm_ded_offset : Z;
  lm_closed : bool;
}.

Definition with_shared (lm : LocalManager) (rs : list SharedRegion) : LocalManager :=
  mkLM (lm_data lm) (lm_size lm) (lm_rq lm) rs (lm_min_shared lm) (lm_max_payload lm)
       (lm_max_shared_offset lm) (lm_alloc_idx lm) (lm_min_block lm) (lm_max_block lm)
       (lm_dedicated lm) (lm_ded_offset lm) (lm_closed lm).

Definition with_dedicated (lm : LocalManager) (ds : list LocalDedicatedRegion) (off : Z)
    : LocalManager :=
  mkLM (lm_data lm) (lm_size lm) (lm_rq lm) (lm_shared lm) (lm_min_shared lm) (lm_max_payload lm)
       (lm_max_shared_offset lm) (lm_alloc_idx lm) (lm_min_block lm) (lm_max_block lm)
       ds off (lm_closed lm).

Definition with_idx (lm : LocalManager) (i : Z) : LocalManager :=
  mkLM (lm_data lm) (lm_size lm) (lm_rq lm) (lm_shared lm) (lm_min_shared lm) (lm_max_payload lm)
       (lm_max_shared_offset lm) i (lm_min_block lm) (lm_max_block lm)
       (lm_dedicated lm) (lm_ded_offset lm) (lm_closed lm).

Definition with_closed (lm : LocalManager) (b : bool) : LocalManager :=
  mkLM (lm_data lm) (lm_size lm) (lm_rq lm) (lm_shared lm) (lm_min_shared lm) (lm_max_payload lm)
       (lm_max_shared_offset lm) (lm_alloc_idx lm) (lm_min_block lm) (lm_max_block lm)
       (lm_dedicated lm) (lm_ded_offset lm) b.

(** ** Construction *)

Inductive NewError : Type :=
| SegmentTooSmall
| CapBelowPinned
| BlocksNotPowerOfTwo
| MinExceedsMax
| RingError (e : LayoutError)
| RegionError (e : Error).

(** The loop that lays the shared regions out, [n] of them left. *)
Fixpoint build_regions (env : option string) (data : Z) (n : nat) (off min_block max_block : Z)
    : option (result Error (list SharedRegion * Z)) :=
  match n with
  | O => Some (Ok ([], off))
  | S n =>
      r ← shared_new env (data + off) SHARED_REGION_SIZE off min_block max_block;
      match r with
      | Err e => Some (Err e)
      | Ok region =>
          rest ← build_regions env data n (off + SHARED_REGION_SIZE) min_block max_block;
          match rest with
          | Err e => Some (Err e)
          | Ok (regions, stop) => Some (Ok (region :: regions, stop))
          end
      end
  end.

(** [m] and [data] are the fresh mapping [MemFile::new] returned. *)
Definition new_with_size (env : option string) (m : mem) (data total pinned_shared shared_cap
    min_block max_block : Z) : option (result NewError LocalManager * mem) :=
  if total <? RQ_SIZE + SHARED_REGION_SIZE then Some (Err SegmentTooSmall, m)
  else if shared_cap <? pinned_shared then Some (Err CapBelowPinned, m)
  else if negb (is_power_of_two min_block) || negb (is_power_of_two max_block)
  then Some (Err BlocksNotPowerOfTwo, m)
  else if min_block >? max_block then Some (Err MinExceedsMax, m)
  else
    match new_rq m data RQ_SIZE with
    | (Err e, m) => Some (Err (RingError e), m)
    | (Ok rq, m) =>
        let shared_count := Z.to_nat (shared_cap / SHARED_REGION_SIZE) in
        built ← build_regions env data shared_count RQ_SIZE min_block max_block;
        match built with
        | Err e => Some (Err (RegionError e), m)
        | Ok (regions, max_shared_offset) =>
            let max_shared_payload := match regions with r :: _ => max_payload r | [] => 0 end in
            Some (Ok (mkLM data total rq regions (Z.to_nat (pinned_shared / SHARED_REGION_SIZE))
                        max_shared_payload max_shared_offset 0 min_block max_block [] total false), m)
        end
    end.

(** [new]: the default segment. *)
Definition lm_new (env : option string) (pinned_env : option Z) (m : mem) (data : Z)
    : option (result NewError LocalManager * mem) :=
  let total := DYNSHM_TOTAL_SIZE in
  let shared_cap := total / 4 in
  let pinned := SHARED_REGION_SIZE * pinned_region_num_from pinned_env (shared_cap / SHARED_REGION_SIZE) in
  new_with_size env m data total pinned shared_cap MIN_BLOCK_SIZE MAX_BLOCK_SIZE.

(** ** Releases *)

Definition shared_index (lm : LocalManager) (offset : Z) : option nat :=
  if (offset <? RQ_SIZE) || (offset >=? lm_max_shared_offset lm) then None
  else Some (Z.to_nat ((offset - RQ_SIZE) / SHARED_REGION_SIZE)).

Definition shared_by_offset (lm : LocalManager) (offset : Z) : option SharedRegion :=
  i ← shared_index lm offset; lm_shared lm !! i.

(** [iter_mut().find(..)]: the index of the first region that satisfies [p]. *)
Fixpoint find_dedicated (p : LocalDedicatedRegion -> bool) (ds : list LocalDedicatedRegion)
    : option (nat * LocalDedicatedRegion) :=
  match ds with
  | [] => None
  | d :: ds =>
      if p d then Some (0%nat, d)
      else match find_dedicated p ds with
           | Some (i, d') => Some (S i, d')
           | None => None
           end
  end.

(** A release that names nothing live is dropped; [None] is a panic. *)
Definition free_at_inner (lm : LocalManager) (m : mem) (now offset : Z) : option (LocalManager * mem) :=
  match shared_index lm offset with
  | Some i =>
      match lm_shared lm !! i with
      | Some region =>
          '(_, region', m') ← shared_free_at region m offset;
          Some (with_shared lm (<[i := region']> (lm_shared lm)), m')
      | None => Some (lm, m)
      end
  | None =>
      match find_dedicated (fun d => d_offset d =? offset) (lm_dedicated lm) with
      | None => Some (lm, m)
      | Some (i, d) =>
          let '(_, d', m') := mark_freed d m now in
          Some (with_dedicated lm (<[i := d']> (lm_dedicated lm)) (lm_ded_offset lm), m')
      end
  end.

Definition lm_free_at (lm : LocalManager) (m : mem) (now offset : Z) : option (LocalManager * mem) :=
  if lm_closed lm then Some (lm, m) else free_at_inner lm m now offset.

Definition rq_pending (lm : LocalManager) (m : mem) : Z :=
  wrapping_sub (get_tail (lm_rq lm) m) (get_head (lm_rq lm) m).

(** The drain loop; [fuel] bounds the pops. *)
Fixpoint drain_loop (fuel : nat) (lm : LocalManager) (m : mem) (now : Z) (freed : Z)
    : option (Z * LocalManager * mem) :=
  match fuel with
  | O => None
  | S fuel =>
      match try_pop (T := Z) (lm_rq lm) m with
      | (Ready offset, m) =>
          '(lm, m) ← free_at_inner lm m now offset;
          drain_loop fuel lm m now (freed + 1)
      | (_, m) => Some (freed, lm, m)
      end
  end.

Definition drain_rq_inner (lm : LocalManager) (m : mem) (now : Z) : option (Z * LocalManager * mem) :=
  drain_loop (S (Z.to_nat (rq_pending lm m))) lm m now 0.

Definition drain_rq (lm : LocalManager) (m : mem) (now : Z) : option (Z * LocalManager * mem) :=
  if lm_closed lm then Some (0, lm, m) else drain_rq_inner lm m now.

(** ** Allocation *)

(** The first region of [idxs] that serves the request. *)
Fixpoint try_regions (rs : list SharedRegion) (idxs : list nat) (m : mem) (now size : Z)
    : option (option Z * list SharedRegion * mem) :=
  match idxs with
  | [] => Some (None, rs, m)
  | i :: idxs =>
      r ← rs !! i;
      '(res, r', m') ← shared_alloc r m now size;
      let rs' := <[i := r']> rs in
      match res with
      | Some ptr => Some (Some ptr, rs', m')
      | None => try_regions rs' idxs m' now size
      end
  end.

(** The order regions are tried in: the pinned ones round robin, then the rest. *)
Definition alloc_order (min_shared n : nat) (start : Z) : list nat :=
  ((fun i => Z.to_nat ((start + Z.of_nat i) mod Z.of_nat min_shared)) <$> seq 0 min_shared) ++
  seq min_shared (n - min_shared).

(** Reuse of a freed dedicated region of about the right size. *)
Fixpoint reuse_dedicated (ds : list LocalDedicatedRegion) (m : mem) (now size region_size : Z)
    : option (Z * list LocalDedicatedRegion * mem) :=
  match ds with
  | [] => None
  | d :: ds =>
      let skip :=
        match reuse_dedicated ds m now size region_size with
        | Some (p, ds', m') => Some (p, d :: ds', m')
        | None => None
        end in
      if negb (is_freed d m) then skip
      else if (d_size d >=? region_size) && (d_size d <=? region_size + MAX_BLOCK_SIZE) then
        match dedicated_alloc d m now size with
        | (Some p, d', m') => Some (p, d' :: ds, m')
        | (None, _, _) => skip
        end
      else skip
  end.

Definition alloc_dedicated (lm : LocalManager) (m : mem) (now size : Z)
    : result ManagerError Z * LocalManager * mem :=
  let region_size := calc_dedicated_region_size size in
  if region_size =? 0 then (Err NoSpace, lm, m)
  else
    match reuse_dedicated (lm_dedicated lm) m now size region_size with
    | Some (p, ds, m') => (Ok p, with_dedicated lm ds (lm_ded_offset lm), m')
    | None =>
        match checked_sub (lm_ded_offset lm) region_size with
        | None => (Err NoSpace, lm, m)
        | Some new_offset =>
            if new_offset <? lm_max_shared_offset lm then (Err NoSpace, lm, m)
            else
              let '(d, m1) := dedicated_new m (lm_data lm + new_offset) region_size new_offset in
              match dedicated_alloc d m1 now size with
              | (Some p, d', m2) =>
                  (Ok p, with_dedicated lm (lm_dedicated lm ++ [d']) new_offset, m2)
              | (None, _, m2) => (Err NoSpace, lm, m2)
              end
        end
    end.

(** What [alloc] does once the release queue has been drained. *)
Definition alloc_fresh (lm : LocalManager) (m : mem) (now size : Z)
    : option (result ManagerError Z * LocalManager * mem) :=
  if size >? lm_max_payload lm then Some (alloc_dedicated lm m now size)
  else
    let start := wrap32 (lm_alloc_idx lm + 1) in
    let lm := if (0 <? lm_min_shared lm)%nat then with_idx lm start else lm in
    '(res, rs, m) ← try_regions (lm_shared lm)
                      (alloc_order (lm_min_shared lm) (length (lm_shared lm)) start) m now size;
    match res with
    | Some p => Some (Ok p, with_shared lm rs, m)
    | None => Some (Err NoSpace, with_shared lm rs, m)
    end.

Definition lm_alloc (lm : LocalManager) (m : mem) (now size : Z)
    : option (result ManagerError Z * LocalManager * mem) :=
  if lm_closed lm then Some (Err Closed, lm, m)
  else if size =? 0 then Some (Err NoSpace, lm, m)
  else if rq_pending lm m >? 0 then
    '(_, lm, m) ← drain_rq_inner lm m now; alloc_fresh lm m now size
  else alloc_fresh lm m now size.

(** ** Pruning *)

Fixpoint punch_regions (rs : list SharedRegion) (m : mem) (now : Z) (punch : Z -> Z -> mem -> mem)
    : list SharedRegion * mem :=
  match rs with
  | [] => ([], m)
  | r :: rs =>
      let '(_, r', m) := punch_if_idle r m now MAX_AGE punch in
      let '(rs', m) := punch_regions rs m now punch in
      (r' :: rs', m)
  end.

Fixpoint punch_dedicated (ds : list LocalDedicatedRegion) (m : mem) (now : Z)
    (punch : Z -> Z -> mem -> mem) : list LocalDedicatedRegion * mem :=
  match ds with
  | [] => ([], m)
  | d :: ds =>
      let '(d', m) :=
        if (d_updated d <=? 0) || negb (is_freed d m) then (d, m)
        else if now - d_updated d >=? MAX_AGE
        then (set_updated d DEDICATED_REGION_PUNCHED, punch (d_offset d) (d_size d) m)
        else (d, m) in
      let '(ds', m) := punch_dedicated ds m now punch in
      (d' :: ds', m)
  end.

(** [while last is punched { pop }], on the reversed list. *)
Fixpoint trim_front (ds : list LocalDedicatedRegion) : list LocalDedicatedRegion :=
  match ds with
  | d :: ds' => if d_updated d =? DEDICATED_REGION_PUNCHED then trim_front ds' else ds
  | [] => []
  end.

Definition trim (ds : list LocalDedicatedRegion) : list LocalDedicatedRegion :=
  rev (trim_front (rev ds)).

Definition prune_idle_regions (lm : LocalManager) (m : mem) (now : Z) (punch : Z -> Z -> mem -> mem)
    : LocalManager * mem :=
  if lm_closed lm then (lm, m)
  else
    let pinned := take (lm_min_shared lm) (lm_shared lm) in
    let '(rest, m) := punch_regions (drop (lm_min_shared lm) (lm_shared lm)) m now punch in
    let '(ds, m) := punch_dedicated (lm_dedicated lm) m now punch in
    let ds := trim ds in
    let off := match last ds with Some d => d_offset d | None => lm_size lm end in
    (with_dedicated (with_shared lm (pinned ++ rest)) ds off, m).

(** One pass of [cleanup_loop]. *)
Definition cleanup_tick (lm : LocalManager) (m : mem) (now : Z) (punch : Z -> Z -> mem -> mem)
    : option (LocalManager * mem) :=
  '(_, lm, m) ← drain_rq lm m now; Some (prune_idle_regions lm m now punch).

(** ** Statistics and closing *)

Record Stats : Type := mkStats {
  s_rq_pending : Z;
  s_shared_regions : Z;
  s_shared_active : Z;
  s_shared_free_bytes : Z;
  s_shared_bytes : Z;
  s_dedicated_regions : Z;
  s_dedicated_active : Z;
  s_dedicated_bytes : Z;
  s_dedicated_used : Z;
}.

Definition sumz {A} (f : A -> Z) (l : list A) : Z := foldr (fun x acc => f x + acc) 0 l.

Definition stats (lm : LocalManager) (m : mem) : Stats :=
  if lm_closed lm then mkStats 0 0 0 0 0 0 0 0 0
  else
    mkStats (mpsc_len (lm_rq lm) m) (Z.of_nat (length (lm_shared lm)))
      (sumz (fun r : SharedRegion => if 0 <? alloc_count r then 1 else 0) (lm_shared lm))
      (sumz (fun r : SharedRegion => shared_available r) (lm_shared lm))
      (sumz (fun r : SharedRegion => r_size r) (lm_shared lm))
      (Z.of_nat (length (lm_dedicated lm)))
      (sumz (fun d => if negb (is_freed d m) then 1 else 0) (lm_dedicated lm))
      (sumz d_size (lm_dedicated lm))
      (sumz (fun d => if negb (is_freed d m) then d_size d else 0) (lm_dedicated lm)).

(** [close_all], the joined worker's last pass first. *)
Definition close_all (lm : LocalManager) (m : mem) (now : Z) (punch : Z -> Z -> mem -> mem)
    : option (LocalManager * mem) :=
  '(lm, m) ← cleanup_tick lm m now punch; Some (with_closed lm true, m).
