(* ===== verification/LocalManagerFacts.v ===== *)
(** * The segment's invariant

    The release queue, the shared regions and the dedicated regions occupy
    disjoint ranges of the mapping; each keeps its own invariant when another
    part changes.  The live buffers are the abstract state: a buffer is a global
    offset with the length of its range, header included. *)

From Stdlib Require Import ZArith Lia String.
From stdpp Require Import base numbers list gmap strings.
From S2P Require Import Prelude Header BufHeader Region RegionFacts Mpsc MpscFacts MpscSeq LocalManager.
From S2P Require Buddy Fixed.

#[local] Open Scope Z_scope.

(** ** Frames *)

Lemma region_ok_frame {A : Type} `{AllocatorLaws A} (r : LocalSharedRegion A) (m m' : mem)
    (live : list span) :
  region_ok r m live -> mem_agree (r_data r) (r_data r + r_size r) m' m -> region_ok r m' live.
Proof.
  intros [Ha Hc Hi Hb Ho He Hs] Hag.
  assert (Hin : forall s, In s live -> 0 <= sp_off s /\ sp_off s + sp_size s <= r_size r).
  { intros s Hs'. destruct (law_bounds _ _ _ _ s Ha Hs') as (? & ? & ?). done. }
  rewrite List.Forall_forall in Hb.
  split; try done.
  - apply (law_frame _ _ m); [done|]. intros s x Hs' Hx. apply Hag.
    destruct (Hin s Hs'). destruct (Hb s Hs') as (? & _). unfold ALLOCATOR_HEADER_SIZE in *.
    cbn [region_arena a_base]. lia.
  - apply List.Forall_forall. intros s Hs'. destruct (Hb s Hs') as (B1 & B2 & B3 & B4).
    destruct (Hin s Hs').
    assert (E : get_hdr m' (buf_ptr r s) = get_hdr m (buf_ptr r s)).
    { apply get_hdr_ext. intros x Hx. apply Hag. unfold buf_ptr in Hx. lia. }
    injection E as E1 E2 E3 E4. unfold buf_ok. by rewrite E1, E3, E4.
Qed.

Lemma dedicated_ok_frame (d : LocalDedicatedRegion) (m m' : mem) (b : bool) :
  dedicated_ok d m b -> mem_agree (d_data d) (d_data d + d_size d) m' m -> dedicated_ok d m' b.
Proof.
  intros (H1 & H2 & H3 & H4 & H5 & H6) Hag.
  assert (E : get_hdr m' (d_data d) = get_hdr m (d_data d)).
  { apply get_hdr_ext. intros x Hx. apply Hag. lia. }
  injection E as E1 E2 E3 E4. unfold dedicated_ok. by rewrite E1, E3, E4.
Qed.

Lemma frame_agree (lo hi lo' hi' : Z) (m m' : mem) :
  mem_frame lo hi m m' -> (hi' <= lo \/ hi <= lo') -> mem_agree lo' hi' m' m.
Proof. intros Hf Hd x Hx. apply Hf. lia. Qed.

(** ** The invariant *)

(** Where the [i]-th shared region sits. *)
Definition placed (lm : LocalManager) (i : nat) (r : SharedRegion) : Prop :=
  r_offset r = RQ_SIZE + Z.of_nat i * SHARED_REGION_SIZE /\ r_size r = SHARED_REGION_SIZE /\
  r_data r = lm_data lm + r_offset r /\ max_payload r = lm_max_payload lm.

(** Dedicated regions are carved back to back from the end of the segment. *)
Fixpoint chain (hi : Z) (ds : list LocalDedicatedRegion) (lo : Z) : Prop :=
  match ds with
  | [] => lo = hi
  | d :: ds => d_offset d + d_size d = hi /\ 0 < d_size d /\ chain (d_offset d) ds lo
  end.

Record lm_ok (lm : LocalManager) (m : mem) (lives : list (list span)) (busy : list bool)
    (vals : list Z) : Prop := {
  lo_ring : ring_ok (lm_rq lm) m vals;
  lo_base : q_base (lm_rq lm) = lm_data lm /\ q_len (lm_rq lm) = RQ_SIZE;
  lo_len : length lives = length (lm_shared lm);
  lo_placed : forall i r, lm_shared lm !! i = Some r -> placed lm i r;
  lo_regions : forall i r l, lm_shared lm !! i = Some r -> lives !! i = Some l -> region_ok r m l;
  lo_shared_end : lm_max_shared_offset lm = RQ_SIZE + Z.of_nat (length (lm_shared lm)) * SHARED_REGION_SIZE;
  lo_pinned : (lm_min_shared lm <= length (lm_shared lm))%nat;
  lo_blen : length busy = length (lm_dedicated lm);
  lo_chain : chain (lm_size lm) (lm_dedicated lm) (lm_ded_offset lm);
  lo_dedicated : forall i d b, lm_dedicated lm !! i = Some d -> busy !! i = Some b ->
    dedicated_ok d m b /\ d_data d = lm_data lm + d_offset d;
  lo_bound : lm_max_shared_offset lm <= lm_ded_offset lm /\ lm_size lm <= I64_MAX;
}.

(** The live buffers. *)
Definition is_buf (lm : LocalManager) (lives : list (list span)) (busy : list bool) (off len : Z) : Prop :=
  (exists i r l s, lm_shared lm !! i = Some r /\ lives !! i = Some l /\ In s l /\
     off = global_of r s /\ len = sp_size s - 8) \/
  (exists i d, lm_dedicated lm !! i = Some d /\ busy !! i = Some true /\
     off = d_offset d /\ len = d_size d).

(** ** Places *)

Lemma rq_size_pos : 0 < RQ_SIZE.
Proof. done. Qed.

Lemma region_size_pos : 0 < SHARED_REGION_SIZE.
Proof. done. Qed.

Lemma chain_bounds (ds : list LocalDedicatedRegion) (hi lo : Z) (i : nat) (d : LocalDedicatedRegion) :
  chain hi ds lo -> ds !! i = Some d ->
  lo <= d_offset d /\ d_offset d + d_size d <= hi /\ 0 < d_size d.
Proof.
  revert hi i. induction ds as [|d0 ds IH]; intros hi i Hc Hi; [done|].
  destruct Hc as (E & Hp & Hc). assert (Hlo : lo <= d_offset d0).
  { clear -Hc. revert Hc. generalize (d_offset d0). induction ds as [|d ds IH]; intros h Hc; cbn in Hc; [lia|].
    destruct Hc as (E & Hp & Hc). apply IH in Hc. lia. }
  destruct i as [|i]; cbn in Hi; [injection Hi as <-; lia|].
  destruct (IH _ i Hc Hi) as (? & ? & ?). lia.
Qed.

Lemma chain_disjoint (ds : list LocalDedicatedRegion) (hi lo : Z) (i j : nat) (d e : LocalDedicatedRegion) :
  chain hi ds lo -> ds !! i = Some d -> ds !! j = Some e -> (i < j)%nat ->
  d_offset e + d_size e <= d_offset d.
Proof.
  revert hi i j. induction ds as [|d0 ds IH]; intros hi i j Hc Hi Hj Hlt; [done|].
  destruct Hc as (E & Hp & Hc). destruct i as [|i], j as [|j]; cbn in Hi, Hj; try lia.
  - injection Hi as <-. by destruct (chain_bounds ds _ lo j e Hc Hj) as (_ & ? & _).
  - apply (IH _ i j Hc Hi Hj). lia.
Qed.

Section places.
Context (lm : LocalManager) (m : mem) (lives : list (list span)) (busy : list bool) (vals : list Z).
Hypothesis Hok : lm_ok lm m lives busy vals.

Lemma region_range (i : nat) (r : SharedRegion) :
  lm_shared lm !! i = Some r ->
  RQ_SIZE <= r_offset r /\ r_offset r + r_size r <= lm_max_shared_offset lm.
Proof.
  intros Hi. destruct (lo_placed _ _ _ _ _ Hok i r Hi) as (E1 & E2 & _).
  rewrite (lo_shared_end _ _ _ _ _ Hok), E1, E2. apply lookup_lt_Some in Hi.
  pose proof region_size_pos. nia.
Qed.

Lemma regions_disjoint (i j : nat) (r r' : SharedRegion) :
  lm_shared lm !! i = Some r -> lm_shared lm !! j = Some r' -> i <> j ->
  r_offset r + r_size r <= r_offset r' \/ r_offset r' + r_size r' <= r_offset r.
Proof.
  intros Hi Hj Hne. destruct (lo_placed _ _ _ _ _ Hok i r Hi) as (E1 & E2 & _).
  destruct (lo_placed _ _ _ _ _ Hok j r' Hj) as (E3 & E4 & _). rewrite E1, E2, E3, E4.
  pose proof region_size_pos. destruct (decide (i < j)%nat); [left|right]; nia.
Qed.

Lemma ded_range (i : nat) (d : LocalDedicatedRegion) :
  lm_dedicated lm !! i = Some d ->
  lm_max_shared_offset lm <= d_offset d /\ d_offset d + d_size d <= lm_size lm /\ 0 < d_size d.
Proof.
  intros Hi. destruct (chain_bounds _ _ _ _ _ (lo_chain _ _ _ _ _ Hok) Hi).
  pose proof (lo_bound _ _ _ _ _ Hok). lia.
Qed.

Lemma shared_end_ge : RQ_SIZE <= lm_max_shared_offset lm.
Proof. rewrite (lo_shared_end _ _ _ _ _ Hok). pose proof region_size_pos. lia. Qed.

(** A live buffer of a region stays inside it. *)
Lemma span_range (i : nat) (r : SharedRegion) (l : list span) (s : span) :
  lm_shared lm !! i = Some r -> lives !! i = Some l -> In s l ->
  0 <= sp_off s /\ sp_off s + sp_size s <= r_size r /\ 32 <= sp_size s /\
  buf_ptr r s = lm_data lm + global_of r s.
Proof.
  intros Hi Hl Hs. pose proof (lo_regions _ _ _ _ _ Hok i r l Hi Hl) as [Ha _ _ Hb _ _ _].
  destruct (law_bounds _ _ _ _ s Ha Hs) as (B1 & _ & B3).
  rewrite List.Forall_forall in Hb. destruct (Hb s Hs) as (B4 & _).
  destruct (lo_placed _ _ _ _ _ Hok i r Hi) as (_ & _ & E & _).
  unfold buf_ptr, global_of. cbn [region_arena a_len] in B3. lia.
Qed.

Lemma is_buf_range (off len : Z) :
  is_buf lm lives busy off len -> RQ_SIZE < off + 1 /\ 24 <= len /\ off + len <= lm_size lm.
Proof.
  pose proof (lo_bound _ _ _ _ _ Hok) as [Hb _]. pose proof shared_end_ge.
  assert (Hd : lm_ded_offset lm <= lm_size lm).
  { pose proof (lo_chain _ _ _ _ _ Hok) as Hc. destruct (lm_dedicated lm) as [|d ds] eqn:E; [cbn in Hc; lia|].
    rewrite <- E in Hc. destruct (chain_bounds _ _ _ 0 d Hc) as (? & ? & ?); [by rewrite E|lia]. }
  intros [(i & r & l & s & Hi & Hl & Hs & -> & ->)|(i & d & Hi & Hbz & -> & ->)].
  - destruct (span_range i r l s Hi Hl Hs) as (? & ? & ? & _). destruct (region_range i r Hi).
    unfold global_of. lia.
  - destruct (ded_range i d Hi) as (? & ? & ?).
    destruct (lo_dedicated _ _ _ _ _ Hok i d true Hi Hbz) as [(_ & ? & _) _]. lia.
Qed.

(** Distinct buffers never overlap. *)
Lemma is_buf_disjoint (o1 l1 o2 l2 : Z) :
  is_buf lm lives busy o1 l1 -> is_buf lm lives busy o2 l2 -> o1 <> o2 ->
  o1 + l1 <= o2 \/ o2 + l2 <= o1.
Proof.
  intros H1 H2 Hne.
  destruct H1 as [(i & r & l & s & Hi & Hl & Hs & -> & ->)|(i & d & Hi & Hbz & -> & ->)];
  destruct H2 as [(j & r' & l' & t & Hj & Hl' & Ht & -> & ->)|(j & e & Hj & Hbz' & -> & ->)].
  - destruct (span_range i r l s Hi Hl Hs) as (? & ? & ? & _).
    destruct (span_range j r' l' t Hj Hl' Ht) as (? & ? & ? & _). unfold global_of in *.
    destruct (decide (i = j)) as [->|Hij].
    + rewrite Hi in Hj. injection Hj as <-. rewrite Hl in Hl'. injection Hl' as <-.
      pose proof (ro_alloc _ _ _ (lo_regions _ _ _ _ _ Hok j r l Hi Hl)) as Ha.
      apply in_split in Hs as (k1 & k2 & ->).
      assert (t <> s) by congruence.
      pose proof (in_others k1 k2 s t Ht ltac:(done)) as Ht'.
      pose proof (live_disjoint _ _ _ k1 k2 s t Ha Ht') as Hd. unfold span_disjoint in Hd. lia.
    + destruct (regions_disjoint i j r r' Hi Hj Hij); lia.
  - destruct (span_range i r l s Hi Hl Hs) as (? & ? & ? & _). destruct (region_range i r Hi).
    destruct (ded_range j e Hj). unfold global_of. lia.
  - destruct (span_range j r' l' t Hj Hl' Ht) as (? & ? & ? & _). destruct (region_range j r' Hj).
    destruct (ded_range i d Hi). unfold global_of. lia.
  - destruct (lt_eq_lt_dec i j) as [[Hlt | ->] | Hgt].
    + right. by apply (chain_disjoint _ _ _ i j d e (lo_chain _ _ _ _ _ Hok)).
    + rewrite Hi in Hj. injection Hj as <-. done.
    + left. by apply (chain_disjoint _ _ _ j i e d (lo_chain _ _ _ _ _ Hok)).
Qed.

(** ** Updates of one part *)

Lemma shared_update (i : nat) (r r' : SharedRegion) (l l' : list span) (m' : mem) :
  lm_shared lm !! i = Some r -> lives !! i = Some l -> same_region r r' -> region_ok r' m' l' ->
  mem_frame (r_data r) (r_data r + r_size r) m m' ->
  lm_ok (with_shared lm (<[i := r']> (lm_shared lm))) m' (<[i := l']> lives) busy vals.
Proof.
  intros Hi Hl Hsame Hr' Hf. pose proof Hok as [Hring [Hb1 Hb2] Hlen Hpl Hreg Hse Hpin Hbl Hch Hded Hbd].
  destruct (Hpl i r Hi) as (E1 & E2 & E3 & E4). destruct (region_range i r Hi) as [R1 R2].
  pose proof (lookup_lt_Some _ _ _ Hi) as Hlt.
  split; cbn; try done; try (by rewrite ?length_insert).
  - apply (ring_ok_frame _ m); [done|]. rewrite Hb1, Hb2.
    apply (frame_agree _ _ _ _ _ _ Hf). lia.
  - intros j rj Hj. destruct (decide (i = j)) as [<-|Hne].
    + rewrite list_lookup_insert_eq in Hj by done. injection Hj as <-.
      pose proof (max_payload_same r r' Hsame) as Emp.
      destruct Hsame as (S1 & S2 & S3 & S4). unfold placed. cbn. rewrite S1, S2, S3, Emp. done.
    + rewrite list_lookup_insert_ne in Hj by done. apply (Hpl j rj Hj).
  - intros j rj lj Hj Hlj. destruct (decide (i = j)) as [<-|Hne].
    + rewrite list_lookup_insert_eq in Hj by done. injection Hj as <-.
      rewrite list_lookup_insert_eq in Hlj by lia. by injection Hlj as <-.
    + rewrite list_lookup_insert_ne in Hj by done. rewrite list_lookup_insert_ne in Hlj by done.
      apply (region_ok_frame rj m); [by apply (Hreg j)|]. destruct (Hpl j rj Hj) as (_ & _ & F3 & _).
      apply (frame_agree _ _ _ _ _ _ Hf). destruct (regions_disjoint i j r rj Hi Hj Hne); lia.
  - intros j d b Hj Hbj. destruct (Hded j d b Hj Hbj) as [Hd Ed]. split; [|done].
    apply (dedicated_ok_frame d m); [done|]. apply (frame_agree _ _ _ _ _ _ Hf).
    destruct (ded_range j d Hj). lia.
Qed.

Lemma dedicated_update (i : nat) (d d' : LocalDedicatedRegion) (b b' : bool) (m' : mem) :
  lm_dedicated lm !! i = Some d -> busy !! i = Some b ->
  d_data d' = d_data d -> d_size d' = d_size d -> d_offset d' = d_offset d ->
  dedicated_ok d' m' b' -> mem_frame (d_data d) (d_data d + d_size d) m m' ->
  lm_ok (with_dedicated lm (<[i := d']> (lm_dedicated lm)) (lm_ded_offset lm)) m'
        lives (<[i := b']> busy) vals.
Proof.
  intros Hi Hbi Ed Es Eo Hd' Hf.
  pose proof Hok as [Hring [Hb1 Hb2] Hlen Hpl Hreg Hse Hpin Hbl Hch Hded Hbd].
  destruct (Hded i d b Hi Hbi) as [Hdi Edi]. destruct (ded_range i d Hi) as (R1 & R2 & R3).
  pose proof (lookup_lt_Some _ _ _ Hi) as Hlt. pose proof shared_end_ge.
  split; cbn; try done; try (by rewrite ?length_insert).
  - apply (ring_ok_frame _ m); [done|]. rewrite Hb1, Hb2.
    apply (frame_agree _ _ _ _ _ _ Hf). lia.
  - intros j rj lj Hj Hlj. apply (region_ok_frame rj m); [by apply (Hreg j)|].
    destruct (Hpl j rj Hj) as (_ & _ & F3 & _). apply (frame_agree _ _ _ _ _ _ Hf).
    destruct (region_range j rj Hj). lia.
  - clear -Hch Hi Es Eo. revert Hch Hi. generalize (lm_size lm). revert i.
    induction (lm_dedicated lm) as [|e ds IH]; intros i hi Hc Hi; [done|].
    destruct Hc as (E & Hp & Hc). destruct i as [|i]; cbn in Hi |- *.
    + injection Hi as ->. rewrite Es, Eo. done.
    + split; [done|]. split; [done|]. by apply IH.
  - intros j e c Hj Hcj. destruct (decide (i = j)) as [<-|Hne].
    + rewrite list_lookup_insert_eq in Hj by done. injection Hj as <-.
      rewrite list_lookup_insert_eq in Hcj by lia. injection Hcj as <-. by rewrite Ed, Eo.
    + rewrite list_lookup_insert_ne in Hj by done. rewrite list_lookup_insert_ne in Hcj by done. destruct (Hded j e c Hj Hcj) as [He Ee].
      split; [|done]. apply (dedicated_ok_frame e m); [done|]. apply (frame_agree _ _ _ _ _ _ Hf).
      destruct (lt_eq_lt_dec i j) as [[Hlt' | ->] | Hgt]; [| done |].
      * pose proof (chain_disjoint _ _ _ i j d e Hch Hi Hj Hlt'). lia.
      * pose proof (chain_disjoint _ _ _ j i e d Hch Hj Hi Hgt). lia.
Qed.
End places.
