(* ===== verification/LocalManagerSpec.v ===== *)
(** * Operations of the owning side against the set of live buffers *)

From Stdlib Require Import ZArith Lia String.
From stdpp Require Import base numbers list gmap strings.
From S2P Require Import Prelude Header BufHeader Region RegionFacts Mpsc MpscFacts MpscSeq LocalManager.
From S2P Require Import LocalManagerFacts.
From S2P Require Buddy Fixed.

#[local] Open Scope Z_scope.

(** The abstract state: [B off len] holds of the live buffers. *)
Definition lm_inv (lm : LocalManager) (m : mem) (vals : list Z) (B : Z -> Z -> Prop) : Prop :=
  exists lives busy, lm_ok lm m lives busy vals /\
    forall o l, B o l <-> is_buf lm lives busy o l.

(** What no operation but closing changes. *)
Definition same_manager (lm lm' : LocalManager) : Prop :=
  lm_data lm' = lm_data lm /\ lm_size lm' = lm_size lm /\ lm_rq lm' = lm_rq lm /\
  lm_min_shared lm' = lm_min_shared lm /\ lm_max_payload lm' = lm_max_payload lm /\
  lm_max_shared_offset lm' = lm_max_shared_offset lm /\ lm_closed lm' = lm_closed lm /\
  length (lm_shared lm') = length (lm_shared lm).

Lemma same_manager_refl (lm : LocalManager) : same_manager lm lm.
Proof. done. Qed.

Lemma same_manager_trans (a b c : LocalManager) :
  same_manager a b -> same_manager b c -> same_manager a c.
Proof. unfold same_manager. intuition congruence. Qed.

(** The bytes of the buffers in [B] other than [off] are the same in both memories. *)
Definition others_kept (lm : LocalManager) (B : Z -> Z -> Prop) (off : Z) (m m' : mem) : Prop :=
  forall o l x, B o l -> o <> off -> o <= x < o + l -> rd m' (lm_data lm + x) = rd m (lm_data lm + x).

Section specs.
Context (lm : LocalManager) (m : mem) (lives : list (list span)) (busy : list bool) (vals : list Z).
Hypothesis Hok : lm_ok lm m lives busy vals.

(** A shared block, allocator header included, misses every other buffer. *)
Lemma block_vs_buf (i : nat) (r : SharedRegion) (l : list span) (s : span) (o len : Z) :
  lm_shared lm !! i = Some r -> lives !! i = Some l -> In s l ->
  is_buf lm lives busy o len -> o <> global_of r s ->
  o + len <= global_of r s - 8 \/ global_of r s - 8 + sp_size s <= o.
Proof.
  intros Hi Hl Hs Hb Hne. destruct (span_range _ _ _ _ _ Hok i r l s Hi Hl Hs) as (? & ? & ? & _).
  destruct Hb as [(j & r' & l' & t & Hj & Hl' & Ht & -> & ->)|(j & e & Hj & Hbz' & -> & ->)].
  - destruct (span_range _ _ _ _ _ Hok j r' l' t Hj Hl' Ht) as (? & ? & ? & _). unfold global_of in *.
    destruct (decide (i = j)) as [->|Hij].
    + rewrite Hi in Hj. injection Hj as <-. rewrite Hl in Hl'. injection Hl' as <-.
      pose proof (ro_alloc _ _ _ (lo_regions _ _ _ _ _ Hok j r l Hi Hl)) as Ha.
      apply in_split in Hs as (k1 & k2 & ->). assert (t <> s) by congruence.
      pose proof (in_others k1 k2 s t Ht ltac:(done)) as Ht'.
      pose proof (live_disjoint _ _ _ k1 k2 s t Ha Ht') as Hd. unfold span_disjoint in Hd. lia.
    + destruct (regions_disjoint _ _ _ _ _ Hok i j r r' Hi Hj Hij); lia.
  - destruct (region_range _ _ _ _ _ Hok i r Hi). destruct (ded_range _ _ _ _ _ Hok j e Hj).
    unfold global_of. lia.
Qed.

Lemma shared_index_span (i : nat) (r : SharedRegion) (l : list span) (s : span) :
  lm_shared lm !! i = Some r -> lives !! i = Some l -> In s l ->
  shared_index lm (global_of r s) = Some i.
Proof.
  intros Hi Hl Hs. destruct (span_range _ _ _ _ _ Hok i r l s Hi Hl Hs) as (B1 & B2 & B3 & _).
  destruct (lo_placed _ _ _ _ _ Hok i r Hi) as (E1 & E2 & _).
  destruct (region_range _ _ _ _ _ Hok i r Hi) as [R1 R2]. unfold shared_index, global_of.
  pose proof region_size_pos. case_if; [bcases; lia|]. f_equal.
  replace (r_offset r + sp_off s + 8 - RQ_SIZE) with
    (sp_off s + 8 + Z.of_nat i * SHARED_REGION_SIZE) by lia.
  rewrite Z.div_add by lia. rewrite Z.div_small by lia. lia.
Qed.

Lemma find_dedicated_spec (p : LocalDedicatedRegion -> bool) (ds : list LocalDedicatedRegion)
    (i : nat) (d : LocalDedicatedRegion) :
  ds !! i = Some d -> p d = true -> (forall j e, (j < i)%nat -> ds !! j = Some e -> p e = false) ->
  find_dedicated p ds = Some (i, d).
Proof.
  revert i. induction ds as [|e ds IH]; intros i Hi Hp Hno; [done|]. cbn.
  destruct i as [|i]; cbn in Hi; [injection Hi as ->; by rewrite Hp|].
  rewrite (Hno 0%nat e) by (done || lia). rewrite (IH i); try done.
  intros j e' Hj He. apply (Hno (S j)); [lia|done].
Qed.

Lemma free_shared (now : Z) (i : nat) (r : SharedRegion) (l : list span) (s : span) :
  lm_shared lm !! i = Some r -> lives !! i = Some l -> In s l ->
  exists lm' m' lives', free_at_inner lm m now (global_of r s) = Some (lm', m') /\
    lm_ok lm' m' lives' busy vals /\ same_manager lm lm' /\
    (forall o k, is_buf lm' lives' busy o k <-> is_buf lm lives busy o k /\ o <> global_of r s) /\
    mem_frame (lm_data lm + global_of r s - 8) (lm_data lm + global_of r s + 8) m m'.
Proof.
  intros Hi Hl Hs. unfold free_at_inner. rewrite (shared_index_span i r l s Hi Hl Hs), Hi.
  pose proof (span_range _ _ _ _ _ Hok i r l s Hi Hl Hs) as (B1 & B2 & B3 & B4).
  pose proof (lo_regions _ _ _ _ _ Hok i r l Hi Hl) as Hr.
  destruct (lo_placed _ _ _ _ _ Hok i r Hi) as (E1 & E2 & E3 & _).
  apply in_split in Hs as (l1 & l2 & ->).
  destruct (shared_free_at_spec r m l1 l2 s Hr) as (r' & m' & Hf & Hr' & Hsame & _ & Hfr).
  rewrite Hf. cbn [mbind option_bind]. pose proof (lookup_lt_Some _ _ _ Hi) as Hlt.
  pose proof (lookup_lt_Some _ _ _ Hl) as Hlt'.
  eexists _, m', (<[i := l1 ++ l2]> lives). split; [done|]. split; [|split; [|split]].
  - apply (shared_update lm m lives busy vals Hok i r r' (l1 ++ s :: l2)); try done.
    eapply mem_frame_weaken; [| |exact Hfr]; lia.
  - unfold same_manager. cbn. by rewrite length_insert.
  - intros o k. split.
    + intros [(j & rj & lj & t & Hj & Hlj & Ht & -> & ->)|Hd]; cbn in *.
      * destruct (decide (i = j)) as [<-|Hne].
        -- rewrite list_lookup_insert_eq in Hj by done. injection Hj as <-.
           rewrite list_lookup_insert_eq in Hlj by done. injection Hlj as <-.
           destruct Hsame as (S1 & _ & _ & _). assert (Hg : forall t, global_of r' t = global_of r t).
           { intros u. unfold global_of. by rewrite S1. }
           split.
           ++ left. exists i, r, (l1 ++ s :: l2), t. rewrite Hg. repeat split; try done.
              rewrite in_app_iff in Ht |- *. destruct Ht; [by left|right; by right].
           ++ pose proof (live_disjoint _ _ _ l1 l2 s t (ro_alloc _ _ _ Hr) Ht) as Hdis.
              unfold span_disjoint in Hdis.
              destruct (span_range _ _ _ _ _ Hok i r (l1 ++ s :: l2) t Hi Hl) as (? & ? & ? & _).
              { rewrite in_app_iff in Ht |- *. destruct Ht; [by left|right; by right]. }
              rewrite Hg. unfold global_of. lia.
        -- rewrite list_lookup_insert_ne in Hj by done. rewrite list_lookup_insert_ne in Hlj by done.
           split; [left; by exists j, rj, lj, t|].
           destruct (regions_disjoint _ _ _ _ _ Hok i j r rj Hi Hj Hne);
             destruct (span_range _ _ _ _ _ Hok j rj lj t Hj Hlj Ht) as (? & ? & ? & _);
             unfold global_of; lia.
      * split; [by right|]. destruct Hd as (j & d & Hj & _ & -> & _).
        destruct (ded_range _ _ _ _ _ Hok j d Hj). destruct (region_range _ _ _ _ _ Hok i r Hi).
        unfold global_of. lia.
    + intros [[(j & rj & lj & t & Hj & Hlj & Ht & -> & ->)|Hd] Hne]; [left|by right].
      destruct (decide (i = j)) as [<-|Hij].
      * rewrite Hi in Hj. injection Hj as <-. rewrite Hl in Hlj. injection Hlj as <-.
        exists i, r', (l1 ++ l2), t. cbn. rewrite !list_lookup_insert_eq by done.
        assert (t <> s) by congruence. destruct Hsame as (S1 & _).
        repeat split; [by apply (in_others l1 l2 s)|unfold global_of; by rewrite S1].
      * exists j, rj, lj, t. cbn. by rewrite !list_lookup_insert_ne by done.
  - eapply mem_frame_weaken; [| |exact Hfr]; unfold buf_ptr, global_of in *; lia.
Qed.

Lemma free_dedicated (now : Z) (i : nat) (d : LocalDedicatedRegion) :
  lm_dedicated lm !! i = Some d -> busy !! i = Some true ->
  exists lm' m' busy', free_at_inner lm m now (d_offset d) = Some (lm', m') /\
    lm_ok lm' m' lives busy' vals /\ same_manager lm lm' /\
    (forall o k, is_buf lm' lives busy' o k <-> is_buf lm lives busy o k /\ o <> d_offset d) /\
    mem_frame (lm_data lm + d_offset d) (lm_data lm + d_offset d + 8) m m'.
Proof.
  intros Hi Hb. destruct (lo_dedicated _ _ _ _ _ Hok i d true Hi Hb) as [Hd Ed].
  destruct (ded_range _ _ _ _ _ Hok i d Hi) as (R1 & R2 & R3).
  pose proof (lo_chain _ _ _ _ _ Hok) as Hch. unfold free_at_inner.
  assert (shared_index lm (d_offset d) = None) as ->.
  { unfold shared_index. assert ((d_offset d >=? lm_max_shared_offset lm) = true) as ->; [|by rewrite orb_true_r].
    rewrite Z.geb_leb. apply Z.leb_le. done. }
  rewrite (find_dedicated_spec _ _ i d Hi); [|apply Z.eqb_refl|].
  2:{ intros j e Hj He. apply Z.eqb_neq. pose proof (chain_disjoint _ _ _ j i e d Hch He Hi Hj). lia. }
  pose proof (mark_freed_spec d m true now Hd) as Hm. destruct (mark_freed d m now) as [[res d'] m'].
  destruct Hm as (Md & Ms & Mo & Hd' & _ & _ & Hf).
  pose proof (lookup_lt_Some _ _ _ Hi) as Hlt. pose proof (lookup_lt_Some _ _ _ Hb) as Hlt'.
  eexists _, m', (<[i := false]> busy). split; [done|]. split; [|split; [done|split]].
  - apply (dedicated_update lm m lives busy vals Hok i d d' true false); try done.
    destruct Hd as (_ & ? & _). eapply mem_frame_weaken; [| |exact Hf]; lia.
  - intros o k. split.
    + intros [Hs|(j & e & Hj & Hbj & -> & ->)]; cbn in *.
      * split; [by left|]. destruct Hs as (j & rj & lj & t & Hj & Hlj & Ht & -> & _).
        destruct (span_range _ _ _ _ _ Hok j rj lj t Hj Hlj Ht) as (? & ? & ? & _).
        destruct (region_range _ _ _ _ _ Hok j rj Hj). unfold global_of. lia.
      * destruct (decide (i = j)) as [<-|Hne].
        { rewrite list_lookup_insert_eq in Hbj by done. done. }
        rewrite list_lookup_insert_ne in Hj by done. rewrite list_lookup_insert_ne in Hbj by done.
        split; [right; by exists j, e|]. destruct (lt_eq_lt_dec i j) as [[Hlt2 | ->] | Hgt]; [|done|].
        -- pose proof (chain_disjoint _ _ _ i j d e Hch Hi Hj Hlt2).
           destruct (ded_range _ _ _ _ _ Hok j e Hj) as (_ & _ & ?). lia.
        -- pose proof (chain_disjoint _ _ _ j i e d Hch Hj Hi Hgt). lia.
    + intros [[Hs|(j & e & Hj & Hbj & -> & ->)] Hne]; [by left|right].
      assert (i <> j) by (intros <-; rewrite Hi in Hj; congruence).
      exists j, e. cbn. by rewrite !list_lookup_insert_ne by done.
  - eapply mem_frame_weaken; [| |exact Hf]; lia.
Qed.
End specs.

(** Releasing any live buffer: the set loses exactly that buffer and the bytes
    of the others stay. *)
Lemma free_at_inner_spec (lm : LocalManager) (m : mem) (vals : list Z) (B : Z -> Z -> Prop)
    (now off len : Z) :
  lm_inv lm m vals B -> B off len ->
  exists lm' m', free_at_inner lm m now off = Some (lm', m') /\ same_manager lm lm' /\
    lm_inv lm' m' vals (fun o l => B o l /\ o <> off) /\ others_kept lm B off m m' /\
    mem_agree (lm_data lm) (lm_data lm + RQ_SIZE) m' m.
Proof.
  intros (lives & busy & Hok & HB) Hb. apply HB in Hb.
  destruct Hb as [(i & r & l & s & Hi & Hl & Hs & -> & ->)|(i & d & Hi & Hbz & -> & ->)].
  - destruct (free_shared lm m lives busy vals Hok now i r l s Hi Hl Hs)
      as (lm' & m' & lives' & Hf & Hok' & Hsm & Hset & Hfr).
    destruct (span_range _ _ _ _ _ Hok i r l s Hi Hl Hs) as (? & ? & ? & _).
    destruct (region_range _ _ _ _ _ Hok i r Hi).
    exists lm', m'. do 2 (split; [done|]). split; [|split].
    + exists lives', busy. split; [done|]. intros o k. by rewrite Hset, HB.
    + intros o k x Ho Hne Hx. apply Hfr. apply HB in Ho.
      destruct (block_vs_buf lm m lives busy vals Hok i r l s o k Hi Hl Hs Ho Hne); lia.
    + intros x Hx. apply Hfr. unfold global_of. lia.
  - destruct (free_dedicated lm m lives busy vals Hok now i d Hi Hbz)
      as (lm' & m' & busy' & Hf & Hok' & Hsm & Hset & Hfr).
    destruct (lo_dedicated _ _ _ _ _ Hok i d true Hi Hbz) as [(_ & ? & _) _].
    destruct (ded_range _ _ _ _ _ Hok i d Hi). pose proof (shared_end_ge _ _ _ _ _ Hok).
    exists lm', m'. do 2 (split; [done|]). split; [|split].
    + exists lives, busy'. split; [done|]. intros o k. by rewrite Hset, HB.
    + intros o k x Ho Hne Hx. apply Hfr. apply HB in Ho.
      assert (Hd : is_buf lm lives busy (d_offset d) (d_size d)) by (right; by exists i, d).
      destruct (is_buf_disjoint lm m lives busy vals Hok o k _ _ Ho Hd Hne); lia.
    + intros x Hx. apply Hfr. lia.
Qed.

(** ** Draining *)

Lemma lm_ok_ring (lm : LocalManager) (m m' : mem) (lives : list (list span)) (busy : list bool)
    (vals vals' : list Z) :
  lm_ok lm m lives busy vals -> ring_ok (lm_rq lm) m' vals' ->
  mem_frame (lm_data lm) (lm_data lm + RQ_SIZE) m m' -> lm_ok lm m' lives busy vals'.
Proof.
  intros Hok Hr Hf. pose proof Hok as [Hring Hb Hlen Hpl Hreg Hse Hpin Hbl Hch Hded Hbd].
  split; try done.
  - intros i r l Hi Hl. apply (region_ok_frame r m); [by apply (Hreg i)|].
    destruct (Hpl i r Hi) as (_ & _ & E3 & _). apply (frame_agree _ _ _ _ _ _ Hf).
    destruct (region_range _ _ _ _ _ Hok i r Hi). lia.
  - intros i d b Hi Hbi. destruct (Hded i d b Hi Hbi) as [Hd Ed]. split; [|done].
    apply (dedicated_ok_frame d m); [done|]. apply (frame_agree _ _ _ _ _ _ Hf).
    destruct (ded_range _ _ _ _ _ Hok i d Hi). pose proof (shared_end_ge _ _ _ _ _ Hok). lia.
Qed.

(** Buffers live outside the release queue. *)
Lemma others_kept_ring (lm : LocalManager) (m0 m m' : mem) (vals : list Z) (B : Z -> Z -> Prop) (off : Z) :
  lm_inv lm m0 vals B -> mem_frame (lm_data lm) (lm_data lm + RQ_SIZE) m m' -> others_kept lm B off m m'.
Proof.
  intros (lives & busy & Hok & HB) Hf o l x Ho _ Hx. apply Hf. apply HB in Ho.
  destruct (is_buf_range _ _ _ _ _ Hok o l Ho) as (? & ? & ?). lia.
Qed.

Lemma lm_pop (lm : LocalManager) (m : mem) (v : Z) (vals : list Z) (B : Z -> Z -> Prop) :
  lm_inv lm m (v :: vals) B ->
  exists m', try_pop (T := Z) (lm_rq lm) m = (Ready v, m') /\ lm_inv lm m' vals B /\
    mem_frame (lm_data lm) (lm_data lm + RQ_SIZE) m m'.
Proof.
  intros (lives & busy & Hok & HB). destruct (lo_base _ _ _ _ _ Hok) as [Eb El].
  destruct (try_pop_spec _ _ _ (lo_ring _ _ _ _ _ Hok)) as (m' & E & Hr & _ & Hf).
  rewrite Eb, El in Hf. exists m'. split; [done|]. split; [|done].
  exists lives, busy. split; [by apply (lm_ok_ring lm m _ _ _ (v :: vals))|done].
Qed.

Lemma drain_loop_spec (vals : list Z) (fuel : nat) (lm : LocalManager) (m : mem) (B : Z -> Z -> Prop)
    (now freed : Z) :
  lm_inv lm m vals B -> NoDup vals -> (forall o, In o vals -> exists l, B o l) ->
  (length vals < fuel)%nat ->
  exists lm' m', drain_loop fuel lm m now freed = Some (freed + Z.of_nat (length vals), lm', m') /\
    same_manager lm lm' /\ lm_inv lm' m' [] (fun o l => B o l /\ ~ In o vals) /\
    (forall o l x, B o l -> ~ In o vals -> o <= x < o + l ->
       rd m' (lm_data lm + x) = rd m (lm_data lm + x)).
Proof.
  revert fuel lm m B freed. induction vals as [|v vals IH]; intros fuel lm m B freed Hinv Hnd Hin Hf;
    (destruct fuel as [|fuel]; [cbn in Hf; lia|]); cbn [drain_loop].
  - destruct Hinv as (lives & busy & Hok & HB).
    rewrite (try_pop_spec _ _ _ (lo_ring _ _ _ _ _ Hok)).
    exists lm, m. rewrite Z.add_0_r. split; [done|]. split; [apply same_manager_refl|].
    split; [|done]. exists lives, busy. split; [done|]. intros o l. rewrite <- HB. intuition.
  - apply NoDup_cons in Hnd as [Hni Hnd]. rewrite list_elem_of_In in Hni.
    destruct (lm_pop lm m v vals B Hinv) as (m1 & -> & Hinv1 & Hfr1).
    destruct (Hin v (or_introl eq_refl)) as [len Hv].
    destruct (free_at_inner_spec lm m1 vals B now v len Hinv1 Hv)
      as (lm2 & m2 & -> & Hsm & Hinv2 & Hk2 & _). cbn [mbind option_bind].
    destruct (IH fuel lm2 m2 _ (freed + 1) Hinv2 Hnd) as (lm3 & m3 & E & Hsm3 & Hinv3 & Hk3).
    + intros o Ho. destruct (Hin o (or_intror Ho)) as [l Hl]. exists l. split; [done|]. by intros ->.
    + cbn in Hf. lia.
    + exists lm3, m3. rewrite E. split; [do 3 f_equal; cbn; lia|].
      split; [by apply (same_manager_trans lm lm2)|]. split.
      * destruct Hinv3 as (lives & busy & Hok & HB). exists lives, busy. split; [done|].
        intros o l. rewrite <- HB. cbn. intuition.
      * intros o l x Ho Hno Hx. cbn in Hno. assert (o <> v) by (intros ->; apply Hno; by left).
        destruct Hsm as (Ed & _). rewrite <- Ed, (Hk3 o l x); [|done|tauto|done]. rewrite Ed.
        rewrite (Hk2 o l x) by done.
        by apply (others_kept_ring lm m m m1 (v :: vals) B v Hinv Hfr1 o l x).
Qed.

Lemma rq_pending_spec (lm : LocalManager) (m : mem) (vals : list Z) (B : Z -> Z -> Prop) :
  lm_inv lm m vals B -> rq_pending lm m = Z.of_nat (length vals).
Proof.
  intros (lives & busy & Hok & _). destruct (lo_ring _ _ _ _ _ Hok) as [Hg Hh Ht Hm Hfit _ _ _].
  unfold rq_pending. rewrite wrapping_sub_small; [lia|lia|].
  unfold POS_MAX, W64 in *. change (2 ^ 62) with 4611686018427387904 in *. lia.
Qed.

Lemma drain_spec (lm : LocalManager) (m : mem) (vals : list Z) (B : Z -> Z -> Prop) (now : Z) :
  lm_inv lm m vals B -> NoDup vals -> (forall o, In o vals -> exists l, B o l) ->
  exists lm' m', drain_rq_inner lm m now = Some (Z.of_nat (length vals), lm', m') /\
    same_manager lm lm' /\ lm_inv lm' m' [] (fun o l => B o l /\ ~ In o vals) /\
    (forall o l x, B o l -> ~ In o vals -> o <= x < o + l ->
       rd m' (lm_data lm + x) = rd m (lm_data lm + x)).
Proof.
  intros Hinv Hnd Hin. unfold drain_rq_inner. rewrite (rq_pending_spec lm m vals B Hinv), Nat2Z.id.
  apply (drain_loop_spec vals _ lm m B now 0 Hinv Hnd Hin). lia.
Qed.
