(* ===== verification/LocalManagerAlloc.v ===== *)
(** * Allocation on the owning side

    A payload that fits a shared block comes from the regions in round-robin
    order; a larger one reuses or carves a dedicated region.  Either way the
    new buffer joins the live set, misses every live buffer, and is stamped
    with its own offset. *)

From Stdlib Require Import ZArith Lia String.
From stdpp Require Import base numbers list gmap strings.
From S2P Require Import Prelude Header BufHeader Region RegionFacts Mpsc MpscFacts MpscSeq LocalManager.
From S2P Require Import LocalManagerFacts LocalManagerSpec.
From S2P Require Buddy Fixed.

#[local] Open Scope Z_scope.

(** What a successful allocation of [size] payload bytes at [p] means. *)
Definition alloc_done (lm : LocalManager) (m : mem) (vals : list Z) (B : Z -> Z -> Prop) (size p : Z)
    (lm' : LocalManager) (m' : mem) : Prop :=
  exists off len,
    p = lm_data lm + off /\ lm_inv lm' m' vals (fun o l => B o l \/ (o = off /\ l = len)) /\
    get_hdr m' p = mkHdr off 0 size (len - 24) /\ size + 24 <= len /\
    (forall o l, B o l -> o + l <= off \/ off + len <= o) /\
    (forall o l x, B o l -> o <= x < o + l -> rd m' (lm_data lm + x) = rd m (lm_data lm + x)).

(** ** Shared regions *)

Lemma same_manager_shared (lm : LocalManager) (rs : list SharedRegion) :
  length rs = length (lm_shared lm) -> same_manager lm (with_shared lm rs).
Proof. done. Qed.

Lemma is_buf_regions (lm : LocalManager) (rs : list SharedRegion) (lives : list (list span))
    (busy : list bool) (i : nat) (r r' : SharedRegion) :
  lm_shared lm !! i = Some r -> rs = <[i := r']> (lm_shared lm) -> r_offset r' = r_offset r ->
  forall o l, is_buf (with_shared lm rs) lives busy o l <-> is_buf lm lives busy o l.
Proof.
  intros Hi -> Eo o l. pose proof (lookup_lt_Some _ _ _ Hi) as Hlt. unfold is_buf. cbn.
  assert (Hg : forall s, global_of r' s = global_of r s) by (intros s; unfold global_of; by rewrite Eo).
  split; (intros [(j & rj & lj & t & Hj & Hlj & Ht & -> & ->)|Hd]; [left|by right]);
    destruct (decide (i = j)) as [<-|Hne].
  - rewrite list_lookup_insert_eq in Hj by done. injection Hj as <-. exists i, r, lj, t.
    by rewrite Hg.
  - rewrite list_lookup_insert_ne in Hj by done. by exists j, rj, lj, t.
  - rewrite Hi in Hj. injection Hj as <-. exists i, r', lj, t.
    rewrite list_lookup_insert_eq by done. by rewrite Hg.
  - exists j, rj, lj, t. by rewrite list_lookup_insert_ne by done.
Qed.

(** One region serves the request. *)
Lemma region_serves (lm : LocalManager) (m m' : mem) (lives : list (list span)) (busy : list bool)
    (vals : list Z) (B : Z -> Z -> Prop) (i : nat) (r r' : SharedRegion) (l : list span) (s : span) (size : Z) :
  lm_ok lm m lives busy vals -> (forall o k, B o k <-> is_buf lm lives busy o k) ->
  lm_shared lm !! i = Some r -> lives !! i = Some l -> same_region r r' ->
  region_ok r' m' (s :: l) -> size <= sp_size s - 32 ->
  get_hdr m' (buf_ptr r s) = mkHdr (global_of r s) 0 size (sp_size s - 32) ->
  mem_frame (r_data r + sp_off s) (r_data r + sp_off s + 32) m m' ->
  alloc_done lm m vals B size (buf_ptr r s) (with_shared lm (<[i := r']> (lm_shared lm))) m'.
Proof.
  intros Hok HB Hi Hl Hsame Hr' Hsz Hh Hf.
  destruct (lo_placed _ _ _ _ _ Hok i r Hi) as (E1 & E2 & E3 & _).
  pose proof Hsame as (S1 & S2 & S3 & _).
  destruct (law_bounds _ _ _ _ s (ro_alloc _ _ _ Hr') (or_introl eq_refl)) as (B1 & _ & B3).
  cbn [region_arena a_len] in B3. rewrite S2 in B3.
  pose proof (ro_bufs _ _ _ Hr') as HF. apply Forall_cons in HF as [(B4 & _) _].
  assert (Hok' : lm_ok (with_shared lm (<[i := r']> (lm_shared lm))) m' (<[i := s :: l]> lives) busy vals).
  { apply (shared_update lm m lives busy vals Hok i r r' l); try done.
    eapply mem_frame_weaken; [| |exact Hf]; lia. }
  pose proof (lookup_lt_Some _ _ _ Hi) as Hlt. pose proof (lookup_lt_Some _ _ _ Hl) as Hlt'.
  assert (Hg : forall t, global_of r' t = global_of r t) by (intros t; unfold global_of; by rewrite S1).
  assert (Hset : forall o k, is_buf (with_shared lm (<[i := r']> (lm_shared lm))) (<[i := s :: l]> lives) busy o k <->
    (is_buf lm lives busy o k \/ (o = global_of r s /\ k = sp_size s - 8))).
  { intros o k. rewrite <- (is_buf_regions lm _ lives busy i r r' Hi eq_refl S1 o k). unfold is_buf. cbn.
    split.
    - intros [(j & rj & lj & t & Hj & Hlj & Ht & -> & ->)|Hd]; [|by left; right].
      destruct (decide (i = j)) as [<-|Hne].
      + rewrite list_lookup_insert_eq in Hlj by done. injection Hlj as <-.
        rewrite list_lookup_insert_eq in Hj by done. injection Hj as <-.
        destruct Ht as [<-|Ht]; [right; by rewrite Hg|]. left. left. exists i, r', l, t.
        by rewrite list_lookup_insert_eq.
      + rewrite list_lookup_insert_ne in Hlj by done. left. left. by exists j, rj, lj, t.
    - intros [[(j & rj & lj & t & Hj & Hlj & Ht & -> & ->)|Hd]|[-> ->]]; [left|by right|left].
      + destruct (decide (i = j)) as [<-|Hne].
        * rewrite Hl in Hlj. injection Hlj as <-. exists i, rj, (s :: l), t.
          split; [done|]. split; [by rewrite list_lookup_insert_eq|]. split; [by right|done].
        * exists j, rj, lj, t. rewrite (list_lookup_insert_ne lives) by done. done.
      + exists i, r', (s :: l), s. rewrite !list_lookup_insert_eq by done. rewrite Hg.
        repeat (split; [done|]). split; [by left|done]. }
  assert (Hmiss : forall o k, B o k -> o + k <= global_of r s - 8 \/ global_of r s - 8 + sp_size s <= o).
  { intros o k Ho. rewrite <- (Hg s).
    assert (Hne : o <> global_of r s).
    { apply HB in Ho. intros ->.
      destruct Ho as [(j & rj & lj & t & Hj & Hlj & Ht & Eg & _)|(j & d & Hj & _ & Eg & _)].
      - destruct (span_range _ _ _ _ _ Hok j rj lj t Hj Hlj Ht) as (? & ? & ? & _).
        destruct (decide (i = j)) as [<-|Hij].
        + rewrite Hi in Hj. injection Hj as <-. rewrite Hl in Hlj. injection Hlj as <-.
          pose proof (live_disjoint _ _ _ [] l s t (ro_alloc _ _ _ Hr') Ht) as Hd.
          unfold span_disjoint, global_of in *. lia.
        + destruct (regions_disjoint _ _ _ _ _ Hok i j r rj Hi Hj Hij); unfold global_of in *; lia.
      - destruct (ded_range _ _ _ _ _ Hok j d Hj). destruct (region_range _ _ _ _ _ Hok i r Hi).
        unfold global_of in *. lia. }
    apply (block_vs_buf _ m' _ busy vals Hok' i r' (s :: l) s o k); cbn.
    - by rewrite list_lookup_insert_eq.
    - by rewrite list_lookup_insert_eq.
    - by left.
    - apply Hset. left. by apply HB.
    - by rewrite Hg. }
  exists (global_of r s), (sp_size s - 8).
  split; [unfold buf_ptr, global_of; lia|]. split; [|split; [|split; [|split]]].
  - exists (<[i := s :: l]> lives), busy. split; [done|]. intros o k. by rewrite Hset, HB.
  - rewrite Hh. f_equal. lia.
  - lia.
  - intros o k Ho. specialize (Hmiss o k Ho). lia.
  - intros o k x Ho Hx. apply Hf. specialize (Hmiss o k Ho). unfold global_of in Hmiss. lia.
Qed.

Lemma try_regions_spec (idxs : list nat) (lm : LocalManager) (m : mem) (vals : list Z)
    (B : Z -> Z -> Prop) (now size : Z) :
  lm_inv lm m vals B -> Forall (fun i => (i < length (lm_shared lm))%nat) idxs -> 0 <= size -> now <> 0 ->
  exists res rs m', try_regions (lm_shared lm) idxs m now size = Some (res, rs, m') /\
    length rs = length (lm_shared lm) /\
    match res with
    | Some p => alloc_done lm m vals B size p (with_shared lm rs) m'
    | None => m' = m /\ lm_inv (with_shared lm rs) m vals B
    end.
Proof.
  revert lm m. induction idxs as [|i idxs IH]; intros lm m Hinv HF Hs Hn; cbn [try_regions].
  - exists None, (lm_shared lm), m. split; [done|]. split; [done|]. split; [done|].
    by destruct lm.
  - apply Forall_cons in HF as [Hi HF]. destruct Hinv as (lives & busy & Hok & HB).
    destruct (lookup_lt_is_Some_2 (lm_shared lm) i Hi) as [r Hr]. rewrite Hr. cbn [mbind option_bind].
    destruct (lookup_lt_is_Some_2 lives i) as [l Hl]; [rewrite (lo_len _ _ _ _ _ Hok); done|].
    pose proof (lo_regions _ _ _ _ _ Hok i r l Hr Hl) as Hrok.
    destruct (shared_alloc_spec r m l now size Hrok Hs Hn) as (res & r' & m' & -> & Hsame & Hp).
    cbn [mbind option_bind]. destruct res as [p|].
    + destruct Hp as (s & Hr' & -> & Hh & Hsz & Hf).
      eexists _, _, m'. split; [done|]. split; [by rewrite length_insert|].
      by apply (region_serves lm m m' lives busy vals B i r r' l s size).
    + destruct Hp as [-> Hr'].
      destruct (IH (with_shared lm (<[i := r']> (lm_shared lm))) m) as (res & rs & m1 & E & Hlen & Hp).
      * exists lives, busy. split.
        -- assert (Ei : lives = <[i := l]> lives) by (symmetry; by apply list_insert_id).
           rewrite Ei. apply (shared_update lm m lives busy vals Hok i r r' l); try done.
        -- intros o k. rewrite HB. symmetry.
           apply (is_buf_regions lm _ lives busy i r r' Hr eq_refl). apply Hsame.
      * cbn. by rewrite length_insert.
      * done.
      * done.
      * cbn in E, Hlen. rewrite length_insert in Hlen. exists res, rs, m1. split; [done|].
        split; [done|]. destruct res as [p|]; [|done].
        destruct Hp as (off & len & Hp). exists off, len. done.
Qed.

Lemma alloc_order_lt (k n : nat) (start : Z) :
  (k <= n)%nat -> Forall (fun i => (i < n)%nat) (alloc_order k n start).
Proof.
  intros Hk. unfold alloc_order. apply Forall_app. split; apply List.Forall_forall; intros i Hi.
  - apply in_map_iff in Hi as (j & <- & Hj). apply in_seq in Hj.
    pose proof (Z.mod_pos_bound (start + Z.of_nat j) (Z.of_nat k) ltac:(lia)). lia.
  - apply in_seq in Hi. lia.
Qed.

(** ** Dedicated regions *)

Lemma region_size_spec (size : Z) :
  0 <= size ->
  if size >? I32_MAX then calc_dedicated_region_size size = 0
  else size + 24 <= calc_dedicated_region_size size /\
       MAX_BLOCK_SIZE <= calc_dedicated_region_size size < W32.
Proof.
  intros Hs. unfold calc_dedicated_region_size. case_if; [done|]. bools.
  unfold DYNSHM_BUFFER_HEADER_SIZE, div_ceil. set (b := MAX_BLOCK_SIZE).
  assert (Hb : b = 262144) by reflexivity. unfold I32_MAX, W32 in *.
  pose proof (Z.div_mod (size + 24 + b - 1) b ltac:(lia)).
  pose proof (Z.mod_pos_bound (size + 24 + b - 1) b ltac:(lia)).
  assert (1 <= (size + 24 + b - 1) / b) by (apply Z.div_le_lower_bound; lia). nia.
Qed.

Lemma reuse_spec (ds : list LocalDedicatedRegion) (m : mem) (now size rsz p : Z)
    (ds' : list LocalDedicatedRegion) (m' : mem) :
  reuse_dedicated ds m now size rsz = Some (p, ds', m') ->
  exists i d d', ds !! i = Some d /\ dedicated_alloc d m now size = (Some p, d', m') /\
    ds' = <[i := d']> ds /\ rsz <= d_size d <= rsz + MAX_BLOCK_SIZE.
Proof.
  revert ds'. induction ds as [|d ds IH]; intros ds' He; [done|]. cbn [reuse_dedicated] in He.
  assert (Hskip : match reuse_dedicated ds m now size rsz with
    | Some (p, ds', m') => Some (p, d :: ds', m') | None => None end = Some (p, ds', m') ->
    exists i d0 d', (d :: ds) !! i = Some d0 /\ dedicated_alloc d0 m now size = (Some p, d', m') /\
      ds' = <[i := d']> (d :: ds) /\ rsz <= d_size d0 <= rsz + MAX_BLOCK_SIZE).
  { intros E. destruct (reuse_dedicated ds m now size rsz) as [[[p0 ds0] m0]|] eqn:E2; [|done].
    injection E as -> <- ->. destruct (IH ds0 eq_refl) as (i & d0 & d' & H1 & H2 & -> & H4).
    by exists (S i), d0, d'. }
  case_if_in He; [by apply Hskip|]. case_if_in He; [|by apply Hskip].
  destruct (dedicated_alloc d m now size) as [[[q|] d'] m0] eqn:Ed; [|by apply Hskip].
  injection He as -> <- ->. bools. exists 0%nat, d, d'. repeat (split; [done|]). lia.
Qed.

Lemma chain_snoc (ds : list LocalDedicatedRegion) (hi lo : Z) (d : LocalDedicatedRegion) :
  chain hi ds lo -> d_offset d + d_size d = lo -> 0 < d_size d -> chain hi (ds ++ [d]) (d_offset d).
Proof.
  revert hi. induction ds as [|e ds IH]; intros hi Hc Hd Hp; cbn in *.
  - subst hi. done.
  - destruct Hc as (E & He & Hc). split; [done|]. split; [done|]. by apply IH.
Qed.

(** A dedicated region turned busy. *)
Lemma dedicated_serves (lm lm' : LocalManager) (m m' : mem) (lives : list (list span))
    (busy busy' : list bool) (vals : list Z) (B : Z -> Z -> Prop) (i : nat) (d : LocalDedicatedRegion) (size : Z) :
  lm_ok lm m lives busy vals -> (forall o k, B o k <-> is_buf lm lives busy o k) ->
  lm_ok lm' m' lives busy' vals -> lm_shared lm' = lm_shared lm -> lm_data lm' = lm_data lm ->
  lm_dedicated lm' !! i = Some d -> busy' !! i = Some true -> busy !! i <> Some true ->
  (forall j e, j <> i -> (lm_dedicated lm' !! j = Some e /\ busy' !! j = Some true <->
     lm_dedicated lm !! j = Some e /\ busy !! j = Some true)) ->
  size + 24 <= d_size d ->
  get_hdr m' (d_data d) = mkHdr (d_offset d) 0 size (d_size d - 24) ->
  mem_frame (d_data d) (d_data d + 24) m m' ->
  alloc_done lm m vals B size (d_data d) lm' m'.
Proof.
  intros Hok HB Hok' Esh Eda Hi Hb Hnb Hoth Hsz Hh Hf.
  destruct (lo_dedicated _ _ _ _ _ Hok' i d true Hi Hb) as [Hd Ed].
  assert (Hset : forall o k, is_buf lm' lives busy' o k <->
    (is_buf lm lives busy o k \/ (o = d_offset d /\ k = d_size d))).
  { intros o k. unfold is_buf. rewrite Esh. split.
    - intros [Hs|(j & e & Hj & Hbj & -> & ->)]; [by left; left|].
      destruct (decide (j = i)) as [->|Hne].
      + rewrite Hi in Hj. injection Hj as <-. by right.
      + left. right. exists j, e. destruct (proj1 (Hoth j e Hne) (conj Hj Hbj)). done.
    - intros [[Hs|(j & e & Hj & Hbj & -> & ->)]|[-> ->]]; [by left|right|right].
      + destruct (decide (j = i)) as [->|Hne]; [done|].
        exists j, e. destruct (proj2 (Hoth j e Hne) (conj Hj Hbj)). done.
      + by exists i, d. }
  assert (Hmiss : forall o k, B o k -> o + k <= d_offset d \/ d_offset d + d_size d <= o).
  { intros o k Ho. apply HB in Ho. assert (Ho' : is_buf lm' lives busy' o k) by (apply Hset; by left).
    assert (Hd' : is_buf lm' lives busy' (d_offset d) (d_size d)) by (apply Hset; by right).
    assert (o <> d_offset d); [|by apply (is_buf_disjoint _ _ _ _ _ Hok' o k _ _ Ho' Hd')].
    intros ->. destruct Ho as [(j & rj & lj & t & Hj & Hlj & Ht & Eg & _)|(j & e & Hj & Hbj & Eo & _)].
    - rewrite <- Esh in Hj. destruct (span_range _ _ _ _ _ Hok' j rj lj t Hj Hlj Ht) as (? & ? & ? & _).
      destruct (region_range _ _ _ _ _ Hok' j rj Hj). destruct (ded_range _ _ _ _ _ Hok' i d Hi).
      unfold global_of in Eg. lia.
    - destruct (decide (j = i)) as [->|Hne]; [done|].
      destruct (proj2 (Hoth j e Hne) (conj Hj Hbj)) as [Hj' _].
      pose proof (lo_chain _ _ _ _ _ Hok') as Hch.
      destruct (ded_range _ _ _ _ _ Hok' j e Hj') as (_ & _ & ?).
      destruct (ded_range _ _ _ _ _ Hok' i d Hi) as (_ & _ & ?).
      destruct (lt_eq_lt_dec i j) as [[Hlt | ->] | Hgt]; [|done|].
      + pose proof (chain_disjoint _ _ _ i j d e Hch Hi Hj' Hlt). lia.
      + pose proof (chain_disjoint _ _ _ j i e d Hch Hj' Hi Hgt). lia. }
  exists (d_offset d), (d_size d). assert (Ed' : d_data d = lm_data lm + d_offset d) by lia.
  rewrite Ed' in Hh, Hf |- *. split; [done|]. split; [|split; [done|split; [done|split]]].
  - exists lives, busy'. split; [done|]. intros o k. by rewrite Hset, HB.
  - done.
  - intros o k x Ho Hx. apply Hf. specialize (Hmiss o k Ho). destruct Hd as (_ & ? & _). lia.
Qed.

Lemma alloc_dedicated_spec (lm : LocalManager) (m : mem) (vals : list Z) (B : Z -> Z -> Prop)
    (now size : Z) :
  lm_inv lm m vals B -> 0 <= size -> 0 < now ->
  let '(res, lm', m') := alloc_dedicated lm m now size in
  same_manager lm lm' /\
  match res with
  | Ok p => alloc_done lm m vals B size p lm' m'
  | Err e => e = NoSpace /\ lm' = lm /\ m' = m
  end.
Proof.
  intros (lives & busy & Hok & HB) Hs Hn. unfold alloc_dedicated.
  pose proof (region_size_spec size Hs) as Hr. destruct (size >? I32_MAX); [by rewrite Hr|].
  destruct Hr as [R1 R2]. set (rsz := calc_dedicated_region_size size) in *.
  assert (Hmb : MAX_BLOCK_SIZE = 262144) by reflexivity.
  rewrite (proj2 (Z.eqb_neq rsz 0)) by lia.
  destruct (reuse_dedicated (lm_dedicated lm) m now size rsz) as [[[p ds] m']|] eqn:Er.
  - split; [done|]. destruct (reuse_spec _ _ _ _ _ _ _ _ Er) as (i & d & d' & Hi & Ha & -> & Hfit).
    destruct (lookup_lt_is_Some_2 busy i) as [b Hb];
      [rewrite (lo_blen _ _ _ _ _ Hok); by eapply lookup_lt_Some|].
    destruct (lo_dedicated _ _ _ _ _ Hok i d b Hi Hb) as [Hd Ed].
    pose proof (dedicated_alloc_spec d m b now size Hd Hs ltac:(lia)) as Hsp. rewrite Ha in Hsp.
    destruct Hsp as (Dd & Ds & Do & -> & Hsz & -> & Hd' & _ & Hh & Hf).
    pose proof (lookup_lt_Some _ _ _ Hi) as Hlt. pose proof (lookup_lt_Some _ _ _ Hb) as Hlt'.
    rewrite <- Dd in Hh, Hf |- *. rewrite <- Do, <- Ds in Hh.
    apply (dedicated_serves lm _ m m' lives busy (<[i := true]> busy) vals B i d' size); cbn; try done.
    + apply (dedicated_update lm m lives busy vals Hok i d d' false true); try done.
      rewrite Dd in Hf. eapply mem_frame_weaken; [| |exact Hf]; lia.
    + by rewrite list_lookup_insert_eq.
    + by rewrite list_lookup_insert_eq.
    + by rewrite Hb.
    + intros j e Hne. by rewrite !list_lookup_insert_ne.
    + lia.
  - unfold checked_sub. case_if; [|done]. bools.
    destruct (lm_ded_offset lm - rsz <? lm_max_shared_offset lm) eqn:Elow; [done|]. bools.
    set (off := lm_ded_offset lm - rsz) in *.
    pose proof (shared_end_ge _ _ _ _ _ Hok) as Hse. pose proof rq_size_pos as Hrq.
    assert (Hend : lm_ded_offset lm <= I64_MAX).
    { pose proof (lo_bound _ _ _ _ _ Hok) as [_ ?]. pose proof (lo_chain _ _ _ _ _ Hok) as Hc.
      destruct (lm_dedicated lm) as [|e ds] eqn:Ee; [cbn in Hc; lia|].
      destruct (chain_bounds _ _ _ 0 e Hc eq_refl). lia. }
    pose proof (dedicated_new_ok m (lm_data lm + off) rsz off ltac:(lia) ltac:(lia) ltac:(lia)) as Hnew.
    destruct (dedicated_new m (lm_data lm + off) rsz off) as [d m1].
    destruct Hnew as (Hd & Nd & Ns & No & _ & Hf1).
    pose proof (dedicated_alloc_spec d m1 false now size Hd Hs ltac:(lia)) as Hsp.
    destruct (dedicated_alloc d m1 now size) as [[[p|] d'] m2].
    2:{ destruct Hsp as (_ & _ & _ & _ & _ & [?|?]); [done|lia]. }
    destruct Hsp as (Dd & Ds & Do & _ & Hsz & -> & Hd' & _ & Hh & Hf2). split; [done|].
    assert (Hf : mem_frame (d_data d') (d_data d' + 24) m m2).
    { rewrite Dd. eapply mem_frame_trans; [|exact Hf2]. rewrite Nd. exact Hf1. }
    rewrite <- Dd in Hh |- *. rewrite <- Do, <- Ds in Hh.
    pose proof Hok as [Hring [Hb1 Hb2] Hlen Hpl Hreg Hshe Hpin Hbl Hch Hded Hbd].
    apply (dedicated_serves lm _ m m2 lives busy (busy ++ [true]) vals B (length (lm_dedicated lm)) d' size);
      cbn; try done.
    + split; cbn; try done.
      * apply (ring_ok_frame _ m); [done|]. apply (frame_agree _ _ _ _ _ _ Hf). rewrite Hb1, Hb2. lia.
      * intros j rj lj Hj Hlj. apply (region_ok_frame rj m); [by apply (Hreg j)|].
        destruct (Hpl j rj Hj) as (_ & _ & F3 & _). apply (frame_agree _ _ _ _ _ _ Hf).
        destruct (region_range _ _ _ _ _ Hok j rj Hj). lia.
      * rewrite !length_app. cbn. lia.
      * replace off with (d_offset d') by lia. apply (chain_snoc _ _ (lm_ded_offset lm)); [done|lia|lia].
      * intros j e b Hj Hb. apply lookup_app_Some in Hj as [Hj|[Hge Hj]].
        -- pose proof (lookup_lt_Some _ _ _ Hj). rewrite lookup_app_l in Hb by lia.
           destruct (Hded j e b Hj Hb) as [He Ee]. split; [|done].
           apply (dedicated_ok_frame e m); [done|]. apply (frame_agree _ _ _ _ _ _ Hf).
           destruct (chain_bounds _ _ _ _ _ Hch Hj). destruct Hd as (_ & ? & _). lia.
        -- apply list_lookup_singleton_Some in Hj as [Hj0 <-].
           rewrite lookup_app_r in Hb by lia. apply list_lookup_singleton_Some in Hb as [_ <-].
           split; [done|]. lia.
      * lia.
    + by rewrite list_lookup_middle.
    + rewrite <- Hbl. by rewrite list_lookup_middle.
    + rewrite lookup_ge_None_2 by lia. done.
    + intros j e Hne. destruct (decide (j < length (lm_dedicated lm))%nat).
      * by rewrite !lookup_app_l by lia.
      * rewrite (lookup_ge_None_2 (lm_dedicated lm ++ [d'])) by (rewrite length_app; cbn; lia).
        rewrite (lookup_ge_None_2 (lm_dedicated lm)) by lia. intuition done.
    + lia.
Qed.

(** ** The whole operation *)

Lemma alloc_fresh_spec (lm : LocalManager) (m : mem) (vals : list Z) (B : Z -> Z -> Prop) (now size : Z) :
  lm_inv lm m vals B -> 0 <= size -> 0 < now ->
  exists res lm' m', alloc_fresh lm m now size = Some (res, lm', m') /\ same_manager lm lm' /\
    match res with
    | Ok p => alloc_done lm m vals B size p lm' m'
    | Err e => e = NoSpace /\ m' = m /\ lm_inv lm' m vals B
    end.
Proof.
  intros Hinv Hs Hn. unfold alloc_fresh. case_if.
  - pose proof (alloc_dedicated_spec lm m vals B now size Hinv Hs Hn) as Hp.
    destruct (alloc_dedicated lm m now size) as [[res lm'] m']. destruct Hp as [Hsm Hp].
    exists res, lm', m'. split; [done|]. split; [done|].
    destruct res; [done|]. destruct Hp as (-> & -> & ->). done.
  - set (start := wrap32 (lm_alloc_idx lm + 1)).
    set (lm1 := if (0 <? lm_min_shared lm)%nat then with_idx lm start else lm).
    assert (Hsm1 : same_manager lm lm1) by (unfold lm1; by case_if).
    assert (Hinv1 : lm_inv lm1 m vals B).
    { unfold lm1. case_if; [|done]. destruct Hinv as (lives & busy & [] & HB). by exists lives, busy. }
    assert (Hp1 : (lm_min_shared lm1 <= length (lm_shared lm1))%nat).
    { destruct Hinv1 as (lives & busy & Hok & _). apply (lo_pinned _ _ _ _ _ Hok). }
    destruct (try_regions_spec (alloc_order (lm_min_shared lm1) (length (lm_shared lm1)) start)
      lm1 m vals B now size Hinv1 (alloc_order_lt _ _ _ Hp1) Hs ltac:(lia)) as (res & rs & m' & Et & Hlen & Hp).
    fold start lm1. rewrite Et. cbn [mbind option_bind].
    assert (Hsm2 : same_manager lm (with_shared lm1 rs)).
    { apply (same_manager_trans lm lm1); [done|]. by apply same_manager_shared. }
    destruct res as [p|].
    + exists (Ok p), (with_shared lm1 rs), m'. do 2 (split; [done|]).
      unfold alloc_done in *. destruct Hsm1 as (Ed & _). by rewrite Ed in Hp.
    + destruct Hp as [-> Hp]. by exists (Err NoSpace), (with_shared lm1 rs), m.
Qed.
