(* ===== verification/LocalManagerPrune.v ===== *)
(** * Pruning of the owning side *)

From Stdlib Require Import ZArith Lia String.
From stdpp Require Import base numbers list gmap strings.
From S2P Require Import Prelude Header BufHeader Region RegionFacts Mpsc MpscFacts MpscSeq LocalManager.
From S2P Require Import LocalManagerFacts LocalManagerSpec LocalManagerAlloc.
From S2P Require Buddy Fixed.

#[local] Open Scope Z_scope.

(** ** Pruning *)

(** Handing a range's pages back touches that range only, and leaves each byte
    as it was or zero. *)
Definition punch_ok (data : Z) (punch : Z -> Z -> mem -> mem) : Prop :=
  forall off size m,
    mem_frame (data + off) (data + off + size) m (punch off size m) /\
    forall x, rd (punch off size m) x = rd m x \/ rd (punch off size m) x = 0.

Lemma load_zero_inv (n : nat) (m : mem) (a x : Z) :
  load n m a = 0 -> a <= x < a + Z.of_nat n -> rd m x = 0.
Proof.
  revert a. induction n as [|n IH]; intros a Hl Hx; [lia|].
  change (load (S n) m a) with (rd m a + 256 * load n m (a + 1)) in Hl.
  pose proof (rd_bound m a). pose proof (load_bound n m (a + 1)).
  destruct (Z.eq_dec x a) as [->|Hne]; [lia|]. apply (IH (a + 1)); lia.
Qed.

(** A zero offset field survives a punch. *)
Lemma get_offset_punched (m m' : mem) (p : Z) :
  (forall x, rd m' x = rd m x \/ rd m' x = 0) -> get_offset m p = 0 -> get_offset m' p = 0.
Proof.
  intros Hp Hz. unfold get_offset, load_i64 in *.
  assert (Hl : load 8 m p = 0).
  { pose proof (load_bound 8 m p) as Hb. change (256 ^ Z.of_nat 8) with W64 in Hb.
    unfold to_i64 in Hz. rewrite wrap64_small in Hz by done. unfold I64_MAX, W64 in *.
    case_if_in Hz; bools; lia. }
  rewrite load_zero; [done|]. intros x Hx.
  pose proof (load_zero_inv 8 m p x Hl Hx) as E. destruct (Hp x); lia.
Qed.

Definition bufs_kept (lm : LocalManager) (B : Z -> Z -> Prop) (m m' : mem) : Prop :=
  forall o l x, B o l -> o <= x < o + l -> rd m' (lm_data lm + x) = rd m (lm_data lm + x).

Lemma punch_regions_spec (punch : Z -> Z -> mem -> mem) (vals : list Z) (B : Z -> Z -> Prop) (now : Z)
    (rs : list SharedRegion) (lm : LocalManager) (m : mem) (k : nat) :
  punch_ok (lm_data lm) punch -> lm_inv lm m vals B -> drop k (lm_shared lm) = rs ->
  let '(rs', m') := punch_regions rs m now punch in
  lm_inv (with_shared lm (take k (lm_shared lm) ++ rs')) m' vals B /\ bufs_kept lm B m m' /\
  length rs' = length rs.
Proof.
  intros Hpk. revert lm m k Hpk. induction rs as [|r rs IH]; intros lm m k Hpk Hinv Hdr; cbn [punch_regions].
  - split; [|split; [done|done]].
    rewrite app_nil_r. rewrite take_ge by (apply (f_equal length) in Hdr; rewrite length_drop in Hdr; cbn in Hdr; lia).
    by destruct lm.
  - assert (Hk : lm_shared lm !! k = Some r).
    { replace k with (k + 0)%nat by lia. rewrite <- lookup_drop, Hdr. done. }
    pose proof (lookup_lt_Some _ _ _ Hk) as Hlt.
    destruct Hinv as (lives & busy & Hok & HB).
    destruct (lookup_lt_is_Some_2 lives k) as [l Hl]; [by rewrite (lo_len _ _ _ _ _ Hok)|].
    pose proof (lo_regions _ _ _ _ _ Hok k r l Hk Hl) as Hr.
    pose proof (punch_if_idle_spec r m l now MAX_AGE punch Hr) as Hp.
    destruct (punch_if_idle r m now MAX_AGE punch) as [[b r'] m1]. destruct Hp as [Hsame Hp].
    destruct (lo_placed _ _ _ _ _ Hok k r Hk) as (E1 & E2 & E3 & _).
    assert (Hstep : region_ok r' m1 l /\ mem_frame (r_data r) (r_data r + r_size r) m m1 /\
      (b = true -> l = []) /\ (b = false -> m1 = m)).
    { destruct b.
      - destruct Hp as (-> & _ & _ & -> & Hr' & _). split; [done|]. split; [|done].
        destruct (Hpk (r_offset r) (r_size r) m) as [Hf _]. by rewrite E3.
      - destruct Hp as [-> ->]. done. }
    destruct Hstep as (Hr' & Hf & Hb1 & Hb2).
    set (lm1 := with_shared lm (<[k := r']> (lm_shared lm))).
    assert (Hinv1 : lm_inv lm1 m1 vals B).
    { exists lives, busy. split.
      - assert (El : lives = <[k := l]> lives) by (symmetry; by apply list_insert_id).
        rewrite El. by apply (shared_update lm m lives busy vals Hok k r r' l).
      - intros o j. rewrite HB. symmetry. apply (is_buf_regions lm _ lives busy k r r' Hk eq_refl). apply Hsame. }
    assert (Hkept : bufs_kept lm B m m1).
    { intros o j x Ho Hx. destruct b; [|by rewrite Hb2]. apply Hf. apply HB in Ho.
      rewrite (Hb1 eq_refl) in Hl. rewrite E3.
      destruct Ho as [(i & ri & li & t & Hi & Hli & Ht & -> & ->)|(i & d & Hi & _ & -> & ->)].
      - destruct (decide (i = k)) as [->|Hne]; [rewrite Hl in Hli; injection Hli as <-; done|].
        destruct (span_range _ _ _ _ _ Hok i ri li t Hi Hli Ht) as (? & ? & ? & _).
        unfold global_of in Hx. destruct (regions_disjoint _ _ _ _ _ Hok i k ri r Hi Hk Hne); lia.
      - destruct (ded_range _ _ _ _ _ Hok i d Hi). destruct (region_range _ _ _ _ _ Hok k r Hk). lia. }
    specialize (IH lm1 m1 (S k) Hpk Hinv1).
    destruct (punch_regions rs m1 now punch) as [rs' m2].
    destruct IH as (Hinv2 & Hkept2 & Hlen).
    { cbn. rewrite drop_insert_lt by lia. rewrite (drop_S _ r) in Hdr by done.
      by injection Hdr. }
    split; [|split].
    + cbn in Hinv2. rewrite (take_S_r _ _ r') in Hinv2 by (by apply list_lookup_insert_eq).
      rewrite take_insert_ge in Hinv2 by lia. rewrite <- app_assoc in Hinv2. done.
    + intros o j x Ho Hx. etransitivity; [exact (Hkept2 o j x Ho Hx)|exact (Hkept o j x Ho Hx)].
    + cbn. lia.
Qed.

Lemma dedicated_update_ds (lm : LocalManager) (m : mem) (vals : list Z) (B : Z -> Z -> Prop)
    (i : nat) (d d' : LocalDedicatedRegion) (m' : mem) (lives : list (list span)) (busy : list bool) :
  lm_ok lm m lives busy vals -> (forall o k, B o k <-> is_buf lm lives busy o k) ->
  lm_dedicated lm !! i = Some d -> busy !! i = Some false ->
  d_data d' = d_data d -> d_size d' = d_size d -> d_offset d' = d_offset d ->
  dedicated_ok d' m' false -> mem_frame (d_data d) (d_data d + d_size d) m m' ->
  lm_inv (with_dedicated lm (<[i := d']> (lm_dedicated lm)) (lm_ded_offset lm)) m' vals B /\
  bufs_kept lm B m m'.
Proof.
  intros Hok HB Hi Hb E1 E2 E3 Hd' Hf.
  pose proof (dedicated_update lm m lives busy vals Hok i d d' false false m' Hi Hb E1 E2 E3 Hd' Hf) as Hok'.
  rewrite (list_insert_id busy i false Hb) in Hok'.
  destruct (lo_dedicated _ _ _ _ _ Hok i d false Hi Hb) as [_ Ed].
  pose proof (lookup_lt_Some _ _ _ Hi) as Hlt. split.
  - exists lives, busy. split; [done|]. intros o k. rewrite HB. unfold is_buf. cbn.
    split; (intros [Hs|(j & e & Hj & Hbj & Ho & Hk)]; [by left|right]); exists j, e;
      (assert (i <> j) by (intros ->; congruence)).
    + by rewrite list_lookup_insert_ne.
    + rewrite list_lookup_insert_ne in Hj by done. done.
  - intros o k x Ho Hx. apply Hf. apply HB in Ho. rewrite Ed.
    destruct (ded_range _ _ _ _ _ Hok i d Hi) as (? & ? & ?).
    destruct Ho as [(j & rj & lj & t & Hj & Hlj & Ht & -> & ->)|(j & e & Hj & Hbj & -> & ->)].
    + destruct (span_range _ _ _ _ _ Hok j rj lj t Hj Hlj Ht) as (? & ? & ? & _).
      destruct (region_range _ _ _ _ _ Hok j rj Hj). unfold global_of in *. lia.
    + assert (i <> j) by (intros ->; congruence). pose proof (lo_chain _ _ _ _ _ Hok) as Hch.
      destruct (lt_eq_lt_dec i j) as [[Hlt2 | ->] | Hgt]; [|done|].
      * pose proof (chain_disjoint _ _ _ i j d e Hch Hi Hj Hlt2). lia.
      * pose proof (chain_disjoint _ _ _ j i e d Hch Hj Hi Hgt). lia.
Qed.

Lemma punch_dedicated_spec (punch : Z -> Z -> mem -> mem) (vals : list Z) (B : Z -> Z -> Prop) (now : Z)
    (ds : list LocalDedicatedRegion) (lm : LocalManager) (m : mem) (k : nat) :
  punch_ok (lm_data lm) punch -> lm_inv lm m vals B -> drop k (lm_dedicated lm) = ds ->
  let '(ds', m') := punch_dedicated ds m now punch in
  lm_inv (with_dedicated lm (take k (lm_dedicated lm) ++ ds') (lm_ded_offset lm)) m' vals B /\
  bufs_kept lm B m m'.
Proof.
  intros Hpk. revert lm m k Hpk. induction ds as [|d ds IH]; intros lm m k Hpk Hinv Hdr; cbn [punch_dedicated].
  - split; [|done].
    rewrite app_nil_r. rewrite take_ge by (apply (f_equal length) in Hdr; rewrite length_drop in Hdr; cbn in Hdr; lia).
    by destruct lm.
  - assert (Hk : lm_dedicated lm !! k = Some d).
    { replace k with (k + 0)%nat by lia. rewrite <- lookup_drop, Hdr. done. }
    pose proof (lookup_lt_Some _ _ _ Hk) as Hlt.
    match goal with |- context [if ?c then (d, m) else ?e] => set (st := if c then (d, m) else e) end.
    assert (Hstep : exists d' m1, st = (d', m1) /\
      lm_inv (with_dedicated lm (<[k := d']> (lm_dedicated lm)) (lm_ded_offset lm)) m1 vals B /\
      bufs_kept lm B m m1).
    { assert (Hsame : lm_inv (with_dedicated lm (<[k := d]> (lm_dedicated lm)) (lm_ded_offset lm)) m vals B /\
        bufs_kept lm B m m).
      { rewrite list_insert_id by done. by destruct lm. }
      unfold st. case_if; [by exists d, m|]. case_if; [|by exists d, m].
      eexists _, _. split; [done|]. bools. destruct Hinv as (lives & busy & Hok & HB).
      destruct (lookup_lt_is_Some_2 busy k) as [b Hb]; [by rewrite (lo_blen _ _ _ _ _ Hok)|].
      destruct (lo_dedicated _ _ _ _ _ Hok k d b Hk Hb) as [Hd Ed].
      assert (b = false) as ->.
      { pose proof (dedicated_ok_freed d m b Hd) as Ef. rewrite H0 in Ef. by destruct b. }
      destruct (Hpk (d_offset d) (d_size d) m) as [Hf Hz]. rewrite <- Ed in Hf.
      apply (dedicated_update_ds lm m vals B k d _ _ lives busy Hok HB Hk Hb); try done.
      destruct Hd as (D1 & D2 & D3 & D4 & D5 & _). unfold dedicated_ok. cbn.
      repeat split; try lia; try discriminate. by apply (get_offset_punched m). }
    destruct Hstep as (d' & m1 & -> & Hinv1 & Hkept).
    set (lm1 := with_dedicated lm (<[k := d']> (lm_dedicated lm)) (lm_ded_offset lm)) in *.
    specialize (IH lm1 m1 (S k) Hpk Hinv1).
    destruct (punch_dedicated ds m1 now punch) as [ds' m2]. destruct IH as (Hinv2 & Hkept2).
    { cbn. rewrite drop_insert_lt by lia. rewrite (drop_S _ d) in Hdr by done. by injection Hdr. }
    split.
    + cbn in Hinv2. rewrite (take_S_r _ _ d') in Hinv2 by (by apply list_lookup_insert_eq).
      rewrite take_insert_ge in Hinv2 by lia. rewrite <- app_assoc in Hinv2. done.
    + intros o j x Ho Hx. etransitivity; [exact (Hkept2 o j x Ho Hx)|exact (Hkept o j x Ho Hx)].
Qed.

(** Trimming drops punched regions off the low end only. *)
Lemma trim_spec (ds : list LocalDedicatedRegion) :
  exists tail, ds = trim ds ++ tail /\ Forall (fun d => d_updated d = DEDICATED_REGION_PUNCHED) tail.
Proof.
  unfold trim. assert (Er : ds = rev (rev ds)) by (by rewrite rev_involutive).
  revert Er. generalize (rev ds). intros l ->. induction l as [|d l IH]; [by exists []|].
  cbn [trim_front]. case_if.
  - bools. destruct IH as (tail & Ht & HF). exists (tail ++ [d]). cbn. rewrite Ht at 1. rewrite <- app_assoc.
    split; [done|]. apply Forall_app. split; [done|]. by constructor.
  - exists []. rewrite app_nil_r. by split.
Qed.

Lemma chain_app (l1 l2 : list LocalDedicatedRegion) (hi lo : Z) :
  chain hi (l1 ++ l2) lo ->
  exists mid, chain hi l1 mid /\ chain mid l2 lo /\
    mid = match last l1 with Some d => d_offset d | None => hi end.
Proof.
  revert hi. induction l1 as [|d l1 IH]; intros hi Hc; cbn [app chain] in Hc |- *.
  - by exists hi.
  - destruct Hc as (E & Hp & Hc). destruct (IH _ Hc) as (mid & H1 & H2 & H3). exists mid.
    split; [done|]. split; [done|]. rewrite H3. change (last (d :: l1)) with (last ([d] ++ l1)).
    rewrite last_app. by destruct (last l1).
Qed.

Lemma chain_le (ds : list LocalDedicatedRegion) (hi lo : Z) : chain hi ds lo -> lo <= hi.
Proof.
  destruct ds as [|d ds]; intros Hc; [cbn in Hc; lia|].
  destruct (chain_bounds (d :: ds) hi lo 0 d Hc eq_refl). lia.
Qed.

Lemma trim_inv (lm : LocalManager) (m : mem) (vals : list Z) (B : Z -> Z -> Prop) :
  lm_inv lm m vals B ->
  let ds := trim (lm_dedicated lm) in
  lm_inv (with_dedicated lm ds (match last ds with Some d => d_offset d | None => lm_size lm end)) m vals B.
Proof.
  intros (lives & busy & Hok & HB) ds. destruct (trim_spec (lm_dedicated lm)) as (tail & E & HF).
  fold ds in E. pose proof Hok as [Hring Hb Hlen Hpl Hreg Hse Hpin Hbl Hch Hded Hbd].
  pose proof Hch as Hch0. rewrite E in Hch. destruct (chain_app ds tail _ _ Hch) as (mid & C1 & C2 & C3).
  pose proof (chain_le _ _ _ C2) as Hle.
  assert (Hidle : forall i d b, (length ds <= i)%nat -> lm_dedicated lm !! i = Some d -> busy !! i = Some b -> b = false).
  { intros i d b Hi Hd Hbi. destruct (Hded i d b Hd Hbi) as [(_ & _ & _ & _ & _ & Hu) _].
    destruct b; [|done]. destruct (Hu eq_refl) as (_ & _ & Hne). exfalso. apply Hne.
    rewrite E, lookup_app_r in Hd by done. rewrite Forall_lookup in HF. by apply (HF (i - length ds)%nat). }
  assert (Hsub : forall i d, ds !! i = Some d -> lm_dedicated lm !! i = Some d).
  { intros i d Hi. rewrite E. by apply lookup_app_l_Some. }
  assert (Hlk : forall i, (i < length ds)%nat -> take (length ds) busy !! i = busy !! i).
  { intros i Hi. by apply lookup_take_lt. }
  exists lives, (take (length ds) busy). split.
  - split; cbn; try done.
    + rewrite length_take. rewrite Hbl, E, length_app. lia.
    + by rewrite <- C3.
    + intros i d b Hi Hbi. pose proof (lookup_lt_Some _ _ _ Hi). rewrite Hlk in Hbi by done.
      apply (Hded i d b); [by apply Hsub|done].
    + rewrite <- C3. lia.
  - intros o k. rewrite HB. unfold is_buf. cbn.
    split; (intros [Hs|(j & e & Hj & Hbj & Ho & Hk)]; [by left|right]); exists j, e.
    + assert (Hlt : (j < length ds)%nat).
      { destruct (decide (j < length ds)%nat); [done|]. by pose proof (Hidle j e true ltac:(lia) Hj Hbj). }
      rewrite Hlk by done. split; [|done]. rewrite E in Hj. by rewrite lookup_app_l in Hj by done.
    + pose proof (lookup_lt_Some _ _ _ Hj). rewrite Hlk in Hbj by done. split; [by apply Hsub|done].
Qed.

Lemma prune_spec (lm : LocalManager) (m : mem) (vals : list Z) (B : Z -> Z -> Prop) (now : Z)
    (punch : Z -> Z -> mem -> mem) :
  lm_inv lm m vals B -> punch_ok (lm_data lm) punch ->
  let '(lm', m') := prune_idle_regions lm m now punch in
  lm_inv lm' m' vals B /\ same_manager lm lm' /\ bufs_kept lm B m m' /\
  take (lm_min_shared lm) (lm_shared lm') = take (lm_min_shared lm) (lm_shared lm).
Proof.
  intros Hinv Hpk. unfold prune_idle_regions. destruct (lm_closed lm) eqn:Ecl; [done|].
  pose proof (punch_regions_spec punch vals B now _ lm m (lm_min_shared lm) Hpk Hinv eq_refl) as H1.
  destruct (punch_regions (drop (lm_min_shared lm) (lm_shared lm)) m now punch) as [rest m1].
  destruct H1 as (Hinv1 & K1 & Hlen). set (lm1 := with_shared lm _) in *.
  pose proof (punch_dedicated_spec punch vals B now (lm_dedicated lm) lm1 m1 0 Hpk Hinv1 eq_refl) as H2.
  destruct (punch_dedicated (lm_dedicated lm) m1 now punch) as [ds m2].
  destruct H2 as (Hinv2 & K2). cbn [take app] in Hinv2. apply trim_inv in Hinv2. cbn in Hinv2.
  split; [exact Hinv2|]. rewrite length_drop in Hlen.
  assert (Hp : (lm_min_shared lm <= length (lm_shared lm))%nat).
  { destruct Hinv as (lives & busy & Hok & _). apply (lo_pinned _ _ _ _ _ Hok). }
  split; [|split].
  - unfold same_manager. cbn. rewrite length_app, length_take, Hlen. repeat (split; [done|]). lia.
  - intros o l x Ho Hx. etransitivity; [exact (K2 o l x Ho Hx)|exact (K1 o l x Ho Hx)].
  - cbn. rewrite take_app_length'; [done|]. rewrite length_take. lia.
Qed.
