(* ===== verification/LocalManagerExec.v ===== *)
(** * Construction and executions of a segment

    Interleavings of the owner's operations with what the holders of buffers do:
    writing into a buffer they hold, handing its offset back through the release
    queue.  A holder keeps to the protocol: it writes inside its buffer, leaves
    the offset and capacity stamped there alone, keeps the length within the
    capacity, and releases a buffer once. *)

From Stdlib Require Import ZArith Lia String.
From stdpp Require Import base numbers list gmap strings.
From S2P Require Import Prelude Header BufHeader Region RegionFacts Mpsc MpscFacts MpscSeq LocalManager.
From S2P Require Import LocalManagerFacts LocalManagerSpec LocalManagerAlloc LocalManagerPrune.
From S2P Require Buddy Fixed.

#[local] Open Scope Z_scope.

(** ** Construction *)

(** The payload limit depends on the configuration only, not on the place. *)
Lemma shared_new_payload (env : option string) (d d' size o o' mn mx : Z) (r r' : SharedRegion) :
  shared_new env d size o mn mx = Some (Ok r) -> shared_new env d' size o' mn mx = Some (Ok r') ->
  max_payload r = max_payload r'.
Proof.
  unfold shared_new. destruct (decide _).
  - destruct (Fixed.new_from_config size _) as [[f|e']|]; cbn; try done.
    intros H1 H2. by injection H1 as <-; injection H2 as <-.
  - destruct (Buddy.new_with_block_size size mn mx); cbn; try done.
    intros H1 H2. by injection H1 as <-; injection H2 as <-.
Qed.

(** Every region the loop builds, in place and idle. *)
Lemma build_regions_spec (env : option string) (data mn mx : Z) (n : nat) (off : Z)
    (rs : list SharedRegion) (stop : Z) :
  build_regions env data n off mn mx = Some (Ok (rs, stop)) ->
  length rs = n /\ stop = off + Z.of_nat n * SHARED_REGION_SIZE /\
  forall i r, rs !! i = Some r ->
    let o := off + Z.of_nat i * SHARED_REGION_SIZE in
    shared_new env (data + o) SHARED_REGION_SIZE o mn mx = Some (Ok r).
Proof.
  revert off rs stop. induction n as [|n IH]; intros off rs stop Hb; cbn [build_regions] in Hb.
  - injection Hb as <- <-. split; [done|]. split; [lia|]. intros i r Hi. by rewrite lookup_nil in Hi.
  - destruct (shared_new env (data + off) _ off mn mx) as [[r0|e']|] eqn:E0; cbn in Hb; try done.
    destruct (build_regions env data n _ mn mx) as [[[rs1 stop1]|e']|] eqn:E1; cbn in Hb; try done.
    injection Hb as <- <-. destruct (IH _ _ _ E1) as (El & Es & Hi). split; [cbn; lia|].
    split; [lia|]. intros i r Hr o. subst o. destruct i as [|i]; cbn in Hr.
    + injection Hr as <-. by rewrite Z.mul_0_l, Z.add_0_r.
    + specialize (Hi i r Hr). cbv zeta in Hi.
      replace (off + Z.of_nat (S i) * SHARED_REGION_SIZE)
        with (off + SHARED_REGION_SIZE + Z.of_nat i * SHARED_REGION_SIZE) by lia. done.
Qed.

Lemma new_with_size_inv (env : option string) (m m' : mem) (data total pinned cap mn mx : Z) (lm : LocalManager) :
  new_with_size env m data total pinned cap mn mx = Some (Ok lm, m') ->
  0 <= pinned -> RQ_SIZE + cap <= total -> total <= I64_MAX ->
  lm_inv lm m' [] (fun _ _ => False) /\ lm_data lm = data /\ lm_size lm = total /\
  lm_closed lm = false /\ mem_frame data (data + RQ_SIZE) m m' /\
  Z.of_nat (length (lm_shared lm)) = cap / SHARED_REGION_SIZE /\
  Z.of_nat (lm_min_shared lm) = pinned / SHARED_REGION_SIZE.
Proof.
  intros Hn Hp Hfit Hmax. unfold new_with_size in Hn. pose proof region_size_pos as Hrs.
  case_if_in Hn; [done|]. case_if_in Hn; [done|]. case_if_in Hn; [done|]. case_if_in Hn; [done|]. bools.
  destruct (new_rq m data RQ_SIZE) as [[rq|e'] m1] eqn:Eq; [|done].
  assert (Hcap : 0 <= cap / SHARED_REGION_SIZE) by (apply Z.div_pos; lia).
  destruct (build_regions env data _ RQ_SIZE mn mx) as [[[rs stop]|e']|] eqn:Eb; cbn [mbind option_bind] in Hn; try done.
  injection Hn as <- <-. destruct (build_regions_spec _ _ _ _ _ _ _ _ Eb) as (El & Es & Hr).
  unfold new_rq in Eq. rewrite Z.ltb_irrefl in Eq.
  destruct (mpsc_new_ok m m1 data RQ_SIZE rq ltac:(done) Eq) as (Hring & Q1 & Q2 & _ & Hf).
  assert (Hstop : stop <= total).
  { rewrite Es, Z2Nat.id by done. pose proof (Z.mul_div_le cap SHARED_REGION_SIZE Hrs). lia. }
  assert (Hreg : forall i r, rs !! i = Some r ->
    region_ok r m1 [] /\ r_offset r = RQ_SIZE + Z.of_nat i * SHARED_REGION_SIZE /\
    r_size r = SHARED_REGION_SIZE /\ r_data r = data + r_offset r).
  { intros i r Hi. pose proof (Hr i r Hi) as Hc. cbv zeta in Hc. pose proof (lookup_lt_Some _ _ _ Hi).
    destruct (shared_new_ok _ _ _ _ _ _ r m1 Hc) as (Hok & Eo & Esz & Ed).
    - pose proof rq_size_pos. lia.
    - done.
    - nia.
    - split; [done|]. rewrite Ed, Eo. done. }
  assert (Hpin : 0 <= pinned / SHARED_REGION_SIZE) by (apply Z.div_pos; lia).
  split; [|split; [done|split; [done|split; [done|split; [done|]]]]; cbn; lia].
  exists (repeat [] (length rs)), []. split.
  - split; cbn [lm_rq lm_data lm_shared lm_max_shared_offset lm_min_shared lm_dedicated lm_ded_offset lm_size]; try done.
    + by rewrite repeat_length.
    + intros i r Hi. destruct (Hreg i r Hi) as (_ & ? & ? & ?). split; [done|]. split; [done|].
      split; [done|]. cbn. destruct rs as [|r0 rs]; [done|].
      apply (shared_new_payload env _ _ SHARED_REGION_SIZE _ _ mn mx _ _ (Hr i r Hi) (Hr 0%nat r0 eq_refl)).
    + intros i r l Hi Hl. assert (l = []) as ->; [|by destruct (Hreg i r Hi)].
      apply list_elem_of_lookup_2, list_elem_of_In, repeat_spec in Hl. done.
    + rewrite Es, El. done.
    + rewrite El. apply Z2Nat.inj_le; [apply Z.div_pos; lia|done|]. apply Z.div_le_mono; lia.
  - intros o l. split; [done|]. intros [(i & r & li & s & _ & Hl & Hs & _)|(i & d & Hi & _)].
    + apply list_elem_of_lookup_2, list_elem_of_In, repeat_spec in Hl. by subst li.
    + cbn in Hi. by rewrite lookup_nil in Hi.
Qed.

(** The set of buffers matters up to extension only. *)
Lemma lm_inv_ext (lm : LocalManager) (m : mem) (vals : list Z) (B B' : Z -> Z -> Prop) :
  lm_inv lm m vals B -> (forall o l, B' o l <-> B o l) -> lm_inv lm m vals B'.
Proof.
  intros (lives & busy & Hok & HB) He. exists lives, busy. split; [done|]. intros o l. by rewrite He.
Qed.

Lemma ring_ok_cache (q : ReleaseQueue) (m : mem) (vals : list Z) (h : Z) :
  ring_ok q m vals -> 0 <= h <= get_head q m -> ring_ok (with_cache q h) m vals.
Proof. intros [H1 H2 H3 H4 H5 H6 H7 H8] Hh. split; try done. by apply geo_cache. Qed.

(** The header every live buffer carries. *)
Lemma buf_stamp (lm : LocalManager) (m : mem) (vals : list Z) (B : Z -> Z -> Prop) (off len : Z) :
  lm_inv lm m vals B -> B off len ->
  get_offset m (lm_data lm + off) = off /\ get_cap m (lm_data lm + off) = len - 24 /\
  get_len m (lm_data lm + off) <= len - 24.
Proof.
  intros (lives & busy & Hok & HB) Hb. apply HB in Hb.
  destruct Hb as [(i & r & l & s & Hi & Hl & Hs & -> & ->)|(i & d & Hi & Hbz & -> & ->)].
  - destruct (span_range _ _ _ _ _ Hok i r l s Hi Hl Hs) as (_ & _ & _ & Ep).
    pose proof (ro_bufs _ _ _ (lo_regions _ _ _ _ _ Hok i r l Hi Hl)) as Hb.
    rewrite List.Forall_forall in Hb. destruct (Hb s Hs) as (_ & H1 & H2 & H3).
    rewrite Ep in H1, H2, H3. split; [done|]. split; lia.
  - destruct (lo_dedicated _ _ _ _ _ Hok i d true Hi Hbz) as [(_ & _ & _ & _ & H1 & H2) Ed].
    rewrite Ed in H1, H2. destruct (H2 eq_refl) as (H3 & H4 & _). done.
Qed.

(** What the holder of a buffer may do to memory. *)
Definition holder_writes (lm : LocalManager) (off len : Z) (m m' : mem) : Prop :=
  mem_frame (lm_data lm + off + 8) (lm_data lm + off + len) m m' /\
  get_cap m' (lm_data lm + off) = get_cap m (lm_data lm + off) /\
  get_len m' (lm_data lm + off) <= get_cap m (lm_data lm + off).

Lemma frame_offset (m m' : mem) (p hi : Z) :
  mem_frame (p + 8) hi m m' -> get_offset m' p = get_offset m p.
Proof.
  intros Hf. unfold get_offset, load_i64. f_equal. apply load_ext. intros x Hx. apply Hf. simpl in Hx. lia.
Qed.

Lemma region_writes (r : SharedRegion) (m m' : mem) (l1 l2 : list span) (s : span) :
  region_ok r m (l1 ++ s :: l2) ->
  mem_frame (buf_ptr r s + 8) (buf_ptr r s + (sp_size s - 8)) m m' ->
  get_cap m' (buf_ptr r s) = get_cap m (buf_ptr r s) ->
  get_len m' (buf_ptr r s) <= get_cap m (buf_ptr r s) ->
  region_ok r m' (l1 ++ s :: l2).
Proof.
  intros Hr Hf Hc Hl. pose proof Hr as [Ha Hn Hi Hb Ho He Hs]. unfold ALLOCATOR_HEADER_SIZE in *.
  rewrite List.Forall_forall in Hb.
  assert (Hin : In s (l1 ++ s :: l2)) by (apply in_app_iff; right; by left).
  assert (Hdis : forall t, In t (l1 ++ s :: l2) -> t <> s -> span_disjoint s t).
  { intros t Ht Hne. apply (live_disjoint _ _ _ l1 l2 s t Ha). by apply (in_others l1 l2 s). }
  assert (Hsz : forall t, In t (l1 ++ s :: l2) -> 32 <= sp_size t) by (intros t Ht; by destruct (Hb t Ht)).
  pose proof (Hsz s Hin) as Hss. unfold buf_ptr, span_disjoint in *.
  split; try done.
  - apply (law_frame _ _ m); [done|]. intros t x Ht Hx. apply Hf. cbn [region_arena a_base].
    unfold ALLOCATOR_HEADER_SIZE in *. pose proof (Hsz t Ht).
    destruct (decide (t = s)) as [->|Hne]; [lia|]. specialize (Hdis t Ht Hne). lia.
  - apply List.Forall_forall. intros t Ht. destruct (Hb t Ht) as (B1 & B2 & B3 & B4).
    unfold buf_ok, buf_ptr in *. destruct (decide (t = s)) as [->|Hne].
    + rewrite (frame_offset m m' _ _ Hf), Hc. repeat split; try done. lia.
    + assert (E : get_hdr m' (r_data r + sp_off t + 8) = get_hdr m (r_data r + sp_off t + 8)).
      { apply (get_hdr_frame _ _ m m' _ Hf). specialize (Hdis t Ht Hne). lia. }
      injection E as E1 E2 E3 E4. by rewrite E1, E3, E4.
Qed.

Lemma holder_writes_inv (lm : LocalManager) (m m' : mem) (vals : list Z) (B : Z -> Z -> Prop) (off len : Z) :
  lm_inv lm m vals B -> B off len -> holder_writes lm off len m m' -> lm_inv lm m' vals B.
Proof.
  intros (lives & busy & Hok & HB) Hb (Hf & Hc & Hl). apply HB in Hb. exists lives, busy. split; [|done].
  destruct Hb as [(i & r & l & s & Hi & Hlv & Hs & -> & ->)|(i & d & Hi & Hbz & -> & ->)].
  - destruct (span_range _ _ _ _ _ Hok i r l s Hi Hlv Hs) as (S1 & S2 & S3 & Ep).
    destruct (lo_placed _ _ _ _ _ Hok i r Hi) as (_ & _ & E3 & _).
    pose proof (lo_regions _ _ _ _ _ Hok i r l Hi Hlv) as Hr. rewrite <- Ep in Hf, Hc, Hl.
    pose proof Hs as Hs'. apply in_split in Hs' as (l1 & l2 & El). rewrite El in Hr.
    pose proof (region_writes r m m' l1 l2 s Hr Hf Hc Hl) as Hr'. rewrite <- El in Hr'.
    assert (Hsame : same_region r r) by (repeat split; done).
    pose proof (shared_update lm m lives busy vals Hok i r r l l m' Hi Hlv Hsame Hr') as Hu.
    rewrite (list_insert_id _ _ _ Hi), (list_insert_id _ _ _ Hlv) in Hu. destruct lm; apply Hu.
    eapply mem_frame_weaken; [| |exact Hf]; unfold buf_ptr; lia.
  - destruct (lo_dedicated _ _ _ _ _ Hok i d true Hi Hbz) as [(D1 & D2 & D3 & D4 & D5 & D6) Ed].
    rewrite <- Ed in Hf, Hc, Hl.
    pose proof (dedicated_update lm m lives busy vals Hok i d d true true m' Hi Hbz eq_refl eq_refl eq_refl) as Hu.
    rewrite (list_insert_id _ _ _ Hi), (list_insert_id _ _ _ Hbz) in Hu. destruct lm; apply Hu.
    + destruct (D6 eq_refl) as (G1 & G2 & G3). unfold dedicated_ok.
      rewrite (frame_offset m m' _ _ Hf). repeat split; try done; lia.
    + eapply mem_frame_weaken; [| |exact Hf]; lia.
Qed.

(** A release the peer pushes, whatever head it has cached. *)
Lemma release_push (lm : LocalManager) (m : mem) (vals : list Z) (B : Z -> Z -> Prop) (off len h : Z) :
  lm_inv lm m vals B -> B off len -> 0 <= h <= get_head (lm_rq lm) m ->
  get_tail (lm_rq lm) m + 1 < POS_MAX ->
  exists b q' m', try_push (with_cache (lm_rq lm) h) m off = Some (b, q', m') /\
    b = (Z.of_nat (length vals) <? cap (lm_rq lm)) /\ (exists h', q' = with_cache (lm_rq lm) h') /\
    lm_inv lm m' (if b then vals ++ [off] else vals) B /\
    mem_frame (lm_data lm) (lm_data lm + RQ_SIZE) m m'.
Proof.
  intros (lives & busy & Hok & HB) Hb Hh Hp. apply HB in Hb.
  destruct (lo_base _ _ _ _ _ Hok) as [Eb El]. pose proof (lo_ring _ _ _ _ _ Hok) as Hring.
  destruct (is_buf_range _ _ _ _ _ Hok off len Hb) as (R1 & R2 & R3).
  pose proof (lo_bound _ _ _ _ _ Hok) as [_ Hmax].
  assert (Hoff : pok off) by (cbn; pose proof rq_size_pos; unfold I64_MAX in *; lia).
  destruct (try_push_spec (with_cache (lm_rq lm) h) m vals off (ring_ok_cache _ _ _ h Hring Hh) Hp Hoff)
    as (b & q' & m' & E & -> & (h' & -> & Ehd) & Hr' & Hf & _).
  change (q_base (with_cache (lm_rq lm) h)) with (q_base (lm_rq lm)) in Hf.
  change (q_len (with_cache (lm_rq lm) h)) with (q_len (lm_rq lm)) in Hf. rewrite Eb, El in Hf.
  eexists _, _, m'. split; [exact E|]. split; [done|]. split; [by exists h'|]. split; [|done].
  exists lives, busy. split; [|done]. apply (lm_ok_ring lm m m' lives busy vals); [done| |done].
  destruct Hr' as [G1 G2 G3 G4 G5 G6 G7 G8]. pose proof (rk_cache _ _ _ Hring) as Hc.
  pose proof (rk_geo _ _ _ Hring) as Hg. split; try done.
  change (get_head (with_cache (lm_rq lm) h)) with (get_head (lm_rq lm)) in Ehd. by rewrite Ehd.
Qed.

(** Allocation, release queue drained first. *)
Lemma lm_alloc_spec (lm : LocalManager) (m : mem) (vals : list Z) (B : Z -> Z -> Prop) (now size : Z) :
  lm_inv lm m vals B -> NoDup vals -> (forall o, In o vals -> exists l, B o l) ->
  lm_closed lm = false -> 0 < size -> 0 < now ->
  exists res lm' m', lm_alloc lm m now size = Some (res, lm', m') /\ same_manager lm lm' /\
    (forall o l x, B o l -> ~ In o vals -> o <= x < o + l ->
       rd m' (lm_data lm + x) = rd m (lm_data lm + x)) /\
    match res with
    | Ok p => exists off len, p = lm_data lm + off /\
        lm_inv lm' m' [] (fun o l => (B o l /\ ~ In o vals) \/ (o = off /\ l = len)) /\
        get_hdr m' p = mkHdr off 0 size (len - 24) /\ size + 24 <= len /\
        (forall o l, B o l -> ~ In o vals -> o + l <= off \/ off + len <= o)
    | Err e => e = NoSpace /\ lm_inv lm' m' [] (fun o l => B o l /\ ~ In o vals)
    end.
Proof.
  intros Hinv Hnd Hin Hc Hs Hn. unfold lm_alloc. rewrite Hc, (proj2 (Z.eqb_neq size 0)) by lia.
  rewrite (rq_pending_spec lm m vals B Hinv).
  assert (Hd : exists lm1 m1, (if Z.of_nat (length vals) >? 0
      then '(_, lm, m) ← drain_rq_inner lm m now; alloc_fresh lm m now size
      else alloc_fresh lm m now size) = alloc_fresh lm1 m1 now size /\
    same_manager lm lm1 /\ lm_inv lm1 m1 [] (fun o l => B o l /\ ~ In o vals) /\
    (forall o l x, B o l -> ~ In o vals -> o <= x < o + l ->
       rd m1 (lm_data lm + x) = rd m (lm_data lm + x))).
  { case_if; bools.
    - destruct (drain_spec lm m vals B now Hinv Hnd Hin) as (lm1 & m1 & E1 & Hsm & Hi & Hk).
      exists lm1, m1. rewrite E1. done.
    - destruct vals; [|cbn in *; lia]. exists lm, m. do 2 (split; [done|]). split; [|done].
      apply (lm_inv_ext lm m [] B); [done|]. intros o l. cbn. tauto. }
  destruct Hd as (lm1 & m1 & -> & Hsm & Hinv1 & Hk).
  destruct (alloc_fresh_spec lm1 m1 [] _ now size Hinv1 ltac:(lia) Hn) as (res & lm2 & m2 & -> & Hsm2 & Hres).
  pose proof Hsm as (Ed & _).
  exists res, lm2, m2. split; [done|]. split; [by apply (same_manager_trans lm lm1)|].
  destruct res as [p|e'].
  - destruct Hres as (off & len & -> & Hi2 & Hh & Hl & Hdis & Hk2). rewrite Ed in *. split.
    + intros o l x Ho Hno Hx. rewrite (Hk2 o l x) by done. by apply (Hk o l x).
    + exists off, len. split; [done|]. split; [done|]. split; [done|]. split; [done|]. intros o l Ho Hno. by apply Hdis.
  - destruct Hres as (-> & -> & Hi2). split; [done|]. done.
Qed.

(** ** Steps *)

Record lstate : Type := mkL {
  ls_lm : LocalManager;
  ls_mem : mem;
  ls_queue : list Z;
  ls_bufs : Z -> Z -> Prop;
}.

Definition no_bufs : Z -> Z -> Prop := fun _ _ => False.

(** A label names the buffer its holder writes or gives up. *)
Inductive lstep : option Z -> lstate -> lstate -> Prop :=
| l_alloc lm m q B now size p lm' m' :
    0 < size -> 0 < now -> lm_alloc lm m now size = Some (Ok p, lm', m') ->
    lstep None (mkL lm m q B)
      (mkL lm' m' [] (fun o l => (B o l /\ ~ In o q) \/ (o = p - lm_data lm /\ l = get_cap m' p + 24)))
| l_refuse lm m q B now size e lm' m' :
    0 < size -> 0 < now -> lm_alloc lm m now size = Some (Err e, lm', m') ->
    lstep None (mkL lm m q B) (mkL lm' m' [] (fun o l => B o l /\ ~ In o q))
| l_drain lm m q B now n lm' m' :
    drain_rq lm m now = Some (n, lm', m') ->
    lstep None (mkL lm m q B) (mkL lm' m' [] (fun o l => B o l /\ ~ In o q))
| l_free lm m q B now off len lm' m' :
    B off len -> ~ In off q -> lm_free_at lm m now off = Some (lm', m') ->
    lstep (Some off) (mkL lm m q B) (mkL lm' m' q (fun o l => B o l /\ o <> off))
| l_release lm m (q : list Z) B off len h q' m' :
    B off len -> ~ In off q -> 0 <= h <= get_head (lm_rq lm) m -> get_tail (lm_rq lm) m + 1 < POS_MAX ->
    try_push (with_cache (lm_rq lm) h) m off = Some (true, q', m') ->
    lstep (Some off) (mkL lm m q B) (mkL lm m' (q ++ [off]) B)
| l_write lm m q B off len m' :
    B off len -> ~ In off q -> holder_writes lm off len m m' ->
    lstep (Some off) (mkL lm m q B) (mkL lm m' q B)
| l_prune lm m q B now punch lm' m' :
    punch_ok (lm_data lm) punch -> prune_idle_regions lm m now punch = (lm', m') ->
    lstep None (mkL lm m q B) (mkL lm' m' q B).

Inductive lsteps : list (option Z) -> lstate -> lstate -> Prop :=
| lsteps_nil st : lsteps [] st st
| lsteps_cons lbl lbls st1 st2 st3 :
    lstep lbl st1 st2 -> lsteps lbls st2 st3 -> lsteps (lbl :: lbls) st1 st3.

(** The release queue holds live buffers, each once. *)
Definition lstate_ok (st : lstate) : Prop :=
  lm_inv (ls_lm st) (ls_mem st) (ls_queue st) (ls_bufs st) /\ NoDup (ls_queue st) /\
  (forall o, In o (ls_queue st) -> exists l, ls_bufs st o l) /\ lm_closed (ls_lm st) = false.

(** What a step leaves of a buffer it does not name. *)
Definition undisturbed (st st' : lstate) (o l : Z) : Prop :=
  ls_bufs st' o l /\ ~ In o (ls_queue st') /\
  forall x, o <= x < o + l ->
    rd (ls_mem st') (lm_data (ls_lm st) + x) = rd (ls_mem st) (lm_data (ls_lm st) + x).

Lemma bufs_functional (lm : LocalManager) (m : mem) (vals : list Z) (B : Z -> Z -> Prop) (o l l' : Z) :
  lm_inv lm m vals B -> B o l -> B o l' -> l = l'.
Proof.
  intros Hinv H1 H2. destruct (buf_stamp lm m vals B o l Hinv H1) as (_ & E1 & _).
  destruct (buf_stamp lm m vals B o l' Hinv H2) as (_ & E2 & _). lia.
Qed.

Lemma bufs_disjoint (lm : LocalManager) (m : mem) (vals : list Z) (B : Z -> Z -> Prop) (o l o' l' : Z) :
  lm_inv lm m vals B -> B o l -> B o' l' -> o <> o' -> o + l <= o' \/ o' + l' <= o.
Proof.
  intros (lives & busy & Hok & HB) H1 H2. apply HB in H1, H2. by apply (is_buf_disjoint _ _ _ _ _ Hok).
Qed.

Lemma bufs_range (lm : LocalManager) (m : mem) (vals : list Z) (B : Z -> Z -> Prop) (o l : Z) :
  lm_inv lm m vals B -> B o l -> RQ_SIZE <= o /\ 24 <= l /\ o + l <= lm_size lm.
Proof.
  intros (lives & busy & Hok & HB) H1. apply HB in H1.
  destruct (is_buf_range _ _ _ _ _ Hok o l H1). lia.
Qed.

Lemma lstep_ok (lbl : option Z) (st st' : lstate) :
  lstep lbl st st' -> lstate_ok st ->
  lstate_ok st' /\ same_manager (ls_lm st) (ls_lm st') /\
  forall o l, ls_bufs st o l -> ~ In o (ls_queue st) -> lbl <> Some o -> undisturbed st st' o l.
Proof.
  intros Hst (Hinv & Hnd & Hin & Hc). unfold undisturbed.
  destruct Hst as [lm m q B now size p lm' m' Hs Hn E | lm m q B now size e lm' m' Hs Hn E
    | lm m q B now n lm' m' E | lm m q B now off len lm' m' Hb Hno E
    | lm m q B off len h q' m' Hb Hno Hh Hp E | lm m q B off len m' Hb Hno Hw
    | lm m q B now punch lm' m' Hp E]; cbn [ls_lm ls_mem ls_queue ls_bufs] in *.
  - destruct (lm_alloc_spec lm m q B now size Hinv Hnd Hin Hc Hs Hn) as (res & lm1 & m1 & E1 & Hsm & Hk & Hres).
    rewrite E in E1. injection E1 as <- <- <-. destruct Hres as (off & len & -> & Hinv' & Hh & _).
    injection Hh as _ _ _ Ecap. split; [|split; [done|]].
    + split; [|split; [constructor|split; [by intros o []|]]].
      * apply (lm_inv_ext _ _ _ _ _ Hinv'). intros o l. cbn [ls_bufs]. rewrite Ecap.
        replace (lm_data lm + off - lm_data lm) with off by lia. by replace (len - 24 + 24) with len by lia.
      * cbn. destruct Hsm as (_ & _ & _ & _ & _ & _ & Ec & _). by rewrite Ec.
    + intros o l Ho Hno _. split; [by left|]. split; [by intros []|]. intros x Hx. by apply (Hk o l).
  - destruct (lm_alloc_spec lm m q B now size Hinv Hnd Hin Hc Hs Hn) as (res & lm1 & m1 & E1 & Hsm & Hk & Hres).
    rewrite E in E1. injection E1 as <- <- <-. destruct Hres as [-> Hinv']. split; [|split; [done|]].
    + split; [done|split; [constructor|split; [by intros o []|]]].
      cbn. destruct Hsm as (_ & _ & _ & _ & _ & _ & Ec & _). by rewrite Ec.
    + intros o l Ho Hno _. split; [done|]. split; [by intros []|]. intros x Hx. by apply (Hk o l).
  - unfold drain_rq in E. rewrite Hc in E.
    destruct (drain_spec lm m q B now Hinv Hnd Hin) as (lm1 & m1 & E1 & Hsm & Hinv' & Hk).
    rewrite E in E1. injection E1 as -> <- <-. split; [|split; [done|]].
    + split; [done|split; [constructor|split; [by intros o []|]]].
      cbn. destruct Hsm as (_ & _ & _ & _ & _ & _ & Ec & _). by rewrite Ec.
    + intros o l Ho Hno _. split; [done|]. split; [by intros []|]. intros x Hx. by apply (Hk o l).
  - unfold lm_free_at in E. rewrite Hc in E.
    destruct (free_at_inner_spec lm m q B now off len Hinv Hb) as (lm1 & m1 & E1 & Hsm & Hinv' & Hk & _).
    rewrite E in E1. injection E1 as <- <-. split; [|split; [done|]].
    + split; [done|]. split; [done|]. split.
      * intros o Ho. destruct (Hin o Ho) as [l Hl]. exists l. split; [done|]. by intros ->.
      * cbn. destruct Hsm as (_ & _ & _ & _ & _ & _ & Ec & _). by rewrite Ec.
    + intros o l Ho Hno' Hne. assert (o <> off) by congruence. split; [done|]. split; [done|].
      intros x Hx. by apply (Hk o l).
  - destruct (release_push lm m q B off len h Hinv Hb Hh Hp) as (b & q1 & m1 & E1 & Eb & _ & Hinv' & Hf).
    rewrite E in E1. injection E1 as <- <- <-. split; [|split; [done|]].
    + split; [done|]. split; [|split; [|done]].
      * apply NoDup_app. split; [done|]. split; [|by apply NoDup_singleton].
        intros o Ho. rewrite list_elem_of_singleton. intros ->. by apply Hno, list_elem_of_In.
      * intros o Ho. apply in_app_iff in Ho as [Ho | [<- | []]]; [by apply Hin|by exists len].
    + intros o l Ho Hno' Hne. assert (o <> off) by congruence. split; [done|]. split.
      * rewrite in_app_iff. cbn. intuition.
      * intros x Hx. apply Hf. destruct (bufs_range lm m q B o l Hinv Ho). lia.
  - split; [|split; [done|]].
    + split; [|done]. by apply (holder_writes_inv lm m m' q B off len).
    + intros o l Ho Hno' Hne. assert (o <> off) by congruence. split; [done|]. split; [done|].
      intros x Hx. destruct Hw as [Hf _]. apply Hf.
      destruct (bufs_disjoint lm m q B o l off len Hinv Ho Hb); [done|lia|lia].
  - pose proof (prune_spec lm m q B now punch Hinv Hp) as H. rewrite E in H.
    destruct H as (Hinv' & Hsm & Hk & _). split; [|split; [done|]].
    + split; [done|]. split; [done|]. split; [done|].
      cbn. destruct Hsm as (_ & _ & _ & _ & _ & _ & Ec & _). by rewrite Ec.
    + intros o l Ho Hno _. split; [done|]. split; [done|]. intros x Hx. by apply (Hk o l).
Qed.

Lemma lsteps_ok (lbls : list (option Z)) (st st' : lstate) :
  lsteps lbls st st' -> lstate_ok st ->
  lstate_ok st' /\ same_manager (ls_lm st) (ls_lm st') /\
  forall o l, ls_bufs st o l -> ~ In o (ls_queue st) -> ~ In (Some o) lbls -> undisturbed st st' o l.
Proof.
  intros Hs. induction Hs as [st|lbl lbls st1 st2 st3 Hst Hs IH]; intros Hok.
  - split; [done|]. split; [done|]. intros o l Ho Hno _. done.
  - destruct (lstep_ok lbl st1 st2 Hst Hok) as (Hok2 & Hsm & Hu). destruct (IH Hok2) as (Hok3 & Hsm3 & Hu3).
    split; [done|]. split; [by apply (same_manager_trans _ (ls_lm st2))|]. intros o l Ho Hno Hni.
    destruct (Hu o l Ho Hno) as (U1 & U2 & U3); [intros E; apply Hni; by left|].
    destruct (Hu3 o l U1 U2) as (V1 & V2 & V3); [intros E; apply Hni; by right|].
    split; [done|]. split; [done|]. intros x Hx. destruct Hsm as (Ed & _).
    rewrite <- U3 by done. rewrite <- Ed. by apply V3.
Qed.
