(* ===== verification/LocalManagerTheorems.v ===== *)
(** * What the owning side guarantees *)

From Stdlib Require Import ZArith Lia String.
From stdpp Require Import base numbers list gmap strings.
From S2P Require Import Prelude Header BufHeader Region RegionFacts Mpsc MpscFacts MpscSeq LocalManager.
From S2P Require Import LocalManagerFacts LocalManagerSpec LocalManagerAlloc LocalManagerPrune.
From S2P Require Import LocalManagerExec.
From S2P Require Buddy Fixed.

#[local] Open Scope Z_scope.

(** ** Construction always works out *)

Lemma shared_new_place (env : option string) (d d' size o o' mn mx : Z) (r : SharedRegion) :
  shared_new env d size o mn mx = Some (Ok r) -> exists r', shared_new env d' size o' mn mx = Some (Ok r').
Proof.
  unfold shared_new. destruct (decide _).
  - destruct (Fixed.new_from_config size _) as [[f|e']|]; cbn; try done. by eexists.
  - destruct (Buddy.new_with_block_size size mn mx); cbn; try done. by eexists.
Qed.

Lemma build_regions_total (env : option string) (data mn mx o : Z) (r : SharedRegion) (n : nat) (off : Z) :
  shared_new env 0 SHARED_REGION_SIZE o mn mx = Some (Ok r) ->
  exists rs stop, build_regions env data n off mn mx = Some (Ok (rs, stop)).
Proof.
  intros Hr. revert off. induction n as [|n IH]; intros off; cbn [build_regions]; [by eexists _, _|].
  destruct (shared_new_place env 0 (data + off) SHARED_REGION_SIZE o off mn mx r Hr) as [r' ->].
  cbn [mbind option_bind]. destruct (IH (off + SHARED_REGION_SIZE)) as (rs & stop & ->).
  cbn [mbind option_bind]. by eexists _, _.
Qed.

Lemma default_region (env : option string) :
  exists r, shared_new env 0 SHARED_REGION_SIZE RQ_SIZE MIN_BLOCK_SIZE MAX_BLOCK_SIZE = Some (Ok r).
Proof.
  destruct (decide (env = Some "fixed"%string)) as [->|Hne].
  - destruct (shared_new (Some "fixed"%string) _ _ _ _ _) as [[r|e']|] eqn:E; [by exists r| |];
      vm_compute in E; discriminate.
  - unfold shared_new. rewrite decide_False by done.
    destruct (Buddy.new_with_block_size _ _ _) as [b|e'] eqn:E; [by eexists|].
    vm_compute in E. discriminate.
Qed.

Lemma ring_geometry (data : Z) :
  (MAX_PAYLOAD_ALIGN | data) ->
  exists q, from_raw_parts Z data RQ_SIZE = Ok q /\ q_base q = data /\ cap q = 16384.
Proof.
  intros [k Hk]. unfold from_raw_parts.
  assert (Ha : is_multiple_of data MAX_PAYLOAD_ALIGN = true).
  { unfold is_multiple_of. rewrite Hk, Z.mod_mul by done. done. }
  rewrite Ha. by eexists.
Qed.

Lemma new_with_size_total (env : option string) (m : mem) (data total pinned cap0 mn mx o : Z) (r : SharedRegion) :
  (MAX_PAYLOAD_ALIGN | data) -> RQ_SIZE + SHARED_REGION_SIZE <= total -> pinned <= cap0 ->
  is_power_of_two mn = true -> is_power_of_two mx = true -> mn <= mx ->
  shared_new env 0 SHARED_REGION_SIZE o mn mx = Some (Ok r) ->
  exists lm m', new_with_size env m data total pinned cap0 mn mx = Some (Ok lm, m').
Proof.
  intros Ha Ht Hp H1 H2 Hm Hr. unfold new_with_size.
  rewrite (proj2 (Z.ltb_ge _ _)) by lia. rewrite (proj2 (Z.ltb_ge _ _)) by lia. rewrite H1, H2. cbn [negb orb].
  replace (mn >? mx) with false by (symmetry; rewrite Z.gtb_ltb; apply Z.ltb_ge; lia).
  unfold new_rq. rewrite Z.ltb_irrefl. unfold mpsc_new.
  destruct (ring_geometry data Ha) as (q & -> & _).
  destruct (build_regions_total env data mn mx o r (Z.to_nat (cap0 / SHARED_REGION_SIZE)) RQ_SIZE Hr)
    as (rs & stop & ->). cbn [mbind option_bind]. by eexists _, _.
Qed.

(** ** Theorems *)

(** The default segment is built on any aligned mapping. *)
Lemma lm_new_built (env : option string) (pinned : option Z) (m : mem) (data : Z) :
  (MAX_PAYLOAD_ALIGN | data) -> 0 <= default 0 pinned ->
  exists lm m', lm_new env pinned m data = Some (Ok lm, m') /\
    lm_inv lm m' [] no_bufs /\ length (lm_shared lm) = 64%nat /\
    Z.of_nat (lm_min_shared lm) = Z.min (default DEFAULT_PINNED_REGION_NUM pinned) 64 /\
    mem_frame data (data + RQ_SIZE) m m'.
Proof.
  intros Ha Hp. unfold lm_new. destruct (default_region env) as [r Hr].
  set (k := pinned_region_num_from pinned (DYNSHM_TOTAL_SIZE / 4 / SHARED_REGION_SIZE)).
  assert (Ek : k = Z.min (default DEFAULT_PINNED_REGION_NUM pinned) 64) by reflexivity.
  assert (Hk : 0 <= k <= 64).
  { rewrite Ek. destruct pinned; cbn in *; unfold DEFAULT_PINNED_REGION_NUM; lia. }
  assert (Ecap : DYNSHM_TOTAL_SIZE / 4 = SHARED_REGION_SIZE * 64) by reflexivity.
  pose proof region_size_pos.
  destruct (new_with_size_total env m data DYNSHM_TOTAL_SIZE (SHARED_REGION_SIZE * k)
              (DYNSHM_TOTAL_SIZE / 4) MIN_BLOCK_SIZE MAX_BLOCK_SIZE RQ_SIZE r) as (lm & m' & E);
    try done; [rewrite Ecap; nia|].
  exists lm, m'. split; [done|].
  destruct (new_with_size_inv _ _ _ _ _ _ _ _ _ _ E) as (Hinv & _ & _ & _ & Hf & Hl & Hm); [nia|done|done|].
  split; [done|]. split; [|split; [|done]].
  - rewrite Ecap, Z.mul_comm, Z.div_mul in Hl by lia. lia.
  - rewrite Hm, Z.mul_comm, Z.div_mul by lia. done.
Qed.

(** The default segment is always built: whichever allocator the
    environment selects and however many regions it pins, construction succeeds
    on a mapping aligned for the ring, yields sixty-four idle shared regions in
    place with nothing live, and writes only the release queue. *)
Theorem lm_new_correct (env : option string) (pinned : option Z) (m : mem) (data : Z) :
  (MAX_PAYLOAD_ALIGN | data) -> 0 <= default 0 pinned ->
  exists lm m', lm_new env pinned m data = Some (Ok lm, m') /\
    lm_inv lm m' [] no_bufs /\ length (lm_shared lm) = 64%nat /\
    Z.of_nat (lm_min_shared lm) = Z.min (default DEFAULT_PINNED_REGION_NUM pinned) 64 /\
    mem_frame data (data + RQ_SIZE) m m'.
Proof. apply lm_new_built. Qed.

(** C4. From the construction of a segment on, whatever the owner's allocations,
    drains, direct releases and prunings and whatever well-behaved holders write
    and release: the live buffers lie inside the mapping past the release queue,
    never overlap, and carry their own offset and capacity; the release queue
    holds live buffers, each once; and a buffer that is not queued and that no
    step of a later stretch names is still live at its end, every byte unchanged. *)
Theorem segment_executions (env : option string) (m0 m1 : mem) (data total pinned cap0 mn mx : Z)
    (lm : LocalManager) (before after : list (option Z)) (st1 st2 : lstate) :
  new_with_size env m0 data total pinned cap0 mn mx = Some (Ok lm, m1) ->
  0 <= pinned -> RQ_SIZE + cap0 <= total -> total <= I64_MAX ->
  lsteps before (mkL lm m1 [] no_bufs) st1 -> lsteps after st1 st2 ->
  (forall o l, ls_bufs st2 o l ->
     RQ_SIZE <= o /\ o + l <= total /\
     get_offset (ls_mem st2) (data + o) = o /\ get_cap (ls_mem st2) (data + o) = l - 24 /\
     get_len (ls_mem st2) (data + o) <= l - 24) /\
  (forall o l o' l', ls_bufs st2 o l -> ls_bufs st2 o' l' -> o <> o' -> o + l <= o' \/ o' + l' <= o) /\
  (forall o, In o (ls_queue st2) -> exists l, ls_bufs st2 o l) /\ NoDup (ls_queue st2) /\
  (forall o l, ls_bufs st1 o l -> ~ In o (ls_queue st1) -> ~ In (Some o) after -> undisturbed st1 st2 o l).
Proof.
  intros Hn Hp Hfit Hmax H1 H2.
  destruct (new_with_size_inv _ _ _ _ _ _ _ _ _ _ Hn Hp Hfit Hmax) as (Hinv & Ed & Es & Hc & _).
  assert (Hok0 : lstate_ok (mkL lm m1 [] no_bufs)) by (split; [done|split; [constructor|split; [by intros o []|done]]]).
  destruct (lsteps_ok _ _ _ H1 Hok0) as (Hok1 & Hsm1 & _).
  destruct (lsteps_ok _ _ _ H2 Hok1) as ((Hinv2 & Hnd & Hq & _) & Hsm2 & Hu).
  pose proof (same_manager_trans _ _ _ Hsm1 Hsm2) as (E1 & E2 & _). cbn [ls_lm] in E1, E2.
  split; [|split; [|split; [done|split; [done|done]]]].
  - intros o l Ho. destruct (bufs_range _ _ _ _ o l Hinv2 Ho) as (R1 & R2 & R3).
    destruct (buf_stamp _ _ _ _ o l Hinv2 Ho) as (S1 & S2 & S3). rewrite E1, Ed in S1, S2, S3.
    rewrite E2, Es in R3. done.
  - intros o l o' l' Ho Ho'. by apply (bufs_disjoint _ _ _ _ o l o' l' Hinv2).
Qed.

(** C23. An allocation first reclaims exactly the buffers waiting in the release
    queue, then either returns a fresh buffer -- stamped, big enough, disjoint
    from every buffer still live -- or reports [NoSpace]; the buffers still live
    keep their bytes either way.  It never panics. *)
Theorem lm_alloc_correct (lm : LocalManager) (m : mem) (vals : list Z) (B : Z -> Z -> Prop) (now size : Z) :
  lm_inv lm m vals B -> NoDup vals -> (forall o, In o vals -> exists l, B o l) ->
  lm_closed lm = false -> 0 < size -> 0 < now ->
  exists res lm' m', lm_alloc lm m now size = Some (res, lm', m') /\ same_manager lm lm' /\
    (forall o l x, B o l -> ~ In o vals -> o <= x < o + l ->
       rd m' (lm_data lm + x) = rd m (lm_data lm + x)) /\
    match res with
    | Ok p => exists off len, p = lm_data lm + off /\
        lm_inv lm' m' [] (fun o l => (B o l /\ ~ In o vals) \/ (o = off /\ l = len)) /\
        get_hdr m' p = mkHdr off 0 size (len - 24) /\ size + 24 <= len /\
        (forall o l, B o l -> ~ In o vals -> o + l <= off \/ off + len <= o)
    | Err e => e = NoSpace /\ lm_inv lm' m' [] (fun o l => B o l /\ ~ In o vals)
    end.
Proof. apply lm_alloc_spec. Qed.

(** Draining frees exactly the queued buffers, reports how many, leaves the
    queue empty and every other buffer's bytes alone. *)
Theorem lm_drain_exact (lm : LocalManager) (m : mem) (vals : list Z) (B : Z -> Z -> Prop) (now : Z) :
  lm_inv lm m vals B -> NoDup vals -> (forall o, In o vals -> exists l, B o l) -> lm_closed lm = false ->
  exists lm' m', drain_rq lm m now = Some (Z.of_nat (length vals), lm', m') /\
    lm_inv lm' m' [] (fun o l => B o l /\ ~ In o vals) /\ rq_pending lm' m' = 0 /\
    (forall o l x, B o l -> ~ In o vals -> o <= x < o + l ->
       rd m' (lm_data lm + x) = rd m (lm_data lm + x)).
Proof.
  intros Hinv Hnd Hin Hc. unfold drain_rq. rewrite Hc.
  destruct (drain_spec lm m vals B now Hinv Hnd Hin) as (lm' & m' & E & _ & Hinv' & Hk).
  exists lm', m'. split; [done|]. split; [done|]. split; [by rewrite (rq_pending_spec _ _ _ _ Hinv')|done].
Qed.

(** Pruning never loses a live buffer or a byte of one, never touches the
    pinned regions, and drops only dedicated regions that are idle. *)
Theorem lm_prune_safe (lm : LocalManager) (m : mem) (vals : list Z) (B : Z -> Z -> Prop) (now : Z)
    (punch : Z -> Z -> mem -> mem) :
  lm_inv lm m vals B -> punch_ok (lm_data lm) punch ->
  let '(lm', m') := prune_idle_regions lm m now punch in
  lm_inv lm' m' vals B /\ bufs_kept lm B m m' /\
  take (lm_min_shared lm) (lm_shared lm') = take (lm_min_shared lm) (lm_shared lm).
Proof.
  intros Hinv Hp. pose proof (prune_spec lm m vals B now punch Hinv Hp) as H.
  destruct (prune_idle_regions lm m now punch) as [lm' m']. destruct H as (? & _ & ? & ?). done.
Qed.

(** Construction does not hold the shared area against the mapping: asked
    for a cap of four regions on a mapping that has room for one, it succeeds and
    sets up regions that start past the mapping's end. *)
Theorem new_ignores_mapping_end (env : option string) (m : mem) (data : Z) :
  (MAX_PAYLOAD_ALIGN | data) ->
  exists lm m' r, new_with_size env m data (RQ_SIZE + SHARED_REGION_SIZE) 0 (4 * SHARED_REGION_SIZE)
      MIN_BLOCK_SIZE MAX_BLOCK_SIZE = Some (Ok lm, m') /\
    lm_size lm = RQ_SIZE + SHARED_REGION_SIZE /\
    lm_shared lm !! 1%nat = Some r /\ r_offset r = lm_size lm /\ r_data r = data + lm_size lm.
Proof.
  intros Ha. destruct (default_region env) as [r0 Hr].
  destruct (ring_geometry data Ha) as (q & Eq & _).
  destruct (build_regions_total env data MIN_BLOCK_SIZE MAX_BLOCK_SIZE RQ_SIZE r0 4 RQ_SIZE Hr)
    as (rs & stop & Eb).
  destruct (build_regions_spec _ _ _ _ _ _ _ _ Eb) as (El & _ & Hi).
  destruct (lookup_lt_is_Some_2 rs 1) as [r Er]; [lia|].
  pose proof (Hi 1%nat r Er) as Hc. cbv zeta in Hc.
  destruct (shared_new_ok _ _ _ _ _ _ r m Hc ltac:(done) ltac:(done) ltac:(done)) as (_ & Eo & _ & Ed).
  unfold new_with_size. rewrite Z.ltb_irrefl.
  change (4 * SHARED_REGION_SIZE <? 0) with false. change (is_power_of_two MIN_BLOCK_SIZE) with true.
  change (is_power_of_two MAX_BLOCK_SIZE) with true. change (MIN_BLOCK_SIZE >? MAX_BLOCK_SIZE) with false.
  cbn [negb orb]. unfold new_rq. rewrite Z.ltb_irrefl. unfold mpsc_new. rewrite Eq.
  change (Z.to_nat (4 * SHARED_REGION_SIZE / SHARED_REGION_SIZE)) with 4%nat. rewrite Eb.
  cbn [mbind option_bind]. eexists _, _, r. split; [done|]. cbn [lm_size lm_shared]. split; [done|].
  split; [done|]. rewrite Eo, Ed. lia.
Qed.

(** ** Samples: a segment of one pinned region, one buffer of it handed out and released *)

Definition sample_total : Z := RQ_SIZE + SHARED_REGION_SIZE + SHARED_REGION_SIZE.

Definition sample_rq : ReleaseQueue :=
  match map_rq 4096 RQ_SIZE with Ok q => q | Err _ => mkMpsc 0 0 0 0 0 0 end.

Definition sample_lm : LocalManager :=
  match build_regions None 4096 1 RQ_SIZE MIN_BLOCK_SIZE MAX_BLOCK_SIZE with
  | Some (Ok (rs, stop)) =>
      mkLM 4096 sample_total sample_rq rs 1 (match rs with r :: _ => max_payload r | [] => 0 end) stop 0
           MIN_BLOCK_SIZE MAX_BLOCK_SIZE [] sample_total false
  | _ => mkLM 0 0 sample_rq [] 0 0 0 0 0 0 [] 0 false
  end.

Definition sample_zeroed : mem := write_bytes ∅ 4096 (repeat 0 (Z.to_nat RQ_SIZE)).

Lemma sample_new :
  new_with_size None ∅ 4096 sample_total SHARED_REGION_SIZE SHARED_REGION_SIZE MIN_BLOCK_SIZE MAX_BLOCK_SIZE
  = Some (Ok sample_lm, sample_zeroed).
Proof.
  unfold new_with_size. change (sample_total <? RQ_SIZE + SHARED_REGION_SIZE) with false.
  rewrite Z.ltb_irrefl. change (is_power_of_two MIN_BLOCK_SIZE) with true.
  change (is_power_of_two MAX_BLOCK_SIZE) with true. change (MIN_BLOCK_SIZE >? MAX_BLOCK_SIZE) with false.
  cbn [negb orb]. unfold new_rq. rewrite Z.ltb_irrefl. unfold mpsc_new.
  change (from_raw_parts Z 4096 RQ_SIZE) with (Ok (E := LayoutError) sample_rq).
  change (Z.to_nat (SHARED_REGION_SIZE / SHARED_REGION_SIZE)) with 1%nat.
  unfold sample_lm, sample_zeroed. generalize (write_bytes ∅ 4096 (repeat 0 (Z.to_nat RQ_SIZE))). intros m.
  destruct (build_regions None 4096 1 RQ_SIZE MIN_BLOCK_SIZE MAX_BLOCK_SIZE) as [[[rs stop]|e']|] eqn:E;
    [reflexivity| |]; vm_compute in E; discriminate.
Qed.

Lemma sample_inv : lm_inv sample_lm sample_zeroed [] no_bufs.
Proof. apply (new_with_size_inv _ _ _ _ _ _ _ _ _ _ sample_new); vm_compute; discriminate. Qed.

Lemma sample_aligned : (MAX_PAYLOAD_ALIGN | 4096).
Proof. by apply Z.mod_divide. Qed.

Lemma lm_new_correct_witness :
  exists lm m', lm_new (Some "fixed"%string) (Some 100) ∅ 4096 = Some (Ok lm, m') /\
    lm_inv lm m' [] no_bufs /\ length (lm_shared lm) = 64%nat /\ Z.of_nat (lm_min_shared lm) = 64 /\
    mem_frame 4096 (4096 + RQ_SIZE) ∅ m'.
Proof. apply (lm_new_correct (Some "fixed"%string) (Some 100) ∅ 4096 sample_aligned). simpl. lia. Defined.

Lemma sample_data : lm_data sample_lm = 4096.
Proof. vm_compute. reflexivity. Qed.

Lemma rd_empty (x : Z) : rd ∅ x = 0.
Proof. unfold rd. by rewrite lookup_empty. Qed.

(** The zeroed queue reads as the fresh memory does. *)
Lemma sample_inv_fresh : lm_inv sample_lm ∅ [] no_bufs.
Proof.
  destruct sample_inv as (lives & busy & Hok & HB). exists lives, busy. split; [|done].
  destruct (lo_base _ _ _ _ _ Hok) as [Eb El].
  apply (lm_ok_ring sample_lm sample_zeroed ∅ lives busy []); [done| |].
  - apply (ring_ok_frame _ sample_zeroed); [apply (lo_ring _ _ _ _ _ Hok)|].
    rewrite Eb, El, sample_data. intros x Hx. unfold sample_zeroed.
    rewrite rd_zeroed; [by rewrite rd_empty|]. by rewrite Z2Nat.id.
  - rewrite sample_data. intros x Hx. unfold sample_zeroed. symmetry. apply rd_write_bytes_out.
    by rewrite repeat_length, Z2Nat.id.
Qed.

(** The first allocation, of a hundred bytes. *)
Definition sample_alloc : option (result ManagerError Z * LocalManager * mem) := lm_alloc sample_lm ∅ 1 100.

Definition sample_lm1 : LocalManager :=
  match sample_alloc with Some (_, lm, _) => lm | None => sample_lm end.

Definition sample_m1 : mem := match sample_alloc with Some (_, _, m) => m | None => ∅ end.

Definition sample_p : Z := match sample_alloc with Some (Ok p, _, _) => p | _ => 0 end.

Definition sample_off : Z := sample_p - 4096.

Lemma sample_lm_alloc_eq : lm_alloc sample_lm ∅ 1 100 = Some (Ok sample_p, sample_lm1, sample_m1).
Proof. vm_compute. reflexivity. Qed.

Definition sample_bufs : Z -> Z -> Prop := fun o l =>
  (no_bufs o l /\ ~ In o []) \/ (o = sample_p - lm_data sample_lm /\ l = get_cap sample_m1 sample_p + 24).

Lemma sample_step : lstep None (mkL sample_lm ∅ [] no_bufs) (mkL sample_lm1 sample_m1 [] sample_bufs).
Proof. apply (l_alloc sample_lm ∅ [] no_bufs 1 100); [lia|lia|apply sample_lm_alloc_eq]. Qed.

Lemma sample_ok1 : lstate_ok (mkL sample_lm1 sample_m1 [] sample_bufs).
Proof.
  apply (lstep_ok _ _ _ sample_step).
  split; [apply sample_inv_fresh|split; [constructor|split; [by intros o []|done]]].
Qed.

Lemma sample_buf : sample_bufs sample_off 16376.
Proof. right. vm_compute. done. Qed.

Lemma sample_fresh (m : mem) : exists p lm' m', alloc_fresh sample_lm m 1 100 = Some (Ok p, lm', m').
Proof. eexists _, _, _. vm_compute. reflexivity. Qed.

Lemma segment_executions_witness :
  exists st, lsteps [None] (mkL sample_lm sample_zeroed [] no_bufs) st /\ (exists o l, ls_bufs st o l) /\
    (forall o l, ls_bufs st o l ->
     RQ_SIZE <= o /\ o + l <= sample_total /\
     get_offset (ls_mem st) (4096 + o) = o /\ get_cap (ls_mem st) (4096 + o) = l - 24 /\
     get_len (ls_mem st) (4096 + o) <= l - 24).
Proof.
  destruct (sample_fresh sample_zeroed) as (p & lm' & m' & E).
  assert (Ea : lm_alloc sample_lm sample_zeroed 1 100 = Some (Ok p, lm', m')).
  { rewrite <- E. unfold lm_alloc. rewrite (rq_pending_spec _ _ _ _ sample_inv). reflexivity. }
  eexists. split; [eapply lsteps_cons; [apply (l_alloc _ _ _ _ 1 100 _ _ _ ltac:(lia) ltac:(lia) Ea)|apply lsteps_nil]|].
  split; [exists (p - lm_data sample_lm), (get_cap m' p + 24); right; split; reflexivity|].
  refine (proj1 (segment_executions None ∅ sample_zeroed 4096 sample_total SHARED_REGION_SIZE SHARED_REGION_SIZE
           MIN_BLOCK_SIZE MAX_BLOCK_SIZE sample_lm [None] [] _ _ sample_new _ _ _ _ (lsteps_nil _)));
    [vm_compute; discriminate|vm_compute; discriminate|vm_compute; discriminate|].
  eapply lsteps_cons; [apply (l_alloc _ _ _ _ 1 100 _ _ _ ltac:(lia) ltac:(lia) Ea)|apply lsteps_nil].
Defined.

Lemma lm_alloc_correct_witness :
  exists res lm' m', lm_alloc sample_lm1 sample_m1 2 100 = Some (res, lm', m') /\ same_manager sample_lm1 lm' /\
    (forall o l x, sample_bufs o l -> ~ In o [] -> o <= x < o + l ->
       rd m' (lm_data sample_lm1 + x) = rd sample_m1 (lm_data sample_lm1 + x)) /\
    match res with
    | Ok p => exists off len, p = lm_data sample_lm1 + off /\
        lm_inv lm' m' [] (fun o l => (sample_bufs o l /\ ~ In o []) \/ (o = off /\ l = len)) /\
        get_hdr m' p = mkHdr off 0 100 (len - 24) /\ 100 + 24 <= len /\
        (forall o l, sample_bufs o l -> ~ In o [] -> o + l <= off \/ off + len <= o)
    | Err e => e = NoSpace /\ lm_inv lm' m' [] (fun o l => sample_bufs o l /\ ~ In o [])
    end.
Proof.
  apply (lm_alloc_correct sample_lm1 sample_m1 [] sample_bufs 2 100);
    [apply sample_ok1 | constructor | intros o [] | vm_compute; reflexivity | lia | lia].
Defined.

(** The buffer handed back by the peer. *)
Lemma sample_released :
  exists m', lm_inv sample_lm1 m' [sample_off] sample_bufs.
Proof.
  destruct (release_push sample_lm1 sample_m1 [] sample_bufs sample_off 16376 0 (proj1 sample_ok1) sample_buf)
    as (b & q' & m' & _ & -> & _ & Hinv & _); [vm_compute; split; discriminate|vm_compute; reflexivity|].
  exists m'. exact Hinv.
Qed.

Lemma lm_drain_exact_witness :
  exists m0 lm' m', lm_inv sample_lm1 m0 [sample_off] sample_bufs /\
    drain_rq sample_lm1 m0 3 = Some (1, lm', m') /\
    lm_inv lm' m' [] (fun o l => sample_bufs o l /\ ~ In o [sample_off]).
Proof.
  destruct sample_released as [m0 Hinv].
  destruct (lm_drain_exact sample_lm1 m0 [sample_off] sample_bufs 3 Hinv) as (lm' & m' & E & Hinv' & _).
  - apply NoDup_singleton.
  - intros o [<- | []]. exists 16376. apply sample_buf.
  - vm_compute. reflexivity.
  - exists m0, lm', m'. split; [exact Hinv|]. split; [exact E|exact Hinv'].
Defined.

(** A kernel that zeroes what it takes back, and one that leaves it. *)
Lemma punch_none_ok (data : Z) : punch_ok data (fun _ _ m => m).
Proof. intros off size m. split; [apply mem_frame_refl|]. by left. Qed.

Lemma punch_zero_ok (data : Z) :
  punch_ok data (fun off size m => write_bytes m (data + off) (repeat 0 (Z.to_nat size))).
Proof.
  intros off size m. split.
  - intros x Hx. apply rd_write_bytes_out. rewrite repeat_length. lia.
  - intros x. destruct (decide (data + off <= x < data + off + Z.of_nat (Z.to_nat size))).
    + right. by apply rd_zeroed.
    + left. apply rd_write_bytes_out. rewrite repeat_length. lia.
Qed.

Lemma lm_prune_safe_witness :
  let '(lm', m') := prune_idle_regions sample_lm1 sample_m1 MAX_AGE
      (fun off size m => write_bytes m (lm_data sample_lm1 + off) (repeat 0 (Z.to_nat size))) in
  lm_inv lm' m' [] sample_bufs /\ bufs_kept sample_lm1 sample_bufs sample_m1 m' /\
  take (lm_min_shared sample_lm1) (lm_shared lm') = take (lm_min_shared sample_lm1) (lm_shared sample_lm1).
Proof. apply (lm_prune_safe sample_lm1 sample_m1 [] sample_bufs); [apply sample_ok1|apply punch_zero_ok]. Defined.

Lemma new_ignores_mapping_end_witness :
  exists lm m' r, new_with_size None ∅ 4096 (RQ_SIZE + SHARED_REGION_SIZE) 0 (4 * SHARED_REGION_SIZE)
      MIN_BLOCK_SIZE MAX_BLOCK_SIZE = Some (Ok lm, m') /\
    lm_size lm = RQ_SIZE + SHARED_REGION_SIZE /\
    lm_shared lm !! 1%nat = Some r /\ r_offset r = lm_size lm /\ r_data r = 4096 + lm_size lm.
Proof. apply (new_ignores_mapping_end None ∅ 4096 sample_aligned). Defined.
