(* ===== verification/RemoteManager.v ===== *)
(** * The mapping side of a segment ([RemoteManager] of [src/src/v5/dynshm.rs])

    A peer maps the segment the owner sent, reads payloads out of it by global
    offset and hands finished buffers back through the release queue.  Nothing it
    finds in the mapping is trusted: the theorems on reading hold of any memory. *)

From Stdlib Require Import ZArith Lia String.
From stdpp Require Import base numbers list gmap strings.
From S2P Require Import Prelude Header BufHeader Region Mpsc LocalManager.

#[local] Open Scope Z_scope.

Record RemoteManager : Type := mkRM {
  rm_data : Z;
  rm_size : Z;
  rm_rq : ReleaseQueue;
  rm_pending : list Z;
  rm_closed : bool;
}.

Definition with_release (rm : RemoteManager) (rq : ReleaseQueue) (pending : list Z) : RemoteManager :=
  mkRM (rm_data rm) (rm_size rm) rq pending (rm_closed rm).

Inductive MapError : Type :=
| UnexpectedSize (got want : Z)
| MapRing (e : LayoutError).

(** [data] and [size] are the mapping [MemFile::map] returned. *)
Definition rm_map (data size advertised : Z) : result MapError RemoteManager :=
  let expected := if advertised =? 0 then DYNSHM_TOTAL_SIZE else advertised in
  if negb (size =? expected) || (size <? RQ_SIZE + DYNSHM_BUFFER_HEADER_SIZE)
  then Err (UnexpectedSize size expected)
  else match map_rq data RQ_SIZE with
       | Err e => Err (MapRing e)
       | Ok rq => Ok (mkRM data size rq [] false)
       end.

(** Whether an offset leaves room for a header behind it in the mapping. *)
Definition off_range (rm : RemoteManager) (off : Z) : bool :=
  negb ((off <? RQ_SIZE) || (off >? rm_size rm - DYNSHM_BUFFER_HEADER_SIZE)).

Definition read_inner (rm : RemoteManager) (m : mem) (global_offset : Z) : option (list Z * Z) :=
  if negb (off_range rm global_offset) then None
  else
    let header := get_hdr m (rm_data rm + global_offset) in
    if negb (h_offset header =? global_offset) || (h_len header >? h_cap header) then None
    else
      let remaining := rm_size rm - global_offset - DYNSHM_BUFFER_HEADER_SIZE in
      if h_cap header >? remaining then None
      else if negb (h_next header =? 0) &&
              (negb (off_range rm (h_next header)) || (h_next header =? global_offset)) then None
      else Some (read_bytes m (rm_data rm + (global_offset + DYNSHM_BUFFER_HEADER_SIZE))
                            (Z.to_nat (h_len header)), h_next header).

Definition rm_read (rm : RemoteManager) (m : mem) (global_offset : Z) : option (list Z * Z) :=
  if rm_closed rm then None else read_inner rm m global_offset.

(** The push loop of [flush_releases], then the [drain(..pushed)]: what is left. *)
Fixpoint flush_loop (rq : ReleaseQueue) (m : mem) (pending : list Z)
    : option (ReleaseQueue * mem * list Z) :=
  match pending with
  | [] => Some (rq, m, [])
  | off :: rest =>
      '(pushed, rq, m) ← try_push rq m off;
      if pushed : bool then flush_loop rq m rest else Some (rq, m, pending)
  end.

Definition flush_releases (rm : RemoteManager) (m : mem) (pending : list Z)
    : option (result ManagerError unit * RemoteManager * mem) :=
  '(rq, m, rest) ← flush_loop (rm_rq rm) m pending;
  Some (match rest with [] => Ok tt | _ => Err ReleaseQueueFull end, with_release rm rq rest, m).

Definition rm_free (rm : RemoteManager) (m : mem) (global_offset : Z)
    : option (result ManagerError unit * RemoteManager * mem) :=
  if rm_closed rm then Some (Err Closed, rm, m)
  else if negb (off_range rm global_offset) then Some (Err OutOfBounds, rm, m)
  else if negb (get_offset m (rm_data rm + global_offset) =? global_offset)
  then Some (Err MNotAllocated, rm, m)
  else flush_releases rm m (rm_pending rm ++ [global_offset]).

(** The walk of [free_chain]; [offsets] is the list collected so far and
    [visited] the set.  [fuel] bounds the iterations, [None] is running out. *)
Fixpoint chain_walk (fuel : nat) (rm : RemoteManager) (m : mem) (visited : gset Z) (offsets : list Z)
    (offset : Z) : option (result ManagerError (list Z)) :=
  match fuel with
  | O => None
  | S fuel =>
      if negb (offset >? 0) then Some (Ok offsets)
      else if Z.of_nat (length offsets) >=? MAX_CHAIN_NODES then Some (Err OutOfBounds)
      else if bool_decide (offset ∈ visited) then Some (Err MInvalidOffset)
      else match read_inner rm m offset with
           | None => Some (Err MInvalidOffset)
           | Some (_, next) => chain_walk fuel rm m ({[offset]} ∪ visited) (offsets ++ [offset]) next
           end
  end.

(** One more than the nodes the walk accepts. *)
Definition walk_fuel : nat := S (Z.to_nat MAX_CHAIN_NODES).

Definition free_chain (rm : RemoteManager) (m : mem) (root : Z)
    : option (result ManagerError unit * RemoteManager * mem) :=
  if rm_closed rm then Some (Err Closed, rm, m)
  else
    walked ← chain_walk walk_fuel rm m ∅ [] root;
    match walked with
    | Err e => Some (Err e, rm, m)
    | Ok offsets => flush_releases rm m (rm_pending rm ++ offsets)
    end.

Definition retry_pending_releases (rm : RemoteManager) (m : mem)
    : option (result ManagerError unit * RemoteManager * mem) :=
  if rm_closed rm then Some (Err Closed, rm, m) else flush_releases rm m (rm_pending rm).

Definition rm_close_all (rm : RemoteManager) : RemoteManager :=
  if rm_closed rm then rm else mkRM (rm_data rm) (rm_size rm) (rm_rq rm) [] true.
