(* ===== verification/RemoteManagerFacts.v ===== *)
(** * Reading and releasing through a mapped segment: lemmas *)

From Stdlib Require Import ZArith Lia String.
From stdpp Require Import base numbers list gmap strings.
From S2P Require Import Prelude Header BufHeader Region RegionFacts Mpsc MpscFacts MpscSeq LocalManager.
From S2P Require Import LocalManagerFacts LocalManagerSpec LocalManagerAlloc LocalManagerPrune.
From S2P Require Import LocalManagerExec RemoteManager.

#[local] Open Scope Z_scope.

(** ** Reading *)

Lemma off_range_spec (rm : RemoteManager) (off : Z) :
  off_range rm off = true <-> RQ_SIZE <= off /\ off + 24 <= rm_size rm.
Proof. unfold off_range, DYNSHM_BUFFER_HEADER_SIZE. rewrite negb_true_iff, orb_false_iff, Z.ltb_ge, Z.gtb_ltb, Z.ltb_ge. lia. Qed.

Lemma read_inner_spec (rm : RemoteManager) (m : mem) (off next : Z) (bytes : list Z) :
  read_inner rm m off = Some (bytes, next) <->
  let p := rm_data rm + off in
  off_range rm off = true /\ get_offset m p = off /\ get_next m p = next /\
  get_len m p <= get_cap m p /\ off + 24 + get_cap m p <= rm_size rm /\
  (next = 0 \/ (off_range rm next = true /\ next <> off)) /\ bytes = data m p.
Proof.
  cbv zeta. unfold read_inner, data, DYNSHM_BUFFER_HEADER_SIZE in *. cbn [get_hdr h_offset h_len h_cap h_next].
  rewrite Z.add_assoc. split.
  - intros H. destruct (off_range rm off); cbn [negb] in H; [|done].
    case_if_in H; [done|]. case_if_in H; [done|]. case_if_in H; [done|]. injection H as <- <-. bools.
    repeat (split; [done || lia|]). split; [|done].
    destruct (Z.eqb_spec (get_next m (rm_data rm + off)) 0); [by left|right]. cbn in E1.
    destruct E1 as [|E1]; [done|]. apply orb_false_iff in E1 as [F1 F2]. bools. done.
  - intros (-> & -> & -> & Hl & Hc & Hn & ->). cbn [negb]. rewrite Z.eqb_refl. cbn [negb orb].
    replace (get_len m (rm_data rm + off) >? get_cap m (rm_data rm + off)) with false
      by (symmetry; rewrite Z.gtb_ltb; apply Z.ltb_ge; lia).
    replace (get_cap m (rm_data rm + off) >? rm_size rm - off - 24) with false
      by (symmetry; rewrite Z.gtb_ltb; apply Z.ltb_ge; lia).
    destruct Hn as [-> | [-> Hn]]; [done|]. rewrite (proj2 (Z.eqb_neq next off)) by done. by rewrite andb_false_r.
Qed.

(** ** Chains *)

(** The blocks of a message, followed from [root]. *)
Fixpoint is_chain (rm : RemoteManager) (m : mem) (root : Z) (offs : list Z) : Prop :=
  match offs with
  | [] => root <= 0
  | o :: rest => root = o /\ 0 < o /\
      exists bytes next, read_inner rm m o = Some (bytes, next) /\ is_chain rm m next rest
  end.

Lemma chain_walk_sound (fuel : nat) (rm : RemoteManager) (m : mem) (visited : gset Z) (offsets : list Z)
    (offset : Z) :
  (forall x, x ∈ visited <-> x ∈ offsets) -> NoDup offsets ->
  Z.of_nat (length offsets) <= MAX_CHAIN_NODES -> MAX_CHAIN_NODES - Z.of_nat (length offsets) < Z.of_nat fuel ->
  exists r, chain_walk fuel rm m visited offsets offset = Some r /\
    match r with
    | Ok offs => exists more, offs = offsets ++ more /\ is_chain rm m offset more /\ NoDup offs /\
        Z.of_nat (length offs) <= MAX_CHAIN_NODES
    | Err e => e = OutOfBounds \/ e = MInvalidOffset
    end.
Proof.
  revert visited offsets offset. induction fuel as [|fuel IH]; intros visited offsets offset Hv Hnd Hle Hf; [lia|].
  cbn [chain_walk]. case_if; bools.
  { eexists. split; [done|]. exists []. rewrite app_nil_r. done. }
  case_if; bools; [eexists; split; [done|by left]|].
  destruct (bool_decide_reflect (offset ∈ visited)) as [Hin|Hni]; [eexists; split; [done|by right]|].
  destruct (read_inner rm m offset) as [[bytes next]|] eqn:E1; [|eexists; split; [done|by right]].
  rewrite Hv in Hni.
  destruct (IH ({[offset]} ∪ visited) (offsets ++ [offset]) next) as (r & -> & Hr).
  - intros x. rewrite elem_of_union, elem_of_singleton, Hv, elem_of_app, list_elem_of_singleton. tauto.
  - apply NoDup_app. split; [done|]. split; [|apply NoDup_singleton].
    intros x Hx. rewrite list_elem_of_singleton. by intros ->.
  - rewrite length_app. cbn. lia.
  - rewrite length_app. cbn. lia.
  - exists r. split; [done|]. destruct r as [offs|e]; [|done].
    destruct Hr as (more & -> & Hc & Hnd' & Hl). exists (offset :: more). rewrite <- app_assoc. cbn [app] in *.
    rewrite <- app_assoc in Hnd', Hl. cbn [app] in Hnd', Hl. split; [done|]. split; [|done].
    cbn. split; [done|]. split; [lia|]. by exists bytes, next.
Qed.

Lemma chain_walk_complete (fuel : nat) (rm : RemoteManager) (m : mem) (visited : gset Z)
    (offsets more : list Z) (offset : Z) :
  (forall x, x ∈ visited <-> x ∈ offsets) -> NoDup (offsets ++ more) ->
  Z.of_nat (length (offsets ++ more)) <= MAX_CHAIN_NODES -> (length more < fuel)%nat ->
  is_chain rm m offset more ->
  chain_walk fuel rm m visited offsets offset = Some (Ok (offsets ++ more)).
Proof.
  revert visited offsets more offset.
  induction fuel as [|fuel IH]; intros visited offsets more offset Hv Hnd Hl Hf Hc; [lia|].
  cbn [chain_walk]. destruct more as [|o more]; cbn [is_chain] in Hc.
  { replace (offset >? 0) with false by (symmetry; rewrite Z.gtb_ltb; apply Z.ltb_ge; lia).
    by rewrite app_nil_r. }
  destruct Hc as (-> & Hp & bytes & next & Er & Hc).
  replace (o >? 0) with true by (symmetry; apply Z.gtb_lt; lia). cbn [negb].
  rewrite length_app in Hl. cbn [length] in Hl, Hf.
  replace (Z.of_nat (length offsets) >=? MAX_CHAIN_NODES) with false
    by (symmetry; rewrite Z.geb_leb; apply Z.leb_gt; lia).
  apply NoDup_app in Hnd as Hnd'. destruct Hnd' as (_ & Hdis & _).
  rewrite bool_decide_false.
  2:{ rewrite Hv. intros Hin. apply (Hdis o Hin). by left. }
  rewrite Er. rewrite (IH _ (offsets ++ [o]) more next); try done.
  - by rewrite <- app_assoc.
  - intros x. rewrite elem_of_union, elem_of_singleton, Hv, elem_of_app, list_elem_of_singleton. tauto.
  - by rewrite <- app_assoc.
  - rewrite !length_app. cbn. lia.
  - lia.
Qed.

Lemma is_chain_range (rm : RemoteManager) (m : mem) (root : Z) (offs : list Z) :
  is_chain rm m root offs -> Forall (fun o => off_range rm o = true) offs.
Proof.
  revert root. induction offs as [|o offs IH]; intros root Hc; [constructor|].
  destruct Hc as (_ & _ & bytes & next & Er & Hc). constructor; [|by apply (IH next)].
  apply read_inner_spec in Er. by destruct Er.
Qed.

(** ** Releasing *)

(** A mapping in order: its ring holds [vals], its backlog names places in it. *)
Record rm_ok (rm : RemoteManager) (m : mem) (vals : list Z) : Prop := {
  mo_ring : ring_ok (rm_rq rm) m vals;
  mo_base : q_base (rm_rq rm) = rm_data rm /\ q_len (rm_rq rm) = RQ_SIZE;
  mo_pending : Forall (fun o => off_range rm o = true) (rm_pending rm);
  mo_size : rm_size rm <= I64_MAX;
}.

Lemma flush_loop_spec (pending : list Z) (q : ReleaseQueue) (m : mem) (vals : list Z) :
  ring_ok q m vals -> get_tail q m + Z.of_nat (length pending) < POS_MAX -> Forall pok pending ->
  let k := Z.to_nat (Z.min (Z.of_nat (length pending)) (cap q - Z.of_nat (length vals))) in
  exists h m', flush_loop q m pending = Some (with_cache q h, m', drop k pending) /\
    ring_ok (with_cache q h) m' (vals ++ take k pending) /\ get_head q m' = get_head q m /\
    mem_frame (q_base q) (q_base q + q_len q) m m'.
Proof.
  revert q m vals. induction pending as [|off rest IH]; intros q m vals Hr Hp Hok k; cbn [flush_loop length] in *.
  - exists (q_head_cache q), m. rewrite drop_nil, take_nil, app_nil_r. split; [by destruct q|].
    split; [by destruct q|]. split; [done|]. apply mem_frame_refl.
  - inversion Hok as [|? ? Hv Hok']; subst.
    destruct (try_push_spec q m vals off Hr ltac:(lia) Hv) as (b & q1 & m1 & -> & Eb & (h & -> & Eh) & Hr1 & Hf & Hno).
    cbn [mbind option_bind]. pose proof (rk_fits _ _ _ Hr) as Hfit. destruct b; symmetry in Eb.
    + apply Z.ltb_lt in Eb.
      pose proof (rk_tail _ _ _ Hr) as Ht. pose proof (rk_tail _ _ _ Hr1) as Ht1.
      rewrite length_app in Ht1. cbn [length] in Ht1.
      change (get_tail (with_cache q h)) with (get_tail q) in Ht1.
      change (get_head (with_cache q h)) with (get_head q) in Ht1. rewrite Eh in Ht1.
      destruct (IH (with_cache q h) m1 (vals ++ [off]) Hr1) as (h2 & m2 & E2 & Hr2 & Eh2 & Hf2); [|done|].
      { change (get_tail (with_cache q h)) with (get_tail q). lia. }
      change (cap (with_cache q h)) with (cap q) in *. rewrite length_app in *. cbn [length] in *.
      assert (Ek : k = S (Z.to_nat (Z.min (Z.of_nat (length rest)) (cap q - Z.of_nat (length vals + 1))))) by lia.
      rewrite Ek. exists h2, m2. rewrite E2. split; [done|]. cbn [take drop]. rewrite <- app_assoc in Hr2.
      split; [done|]. split; [by rewrite <- Eh|]. eapply mem_frame_trans; [exact Hf|exact Hf2].
    + apply Z.ltb_ge in Eb. rewrite (Hno eq_refl) in *. assert (Ek : k = 0%nat) by lia. rewrite Ek. cbn [take drop].
      rewrite app_nil_r. exists h, m. split; [done|]. split; [done|]. split; [done|]. apply mem_frame_refl.
Qed.

Lemma off_range_pok (rm : RemoteManager) (o : Z) :
  rm_size rm <= I64_MAX -> off_range rm o = true -> pok o.
Proof. intros Hs Ho. apply off_range_spec in Ho. pose proof rq_size_pos. cbn. lia. Qed.

(** Nothing is lost, duplicated or reordered between the backlog and the queue. *)
Lemma flush_releases_spec (rm : RemoteManager) (m : mem) (vals pending : list Z) :
  rm_ok rm m vals -> Forall (fun o => off_range rm o = true) pending ->
  get_tail (rm_rq rm) m + Z.of_nat (length pending) < POS_MAX ->
  exists res h m' vals' rest,
    flush_releases rm m pending = Some (res, with_release rm (with_cache (rm_rq rm) h) rest, m') /\
    rm_ok (with_release rm (with_cache (rm_rq rm) h) rest) m' vals' /\ vals' ++ rest = vals ++ pending /\
    (rest = [] -> res = Ok tt) /\
    (rest <> [] -> res = Err ReleaseQueueFull /\ Z.of_nat (length vals') = cap (rm_rq rm)) /\
    get_head (rm_rq rm) m' = get_head (rm_rq rm) m /\
    mem_frame (rm_data rm) (rm_data rm + RQ_SIZE) m m'.
Proof.
  intros [Hr [Eb El] Hp Hs] Hpend Hmax.
  destruct (flush_loop_spec pending (rm_rq rm) m vals Hr Hmax) as (h & m' & E & Hr' & Eh & Hf).
  { eapply Forall_impl; [exact Hpend|]. intros o Ho. by apply (off_range_pok rm). }
  set (k := Z.to_nat _) in *. unfold flush_releases. rewrite E. cbn [mbind option_bind].
  eexists _, h, m', (vals ++ take k pending), (drop k pending). split; [done|].
  split; [split; try done; by apply Forall_drop|].
  split; [by rewrite <- app_assoc, take_drop|]. split; [by intros ->|].
  rewrite Eb, El in Hf. split; [|done]. intros Hne. destruct (drop k pending) as [|o l] eqn:Ed; [done|].
  split; [done|]. rewrite length_app, length_take. apply (f_equal length) in Ed.
  rewrite length_drop in Ed. cbn in Ed. pose proof (rk_fits _ _ _ Hr). lia.
Qed.

(** The mapping of a segment seen from its owner. *)
Definition maps (rm : RemoteManager) (lm : LocalManager) : Prop :=
  rm_data rm = lm_data lm /\ rm_size rm = lm_size lm /\ exists h, rm_rq rm = with_cache (lm_rq lm) h.

(** A live buffer reads back as the bytes its holder put there. *)
Lemma read_live (rm : RemoteManager) (lm : LocalManager) (m : mem) (vals : list Z) (B : Z -> Z -> Prop) (off len : Z) :
  lm_inv lm m vals B -> maps rm lm -> B off len ->
  let next := get_next m (lm_data lm + off) in
  (next = 0 \/ (next <> off /\ exists l, B next l)) ->
  read_inner rm m off = Some (data m (lm_data lm + off), next).
Proof.
  intros Hinv (Ed & Es & _) Hb next Hn.
  destruct (buf_stamp lm m vals B off len Hinv Hb) as (S1 & S2 & S3).
  destruct (bufs_range lm m vals B off len Hinv Hb) as (R1 & R2 & R3).
  apply read_inner_spec. rewrite Ed. cbv zeta.
  split; [apply off_range_spec; lia|]. split; [done|]. split; [done|]. split; [lia|]. split; [lia|].
  split; [|done]. destruct Hn as [Hn | [Hne [l Hl]]]; [by left|right].
  destruct (bufs_range lm m vals B next l Hinv Hl). split; [apply off_range_spec; lia|done].
Qed.

Lemma rm_ok_maps (rm : RemoteManager) (lm : LocalManager) (m : mem) (vals : list Z) (B : Z -> Z -> Prop) :
  lm_inv lm m vals B -> maps rm lm -> 0 <= q_head_cache (rm_rq rm) <= get_head (lm_rq lm) m ->
  Forall (fun o => off_range rm o = true) (rm_pending rm) -> rm_ok rm m vals.
Proof.
  intros (lives & busy & Hok & _) (Ed & Es & h & Eq) Hh Hp.
  pose proof (lo_base _ _ _ _ _ Hok) as [Eb El]. pose proof (lo_bound _ _ _ _ _ Hok) as [_ Hmax].
  rewrite Eq in Hh. cbn in Hh.
  split; rewrite ?Ed, ?Es, ?Eq; try done. apply ring_ok_cache; [apply (lo_ring _ _ _ _ _ Hok)|done].
Qed.

(** What the mapping side pushed is what the owner finds. *)
Lemma lm_inv_flushed (rm : RemoteManager) (lm : LocalManager) (m m' : mem) (vals vals' : list Z)
    (B : Z -> Z -> Prop) (h : Z) :
  lm_inv lm m vals B -> maps rm lm -> rm_ok (with_release rm (with_cache (rm_rq rm) h) []) m' vals' ->
  get_head (rm_rq rm) m' = get_head (rm_rq rm) m ->
  mem_frame (rm_data rm) (rm_data rm + RQ_SIZE) m m' -> lm_inv lm m' vals' B.
Proof.
  intros (lives & busy & Hok & HB) (Ed & Es & h0 & Eq) [Hr _ _ _] Eh Hf. exists lives, busy. split; [|done].
  rewrite Ed in Hf. apply (lm_ok_ring lm m m' lives busy vals); [done| |done].
  cbn [with_release rm_rq] in Hr. rewrite Eq in Hr, Eh. pose proof (lo_ring _ _ _ _ _ Hok) as Hr0.
  change (get_head (with_cache (lm_rq lm) h0)) with (get_head (lm_rq lm)) in Eh.
  pose proof (rk_cache _ _ _ Hr0) as Hc. rewrite <- Eh in Hc.
  replace (lm_rq lm) with (with_cache (with_cache (with_cache (lm_rq lm) h0) h) (q_head_cache (lm_rq lm)))
    by (by destruct (lm_rq lm)).
  by apply ring_ok_cache.
Qed.

(** Releasing a chain, whatever memory holds. *)
Lemma free_chain_spec (rm : RemoteManager) (m : mem) (vals : list Z) (root : Z) :
  rm_ok rm m vals -> rm_closed rm = false ->
  get_tail (rm_rq rm) m + Z.of_nat (length (rm_pending rm)) + MAX_CHAIN_NODES < POS_MAX ->
  exists res rm' m', free_chain rm m root = Some (res, rm', m') /\
    ((rm' = rm /\ m' = m /\ (res = Err OutOfBounds \/ res = Err MInvalidOffset)) \/
     (exists offs vals', is_chain rm m root offs /\ NoDup offs /\ Z.of_nat (length offs) <= MAX_CHAIN_NODES /\
        rm_ok rm' m' vals' /\ vals' ++ rm_pending rm' = vals ++ rm_pending rm ++ offs /\
        mem_frame (rm_data rm) (rm_data rm + RQ_SIZE) m m' /\ get_head (rm_rq rm) m' = get_head (rm_rq rm) m /\
        (exists h, rm' = with_release rm (with_cache (rm_rq rm) h) (rm_pending rm')) /\
        (rm_pending rm' = [] -> res = Ok tt) /\
        (rm_pending rm' <> [] -> res = Err ReleaseQueueFull /\ Z.of_nat (length vals') = cap (rm_rq rm)))).
Proof.
  intros Hok Hc Hmax. unfold free_chain. rewrite Hc.
  destruct (chain_walk_sound walk_fuel rm m ∅ [] root) as (r & -> & Hr).
  - intros x. by rewrite elem_of_empty, elem_of_nil.
  - constructor.
  - done.
  - unfold walk_fuel. rewrite Nat2Z.inj_succ, Z2Nat.id by done. cbn [length]. lia.
  - cbn [mbind option_bind]. destruct r as [offs|e].
    + destruct Hr as (more & E & Hch & Hnd & Hl). cbn [app] in E. subst more.
      destruct (flush_releases_spec rm m vals (rm_pending rm ++ offs) Hok)
        as (res & h & m' & vals' & rest & -> & Hok' & Hcons & R1 & R2 & Eh & Hf).
      * apply Forall_app. split; [apply (mo_pending _ _ _ Hok)|by apply (is_chain_range rm m root)].
      * rewrite length_app. lia.
      * eexists _, _, _. split; [done|]. right. exists offs, vals'. repeat (split; [done|]). split; [by exists h|done].
    + eexists _, rm, m. split; [done|]. left. split; [done|]. split; [done|]. destruct Hr as [-> | ->]; auto.
Qed.
