(* ===== verification/RemoteManagerTheorems.v ===== *)
(** * What the mapping side guarantees *)

From Stdlib Require Import ZArith Lia String.
From stdpp Require Import base numbers list gmap strings.
From S2P Require Import Prelude Header BufHeader Region RegionFacts Mpsc MpscFacts MpscSeq LocalManager.
From S2P Require Import LocalManagerFacts LocalManagerSpec LocalManagerAlloc LocalManagerPrune.
From S2P Require Import LocalManagerExec LocalManagerTheorems RemoteManager.
From S2P Require Import RemoteManagerFacts.

#[local] Open Scope Z_scope.

(** Reading is memory safe whatever the peer wrote: the outcome depends on
    bytes of the mapping only, a payload that is returned lies inside it, and the
    successor it names is none, or a different place with room for a header. *)
Theorem remote_read_safe (rm : RemoteManager) (m m' : mem) (off : Z) :
  mem_agree (rm_data rm) (rm_data rm + rm_size rm) m' m ->
  read_inner rm m' off = read_inner rm m off /\
  forall bytes next, read_inner rm m off = Some (bytes, next) ->
    RQ_SIZE <= off /\ off + 24 + Z.of_nat (length bytes) <= rm_size rm /\ next <> off /\
    (next = 0 \/ (RQ_SIZE <= next /\ next + 24 <= rm_size rm)).
Proof.
  intros Hag. split.
  - pose proof rq_size_pos. unfold read_inner, DYNSHM_BUFFER_HEADER_SIZE.
    destruct (off_range rm off) eqn:Er; [|done]. cbn [negb].
    apply off_range_spec in Er. rewrite (get_hdr_ext m m' (rm_data rm + off)) by (intros x Hx; apply Hag; lia).
    set (h := get_hdr m (rm_data rm + off)). case_if; [done|]. case_if; [done|]. case_if; [done|]. bools.
    do 2 f_equal. apply read_bytes_ext. intros x Hx. apply Hag.
    pose proof (get_len_bound m (rm_data rm + off)). unfold h in *. cbn in *. lia.
  - intros bytes next Hr. apply read_inner_spec in Hr as (H1 & H2 & H3 & H4 & H5 & H6 & ->).
    apply off_range_spec in H1. unfold data. rewrite read_bytes_length.
    pose proof (get_len_bound m (rm_data rm + off)). pose proof rq_size_pos.
    destruct H6 as [-> | [H6 ?]]; [lia|]. apply off_range_spec in H6. lia.
Qed.

(** A live buffer the owner handed out reads back, at its global offset, as
    exactly the bytes its holder put into it, together with the successor stored
    in its header. *)
Theorem remote_read_live (rm : RemoteManager) (lm : LocalManager) (m : mem) (vals : list Z)
    (B : Z -> Z -> Prop) (off len : Z) :
  lm_inv lm m vals B -> maps rm lm -> rm_closed rm = false -> B off len ->
  get_next m (lm_data lm + off) = 0 \/
    (get_next m (lm_data lm + off) <> off /\ exists l, B (get_next m (lm_data lm + off)) l) ->
  rm_read rm m off = Some (data m (lm_data lm + off), get_next m (lm_data lm + off)).
Proof.
  intros Hinv Hm Hc Hb Hn. unfold rm_read. rewrite Hc. by apply (read_live rm lm m vals B off len).
Qed.

(** C35. Releasing a chain ends on any memory, cyclic chains included, within the
    node limit; a chain that is refused releases nothing and changes nothing; one
    that is accepted visits each block once, and no release is lost, repeated or
    reordered: the queue followed by the backlog grows by exactly the chain. *)
Theorem free_chain_conserves (rm : RemoteManager) (m : mem) (vals : list Z) (root : Z) :
  rm_ok rm m vals -> rm_closed rm = false ->
  get_tail (rm_rq rm) m + Z.of_nat (length (rm_pending rm)) + MAX_CHAIN_NODES < POS_MAX ->
  exists res rm' m', free_chain rm m root = Some (res, rm', m') /\
    ((rm' = rm /\ m' = m /\ (res = Err OutOfBounds \/ res = Err MInvalidOffset)) \/
     (exists offs vals', is_chain rm m root offs /\ NoDup offs /\ Z.of_nat (length offs) <= MAX_CHAIN_NODES /\
        rm_ok rm' m' vals' /\ vals' ++ rm_pending rm' = vals ++ rm_pending rm ++ offs /\
        mem_frame (rm_data rm) (rm_data rm + RQ_SIZE) m m' /\
        (rm_pending rm' = [] -> res = Ok tt) /\
        (rm_pending rm' <> [] -> res = Err ReleaseQueueFull /\ Z.of_nat (length vals') = cap (rm_rq rm)))).
Proof.
  intros Hok Hc Hmax. destruct (free_chain_spec rm m vals root Hok Hc Hmax) as (res & rm' & m' & E & Hres).
  exists res, rm', m'. split; [done|]. destruct Hres as [?|(offs & vals' & H1 & H2 & H3 & H4 & H5 & H6 & _ & _ & H7 & H8)].
  - by left.
  - right. exists offs, vals'. done.
Qed.

(** Completeness of the walk: every chain of distinct blocks within the limit
    is accepted, and what it hands over is that chain, root first. *)
Theorem free_chain_accepts (rm : RemoteManager) (m : mem) (vals : list Z) (root : Z) (offs : list Z) :
  rm_ok rm m vals -> rm_closed rm = false -> is_chain rm m root offs -> NoDup offs ->
  Z.of_nat (length offs) <= MAX_CHAIN_NODES ->
  Z.of_nat (length vals + length (rm_pending rm) + length offs) <= cap (rm_rq rm) ->
  get_tail (rm_rq rm) m + Z.of_nat (length (rm_pending rm ++ offs)) < POS_MAX ->
  exists rm' m', free_chain rm m root = Some (Ok tt, rm', m') /\
    rm_ok rm' m' (vals ++ rm_pending rm ++ offs) /\ rm_pending rm' = [].
Proof.
  intros Hok Hc Hch Hnd Hl Hroom Hmax. unfold free_chain. rewrite Hc.
  rewrite (chain_walk_complete walk_fuel rm m ∅ [] offs root); try done.
  - cbn [mbind option_bind app].
    destruct (flush_releases_spec rm m vals (rm_pending rm ++ offs) Hok)
      as (res & h & m' & vals' & rest & -> & Hok' & Hcons & R1 & R2 & _ & Hf); [|done|].
    + apply Forall_app. split; [apply (mo_pending _ _ _ Hok)|by apply (is_chain_range rm m root)].
    + destruct rest as [|o rest].
      * rewrite (R1 eq_refl). rewrite app_nil_r in Hcons. subst vals'. eexists _, _. done.
      * exfalso. destruct (R2 ltac:(done)) as [_ Hcap]. apply (f_equal length) in Hcons.
        rewrite !length_app in Hcons. cbn in Hcons. lia.
  - intros x. by rewrite elem_of_empty, elem_of_nil.
  - unfold walk_fuel. lia.
Qed.

(** C25. End to end, whatever is still in the release queue and in the backlog of the
    mapping side: releasing a message's chain puts its blocks behind what waits, and the
    owner's next drain takes back exactly the buffers that reached the queue, in order
    -- all of them, and the release succeeds, if together they fit in it; otherwise the
    queue is filled, the release reports it full and what is left stays in the backlog.
    Every other buffer stays live with its bytes. *)
Theorem chain_handback (rm : RemoteManager) (lm : LocalManager) (m : mem) (vals : list Z) (B : Z -> Z -> Prop)
    (root now : Z) (offs : list Z) :
  let waiting := vals ++ rm_pending rm ++ offs in
  lm_inv lm m vals B -> maps rm lm -> rm_closed rm = false -> lm_closed lm = false ->
  0 <= q_head_cache (rm_rq rm) <= get_head (lm_rq lm) m ->
  is_chain rm m root offs -> NoDup waiting -> (forall o, In o waiting -> exists l, B o l) ->
  Z.of_nat (length offs) <= MAX_CHAIN_NODES ->
  get_tail (lm_rq lm) m + Z.of_nat (length (rm_pending rm ++ offs)) < POS_MAX ->
  exists res rm' m1 lm' m2 taken, free_chain rm m root = Some (res, rm', m1) /\
    drain_rq lm m1 now = Some (Z.of_nat (length taken), lm', m2) /\ waiting = taken ++ rm_pending rm' /\
    (Z.of_nat (length waiting) <= cap (lm_rq lm) -> res = Ok tt /\ rm_pending rm' = []) /\
    (cap (lm_rq lm) < Z.of_nat (length waiting) -> res = Err ReleaseQueueFull /\ Z.of_nat (length taken) = cap (lm_rq lm)) /\
    lm_inv lm' m2 [] (fun o l => B o l /\ ~ In o taken) /\
    (forall o l x, B o l -> ~ In o taken -> o <= x < o + l -> rd m2 (lm_data lm + x) = rd m (lm_data lm + x)).
Proof.
  intros waiting Hinv Hmp Hc1 Hc2 Hh Hch Hnd Hlive Hlen Hmax. pose proof Hmp as (Ed & Es & h0 & Eq).
  assert (Hpr : Forall (fun o => off_range rm o = true) (rm_pending rm ++ offs)).
  { apply Forall_forall. intros o Ho%list_elem_of_In. destruct (Hlive o) as [l Hl]; [apply in_app_iff; by right|].
    destruct (bufs_range lm m vals B o l Hinv Hl). apply off_range_spec. rewrite Es. lia. }
  assert (Hok : rm_ok rm m vals) by (apply (rm_ok_maps rm lm m vals B); try done; by apply Forall_app in Hpr as [? _]).
  assert (Hndo : NoDup offs) by (apply NoDup_app in Hnd as (_ & _ & Hn); by apply NoDup_app in Hn as (_ & _ & Hn)).
  unfold free_chain. rewrite Hc1. rewrite (chain_walk_complete walk_fuel rm m ∅ [] offs root); try done.
  2:{ intros x. by rewrite elem_of_empty, elem_of_nil. }
  2:{ unfold walk_fuel. lia. }
  cbn [mbind option_bind app].
  destruct (flush_releases_spec rm m vals (rm_pending rm ++ offs) Hok Hpr)
    as (res & h & m1 & taken & rest & -> & Hok' & Hcons & R1 & R2 & Ehd & Hf); [by rewrite Eq|].
  change (vals ++ rm_pending rm ++ offs) with waiting in Hcons. rewrite <- Hcons in Hnd, Hlive |- *.
  assert (Hinv1 : lm_inv lm m1 taken B).
  { apply (lm_inv_flushed rm lm m m1 vals taken B h Hinv Hmp); [|done|done]. destruct Hok' as [K1 K2 K3 K4]. by split. }
  destruct (drain_spec lm m1 taken B now Hinv1) as (lm' & m2 & E2 & _ & Hinv2 & Hk).
  { by apply NoDup_app in Hnd as (? & _). }
  { intros o Ho. apply Hlive, in_app_iff. by left. }
  pose proof (rk_fits _ _ _ (mo_ring _ _ _ Hok')) as Hfit. cbn [with_release rm_rq] in Hfit.
  change (cap (with_cache (rm_rq rm) h)) with (cap (rm_rq rm)) in Hfit. rewrite Eq in R2, Hfit.
  change (cap (with_cache (lm_rq lm) h0)) with (cap (lm_rq lm)) in *. rewrite length_app, Nat2Z.inj_add.
  eexists res, _, m1, lm', m2, taken. split; [done|]. split; [unfold drain_rq; by rewrite Hc2|]. split; [done|].
  split; [|split; [|split; [done|]]].
  - intros Hle. destruct rest as [|o rest]; [by split; [apply R1|]|]. destruct (R2 ltac:(done)) as [_ Hcp]. cbn in Hle. lia.
  - intros Hgt. apply R2. intros ->. cbn in Hgt. lia.
  - intros o l x Ho Hno Hx. rewrite (Hk o l x Ho Hno Hx). rewrite Ed in Hf. apply Hf.
    destruct (bufs_range lm m vals B o l Hinv Ho). lia.
Qed.

(** ** Samples: the owner's sample segment, mapped *)

Definition sample_rm : RemoteManager := mkRM 4096 sample_total sample_rq [] false.

Lemma sample_maps : maps sample_rm sample_lm1.
Proof. vm_compute. split; [reflexivity|]. split; [reflexivity|]. exists 0. reflexivity. Qed.

Lemma sample_rm_ok : rm_ok sample_rm sample_m1 [].
Proof.
  apply (rm_ok_maps sample_rm sample_lm1 sample_m1 [] sample_bufs);
    [apply sample_ok1 | apply sample_maps | vm_compute; split; discriminate | constructor].
Qed.

(** The buffer's chain is itself. *)
Lemma sample_chain : is_chain sample_rm sample_m1 sample_off [sample_off].
Proof.
  split; [reflexivity|]. split; [vm_compute; reflexivity|].
  destruct (read_inner sample_rm sample_m1 sample_off) as [[bytes next]|] eqn:E; [|vm_compute in E; discriminate].
  exists bytes, next. split; [reflexivity|]. vm_compute in E. injection E as <- <-. vm_compute. discriminate.
Qed.

Lemma remote_read_safe_witness :
  read_inner sample_rm (<[0 := 7]> sample_m1) sample_off = read_inner sample_rm sample_m1 sample_off.
Proof.
  apply (remote_read_safe sample_rm sample_m1 (<[0 := 7]> sample_m1) sample_off).
  intros x Hx. apply rd_insert_ne. intros <-. vm_compute in Hx. destruct Hx as [Hx _]. by apply Hx.
Defined.

Lemma remote_read_live_witness :
  rm_read sample_rm sample_m1 sample_off
  = Some (data sample_m1 (lm_data sample_lm1 + sample_off), get_next sample_m1 (lm_data sample_lm1 + sample_off)).
Proof.
  apply (remote_read_live sample_rm sample_lm1 sample_m1 [] sample_bufs sample_off 16376);
    [apply sample_ok1 | apply sample_maps | reflexivity | apply sample_buf | left; vm_compute; reflexivity].
Defined.

Lemma free_chain_conserves_witness :
  exists res rm' m', free_chain sample_rm sample_m1 sample_off = Some (res, rm', m').
Proof.
  destruct (free_chain_conserves sample_rm sample_m1 [] sample_off sample_rm_ok) as (res & rm' & m' & E & _);
    [reflexivity | vm_compute; reflexivity |]. exists res, rm', m'. exact E.
Defined.

Lemma free_chain_accepts_witness :
  exists rm' m', free_chain sample_rm sample_m1 sample_off = Some (Ok tt, rm', m') /\
    rm_ok rm' m' [sample_off] /\ rm_pending rm' = [].
Proof.
  apply (free_chain_accepts sample_rm sample_m1 [] sample_off [sample_off] sample_rm_ok);
    [reflexivity | apply sample_chain | apply NoDup_singleton | discriminate | vm_compute; discriminate
    | vm_compute; reflexivity].
Defined.

Lemma chain_handback_witness :
  exists rm' m1 lm' m2, free_chain sample_rm sample_m1 sample_off = Some (Ok tt, rm', m1) /\ rm_pending rm' = [] /\
    drain_rq sample_lm1 m1 9 = Some (1, lm', m2) /\ lm_inv lm' m2 [] (fun o l => sample_bufs o l /\ ~ In o [sample_off]).
Proof.
  destruct (chain_handback sample_rm sample_lm1 sample_m1 [] sample_bufs sample_off 9 [sample_off])
    as (res & rm' & m1 & lm' & m2 & taken & E1 & E2 & Ew & Hf & _ & Hi & _);
    [apply sample_ok1 | apply sample_maps | reflexivity | vm_compute; reflexivity
    | vm_compute; split; discriminate | apply sample_chain | apply NoDup_singleton
    | intros o [<- | []]; exists 16376; apply sample_buf | vm_compute; discriminate | vm_compute; reflexivity |].
  destruct Hf as [-> Hp]; [vm_compute; discriminate|]. rewrite Hp, app_nil_r in Ew. cbn in Ew. subst taken.
  exists rm', m1, lm', m2. split; [exact E1|]. split; [exact Hp|]. split; [exact E2|exact Hi].
Defined.
