(* ===== verification/Bytes.v ===== *)
(** * Integers as bytes

    [to_ne_bytes]/[from_ne_bytes] on a little-endian host, and the big-endian
    forms ([get_u32] and its kin) the wire formats use. *)

From Stdlib Require Import ZArith Lia.
From stdpp Require Import base numbers list.
From S2P Require Import Prelude.

#[local] Open Scope Z_scope.

Fixpoint le_bytes (n : nat) (v : Z) : list Z :=
  match n with
  | O => []
  | S n => v mod 256 :: le_bytes n (v / 256)
  end.

Fixpoint le_val (bs : list Z) : Z :=
  match bs with
  | [] => 0
  | b :: bs => b + 256 * le_val bs
  end.

Definition be_bytes (n : nat) (v : Z) : list Z := rev (le_bytes n v).

Definition be_val (bs : list Z) : Z := le_val (rev bs).

Lemma le_bytes_length (n : nat) (v : Z) : length (le_bytes n v) = n.
Proof. revert v. induction n as [|n IH]; intros v; cbn; [done|]. by rewrite IH. Qed.

Lemma be_bytes_length (n : nat) (v : Z) : length (be_bytes n v) = n.
Proof. unfold be_bytes. by rewrite length_rev, le_bytes_length. Qed.

Lemma le_bytes_ok (n : nat) (v : Z) : Forall is_byte (le_bytes n v).
Proof.
  revert v. induction n as [|n IH]; intros v; cbn; constructor; [|done].
  apply Z.mod_pos_bound. lia.
Qed.

Lemma be_bytes_ok (n : nat) (v : Z) : Forall is_byte (be_bytes n v).
Proof. unfold be_bytes. apply List.Forall_rev, le_bytes_ok. Qed.

Lemma le_val_bytes (n : nat) (v : Z) : le_val (le_bytes n v) = v mod 256 ^ Z.of_nat n.
Proof.
  revert v. induction n as [|n IH]; intros v; cbn [le_bytes le_val]; [by rewrite Z.mod_1_r|].
  rewrite IH, Nat2Z.inj_succ, Z.pow_succ_r by lia.
  rewrite (Z.rem_mul_r v 256) by (try apply Z.pow_nonzero; lia). lia.
Qed.

Lemma be_val_bytes (n : nat) (v : Z) : be_val (be_bytes n v) = v mod 256 ^ Z.of_nat n.
Proof. unfold be_val, be_bytes. by rewrite rev_involutive, le_val_bytes. Qed.

Lemma le_val_bound (bs : list Z) : Forall is_byte bs -> 0 <= le_val bs < 256 ^ Z.of_nat (length bs).
Proof.
  induction bs as [|b bs IH]; intros Hb; cbn [le_val length]; [lia|].
  apply Forall_cons in Hb as [Hb Hbs]. specialize (IH Hbs). unfold is_byte in Hb.
  rewrite Nat2Z.inj_succ, Z.pow_succ_r by lia. lia.
Qed.

Lemma be_val_bound (bs : list Z) : Forall is_byte bs -> 0 <= be_val bs < 256 ^ Z.of_nat (length bs).
Proof. intros Hb. unfold be_val. rewrite <- length_rev. by apply le_val_bound, List.Forall_rev. Qed.

Lemma le_bytes_val (bs : list Z) : Forall is_byte bs -> le_bytes (length bs) (le_val bs) = bs.
Proof.
  induction bs as [|b bs IH]; intros Hb; cbn [le_val length le_bytes]; [done|].
  apply Forall_cons in Hb as [Hb Hbs]. unfold is_byte in Hb. rewrite Z.mul_comm, Z.add_comm.
  rewrite Z.div_add_l by lia. rewrite Z.div_small by lia. rewrite Z.add_0_r, (IH Hbs). f_equal.
  rewrite Z.add_comm, Z.mod_add by lia. by apply Z.mod_small.
Qed.

Lemma be_bytes_val (bs : list Z) : Forall is_byte bs -> be_bytes (length bs) (be_val bs) = bs.
Proof.
  intros Hb. unfold be_bytes, be_val. rewrite <- (length_rev bs).
  rewrite le_bytes_val by (by apply List.Forall_rev). apply rev_involutive.
Qed.

Lemma read_bytes_ok (m : mem) (a : Z) (n : nat) : Forall is_byte (read_bytes m a n).
Proof. revert a. induction n as [|n IH]; intros a; cbn; constructor; [apply rd_bound|done]. Qed.

(** Splitting a list of known length. *)
Lemma take_app_exact {A} (n : nat) (l1 l2 : list A) : length l1 = n -> take n (l1 ++ l2) = l1.
Proof. intros <-. apply take_app_length. Qed.

Lemma drop_app_exact {A} (n : nat) (l1 l2 : list A) : length l1 = n -> drop n (l1 ++ l2) = l2.
Proof. intros <-. apply drop_app_length. Qed.
