(* ===== verification/Protocol.v ===== *)
(** * The control protocol: frame headers and events

    [src/src/protocol/header.rs] and [src/src/protocol/event.rs].  A header is
    eight bytes in front of every frame on the unix socket: its length and a
    magic number in network order, the protocol version and the event type.  The
    accessors read the bytes at a pointer; here they take the list of bytes that
    starts there. *)

From Stdlib Require Import ZArith Lia.
From stdpp Require Import base numbers list.
From S2P Require Import Prelude Bytes.

#[local] Open Scope Z_scope.

(** ** Constants ([src/src/consts.rs]) *)

Definition MAX_SUPPORT_PROTO_VERSION : Z := 5.

Definition MAGIC_NUMBER : Z := 0x7758.

Definition SIZE_OF_LENGTH : Z := 4.

Definition SIZE_OF_MAGIC : Z := 2.

Definition SIZE_OF_VERSION : Z := 1.

Definition SIZE_OF_TYPE : Z := 1.

Definition HEADER_SIZE : Z := SIZE_OF_LENGTH + SIZE_OF_MAGIC + SIZE_OF_VERSION + SIZE_OF_TYPE.

Definition MAX_CONTROL_FRAME_SIZE : Z := Z.shiftl 256 20.

(** ** Event types

    A wrapped byte: [From<u8>] keeps every value, named or not. *)

Definition EventType : Type := Z.

Definition TYPE_SHARE_MEMORY_BY_FILE_PATH : EventType := 0.

Definition TYPE_POLLING : EventType := 1.

Definition TYPE_STREAM_CLOSE : EventType := 2.

Definition TYPE_FALLBACK_DATA : EventType := 3.

Definition TYPE_EXCHANGE_PROTO_VERSION : EventType := 4.

Definition TYPE_SHARE_MEMORY_BY_MEMFD : EventType := 5.

Definition TYPE_ACK_SHARE_MEMORY : EventType := 6.

Definition TYPE_ACK_READY_RECV_FD : EventType := 7.

Definition TYPE_HOT_RESTART : EventType := 8.

Definition TYPE_HOT_RESTART_ACK : EventType := 9.

Definition TYPE_NEGOTIATION : EventType := 10.

Definition MIN_EVENT_TYPE : EventType := TYPE_SHARE_MEMORY_BY_FILE_PATH.

Definition MAX_EVENT_TYPE : EventType := TYPE_NEGOTIATION.

(** The errors of a malformed frame: [Error::InvalidVersion],
    [Error::InvalidMsgType], and [Error::SizeTooLarge] and [Error::NotEnoughData]
    for its length. *)
Inductive EventError : Type :=
| InvalidVersion
| InvalidMsgType
| FrameTooLarge
| FrameTooShort.

#[export] Instance EventError_eq_dec : EqDecision EventError.
Proof. solve_decision. Defined.

(** ** Headers *)

Definition hdr_length (h : list Z) : Z := be_val (take 4 h).

Definition hdr_magic (h : list Z) : Z := be_val (take 2 (drop 4 h)).

Definition hdr_version (h : list Z) : Z := default 0 (h !! 6%nat).

Definition hdr_msg_type (h : list Z) : EventType := default 0 (h !! 7%nat).

(** [Header::encode], as the eight bytes it leaves. *)
Definition hdr_encode (length version : Z) (msg_type : EventType) : list Z :=
  be_bytes 4 length ++ be_bytes 2 MAGIC_NUMBER ++ [version; msg_type].

(** [FallbackDataEvent::encode], as the sixteen bytes it leaves. *)
Definition fallback_encode (length version seq_id status : Z) : list Z :=
  (be_bytes 4 length ++ be_bytes 2 MAGIC_NUMBER ++ [version; TYPE_FALLBACK_DATA]) ++
  be_bytes 4 seq_id ++ be_bytes 4 status.

(** The frame of a closing stream, built in place by [Stream::close]. *)
Definition close_encode (version id : Z) : list Z :=
  be_bytes 4 12 ++ be_bytes 2 MAGIC_NUMBER ++ [version; TYPE_STREAM_CLOSE] ++ be_bytes 4 id.

(** [POLLING_EVENT_WITH_VERSION]: the wakeup of every version, indexed by it. *)
Definition POLLING_EVENT_WITH_VERSION : list (list Z) :=
  (fun i => hdr_encode HEADER_SIZE (Z.of_nat i) TYPE_POLLING) <$> seq 0 (Z.to_nat (MAX_SUPPORT_PROTO_VERSION + 1)).

Definition check_event_valid (h : list Z) : result EventError unit :=
  if negb (hdr_magic h =? MAGIC_NUMBER) || (hdr_version h >? MAX_SUPPORT_PROTO_VERSION)
  then Err InvalidVersion
  else if (hdr_msg_type h <? MIN_EVENT_TYPE) || (hdr_msg_type h >? MAX_EVENT_TYPE)
  then Err InvalidMsgType
  else Ok tt.

(** ** What a header carries *)

Lemma hdr_encode_length (n v t : Z) : length (hdr_encode n v t) = 8%nat.
Proof. reflexivity. Qed.

Lemma fallback_encode_length (n v i s : Z) : length (fallback_encode n v i s) = 16%nat.
Proof. reflexivity. Qed.

Lemma close_encode_length (v i : Z) : length (close_encode v i) = 12%nat.
Proof. reflexivity. Qed.

Lemma be_val_bytes4 (v : Z) : 0 <= v < W32 -> be_val (be_bytes 4 v) = v.
Proof. intros Hv. rewrite be_val_bytes. by apply Z.mod_small. Qed.

(** The fields of encoded bytes, whatever follows them. *)
Lemma hdr_fields (n v t : Z) (rest : list Z) :
  0 <= n < W32 ->
  hdr_length (hdr_encode n v t ++ rest) = n /\ hdr_magic (hdr_encode n v t ++ rest) = MAGIC_NUMBER /\
  hdr_version (hdr_encode n v t ++ rest) = v /\ hdr_msg_type (hdr_encode n v t ++ rest) = t.
Proof.
  intros Hn. split; [|done]. unfold hdr_length, hdr_encode. rewrite <- app_assoc.
  rewrite take_app_exact by apply be_bytes_length. by apply be_val_bytes4.
Qed.

Lemma check_encoded (n v t : Z) (rest : list Z) :
  0 <= n < W32 -> 0 <= v <= MAX_SUPPORT_PROTO_VERSION -> MIN_EVENT_TYPE <= t <= MAX_EVENT_TYPE ->
  check_event_valid (hdr_encode n v t ++ rest) = Ok tt.
Proof.
  intros Hn Hv Ht. destruct (hdr_fields n v t rest Hn) as (_ & E2 & E3 & E4).
  unfold check_event_valid. rewrite E2, E3, E4, Z.eqb_refl.
  replace (v >? MAX_SUPPORT_PROTO_VERSION) with false by (symmetry; lia).
  replace (t <? MIN_EVENT_TYPE) with false by (symmetry; lia).
  by replace (t >? MAX_EVENT_TYPE) with false by (symmetry; lia).
Qed.

(** The longer events start with the header of their kind. *)
Lemma fallback_encode_split (n v i s : Z) :
  fallback_encode n v i s = hdr_encode n v TYPE_FALLBACK_DATA ++ be_bytes 4 i ++ be_bytes 4 s.
Proof. reflexivity. Qed.

Lemma close_encode_split (v i : Z) : close_encode v i = hdr_encode 12 v TYPE_STREAM_CLOSE ++ be_bytes 4 i.
Proof. unfold close_encode, hdr_encode. by rewrite <- !app_assoc. Qed.
