(* ===== verification/Config.v ===== *)
(** * Configuration ([src/src/config.rs])

    [Config] with its builders, and [Config::verify], which checks a configuration
    and rounds its sizes up in place.  Paths are the bytes of their strings, a
    duration is its nanoseconds. *)

From Stdlib Require Import ZArith Lia Ascii String.
From stdpp Require Import base numbers list.
From S2P Require Import Prelude Fixed.

#[local] Open Scope Z_scope.

Inductive MemMapType : Type :=
| MemMapTypeDevShmFile
| MemMapTypeMemFd.

Inductive ProtocolMode : Type :=
| Legacy
| V4 (fallback : bool)
| V5 (fallback : bool).

Inductive WakeupMode : Type :=
| WakeupDefault
| EventQueuePolling (interval : Z)
| WakeupEventFd.

Record ProtocolConfig : Type := mkProtocol {
  mode : ProtocolMode;
  wakeup : WakeupMode;
}.

Record Config : Type := mkConfig {
  connection_write_timeout : Z;
  connection_read_timeout : option Z;
  connection_timeout : option Z;
  initialize_timeout : Z;
  cf_queue_cap : Z;
  queue_path : list Z;
  share_memory_buffer_cap : Z;
  share_memory_path_prefix : list Z;
  buffer_slice_sizes : list SizePercentPair;
  mem_map_type : MemMapType;
  rebuild_interval : Z;
  max_stream_num : Z;
  protocol : ProtocolConfig;
  v5_queue_publish_timeout : Z;
}.

Inductive ConfigError : Type :=
| LegacyWakeup
| ZeroInterval
| EventFdNeedsMemFd
| V5NeedsMemFd
| BufferCapTooSmall
| NoSliceSizes
| SliceTooLarge
| PercentSum
| EmptyPath.

(** ** Defaults and builders *)

(** The bytes of a string. *)
Definition bytes_of (s : string) : list Z := (fun a => Z.of_N (N_of_ascii a)) <$> list_ascii_of_string s.

Definition DEFAULT_QUEUE_CAP : Z := 8192.

Definition DEFAULT_QUEUE_PATH : list Z := bytes_of "/dev/shm/shmipc_queue".

Definition DEFAULT_SHARE_MEMORY_CAP : Z := 32 * 1024 * 1024.

(** [BUFFER_HEADER_SIZE] of [src/src/buffer/manager.rs]. *)
Definition BUFFER_HEADER_SIZE : Z := 4 + 4 + 4 + 4 + 4.

Definition DEFAULT_BUFFER_SLICE_SIZES : list SizePercentPair :=
  [mkPair (8192 - BUFFER_HEADER_SIZE) 50; mkPair (32 * 1024 - BUFFER_HEADER_SIZE) 30;
   mkPair (128 * 1024 - BUFFER_HEADER_SIZE) 20].

Definition SESSION_REBUILD_INTERVAL : Z := 60 * 1000000000.

Definition DEFAULT_V5_QUEUE_PUBLISH_TIMEOUT : Z := 1000000000.

Definition config_default : Config :=
  mkConfig (10 * 1000000000) None None (1000 * 1000000) DEFAULT_QUEUE_CAP DEFAULT_QUEUE_PATH DEFAULT_SHARE_MEMORY_CAP
    (bytes_of "/dev/shm/shmipc") DEFAULT_BUFFER_SLICE_SIZES MemMapTypeMemFd SESSION_REBUILD_INTERVAL 4096
    (mkProtocol Legacy WakeupDefault) DEFAULT_V5_QUEUE_PUBLISH_TIMEOUT.

Definition with_protocol (c : Config) (p : ProtocolConfig) : Config :=
  mkConfig (connection_write_timeout c) (connection_read_timeout c) (connection_timeout c) (initialize_timeout c)
    (cf_queue_cap c) (queue_path c) (share_memory_buffer_cap c) (share_memory_path_prefix c) (buffer_slice_sizes c)
    (mem_map_type c) (rebuild_interval c) (max_stream_num c) p (v5_queue_publish_timeout c).

Definition with_v4 (c : Config) : Config := with_protocol c (mkProtocol (V4 true) (wakeup (protocol c))).

Definition with_v4_eventfd (c : Config) : Config := with_protocol c (mkProtocol (V4 true) WakeupEventFd).

Definition with_v4_event_queue_polling (c : Config) (interval : Z) : Config :=
  with_protocol c (mkProtocol (V4 true) (EventQueuePolling interval)).

Definition with_v5 (c : Config) : Config := with_protocol c (mkProtocol (V5 true) (wakeup (protocol c))).

Definition with_v5_eventfd (c : Config) : Config := with_protocol c (mkProtocol (V5 true) WakeupEventFd).

Definition with_v5_event_queue_polling (c : Config) (interval : Z) : Config :=
  with_protocol c (mkProtocol (V5 true) (EventQueuePolling interval)).

(** ** Verification *)

Definition with_sizes (c : Config) (sizes : list SizePercentPair) : Config :=
  mkConfig (connection_write_timeout c) (connection_read_timeout c) (connection_timeout c) (initialize_timeout c)
    (cf_queue_cap c) (queue_path c) (share_memory_buffer_cap c) (share_memory_path_prefix c) sizes
    (mem_map_type c) (rebuild_interval c) (max_stream_num c) (protocol c) (v5_queue_publish_timeout c).

Definition with_queue_cap (c : Config) (cap : Z) : Config :=
  mkConfig (connection_write_timeout c) (connection_read_timeout c) (connection_timeout c) (initialize_timeout c)
    cap (queue_path c) (share_memory_buffer_cap c) (share_memory_path_prefix c) (buffer_slice_sizes c)
    (mem_map_type c) (rebuild_interval c) (max_stream_num c) (protocol c) (v5_queue_publish_timeout c).

(** [(x + (a - 1)) & !(a - 1)] on [u32], for [a] a power of two; the sum wraps, as it
    does in a release build. *)
Definition align_up (x a : Z) : Z := Z.ldiff (wrap32 (x + (a - 1))) (a - 1).

(** The loop over the slice sizes: the sum of the percentages, which wraps, and the
    sizes as it leaves them, or the pair that is too large. *)
Fixpoint verify_sizes (cap sum : Z) (pairs : list SizePercentPair) : result ConfigError Z * list SizePercentPair :=
  match pairs with
  | [] => (Ok sum, [])
  | p :: pairs =>
      let sum := wrap32 (sum + sp_percent p) in
      if sp_bytes p >? cap then (Err SliceTooLarge, p :: pairs)
      else
        let aligned := align_up (sp_bytes p) 4 in
        let '(res, rest) := verify_sizes cap sum pairs in
        (res, mkPair aligned (sp_percent p) :: rest)
  end.

Definition is_legacy (m : ProtocolMode) : bool := match m with Legacy => true | _ => false end.

Definition is_v5 (m : ProtocolMode) : bool := match m with V5 _ => true | _ => false end.

Definition is_default (w : WakeupMode) : bool := match w with WakeupDefault => true | _ => false end.

Definition is_eventfd (w : WakeupMode) : bool := match w with WakeupEventFd => true | _ => false end.

Definition polls_at_zero (w : WakeupMode) : bool := match w with EventQueuePolling i => i =? 0 | _ => false end.

Definition is_memfd (t : MemMapType) : bool := match t with MemMapTypeMemFd => true | _ => false end.

(** The checks before anything is written. *)
Definition verify_modes (c : Config) : option ConfigError :=
  let p := protocol c in
  if is_legacy (mode p) && negb (is_default (wakeup p)) then Some LegacyWakeup
  else if polls_at_zero (wakeup p) then Some ZeroInterval
  else if is_eventfd (wakeup p) && negb (is_memfd (mem_map_type c)) then Some EventFdNeedsMemFd
  else if is_v5 (mode p) && negb (is_memfd (mem_map_type c)) then Some V5NeedsMemFd
  else if share_memory_buffer_cap c <? Z.shiftl 1 20 then Some BufferCapTooSmall
  else match buffer_slice_sizes c with [] => Some NoSliceSizes | _ => None end.

Definition verify (c : Config) : result ConfigError unit * Config :=
  match verify_modes c with
  | Some e => (Err e, c)
  | None =>
      let '(res, sizes) := verify_sizes (share_memory_buffer_cap c) 0 (buffer_slice_sizes c) in
      let c := with_sizes c sizes in
      match res with
      | Err e => (Err e, c)
      | Ok sum =>
          if negb (sum =? 100) then (Err PercentSum, c)
          else
            let c := with_queue_cap c (align_up (cf_queue_cap c) 8) in
            match share_memory_path_prefix c, queue_path c with
            | [], _ | _, [] => (Err EmptyPath, c)
            | _, _ => (Ok tt, c)
            end
      end
  end.

(** ** What an accepted configuration satisfies *)

Definition modes_ok (c : Config) : Prop :=
  (mode (protocol c) = Legacy -> wakeup (protocol c) = WakeupDefault) /\
  (forall i, wakeup (protocol c) = EventQueuePolling i -> i <> 0) /\
  (wakeup (protocol c) = WakeupEventFd \/ (exists b, mode (protocol c) = V5 b) -> mem_map_type c = MemMapTypeMemFd) /\
  2 ^ 20 <= share_memory_buffer_cap c.

(** Rounded up: the next multiple, less than a whole unit above. *)
Definition rounds_to (a x y : Z) : Prop := (a | y) /\ x <= y < x + a.

(** Rounded up in 32 bits: a value with no multiple above it that fits becomes zero. *)
Definition rounds32_to (a x y : Z) : Prop := (x <= W32 - a -> rounds_to a x y) /\ (W32 - a < x -> y = 0).

Lemma align_up_spec (k x : Z) : 0 <= k <= 32 -> 0 <= x < W32 -> rounds32_to (2 ^ k) x (align_up x (2 ^ k)).
Proof.
  intros Hk Hx. assert (Hp : 0 < 2 ^ k) by (apply Z.pow_pos_nonneg; lia).
  assert (Hd : (2 ^ k | W32)) by (exists (2 ^ (32 - k)); change W32 with (2 ^ 32); rewrite <- Z.pow_add_r by lia; f_equal; lia).
  assert (Hle : 2 ^ k <= W32) by (by apply Z.divide_pos_le).
  unfold align_up. replace (2 ^ k - 1) with (Z.ones k) at 2 by (rewrite Z.ones_equiv; lia). rewrite Z.ldiff_ones_r by lia.
  rewrite Z.shiftl_mul_pow2, Z.shiftr_div_pow2 by lia. split; intros Hc.
  - rewrite wrap32_small; [split; [by exists ((x + (2 ^ k - 1)) / 2 ^ k)|]|].
    + pose proof (Z.div_mod (x + (2 ^ k - 1)) (2 ^ k) ltac:(lia)). pose proof (Z.mod_pos_bound (x + (2 ^ k - 1)) (2 ^ k) Hp). lia.
    + lia.
  - unfold wrap32. replace (x + (2 ^ k - 1)) with (x + (2 ^ k - 1) - W32 + 1 * W32) by lia.
    rewrite Z_mod_plus_full, Z.mod_small, Z.div_small by lia. done.
Qed.

Definition pair_rounds (p q : SizePercentPair) : Prop := rounds32_to 4 (sp_bytes p) (sp_bytes q) /\ sp_percent q = sp_percent p.

Definition percents (l : list SizePercentPair) : Z := foldr (fun p n => sp_percent p + n) 0 l.

(** The sizes are 32-bit values. *)
Definition config_u32 (c : Config) : Prop :=
  0 <= cf_queue_cap c < W32 /\ Forall (fun p => 0 <= sp_bytes p < W32) (buffer_slice_sizes c).

Lemma verify_sizes_spec (cap sum : Z) (pairs : list SizePercentPair) :
  Forall (fun p => 0 <= sp_bytes p < W32) pairs ->
  let fits := Forall (fun p => sp_bytes p <= cap) pairs in
  match verify_sizes cap sum pairs with
  | (Ok n, rest) => fits /\ wrap32 n = wrap32 (sum + percents pairs) /\ (0 <= sum < W32 -> 0 <= n < W32) /\ Forall2 pair_rounds pairs rest
  | (Err e, rest) => ~ fits /\ e = SliceTooLarge
  end.
Proof.
  intros Hu. cbn zeta. revert sum. induction Hu as [|p pairs Hp _ IH]; intros sum; cbn [verify_sizes percents foldr].
  - split; [done|]. by rewrite Z.add_0_r.
  - destruct (Z.gtb_spec (sp_bytes p) cap) as [Hg|Hg]; [split; [rewrite Forall_cons; lia|done]|].
    specialize (IH (wrap32 (sum + sp_percent p))). destruct (verify_sizes cap _ pairs) as [[n|e] rest].
    + destruct IH as (H1 & H2 & H3 & H4). split; [by constructor|]. split.
      { rewrite H2. unfold wrap32. rewrite Zplus_mod_idemp_l. f_equal. fold (percents pairs). lia. }
      split; [intros _; apply H3, wrap32_bound|]. constructor; [|done]. split; [by apply (align_up_spec 2)|done].
    + destruct IH as [H1 ->]. split; [rewrite Forall_cons; tauto|done].
Qed.

Lemma verify_modes_spec (c : Config) : verify_modes c = None <-> modes_ok c /\ buffer_slice_sizes c <> [].
Proof.
  unfold verify_modes, modes_ok. cbn zeta. change (Z.shiftl 1 20) with (2 ^ 20).
  destruct (protocol c) as [md wk]. cbn [mode wakeup]. destruct (Z.ltb_spec (share_memory_buffer_cap c) (2 ^ 20)) as [Hc|Hc].
  - split; [|lia]. by destruct md, wk as [|i|], (mem_map_type c); cbn; try destruct (i =? 0).
  - destruct md, wk as [|i|], (mem_map_type c), (buffer_slice_sizes c); cbn; try destruct (Z.eqb_spec i 0); naive_solver.
Qed.

(** C33. [verify] accepts exactly the configurations with a wakeup their protocol can
    carry (no wakeup feature in legacy mode, a polling interval above zero, memfd
    memory for eventfd and for V5), a buffer of at least a megabyte, slices that fit in
    it, slice percentages whose 32-bit sum is one hundred, and non-empty paths.  It
    then has rounded the slice sizes up to words and the queue's capacity to eight, in
    32 bits -- so that a value with no such multiple below 2^32 has become zero -- and
    changed nothing else. *)
Theorem verify_accepts (c : Config) :
  config_u32 c ->
  ((verify c).1 = Ok tt <->
     modes_ok c /\ buffer_slice_sizes c <> [] /\ Forall (fun p => sp_bytes p <= share_memory_buffer_cap c) (buffer_slice_sizes c) /\
     wrap32 (percents (buffer_slice_sizes c)) = 100 /\ share_memory_path_prefix c <> [] /\ queue_path c <> []) /\
  ((verify c).1 = Ok tt ->
     exists sizes cap, (verify c).2 = with_queue_cap (with_sizes c sizes) cap /\
       Forall2 pair_rounds (buffer_slice_sizes c) sizes /\ rounds32_to 8 (cf_queue_cap c) cap).
Proof.
  intros [Hq Hs]. unfold verify. pose proof (verify_modes_spec c) as Hm. destruct (verify_modes c) as [e|].
  { split; [|done]. split; [done|]. intros (H1 & H2 & _). by pose proof (proj2 Hm (conj H1 H2)). }
  destruct (proj1 Hm eq_refl) as [Hm1 Hm2]. pose proof (verify_sizes_spec (share_memory_buffer_cap c) 0 _ Hs) as Hz. cbn zeta in Hz.
  destruct (verify_sizes _ 0 _) as [[sum|e] sizes]; [|split; [split; [done|tauto]|done]].
  destruct Hz as (H1 & H2 & H3 & H4). rewrite Z.add_0_l, wrap32_small in H2 by (by apply H3). rewrite <- H2.
  destruct (Z.eqb_spec sum 100) as [Ep|Ep]; cbn; [|split; [split; [done|tauto]|done]].
  destruct (share_memory_path_prefix c), (queue_path c); cbn; (split; [split; [try done; try tauto|try done; tauto]|try done]).
  intros _. exists sizes, (align_up (cf_queue_cap c) 8). split; [done|]. split; [done|]. by apply (align_up_spec 3).
Qed.

Definition sample_config : Config :=
  mkConfig 10000000000 None None 1000000000 8193 [47; 113] (2 ^ 25) [47; 98] [mkPair 4097 50; mkPair 8193 50]
    MemMapTypeMemFd 60000000000 4096 (mkProtocol (V5 true) (EventQueuePolling 250000)) 1000000000.

Lemma verify_accepts_witness :
  config_u32 sample_config /\ (verify sample_config).1 = Ok tt /\ wrap32 (percents (buffer_slice_sizes sample_config)) = 100 /\
  exists sizes cap, (verify sample_config).2 = with_queue_cap (with_sizes sample_config sizes) cap /\ rounds32_to 8 8193 cap.
Proof.
  assert (Hu : config_u32 sample_config) by (split; [vm_compute; by split|repeat constructor; vm_compute; done]).
  assert (Ho : (verify sample_config).1 = Ok tt) by (vm_compute; reflexivity).
  destruct (verify_accepts sample_config Hu) as [[H1 _] H2]. split; [exact Hu|]. split; [exact Ho|]. split; [apply (H1 Ho)|].
  destruct (H2 Ho) as (sizes & cap & E & _ & Hc). exists sizes, cap. split; [exact E|exact Hc].
Defined.

(** The sums are not checked: percentages that add up to 2^32 + 100 are accepted, and
    the largest capacity of a queue becomes a queue of no elements. *)
Lemma verify_wraps :
  exists c c', config_u32 c /\ verify c = (Ok tt, c') /\ percents (buffer_slice_sizes c) = W32 + 100 /\
    cf_queue_cap c = W32 - 1 /\ cf_queue_cap c' = 0.
Proof.
  exists (mkConfig 0 None None 0 (W32 - 1) [47] (2 ^ 20) [47] [mkPair 4096 (W32 - 1); mkPair 8192 101] MemMapTypeMemFd 0 0 (mkProtocol Legacy WakeupDefault) 0).
  eexists. split; [split; [vm_compute; by split|repeat constructor; vm_compute; done]|]. split; [vm_compute; reflexivity|]. by repeat split.
Qed.

(** Rounding up happens after the check against the buffer's capacity: a slice as
    large as an unaligned capacity is accepted and leaves larger than it. *)
Lemma verify_rounds_past_cap :
  exists c c' p, verify c = (Ok tt, c') /\ In p (buffer_slice_sizes c') /\ share_memory_buffer_cap c' < sp_bytes p.
Proof.
  exists (mkConfig 0 None None 0 8 [47] (2 ^ 20 + 1) [47] [mkPair (2 ^ 20 + 1) 100] MemMapTypeMemFd 0 0 (mkProtocol Legacy WakeupDefault) 0).
  eexists _, (mkPair (2 ^ 20 + 4) 100). split; [vm_compute; reflexivity|]. split; [left; reflexivity|reflexivity].
Qed.

(** The default configuration and every configuration the builders make of it are
    accepted as they are, less an interval of zero. *)
Lemma builders_verify (i : Z) :
  i <> 0 ->
  Forall (fun c => verify c = (Ok tt, c))
    [config_default; with_v4 config_default; with_v4_eventfd config_default; with_v5 config_default;
     with_v5_eventfd config_default; with_v4_event_queue_polling config_default i; with_v5_event_queue_polling config_default i].
Proof.
  intros Hi. repeat constructor; unfold verify, verify_modes; cbn [with_v4_event_queue_polling with_v5_event_queue_polling with_protocol
    protocol mode wakeup is_legacy is_default negb andb polls_at_zero]; replace (i =? 0) with false by (symmetry; by apply Z.eqb_neq);
    reflexivity.
Qed.
