(* ===== verification/Negotiation.v ===== *)
(** * Negotiation messages ([src/src/protocol/negotiation.rs])

    What a client asks for, what a server picks, and how the answer is read back.
    The JSON codec is a library: a class of its functions ([Serde]), with the
    round trips it documents as a class of laws ([SerdeLaws]). *)

From Stdlib Require Import ZArith Lia String.
From stdpp Require Import base numbers list gmap strings.
From S2P Require Import Prelude Bytes Protocol Fixed Config.

#[local] Open Scope Z_scope.

Definition PROTO_VERSION_V4 : Z := 4.

Definition PROTO_VERSION_V5 : Z := 5.

Definition DEFAULT_MSG_VERSION : Z := 0.

Definition SDK_NAME : string := "shmipc-rs".

Definition FEATURE_EVENT_QUEUE_POLLING : string := "event_queue_polling".

Definition FEATURE_EVENTFD_WAKEUP : string := "eventfd_wakeup".

Definition ERROR_VERSION_NOT_SUPPORTED : string := "VERSION_NOT_SUPPORTED".

Definition ERROR_JSON_PARSE : string := "JSON_PARSE_ERROR".

(** ** Data *)

Record EventQueuePollingSettings : Type := mkSettings { polling_interval_us : Z }.

Inductive NegotiatedFeature : Type :=
| NoFeature
| FeaturePolling (interval : Z)
| FeatureEventFd.

#[export] Instance NegotiatedFeature_eq_dec : EqDecision NegotiatedFeature.
Proof. solve_decision. Defined.

Record NegotiationError : Type := mkNegError {
  code : string;
  message : string;
}.

(** Messages over the type of JSON values. *)
Record NegotiationRequest (Value : Type) : Type := mkRequest {
  supports_protocols : list Z;
  rq_sdk_name : string;
  rq_sdk_version : string;
  supports_features : list string;
  rq_settings : gmap string Value;
}.

Arguments mkRequest {Value}.

Arguments supports_protocols {Value}.

Arguments supports_features {Value}.

Arguments rq_settings {Value}.

Record NegotiationResponse (Value : Type) : Type := mkResponse {
  selected_protocol : Z;
  rs_sdk_name : string;
  rs_sdk_version : string;
  selected_features : list string;
  rs_settings : gmap string Value;
  rs_error : option NegotiationError;
}.

Arguments mkResponse {Value}.

Arguments selected_protocol {Value}.

Arguments selected_features {Value}.

Arguments rs_settings {Value}.

Arguments rs_error {Value}.

Record Negotiated : Type := mkNegotiated {
  message_version : Z;
  feature : NegotiatedFeature;
}.

Definition negotiated_new (f : NegotiatedFeature) : Negotiated := mkNegotiated DEFAULT_MSG_VERSION f.

(** [NegotiationInitError], and every other error of the handshake. *)
Inductive HsError : Type :=
| NetworkOrProtocol
| Rejected (e : NegotiationError)
| UnsupportedProtocol (version : Z)
| InvalidResponse
| OtherError.

Definition is_network_or_protocol (e : HsError) : bool := match e with NetworkOrProtocol => true | _ => false end.

(** ** The JSON codec and the build *)

(** [serde_json] on the messages, the platform and the crate's version.  [to_vec]
    and [to_value] fail on no value of these types. *)
Class Serde (Value : Type) : Type := {
  settings_to_value : EventQueuePollingSettings -> Value;
  settings_from_value : Value -> option EventQueuePollingSettings;
  request_to_vec : NegotiationRequest Value -> list Z;
  request_from_slice : list Z -> option (NegotiationRequest Value);
  response_to_vec : NegotiationResponse Value -> list Z;
  response_from_slice : list Z -> option (NegotiationResponse Value);
  parse_message : list Z -> string;
  eventfd_supported : bool;
  CARGO_PKG_VERSION : string;
}.

Class SerdeLaws (Value : Type) `{Serde Value} : Prop := {
  settings_roundtrip s : settings_from_value (settings_to_value s) = Some s;
  request_roundtrip r : request_from_slice (request_to_vec r) = Some r;
  response_roundtrip r : response_from_slice (response_to_vec r) = Some r;
}.

Section negotiation.
Context {Value : Type} `{Serde Value}.

(** [Duration::as_micros] and [Duration::from_micros]. *)
Definition as_micros (d : Z) : Z := d / 1000.

Definition from_micros (us : Z) : Z := us * 1000.

Definition from_interval (interval : Z) : result HsError EventQueuePollingSettings :=
  let us := as_micros interval in
  if us >=? W64 then Err OtherError
  else if us =? 0 then Err OtherError
  else Ok (mkSettings us).

Definition settings_interval (s : EventQueuePollingSettings) : result HsError Z :=
  if polling_interval_us s =? 0 then Err OtherError else Ok (from_micros (polling_interval_us s)).

Definition from_config (c : Config) : result HsError (NegotiationRequest Value) :=
  let protocols :=
    match mode (protocol c) with
    | V5 _ => [PROTO_VERSION_V5; PROTO_VERSION_V4]
    | V4 _ => [PROTO_VERSION_V4]
    | Legacy => []
    end in
  let request fs settings := Ok (mkRequest protocols SDK_NAME CARGO_PKG_VERSION fs settings) in
  match wakeup (protocol c) with
  | WakeupDefault => request [] ∅
  | EventQueuePolling interval =>
      match from_interval interval with
      | Ok s => request [FEATURE_EVENT_QUEUE_POLLING] {[FEATURE_EVENT_QUEUE_POLLING := settings_to_value s]}
      | Err e => Err e
      end
  | WakeupEventFd => if negb eventfd_supported then Err OtherError else request [FEATURE_EVENTFD_WAKEUP] ∅
  end.

(** [NegotiationResponse::ok] and [NegotiationResponse::error]. *)
Definition response_ok (version : Z) (f : NegotiatedFeature) : result HsError (NegotiationResponse Value) :=
  let response fs settings := Ok (mkResponse version SDK_NAME CARGO_PKG_VERSION fs settings None) in
  match f with
  | NoFeature => response [] ∅
  | FeaturePolling interval =>
      match from_interval interval with
      | Ok s => response [FEATURE_EVENT_QUEUE_POLLING] {[FEATURE_EVENT_QUEUE_POLLING := settings_to_value s]}
      | Err e => Err e
      end
  | FeatureEventFd => response [FEATURE_EVENTFD_WAKEUP] ∅
  end.

Definition response_error (code message : string) : NegotiationResponse Value :=
  mkResponse 0 SDK_NAME CARGO_PKG_VERSION [] ∅ (Some (mkNegError code message)).

Definition version_not_supported : NegotiationResponse Value :=
  response_error ERROR_VERSION_NOT_SUPPORTED "protocol version is not supported".

Definition json_parse_error (message : string) : NegotiationResponse Value := response_error ERROR_JSON_PARSE message.

Definition has_feature (name : string) (fs : list string) : bool := existsb (String.eqb name) fs.

(** [selected_feature_for_request]. *)
Definition selected_feature (resp : NegotiationResponse Value) (req : NegotiationRequest Value)
    : result HsError NegotiatedFeature :=
  if has_feature FEATURE_EVENT_QUEUE_POLLING (selected_features resp) then
    let setting :=
      match rs_settings resp !! FEATURE_EVENT_QUEUE_POLLING with
      | Some v => Some v
      | None => rq_settings req !! FEATURE_EVENT_QUEUE_POLLING
      end in
    match setting with
    | None => Err OtherError
    | Some v =>
        match settings_from_value v with
        | None => Err OtherError
        | Some s =>
            match settings_interval s with
            | Ok i => Ok (FeaturePolling i)
            | Err e => Err e
            end
        end
    end
  else if has_feature FEATURE_EVENTFD_WAKEUP (selected_features resp) then Ok FeatureEventFd
  else Ok NoFeature.

Definition select_protocol (req : NegotiationRequest Value) : option Z :=
  if existsb (Z.eqb PROTO_VERSION_V5) (supports_protocols req) then Some PROTO_VERSION_V5
  else if existsb (Z.eqb PROTO_VERSION_V4) (supports_protocols req) then Some PROTO_VERSION_V4
  else None.

(** The polling settings a request carries, if they are usable. *)
Definition polling_setting (req : NegotiationRequest Value) : option Z :=
  v ← rq_settings req !! FEATURE_EVENT_QUEUE_POLLING;
  s ← settings_from_value v;
  match settings_interval s with Ok i => Some i | Err _ => None end.

Definition select_feature (req : NegotiationRequest Value) : NegotiatedFeature :=
  match (if has_feature FEATURE_EVENT_QUEUE_POLLING (supports_features req) then polling_setting req else None) with
  | Some i => FeaturePolling i
  | None =>
      if has_feature FEATURE_EVENTFD_WAKEUP (supports_features req) && eventfd_supported then FeatureEventFd
      else NoFeature
  end.

(** ** Facts *)

Lemma from_interval_ok (i : Z) (s : EventQueuePollingSettings) :
  from_interval i = Ok s -> polling_interval_us s = as_micros i /\ as_micros i < W64 /\ as_micros i <> 0.
Proof.
  unfold from_interval. destruct (Z.geb_spec (as_micros i) W64); [done|]. destruct (Z.eqb_spec (as_micros i) 0); [done|].
  intros [= <-]. done.
Qed.

Lemma micros_roundtrip (us : Z) : as_micros (from_micros us) = us.
Proof. unfold as_micros, from_micros. by rewrite Z.div_mul. Qed.

(** The answer a server writes is read back as the feature it settled on. *)
Lemma selected_of_ok `{!SerdeLaws Value} (version : Z) (f : NegotiatedFeature) (resp : NegotiationResponse Value)
    (req : NegotiationRequest Value) :
  response_ok version f = Ok resp -> (forall i, f = FeaturePolling i -> exists us, i = from_micros us) ->
  selected_feature resp req = Ok f /\ selected_protocol resp = version /\ rs_error resp = None.
Proof.
  intros Hr Hf. unfold response_ok in Hr. destruct f as [|i|].
  - injection Hr as <-. done.
  - destruct (from_interval i) as [s|] eqn:Ei; [|done]. injection Hr as <-. split; [|done].
    apply from_interval_ok in Ei as (Eu & Hw & Hz). unfold selected_feature. cbn [selected_features rs_settings].
    change (has_feature FEATURE_EVENT_QUEUE_POLLING [FEATURE_EVENT_QUEUE_POLLING]) with true.
    rewrite lookup_singleton_eq, settings_roundtrip. unfold settings_interval. rewrite Eu.
    replace (as_micros i =? 0) with false by (symmetry; by apply Z.eqb_neq).
    destruct (Hf i eq_refl) as [us ->]. by rewrite micros_roundtrip.
  - injection Hr as <-. done.
Qed.

(** What a server picks from the request of a configuration. *)
Definition expected_feature (c : Config) : NegotiatedFeature :=
  match wakeup (protocol c) with
  | WakeupDefault => NoFeature
  | EventQueuePolling i => FeaturePolling (from_micros (as_micros i))
  | WakeupEventFd => FeatureEventFd
  end.

Definition expected_protocol (c : Config) : Z := if is_v5 (mode (protocol c)) then PROTO_VERSION_V5 else PROTO_VERSION_V4.

Lemma select_of_config `{!SerdeLaws Value} (c : Config) (req : NegotiationRequest Value) :
  from_config c = Ok req -> mode (protocol c) <> Legacy ->
  select_protocol req = Some (expected_protocol c) /\ select_feature req = expected_feature c /\
  existsb (Z.eqb (expected_protocol c)) (supports_protocols req) = true /\
  exists resp, response_ok (expected_protocol c) (expected_feature c) = Ok resp.
Proof.
  intros Hc Hm. unfold from_config in Hc. unfold expected_protocol, expected_feature, select_protocol, select_feature, polling_setting.
  destruct (wakeup (protocol c)) as [|i|].
  - injection Hc as <-. destruct (mode (protocol c)); [done|..]; (split; [done|]); (split; [done|]); (split; [done|]); by eexists.
  - destruct (from_interval i) as [s|] eqn:Ei; [|done]. apply from_interval_ok in Ei as (Eu & Hw & Hz). injection Hc as <-.
    cbn [supports_protocols supports_features rq_settings].
    change (has_feature FEATURE_EVENT_QUEUE_POLLING [FEATURE_EVENT_QUEUE_POLLING]) with true.
    rewrite lookup_singleton_eq. cbn [mbind option_bind]. rewrite settings_roundtrip. cbn [mbind option_bind]. unfold settings_interval. rewrite Eu.
    replace (as_micros i =? 0) with false by (symmetry; by apply Z.eqb_neq). cbn [mbind option_bind].
    assert (Ho : exists resp, response_ok (if is_v5 (mode (protocol c)) then PROTO_VERSION_V5 else PROTO_VERSION_V4)
                   (FeaturePolling (from_micros (as_micros i))) = Ok resp).
    { unfold response_ok, from_interval. rewrite micros_roundtrip. destruct (Z.geb_spec (as_micros i) W64); [lia|].
      replace (as_micros i =? 0) with false by (symmetry; by apply Z.eqb_neq). by eexists. }
    destruct (mode (protocol c)); [done|..]; by repeat split.
  - destruct eventfd_supported eqn:Es; [|done]. injection Hc as <-.
    destruct (mode (protocol c)); [done|..]; (split; [done|]); (split; [done|]); (split; [done|]); by eexists.
Qed.

Lemma expected_polling (c : Config) (i : Z) : expected_feature c = FeaturePolling i -> exists us, i = from_micros us.
Proof. unfold expected_feature. destruct (wakeup (protocol c)); try done. intros [= <-]. by eexists. Qed.

End negotiation.
