(* ===== verification/LegacyQueue.v ===== *)
(** * The queue of protocol versions 2 to 4 ([src/src/queue.rs])

    A ring of twelve-byte elements behind a header of capacity, positions and the
    consumer's flag, in one of two layouts.  [put] runs under the producer's lock,
    [pop] in the one consuming task.  Both are also given as the sequence of their
    shared accesses, for a producer and a consumer in different processes.  A
    position is read and written in one access; the older layout, whose positions
    are not aligned, relies on the hardware for that. *)

From Stdlib Require Import ZArith Lia.
From stdpp Require Import base numbers list gmap relations.
From S2P Require Import Prelude.

#[local] Open Scope Z_scope.

Definition QUEUE_HEADER_LENGTH : Z := 24.

Definition QUEUE_ELEMENT_LEN : Z := 12.

Definition QUEUE_COUNT : Z := 2.

Inductive QueueLayout : Type :=
| LayoutLegacy
| LayoutAligned.

#[export] Instance QueueLayout_eq_dec : EqDecision QueueLayout.
Proof. solve_decision. Defined.

(** [strict]: the target is aarch64 or riscv64. *)
Definition for_protocol_version (strict : bool) (version : Z) : QueueLayout :=
  if (version >=? 4) || strict then LayoutAligned else LayoutLegacy.

Definition working_flag_offset (l : QueueLayout) : Z := match l with LayoutLegacy => 20 | LayoutAligned => 4 end.

Definition head_offset (l : QueueLayout) : Z := match l with LayoutLegacy => 4 | LayoutAligned => 8 end.

Definition tail_offset (l : QueueLayout) : Z := match l with LayoutLegacy => 12 | LayoutAligned => 16 end.

Record QueueElement : Type := mkQE {
  seq_id : Z;
  offset_in_shm_buf : Z;
  status : Z;
}.

#[export] Instance QueueElement_eq_dec : EqDecision QueueElement.
Proof. solve_decision. Defined.

Record Queue : Type := mkQueue {
  qu_data : Z;
  qu_cap : Z;
  qu_layout : QueueLayout;
}.

Inductive QueueError : Type :=
| QueueFull
| QueueEmpty.

Section queue.
Context (q : Queue).

Definition load_head (m : mem) : Z := load_i64 m (qu_data q + head_offset (qu_layout q)).

Definition load_tail (m : mem) : Z := load_i64 m (qu_data q + tail_offset (qu_layout q)).

Definition store_head (m : mem) (v : Z) : mem := store64 m (qu_data q + head_offset (qu_layout q)) v.

Definition store_tail (m : mem) (v : Z) : mem := store64 m (qu_data q + tail_offset (qu_layout q)) v.

Definition flag_at : Z := qu_data q + working_flag_offset (qu_layout q).

(** Where the element of a position starts. *)
Definition slot_at (pos : Z) : Z := qu_data q + QUEUE_HEADER_LENGTH + Z.rem pos (qu_cap q) * QUEUE_ELEMENT_LEN.

(** [None] is the division by a capacity of zero. *)
Definition put (m : mem) (e : QueueElement) : option (result QueueError unit * mem) :=
  let tail := load_tail m in
  if tail - load_head m >=? qu_cap q then Some (Err QueueFull, m)
  else if qu_cap q =? 0 then None
  else
    let m := store32 m (slot_at tail) (seq_id e) in
    let m := store32 m (slot_at tail + 4) (offset_in_shm_buf e) in
    let m := store32 m (slot_at tail + 8) (status e) in
    Some (Ok tt, store_tail m (tail + 1)).

Definition pop (m : mem) : option (result QueueError QueueElement * mem) :=
  let head := load_head m in
  if head >=? load_tail m then Some (Err QueueEmpty, m)
  else if qu_cap q =? 0 then None
  else
    let e := mkQE (load32 m (slot_at head)) (load32 m (slot_at head + 4)) (load32 m (slot_at head + 8)) in
    Some (Ok e, store_head m (head + 1)).

Definition size (m : mem) : Z := load_tail m - load_head m.

Definition is_full (m : mem) : bool := size m =? qu_cap q.

Definition is_empty (m : mem) : bool := size m =? 0.

Definition consumer_is_working (m : mem) : bool := load32 m flag_at >? 0.

Definition mark_working (m : mem) : bool * mem :=
  if load32 m flag_at =? 0 then (true, store32 m flag_at 1) else (false, m).

Definition mark_not_working (m : mem) : bool * mem :=
  let m := store32 m flag_at 0 in
  if size m =? 0 then (true, m) else (false, store32 m flag_at 1).

End queue.

Definition mapping_from_bytes (m : mem) (data : Z) (layout : QueueLayout) : Queue := mkQueue data (load32 m data) layout.

Definition create_from_bytes (m : mem) (data cap : Z) (layout : QueueLayout) : Queue * mem :=
  let m := store32 m data cap in
  let q := mapping_from_bytes m data layout in
  let m := store_head q m 0 in
  let m := store_tail q m 0 in
  (q, store32 m (flag_at q) 0).

Definition count_queue_mem_size (cap : Z) : Z := QUEUE_HEADER_LENGTH + QUEUE_ELEMENT_LEN * cap.

(** ** The pair of queues *)

Record QueueManager : Type := mkQM {
  send_queue : Queue;
  recv_queue : Queue;
}.

(** What [create_with_memfd] and [create_with_file] do with the mapping of a fresh file. *)
Definition qm_create (m : mem) (base cap : Z) (layout : QueueLayout) : QueueManager * mem :=
  let mem_size := count_queue_mem_size cap * QUEUE_COUNT in
  let m := write_bytes m base (repeat 0 (Z.to_nat mem_size)) in
  let '(s, m) := create_from_bytes m base cap layout in
  let '(r, m) := create_from_bytes m (base + mem_size / 2) cap layout in
  (mkQM s r, m).

Inductive QueueMapError : Type :=
| QueueExists
| NoSpaceLeft
| InvalidSize
| NotMultipleOf16.

(** [existing]: the path names a file already; [room]: what [can_create_on_dev_shm]
    answers for a size. *)
Definition create_with_file (strict existing : bool) (room : Z -> bool) (m : mem) (base cap proto_version : Z) :
    result QueueMapError (QueueManager * mem) :=
  let layout := for_protocol_version strict proto_version in
  if existing then Err QueueExists
  else if negb (room (count_queue_mem_size cap * QUEUE_COUNT)) then Err NoSpaceLeft
  else Ok (qm_create m base cap layout).

(** [mapping_with_memfd]; [mapping_with_file] differs in a size that is never
    negative.  The roles are swapped. *)
Definition qm_mapping (m : mem) (base mapping_size : Z) (layout : QueueLayout) : result QueueMapError QueueManager :=
  if mapping_size <? 0 then Err InvalidSize
  else if bool_decide (layout = LayoutAligned) && negb (is_multiple_of mapping_size 16) then Err NotMultipleOf16
  else Ok (mkQM (mapping_from_bytes m (base + mapping_size / 2) layout) (mapping_from_bytes m base layout)).

(** ** The shared accesses of [put] and [pop], one by one *)

Inductive putpc : Type :=
| PIdle
| PTail (e : QueueElement)
| PHead (e : QueueElement) (tail : Z)
| PSeq (e : QueueElement) (tail : Z)
| POff (e : QueueElement) (tail : Z)
| PStatus (e : QueueElement) (tail : Z)
| PStore (e : QueueElement) (tail : Z).

Inductive poppc : Type :=
| CIdle
| CHead
| CTail (head : Z)
| CSeq (head : Z)
| COff (head s : Z)
| CStatus (head s o : Z)
| CStore (head : Z) (e : QueueElement).

(** [l_sent] and [l_got]: what [put] has accepted and [pop] has returned. *)
Record lstate : Type := mkL {
  l_mem : mem;
  l_put : putpc;
  l_pop : poppc;
  l_sent : list QueueElement;
  l_got : list QueueElement;
}.

Definition put_step (q : Queue) (s : lstate) : option lstate :=
  let m := l_mem s in
  let go m pc := Some (mkL m pc (l_pop s) (l_sent s) (l_got s)) in
  match l_put s with
  | PIdle => None
  | PTail e => go m (PHead e (load_tail q m))
  | PHead e tail => if tail - load_head q m >=? qu_cap q then go m PIdle else go m (PSeq e tail)
  | PSeq e tail => go (store32 m (slot_at q tail) (seq_id e)) (POff e tail)
  | POff e tail => go (store32 m (slot_at q tail + 4) (offset_in_shm_buf e)) (PStatus e tail)
  | PStatus e tail => go (store32 m (slot_at q tail + 8) (status e)) (PStore e tail)
  | PStore e tail => Some (mkL (store_tail q m (tail + 1)) PIdle (l_pop s) (l_sent s ++ [e]) (l_got s))
  end.

Definition pop_step (q : Queue) (s : lstate) : option lstate :=
  let m := l_mem s in
  let go pc := Some (mkL m (l_put s) pc (l_sent s) (l_got s)) in
  match l_pop s with
  | CIdle => None
  | CHead => go (CTail (load_head q m))
  | CTail head => if head >=? load_tail q m then go CIdle else go (CSeq head)
  | CSeq head => go (COff head (load32 m (slot_at q head)))
  | COff head sq => go (CStatus head sq (load32 m (slot_at q head + 4)))
  | CStatus head sq o => go (CStore head (mkQE sq o (load32 m (slot_at q head + 8))))
  | CStore head e => Some (mkL (store_head q m (head + 1)) (l_put s) CIdle (l_sent s) (l_got s ++ [e]))
  end.

Definition element_fits (e : QueueElement) : Prop := 0 <= seq_id e < W32 /\ 0 <= offset_in_shm_buf e < W32 /\ 0 <= status e < W32.

Inductive lstep (q : Queue) : lstate -> lstate -> Prop :=
| l_call_put e s : l_put s = PIdle -> element_fits e -> lstep q s (mkL (l_mem s) (PTail e) (l_pop s) (l_sent s) (l_got s))
| l_call_pop s : l_pop s = CIdle -> lstep q s (mkL (l_mem s) (l_put s) CHead (l_sent s) (l_got s))
| l_do_put s s' : put_step q s = Some s' -> lstep q s s'
| l_do_pop s s' : pop_step q s = Some s' -> lstep q s s'.

Definition linit (m : mem) : lstate := mkL m PIdle CIdle [] [].
