(* ===== verification/LegacyQueueTheorems.v ===== *)
(** * What the older queue guarantees: its invariant under interleaving, and the theorems *)

From Stdlib Require Import ZArith Lia.
From stdpp Require Import base numbers list gmap relations.
From S2P Require Import Prelude LegacyQueue.

#[local] Open Scope Z_scope.

(** ** The invariant under interleaving *)

Section facts.
Context (q : Queue) (Hcap : 0 < qu_cap q).

(** ** Geometry *)

Lemma slot_mod (pos : Z) : 0 <= pos -> slot_at q pos = qu_data q + 24 + pos mod qu_cap q * 12.
Proof. intros Hp. unfold slot_at. by rewrite Z.rem_mod_nonneg by lia. Qed.

Lemma slot_range (pos : Z) : 0 <= pos -> qu_data q + 24 <= slot_at q pos.
Proof. intros Hp. rewrite slot_mod by done. pose proof (Z.mod_pos_bound pos (qu_cap q) Hcap). lia. Qed.

(** Positions less than a lap apart do not share a byte. *)
Lemma slots_apart (a b : Z) :
  0 <= a < b -> b - a < qu_cap q -> slot_at q a + 12 <= slot_at q b \/ slot_at q b + 12 <= slot_at q a.
Proof.
  intros Hab Hgap. rewrite !slot_mod by lia. assert (Hne : a mod qu_cap q <> b mod qu_cap q).
  2:{ revert Hne. generalize (a mod qu_cap q), (b mod qu_cap q). clear. lia. }
  intros E.
  pose proof (Z.div_mod a (qu_cap q) ltac:(lia)) as Ha. pose proof (Z.div_mod b (qu_cap q) ltac:(lia)) as Hb.
  rewrite E in Ha. clear E. revert Ha Hb. generalize (b mod qu_cap q), (a / qu_cap q), (b / qu_cap q). intros r x y Ha Hb.
  assert (b - a = qu_cap q * (y - x)) by (rewrite Ha, Hb; ring). clear Ha Hb. set (d := y - x) in *. destruct (Z_le_gt_dec d 0); nia.
Qed.

Definition slot_elem (m : mem) (pos : Z) : QueueElement :=
  mkQE (load32 m (slot_at q pos)) (load32 m (slot_at q pos + 4)) (load32 m (slot_at q pos + 8)).

Lemma slot_elem_frame (lo hi : Z) (m m' : mem) (pos : Z) :
  mem_frame lo hi m m' -> slot_at q pos + 12 <= lo \/ hi <= slot_at q pos -> slot_elem m' pos = slot_elem m pos.
Proof. intros Hf Ho. unfold slot_elem, load32. by rewrite !(load_frame 4 lo hi m m') by (try done; lia). Qed.

Lemma positions_frame (lo hi : Z) (m m' : mem) :
  mem_frame lo hi m m' -> qu_data q + 24 <= lo -> load_head q m' = load_head q m /\ load_tail q m' = load_tail q m.
Proof.
  intros Hf Hlo. unfold load_head, load_tail, load_i64. destruct (qu_layout q); cbn;
    by rewrite !(load_frame 8 lo hi m m') by (try done; lia).
Qed.

Lemma store_head_spec (m : mem) (v : Z) :
  0 <= v <= I64_MAX ->
  load_head q (store_head q m v) = v /\ load_tail q (store_head q m v) = load_tail q m /\
  mem_frame (qu_data q) (qu_data q + 24) m (store_head q m v).
Proof.
  intros Hv. unfold load_head, load_tail, store_head. split; [apply load_i64_store64_same; lia|]. split.
  - unfold load_i64, store64. rewrite load_store_other; [done|]. destruct (qu_layout q); cbn; lia.
  - unfold store64. apply mem_frame_store; destruct (qu_layout q); cbn; lia.
Qed.

Lemma store_tail_spec (m : mem) (v : Z) :
  0 <= v <= I64_MAX ->
  load_tail q (store_tail q m v) = v /\ load_head q (store_tail q m v) = load_head q m /\
  mem_frame (qu_data q) (qu_data q + 24) m (store_tail q m v).
Proof.
  intros Hv. unfold load_head, load_tail, store_tail. split; [apply load_i64_store64_same; lia|]. split.
  - unfold load_i64, store64. rewrite load_store_other; [done|]. destruct (qu_layout q); cbn; lia.
  - unfold store64. apply mem_frame_store; destruct (qu_layout q); cbn; lia.
Qed.

(** ** The invariant *)

(** What the producer has written of the element at the tail. *)
Definition written (m : mem) (n : nat) (e : QueueElement) (tail : Z) : Prop :=
  (1 <= n -> load32 m (slot_at q tail) = seq_id e)%nat /\
  (2 <= n -> load32 m (slot_at q tail + 4) = offset_in_shm_buf e)%nat /\
  (3 <= n -> load32 m (slot_at q tail + 8) = status e)%nat.

(** Room was seen, and [n] words are in place. *)
Definition filling (s : lstate) (n : nat) (e : QueueElement) (tail : Z) : Prop :=
  element_fits e /\ tail = Z.of_nat (length (l_sent s)) /\
  tail - Z.of_nat (length (l_got s)) < qu_cap q /\ written (l_mem s) n e tail.

Definition put_ok (s : lstate) : Prop :=
  match l_put s with
  | PIdle => True
  | PTail e => element_fits e
  | PHead e tail => element_fits e /\ tail = Z.of_nat (length (l_sent s))
  | PSeq e tail => filling s 0 e tail
  | POff e tail => filling s 1 e tail
  | PStatus e tail => filling s 2 e tail
  | PStore e tail => filling s 3 e tail
  end.

Definition next_is (s : lstate) (head : Z) (P : QueueElement -> Prop) : Prop :=
  head = Z.of_nat (length (l_got s)) /\ exists e, l_sent s !! length (l_got s) = Some e /\ P e.

Definition pop_ok (s : lstate) : Prop :=
  match l_pop s with
  | CIdle | CHead => True
  | CTail head => head = Z.of_nat (length (l_got s))
  | CSeq head => next_is s head (fun _ => True)
  | COff head sq => next_is s head (fun e => sq = seq_id e)
  | CStatus head sq o => next_is s head (fun e => sq = seq_id e /\ o = offset_in_shm_buf e)
  | CStore head e => next_is s head (fun e' => e = e')
  end.

Record linv (s : lstate) : Prop := {
  li_head : load_head q (l_mem s) = Z.of_nat (length (l_got s));
  li_tail : load_tail q (l_mem s) = Z.of_nat (length (l_sent s));
  li_gap : Z.of_nat (length (l_sent s)) - Z.of_nat (length (l_got s)) <= qu_cap q;
  li_got : l_got s `prefix_of` l_sent s;
  li_slots : forall k e, (length (l_got s) <= k)%nat -> l_sent s !! k = Some e -> slot_elem (l_mem s) (Z.of_nat k) = e;
  li_put : put_ok s;
  li_pop : pop_ok s;
}.

(** A write into the free slot at the tail. *)
Lemma fill_step (s : lstate) (n : nat) (e : QueueElement) (tail v : Z) :
  linv s -> filling s n e tail -> (n < 3)%nat ->
  v = match n with 0%nat => seq_id e | 1%nat => offset_in_shm_buf e | _ => status e end ->
  let m' := store32 (l_mem s) (slot_at q tail + 4 * Z.of_nat n) v in
  load_head q m' = Z.of_nat (length (l_got s)) /\ load_tail q m' = Z.of_nat (length (l_sent s)) /\
  (forall k x, (length (l_got s) <= k)%nat -> l_sent s !! k = Some x -> slot_elem m' (Z.of_nat k) = x) /\
  written m' (S n) e tail.
Proof.
  intros I (Hfit & -> & Hroom & Hw) Hn Hv m'. set (t := Z.of_nat (length (l_sent s))) in *.
  pose proof (slot_range t ltac:(lia)) as Hr.
  assert (Hf : mem_frame (slot_at q t + 4 * Z.of_nat n) (slot_at q t + 4 * Z.of_nat n + 4) (l_mem s) m').
  { apply (mem_frame_store 4); lia. }
  destruct (positions_frame _ _ _ _ Hf ltac:(lia)) as [-> ->]. rewrite (li_head _ I), (li_tail _ I).
  split; [done|]. split; [done|]. split.
  - intros k x Hk Hx. pose proof (lookup_lt_Some _ _ _ Hx) as Hlt. rewrite <- (li_slots _ I k x Hk Hx). apply (slot_elem_frame _ _ _ _ _ Hf).
    destruct (slots_apart (Z.of_nat k) t ltac:(lia) ltac:(lia)); lia.
  - assert (Hsame : load32 m' (slot_at q t + 4 * Z.of_nat n) = v).
    { unfold m'. rewrite load32_store32_same. apply wrap32_small. subst v. destruct Hfit as (? & ? & ?). by destruct n as [|[|]]. }
    assert (Hother : forall a, a + 4 <= slot_at q t + 4 * Z.of_nat n -> load32 m' a = load32 (l_mem s) a).
    { intros a Ha. apply (load_frame 4 _ _ _ _ _ Hf). lia. }
    destruct Hw as (W1 & W2 & W3).
    destruct n as [|[|[|n]]]; [..|lia]; cbn in Hsame, Hother; subst v; rewrite ?Z.add_0_r in *;
      (split; [|split]); intros Hle; try lia; try done; rewrite Hother by lia; auto with lia.
Qed.

Lemma next_app (s s' : lstate) (head : Z) (P : QueueElement -> Prop) :
  l_got s' = l_got s -> l_sent s `prefix_of` l_sent s' -> next_is s head P -> next_is s' head P.
Proof.
  intros Eg [l El] (Hh & e & He & Hp). unfold next_is. rewrite Eg, El. split; [done|]. exists e. split; [|done].
  by apply lookup_app_l_Some.
Qed.

Lemma pop_ok_app (s s' : lstate) :
  l_got s' = l_got s -> l_pop s' = l_pop s -> l_sent s `prefix_of` l_sent s' -> pop_ok s -> pop_ok s'.
Proof.
  intros Eg Ep Hs. unfold pop_ok. rewrite Ep. destruct (l_pop s); try done; try (by apply next_app). intros ->. by rewrite Eg.
Qed.

(** The producer is on its way through a slot: memory changes only there. *)
Lemma fill_inv (s : lstate) (n : nat) (e : QueueElement) (tail v : Z) (pc : putpc) :
  linv s -> filling s n e tail -> (n < 3)%nat ->
  v = match n with 0%nat => seq_id e | 1%nat => offset_in_shm_buf e | _ => status e end ->
  pc = match n with 0%nat => POff e tail | 1%nat => PStatus e tail | _ => PStore e tail end ->
  linv (mkL (store32 (l_mem s) (slot_at q tail + 4 * Z.of_nat n) v) pc (l_pop s) (l_sent s) (l_got s)).
Proof.
  intros I Hf Hn Hv Hpc. destruct (fill_step s n e tail v I Hf Hn Hv) as (H1 & H2 & H3 & H4). destruct Hf as (F1 & F2 & F3 & _).
  split; cbn [l_mem l_put l_pop l_sent l_got]; try done.
  - apply (li_gap _ I).
  - apply (li_got _ I).
  - subst pc. unfold put_ok, filling. destruct n as [|[|[|n]]]; cbn [l_put l_mem l_sent l_got]; try done; lia.
  - apply (li_pop _ I).
Qed.

Lemma publish_inv (s : lstate) (e : QueueElement) (tail : Z) :
  linv s -> filling s 3 e tail -> Z.of_nat (length (l_sent s)) < I64_MAX ->
  linv (mkL (store_tail q (l_mem s) (tail + 1)) PIdle (l_pop s) (l_sent s ++ [e]) (l_got s)).
Proof.
  intros I (Hfit & -> & Hroom & W1 & W2 & W3) Hmax. destruct (store_tail_spec (l_mem s) (Z.of_nat (length (l_sent s)) + 1)) as (H1 & H2 & H3); [lia|].
  pose proof (prefix_length _ _ (li_got _ I)) as Hlen.
  split; cbn [l_mem l_put l_pop l_sent l_got]; [by rewrite H2; apply (li_head _ I)|rewrite H1, length_app; cbn; lia|rewrite length_app; cbn; lia|..].
  - by apply prefix_app_r, (li_got _ I).
  - intros k x Hk Hx. rewrite (slot_elem_frame _ _ _ _ _ H3) by (pose proof (slot_range (Z.of_nat k)); lia).
    apply lookup_app_Some in Hx as [Hx|[Hge Hx]]; [by apply (li_slots _ I)|].
    apply list_lookup_singleton_Some in Hx as [Hk0 <-]. replace k with (length (l_sent s)) by lia. unfold slot_elem.
    rewrite W1, W2, W3 by lia. by destruct e.
  - done.
  - apply (pop_ok_app s); [done|done|by apply prefix_app_r|apply (li_pop _ I)].
Qed.

Lemma put_step_inv (s s' : lstate) :
  linv s -> put_step q s = Some s' -> Z.of_nat (length (l_sent s')) <= I64_MAX -> linv s'.
Proof.
  intros I Hs Hmax. pose proof (li_put _ I) as Hp. unfold put_ok in Hp. unfold put_step in Hs.
  destruct (l_put s) as [|e|e tail|e tail|e tail|e tail|e tail] eqn:Epc; [done|..].
  - injection Hs as <-. destruct I as [I1 I2 I3 I4 I5 I6 I7]. by split.
  - destruct Hp as [Hf ->]. rewrite (li_head _ I) in Hs. destruct (Z.geb_spec (Z.of_nat (length (l_sent s)) - Z.of_nat (length (l_got s))) (qu_cap q));
      injection Hs as <-; destruct I as [I1 I2 I3 I4 I5 I6 I7]; (split; try done).
    split; [done|]. split; [done|]. split; [cbn; lia|]. split; [|split]; lia.
  - injection Hs as <-. pose proof (fill_inv s 0 e tail (seq_id e) (POff e tail) I Hp ltac:(lia) eq_refl eq_refl) as H.
    cbn [Z.of_nat Z.mul] in H. by rewrite Z.add_0_r in H.
  - injection Hs as <-. by apply (fill_inv s 1 e tail (offset_in_shm_buf e) (PStatus e tail) I Hp ltac:(lia)).
  - injection Hs as <-. by apply (fill_inv s 2 e tail (status e) (PStore e tail) I Hp ltac:(lia)).
  - injection Hs as <-. cbn in Hmax. rewrite length_app in Hmax. cbn in Hmax. apply publish_inv; [done|done|lia].
Qed.

(** The consumer takes the oldest element. *)
Lemma advance_inv (s : lstate) (head : Z) (e : QueueElement) :
  linv s -> next_is s head (fun e' => e = e') -> Z.of_nat (length (l_sent s)) <= I64_MAX ->
  linv (mkL (store_head q (l_mem s) (head + 1)) (l_put s) CIdle (l_sent s) (l_got s ++ [e])).
Proof.
  intros I (-> & e' & He & ->) Hmax. pose proof (lookup_lt_Some _ _ _ He) as Hlt.
  destruct (store_head_spec (l_mem s) (Z.of_nat (length (l_got s)) + 1)) as (H1 & H2 & H3); [lia|].
  pose proof (li_gap _ I) as Hgap.
  split; cbn [l_mem l_put l_pop l_sent l_got]; [rewrite H1, length_app; cbn; lia|by rewrite H2; apply (li_tail _ I)|rewrite length_app; cbn; lia|..].
  - destruct (li_got _ I) as [l El]. rewrite El in He |- *. rewrite lookup_app_r, Nat.sub_diag in He by lia.
    destruct l as [|x l]; [done|]. injection He as ->. exists l. by rewrite <- app_assoc.
  - intros k x Hk Hx. rewrite length_app in Hk. cbn in Hk.
    rewrite (slot_elem_frame _ _ _ _ _ H3) by (pose proof (slot_range (Z.of_nat k)); lia). apply (li_slots _ I); [lia|done].
  - pose proof (li_put _ I) as Hp. unfold put_ok in *. cbn [l_put l_sent].
    assert (Hfill : forall n x tail, filling s n x tail ->
      filling (mkL (store_head q (l_mem s) (Z.of_nat (length (l_got s)) + 1)) (l_put s) CIdle (l_sent s) (l_got s ++ [e'])) n x tail).
    { intros n x tail (F1 & -> & F3 & F4). split; [done|]. cbn [l_sent l_got l_mem]. split; [done|]. split; [rewrite length_app; cbn; lia|].
      pose proof (slot_range (Z.of_nat (length (l_sent s))) ltac:(lia)). destruct F4 as (W1 & W2 & W3). unfold written, load32 in *.
      rewrite !(load_frame 4 _ _ _ _ _ H3) by lia. done. }
    destruct (l_put s); try done; by apply Hfill.
  - done.
Qed.

Lemma pop_step_inv (s s' : lstate) :
  linv s -> pop_step q s = Some s' -> Z.of_nat (length (l_sent s')) <= I64_MAX -> linv s'.
Proof.
  intros I Hs Hmax. pose proof (li_pop _ I) as Hp. unfold pop_ok in Hp. unfold pop_step in Hs.
  assert (Hslot : forall head P, next_is s head P -> exists e, l_sent s !! length (l_got s) = Some e /\ P e /\ slot_elem (l_mem s) head = e).
  { intros head P (-> & e & He & HP). exists e. split; [done|]. split; [done|]. by apply (li_slots _ I). }
  destruct (l_pop s) as [| |head|head|head sq|head sq o|head e] eqn:Epc; [done|..].
  - injection Hs as <-. destruct I as [I1 I2 I3 I4 I5 I6 I7]. by split.
  - rewrite (li_tail _ I) in Hs. destruct (Z.geb_spec head (Z.of_nat (length (l_sent s))));
      injection Hs as <-; destruct I as [I1 I2 I3 I4 I5 I6 I7]; (split; try done).
    split; [done|]. cbn [l_sent l_got]. destruct (lookup_lt_is_Some_2 (l_sent s) (length (l_got s))) as [e He]; [lia|]. by exists e.
  - injection Hs as <-. destruct (Hslot _ _ Hp) as (e & He & _ & Es). destruct Hp as [-> _]. destruct I as [I1 I2 I3 I4 I5 I6 I7].
    split; try done. split; [done|]. exists e. split; [done|]. by rewrite <- Es.
  - injection Hs as <-. destruct (Hslot _ _ Hp) as (e & He & Esq & Es). destruct Hp as [-> _]. destruct I as [I1 I2 I3 I4 I5 I6 I7].
    split; try done. split; [done|]. exists e. split; [done|]. split; [done|]. by rewrite <- Es.
  - injection Hs as <-. destruct (Hslot _ _ Hp) as (e & He & (Esq & Eo) & Es). destruct Hp as [-> _]. destruct I as [I1 I2 I3 I4 I5 I6 I7].
    split; try done. split; [done|]. exists e. split; [done|]. rewrite Esq, Eo, <- Es. done.
  - injection Hs as <-. by apply advance_inv.
Qed.

Lemma lstep_inv (s s' : lstate) : linv s -> lstep q s s' -> Z.of_nat (length (l_sent s')) <= I64_MAX -> linv s'.
Proof.
  intros I Hs Hmax. destruct Hs as [e s Hi Hf|s Hi|s s' Hs|s s' Hs]; [..|by apply (put_step_inv s)|by apply (pop_step_inv s)];
    destruct I as [I1 I2 I3 I4 I5 I6 I7]; by split.
Qed.

Lemma lstep_sent (s s' : lstate) : lstep q s s' -> (length (l_sent s) <= length (l_sent s'))%nat.
Proof.
  intros [e s0 _ _|s0 _|s0 s1 Hs|s0 s1 Hs]; [done|done|..].
  - unfold put_step in Hs. destruct (l_put s0); [done|..]; repeat case_match; simplify_eq; cbn; rewrite ?length_app; lia.
  - unfold pop_step in Hs. destruct (l_pop s0); [done|..]; repeat case_match; simplify_eq; cbn; lia.
Qed.

End facts.

(** ** The steps are the code *)

Fixpoint run_steps (f : lstate -> option lstate) (n : nat) (s : lstate) : option lstate :=
  match n with
  | O => Some s
  | S n => s' ← f s; run_steps f n s'
  end.

(** [put] and [pop] are their shared accesses in a row. *)
Lemma put_is_steps (q : Queue) (s : lstate) (e : QueueElement) (res : result QueueError unit) (m' : mem) :
  l_put s = PTail e -> put q (l_mem s) e = Some (res, m') ->
  exists n, run_steps (put_step q) n s =
    Some (mkL m' PIdle (l_pop s) (match res with Ok _ => l_sent s ++ [e] | Err _ => l_sent s end) (l_got s)).
Proof.
  intros Hpc. assert (E1 : put_step q s = Some (mkL (l_mem s) (PHead e (load_tail q (l_mem s))) (l_pop s) (l_sent s) (l_got s))).
  { unfold put_step. by rewrite Hpc. }
  unfold put. destruct (_ >=? qu_cap q) eqn:E.
  - intros [= <- <-]. exists 2%nat. cbn [run_steps]. rewrite E1. cbn [mbind option_bind put_step l_put l_mem]. by rewrite E.
  - destruct (qu_cap q =? 0); [done|]. intros [= <- <-]. exists 6%nat. cbn [run_steps]. rewrite E1.
    cbn [mbind option_bind put_step l_put l_mem]. by rewrite E.
Qed.

Lemma pop_is_steps (q : Queue) (s : lstate) (res : result QueueError QueueElement) (m' : mem) :
  l_pop s = CHead -> pop q (l_mem s) = Some (res, m') ->
  exists n, run_steps (pop_step q) n s =
    Some (mkL m' (l_put s) CIdle (l_sent s) (match res with Ok e => l_got s ++ [e] | Err _ => l_got s end)).
Proof.
  intros Hpc. assert (E1 : pop_step q s = Some (mkL (l_mem s) (l_put s) (CTail (load_head q (l_mem s))) (l_sent s) (l_got s))).
  { unfold pop_step. by rewrite Hpc. }
  unfold pop. destruct (load_head q (l_mem s) >=? _) eqn:E.
  - intros [= <- <-]. exists 2%nat. cbn [run_steps]. rewrite E1. cbn [mbind option_bind pop_step l_pop l_mem]. by rewrite E.
  - destruct (qu_cap q =? 0); [done|]. intros [= <- <-]. exists 6%nat. cbn [run_steps]. rewrite E1.
    cbn [mbind option_bind pop_step l_pop l_mem]. by rewrite E.
Qed.

(** ** First in, first out *)

Lemma linit_inv (q : Queue) (m : mem) : 0 < qu_cap q -> load_head q m = 0 -> load_tail q m = 0 -> linv q (linit m).
Proof. intros Hc Hh Ht. split; cbn; try done. lia. Qed.

(** C29. The queue of the older protocols is a bounded FIFO across two processes:
    however the shared accesses of a producer and a consumer interleave, what has
    been popped is a prefix of what has been put, at most the capacity is in
    between, no element is torn, and the next pop finds the oldest one. *)
Theorem legacy_queue_fifo (q : Queue) (m : mem) (s : lstate) :
  0 < qu_cap q -> load_head q m = 0 -> load_tail q m = 0 ->
  rtc (lstep q) (linit m) s -> Z.of_nat (length (l_sent s)) <= I64_MAX ->
  l_got s `prefix_of` l_sent s /\ Z.of_nat (length (l_sent s)) - Z.of_nat (length (l_got s)) <= qu_cap q /\
  size q (l_mem s) = Z.of_nat (length (l_sent s)) - Z.of_nat (length (l_got s)) /\
  match l_sent s !! length (l_got s) with
  | Some e => exists m', pop q (l_mem s) = Some (Ok e, m')
  | None => pop q (l_mem s) = Some (Err QueueEmpty, l_mem s)
  end.
Proof.
  intros Hc Hh Ht Hr Hmax. assert (I : linv q s).
  { pose proof (linit_inv q m Hc Hh Ht) as I0. revert I0 Hmax. induction Hr as [s|a b c Hs Hr IH]; intros I0 Hmax; [done|].
    apply IH; [|done]. apply (lstep_inv q Hc a b I0 Hs). clear -Hr Hmax. induction Hr as [|a b c Hs _ IH]; [done|].
    apply lstep_sent in Hs. specialize (IH Hmax). lia. }
  split; [apply (li_got _ _ I)|]. split; [apply (li_gap _ _ I)|]. unfold size. rewrite (li_head _ _ I), (li_tail _ _ I). split; [done|].
  unfold pop. rewrite (li_head _ _ I), (li_tail _ _ I). destruct (l_sent s !! length (l_got s)) as [e|] eqn:E.
  - pose proof (lookup_lt_Some _ _ _ E). destruct (Z.geb_spec (Z.of_nat (length (l_got s))) (Z.of_nat (length (l_sent s)))); [lia|].
    destruct (Z.eqb_spec (qu_cap q) 0); [lia|]. eexists. do 3 f_equal. by apply (li_slots _ _ I).
  - apply lookup_ge_None in E. destruct (Z.geb_spec (Z.of_nat (length (l_got s))) (Z.of_nat (length (l_sent s)))); [done|lia].
Qed.

(** ** The pair of queues two processes share *)

Lemma create_spec (m : mem) (data cap : Z) (layout : QueueLayout) :
  0 <= cap < W32 ->
  let '(q, m') := create_from_bytes m data cap layout in
  q = mkQueue data cap layout /\ load_head q m' = 0 /\ load_tail q m' = 0 /\ load32 m' data = cap /\ load32 m' (flag_at q) = 0 /\
  mem_frame data (data + 24) m m'.
Proof.
  intros Hc. unfold create_from_bytes, mapping_from_bytes. rewrite load32_store32_same, wrap32_small by done.
  set (q := mkQueue data cap layout). set (m1 := store32 m data cap). set (m2 := store_head q m1 0). set (m3 := store_tail q m2 0).
  unfold load_head, load_tail, load_i64, flag_at. cbn [qu_data qu_layout q].
  assert (F1 : mem_frame data (data + 4) m m1) by (apply (mem_frame_store 4); lia).
  split; [done|]. split; [|split; [|split; [|split]]].
  - unfold m3, m2, store_tail, store_head, store64, store32. cbn [qu_data qu_layout q].
    rewrite !load_store_other by (destruct layout; cbn; lia). rewrite load_store_same. done.
  - unfold m3, store_tail, store64, store32. cbn [qu_data qu_layout q].
    rewrite load_store_other by (destruct layout; cbn; lia). rewrite load_store_same. done.
  - unfold m3, m2, m1, store_tail, store_head, store64, store32, load32. cbn [qu_data qu_layout q].
    rewrite !load_store_other by (destruct layout; cbn; lia). rewrite load_store_same. by apply wrap32_small.
  - apply load32_store32_same.
  - apply (mem_frame_trans _ _ m m3); [apply (mem_frame_trans _ _ m m2); [apply (mem_frame_trans _ _ m m1)|]|].
    + apply (mem_frame_weaken data (data + 4)); [lia|lia|done].
    + apply (mem_frame_store 8); cbn; destruct layout; cbn; lia.
    + apply (mem_frame_store 8); cbn; destruct layout; cbn; lia.
    + apply (mem_frame_store 4); cbn; destruct layout; cbn; lia.
Qed.

(** The two processes see the same pair of queues with their roles swapped:
    for a capacity as [Config::verify] leaves it, mapping what the creator laid out
    is accepted, its send queue is the creator's receive queue and the other way
    round, all of them start empty and idle, and the two rings do not overlap. *)
Theorem queue_pair_crossed (m : mem) (base cap : Z) (layout : QueueLayout) :
  0 < cap < W32 -> (8 | cap) ->
  let '(a, m') := qm_create m base cap layout in
  let size := count_queue_mem_size cap * QUEUE_COUNT in
  qm_mapping m' base size layout = Ok (mkQM (recv_queue a) (send_queue a)) /\
  Forall (fun q => qu_cap q = cap /\ load_head q m' = 0 /\ load_tail q m' = 0 /\ consumer_is_working q m' = false)
    [send_queue a; recv_queue a] /\
  qu_data (recv_queue a) = qu_data (send_queue a) + count_queue_mem_size cap /\
  mem_frame base (base + size) m m'.
Proof.
  intros Hc [k Hk]. unfold qm_create. set (total := count_queue_mem_size cap * QUEUE_COUNT).
  assert (Et : total = 48 + 24 * cap) by (unfold total, count_queue_mem_size, QUEUE_HEADER_LENGTH, QUEUE_ELEMENT_LEN, QUEUE_COUNT; lia).
  assert (Eh : total / 2 = 24 + 12 * cap) by (rewrite Et; replace (48 + 24 * cap) with ((24 + 12 * cap) * 2) by lia; by apply Z.div_mul).
  set (m0 := write_bytes m base _). pose proof (create_spec m0 base cap layout ltac:(lia)) as H1.
  destruct (create_from_bytes m0 base cap layout) as [qs m1]. destruct H1 as (-> & H1 & H2 & H3 & H4 & F1).
  pose proof (create_spec m1 (base + total / 2) cap layout ltac:(lia)) as G.
  destruct (create_from_bytes m1 (base + total / 2) cap layout) as [qr m2]. destruct G as (-> & G1 & G2 & G3 & G4 & F2).
  assert (K1 : forall n a, base <= a -> a + Z.of_nat n <= base + 24 -> load n m2 a = load n m1 a).
  { intros n a Ha1 Ha2. apply (load_frame n _ _ _ _ _ F2). lia. }
  cbn [send_queue recv_queue]. split; [|split; [|split]].
  - unfold qm_mapping, mapping_from_bytes. replace (is_multiple_of total 16) with true.
    2:{ symmetry. unfold is_multiple_of. cbn. apply Z.eqb_eq. rewrite Et, Hk. replace (48 + 24 * (k * 8)) with ((3 + 12 * k) * 16) by lia. by apply Z.mod_mul. }
    rewrite andb_false_r. destruct (Z.ltb_spec total 0); [lia|]. rewrite G3. unfold load32. rewrite K1 by lia. unfold load32 in H3. by rewrite H3.
  - apply Forall_cons. split; [|apply Forall_singleton].
    + split; [done|]. unfold load_head, load_tail, consumer_is_working, flag_at, load_i64, load32 in *. cbn [qu_data qu_layout] in *.
      rewrite !K1 by (destruct layout; cbn; lia). by rewrite H1, H2, H4.
    + split; [done|]. unfold consumer_is_working. by rewrite G1, G2, G4.
  - cbn. rewrite Eh. unfold count_queue_mem_size, QUEUE_HEADER_LENGTH, QUEUE_ELEMENT_LEN. lia.
  - apply (mem_frame_trans _ _ m m1); [apply (mem_frame_trans _ _ m m0)|].
    + apply mem_frame_write_bytes; [lia|]. rewrite repeat_length. lia.
    + apply (mem_frame_weaken base (base + 24)); [lia|lia|done].
    + apply (mem_frame_weaken (base + total / 2) (base + total / 2 + 24)); [lia|lia|done].
Qed.

(** ** What a mapping trusts *)

(** The capacity is read from the peer's memory and compared with nothing: a
    mapping of 48 bytes is accepted with a capacity of 1000, and popping from it
    reads far behind its end. *)
Lemma mapping_trusts_capacity :
  let m := store64 (store64 (store32 ∅ 0 1000) 8 999) 16 1000 in
  exists qm e m', qm_mapping m 0 48 LayoutAligned = Ok qm /\ pop (recv_queue qm) m = Some (Ok e, m') /\
    48 <= slot_at (recv_queue qm) (load_head (recv_queue qm) m).
Proof. do 3 eexists. split; [vm_compute; reflexivity|]. split; [vm_compute; reflexivity|]. vm_compute. discriminate. Qed.

(** ** Witnesses *)

Lemma run_put_rtc (q : Queue) (n : nat) (s s' : lstate) : run_steps (put_step q) n s = Some s' -> rtc (lstep q) s s'.
Proof.
  revert s. induction n as [|n IH]; intros s; cbn [run_steps]; [intros [= <-]; apply rtc_refl|].
  destruct (put_step q s) as [s1|] eqn:E; [|done]. cbn. intros Hr. apply rtc_l with s1; [by apply l_do_put|by apply IH].
Qed.

Definition sample_queue : Queue := mkQueue 64 2 LayoutAligned.

Definition sample_put : lstate := mkL ∅ (PTail (mkQE 3 4096 0)) CIdle [] [].

Definition sample_after : lstate := default sample_put (run_steps (put_step sample_queue) 6 sample_put).

Lemma legacy_queue_fifo_witness :
  exists m', pop sample_queue (l_mem sample_after) = Some (Ok (mkQE 3 4096 0), m') /\ size sample_queue (l_mem sample_after) = 1.
Proof.
  destruct (legacy_queue_fifo sample_queue ∅ sample_after) as (_ & _ & Hs & Hp).
  - reflexivity.
  - reflexivity.
  - reflexivity.
  - apply rtc_l with sample_put; [apply (l_call_put sample_queue (mkQE 3 4096 0) (linit ∅) eq_refl)|].
    + vm_compute. repeat split; discriminate.
    + apply (run_put_rtc _ 6). vm_compute. reflexivity.
  - vm_compute. discriminate.
  - assert (Es : l_sent sample_after = [mkQE 3 4096 0]) by (vm_compute; reflexivity).
    assert (Eg : l_got sample_after = []) by (vm_compute; reflexivity).
    rewrite Es, Eg in Hp. rewrite Es, Eg in Hs. cbn in Hp. destruct Hp as [m' Hp]. exists m'. split; [exact Hp|exact Hs].
Defined.

Lemma queue_pair_crossed_witness :
  let '(a, m') := qm_create ∅ 4096 8 LayoutAligned in
  qm_mapping m' 4096 (count_queue_mem_size 8 * QUEUE_COUNT) LayoutAligned = Ok (mkQM (recv_queue a) (send_queue a)).
Proof.
  pose proof (queue_pair_crossed ∅ 4096 8 LayoutAligned ltac:(vm_compute; split; reflexivity) ltac:(exists 1; reflexivity)) as Hw.
  destruct (qm_create ∅ 4096 8 LayoutAligned) as [a m']. exact (proj1 Hw).
Defined.
