(* ===== verification/LegacyBuf.v ===== *)
(** * Slices and free lists of protocol versions 2 to 4
      ([src/src/buffer/slice.rs], [src/src/buffer/list.rs])

    A buffer in shared memory is a twenty-byte header and its data.  The free
    buffers of one size form a linked list through their headers, with its ends and
    counters in front of the buffers.  A pointer into the mapping is its offset.
    Additions of [u32] wrap around, as in a release build. *)

From Stdlib Require Import ZArith Lia.
From stdpp Require Import base numbers list gmap.
From S2P Require Import Prelude Config.

#[local] Open Scope Z_scope.

Definition BUFFER_CAP_OFFSET : Z := 0.

Definition BUFFER_SIZE_OFFSET : Z := 4.

Definition BUFFER_DATA_START_OFFSET : Z := 8.

Definition NEXT_BUFFER_OFFSET : Z := 12.

Definition BUFFER_FLAG_OFFSET : Z := 16.

Definition HAS_NEXT_BUFFER_FLAG : Z := 1.

Definition SLICE_IN_USED_FLAG : Z := 2.

Definition BUFFER_LIST_HEADER_SIZE : Z := 36.

(** The value of an [i32] whose bytes are those of [z]. *)
Definition to_i32 (z : Z) : Z := if wrap32 z <? 2147483648 then wrap32 z else wrap32 z - W32.

Definition load_i32 (m : mem) (a : Z) : Z := to_i32 (load32 m a).

(** A one-byte store. *)
Definition store8 (m : mem) (a v : Z) : mem := store 1 m a v.

(** ** BufferHeader *)

Section header.
Context (h : Z).

Definition next_buffer_offset (m : mem) : Z := load32 m (h + NEXT_BUFFER_OFFSET).

Definition flag_byte (m : mem) : Z := rd m (h + BUFFER_FLAG_OFFSET).

Definition has_next (m : mem) : bool := Z.land (flag_byte m) HAS_NEXT_BUFFER_FLAG >? 0.

Definition clear_flag (m : mem) : mem := store8 m (h + BUFFER_FLAG_OFFSET) 0.

Definition set_in_used (m : mem) : mem := store8 m (h + BUFFER_FLAG_OFFSET) (Z.lor (flag_byte m) SLICE_IN_USED_FLAG).

Definition is_in_used (m : mem) : bool := Z.land (flag_byte m) SLICE_IN_USED_FLAG >? 0.

Definition link_next (m : mem) (next : Z) : mem :=
  let m := store32 m (h + NEXT_BUFFER_OFFSET) next in
  store8 m (h + BUFFER_FLAG_OFFSET) (Z.lor (flag_byte m) HAS_NEXT_BUFFER_FLAG).

Definition unlink_next (m : mem) : mem :=
  let m := store32 m (h + NEXT_BUFFER_OFFSET) 0 in
  store8 m (h + BUFFER_FLAG_OFFSET) (Z.land (flag_byte m) (Z.lnot HAS_NEXT_BUFFER_FLAG)).

Definition bh_cap (m : mem) : Z := load32 m (h + BUFFER_CAP_OFFSET).

Definition bh_size (m : mem) : Z := load32 m (h + BUFFER_SIZE_OFFSET).

Definition set_size (m : mem) (size : Z) : mem := store32 m (h + BUFFER_SIZE_OFFSET) size.

Definition bh_start (m : mem) : Z := load32 m (h + BUFFER_DATA_START_OFFSET).

Definition set_start (m : mem) (start : Z) : mem := store32 m (h + BUFFER_DATA_START_OFFSET) start.

End header.

(** ** BufferSlice *)

Record BufferSlice : Type := mkBS {
  bs_header : option Z;
  bs_data : Z;
  bs_cap : Z;
  bs_start : Z;
  bs_offset_in_shm : Z;
  bs_read : Z;
  bs_write : Z;
  bs_from_shm : bool;
}.

(** [data] is a pointer and a length. *)
Definition slice_new (m : mem) (header : option Z) (data len offset_in_shm : Z) (is_from_shm : bool) : BufferSlice :=
  match (if is_from_shm then header else None) with
  | Some h =>
      mkBS (Some h) data (bh_cap h m) (bh_start h m) offset_in_shm (bh_start h m)
        (wrap32 (bh_start h m + bh_size h m)) is_from_shm
  | None => mkBS None data (wrap32 len) 0 offset_in_shm 0 0 is_from_shm
  end.

Definition slice_size (s : BufferSlice) : Z := bs_write s - bs_read s.

Definition slice_remain (s : BufferSlice) : Z := bs_cap s - bs_write s.

Definition reset_indices_and_link (m : mem) (s : BufferSlice) : mem * BufferSlice :=
  let m :=
    match bs_header s with
    | Some h => unlink_next h (set_start h (set_size h m 0) 0)
    | None => m
    end in
  (m, mkBS (bs_header s) (bs_data s) (bs_cap s) 0 (bs_offset_in_shm s) 0 0 (bs_from_shm s)).

Definition reset_for_recycle (m : mem) (s : BufferSlice) : mem * BufferSlice :=
  let '(m, s) := reset_indices_and_link m s in
  (match bs_header s with Some h => clear_flag h m | None => m end, s).

Definition reset_for_reuse (m : mem) (s : BufferSlice) : mem * BufferSlice :=
  let '(m, s) := reset_indices_and_link m s in
  (match bs_header s with Some h => set_in_used h m | None => m end, s).

(** [next]: the offset of the slice behind this one in its list. *)
Definition update (m : mem) (s : BufferSlice) (next : option Z) : mem :=
  match bs_header s with
  | None => m
  | Some h =>
      let m := set_start h (set_size h m (wrap32 (slice_size s))) (bs_start s) in
      match next with
      | None => unlink_next h m
      | Some n => link_next h m n
      end
  end.

(** [reserve]: the reserved bytes start at the returned pointer. *)
Definition slice_reserve (s : BufferSlice) (size : Z) : option (Z * BufferSlice) :=
  if slice_remain s >=? size then
    Some (bs_data s + bs_write s,
      mkBS (bs_header s) (bs_data s) (bs_cap s) (bs_start s) (bs_offset_in_shm s) (bs_read s) (bs_write s + size) (bs_from_shm s))
  else None.

Definition slice_append (m : mem) (s : BufferSlice) (data : list Z) : Z * mem * BufferSlice :=
  if Nat.eqb (length data) 0 then (0, m, s)
  else
    let copy_size := Z.min (Z.of_nat (length data)) (slice_remain s) in
    (copy_size, write_bytes m (bs_data s + bs_write s) (take (Z.to_nat copy_size) data),
     mkBS (bs_header s) (bs_data s) (bs_cap s) (bs_start s) (bs_offset_in_shm s) (bs_read s) (bs_write s + copy_size) (bs_from_shm s)).

Definition slice_peek (m : mem) (s : BufferSlice) (size : Z) : list Z :=
  read_bytes m (bs_data s + bs_read s) (Z.to_nat (Z.min size (slice_size s))).

Definition slice_skip (s : BufferSlice) (size : Z) : Z * BufferSlice :=
  let un_read := slice_size s in
  let n := if un_read >? size then size else un_read in
  (n, mkBS (bs_header s) (bs_data s) (bs_cap s) (bs_start s) (bs_offset_in_shm s) (bs_read s + n) (bs_write s) (bs_from_shm s)).

Definition slice_read (m : mem) (s : BufferSlice) (size : Z) : list Z * BufferSlice :=
  let size := Z.min size (slice_size s) in
  (read_bytes m (bs_data s + bs_read s) (Z.to_nat size),
   mkBS (bs_header s) (bs_data s) (bs_cap s) (bs_start s) (bs_offset_in_shm s) (bs_read s + size) (bs_write s) (bs_from_shm s)).

(** ** BufferList *)

(** The handle one process keeps; [bl_counter] is where it finds the counter. *)
Record BufferList : Type := mkBL {
  bl_offset_in_shm : Z;
  bl_counter : Z;
  bl_region : Z;
  bl_region_len : Z;
}.

Definition size_at (l : BufferList) : Z := bl_offset_in_shm l.

Definition cap_at (l : BufferList) : Z := bl_offset_in_shm l + 4.

Definition head_at (l : BufferList) : Z := bl_offset_in_shm l + 8.

Definition tail_at (l : BufferList) : Z := bl_offset_in_shm l + 12.

Definition cap_per_buffer_at (l : BufferList) : Z := bl_offset_in_shm l + 16.

Inductive ListError : Type :=
| ZeroBuffers
| MemTooSmall
| OutOfRange
| NoMoreBuffer.

Definition count_buffer_list_mem_size (buffer_num cap_per_buffer : Z) : Z :=
  wrap32 (BUFFER_LIST_HEADER_SIZE + wrap32 (buffer_num * wrap32 (cap_per_buffer + BUFFER_HEADER_SIZE))).

(** The loop of [create] over the buffers; [n] are left, the last one keeps the
    link and the flag it finds. *)
Fixpoint init_buffers (n : nat) (region cap current : Z) (m : mem) : mem :=
  match n with
  | O => m
  | S n =>
      let next := wrap32 (wrap32 (current + cap) + BUFFER_HEADER_SIZE) in
      let h := region + current in
      let m := store32 m h cap in
      let m := store32 m (h + BUFFER_SIZE_OFFSET) 0 in
      let m := store32 m (h + BUFFER_DATA_START_OFFSET) 0 in
      let m :=
        match n with
        | O => m
        | S _ =>
            let m := store32 m (h + NEXT_BUFFER_OFFSET) next in
            let m := store32 m (h + BUFFER_FLAG_OFFSET) 0 in
            store8 m (h + BUFFER_FLAG_OFFSET) (Z.lor (flag_byte h m) HAS_NEXT_BUFFER_FLAG)
        end in
      init_buffers n region cap next m
  end.

Definition list_create (buffer_num cap_per_buffer : Z) (m : mem) (mem_len offset_in_mem : Z) : result ListError (BufferList * mem) :=
  if (buffer_num =? 0) || (cap_per_buffer =? 0) then Err ZeroBuffers
  else
    let at_least_size := count_buffer_list_mem_size buffer_num cap_per_buffer in
    let mem_len := wrap32 mem_len in
    if (mem_len <? wrap32 (offset_in_mem + at_least_size)) || (offset_in_mem >? mem_len) || (at_least_size >? mem_len)
    then Err MemTooSmall
    else if wrap32 (offset_in_mem + at_least_size) <=? wrap32 (offset_in_mem + BUFFER_LIST_HEADER_SIZE) then Err OutOfRange
    else
      let b := mkBL offset_in_mem (offset_in_mem + 20) (offset_in_mem + BUFFER_LIST_HEADER_SIZE) (wrap32 (at_least_size - BUFFER_LIST_HEADER_SIZE)) in
      let m := store32 m (size_at b) buffer_num in
      let m := store32 m (cap_at b) buffer_num in
      let m := store32 m (head_at b) 0 in
      let m := store32 m (tail_at b) (wrap32 ((buffer_num - 1) * wrap32 (cap_per_buffer + BUFFER_HEADER_SIZE))) in
      let m := store32 m (cap_per_buffer_at b) cap_per_buffer in
      let m := store32 m (bl_counter b) 0 in
      let m := init_buffers (Z.to_nat buffer_num) (bl_region b) cap_per_buffer 0 m in
      let tail := bl_region b + load32 m (tail_at b) in
      Ok (b, store32 m (tail + BUFFER_FLAG_OFFSET) 0).

Definition list_mapping (m : mem) (mem_len offset_in_shm : Z) : result ListError BufferList :=
  if mem_len <? wrap32 (offset_in_shm + BUFFER_LIST_HEADER_SIZE) then Err MemTooSmall
  else
    let need_size := count_buffer_list_mem_size (load32 m (offset_in_shm + 4)) (load32 m (offset_in_shm + 16)) in
    if (wrap32 (offset_in_shm + need_size) >? wrap32 mem_len) ||
       (wrap32 (offset_in_shm + need_size) <? wrap32 (offset_in_shm + BUFFER_LIST_HEADER_SIZE)) then Err MemTooSmall
    else Ok (mkBL offset_in_shm (offset_in_shm + 24) (offset_in_shm + BUFFER_LIST_HEADER_SIZE) (wrap32 (need_size - BUFFER_LIST_HEADER_SIZE))).

(** [fetch_add] on a four-byte cell. *)
Definition fetch_add (m : mem) (a d : Z) : mem := store32 m a (load32 m a + d).

(** The compare-and-exchange of [push] succeeds at once where nobody else runs. *)
Definition push (l : BufferList) (m : mem) (buffer : BufferSlice) : mem :=
  let '(m, buffer) := reset_for_recycle m buffer in
  let old_tail := load32 m (tail_at l) in
  let new_tail := wrap32 (bs_offset_in_shm buffer - bl_region l) in
  let m := store32 m (tail_at l) new_tail in
  let m := link_next (bl_region l + old_tail) m new_tail in
  let m := fetch_add m (size_at l) 1 in
  fetch_add m (bl_counter l) (-1).

(** What [pop] returns for the buffer at [old_head]. *)
Definition take_head (l : BufferList) (m : mem) (old_head : Z) : BufferSlice * mem :=
  let h := bl_region l + old_head in
  let m := clear_flag h m in
  let m := set_in_used h m in
  let m := fetch_add m (bl_counter l) 1 in
  (slice_new m (Some h) (h + BUFFER_HEADER_SIZE) (load32 m (cap_per_buffer_at l)) (wrap32 (old_head + bl_region l)) true, m).

Definition retry_limit : nat := 200.

Fixpoint pop_loop (l : BufferList) (retries : nat) (m : mem) (old_head : Z) : result ListError BufferSlice * mem :=
  match retries with
  | O => (Err NoMoreBuffer, fetch_add m (size_at l) 1)
  | S retries =>
      let bh := bl_region l + old_head in
      let again := pop_loop l retries m (load32 m (head_at l)) in
      if has_next bh m then
        if load32 m (head_at l) =? old_head then
          let m := store32 m (head_at l) (next_buffer_offset bh m) in
          let '(s, m) := take_head l m old_head in
          (Ok s, m)
        else again
      else if load_i32 m (size_at l) <=? 1 then (Err NoMoreBuffer, fetch_add m (size_at l) 1)
      else again
  end.

Definition pop (l : BufferList) (m : mem) : result ListError BufferSlice * mem :=
  let old_head := load32 m (head_at l) in
  let remain := load_i32 m (size_at l) in
  let m := fetch_add m (size_at l) (-1) in
  if (remain <=? 1) ||
     (wrap32 (wrap32 (old_head + BUFFER_HEADER_SIZE) + load32 m (cap_per_buffer_at l)) >? bl_region_len l)
  then (Err NoMoreBuffer, fetch_add m (size_at l) 1)
  else pop_loop l retry_limit m old_head.

Definition list_remain (l : BufferList) (m : mem) : Z := load_i32 m (size_at l) - 1.
