(* ===== verification/LegacyBufFacts.v ===== *)
(** * The free list of the older protocols: geometry, links and its operations *)

From Stdlib Require Import ZArith Lia.
From stdpp Require Import base numbers list gmap.
From S2P Require Import Prelude Config LegacyBuf.

#[local] Open Scope Z_scope.

(** ** Flags *)

Lemma rd_store8_same (m : mem) (a v : Z) : rd (store8 m a v) a = v mod 256.
Proof. unfold store8. change (store 1 m a v) with (<[a := v mod 256]> m). by rewrite rd_insert_eq, Z.mod_mod. Qed.

Lemma bit0_spec (v : Z) : (Z.land v 1 >? 0) = Z.testbit v 0.
Proof.
  change 1 with (Z.ones 1) at 1. rewrite Z.land_ones by lia. change (2 ^ 1) with 2. rewrite <- Z.bit0_mod.
  by destruct (Z.testbit v 0).
Qed.

Lemma testbit0_mod256 (v : Z) : Z.testbit (v mod 256) 0 = Z.testbit v 0.
Proof. change 256 with (2 ^ 8). apply Z.mod_pow2_bits_low. lia. Qed.

Lemma has_next_bit (h : Z) (m : mem) : has_next h m = Z.testbit (flag_byte h m) 0.
Proof. unfold has_next, HAS_NEXT_BUFFER_FLAG. apply bit0_spec. Qed.

Lemma has_next_store8 (h v : Z) (m : mem) : has_next h (store8 m (h + BUFFER_FLAG_OFFSET) v) = Z.testbit v 0.
Proof. rewrite has_next_bit. unfold flag_byte. rewrite rd_store8_same. apply testbit0_mod256. Qed.

(** ** What a header says depends on its twenty bytes *)

Lemma header_agree (h : Z) (m m' : mem) :
  mem_agree h (h + 20) m m' ->
  has_next h m' = has_next h m /\ next_buffer_offset h m' = next_buffer_offset h m /\ bh_cap h m' = bh_cap h m /\
  bh_size h m' = bh_size h m /\ bh_start h m' = bh_start h m /\ flag_byte h m' = flag_byte h m.
Proof.
  intros Ha. assert (Ef : flag_byte h m' = flag_byte h m) by (symmetry; apply Ha; cbn; unfold BUFFER_FLAG_OFFSET; lia).
  split; [unfold has_next; by rewrite Ef|].
  unfold next_buffer_offset, bh_cap, bh_size, bh_start, NEXT_BUFFER_OFFSET, BUFFER_CAP_OFFSET, BUFFER_SIZE_OFFSET, BUFFER_DATA_START_OFFSET, load32.
  repeat split; try done; symmetry; apply load_ext; intros x Hx; apply Ha; lia.
Qed.

Lemma outside_agree (lo hi h n : Z) (m m' : mem) : mem_frame lo hi m m' -> h + n <= lo \/ hi <= h -> mem_agree h (h + n) m m'.
Proof. intros Hf Ho x Hx. symmetry. apply Hf. lia. Qed.

Lemma mem_agree_trans (lo hi : Z) (m1 m2 m3 : mem) : mem_agree lo hi m1 m2 -> mem_agree lo hi m2 m3 -> mem_agree lo hi m1 m3.
Proof. intros H1 H2 x Hx. by rewrite H1, H2. Qed.

(** ** Writes to a header *)

Ltac hdr := unfold store8, store32, load32, NEXT_BUFFER_OFFSET, BUFFER_FLAG_OFFSET, BUFFER_SIZE_OFFSET, BUFFER_DATA_START_OFFSET, BUFFER_CAP_OFFSET in *.

Lemma flag_byte_frame (h v : Z) (m : mem) : mem_frame (h + 16) (h + 17) m (store8 m (h + BUFFER_FLAG_OFFSET) v).
Proof. hdr. apply mem_frame_store; lia. Qed.

Lemma flag_store_fields (h v : Z) (m : mem) :
  let m' := store8 m (h + BUFFER_FLAG_OFFSET) v in
  next_buffer_offset h m' = next_buffer_offset h m /\ bh_cap h m' = bh_cap h m /\ bh_size h m' = bh_size h m /\ bh_start h m' = bh_start h m.
Proof.
  cbn zeta. unfold next_buffer_offset, bh_cap, bh_size, bh_start. hdr. repeat split; apply (load_store_other 4 1); cbn; lia.
Qed.

Lemma link_next_spec (h next : Z) (m : mem) :
  0 <= next < W32 ->
  let m' := link_next h m next in
  mem_frame (h + 12) (h + 17) m m' /\ has_next h m' = true /\ next_buffer_offset h m' = next /\
  bh_cap h m' = bh_cap h m /\ bh_size h m' = bh_size h m /\ bh_start h m' = bh_start h m.
Proof.
  intros Hn m'. subst m'. unfold link_next. set (m1 := store32 m (h + NEXT_BUFFER_OFFSET) next).
  destruct (flag_store_fields h (Z.lor (flag_byte h m1) HAS_NEXT_BUFFER_FLAG) m1) as (E1 & E2 & E3 & E4). rewrite E1, E2, E3, E4. split.
  { apply (mem_frame_trans _ _ m m1); [hdr; apply mem_frame_store; lia|]. apply (mem_frame_weaken (h + 16) (h + 17)); [lia|lia|apply flag_byte_frame]. }
  split; [rewrite has_next_store8, Z.lor_spec; apply orb_true_r|]. unfold m1, next_buffer_offset, bh_cap, bh_size, bh_start.
  rewrite load32_store32_same, wrap32_small by done. split; [done|]. hdr. rewrite !(load_store_other 4 4) by lia. done.
Qed.

Lemma unlink_next_spec (h : Z) (m : mem) :
  let m' := unlink_next h m in
  mem_frame (h + 12) (h + 17) m m' /\ has_next h m' = false /\
  bh_cap h m' = bh_cap h m /\ bh_size h m' = bh_size h m /\ bh_start h m' = bh_start h m.
Proof.
  intros m'. subst m'. unfold unlink_next. set (m1 := store32 m (h + NEXT_BUFFER_OFFSET) 0).
  destruct (flag_store_fields h (Z.land (flag_byte h m1) (Z.lnot HAS_NEXT_BUFFER_FLAG)) m1) as (E1 & E2 & E3 & E4). rewrite E2, E3, E4. split.
  { apply (mem_frame_trans _ _ m m1); [hdr; apply mem_frame_store; lia|]. apply (mem_frame_weaken (h + 16) (h + 17)); [lia|lia|apply flag_byte_frame]. }
  split; [rewrite has_next_store8, Z.land_spec; apply andb_false_r|]. unfold m1, bh_cap, bh_size, bh_start. hdr. rewrite !(load_store_other 4 4) by lia. done.
Qed.

(** A recycled buffer is empty and unlinked, and keeps its capacity. *)
Lemma recycle_spec (h : Z) (m : mem) (s : BufferSlice) :
  bs_header s = Some h ->
  let '(m', s') := reset_for_recycle m s in
  mem_frame h (h + 20) m m' /\ has_next h m' = false /\ bh_cap h m' = bh_cap h m /\ bh_size h m' = 0 /\ bh_start h m' = 0 /\
  bs_offset_in_shm s' = bs_offset_in_shm s.
Proof.
  intros Hh. unfold reset_for_recycle, reset_indices_and_link. rewrite Hh. cbn [bs_header bs_offset_in_shm].
  set (m1 := set_size h m 0). set (m2 := set_start h m1 0). destruct (unlink_next_spec h m2) as (F3 & _ & C3 & S3 & T3).
  set (m3 := unlink_next h m2) in *. unfold clear_flag. destruct (flag_store_fields h 0 m3) as (_ & C4 & S4 & T4). rewrite C4, S4, T4, C3, S3, T3.
  split; [|split; [|split; [|split; [|split]]]].
  - apply (mem_frame_trans _ _ m m3); [apply (mem_frame_trans _ _ m m2); [apply (mem_frame_trans _ _ m m1)|]|].
    + unfold m1, set_size. hdr. apply mem_frame_store; lia.
    + unfold m2, set_start. hdr. apply mem_frame_store; lia.
    + apply (mem_frame_weaken (h + 12) (h + 17)); [lia|lia|done].
    + apply (mem_frame_weaken (h + 16) (h + 17)); [lia|lia|apply flag_byte_frame].
  - by rewrite has_next_store8.
  - unfold m2, m1, set_start, set_size, bh_cap. hdr. by rewrite !(load_store_other 4 4) by lia.
  - unfold m2, m1, set_start, set_size, bh_size. hdr. rewrite (load_store_other 4 4) by lia. by rewrite load_store_same.
  - unfold m2, set_start, bh_start. hdr. by rewrite load_store_same.
  - done.
Qed.

(** ** Neighbours in a list *)

Definition adj (l : list Z) (a b : Z) : Prop := exists l1 l2, l = l1 ++ a :: b :: l2.

Lemma adj_cons (x : Z) (l : list Z) (a b : Z) : adj (x :: l) a b <-> adj l a b \/ (a = x /\ head l = Some b).
Proof.
  split.
  - intros (l1 & l2 & E). destruct l1 as [|y l1]; cbn in E; injection E as -> ->; [by right|left; by exists l1, l2].
  - intros [(l1 & l2 & ->)|[-> Hh]]; [by exists (x :: l1), l2|]. destruct l as [|y l]; [done|]. injection Hh as ->. by exists [], l.
Qed.

Lemma adj_snoc (x : Z) (l : list Z) (a b : Z) : adj (l ++ [x]) a b <-> adj l a b \/ (last l = Some a /\ b = x).
Proof.
  split.
  - intros (l1 & l2 & E). destruct l2 as [|y l2 _] using rev_ind.
    + right. change (l1 ++ [a; b]) with (l1 ++ [a] ++ [b]) in E. rewrite app_assoc in E. apply app_inj_2 in E as [-> E]; [|done].
      injection E as ->. by rewrite last_snoc.
    + left. exists l1, l2. change (a :: b :: l2 ++ [y]) with ((a :: b :: l2) ++ [y]) in E. rewrite app_assoc in E.
      by apply app_inj_2 in E as [-> _].
  - intros [(l1 & l2 & ->)|[Hl ->]].
    + exists l1, (l2 ++ [x]). by rewrite <- app_assoc.
    + apply last_Some in Hl as [l' ->]. exists l', []. by rewrite <- app_assoc.
Qed.

Lemma adj_in (l : list Z) (a b : Z) : adj l a b -> a ∈ l /\ b ∈ l.
Proof. intros (l1 & l2 & ->). set_solver. Qed.

Lemma adj_fun (l : list Z) (a b c : Z) : NoDup l -> adj l a b -> adj l a c -> b = c.
Proof.
  induction l as [|x l IH]; intros Hn; rewrite ?adj_cons; [intros (l1 & l2 & E); by destruct l1|].
  apply NoDup_cons in Hn as [Hx Hn]. intros [H1|[-> H1]] [H2|[E2 H2]]; subst; try (by apply IH); try congruence.
  - by apply adj_in in H1 as [H1 _].
  - by apply adj_in in H2 as [H2 _].
Qed.

Lemma adj_not_last (l : list Z) (a b : Z) : NoDup l -> adj l a b -> last l <> Some a.
Proof.
  induction l as [|x l IH] using rev_ind; intros Hn; [intros (l1 & l2 & E); by destruct l1|]. rewrite adj_snoc, last_snoc.
  apply NoDup_app in Hn as (Hn & Hd & _). intros [H1|[H1 ->]] [= <-].
  - apply adj_in in H1 as [H1 _]. apply (Hd x H1). set_solver.
  - apply (Hd x); [by apply last_Some_elem_of|set_solver].
Qed.

(** ** The shape of a list *)

Section shape.
Context (l : BufferList) (cap num : Z).

(** A handle of a list of [num] buffers of [cap] bytes. *)
Record bl_geom : Prop := {
  g_cap : 0 < cap;
  g_num : 0 < num;
  g_off : 0 <= bl_offset_in_shm l;
  g_region : bl_region l = bl_offset_in_shm l + 36;
  g_len : bl_region_len l = num * (cap + 20);
  g_end : bl_region l + bl_region_len l < W32;
  g_ctr : bl_counter l = bl_offset_in_shm l + 20 \/ bl_counter l = bl_offset_in_shm l + 24;
}.

(** The offsets of the buffers in the region. *)
Definition is_buf (o : Z) : Prop := exists i, 0 <= i < num /\ o = i * (cap + 20).

Definition buf_at (o : Z) : Z := bl_region l + o.

(** Only the header of the list and the headers of the given buffers differ. *)
Definition list_frame (os : list Z) (m m' : mem) : Prop :=
  forall x, x < bl_offset_in_shm l \/ bl_region l <= x -> (forall o, o ∈ os -> x < buf_at o \/ buf_at o + 20 <= x) -> rd m' x = rd m x.

(** [pend]: links whose second end is in the list while their flag is not yet set. *)
Record linked (pend : list (Z * Z)) (m : mem) (fl : list Z) : Prop := {
  lk_pend : NoDup pend;
  lk_open a b : (a, b) ∈ pend -> adj fl a b /\ has_next (buf_at a) m = false;
  lk_done a b : adj fl a b -> (a, b) ∉ pend -> has_next (buf_at a) m = true /\ next_buffer_offset (buf_at a) m = b;
  lk_last a : last fl = Some a -> has_next (buf_at a) m = false;
}.

(** A list at rest with the free buffers [fl] from its head to its tail. *)
Record free_list (m : mem) (fl : list Z) : Prop := {
  fl_buf : Forall is_buf fl;
  fl_nodup : NoDup fl;
  fl_head : head fl = Some (load32 m (head_at l));
  fl_tail : last fl = Some (load32 m (tail_at l));
  fl_links : linked [] m fl;
  fl_size : load32 m (size_at l) = Z.of_nat (length fl);
  fl_num : load32 m (cap_at l) = num;
  fl_cap : load32 m (cap_per_buffer_at l) = cap;
  fl_hdr o : o ∈ fl -> bh_cap (buf_at o) m = cap /\ bh_size (buf_at o) m = 0 /\ bh_start (buf_at o) m = 0;
}.

Hypothesis G : bl_geom.

Lemma buf_bounds (o : Z) : is_buf o -> 0 <= o /\ o + (cap + 20) <= bl_region_len l.
Proof. intros (i & Hi & ->). rewrite (g_len G). pose proof (g_cap G). nia. Qed.

Lemma buf_apart (a b : Z) : is_buf a -> is_buf b -> a <> b -> a + (cap + 20) <= b \/ b + (cap + 20) <= a.
Proof.
  intros (i & Hi & ->) (j & Hj & ->) Hne. pose proof (g_cap G).
  assert (i <> j) by congruence. assert (i < j \/ j < i) as [?|?] by lia; [left|right].
  - pose proof (Z.mul_le_mono_nonneg_r (i + 1) j (cap + 20) ltac:(lia) ltac:(lia)). lia.
  - pose proof (Z.mul_le_mono_nonneg_r (j + 1) i (cap + 20) ltac:(lia) ltac:(lia)). lia.
Qed.

Lemma num_small : num < 2147483648.
Proof. pose proof (g_end G). pose proof (g_len G). pose proof (g_cap G). pose proof (g_off G). pose proof (g_region G). unfold W32 in *. nia. Qed.

Lemma bufs_length (fl : list Z) : Forall is_buf fl -> NoDup fl -> Z.of_nat (length fl) <= num.
Proof.
  intros Hb Hn. pose proof (g_num G). rewrite <- (Z2Nat.id num) by lia. apply inj_le.
  rewrite <- (length_seqZ 0 num) at 1. rewrite <- (length_fmap (fun i => i * (cap + 20)) (seqZ 0 num)).
  apply submseteq_length, NoDup_submseteq; [done|]. intros x Hx. rewrite Forall_forall in Hb. destruct (Hb x Hx) as (i & Hi & ->).
  apply list_elem_of_fmap. exists i. split; [done|]. apply elem_of_seqZ. lia.
Qed.

(** ** Links *)

Lemma linked_frame (pend : list (Z * Z)) (m m' : mem) (fl : list Z) :
  (forall o, o ∈ fl -> mem_agree (buf_at o) (buf_at o + 20) m m') -> linked pend m fl -> linked pend m' fl.
Proof.
  intros Ha [H1 H2 H3 H4]. assert (E : forall o, o ∈ fl -> has_next (buf_at o) m' = has_next (buf_at o) m /\
    next_buffer_offset (buf_at o) m' = next_buffer_offset (buf_at o) m).
  { intros o Ho. destruct (header_agree _ _ _ (Ha o Ho)) as (? & ? & _). done. }
  split; [done| | |].
  - intros a b Hp. destruct (H2 a b Hp) as [Hadj Hn]. split; [done|]. destruct (adj_in _ _ _ Hadj) as [Hin _]. destruct (E a Hin) as [-> _]. done.
  - intros a b Hadj Hp. destruct (adj_in _ _ _ Hadj) as [Hin _]. destruct (E a Hin) as [-> ->]. by apply H3.
  - intros a Hl. destruct (E a (last_Some_elem_of _ _ Hl)) as [-> _]. by apply H4.
Qed.

Lemma linked_perm (pend pend' : list (Z * Z)) (m : mem) (fl : list Z) : pend ≡ₚ pend' -> linked pend m fl -> linked pend' m fl.
Proof. intros Hp [H1 H2 H3 H4]. split; [by rewrite <- Hp| | |done]; intros a b; rewrite <- Hp; auto. Qed.

(** Taking the head away. *)
Lemma linked_tail (pend : list (Z * Z)) (m : mem) (a : Z) (fl : list Z) :
  NoDup (a :: fl) -> has_next (buf_at a) m = true -> linked pend m (a :: fl) ->
  exists b fl', fl = b :: fl' /\ next_buffer_offset (buf_at a) m = b /\ linked pend m fl.
Proof.
  intros Hn Ht [H1 H2 H3 H4]. destruct fl as [|b fl']; [specialize (H4 a eq_refl); congruence|]. exists b, fl'. split; [done|].
  assert (Hab : adj (a :: b :: fl') a b) by (by exists [], fl').
  assert (Hp : (a, b) ∉ pend) by (intros Hin; destruct (H2 a b Hin); congruence).
  split; [by apply H3|]. split; [done| | |].
  - intros x y Hxy. destruct (H2 x y Hxy) as [Hadj Hx]. split; [|done]. apply adj_cons in Hadj as [Hadj|[-> _]]; [done|congruence].
  - intros x y Hadj. apply H3. apply adj_cons. by left.
  - intros x Hl. apply H4. by rewrite last_cons, Hl.
Qed.

(** A new tail whose link from the old one is open. *)
Lemma linked_snoc (pend : list (Z * Z)) (m : mem) (fl : list Z) (a b : Z) :
  last fl = Some a -> b ∉ fl -> has_next (buf_at b) m = false -> linked pend m fl -> linked ((a, b) :: pend) m (fl ++ [b]).
Proof.
  intros Hl Hb Hf [H1 H2 H3 H4]. split.
  - apply NoDup_cons. split; [|done]. intros Hin. destruct (H2 a b Hin) as [Hadj _]. by apply adj_in in Hadj as [_ ?].
  - intros x y. rewrite elem_of_cons. intros [[= -> ->]|Hin].
    + split; [apply adj_snoc; by right|by apply H4].
    + destruct (H2 x y Hin). split; [apply adj_snoc; by left|done].
  - intros x y Hadj. rewrite not_elem_of_cons. intros [Hne Hin]. apply adj_snoc in Hadj as [Hadj|[E ->]]; [by apply H3|]. congruence.
  - intros x. rewrite last_snoc. by intros [= <-].
Qed.

(** Closing an open link. *)
Lemma linked_close (pend : list (Z * Z)) (m m' : mem) (fl : list Z) (a b : Z) :
  NoDup fl -> linked ((a, b) :: pend) m fl ->
  (forall o, o ∈ fl -> o <> a -> mem_agree (buf_at o) (buf_at o + 20) m m') ->
  has_next (buf_at a) m' = true -> next_buffer_offset (buf_at a) m' = b -> linked pend m' fl.
Proof.
  intros Hn [H1 H2 H3 H4] Ha Hf Hx. apply NoDup_cons in H1 as [Hab H1]. destruct (H2 a b ltac:(left)) as [Hadj _].
  assert (E : forall o, o ∈ fl -> o <> a -> has_next (buf_at o) m' = has_next (buf_at o) m /\
    next_buffer_offset (buf_at o) m' = next_buffer_offset (buf_at o) m).
  { intros o Ho Hne. destruct (header_agree _ _ _ (Ha o Ho Hne)) as (? & ? & _). done. }
  split; [done| | |].
  - intros x y Hp. destruct (H2 x y ltac:(by right)) as [Hxy Hx0]. split; [done|]. assert (x <> a).
    { intros ->. by rewrite (adj_fun _ _ _ _ Hn Hxy Hadj) in Hp. }
    destruct (adj_in _ _ _ Hxy) as [Hin _]. by destruct (E x Hin H) as [-> _].
  - intros x y Hxy Hp. destruct (decide (x = a)) as [->|Hne]; [split; [done|]; by rewrite Hx, (adj_fun _ _ _ _ Hn Hadj Hxy)|].
    destruct (adj_in _ _ _ Hxy) as [Hin _]. destruct (E x Hin Hne) as [-> ->]. apply H3; [done|].
    rewrite not_elem_of_cons. split; [congruence|done].
  - intros x Hl. assert (x <> a) by (intros ->; by apply (adj_not_last _ _ _ Hn Hadj)).
    destruct (E x (last_Some_elem_of _ _ Hl) H) as [-> _]. by apply H4.
Qed.

(** ** The cells in front of the buffers *)

Ltac cells := unfold fetch_add, size_at, cap_at, head_at, tail_at, cap_per_buffer_at, load32, store32 in *.

Lemma cells_frame (m m' : mem) (lo hi a : Z) : mem_frame lo hi m m' -> bl_region l <= lo -> a <= bl_offset_in_shm l + 32 -> load32 m' a = load32 m a.
Proof. intros Hf Hlo Ha. pose proof (g_region G). unfold load32. apply (load_frame 4 lo hi); [done|lia]. Qed.

Lemma cell_agree (m : mem) (a v o : Z) : is_buf o -> a <= bl_offset_in_shm l + 32 -> mem_agree (buf_at o) (buf_at o + 20) m (store32 m a v).
Proof.
  intros Ho Ha. pose proof (buf_bounds o Ho). pose proof (g_region G). apply (outside_agree a (a + 4)); [unfold store32; apply mem_frame_store; lia|].
  unfold buf_at. lia.
Qed.

Lemma header_frame_agree (m m' : mem) (a o : Z) :
  mem_frame (buf_at a) (buf_at a + 20) m m' -> is_buf a -> is_buf o -> o <> a -> mem_agree (buf_at o) (buf_at o + 20) m m'.
Proof. intros Hf Ha Ho Hne. apply (outside_agree _ _ _ _ _ _ Hf). pose proof (buf_apart a o Ha Ho ltac:(done)). pose proof (g_cap G). unfold buf_at. lia. Qed.

Lemma list_frame_cell (os : list Z) (m : mem) (a v : Z) :
  bl_offset_in_shm l <= a -> a <= bl_offset_in_shm l + 32 -> list_frame os m (store32 m a v).
Proof. intros H1 H2 x Hx _. pose proof (g_region G). unfold store32. apply rd_store_out. lia. Qed.

Lemma list_frame_header (os : list Z) (m m' : mem) (o : Z) : o ∈ os -> mem_frame (buf_at o) (buf_at o + 20) m m' -> list_frame os m m'.
Proof. intros Ho Hf x _ Hx. apply Hf. by apply Hx. Qed.

Lemma list_frame_trans (os : list Z) (m1 m2 m3 : mem) : list_frame os m1 m2 -> list_frame os m2 m3 -> list_frame os m1 m3.
Proof. intros H1 H2 x Hx Ho. by rewrite H2, H1. Qed.

Lemma to_i32_small (z : Z) : 0 <= z < 2147483648 -> to_i32 z = z.
Proof. intros Hz. unfold to_i32. rewrite wrap32_small by (unfold W32; lia). by destruct (Z.ltb_spec z 2147483648); [|lia]. Qed.

(** Counting down and up again. *)
Lemma fetch_back (m : mem) (a : Z) : load32 (fetch_add (fetch_add m a (-1)) a 1) a = load32 m a.
Proof.
  unfold fetch_add. rewrite !load32_store32_same. pose proof (load32_bound m a). unfold wrap32. rewrite Zplus_mod_idemp_l.
  replace (load32 m a + -1 + 1) with (load32 m a) by lia. by apply Z.mod_small.
Qed.

(** ** pop *)

Lemma pop_last (m : mem) (a : Z) :
  free_list m [a] -> exists m', pop l m = (Err NoMoreBuffer, m') /\ free_list m' [a] /\ list_frame [] m m'.
Proof.
  intros [Hb Hn Hh Ht Hl Hs Hnum Hc Hhd]. unfold pop. set (m1 := fetch_add m (size_at l) (-1)). unfold load_i32. rewrite Hs. cbn [length Z.of_nat].
  rewrite to_i32_small by lia. cbn [Z.leb Z.compare Pos.compare Pos.compare_cont orb]. eexists. split; [done|].
  set (m2 := fetch_add m1 (size_at l) 1). assert (F : mem_frame (size_at l) (size_at l + 4) m m2).
  { apply (mem_frame_trans _ _ m m1); unfold m2, m1, fetch_add, store32; apply mem_frame_store; lia. }
  assert (K : forall c, size_at l + 4 <= c -> load32 m2 c = load32 m c) by (intros c ?; unfold load32; apply (load_frame 4 _ _ _ _ _ F); lia).
  assert (A : forall o, o ∈ [a] -> mem_agree (buf_at o) (buf_at o + 20) m m2).
  { intros o Ho. rewrite Forall_forall in Hb. pose proof (buf_bounds o (Hb o Ho)). pose proof (g_region G).
    apply (outside_agree _ _ _ _ _ _ F). unfold buf_at, size_at. lia. }
  split.
  - assert (Es : load32 m2 (size_at l) = load32 m (size_at l)) by apply fetch_back. split; try done.
    + rewrite K; [done|]. unfold head_at, size_at. lia.
    + rewrite K; [done|]. unfold tail_at, size_at. lia.
    + by apply (linked_frame _ m).
    + by rewrite Es.
    + rewrite K; [done|]. unfold cap_at, size_at. lia.
    + rewrite K; [done|]. unfold cap_per_buffer_at, size_at. lia.
    + intros o Ho. destruct (header_agree _ _ _ (A o Ho)) as (_ & _ & -> & -> & -> & _). by apply Hhd.
  - intros x Hx _. apply F. pose proof (g_region G). unfold size_at. lia.
Qed.

(** The buffer [pop] hands out. *)
Definition fresh_slice (a : Z) : BufferSlice := mkBS (Some (buf_at a)) (buf_at a + 20) cap 0 (buf_at a) 0 0 true.

Lemma take_head_spec (m : mem) (a : Z) :
  is_buf a -> bh_cap (buf_at a) m = cap -> bh_size (buf_at a) m = 0 -> bh_start (buf_at a) m = 0 ->
  exists m1, take_head l m a = (fresh_slice a, fetch_add m1 (bl_counter l) 1) /\ mem_frame (buf_at a + 16) (buf_at a + 17) m m1 /\
    flag_byte (buf_at a) m1 = SLICE_IN_USED_FLAG.
Proof.
  intros Ha Hc Hs Ht. unfold take_head. fold (buf_at a). set (m1 := clear_flag (buf_at a) m). set (m2 := set_in_used (buf_at a) m1).
  assert (F : mem_frame (buf_at a + 16) (buf_at a + 17) m m2) by (apply (mem_frame_trans _ _ m m1); apply flag_byte_frame).
  pose proof (buf_bounds a Ha). pose proof (g_region G). pose proof (g_off G). pose proof (g_end G). pose proof (g_cap G). exists m2. split; [|split; [done|]].
  - f_equal. assert (K : forall n, 0 <= n <= 12 -> load32 (fetch_add m2 (bl_counter l) 1) (buf_at a + n) = load32 m (buf_at a + n)).
    { intros n Hn'. destruct (g_ctr G); unfold fetch_add, load32, store32; rewrite (load_store_other 4 4) by (unfold buf_at; lia);
        apply (load_frame 4 _ _ _ _ _ F); lia. }
    unfold slice_new, bh_cap, bh_start, bh_size. hdr. rewrite !K by lia. fold (bh_cap (buf_at a) m) (bh_size (buf_at a) m) (bh_start (buf_at a) m).
    unfold bh_cap, bh_start, bh_size in Hc, Hs, Ht. hdr. rewrite Hc, Hs, Ht. unfold fresh_slice. rewrite wrap32_small by (unfold buf_at in *; lia).
    by rewrite (Z.add_comm a).
  - unfold m2, set_in_used, flag_byte. rewrite rd_store8_same. unfold m1, clear_flag. by rewrite rd_store8_same.
Qed.

Lemma pop_loop_S (n : nat) (m : mem) (old_head : Z) :
  pop_loop l (S n) m old_head =
  if has_next (buf_at old_head) m then
    if load32 m (head_at l) =? old_head then
      let '(s, m') := take_head l (store32 m (head_at l) (next_buffer_offset (buf_at old_head) m)) old_head in (Ok s, m')
    else pop_loop l n m (load32 m (head_at l))
  else if load_i32 m (size_at l) <=? 1 then (Err NoMoreBuffer, fetch_add m (size_at l) 1)
  else pop_loop l n m (load32 m (head_at l)).
Proof. done. Qed.

(** [pop] on a list with a buffer to spare gets through at the first attempt. *)
Lemma pop_runs (m : mem) (a b : Z) (fl : list Z) :
  free_list m (a :: b :: fl) ->
  let m2 := store32 (fetch_add m (size_at l) (-1)) (head_at l) b in
  (forall o, is_buf o -> mem_agree (buf_at o) (buf_at o + 20) m m2) /\
  exists m3, pop l m = (Ok (fresh_slice a), fetch_add m3 (bl_counter l) 1) /\ mem_frame (buf_at a + 16) (buf_at a + 17) m2 m3 /\
    flag_byte (buf_at a) m3 = SLICE_IN_USED_FLAG.
Proof.
  intros FL. pose proof FL as [Hb Hn Hh Ht Hl Hs Hnum Hc Hhd]. pose proof (bufs_length _ Hb Hn) as Hlen. pose proof num_small as Hsm.
  assert (Ha : is_buf a) by (by apply Forall_cons in Hb as [? _]). pose proof (buf_bounds a Ha) as Ba.
  pose proof (g_region G) as GR. pose proof (g_off G) as GO. pose proof (g_end G) as GE. pose proof (g_cap G) as GC.
  unfold pop. set (m1 := fetch_add m (size_at l) (-1)). cbn zeta.
  assert (F1 : mem_frame (size_at l) (size_at l + 4) m m1) by (unfold m1, fetch_add, store32; apply mem_frame_store; lia).
  assert (K1 : forall c, size_at l + 4 <= c -> load32 m1 c = load32 m c) by (intros c ?; unfold load32; apply (load_frame 4 _ _ _ _ _ F1); lia).
  assert (A1 : forall o, is_buf o -> mem_agree (buf_at o) (buf_at o + 20) m m1).
  { intros o Ho. pose proof (buf_bounds o Ho). apply (outside_agree _ _ _ _ _ _ F1). unfold buf_at, size_at. lia. }
  assert (A2 : forall o, is_buf o -> mem_agree (buf_at o) (buf_at o + 20) m (store32 m1 (head_at l) b)).
  { intros o Ho. apply (mem_agree_trans _ _ _ m1); [by apply A1|]. apply cell_agree; [done|]. unfold head_at. lia. }
  split; [done|].
  cbn in Hh. injection Hh as Hh. rewrite <- Hh. unfold load_i32. rewrite Hs. cbn [length] in *. rewrite to_i32_small by lia.
  destruct (Z.leb_spec (Z.of_nat (S (S (length fl)))) 1); [lia|]. rewrite K1 by (unfold cap_per_buffer_at, size_at; lia). rewrite Hc.
  unfold BUFFER_HEADER_SIZE. rewrite (wrap32_small (a + _)), wrap32_small by lia. rewrite Z.gtb_ltb. destruct (Z.ltb_spec (bl_region_len l) (a + (4 + 4 + 4 + 4 + 4) + cap)); [lia|].
  cbn [orb]. change retry_limit with (S 199). rewrite pop_loop_S. fold (buf_at a).
  destruct (header_agree _ _ _ (A1 a Ha)) as (Ea & En & _).
  destruct (lk_done _ _ _ Hl a b ltac:(by exists [], fl) ltac:(set_solver)) as [La Lb].
  rewrite Ea, La, K1, <- Hh, Z.eqb_refl, En, Lb by (unfold head_at, size_at; lia).
  destruct (Hhd a ltac:(left)) as (Ca & Sa & Ta). destruct (header_agree _ _ _ (A2 a Ha)) as (_ & _ & Ec2 & Es2 & Et2 & _).
  destruct (take_head_spec (store32 m1 (head_at l) b) a Ha) as (m3 & E3 & F3 & Fl3); [congruence..|]. rewrite E3. by exists m3.
Qed.

Lemma pop_first (m : mem) (a b : Z) (fl : list Z) :
  free_list m (a :: b :: fl) ->
  exists m', pop l m = (Ok (fresh_slice a), m') /\ free_list m' (b :: fl) /\ list_frame [a] m m' /\
    bh_cap (buf_at a) m' = cap /\ flag_byte (buf_at a) m' = SLICE_IN_USED_FLAG.
Proof.
  intros FL. destruct (pop_runs m a b fl FL) as (A2 & m3 & E3 & F3 & Fl3). rewrite E3. eexists. split; [done|].
  pose proof FL as [Hb Hn Hh Ht Hl Hs Hnum Hc Hhd]. pose proof (bufs_length _ Hb Hn) as Hlen. pose proof num_small as Hsm.
  assert (Ha : is_buf a) by (by apply Forall_cons in Hb as [? _]). pose proof (buf_bounds a Ha) as Ba.
  pose proof (g_region G) as GR. pose proof (g_off G) as GO. pose proof (g_end G) as GE. pose proof (g_cap G) as GC.
  set (m1 := fetch_add m (size_at l) (-1)) in *. set (m2 := store32 m1 (head_at l) b) in *.
  assert (F1 : mem_frame (size_at l) (size_at l + 4) m m1) by (unfold m1, fetch_add, store32; apply mem_frame_store; lia).
  assert (K1 : forall c, size_at l + 4 <= c -> load32 m1 c = load32 m c) by (intros c ?; unfold load32; apply (load_frame 4 _ _ _ _ _ F1); lia).
  destruct (lk_done _ _ _ Hl a b ltac:(by exists [], fl) ltac:(set_solver)) as [La Lb]. destruct (Hhd a ltac:(left)) as (Ca & _).
  destruct (header_agree _ _ _ (A2 a Ha)) as (_ & _ & Ec2 & _). cbn [length] in Hlen, Hs. injection Hh as Hh.
  set (m4 := fetch_add m3 (bl_counter l) 1). assert (Cb : bl_offset_in_shm l + 20 <= bl_counter l <= bl_offset_in_shm l + 24) by (destruct (g_ctr G); lia).
  assert (A4 : forall o, is_buf o -> o <> a -> mem_agree (buf_at o) (buf_at o + 20) m m4).
  { intros o Ho Hne. apply (mem_agree_trans _ _ _ m2); [by apply A2|]. apply (mem_agree_trans _ _ _ m3).
    - apply (header_frame_agree _ _ a); [|done..]. apply (mem_frame_weaken (buf_at a + 16) (buf_at a + 17)); [lia|lia|done].
    - apply cell_agree; [done|lia]. }
  assert (K4 : forall c, c <= bl_offset_in_shm l + 16 -> load32 m4 c = load32 m2 c).
  { intros c Hc'. unfold m4, fetch_add, load32, store32. rewrite (load_store_other 4 4) by lia. apply (load_frame 4 _ _ _ _ _ F3). unfold buf_at. lia. }
  assert (K2 : forall c, size_at l + 4 <= c -> c + 4 <= head_at l \/ head_at l + 4 <= c -> load32 m2 c = load32 m c).
  { intros c H1' H2'. rewrite <- K1 by done. unfold m2, load32, store32. apply (load_store_other 4 4). lia. }
  assert (Hne : forall o, o ∈ b :: fl -> o <> a) by (intros o Ho ->; by apply NoDup_cons in Hn as [? _]).
  rewrite Forall_forall in Hb. split; [|split; [|split]].
  - split.
    + rewrite Forall_forall. intros o Ho. apply Hb. by right.
    + by apply NoDup_cons in Hn as [_ ?].
    + cbn [head]. rewrite K4 by (unfold head_at; lia). unfold m2. rewrite load32_store32_same. f_equal. symmetry. apply wrap32_small.
      pose proof (buf_bounds b (Hb b ltac:(right; left))). lia.
    + rewrite K4, K2 by (unfold tail_at, head_at, size_at; lia). rewrite last_cons_cons in Ht. done.
    + destruct (linked_tail _ _ _ _ Hn La Hl) as (b' & fl' & E' & _ & Hl'). apply (linked_frame _ m); [|done].
      intros o Ho. apply A4; [apply Hb; by right|by apply Hne].
    + rewrite K4 by (unfold size_at; lia). unfold m2, load32, store32. rewrite (load_store_other 4 4) by (unfold head_at, size_at; lia).
      unfold m1, fetch_add. change (load 4) with load32. rewrite load32_store32_same, Hs. cbn [length]. rewrite wrap32_small by (unfold W32; lia). lia.
    + rewrite K4, K2 by (unfold cap_at, head_at, size_at; lia). done.
    + rewrite K4, K2 by (unfold cap_per_buffer_at, head_at, size_at; lia). done.
    + intros o Ho. destruct (header_agree _ _ _ (A4 o (Hb o ltac:(by right)) (Hne o Ho))) as (_ & _ & -> & -> & -> & _). apply Hhd. by right.
  - intros x Hx Ho. specialize (Ho a ltac:(left)). unfold m4, fetch_add, store32. rewrite rd_store_out by lia. rewrite F3 by lia.
    unfold m2, store32. rewrite rd_store_out by (unfold head_at; lia). apply F1. unfold size_at. lia.
  - unfold m4, bh_cap, fetch_add. hdr. rewrite (load_store_other 4 4) by (unfold buf_at; lia). rewrite (load_frame 4 _ _ _ _ (buf_at a + 0) F3) by (cbn; lia).
    unfold bh_cap in *. hdr. congruence.
  - rewrite <- Fl3. unfold m4, flag_byte, fetch_add. hdr. apply rd_store_out. unfold buf_at. lia.
Qed.

(** ** push *)

(** Up to the link from the old tail [t], [push] prepares the buffer and makes it the tail. *)
Lemma push_runs (m : mem) (fl : list Z) (b : Z) (s : BufferSlice) :
  is_buf b -> bh_cap (buf_at b) m = cap -> bs_header s = Some (buf_at b) -> bs_offset_in_shm s = buf_at b ->
  exists m2, push l m s = fetch_add (fetch_add (link_next (buf_at (load32 m (tail_at l))) m2 b) (size_at l) 1) (bl_counter l) (-1) /\
    (forall c, c + 4 <= tail_at l \/ tail_at l + 4 <= c -> c <= bl_offset_in_shm l + 32 -> load32 m2 c = load32 m c) /\ load32 m2 (tail_at l) = b /\
    (forall o, is_buf o -> o <> b -> mem_agree (buf_at o) (buf_at o + 20) m m2) /\ list_frame (b :: fl) m m2 /\
    has_next (buf_at b) m2 = false /\ bh_cap (buf_at b) m2 = cap /\ bh_size (buf_at b) m2 = 0 /\ bh_start (buf_at b) m2 = 0.
Proof.
  intros Hbuf Hcap Hsh Hso. pose proof (buf_bounds b Hbuf) as Bb. pose proof (g_region G) as GR. pose proof (g_off G) as GO. pose proof (g_end G) as GE. pose proof (g_cap G) as GC.
  unfold push. pose proof (recycle_spec (buf_at b) m s Hsh) as Hr. destruct (reset_for_recycle m s) as [m1 s']. destruct Hr as (F1 & N1 & C1 & S1 & T1 & ->).
  rewrite Hso. assert (K1 : forall c, c <= bl_offset_in_shm l + 32 -> load32 m1 c = load32 m c).
  { intros c Hc'. apply (cells_frame _ _ _ _ _ F1); [unfold buf_at; lia|done]. }
  replace (wrap32 (buf_at b - bl_region l)) with b by (unfold buf_at; rewrite wrap32_small; lia). rewrite K1 by (unfold tail_at; lia).
  assert (A2 : forall o, is_buf o -> mem_agree (buf_at o) (buf_at o + 20) m1 (store32 m1 (tail_at l) b)) by (intros o Ho; apply cell_agree; [done|unfold tail_at; lia]).
  exists (store32 m1 (tail_at l) b). split; [done|]. split; [|split; [|split; [|split]]].
  - intros c H1 H2. rewrite <- K1 by done. unfold load32, store32. apply (load_store_other 4 4). cbn. lia.
  - rewrite load32_store32_same. apply wrap32_small. lia.
  - intros o Ho Hne. apply (mem_agree_trans _ _ _ m1); [by apply (header_frame_agree _ _ b)|by apply A2].
  - apply (list_frame_trans _ _ m1); [apply (list_frame_header _ _ _ b); [left|done]|apply list_frame_cell; unfold tail_at; lia].
  - destruct (header_agree _ _ _ (A2 b Hbuf)) as (-> & _ & -> & -> & -> & _). by rewrite C1.
Qed.

Lemma push_spec (m : mem) (fl : list Z) (b : Z) (s : BufferSlice) :
  free_list m fl -> is_buf b -> b ∉ fl -> bh_cap (buf_at b) m = cap -> bs_header s = Some (buf_at b) -> bs_offset_in_shm s = buf_at b ->
  free_list (push l m s) (fl ++ [b]) /\ list_frame (b :: fl) m (push l m s).
Proof.
  intros FL Hbuf Hfr Hcap Hsh Hso. pose proof FL as [Hb Hn Hh Ht Hl Hs Hnum Hc Hhd]. pose proof (buf_bounds b Hbuf) as Bb. rewrite Forall_forall in Hb.
  pose proof (g_region G) as GR. pose proof (g_off G) as GO. pose proof (g_end G) as GE. pose proof (g_cap G) as GC.
  destruct (push_runs m fl b s Hbuf Hcap Hsh Hso) as (m2 & -> & K2 & KT & A1 & LF & N2 & C2 & S2 & T2).
  set (t := load32 m (tail_at l)) in *. assert (Htin : t ∈ fl) by (by apply last_Some_elem_of).
  assert (Htb : is_buf t) by (by apply Hb). assert (Htne : t <> b) by (intros ->; done). pose proof (buf_bounds t Htb) as Bt.
  destruct (link_next_spec (buf_at t) b m2 ltac:(lia)) as (F3 & N3 & X3 & C3 & S3 & T3).
  set (m3 := link_next (buf_at t) m2 b) in *. apply (mem_frame_weaken _ _ (buf_at t) (buf_at t + 20)) in F3; [|lia..].
  set (m4 := fetch_add m3 (size_at l) 1). set (m5 := fetch_add m4 (bl_counter l) (-1)).
  assert (Cb : bl_offset_in_shm l + 20 <= bl_counter l <= bl_offset_in_shm l + 24) by (destruct (g_ctr G); lia).
  assert (A5 : forall o, is_buf o -> mem_agree (buf_at o) (buf_at o + 20) m3 m5).
  { intros o Ho. apply (mem_agree_trans _ _ _ m4); apply cell_agree; (done || (unfold size_at; lia)). }
  assert (K : forall c, size_at l + 4 <= c -> c <= bl_offset_in_shm l + 16 -> load32 m5 c = load32 m2 c).
  { intros c H1' H2'. unfold m5, m4, fetch_add. cells. rewrite !(load_store_other 4 4) by lia. apply (load_frame 4 _ _ _ _ _ F3). unfold buf_at. lia. }
  assert (Hbs : forall o, o ∈ fl ++ [b] -> is_buf o) by set_solver.
  assert (Hl' : linked [] m3 (fl ++ [b])).
  { apply (linked_close _ m2 _ _ t b); [| |intros o Ho Hne|done|done].
    - apply NoDup_app. split; [done|]. split; [set_solver|apply NoDup_singleton].
    - apply linked_snoc; [done|done|done|]. apply (linked_frame _ m); [|done]. intros o Ho. apply A1; [by apply Hb|]. by intros ->.
    - apply (header_frame_agree _ _ t); [done|done|by apply Hbs|done]. }
  split; [split|].
  - by apply Forall_forall.
  - apply NoDup_app. split; [done|]. split; [set_solver|apply NoDup_singleton].
  - rewrite K, K2 by (unfold head_at, tail_at, size_at; lia). rewrite head_app. by rewrite Hh.
  - rewrite K, KT, last_snoc by (unfold tail_at, size_at; lia). done.
  - apply (linked_frame _ m3); [|done]. intros o Ho. apply A5. by apply Hbs.
  - unfold m5, m4, fetch_add. unfold load32 at 1. unfold store32 at 1. rewrite (load_store_other 4 4) by (unfold size_at; lia).
    change (load 4) with load32. rewrite load32_store32_same. rewrite (cells_frame _ _ _ _ (size_at l) F3) by (unfold buf_at, size_at; lia).
    rewrite K2 by (unfold size_at, tail_at; lia). rewrite Hs, length_app. cbn [length]. pose proof (bufs_length _ (fl_buf _ _ FL) Hn). pose proof num_small.
    rewrite wrap32_small by (unfold W32; lia). lia.
  - rewrite K, K2 by (unfold cap_at, tail_at, size_at; lia). done.
  - rewrite K, K2 by (unfold cap_per_buffer_at, tail_at, size_at; lia). done.
  - intros o Ho. destruct (header_agree _ _ _ (A5 o (Hbs o Ho))) as (_ & _ & -> & -> & -> & _). apply elem_of_app in Ho as [Ho|Ho%list_elem_of_singleton].
    + destruct (decide (o = t)) as [->|Hne].
      * rewrite C3, S3, T3. destruct (header_agree _ _ _ (A1 t Htb Htne)) as (_ & _ & -> & -> & -> & _). by apply Hhd.
      * destruct (header_agree _ _ _ (header_frame_agree _ _ t o F3 Htb (Hbs o ltac:(set_solver)) Hne)) as (_ & _ & -> & -> & -> & _).
        destruct (header_agree _ _ _ (A1 o (Hbs o ltac:(set_solver)) ltac:(by intros ->))) as (_ & _ & -> & -> & -> & _). by apply Hhd.
    + subst o. destruct (header_agree _ _ _ (header_frame_agree _ _ t b F3 Htb Hbuf ltac:(done))) as (_ & _ & -> & -> & -> & _).
      done.
  - apply (list_frame_trans _ _ m2); [done|].
    apply (list_frame_trans _ _ m3); [apply (list_frame_header _ _ _ t); [by right|done]|].
    apply (list_frame_trans _ _ m4); apply list_frame_cell; unfold size_at; lia.
Qed.

End shape.
