(* ===== verification/LegacyListNew.v ===== *)
(** * Creating and mapping a free list of the older protocols *)

From Stdlib Require Import ZArith Lia.
From stdpp Require Import base numbers list gmap.
From S2P Require Import Prelude Config LegacyBuf LegacyBufFacts.

#[local] Open Scope Z_scope.

(** ** The loop over the buffers *)

Definition buf_offset (cap i : Z) : Z := i * (cap + 20).

(** The buffer at [h] is as [create] leaves one, with or without a successor. *)
Definition fresh_header (m : mem) (h cap : Z) (next : option Z) : Prop :=
  bh_cap h m = cap /\ bh_size h m = 0 /\ bh_start h m = 0 /\
  match next with Some n => has_next h m = true /\ next_buffer_offset h m = n | None => True end.

Lemma fresh_header_agree (m m' : mem) (h cap : Z) (next : option Z) :
  mem_agree h (h + 20) m m' -> fresh_header m h cap next -> fresh_header m' h cap next.
Proof.
  intros Ha (E1 & E2 & E3 & E4). destruct (header_agree _ _ _ Ha) as (Ef & En & Ec & Es & Et & _). unfold fresh_header. rewrite Ec, Es, Et.
  split; [done|]. split; [done|]. split; [done|]. destruct next; [by rewrite Ef, En|done].
Qed.

(** What one round of the loop writes. *)
Lemma init_one (m : mem) (h cap next : Z) (more : bool) :
  0 <= cap < W32 -> 0 <= next < W32 ->
  let m1 := store32 m h cap in
  let m2 := store32 m1 (h + BUFFER_SIZE_OFFSET) 0 in
  let m3 := store32 m2 (h + BUFFER_DATA_START_OFFSET) 0 in
  let m4 := store32 (store32 m3 (h + NEXT_BUFFER_OFFSET) next) (h + BUFFER_FLAG_OFFSET) 0 in
  let m' := if more then store8 m4 (h + BUFFER_FLAG_OFFSET) (Z.lor (flag_byte h m4) HAS_NEXT_BUFFER_FLAG) else m3 in
  mem_frame h (h + 20) m m' /\ fresh_header m' h cap (if more then Some next else None).
Proof.
  intros Hc Hn m1 m2 m3 m4 m'.
  assert (F3 : mem_frame h (h + 20) m m3).
  { apply (mem_frame_trans _ _ m m2); [apply (mem_frame_trans _ _ m m1)|]; unfold m3, m2, m1; unfold store32, BUFFER_SIZE_OFFSET, BUFFER_DATA_START_OFFSET; apply mem_frame_store; lia. }
  assert (E3 : bh_cap h m3 = cap /\ bh_size h m3 = 0 /\ bh_start h m3 = 0).
  { unfold m3, m2, m1, bh_cap, bh_size, bh_start. unfold load32, store32, BUFFER_SIZE_OFFSET, BUFFER_DATA_START_OFFSET, BUFFER_CAP_OFFSET. rewrite Z.add_0_r.
    rewrite !(load_store_other 4 4 _ h) by lia. rewrite (load_store_other 4 4 _ (h + 4) (h + 8)) by lia. rewrite !load_store_same. split; [|done].
    apply (wrap32_small cap Hc). }
  subst m'. destruct more; cbn [fresh_header]; [|by destruct E3 as (? & ? & ?)].
  assert (F4 : mem_frame (h + 12) (h + 20) m3 m4).
  { unfold m4, store32, NEXT_BUFFER_OFFSET, BUFFER_FLAG_OFFSET. eapply mem_frame_trans; apply mem_frame_store; lia. }
  set (m5 := store8 m4 (h + BUFFER_FLAG_OFFSET) _). destruct (flag_store_fields h (Z.lor (flag_byte h m4) HAS_NEXT_BUFFER_FLAG) m4) as (X5 & C5 & S5 & T5).
  split.
  { apply (mem_frame_trans _ _ m m3); [done|]. apply (mem_frame_trans _ _ m3 m4).
    - apply (mem_frame_weaken (h + 12) (h + 20)); [lia|lia|done].
    - apply (mem_frame_weaken (h + 16) (h + 17)); [lia|lia|apply flag_byte_frame]. }
  unfold fresh_header. fold m5 in X5, C5, S5, T5. rewrite X5, C5, S5, T5. destruct E3 as (E1 & E2 & E3). unfold bh_cap, bh_size, bh_start, load32 in *.
  unfold BUFFER_CAP_OFFSET, BUFFER_SIZE_OFFSET, BUFFER_DATA_START_OFFSET in *. rewrite !(load_frame 4 _ _ _ _ _ F4) by lia. split; [done|]. split; [done|]. split; [done|].
  split; [unfold m5; rewrite has_next_store8, Z.lor_spec; apply orb_true_r|].
  unfold m4, next_buffer_offset, NEXT_BUFFER_OFFSET, BUFFER_FLAG_OFFSET, load32. unfold store32 at 1. rewrite (load_store_other 4 4) by lia.
  unfold store32. rewrite load_store_same. by apply wrap32_small.
Qed.

Lemma init_buffers_S (n : nat) (region cap current : Z) (m : mem) :
  init_buffers (S n) region cap current m =
  let next := wrap32 (wrap32 (current + cap) + BUFFER_HEADER_SIZE) in
  let h := region + current in
  let m3 := store32 (store32 (store32 m h cap) (h + BUFFER_SIZE_OFFSET) 0) (h + BUFFER_DATA_START_OFFSET) 0 in
  let m4 := store32 (store32 m3 (h + NEXT_BUFFER_OFFSET) next) (h + BUFFER_FLAG_OFFSET) 0 in
  let more := match n with O => false | S _ => true end in
  init_buffers n region cap next
    (if more then store8 m4 (h + BUFFER_FLAG_OFFSET) (Z.lor (flag_byte h m4) HAS_NEXT_BUFFER_FLAG) else m3).
Proof. by destruct n. Qed.

Lemma init_buffers_spec (n : nat) (region cap current : Z) (m : mem) :
  0 < cap -> 0 <= current -> current + Z.of_nat n * (cap + 20) < W32 ->
  let m' := init_buffers n region cap current m in
  mem_frame (region + current) (region + current + Z.of_nat n * (cap + 20)) m m' /\
  (forall j, 0 <= j < Z.of_nat n -> fresh_header m' (region + current + buf_offset cap j) cap
    (if j <? Z.of_nat n - 1 then Some (current + buf_offset cap (j + 1)) else None)).
Proof.
  intros Hc. revert current m. induction n as [|n IH]; intros current m H0 Hw; [split; [apply mem_frame_refl|intros j; lia]|].
  rewrite init_buffers_S. cbn zeta. unfold BUFFER_HEADER_SIZE.
  rewrite (wrap32_small (current + cap)), wrap32_small by lia. set (next := current + cap + _). set (more := match n with O => false | S _ => true end).
  destruct (init_one m (region + current) cap next more) as [F1 E1]; [lia|lia|]. cbv zeta in F1, E1. set (m1 := if more then _ else _) in *.
  destruct (IH next m1) as [F2 E2]; [lia|lia|]. set (m2 := init_buffers n region cap next m1) in *. split.
  - apply (mem_frame_trans _ _ m m1); [apply (mem_frame_weaken (region + current) (region + current + 20)); [lia|lia|done]|].
    apply (mem_frame_weaken (region + next) (region + next + Z.of_nat n * (cap + 20))); [lia|lia|done].
  - intros j Hj. destruct (Z.eq_dec j 0) as [->|Hne].
    + unfold buf_offset at 1. rewrite Z.mul_0_l, Z.add_0_r. apply (fresh_header_agree m1).
      { apply (outside_agree _ _ _ _ _ _ F2). lia. }
      replace (if 0 <? Z.of_nat (S n) - 1 then Some (current + buf_offset cap (0 + 1)) else None) with (if more then Some next else None); [done|].
      unfold more, buf_offset, next. destruct n; [done|]. destruct (Z.ltb_spec 0 (Z.of_nat (S (S n)) - 1)); [|lia]. f_equal. lia.
    + replace (region + current + buf_offset cap j) with (region + next + buf_offset cap (j - 1)) by (unfold buf_offset, next; lia).
      replace (current + buf_offset cap (j + 1)) with (next + buf_offset cap (j - 1 + 1)) by (unfold buf_offset, next; lia).
      replace (j <? Z.of_nat (S n) - 1) with (j - 1 <? Z.of_nat n - 1) by (destruct (Z.ltb_spec (j - 1) (Z.of_nat n - 1)), (Z.ltb_spec j (Z.of_nat (S n) - 1)); (done || lia)).
      apply E2. lia.
Qed.

(** ** create *)

Definition all_bufs (cap num : Z) : list Z := buf_offset cap <$> seqZ 0 num.

Lemma adj_lookup (l : list Z) (a b : Z) : adj l a b <-> exists i, l !! i = Some a /\ l !! S i = Some b.
Proof.
  split.
  - intros (l1 & l2 & ->). exists (length l1). rewrite lookup_app_r, Nat.sub_diag by lia. split; [done|].
    rewrite lookup_app_r by lia. by replace (S (length l1) - length l1)%nat with 1%nat by lia.
  - intros (i & H1 & H2). exists (take i l), (drop (S (S i)) l).
    rewrite <- (drop_S l b (S i) H2), <- (drop_S l a i H1). by rewrite take_drop.
Qed.

Lemma all_bufs_lookup (cap num : Z) (i : nat) (a : Z) :
  all_bufs cap num !! i = Some a <-> Z.of_nat i < num /\ a = buf_offset cap (Z.of_nat i).
Proof.
  unfold all_bufs. rewrite list_lookup_fmap. split.
  - destruct (seqZ 0 num !! i) as [x|] eqn:E; [|done]. apply lookup_seqZ in E as [-> ?]. cbn. intros [= <-]. split; [lia|f_equal; lia].
  - intros [Hi ->]. assert (seqZ 0 num !! i = Some (0 + Z.of_nat i)) as -> by (apply lookup_seqZ; lia). cbn. by rewrite Z.add_0_l.
Qed.

Lemma all_bufs_nodup (cap num : Z) : 0 < cap -> NoDup (all_bufs cap num).
Proof. intros Hc. apply NoDup_fmap_2_strong; [|apply NoDup_seqZ]. intros x y _ _ E. unfold buf_offset in E. apply Z.mul_reg_r in E; [done|lia]. Qed.

Lemma all_bufs_length (cap num : Z) : 0 <= num -> Z.of_nat (length (all_bufs cap num)) = num.
Proof. intros Hn. unfold all_bufs. rewrite length_fmap, length_seqZ. lia. Qed.

Lemma all_bufs_last (cap num : Z) : 0 < num -> last (all_bufs cap num) = Some (buf_offset cap (num - 1)).
Proof.
  intros Hn. rewrite last_lookup. apply all_bufs_lookup. pose proof (all_bufs_length cap num ltac:(lia)).
  replace (Z.of_nat (Nat.pred (length (all_bufs cap num)))) with (num - 1) by lia. split; [lia|done].
Qed.

Definition new_list (off cap num counter : Z) : BufferList := mkBL off counter (off + 36) (num * (cap + 20)).

Lemma new_list_geom (off cap num counter : Z) :
  0 < num -> 0 < cap -> 0 <= off -> off + 36 + num * (cap + 20) < W32 -> counter = off + 20 \/ counter = off + 24 ->
  bl_geom (new_list off cap num counter) cap num.
Proof. intros. split; cbn; try done; lia. Qed.

Lemma count_small (cap num : Z) :
  0 < num -> 0 < cap -> 36 + num * (cap + 20) < W32 -> count_buffer_list_mem_size num cap = 36 + num * (cap + 20).
Proof.
  intros Hn Hc Hw. unfold count_buffer_list_mem_size, BUFFER_LIST_HEADER_SIZE, BUFFER_HEADER_SIZE.
  rewrite (wrap32_small (cap + _)) by nia. rewrite (wrap32_small (num * _)) by nia. rewrite wrap32_small by nia. lia.
Qed.

(** The links of a fresh list, once the flag of its last buffer is cleared. *)
Lemma fresh_linked (off cap num : Z) (m : mem) (b : BufferList) :
  bl_region b = off -> 0 < num -> 0 < cap ->
  (forall j, 0 <= j < num -> fresh_header m (off + buf_offset cap j) cap (if j <? num - 1 then Some (buf_offset cap (j + 1)) else None)) ->
  has_next (off + buf_offset cap (num - 1)) m = false -> linked b [] m (all_bufs cap num).
Proof.
  intros Hr Hn Hc Hf Hl. split; [apply NoDup_nil_2|set_solver| |].
  - intros x y Hadj _. apply adj_lookup in Hadj as (i & H1 & H2). apply all_bufs_lookup in H1 as [H1 ->], H2 as [H2 ->].
    specialize (Hf (Z.of_nat i) ltac:(lia)). destruct (Z.ltb_spec (Z.of_nat i) (num - 1)); [|lia]. destruct Hf as (_ & _ & _ & Hf).
    unfold buf_at. rewrite Hr. replace (Z.of_nat (S i)) with (Z.of_nat i + 1) by lia. done.
  - intros x Hx. rewrite all_bufs_last in Hx by done. injection Hx as <-. unfold buf_at. by rewrite Hr.
Qed.

(** The cells in front of the buffers, as [create] writes them. *)
Lemma create_cells (b : BufferList) (m : mem) (num cap tail : Z) :
  let off := bl_offset_in_shm b in
  bl_counter b = off + 20 -> 0 <= num < W32 -> 0 <= cap < W32 -> 0 <= tail < W32 ->
  let m0 := store32 (store32 (store32 (store32 (store32 (store32 m (size_at b) num) (cap_at b) num) (head_at b) 0) (tail_at b) tail) (cap_per_buffer_at b) cap) (bl_counter b) 0 in
  load32 m0 off = num /\ load32 m0 (off + 4) = num /\ load32 m0 (off + 8) = 0 /\ load32 m0 (off + 12) = tail /\
  load32 m0 (off + 16) = cap /\ load32 m0 (off + 20) = 0 /\ mem_frame off (off + 36) m m0.
Proof.
  intros off Hctr Hn Hc Ht m0. subst m0. unfold size_at, cap_at, head_at, tail_at, cap_per_buffer_at, load32, store32. fold off. rewrite Hctr.
  do 6 (split; [rewrite ?(load_store_other 4 4) by (cbn; lia); rewrite load_store_same; by apply (wrap32_small _)|]).
  repeat (eapply mem_frame_trans; [|apply mem_frame_store; lia]). apply mem_frame_refl.
Qed.

(** Clearing the flag of the last buffer leaves every header as the loop wrote it. *)
Lemma clear_last (off cap num : Z) (m : mem) :
  let t := off + buf_offset cap (num - 1) in
  0 < num -> 0 < cap ->
  (forall j, 0 <= j < num -> fresh_header m (off + buf_offset cap j) cap (if j <? num - 1 then Some (buf_offset cap (j + 1)) else None)) ->
  let m' := store32 m (t + BUFFER_FLAG_OFFSET) 0 in
  mem_frame (t + 16) (t + 20) m m' /\ has_next t m' = false /\
  (forall j, 0 <= j < num -> fresh_header m' (off + buf_offset cap j) cap (if j <? num - 1 then Some (buf_offset cap (j + 1)) else None)).
Proof.
  intros t Hn Hc E1 m'. assert (F2 : mem_frame (t + 16) (t + 20) m m') by (unfold m', store32, BUFFER_FLAG_OFFSET; apply mem_frame_store; lia).
  split; [done|]. split.
  - unfold has_next, flag_byte, m', store32, BUFFER_FLAG_OFFSET. change (store 4 m (t + 16) 0) with (<[t + 16 := 0]> (store 3 m (t + 16 + 1) 0)). by rewrite rd_insert_eq.
  - intros j Hj. destruct (Z.ltb_spec j (num - 1)) as [Hlt|Hge].
    + apply (fresh_header_agree m).
      * apply (outside_agree _ _ _ _ _ _ F2). unfold t, buf_offset. assert (j * (cap + 20) + (cap + 20) <= (num - 1) * (cap + 20)) by nia. lia.
      * specialize (E1 j Hj). destruct (Z.ltb_spec j (num - 1)); [done|lia].
    + replace j with (num - 1) by lia. fold t. destruct (E1 (num - 1) ltac:(lia)) as (X1 & X2 & X3 & _). fold t in X1, X2, X3.
      unfold fresh_header, bh_cap, bh_size, bh_start, load32, BUFFER_CAP_OFFSET, BUFFER_SIZE_OFFSET, BUFFER_DATA_START_OFFSET in *.
      rewrite !(load_frame 4 _ _ _ _ _ F2) by lia. done.
Qed.

Lemma list_create_spec (num cap : Z) (m : mem) (mem_len off : Z) :
  0 < num -> 0 < cap -> 0 <= off -> off + 36 + num * (cap + 20) <= mem_len < W32 ->
  exists m', list_create num cap m mem_len off = Ok (new_list off cap num (off + 20), m') /\
    free_list (new_list off cap num (off + 20)) cap num m' (all_bufs cap num) /\ load32 m' (off + 20) = 0 /\
    mem_frame off (off + 36 + num * (cap + 20)) m m'.
Proof.
  intros Hn Hc Ho Hm. unfold list_create. destruct (Z.eqb_spec num 0); [lia|]. destruct (Z.eqb_spec cap 0); [lia|]. cbn [orb].
  assert (Hnc : 0 < num * (cap + 20)) by nia.
  rewrite count_small by lia. rewrite (wrap32_small mem_len), (wrap32_small (off + (36 + _))) by lia.
  rewrite !Z.gtb_ltb. unfold BUFFER_LIST_HEADER_SIZE. rewrite (wrap32_small (off + 36)) by lia. destruct (Z.ltb_spec mem_len (off + (36 + num * (cap + 20)))); [lia|].
  destruct (Z.ltb_spec mem_len off); [lia|]. destruct (Z.ltb_spec mem_len (36 + num * (cap + 20))); [lia|]. cbn [orb].
  destruct (Z.leb_spec (off + (36 + num * (cap + 20))) (off + 36)); [lia|]. replace (wrap32 (36 + num * (cap + 20) - 36)) with (num * (cap + 20)) by (rewrite wrap32_small; lia).
  fold (new_list off cap num (off + 20)). set (b := new_list off cap num (off + 20)).
  unfold BUFFER_HEADER_SIZE. rewrite (wrap32_small (cap + _)) by nia. change (cap + (4 + 4 + 4 + 4 + 4)) with (cap + 20).
  rewrite (wrap32_small ((num - 1) * _)) by nia. fold (buf_offset cap (num - 1)).
  set (m0 := store32 (store32 (store32 (store32 (store32 (store32 m _ _) _ _) _ _) _ _) _ _) _ _).
  destruct (create_cells b m num cap (buf_offset cap (num - 1))) as (C1 & C2 & C3 & C4 & C5 & C6 & F0); [done|nia|nia|unfold buf_offset; nia|]. fold m0 in C1, C2, C3, C4, C5, C6, F0. cbn [b new_list bl_offset_in_shm] in C1, C2, C3, C4, C5, C6, F0.
  destruct (init_buffers_spec (Z.to_nat num) (off + 36) cap 0 m0) as [F1 E1]; [done|lia|rewrite Z2Nat.id by lia; lia|].
  rewrite Z2Nat.id in F1, E1 by lia. cbn [bl_region b new_list]. set (m1 := init_buffers _ _ _ _ _) in *. rewrite Z.add_0_r in F1, E1.
  assert (K1 : forall c, c <= off + 32 -> load32 m1 c = load32 m0 c) by (intros c ?; unfold load32; apply (load_frame 4 _ _ _ _ _ F1); lia).
  rewrite K1 by (unfold tail_at; cbn; lia). change (tail_at b) with (off + 12). rewrite C4. set (t := off + 36 + buf_offset cap (num - 1)).
  assert (Ht : off + 36 <= t) by (unfold t, buf_offset; nia). destruct (clear_last (off + 36) cap num m1 Hn Hc) as (F2 & N2 & E2).
  { intros j Hj. specialize (E1 j Hj). rewrite Z.add_0_l in E1. exact E1. }
  fold t in F2, N2, E2. set (m2 := store32 m1 (t + BUFFER_FLAG_OFFSET) 0) in *.
  assert (K2 : forall c, c <= off + 32 -> load32 m2 c = load32 m0 c).
  { intros c ?. rewrite <- K1 by done. unfold load32. apply (load_frame 4 _ _ _ _ _ F2). lia. }
  assert (G : bl_geom b cap num) by (apply new_list_geom; (done || lia || auto)).
  exists m2. split; [done|]. split; [|split].
  - split.
    + apply Forall_forall. intros o Ho'. apply list_elem_of_fmap in Ho' as (i & -> & Hi%elem_of_seqZ). exists i. split; [lia|done].
    + by apply all_bufs_nodup.
    + change (head_at b) with (off + 8). rewrite K2, C3 by lia. rewrite head_lookup. apply all_bufs_lookup. cbn. done.
    + change (tail_at b) with (off + 12). rewrite K2, C4 by lia. by apply all_bufs_last.
    + by apply (fresh_linked (off + 36)).
    + change (size_at b) with off. rewrite K2, C1, all_bufs_length by lia. done.
    + change (cap_at b) with (off + 4). rewrite K2, C2 by lia. done.
    + change (cap_per_buffer_at b) with (off + 16). rewrite K2, C5 by lia. done.
    + intros o Ho'. apply list_elem_of_fmap in Ho' as (i & -> & Hi%elem_of_seqZ). destruct (E2 i ltac:(lia)) as (X1 & X2 & X3 & _). done.
  - rewrite K2, C6 by lia. done.
  - apply (mem_frame_trans _ _ m m0); [apply (mem_frame_weaken off (off + 36)); [lia|lia|done]|].
    apply (mem_frame_trans _ _ m0 m1); [apply (mem_frame_weaken (off + 36) (off + 36 + num * (cap + 20))); [lia|lia|done]|].
    apply (mem_frame_weaken (t + 16) (t + 20)); [lia| |done]. unfold t, buf_offset. nia.
Qed.

(** ** mapping *)

Lemma list_mapping_spec (off cap num counter mem_len : Z) (m : mem) (fl : list Z) :
  let b := new_list off cap num counter in
  bl_geom b cap num -> free_list b cap num m fl -> off + 36 + num * (cap + 20) <= mem_len < W32 ->
  list_mapping m mem_len off = Ok (new_list off cap num (off + 24)).
Proof.
  intros b G FL Hm. pose proof (g_off _ _ _ G) as Ho. pose proof (g_num _ _ _ G) as Hn. pose proof (g_cap _ _ _ G) as Hc. cbn in Ho.
  assert (Hnc : 0 < num * (cap + 20)) by nia.
  unfold list_mapping, BUFFER_LIST_HEADER_SIZE. change (off + 4) with (cap_at b). change (off + 16) with (cap_per_buffer_at b).
  rewrite (fl_num _ _ _ _ _ FL), (fl_cap _ _ _ _ _ FL), count_small by lia. rewrite !wrap32_small by lia. rewrite Z.gtb_ltb.
  destruct (Z.ltb_spec mem_len (off + 36)); [lia|]. destruct (Z.ltb_spec mem_len (off + (36 + num * (cap + 20)))); [lia|].
  destruct (Z.ltb_spec (off + (36 + num * (cap + 20))) (off + 36)); [lia|]. cbn [orb]. unfold new_list. do 2 f_equal. lia.
Qed.
