(* ===== verification/LegacyListConc.v ===== *)
(** * The free list of the older protocols under interleaving ([src/src/buffer/list.rs])

    [push] and [pop] as the sequence of their accesses to shared memory, any number
    of threads of both processes running them on one list.  A handle says where the
    process finds the counter; all else is common.  A thread that holds a buffer may
    write anywhere in it but to its capacity. *)

From Stdlib Require Import ZArith Lia.
From stdpp Require Import base numbers list gmap.
From S2P Require Import Prelude Config LegacyBuf.

#[local] Open Scope Z_scope.

(** [b]: the buffer being pushed, relative to the region; [old]: [old_tail]; [v]: the
    flag byte read by a [|=] or [&=]. *)
Inductive pushpc : Type :=
| PIdle
| PSetSize (b : Z)
| PSetStart (b : Z)
| PUnlinkNext (b : Z)
| PUnlinkRead (b : Z)
| PUnlinkFlag (b v : Z)
| PClear (b : Z)
| PTail (b : Z)
| PCas (b old : Z)
| PLinkNext (b old : Z)
| PLinkRead (b old : Z)
| PLinkFlag (b old v : Z)
| PAddSize
| PSubCounter.

(** [n]: the retries left; [h]: [old_head]. *)
Inductive poppc : Type :=
| QIdle
| QHead
| QSubSize (h : Z)
| QBound (h : Z)
| QHasNext (n : nat) (h : Z)
| QNext (n : nat) (h : Z)
| QCas (n : nat) (h next : Z)
| QLast (n : nat)
| QReload (n : nat)
| QUndo
| QClear (h : Z)
| QUsedRead (h : Z)
| QUsedFlag (h v : Z)
| QAddCounter (h : Z).

Section steps.
Context (l : BufferList).

Definition at_buf (o : Z) : Z := bl_region l + o.

Definition push_step (m : mem) (pc : pushpc) : option (mem * pushpc) :=
  match pc with
  | PIdle => None
  | PSetSize b => Some (set_size (at_buf b) m 0, PSetStart b)
  | PSetStart b => Some (set_start (at_buf b) m 0, PUnlinkNext b)
  | PUnlinkNext b => Some (store32 m (at_buf b + NEXT_BUFFER_OFFSET) 0, PUnlinkRead b)
  | PUnlinkRead b => Some (m, PUnlinkFlag b (flag_byte (at_buf b) m))
  | PUnlinkFlag b v => Some (store8 m (at_buf b + BUFFER_FLAG_OFFSET) (Z.land v (Z.lnot HAS_NEXT_BUFFER_FLAG)), PClear b)
  | PClear b => Some (clear_flag (at_buf b) m, PTail b)
  | PTail b => Some (m, PCas b (load32 m (tail_at l)))
  | PCas b old =>
      if load32 m (tail_at l) =? old then Some (store32 m (tail_at l) b, PLinkNext b old) else Some (m, PTail b)
  | PLinkNext b old => Some (store32 m (at_buf old + NEXT_BUFFER_OFFSET) b, PLinkRead b old)
  | PLinkRead b old => Some (m, PLinkFlag b old (flag_byte (at_buf old) m))
  | PLinkFlag b old v => Some (store8 m (at_buf old + BUFFER_FLAG_OFFSET) (Z.lor v HAS_NEXT_BUFFER_FLAG), PAddSize)
  | PAddSize => Some (fetch_add m (size_at l) 1, PSubCounter)
  | PSubCounter => Some (fetch_add m (bl_counter l) (-1), PIdle)
  end.

Definition enter (n : nat) (h : Z) : poppc := match n with O => QUndo | S n => QHasNext n h end.

(** The third component is the buffer [pop] returns. *)
Definition pop_step (m : mem) (pc : poppc) : option (mem * poppc * option Z) :=
  match pc with
  | QIdle => None
  | QHead => Some (m, QSubSize (load32 m (head_at l)), None)
  | QSubSize h => Some (fetch_add m (size_at l) (-1), if load_i32 m (size_at l) <=? 1 then QUndo else QBound h, None)
  | QBound h =>
      Some (m, if wrap32 (wrap32 (h + BUFFER_HEADER_SIZE) + load32 m (cap_per_buffer_at l)) >? bl_region_len l then QUndo
               else enter retry_limit h, None)
  | QHasNext n h => Some (m, if has_next (at_buf h) m then QNext n h else QLast n, None)
  | QNext n h => Some (m, QCas n h (next_buffer_offset (at_buf h) m), None)
  | QCas n h next =>
      if load32 m (head_at l) =? h then Some (store32 m (head_at l) next, QClear h, None) else Some (m, QReload n, None)
  | QLast n => Some (m, if load_i32 m (size_at l) <=? 1 then QUndo else QReload n, None)
  | QReload n => Some (m, enter n (load32 m (head_at l)), None)
  | QUndo => Some (fetch_add m (size_at l) 1, QIdle, None)
  | QClear h => Some (clear_flag (at_buf h) m, QUsedRead h, None)
  | QUsedRead h => Some (m, QUsedFlag h (flag_byte (at_buf h) m), None)
  | QUsedFlag h v => Some (store8 m (at_buf h + BUFFER_FLAG_OFFSET) (Z.lor v SLICE_IN_USED_FLAG), QAddCounter h, None)
  | QAddCounter h => Some (fetch_add m (bl_counter l) 1, QIdle, Some h)
  end.

End steps.

(** [c_held]: the buffers callers hold. *)
Record cstate : Type := mkC {
  c_mem : mem;
  c_push : list pushpc;
  c_pop : list poppc;
  c_held : list Z;
}.

Inductive action : Type :=
| CallPush (i : nat) (b : Z)
| CallPop (j : nat)
| StepPush (i : nat)
| StepPop (j : nat)
| Use (b a : Z) (bytes : list Z).

(** A caller gives one of its buffers away. *)
Fixpoint remove_one (b : Z) (held : list Z) : option (list Z) :=
  match held with
  | [] => None
  | x :: held => if b =? x then Some held else cons x <$> remove_one b held
  end.

Section machine.
(** The handles of the threads. *)
Context (push_handle pop_handle : nat -> BufferList) (cap : Z).

Definition exec (s : cstate) (act : action) : option cstate :=
  match act with
  | CallPush i b =>
      match c_push s !! i, remove_one b (c_held s) with
      | Some PIdle, Some held => Some (mkC (c_mem s) (<[i := PSetSize b]> (c_push s)) (c_pop s) held)
      | _, _ => None
      end
  | CallPop j =>
      match c_pop s !! j with
      | Some QIdle => Some (mkC (c_mem s) (c_push s) (<[j := QHead]> (c_pop s)) (c_held s))
      | _ => None
      end
  | StepPush i =>
      pc ← c_push s !! i;
      '(m, pc) ← push_step (push_handle i) (c_mem s) pc;
      Some (mkC m (<[i := pc]> (c_push s)) (c_pop s) (c_held s))
  | StepPop j =>
      pc ← c_pop s !! j;
      '(m, pc, got) ← pop_step (pop_handle j) (c_mem s) pc;
      Some (mkC m (c_push s) (<[j := pc]> (c_pop s)) (match got with Some h => h :: c_held s | None => c_held s end))
  | Use b a bytes =>
      let h := bl_region (push_handle 0) + b in
      if bool_decide (b ∈ c_held s) && (h + 4 <=? a) && (a + Z.of_nat (length bytes) <=? h + BUFFER_HEADER_SIZE + cap)
      then Some (mkC (write_bytes (c_mem s) a bytes) (c_push s) (c_pop s) (c_held s))
      else None
  end.

Fixpoint exec_all (s : cstate) (acts : list action) : option cstate :=
  match acts with
  | [] => Some s
  | act :: acts => s ← exec s act; exec_all s acts
  end.

End machine.

(** All threads at rest on a list. *)
Definition at_rest (m : mem) (pushers poppers : nat) (held : list Z) : cstate :=
  mkC m (replicate pushers PIdle) (replicate poppers QIdle) held.
