(* ===== verification/LegacyListInv.v ===== *)
(** * The free list under interleaving: its invariant with one thread popping, and that
    every step keeps it *)

From Stdlib Require Import ZArith Lia.
From stdpp Require Import base numbers list gmap.
From S2P Require Import Prelude Config LegacyBuf LegacyBufFacts LegacyListNew LegacyListConc.

#[local] Open Scope Z_scope.

(** The buffer a [push] owns until it has become the tail, the link it has to set,
    and what the size of the list lacks meanwhile. *)
Definition push_own (pc : pushpc) : list Z :=
  match pc with
  | PSetSize b | PSetStart b | PUnlinkNext b | PUnlinkRead b | PUnlinkFlag b _ | PClear b | PTail b | PCas b _ => [b]
  | _ => []
  end.

Definition push_edge (pc : pushpc) : option (Z * Z) :=
  match pc with
  | PLinkNext b old | PLinkRead b old | PLinkFlag b old _ => Some (old, b)
  | _ => None
  end.

Definition push_owes (pc : pushpc) : nat :=
  match pc with PLinkNext _ _ | PLinkRead _ _ | PLinkFlag _ _ _ | PAddSize => 1 | _ => 0 end.

Definition pop_own (pc : poppc) : list Z :=
  match pc with QClear h | QUsedRead h | QUsedFlag h _ | QAddCounter h => [h] | _ => [] end.

Definition pop_owes (pc : poppc) : nat :=
  match pc with QBound _ | QHasNext _ _ | QNext _ _ | QCas _ _ _ | QLast _ | QReload _ | QUndo => 1 | _ => 0 end.

(** The buffers whose headers matter to a thread. *)
Definition push_at (pc : pushpc) : list Z := push_own pc ++ match push_edge pc with Some (old, _) => [old] | None => [] end.

Section inv.
Context (l : BufferList) (cap num : Z).

Definition push_fact (m : mem) (pc : pushpc) : Prop :=
  match pc with
  | PSetStart b => bh_size (buf_at l b) m = 0
  | PUnlinkNext b | PUnlinkRead b | PUnlinkFlag b _ | PClear b => bh_size (buf_at l b) m = 0 /\ bh_start (buf_at l b) m = 0
  | PTail b | PCas b _ => bh_size (buf_at l b) m = 0 /\ bh_start (buf_at l b) m = 0 /\ has_next (buf_at l b) m = false
  | PLinkRead b old | PLinkFlag b old _ => next_buffer_offset (buf_at l old) m = b
  | _ => True
  end.

Definition pop_fact (m : mem) (fl : list Z) (pc : poppc) : Prop :=
  match pc with
  | QSubSize h | QBound h | QHasNext _ h => head fl = Some h
  | QNext _ h => head fl = Some h /\ has_next (buf_at l h) m = true
  | QCas _ h next => head fl = Some h /\ has_next (buf_at l h) m = true /\ next_buffer_offset (buf_at l h) m = next
  | _ => True
  end.

Record cinv (m : mem) (P : list pushpc) (q : poppc) (held fl : list Z) : Prop := {
  ci_own : fl ++ held ++ (P ≫= push_own) ++ pop_own q ≡ₚ all_bufs cap num;
  ci_head : head fl = Some (load32 m (head_at l));
  ci_tail : last fl = Some (load32 m (tail_at l));
  ci_links : linked l (omap push_edge P) m fl;
  ci_push : Forall (push_fact m) P;
  ci_pop : pop_fact m fl q;
  ci_size : load32 m (size_at l) = wrap32 (Z.of_nat (length fl) - Z.of_nat (sum_list_with push_owes P) - Z.of_nat (pop_owes q));
  ci_num : load32 m (cap_at l) = num;
  ci_cap : load32 m (cap_per_buffer_at l) = cap;
  ci_caps o : is_buf cap num o -> bh_cap (buf_at l o) m = cap;
  ci_clean o : o ∈ fl -> bh_size (buf_at l o) m = 0 /\ bh_start (buf_at l o) m = 0;
}.

Lemma cinv_perm (m : mem) (P P' : list pushpc) (q : poppc) (held held' fl : list Z) :
  P ≡ₚ P' -> held ≡ₚ held' -> cinv m P q held fl -> cinv m P' q held' fl.
Proof.
  intros HP Hh [C1 C2 C3 C4 C5 C6 C7 C8 C9 C10 C11]. split; try done.
  - by rewrite <- HP, <- Hh.
  - apply (linked_perm _ (omap push_edge P)); [by rewrite HP|done].
  - by rewrite <- HP.
  - by rewrite <- HP.
Qed.

Hypothesis G : bl_geom l cap num.

Lemma own_nodup (m : mem) (P : list pushpc) (q : poppc) (held fl : list Z) :
  cinv m P q held fl -> NoDup (fl ++ held ++ (P ≫= push_own) ++ pop_own q) /\
  forall o, o ∈ fl ++ held ++ (P ≫= push_own) ++ pop_own q -> is_buf cap num o.
Proof.
  intros C. pose proof (g_cap _ _ _ G). split; [rewrite (ci_own _ _ _ _ _ C); by apply all_bufs_nodup|].
  intros o. rewrite (ci_own _ _ _ _ _ C). intros Ho. apply list_elem_of_fmap in Ho as (i & -> & Hi%elem_of_seqZ). exists i. split; [lia|done].
Qed.

Lemma fl_nodup_inv (m : mem) (P : list pushpc) (q : poppc) (held fl : list Z) : cinv m P q held fl -> NoDup fl /\ Forall (is_buf cap num) fl.
Proof. intros C. destruct (own_nodup _ _ _ _ _ C) as [Hn Hb]. split; [by apply NoDup_app in Hn as [? _]|]. apply Forall_forall. intros o Ho. apply Hb. set_solver. Qed.

(** What the links of the others rest on lies in the list. *)
Lemma edge_in (m : mem) (P : list pushpc) (q : poppc) (held fl : list Z) (pc : pushpc) (old b : Z) :
  cinv m P q held fl -> pc ∈ P -> push_edge pc = Some (old, b) ->
  old ∈ fl /\ adj fl old b /\ has_next (buf_at l old) m = false /\ is_buf cap num old /\ is_buf cap num b.
Proof.
  intros C Hp He. destruct (lk_open _ _ _ _ (ci_links _ _ _ _ _ C) old b) as [Ha Hf]; [apply list_elem_of_omap; eauto|].
  destruct (adj_in _ _ _ Ha) as [H1 H2]. destruct (fl_nodup_inv _ _ _ _ _ C) as [_ Hb]. rewrite Forall_forall in Hb. repeat split; auto.
Qed.

(** ** Facts that survive a write elsewhere *)

Lemma push_fact_agree (m m' : mem) (pc : pushpc) :
  (forall o, o ∈ push_at pc -> mem_agree (buf_at l o) (buf_at l o + 20) m m') -> push_fact m pc -> push_fact m' pc.
Proof.
  intros Ha. assert (E : forall o, o ∈ push_at pc -> has_next (buf_at l o) m' = has_next (buf_at l o) m /\
    next_buffer_offset (buf_at l o) m' = next_buffer_offset (buf_at l o) m /\ bh_size (buf_at l o) m' = bh_size (buf_at l o) m /\
    bh_start (buf_at l o) m' = bh_start (buf_at l o) m).
  { intros o Ho. destruct (header_agree _ _ _ (Ha o Ho)) as (? & ? & _ & ? & ? & _). done. }
  destruct pc; cbn [push_fact]; try done;
    match goal with |- context [buf_at l ?x] => destruct (E x ltac:(left)) as (E1 & E2 & E3 & E4) end; by rewrite ?E1, ?E2, ?E3, ?E4.
Qed.

Lemma pop_fact_agree (m m' : mem) (fl : list Z) (pc : poppc) :
  (forall h, head fl = Some h -> has_next (buf_at l h) m = true -> mem_agree (buf_at l h) (buf_at l h + 20) m m') ->
  pop_fact m fl pc -> pop_fact m' fl pc.
Proof.
  intros Ha. destruct pc; cbn [pop_fact]; try done.
  - intros [Hh Hn]. destruct (header_agree _ _ _ (Ha h Hh Hn)) as (-> & _). done.
  - intros (Hh & Hn & Hx). destruct (header_agree _ _ _ (Ha h Hh Hn)) as (-> & -> & _). done.
Qed.

(** Only the buffer [o] is written, and not its capacity. *)
Definition writes (o : Z) (m m' : mem) : Prop := mem_frame (buf_at l o + 4) (buf_at l o + 20 + cap) m m'.

Lemma writes_cells (o c : Z) (m m' : mem) : writes o m m' -> is_buf cap num o -> c <= bl_offset_in_shm l + 32 -> load32 m' c = load32 m c.
Proof. intros Hw Ho Hc. pose proof (buf_bounds _ _ _ G o Ho). apply (cells_frame l cap num G _ _ _ _ _ Hw); [unfold buf_at; lia|done]. Qed.

Lemma writes_others (o o' : Z) (m m' : mem) :
  writes o m m' -> is_buf cap num o -> is_buf cap num o' -> o' <> o -> mem_agree (buf_at l o') (buf_at l o' + 20) m m'.
Proof. intros Hw Ho Ho' Hne. apply (outside_agree _ _ _ _ _ _ Hw). pose proof (buf_apart _ _ _ G o o' Ho Ho' ltac:(done)). pose proof (g_cap _ _ _ G). unfold buf_at. lia. Qed.

Lemma writes_caps (o o' : Z) (m m' : mem) : writes o m m' -> is_buf cap num o -> is_buf cap num o' -> bh_cap (buf_at l o') m' = bh_cap (buf_at l o') m.
Proof.
  intros Hw Ho Ho'. destruct (decide (o' = o)) as [->|Hne]; [|by destruct (header_agree _ _ _ (writes_others _ _ _ _ Hw Ho Ho' Hne)) as (_ & _ & ? & _)].
  unfold bh_cap, BUFFER_CAP_OFFSET, load32. apply (load_frame 4 _ _ _ _ _ Hw). lia.
Qed.

(** A write to a list cell leaves all headers as they are. *)
Definition headers_same (m m' : mem) : Prop := forall o, is_buf cap num o -> mem_agree (buf_at l o) (buf_at l o + 20) m m'.

Lemma cell_headers (m : mem) (a v : Z) : a <= bl_offset_in_shm l + 32 -> headers_same m (store32 m a v).
Proof. intros Ha o Ho. by apply (cell_agree l cap num G). Qed.

Lemma at_is_buf (m : mem) (P : list pushpc) (q : poppc) (held fl : list Z) (pc : pushpc) (o : Z) :
  cinv m P q held fl -> pc ∈ P -> o ∈ push_at pc -> is_buf cap num o.
Proof.
  intros C Hpc. unfold push_at. rewrite elem_of_app. destruct (own_nodup _ _ _ _ _ C) as [_ Hb]. intros [Ho|Ho].
  - apply Hb. rewrite !elem_of_app. right; right; left. apply list_elem_of_bind. eauto.
  - destruct (push_edge pc) as [[old b]|] eqn:E; [|set_solver]. apply list_elem_of_singleton in Ho as ->.
    by apply (edge_in _ _ _ _ _ _ _ _ C Hpc E).
Qed.

Lemma facts_same (m m' : mem) (P : list pushpc) (q : poppc) (held fl : list Z) :
  cinv m P q held fl -> headers_same m m' -> Forall (push_fact m') P /\ pop_fact m' fl q.
Proof.
  intros C Hs. destruct (fl_nodup_inv _ _ _ _ _ C) as [_ Hb]. rewrite Forall_forall in Hb. pose proof (ci_push _ _ _ _ _ C) as HP. rewrite Forall_forall in HP. split.
  - apply Forall_forall. intros pc Hpc. apply (push_fact_agree m); [|by apply HP]. intros o Ho. apply Hs. by apply (at_is_buf _ _ _ _ _ _ _ C Hpc).
  - apply (pop_fact_agree m); [|apply (ci_pop _ _ _ _ _ C)]. intros h Hh _. apply Hs, Hb. destruct fl; [done|]. injection Hh as ->. left.
Qed.

(** A step that changes at most the counters: everything about the buffers stands. *)
Lemma cinv_cells (m m' : mem) (P P' : list pushpc) (q q' : poppc) (held held' fl : list Z) :
  cinv m P q held fl -> headers_same m m' ->
  (forall c, c ∈ [head_at l; tail_at l; cap_at l; cap_per_buffer_at l] -> load32 m' c = load32 m c) ->
  held' ++ (P' ≫= push_own) ++ pop_own q' ≡ₚ held ++ (P ≫= push_own) ++ pop_own q ->
  omap push_edge P' = omap push_edge P -> Forall (push_fact m) P' -> pop_fact m fl q' ->
  load32 m' (size_at l) = wrap32 (Z.of_nat (length fl) - Z.of_nat (sum_list_with push_owes P') - Z.of_nat (pop_owes q')) ->
  cinv m' P' q' held' fl.
Proof.
  intros C Hs Hc Hown Hed Hpush Hpop Hsize. destruct (fl_nodup_inv _ _ _ _ _ C) as [Hn Hb]. rewrite Forall_forall in Hb.
  assert (Hown' : fl ++ held' ++ (P' ≫= push_own) ++ pop_own q' ≡ₚ all_bufs cap num) by (rewrite Hown; apply (ci_own _ _ _ _ _ C)).
  assert (Hat : forall pc o, pc ∈ P' -> o ∈ push_at pc -> is_buf cap num o).
  { intros pc o Hpc. unfold push_at. rewrite elem_of_app. intros [Ho|Ho].
    - assert (o ∈ all_bufs cap num) as Ho'.
      { rewrite <- Hown'. rewrite !elem_of_app. right; right; left. apply list_elem_of_bind. eauto. }
      apply list_elem_of_fmap in Ho' as (i & -> & Hi%elem_of_seqZ). exists i. split; [lia|done].
    - destruct (push_edge pc) as [[old b]|] eqn:E; [|set_solver]. apply list_elem_of_singleton in Ho as ->.
      assert (Hin : (old, b) ∈ omap push_edge P) by (rewrite <- Hed; apply list_elem_of_omap; eauto).
      destruct (lk_open _ _ _ _ (ci_links _ _ _ _ _ C) _ _ Hin) as [Ha _]. apply adj_in in Ha as [Ha _]. by apply Hb. }
  split.
  - done.
  - rewrite Hc by set_solver. apply (ci_head _ _ _ _ _ C).
  - rewrite Hc by set_solver. apply (ci_tail _ _ _ _ _ C).
  - rewrite Hed. apply (linked_frame _ _ m); [|apply (ci_links _ _ _ _ _ C)]. intros o Ho. apply Hs. by apply Hb.
  - rewrite Forall_forall in Hpush |- *. intros pc Hpc. apply (push_fact_agree m); [|by apply Hpush]. intros o Ho. apply Hs. by apply (Hat pc).
  - apply (pop_fact_agree m); [|done]. intros h Hh _. apply Hs, Hb. destruct fl; [done|]. injection Hh as ->. left.
  - done.
  - rewrite Hc by set_solver. apply (ci_num _ _ _ _ _ C).
  - rewrite Hc by set_solver. apply (ci_cap _ _ _ _ _ C).
  - intros o Ho. destruct (header_agree _ _ _ (Hs o Ho)) as (_ & _ & -> & _). by apply (ci_caps _ _ _ _ _ C).
  - intros o Ho. destruct (header_agree _ _ _ (Hs o (Hb o Ho))) as (_ & _ & _ & -> & -> & _). by apply (ci_clean _ _ _ _ _ C).
Qed.

(** A write to a buffer that is neither free nor the business of the others. *)
Lemma cinv_private (m m' : mem) (P P' : list pushpc) (q q' : poppc) (held fl : list Z) (o : Z) :
  cinv m P q held fl -> writes o m m' -> is_buf cap num o -> o ∉ fl ->
  (P' ≫= push_own) ++ pop_own q' ≡ₚ (P ≫= push_own) ++ pop_own q ->
  omap push_edge P' = omap push_edge P -> sum_list_with push_owes P' = sum_list_with push_owes P -> pop_owes q' = pop_owes q ->
  Forall (push_fact m') P' -> pop_fact m' fl q' -> cinv m' P' q' held fl.
Proof.
  intros C Hw Ho Hfr Hown Hed Ho1 Ho2 Hpush Hpop. destruct (fl_nodup_inv _ _ _ _ _ C) as [Hn Hb]. rewrite Forall_forall in Hb.
  assert (Hc : forall c, c <= bl_offset_in_shm l + 32 -> load32 m' c = load32 m c) by (intros c Hc; by apply (writes_cells o)).
  assert (Ha : forall x, x ∈ fl -> mem_agree (buf_at l x) (buf_at l x + 20) m m').
  { intros x Hx. apply (writes_others o); [done|done|by apply Hb|]. by intros ->. }
  split; try done.
  - rewrite Hown. apply (ci_own _ _ _ _ _ C).
  - rewrite Hc by (unfold head_at; lia). apply (ci_head _ _ _ _ _ C).
  - rewrite Hc by (unfold tail_at; lia). apply (ci_tail _ _ _ _ _ C).
  - rewrite Hed. apply (linked_frame _ _ m); [done|apply (ci_links _ _ _ _ _ C)].
  - rewrite Hc, Ho1, Ho2 by (unfold size_at; lia). apply (ci_size _ _ _ _ _ C).
  - rewrite Hc by (unfold cap_at; lia). apply (ci_num _ _ _ _ _ C).
  - rewrite Hc by (unfold cap_per_buffer_at; lia). apply (ci_cap _ _ _ _ _ C).
  - intros x Hx. rewrite (writes_caps o x m m') by done. by apply (ci_caps _ _ _ _ _ C).
  - intros x Hx. destruct (header_agree _ _ _ (Ha x Hx)) as (_ & _ & _ & -> & -> & _). by apply (ci_clean _ _ _ _ _ C).
Qed.

(** The others' facts after a write to [o]. *)
Lemma others_kept (m m' : mem) (P : list pushpc) (q : poppc) (held fl : list Z) (R : list pushpc) (o : Z) :
  cinv m P q held fl -> writes o m m' -> is_buf cap num o -> R ⊆ P -> (forall pc, pc ∈ R -> o ∉ push_at pc) -> Forall (push_fact m') R.
Proof.
  intros C Hw Ho HR Hq. apply Forall_forall. intros pc Hpc. pose proof (ci_push _ _ _ _ _ C) as HP. rewrite Forall_forall in HP.
  apply (push_fact_agree m); [|by apply HP, HR]. intros x Hx. apply (writes_others o); [done|done|by apply (at_is_buf _ _ _ _ _ _ _ C (HR _ Hpc))|].
  intros ->. by apply (Hq pc).
Qed.

Lemma pop_fact_kept (m m' : mem) (P : list pushpc) (q : poppc) (held fl : list Z) (o : Z) :
  cinv m P q held fl -> writes o m m' -> is_buf cap num o -> (o ∈ fl -> has_next (buf_at l o) m = false) -> pop_fact m' fl q.
Proof.
  intros C Hw Ho Hq. destruct (fl_nodup_inv _ _ _ _ _ C) as [_ Hb]. rewrite Forall_forall in Hb.
  apply (pop_fact_agree m); [|apply (ci_pop _ _ _ _ _ C)]. intros h Hh Hn. assert (h ∈ fl) by (destruct fl; [done|]; injection Hh as ->; left).
  apply (writes_others o); [done|done|by apply Hb|]. intros ->. rewrite Hq in Hn; done.
Qed.

End inv.

(** ** Every step keeps the invariant *)

Section steps.
Context (l : BufferList) (cap num : Z) (G : bl_geom l cap num).

(** Another handle of the same list. *)
Record same_list (h : BufferList) : Prop := {
  sl_offset : bl_offset_in_shm h = bl_offset_in_shm l;
  sl_region : bl_region h = bl_region l;
  sl_len : bl_region_len h = bl_region_len l;
  sl_counter : bl_counter h = bl_offset_in_shm l + 20 \/ bl_counter h = bl_offset_in_shm l + 24;
}.

Abbreviation inv := (cinv l cap num).

Lemma writes_field (n : nat) (m : mem) (o d v : Z) : 4 <= d -> d + Z.of_nat n <= 20 -> writes l cap o m (store n m (buf_at l o + d) v).
Proof. intros H1 H2. pose proof (g_cap _ _ _ G). apply mem_frame_store; lia. Qed.

Lemma writes_refl (m : mem) (o : Z) : writes l cap o m m.
Proof. apply mem_frame_refl. Qed.

(** ** The buffer a thread owns is nobody else's business *)

Lemma own_private (m : mem) (pc : pushpc) (R : list pushpc) (q : poppc) (held fl : list Z) (o : Z) :
  inv m (pc :: R) q held fl -> push_own pc = [o] -> is_buf cap num o /\ (o ∉ fl) /\ (forall x, x ∈ R -> o ∉ push_at x).
Proof.
  intros C Ho. destruct (own_nodup _ _ _ G _ _ _ _ _ C) as [Hn Hb]. cbn [mbind list_bind] in Hn, Hb. rewrite Ho in Hn, Hb.
  split; [apply Hb; set_solver|]. apply NoDup_app in Hn as (_ & Hd & Hn). apply NoDup_app in Hn as (_ & _ & Hn).
  assert (Hfl : o ∉ fl) by (intros Hin; apply (Hd o Hin); set_solver). split; [done|]. intros x Hx. unfold push_at. rewrite elem_of_app. intros [Hin|Hin].
  - change (([o] ++ (R ≫= push_own)) ++ pop_own q) with (o :: (R ≫= push_own) ++ pop_own q) in Hn. apply NoDup_cons in Hn as [Hn _].
    apply Hn. rewrite elem_of_app. left. apply list_elem_of_bind. eauto.
  - destruct (push_edge x) as [[old b]|] eqn:E; [|set_solver]. apply list_elem_of_singleton in Hin as <-.
    destruct (edge_in _ _ _ G _ _ _ _ _ x o b C ltac:(by right) E) as [? _]. done.
Qed.

Lemma own_step (m m' : mem) (pc pc' : pushpc) (R : list pushpc) (q : poppc) (held fl : list Z) (o : Z) :
  inv m (pc :: R) q held fl -> push_own pc = [o] -> push_own pc' = [o] -> push_edge pc = None -> push_edge pc' = None ->
  push_owes pc = 0%nat -> push_owes pc' = 0%nat -> writes l cap o m m' -> push_fact l m' pc' -> inv m' (pc' :: R) q held fl.
Proof.
  intros C Ho Ho' He He' Hw Hw' Hwr Hf. destruct (own_private _ _ _ _ _ _ _ C Ho) as (Hb & Hfl & HR).
  apply (cinv_private l cap num G m m' (pc :: R) _ q _ _ _ o C Hwr Hb Hfl).
  - cbn [mbind list_bind]. by rewrite Ho, Ho'.
  - cbn. by rewrite He, He'.
  - cbn. by rewrite Hw, Hw'.
  - done.
  - apply Forall_cons. split; [done|]. apply (others_kept l cap num G m m' (pc :: R) q held fl _ o); (done || set_solver).
  - apply (pop_fact_kept l cap num G m m' (pc :: R) q held fl o); done.
Qed.

(** ** The link a thread has to set is its own business *)

Lemma edge_private (m : mem) (pc : pushpc) (R : list pushpc) (q : poppc) (held fl : list Z) (old b : Z) :
  inv m (pc :: R) q held fl -> push_edge pc = Some (old, b) -> forall x, x ∈ R -> old ∉ push_at x.
Proof.
  intros C He x Hx. destruct (edge_in _ _ _ G _ _ _ _ _ pc old b C ltac:(left) He) as (Hin & Hadj & _).
  destruct (fl_nodup_inv _ _ _ G _ _ _ _ _ C) as [Hn _]. unfold push_at. rewrite elem_of_app. intros [Ho|Ho].
  - destruct (own_nodup _ _ _ G _ _ _ _ _ C) as [Hnd _]. apply NoDup_app in Hnd as (_ & Hd & _). apply (Hd old Hin). rewrite !elem_of_app.
    right; left. apply list_elem_of_bind. exists x. split; [done|by right].
  - destruct (push_edge x) as [[old' b']|] eqn:E; [|set_solver]. apply list_elem_of_singleton in Ho as <-.
    destruct (edge_in _ _ _ G _ _ _ _ _ x old b' C ltac:(by right) E) as (_ & Hadj' & _). rewrite (adj_fun _ _ _ _ Hn Hadj' Hadj) in E.
    pose proof (lk_pend _ _ _ _ (ci_links _ _ _ _ _ _ _ _ C)) as Hp. cbn in Hp. rewrite He in Hp. apply NoDup_cons in Hp as [Hp _].
    apply Hp, list_elem_of_omap. eauto.
Qed.

Lemma edge_step (m m' : mem) (pc pc' : pushpc) (R : list pushpc) (q : poppc) (held fl : list Z) (old b : Z) :
  inv m (pc :: R) q held fl -> push_edge pc = Some (old, b) -> push_own pc = [] -> push_own pc' = [] -> push_owes pc' = push_owes pc ->
  writes l cap old m m' -> bh_size (buf_at l old) m' = bh_size (buf_at l old) m -> bh_start (buf_at l old) m' = bh_start (buf_at l old) m ->
  linked l (omap push_edge (pc' :: R)) m' fl -> push_fact l m' pc' -> inv m' (pc' :: R) q held fl.
Proof.
  intros C He Ho Ho' Hw Hwr Hs Ht Hl Hf. destruct (edge_in _ _ _ G _ _ _ _ _ pc old b C ltac:(left) He) as (Hin & Hadj & Hfalse & Hbuf & _).
  destruct (fl_nodup_inv _ _ _ G _ _ _ _ _ C) as [Hn Hb]. rewrite Forall_forall in Hb.
  assert (Hc : forall c, c <= bl_offset_in_shm l + 32 -> load32 m' c = load32 m c) by (intros c Hc; by apply (writes_cells l cap num G old)).
  split.
  - pose proof (ci_own _ _ _ _ _ _ _ _ C) as Hown. cbn [mbind list_bind] in *. by rewrite Ho' ; rewrite Ho in Hown.
  - rewrite Hc by (unfold head_at; lia). apply (ci_head _ _ _ _ _ _ _ _ C).
  - rewrite Hc by (unfold tail_at; lia). apply (ci_tail _ _ _ _ _ _ _ _ C).
  - done.
  - apply Forall_cons. split; [done|]. apply (others_kept l cap num G m m' (pc :: R) q held fl _ old); [done|done|done|set_solver|].
    by apply (edge_private _ _ _ _ _ _ _ _ C He).
  - apply (pop_fact_kept l cap num G m m' (pc :: R) q held fl old); done.
  - rewrite Hc by (unfold size_at; lia). rewrite (ci_size _ _ _ _ _ _ _ _ C). cbn. by rewrite Hw.
  - rewrite Hc by (unfold cap_at; lia). apply (ci_num _ _ _ _ _ _ _ _ C).
  - rewrite Hc by (unfold cap_per_buffer_at; lia). apply (ci_cap _ _ _ _ _ _ _ _ C).
  - intros x Hx. rewrite (writes_caps l cap num G old x m m') by done. by apply (ci_caps _ _ _ _ _ _ _ _ C).
  - intros x Hx. destruct (decide (x = old)) as [->|Hne]; [rewrite Hs, Ht; by apply (ci_clean _ _ _ _ _ _ _ _ C)|].
    destruct (header_agree _ _ _ (writes_others l cap num G old x m m' Hwr Hbuf (Hb x Hx) Hne)) as (_ & _ & _ & -> & -> & _).
    by apply (ci_clean _ _ _ _ _ _ _ _ C).
Qed.

(** Writing behind an open link keeps it open. *)
Lemma linked_open_write (pend : list (Z * Z)) (m m' : mem) (fl : list Z) (a b : Z) :
  NoDup fl -> (a, b) ∈ pend -> linked l pend m fl ->
  (forall o, o ∈ fl -> o <> a -> mem_agree (buf_at l o) (buf_at l o + 20) m m') -> has_next (buf_at l a) m' = false -> linked l pend m' fl.
Proof.
  intros Hn Hab [H1 H2 H3 H4] Ha Hf. destruct (H2 a b Hab) as [Hadj _].
  assert (E : forall o, o ∈ fl -> o <> a -> has_next (buf_at l o) m' = has_next (buf_at l o) m /\
    next_buffer_offset (buf_at l o) m' = next_buffer_offset (buf_at l o) m).
  { intros o Ho Hne. destruct (header_agree _ _ _ (Ha o Ho Hne)) as (? & ? & _). done. }
  split; [done| | |].
  - intros x y Hp. destruct (H2 x y Hp) as [Hxy Hx]. split; [done|]. destruct (decide (x = a)) as [->|Hne]; [done|].
    by destruct (E x (proj1 (adj_in _ _ _ Hxy)) Hne) as [-> _].
  - intros x y Hxy Hp. assert (Hne : x <> a) by (intros ->; by rewrite (adj_fun _ _ _ _ Hn Hxy Hadj) in Hp).
    destruct (E x (proj1 (adj_in _ _ _ Hxy)) Hne) as [-> ->]. by apply H3.
  - intros x Hl. destruct (decide (x = a)) as [->|Hne]; [done|]. destruct (E x (last_Some_elem_of _ _ Hl) Hne) as [-> _]. by apply H4.
Qed.

(** ** The steps of push *)

Lemma fetch_add_wrap (m : mem) (a x d : Z) : load32 m a = wrap32 x -> load32 (fetch_add m a d) a = wrap32 (x + d).
Proof. intros E. unfold fetch_add. rewrite load32_store32_same, E. unfold wrap32. by rewrite Zplus_mod_idemp_l. Qed.

Lemma fetch_add_other (m : mem) (a c d : Z) : c + 4 <= a \/ a + 4 <= c -> load32 (fetch_add m a d) c = load32 m c.
Proof. intros Hd. unfold fetch_add, load32, store32. apply (load_store_other 4 4). cbn. lia. Qed.

Lemma list_cells (c : Z) : c ∈ [head_at l; tail_at l; cap_at l; cap_per_buffer_at l] -> bl_offset_in_shm l + 4 <= c <= bl_offset_in_shm l + 16.
Proof. unfold head_at, tail_at, cap_at, cap_per_buffer_at. rewrite !elem_of_cons. intros [->|[->|[->|[->|[]%elem_of_nil]]]]; lia. Qed.

(** A step that only counts. *)
Lemma count_step (m : mem) (a d : Z) (P P' : list pushpc) (q q' : poppc) (held held' fl : list Z) :
  inv m P q held fl -> a = size_at l \/ bl_offset_in_shm l + 20 <= a <= bl_offset_in_shm l + 24 ->
  held' ++ (P' ≫= push_own) ++ pop_own q' ≡ₚ held ++ (P ≫= push_own) ++ pop_own q ->
  omap push_edge P' = omap push_edge P -> Forall (push_fact l m) P' -> pop_fact l m fl q' ->
  Z.of_nat (sum_list_with push_owes P') + Z.of_nat (pop_owes q') =
    Z.of_nat (sum_list_with push_owes P) + Z.of_nat (pop_owes q) - (if decide (a = size_at l) then d else 0) ->
  inv (fetch_add m a d) P' q' held' fl.
Proof.
  intros C Ha Hown Hed Hpush Hpop Hsz. apply (cinv_cells l cap num G m _ P _ q _ held); try done.
  - apply cell_headers; [done|]. unfold size_at in Ha. lia.
  - intros c Hc%list_cells. apply fetch_add_other. unfold size_at in Ha. lia.
  - pose proof (ci_size _ _ _ _ _ _ _ _ C) as Es. destruct (decide (a = size_at l)) as [->|Hne].
    + rewrite (fetch_add_wrap _ _ _ d Es). f_equal. lia.
    + rewrite fetch_add_other by (unfold size_at in *; lia). rewrite Es. f_equal. lia.
Qed.

(** A step that changes no memory. *)
Lemma look_step (m : mem) (P P' : list pushpc) (q q' : poppc) (held fl : list Z) :
  inv m P q held fl -> (P' ≫= push_own) ++ pop_own q' = (P ≫= push_own) ++ pop_own q ->
  omap push_edge P' = omap push_edge P -> Forall (push_fact l m) P' -> pop_fact l m fl q' ->
  sum_list_with push_owes P' = sum_list_with push_owes P -> pop_owes q' = pop_owes q -> inv m P' q' held fl.
Proof.
  intros C Hown Hed Hpush Hpop Hs1 Hs2. apply (cinv_cells l cap num G m _ P _ q _ held); try done.
  - by rewrite Hown.
  - rewrite Hs1, Hs2. apply (ci_size _ _ _ _ _ _ _ _ C).
Qed.

(** The new tail. *)
Lemma cas_step (m : mem) (b old : Z) (R : list pushpc) (q : poppc) (held fl : list Z) :
  inv m (PCas b old :: R) q held fl -> load32 m (tail_at l) = old -> inv (store32 m (tail_at l) b) (PLinkNext b old :: R) q held (fl ++ [b]).
Proof.
  intros C Ht. destruct (own_private _ _ _ _ _ _ b C eq_refl) as (Hb & Hfl & _). pose proof (buf_bounds _ _ _ G b Hb) as Bb.
  pose proof (g_region _ _ _ G). pose proof (g_off _ _ _ G). pose proof (g_end _ _ _ G). pose proof (g_cap _ _ _ G). destruct (fl_nodup_inv _ _ _ G _ _ _ _ _ C) as [Hn Hbs].
  pose proof (ci_push _ _ _ _ _ _ _ _ C) as Hpush. apply Forall_cons in Hpush as [(Hs & Hst & Hnx) Hpush].
  set (m' := store32 m (tail_at l) b). assert (HS : headers_same l cap num m m') by (apply cell_headers; [done|unfold tail_at; lia]).
  assert (Hc : forall c, c + 4 <= tail_at l \/ tail_at l + 4 <= c -> load32 m' c = load32 m c).
  { intros c Hc. unfold m', load32, store32. apply (load_store_other 4 4). cbn. lia. }
  assert (Hhd : head (fl ++ [b]) = head fl) by (pose proof (ci_head _ _ _ _ _ _ _ _ C); by destruct fl).
  split.
  - rewrite <- (ci_own _ _ _ _ _ _ _ _ C). cbn [mbind list_bind push_own app]. rewrite <- app_assoc. cbn [app].
    rewrite <- (Permutation_middle held ((R ≫= push_own) ++ pop_own q) b). done.
  - rewrite Hhd, Hc by (unfold head_at, tail_at; lia). apply (ci_head _ _ _ _ _ _ _ _ C).
  - rewrite last_snoc. unfold m'. rewrite load32_store32_same, wrap32_small by lia. done.
  - cbn. apply linked_snoc; [by rewrite (ci_tail _ _ _ _ _ _ _ _ C), Ht|done| |].
    + by destruct (header_agree _ _ _ (HS b Hb)) as (-> & _).
    + apply (linked_frame _ _ m); [|apply (ci_links _ _ _ _ _ _ _ _ C)]. intros o Ho. apply HS. rewrite Forall_forall in Hbs. by apply Hbs.
  - destruct (facts_same l cap num G _ _ _ _ _ _ C HS) as [HF _]. apply Forall_cons in HF as [_ HF]. by apply Forall_cons.
  - destruct (facts_same l cap num G _ _ _ _ _ _ C HS) as [_ HF]. by destruct q; cbn [pop_fact] in *; rewrite ?Hhd.
  - rewrite Hc by (unfold size_at, tail_at; lia). rewrite (ci_size _ _ _ _ _ _ _ _ C), length_app. cbn [length sum_list_with push_owes]. f_equal. lia.
  - rewrite Hc by (unfold cap_at, tail_at; lia). apply (ci_num _ _ _ _ _ _ _ _ C).
  - rewrite Hc by (unfold cap_per_buffer_at, tail_at; lia). apply (ci_cap _ _ _ _ _ _ _ _ C).
  - intros o Ho. destruct (header_agree _ _ _ (HS o Ho)) as (_ & _ & -> & _). by apply (ci_caps _ _ _ _ _ _ _ _ C).
  - intros o [Ho|Ho%list_elem_of_singleton]%elem_of_app.
    + rewrite Forall_forall in Hbs. destruct (header_agree _ _ _ (HS o (Hbs o Ho))) as (_ & _ & _ & -> & -> & _). by apply (ci_clean _ _ _ _ _ _ _ _ C).
    + subst o. destruct (header_agree _ _ _ (HS b Hb)) as (_ & _ & _ & -> & -> & _). done.
Qed.

Lemma link_field_store (m : mem) (o v : Z) :
  let m' := store 4 m (buf_at l o + 12) v in
  has_next (buf_at l o) m' = has_next (buf_at l o) m /\ bh_size (buf_at l o) m' = bh_size (buf_at l o) m /\
  bh_start (buf_at l o) m' = bh_start (buf_at l o) m /\ next_buffer_offset (buf_at l o) m' = wrap32 v.
Proof.
  cbn zeta. unfold has_next, flag_byte, bh_size, bh_start, next_buffer_offset, load32, BUFFER_FLAG_OFFSET, BUFFER_SIZE_OFFSET, BUFFER_DATA_START_OFFSET, NEXT_BUFFER_OFFSET.
  rewrite rd_store_out by lia. rewrite !(load_store_other 4 4) by (cbn; lia). rewrite load_store_same. done.
Qed.

Lemma list_push_step_inv (h : BufferList) (m m' : mem) (pc pc' : pushpc) (R : list pushpc) (q : poppc) (held fl : list Z) :
  same_list h -> inv m (pc :: R) q held fl -> push_step h m pc = Some (m', pc') -> exists fl', inv m' (pc' :: R) q held fl'.
Proof.
  intros [Hoff Hreg Hlen Hctr] C. pose proof (g_cap _ _ _ G) as Hcap. pose proof (ci_push _ _ _ _ _ _ _ _ C) as HP. apply Forall_cons in HP as [HP HR].
  assert (Et : tail_at h = tail_at l) by (unfold tail_at; by rewrite Hoff). assert (Es : size_at h = size_at l) by (unfold size_at; by rewrite Hoff).
  assert (Eb : forall o, at_buf h o = buf_at l o) by (intros o; unfold at_buf, buf_at; by rewrite Hreg).
  destruct pc; cbn [push_step]; rewrite ?Et, ?Es, ?Eb; cbn [push_fact] in HP; unfold set_size, set_start, clear_flag, store32, store8;
    unfold BUFFER_SIZE_OFFSET, BUFFER_DATA_START_OFFSET, NEXT_BUFFER_OFFSET, BUFFER_FLAG_OFFSET; [done|intros [= <- <-]; exists fl..| | | | | |].
  - apply (own_step m _ (PSetSize b) (PSetStart b) R q held fl b C); try done; [by apply (writes_field 4); cbn; lia|].
    cbn. unfold bh_size, BUFFER_SIZE_OFFSET, load32. by rewrite load_store_same.
  - apply (own_step m _ (PSetStart b) (PUnlinkNext b) R q held fl b C); try done; [by apply (writes_field 4); cbn; lia|].
    cbn. unfold bh_size, bh_start, BUFFER_SIZE_OFFSET, BUFFER_DATA_START_OFFSET, load32 in *. rewrite load_store_same, (load_store_other 4 4) by (cbn; lia). done.
  - apply (own_step m _ (PUnlinkNext b) (PUnlinkRead b) R q held fl b C); try done; [by apply (writes_field 4); cbn; lia|].
    cbn. unfold bh_size, bh_start, BUFFER_SIZE_OFFSET, BUFFER_DATA_START_OFFSET, load32 in *. rewrite !(load_store_other 4 4) by (cbn; lia). done.
  - by apply (own_step m _ (PUnlinkRead b) (PUnlinkFlag b (flag_byte (buf_at l b) m)) R q held fl b C); try done; apply writes_refl.
  - apply (own_step m _ (PUnlinkFlag b v) (PClear b) R q held fl b C); try done; [by apply (writes_field 1); cbn; lia|].
    destruct (flag_store_fields (buf_at l b) (Z.land v (Z.lnot HAS_NEXT_BUFFER_FLAG)) m) as (_ & _ & E1 & E2).
    cbn [push_fact]. unfold store8, BUFFER_FLAG_OFFSET in E1, E2. by rewrite E1, E2.
  - apply (own_step m _ (PClear b) (PTail b) R q held fl b C); try done; [by apply (writes_field 1); cbn; lia|].
    destruct (flag_store_fields (buf_at l b) 0 m) as (_ & _ & E1 & E2). pose proof (has_next_store8 (buf_at l b) 0 m) as E3.
    cbn [push_fact]. unfold store8, BUFFER_FLAG_OFFSET in E1, E2, E3. rewrite E1, E2, E3. by destruct HP.
  - by apply (own_step m _ (PTail b) (PCas b (load32 m (tail_at l))) R q held fl b C); try done; apply writes_refl.
  - destruct (Z.eqb_spec (load32 m (tail_at l)) old) as [Ht|Ht]; intros [= <- <-].
    + exists (fl ++ [b]). by apply cas_step.
    + exists fl. by apply (own_step m _ (PCas b old) (PTail b) R q held fl b C); try done; apply writes_refl.
  - (* PLinkNext *)
    intros [= <- <-]. exists fl. destruct (edge_in _ _ _ G _ _ _ _ _ _ old b C ltac:(left) eq_refl) as (Hin & Hadj & Hf & Hbo & Hbb).
    destruct (fl_nodup_inv _ _ _ G _ _ _ _ _ C) as [Hn Hbs]. rewrite Forall_forall in Hbs. pose proof (buf_bounds _ _ _ G b Hbb).
    assert (Hw : writes l cap old m (store 4 m (buf_at l old + 12) b)) by (apply (writes_field 4); cbn; lia).
    pose proof (link_field_store m old b) as (E1 & E2 & E3 & E4).
    apply (edge_step m _ (PLinkNext b old) (PLinkRead b old) R q held fl old b C); try done.
    + apply (linked_open_write _ m _ _ old b); [done|cbn; left|apply (ci_links _ _ _ _ _ _ _ _ C)| |congruence].
      intros o Ho Hne. apply (writes_others l cap num G old); auto.
    + cbn [push_fact]. rewrite E4. apply wrap32_small. pose proof (g_region _ _ _ G). pose proof (g_off _ _ _ G). pose proof (g_end _ _ _ G). lia.
  - intros [= <- <-]. exists fl. by apply (look_step m (PLinkRead b old :: R) _ q _ held fl C); try done; [|apply (ci_pop _ _ _ _ _ _ _ _ C)]; apply Forall_cons.
  - (* PLinkFlag *)
    intros [= <- <-]. exists fl. destruct (edge_in _ _ _ G _ _ _ _ _ _ old b C ltac:(left) eq_refl) as (Hin & Hadj & Hf & Hbo & Hbb).
    destruct (fl_nodup_inv _ _ _ G _ _ _ _ _ C) as [Hn Hbs]. rewrite Forall_forall in Hbs.
    assert (Hw : writes l cap old m (store 1 m (buf_at l old + 16) (Z.lor v HAS_NEXT_BUFFER_FLAG))) by (apply (writes_field 1); cbn; lia).
    destruct (flag_store_fields (buf_at l old) (Z.lor v HAS_NEXT_BUFFER_FLAG) m) as (E0 & _ & E1 & E2).
    pose proof (has_next_store8 (buf_at l old) (Z.lor v HAS_NEXT_BUFFER_FLAG) m) as E3. unfold store8, BUFFER_FLAG_OFFSET in E0, E1, E2, E3.
    apply (edge_step m _ (PLinkFlag b old v) PAddSize R q held fl old b C); try done.
    change (omap push_edge (PAddSize :: R)) with (omap push_edge R). apply (linked_close _ (omap push_edge R) m _ _ old b); [done|apply (ci_links _ _ _ _ _ _ _ _ C)| | |congruence].
    + intros o Ho Hne. apply (writes_others l cap num G old); auto.
    + rewrite E3, Z.lor_spec. apply orb_true_r.
  - (* PAddSize *)
    intros [= <- <-]. exists fl. apply (count_step m (size_at l) 1 (PAddSize :: R) _ q _ held _ fl C); try done; [by left| |apply (ci_pop _ _ _ _ _ _ _ _ C)|].
    + by apply Forall_cons.
    + rewrite decide_True by done. cbn [sum_list_with push_owes]. lia.
  - (* PSubCounter *)
    intros [= <- <-]. exists fl. apply (count_step m (bl_counter h) (-1) (PSubCounter :: R) _ q _ held _ fl C); try done; [right; lia| |apply (ci_pop _ _ _ _ _ _ _ _ C)|].
    + by apply Forall_cons.
    + rewrite decide_False by (unfold size_at; lia). cbn [sum_list_with push_owes]. lia.
Qed.

(** ** The steps of pop *)

Lemma pop_own_private (m : mem) (P : list pushpc) (q : poppc) (held fl : list Z) (o : Z) :
  inv m P q held fl -> pop_own q = [o] -> is_buf cap num o /\ (o ∉ fl) /\ (forall x, x ∈ P -> o ∉ push_at x).
Proof.
  intros C Ho. destruct (own_nodup _ _ _ G _ _ _ _ _ C) as [Hn Hb]. rewrite Ho in Hn, Hb. rewrite !app_assoc in Hn.
  apply NoDup_app in Hn as (_ & Hd & _). assert (Hno : o ∉ (fl ++ held) ++ (P ≫= push_own)) by (intros Hin; apply (Hd o Hin); set_solver).
  rewrite !not_elem_of_app in Hno. destruct Hno as [[Hfl Hheld] Hown]. split; [apply Hb; set_solver|]. split; [done|].
  intros x Hx. unfold push_at. rewrite elem_of_app. intros [Hin|Hin]; [apply Hown, list_elem_of_bind; eauto|].
  destruct (push_edge x) as [[old b]|] eqn:E; [|set_solver]. apply list_elem_of_singleton in Hin as <-. by destruct (edge_in _ _ _ G _ _ _ _ _ x o b C Hx E) as [? _].
Qed.

(** Writing the flag of the buffer just popped. *)
Lemma pop_flag_step (m : mem) (P : list pushpc) (q q' : poppc) (held fl : list Z) (h v : Z) :
  inv m P q held fl -> pop_own q = [h] -> pop_own q' = [h] -> pop_owes q' = pop_owes q -> (forall m' fl', pop_fact l m' fl' q') ->
  inv (store8 m (buf_at l h + BUFFER_FLAG_OFFSET) v) P q' held fl.
Proof.
  intros C Ho Ho' Hw Hf. destruct (pop_own_private _ _ _ _ _ _ C Ho) as (Hb & Hfl & HP).
  assert (Hwr : writes l cap h m (store8 m (buf_at l h + BUFFER_FLAG_OFFSET) v)) by (apply (writes_field 1); unfold BUFFER_FLAG_OFFSET; cbn; lia).
  apply (cinv_private l cap num G m _ P _ q _ _ _ h C Hwr Hb Hfl); try done.
  - by rewrite Ho, Ho'.
  - by apply (others_kept l cap num G m _ P q held fl _ h).
Qed.

(** Taking the head off the list. *)
Lemma head_step (m : mem) (P : list pushpc) (n : nat) (h next : Z) (held fl : list Z) :
  inv m P (QCas n h next) held fl -> exists fl', fl = h :: fl' /\ load32 m (head_at l) = h /\ inv (store32 m (head_at l) next) P (QClear h) held fl'.
Proof.
  intros C. destruct (ci_pop _ _ _ _ _ _ _ _ C) as (Hh & Hnx & Hx). destruct (fl_nodup_inv _ _ _ G _ _ _ _ _ C) as [Hn Hbs].
  destruct fl as [|a fl]; [done|]. injection Hh as ->. exists fl. split; [done|].
  destruct (linked_tail _ _ _ _ _ Hn Hnx (ci_links _ _ _ _ _ _ _ _ C)) as (b & fl' & -> & Eb & Hl). assert (next = b) as -> by congruence.
  pose proof (ci_head _ _ _ _ _ _ _ _ C) as Hhd. injection Hhd as Hhd. split; [done|]. rewrite Forall_forall in Hbs.
  pose proof (buf_bounds _ _ _ G b (Hbs b ltac:(right; left))). pose proof (g_region _ _ _ G). pose proof (g_off _ _ _ G). pose proof (g_end _ _ _ G). pose proof (g_cap _ _ _ G).
  set (m' := store32 m (head_at l) b). assert (HS : headers_same l cap num m m') by (apply cell_headers; [done|unfold head_at; lia]).
  assert (Hc : forall c, c + 4 <= head_at l \/ head_at l + 4 <= c -> load32 m' c = load32 m c).
  { intros c Hc. unfold m', load32, store32. apply (load_store_other 4 4). cbn. lia. }
  destruct (facts_same l cap num G _ _ _ _ _ _ C HS) as [HF _]. split; try done.
  - rewrite <- (ci_own _ _ _ _ _ _ _ _ C). cbn [pop_own]. rewrite app_nil_r, !app_assoc. rewrite <- Permutation_cons_append. by rewrite <- !app_assoc.
  - unfold m'. rewrite load32_store32_same, wrap32_small by lia. done.
  - rewrite Hc by (unfold tail_at, head_at; lia). rewrite <- (ci_tail _ _ _ _ _ _ _ _ C). done.
  - apply (linked_frame _ _ m); [|done]. intros o Ho. apply HS, Hbs. by right.
  - rewrite Hc by (unfold size_at, head_at; lia). rewrite (ci_size _ _ _ _ _ _ _ _ C). f_equal. cbn [length pop_owes]. lia.
  - rewrite Hc by (unfold cap_at, head_at; lia). apply (ci_num _ _ _ _ _ _ _ _ C).
  - rewrite Hc by (unfold cap_per_buffer_at, head_at; lia). apply (ci_cap _ _ _ _ _ _ _ _ C).
  - intros o Ho. destruct (header_agree _ _ _ (HS o Ho)) as (_ & _ & -> & _). by apply (ci_caps _ _ _ _ _ _ _ _ C).
  - intros o Ho. destruct (header_agree _ _ _ (HS o (Hbs o ltac:(by right)))) as (_ & _ & _ & -> & -> & _). apply (ci_clean _ _ _ _ _ _ _ _ C). by right.
Qed.

Lemma list_pop_step_inv (h : BufferList) (m m' : mem) (P : list pushpc) (q q' : poppc) (got : option Z) (held fl : list Z) :
  same_list h -> inv m P q held fl -> pop_step h m q = Some (m', q', got) ->
  exists fl', inv m' P q' (match got with Some o => o :: held | None => held end) fl'.
Proof.
  intros [Hoff Hreg Hlen Hctr] C. pose proof (ci_push _ _ _ _ _ _ _ _ C) as HP. pose proof (ci_pop _ _ _ _ _ _ _ _ C) as HQ.
  assert (Eh : head_at h = head_at l) by (unfold head_at; by rewrite Hoff). assert (Es : size_at h = size_at l) by (unfold size_at; by rewrite Hoff).
  assert (Eb : forall o, at_buf h o = buf_at l o) by (intros o; unfold at_buf, buf_at; by rewrite Hreg).
  destruct q; cbn [pop_step]; rewrite ?Eh, ?Es, ?Eb; cbn [pop_fact] in HQ; [done|..].
  - intros [= <- <- <-]. exists fl. apply (look_step m P _ QHead _ held fl C); try done. apply (ci_head _ _ _ _ _ _ _ _ C).
  - intros [= <- <- <-]. exists fl. destruct (load_i32 m (size_at l) <=? 1);
      (apply (count_step m (size_at l) (-1) P _ (QSubSize h0) _ held _ fl C); try done; [by left|]; rewrite decide_True by done; cbn [pop_owes]; lia).
  - intros [= <- <- <-]. exists fl. apply (look_step m P _ (QBound h0) _ held fl C); try done; by case_match.
  - intros [= <- <- <-]. exists fl. apply (look_step m P _ (QHasNext n h0) _ held fl C); try done; by destruct (has_next (buf_at l h0) m) eqn:?.
  - intros [= <- <- <-]. exists fl. apply (look_step m P _ (QNext n h0) _ held fl C); try done. by destruct HQ.
  - destruct (head_step _ _ _ _ _ _ _ C) as (fl' & -> & Hhd & C'). rewrite Hhd, Z.eqb_refl. intros [= <- <- <-]. by exists fl'.
  - intros [= <- <- <-]. exists fl. apply (look_step m P _ (QLast n) _ held fl C); try done; by case_match.
  - intros [= <- <- <-]. exists fl. apply (look_step m P _ (QReload n) _ held fl C); try done; destruct n; try done. apply (ci_head _ _ _ _ _ _ _ _ C).
  - intros [= <- <- <-]. exists fl. apply (count_step m (size_at l) 1 P _ QUndo _ held _ fl C); try done; [by left|].
    rewrite decide_True by done. cbn [pop_owes]. lia.
  - intros [= <- <- <-]. exists fl. by apply (pop_flag_step m P (QClear h0)).
  - intros [= <- <- <-]. exists fl. by apply (look_step m P _ (QUsedRead h0) _ held fl C).
  - intros [= <- <- <-]. exists fl. by apply (pop_flag_step m P (QUsedFlag h0 v)).
  - intros [= <- <- <-]. exists fl. apply (count_step m (bl_counter h) 1 P _ (QAddCounter h0) _ held _ fl C); try done; [right; lia| |].
    + cbn [pop_own app]. rewrite app_nil_r, app_assoc. by rewrite <- Permutation_cons_append.
    + rewrite decide_False by (unfold size_at; lia). cbn [pop_owes]. lia.
Qed.

End steps.
