(* ===== verification/LegacyListTheorems.v ===== *)
(** * What the free list of the older protocols guarantees *)

From Stdlib Require Import ZArith Lia.
From stdpp Require Import base numbers list gmap.
From S2P Require Import Prelude Config LegacyBuf LegacyBufFacts LegacyListNew LegacyListConc LegacyListInv.

#[local] Open Scope Z_scope.

(** ** The steps are the code *)

Fixpoint run_push_steps (l : BufferList) (n : nat) (m : mem) (pc : pushpc) : option (mem * pushpc) :=
  match n with
  | O => Some (m, pc)
  | S n => '(m, pc) ← push_step l m pc; run_push_steps l n m pc
  end.

Fixpoint run_pop_steps (l : BufferList) (n : nat) (m : mem) (pc : poppc) (got : option Z) : option (mem * poppc * option Z) :=
  match n with
  | O => Some (m, pc, got)
  | S n => '(m, pc, got) ← pop_step l m pc; run_pop_steps l n m pc got
  end.

(** [push] is its accesses in a row. *)
Lemma push_micro (l : BufferList) (m : mem) (b : Z) (s : BufferSlice) :
  0 <= b < W32 -> bs_header s = Some (at_buf l b) -> bs_offset_in_shm s = at_buf l b ->
  run_push_steps l 13 m (PSetSize b) = Some (push l m s, PIdle).
Proof.
  intros Hb Hh Ho. unfold push, reset_for_recycle, reset_indices_and_link. rewrite Hh. cbn [bs_header bs_offset_in_shm]. rewrite Ho.
  replace (wrap32 (at_buf l b - bl_region l)) with b by (unfold at_buf; rewrite wrap32_small; lia).
  unfold unlink_next, link_next. fold (at_buf l). cbn [run_push_steps push_step mbind option_bind].
  rewrite Z.eqb_refl. reflexivity.
Qed.

Lemma run_pop_S (l : BufferList) (n : nat) (m m' : mem) (pc pc' : poppc) (got got' : option Z) (r : mem * poppc * option Z) :
  pop_step l m pc = Some (m', pc', got') -> run_pop_steps l n m' pc' got' = Some r -> run_pop_steps l (S n) m pc got = Some r.
Proof. intros E Hr. cbn [run_pop_steps]. rewrite E. exact Hr. Qed.

(** What the steps report for a result of [pop]. *)
Definition got_of (l : BufferList) (r : result ListError BufferSlice) (got : option Z) : Prop :=
  match r, got with
  | Ok s, Some h => bs_header s = Some (at_buf l h)
  | Err NoMoreBuffer, None => True
  | _, _ => False
  end.

Lemma undo_micro (l : BufferList) (m : mem) (got : option Z) : run_pop_steps l 1 m QUndo got = Some (fetch_add m (size_at l) 1, QIdle, None).
Proof. reflexivity. Qed.

Lemma take_micro (l : BufferList) (m : mem) (h : Z) (got : option Z) :
  exists got', run_pop_steps l 4 m (QClear h) got = Some ((take_head l m h).2, QIdle, got') /\ got_of l (Ok (take_head l m h).1) got'.
Proof. eexists. split; [reflexivity|reflexivity]. Qed.

Lemma pop_loop_micro (l : BufferList) (retries : nat) (m : mem) (h : Z) (got : option Z) :
  exists n got', run_pop_steps l n m (enter retries h) got = Some ((pop_loop l retries m h).2, QIdle, got') /\ got_of l (pop_loop l retries m h).1 got'.
Proof.
  revert h got. induction retries as [|k IH]; intros h got; [exists 1%nat; eexists; split; reflexivity|].
  rewrite pop_loop_S. cbn [enter]. change (buf_at l h) with (at_buf l h). destruct (has_next (at_buf l h) m) eqn:En.
  - destruct (Z.eqb_spec (load32 m (head_at l)) h) as [Eh|Eh].
    + destruct (take_micro l (store32 m (head_at l) (next_buffer_offset (at_buf l h) m)) h None) as (got' & Hr & Hg).
      destruct (take_head l (store32 m (head_at l) (next_buffer_offset (at_buf l h) m)) h) as [s m']. exists (S (S (S 4))), got'. split; [|exact Hg].
      eapply run_pop_S; [cbn [pop_step]; rewrite En; reflexivity|]. eapply run_pop_S; [reflexivity|].
      eapply run_pop_S; [cbn [pop_step]; rewrite (proj2 (Z.eqb_eq _ _) Eh); reflexivity|]. exact Hr.
    + destruct (IH (load32 m (head_at l)) None) as (n & got' & Hr & Hg). exists (S (S (S (S n)))), got'. split; [|exact Hg].
      eapply run_pop_S; [cbn [pop_step]; rewrite En; reflexivity|]. eapply run_pop_S; [reflexivity|].
      eapply run_pop_S; [cbn [pop_step]; rewrite (proj2 (Z.eqb_neq _ _) Eh); reflexivity|]. eapply run_pop_S; [reflexivity|exact Hr].
  - destruct (load_i32 m (size_at l) <=? 1) eqn:Es.
    + exists 3%nat, None. split; [|exact I]. eapply run_pop_S; [cbn [pop_step]; rewrite En; reflexivity|].
      eapply run_pop_S; [cbn [pop_step]; rewrite Es; reflexivity|]. reflexivity.
    + destruct (IH (load32 m (head_at l)) None) as (n & got' & Hr & Hg). exists (S (S (S n))), got'. split; [|exact Hg].
      eapply run_pop_S; [cbn [pop_step]; rewrite En; reflexivity|]. eapply run_pop_S; [cbn [pop_step]; rewrite Es; reflexivity|].
      eapply run_pop_S; [reflexivity|exact Hr].
Qed.

(** [pop] is its accesses in a row. *)
Lemma pop_micro (l : BufferList) (m : mem) :
  exists n got, run_pop_steps l n m QHead None = Some ((pop l m).2, QIdle, got) /\ got_of l (pop l m).1 got.
Proof.
  unfold pop. set (m1 := fetch_add m (size_at l) (-1)). destruct (load_i32 m (size_at l) <=? 1) eqn:Es; cbn [orb].
  - exists 3%nat, None. split; [|exact I]. eapply run_pop_S; [reflexivity|]. eapply run_pop_S; [cbn [pop_step]; rewrite Es; reflexivity|]. reflexivity.
  - destruct (_ >? bl_region_len l) eqn:Eb.
    + exists 4%nat, None. split; [|exact I]. eapply run_pop_S; [reflexivity|]. eapply run_pop_S; [cbn [pop_step]; rewrite Es; reflexivity|].
      eapply run_pop_S; [cbn [pop_step]; fold m1; rewrite Eb; reflexivity|]. reflexivity.
    + destruct (pop_loop_micro l retry_limit m1 (load32 m (head_at l)) None) as (n & got' & Hr & Hg). exists (S (S (S n))), got'. split; [|exact Hg].
      eapply run_pop_S; [reflexivity|]. eapply run_pop_S; [cbn [pop_step]; rewrite Es; reflexivity|].
      eapply run_pop_S; [cbn [pop_step]; fold m1; rewrite Eb; reflexivity|]. exact Hr.
Qed.

(** ** One thread at a time *)

(** A free list used by one thread at a time is a FIFO of its buffers that never
    hands out the last one: [create] lists every buffer of the region, the peer maps
    the same list, [pop] returns the first buffer empty, unlinked, marked as used and
    with the whole capacity, or refuses and changes nothing, and [push] appends. *)
Theorem list_fifo (off cap num mem_len : Z) (m0 : mem) :
  0 < num -> 0 < cap -> 0 <= off -> off + 36 + num * (cap + 20) <= mem_len < W32 ->
  exists m, list_create num cap m0 mem_len off = Ok (new_list off cap num (off + 20), m) /\
    mem_frame off (off + 36 + num * (cap + 20)) m0 m /\
    list_mapping m mem_len off = Ok (new_list off cap num (off + 24)) /\
    free_list (new_list off cap num (off + 20)) cap num m (all_bufs cap num) /\
    (forall l m fl, l = new_list off cap num (off + 20) \/ l = new_list off cap num (off + 24) -> free_list l cap num m fl ->
      (exists m', match fl with
       | a :: (_ :: _) as fl' =>
           pop l m = (Ok (fresh_slice l cap a), m') /\ free_list l cap num m' fl' /\ list_frame l [a] m m' /\
           bh_cap (buf_at l a) m' = cap /\ flag_byte (buf_at l a) m' = SLICE_IN_USED_FLAG
       | _ => pop l m = (Err NoMoreBuffer, m') /\ free_list l cap num m' fl /\ list_frame l [] m m'
       end) /\
      (forall b s, is_buf cap num b -> b ∉ fl -> bh_cap (buf_at l b) m = cap -> bs_header s = Some (buf_at l b) -> bs_offset_in_shm s = buf_at l b ->
        free_list l cap num (push l m s) (fl ++ [b]) /\ list_frame l (b :: fl) m (push l m s))).
Proof.
  intros Hn Hc Ho Hm. destruct (list_create_spec num cap m0 mem_len off Hn Hc Ho Hm) as (m & E & FL & _ & F). exists m. split; [done|]. split; [done|].
  assert (G : forall c, c = off + 20 \/ c = off + 24 -> bl_geom (new_list off cap num c) cap num) by (intros c Hc'; apply new_list_geom; (done || lia)).
  split; [apply (list_mapping_spec off cap num (off + 20) mem_len m _ (G _ (or_introl eq_refl)) FL Hm)|]. split; [done|].
  intros l m1 fl Hl FL1. assert (Gl : bl_geom l cap num) by (destruct Hl as [-> | ->]; apply G; auto). split.
  - destruct fl as [|a [|b fl]].
    + destruct FL1 as [_ _ Hh _ _ _ _ _ _]. done.
    + apply (pop_last l cap num Gl m1 a FL1).
    + apply (pop_first l cap num Gl m1 a b fl FL1).
  - intros b s. by apply push_spec.
Qed.

(** ** Many threads, one of them popping *)

Section executions.
Context (l : BufferList) (cap num : Z) (G : bl_geom l cap num).
Context (push_handle pop_handle : nat -> BufferList).
Context (Hpush : forall i, same_list l (push_handle i)) (Hpop : forall j, same_list l (pop_handle j)).

Lemma insert_perm (P : list pushpc) (i : nat) (x y : pushpc) :
  P !! i = Some x -> P ≡ₚ x :: delete i P /\ <[i := y]> P ≡ₚ y :: delete i P.
Proof.
  intros Hi. split; [by apply delete_Permutation|]. pose proof (lookup_lt_Some _ _ _ Hi). rewrite insert_take_drop, delete_take_drop by done.
  by rewrite Permutation_middle.
Qed.

Lemma remove_one_perm (b : Z) (held held' : list Z) : remove_one b held = Some held' -> held ≡ₚ b :: held'.
Proof.
  revert held'. induction held as [|x held IH]; intros held'; cbn [remove_one]; [done|]. destruct (Z.eqb_spec b x) as [->|Hne]; [by intros [= ->]|].
  destruct (remove_one b held) as [h|]; [|done]. cbn. intros [= <-]. rewrite (IH h eq_refl). apply perm_swap.
Qed.

Definition cstate_ok (s : cstate) : Prop := exists q fl, c_pop s = [q] /\ cinv l cap num (c_mem s) (c_push s) q (c_held s) fl.

Lemma call_push_ok (m : mem) (P : list pushpc) (q : poppc) (held held' fl : list Z) (i : nat) (b : Z) :
  cinv l cap num m P q held fl -> P !! i = Some PIdle -> remove_one b held = Some held' -> cinv l cap num m (<[i := PSetSize b]> P) q held' fl.
Proof.
  intros C Hi Hr. destruct (insert_perm P i _ (PSetSize b) Hi) as [H1 H2]. apply remove_one_perm in Hr.
  apply (cinv_perm _ _ _ _ _ _ _ _ _ _ (symmetry H2) (reflexivity held')).
  assert (C1 : cinv l cap num m (PIdle :: delete i P) q (b :: held') fl) by (by apply (cinv_perm _ _ _ _ P _ _ held)).
  apply (cinv_cells l cap num G m m (PIdle :: delete i P) _ q _ (b :: held')); try done.
  - cbn [mbind list_bind push_own app]. by rewrite <- (Permutation_middle held' _ b).
  - pose proof (ci_push _ _ _ _ _ _ _ _ C1) as HP. apply Forall_cons in HP as [_ HP]. by apply Forall_cons.
  - apply (ci_pop _ _ _ _ _ _ _ _ C1).
  - apply (ci_size _ _ _ _ _ _ _ _ C1).
Qed.

Lemma use_ok (m : mem) (P : list pushpc) (q : poppc) (held fl : list Z) (b a : Z) (bytes : list Z) :
  cinv l cap num m P q held fl -> b ∈ held -> buf_at l b + 4 <= a -> a + Z.of_nat (length bytes) <= buf_at l b + 20 + cap ->
  cinv l cap num (write_bytes m a bytes) P q held fl.
Proof.
  intros C Hb H1 H2. destruct (own_nodup _ _ _ G _ _ _ _ _ C) as [Hn Hbs]. apply NoDup_app in Hn as (_ & Hd & Hn). apply NoDup_app in Hn as (_ & Hd2 & _).
  assert (Hfl : b ∉ fl) by (intros Hin; apply (Hd b Hin); set_solver). assert (Hbuf : is_buf cap num b) by (apply Hbs; set_solver).
  assert (Hw : writes l cap b m (write_bytes m a bytes)) by (apply mem_frame_write_bytes; lia).
  apply (cinv_private l cap num G m _ P _ q _ _ _ b C Hw Hbuf Hfl); try done.
  - apply (others_kept l cap num G m _ P q held fl _ b C Hw Hbuf); [done|]. intros x Hx. unfold push_at. rewrite elem_of_app. intros [Hin|Hin].
    + apply (Hd2 b Hb). rewrite elem_of_app. left. apply list_elem_of_bind. eauto.
    + destruct (push_edge x) as [[old b']|] eqn:E; [|set_solver]. apply list_elem_of_singleton in Hin as <-. by destruct (edge_in _ _ _ G _ _ _ _ _ x b b' C Hx E) as [? _].
  - by apply (pop_fact_kept l cap num G m _ P q held fl b C Hw Hbuf).
Qed.

Lemma exec_ok (s s' : cstate) (act : action) : cstate_ok s -> exec push_handle pop_handle cap s act = Some s' -> cstate_ok s'.
Proof.
  intros (q & fl & Hq & C). destruct act as [i b|j|i|j|b a bytes]; cbn [exec].
  - destruct (c_push s !! i) as [[]|] eqn:E; try done. destruct (remove_one b (c_held s)) as [held|] eqn:Er; [|done]. intros [= <-]. exists q, fl. split; [done|].
    by apply (call_push_ok _ _ _ (c_held s)).
  - rewrite Hq. destruct j as [|j]; [|done]. cbn. destruct q; try done. intros [= <-]. exists QHead, fl. split; [done|].
    apply (look_step l cap num G _ (c_push s) _ QIdle _ _ fl C); try done. apply (ci_push _ _ _ _ _ _ _ _ C).
  - destruct (c_push s !! i) as [pc|] eqn:E; [|done]. cbn. destruct (push_step (push_handle i) (c_mem s) pc) as [[m' pc']|] eqn:Es; [|done].
    intros [= <-]. destruct (insert_perm _ i _ pc' E) as [H1 H2].
    destruct (list_push_step_inv l cap num G (push_handle i) _ _ _ _ (delete i (c_push s)) q (c_held s) fl (Hpush i) (cinv_perm _ _ _ _ _ _ _ _ _ _ H1 (reflexivity _) C) Es) as [fl' C'].
    exists q, fl'. split; [done|]. by apply (cinv_perm _ _ _ _ _ _ _ _ _ _ (symmetry H2) (reflexivity _)).
  - rewrite Hq. destruct j as [|j]; [|done]. cbn. destruct (pop_step (pop_handle 0) (c_mem s) q) as [[[m' q'] got]|] eqn:Es; [|done].
    intros [= <-]. destruct (list_pop_step_inv l cap num G (pop_handle 0) _ _ _ _ _ _ _ _ (Hpop 0) C Es) as [fl' C']. by exists q', fl'.
  - destruct (bool_decide_reflect (b ∈ c_held s)); [|done]. cbn [andb]. rewrite (sl_region _ _ (Hpush 0)). fold (buf_at l b).
    destruct (Z.leb_spec (buf_at l b + 4) a); [|done]. cbn [andb]. destruct (Z.leb_spec (a + Z.of_nat (length bytes)) (buf_at l b + BUFFER_HEADER_SIZE + cap)); [|done].
    intros [= <-]. exists q, fl. split; [done|]. by apply (use_ok _ _ _ _ _ b).
Qed.

Lemma exec_all_ok (s s' : cstate) (acts : list action) : cstate_ok s -> exec_all push_handle pop_handle cap s acts = Some s' -> cstate_ok s'.
Proof.
  revert s. induction acts as [|act acts IH]; intros s Hs; cbn [exec_all]; [by intros [= <-]|].
  destruct (exec push_handle pop_handle cap s act) as [s1|] eqn:E; [|done]. cbn. apply IH. by apply (exec_ok s s1 act).
Qed.

Lemma idle_parts (n : nat) : (replicate n PIdle ≫= push_own) = [] /\ omap push_edge (replicate n PIdle) = [] /\ sum_list_with push_owes (replicate n PIdle) = 0%nat.
Proof. induction n as [|n (E1 & E2 & E3)]; [done|]. cbn [replicate]. cbn. rewrite E2. done. Qed.

Lemma rest_inv (m : mem) (n : nat) (fl held : list Z) :
  free_list l cap num m fl -> fl ++ held ≡ₚ all_bufs cap num -> (forall o, o ∈ held -> bh_cap (buf_at l o) m = cap) ->
  cinv l cap num m (replicate n PIdle) QIdle held fl.
Proof.
  intros FL Hown Hcaps. destruct (idle_parts n) as (E1 & E2 & E3). split.
  - rewrite E1. cbn [pop_own]. by rewrite !app_nil_r.
  - apply (fl_head _ _ _ _ _ FL).
  - apply (fl_tail _ _ _ _ _ FL).
  - rewrite E2. apply (fl_links _ _ _ _ _ FL).
  - apply Forall_forall. intros pc Hpc. apply elem_of_replicate in Hpc as [-> _]. done.
  - done.
  - rewrite E3, (fl_size _ _ _ _ _ FL). cbn. rewrite !Z.sub_0_r. symmetry. apply wrap32_small.
    pose proof (bufs_length _ _ _ G fl (fl_buf _ _ _ _ _ FL) (fl_nodup _ _ _ _ _ FL)). pose proof (num_small _ _ _ G). unfold W32. lia.
  - apply (fl_num _ _ _ _ _ FL).
  - apply (fl_cap _ _ _ _ _ FL).
  - intros o (i & Hi & ->). assert (Hin : i * (cap + 20) ∈ fl ++ held).
    { rewrite Hown. apply list_elem_of_fmap. exists i. split; [done|]. apply elem_of_seqZ. lia. }
    apply elem_of_app in Hin as [Hin|Hin]; [by apply (fl_hdr _ _ _ _ _ FL)|by apply Hcaps].
  - intros o Ho. by apply (fl_hdr _ _ _ _ _ FL).
Qed.

Lemma rest_free (m : mem) (P : list pushpc) (fl held : list Z) :
  cinv l cap num m P QIdle held fl -> Forall (eq PIdle) P -> free_list l cap num m fl /\ fl ++ held ≡ₚ all_bufs cap num.
Proof.
  intros C Hi. assert (E : P = replicate (length P) PIdle) by (symmetry; apply replicate_as_elem_of; split; [done|]; intros x Hx; rewrite Forall_forall in Hi; by symmetry; apply Hi).
  rewrite E in C. destruct (idle_parts (length P)) as (E1 & E2 & E3).
  destruct (fl_nodup_inv _ _ _ G _ _ _ _ _ C) as [Hn Hb]. split.
  - split; try done.
    + apply (ci_head _ _ _ _ _ _ _ _ C).
    + apply (ci_tail _ _ _ _ _ _ _ _ C).
    + pose proof (ci_links _ _ _ _ _ _ _ _ C) as Hl. by rewrite E2 in Hl.
    + rewrite (ci_size _ _ _ _ _ _ _ _ C), E3. cbn. rewrite !Z.sub_0_r. apply wrap32_small.
      pose proof (bufs_length _ _ _ G fl Hb Hn). pose proof (num_small _ _ _ G). unfold W32. lia.
    + apply (ci_num _ _ _ _ _ _ _ _ C).
    + apply (ci_cap _ _ _ _ _ _ _ _ C).
    + intros o Ho. split; [apply (ci_caps _ _ _ _ _ _ _ _ C); rewrite Forall_forall in Hb; by apply Hb|by apply (ci_clean _ _ _ _ _ _ _ _ C)].
  - pose proof (ci_own _ _ _ _ _ _ _ _ C) as Ho. rewrite E1 in Ho. cbn [pop_own] in Ho. by rewrite !app_nil_r in Ho.
Qed.

End executions.

(** C27. With one thread popping and any number of threads of both processes pushing,
    however their accesses interleave and whatever the holders write into their
    buffers, no buffer is ever handed out while somebody holds it, and whenever all
    threads are at rest the free list is intact and every buffer of the region is
    either free or held. *)
Theorem list_one_popper (l : BufferList) (cap num : Z) (push_handle pop_handle : nat -> BufferList) (m : mem) (pushers : nat)
    (fl held : list Z) (acts : list action) (s : cstate) :
  bl_geom l cap num -> (forall i, same_list l (push_handle i)) -> (forall j, same_list l (pop_handle j)) ->
  free_list l cap num m fl -> fl ++ held ≡ₚ all_bufs cap num -> (forall o, o ∈ held -> bh_cap (buf_at l o) m = cap) ->
  exec_all push_handle pop_handle cap (at_rest m pushers 1 held) acts = Some s ->
  NoDup (c_held s) /\ (forall o, o ∈ c_held s -> is_buf cap num o) /\
  (Forall (eq PIdle) (c_push s) -> c_pop s = [QIdle] ->
   exists fl', free_list l cap num (c_mem s) fl' /\ fl' ++ c_held s ≡ₚ all_bufs cap num).
Proof.
  intros G Hpush Hpop FL Hown Hcaps Hex. destruct (exec_all_ok l cap num G push_handle pop_handle Hpush Hpop (at_rest m pushers 1 held) s acts) as (q & fl' & Hq & C); [|done|].
  { exists QIdle, fl. split; [done|]. by apply rest_inv. }
  destruct (own_nodup _ _ _ G _ _ _ _ _ C) as [Hn Hb]. split; [|split].
  - apply NoDup_app in Hn as (_ & _ & Hn). by apply NoDup_app in Hn as (? & _).
  - intros o Ho. apply Hb. set_solver.
  - intros Hi Hqi. rewrite Hq in Hqi. injection Hqi as ->. exists fl'. by apply (rest_free l cap num G _ (c_push s)).
Qed.

(** ** Two threads popping *)

Definition aba_list : BufferList := new_list 0 12 4 20.

Definition aba_mem : mem := match list_create 4 12 ∅ 200 0 with Ok (_, m) => m | Err _ => ∅ end.

Definition run_pop (j : nat) : list action := CallPop j :: replicate 10 (StepPop j).

Definition run_push (b : Z) : list action := CallPush 0 b :: replicate 13 (StepPush 0).

(** The first thread stops before its exchange of the head.  Meanwhile the second one
    pops and pushes until the old head is the head again, and the exchange succeeds
    with a successor that is held.  Once its holder has linked it into a message, it
    is handed out a second time. *)
Definition aba_schedule : list action :=
  CallPop 0 :: replicate 5 (StepPop 0) ++
  run_pop 1 ++ run_pop 1 ++ run_push 0 ++ run_pop 1 ++ run_push 64 ++ run_pop 1 ++
  replicate 5 (StepPop 0) ++ run_push 96 ++ [Use 32 80 [64; 0; 0; 0]; Use 32 84 [3]] ++ run_pop 1.

(** The exclusion of [list_one_popper] is needed: with two threads in [pop] a buffer
    is handed out while it is held. *)
Lemma pop_aba :
  exists s, exec_all (fun _ => aba_list) (fun _ => aba_list) 12 (at_rest aba_mem 1 2 []) aba_schedule = Some s /\
    c_held s = [32; 0; 32] /\ c_push s = [PIdle] /\ c_pop s = [QIdle; QIdle].
Proof. eexists. split; [vm_compute; reflexivity|]. repeat split; vm_compute; reflexivity. Qed.

(** ** The counter *)

(** Creator and mapper keep the count of buffers in use in different cells: a buffer
    popped by one side and pushed back by the other leaves both counts off for good. *)
Lemma counters_diverge :
  exists m s m', list_create 4 12 ∅ 200 0 = Ok (new_list 0 12 4 20, m) /\ list_mapping m 200 0 = Ok (new_list 0 12 4 24) /\
    pop (new_list 0 12 4 20) m = (Ok s, m') /\
    load_i32 (push (new_list 0 12 4 24) m' s) (bl_counter (new_list 0 12 4 20)) = 1 /\
    load_i32 (push (new_list 0 12 4 24) m' s) (bl_counter (new_list 0 12 4 24)) = -1.
Proof. do 3 eexists. split; [vm_compute; reflexivity|]. split; [vm_compute; reflexivity|]. split; [vm_compute; reflexivity|]. split; vm_compute; reflexivity. Qed.

(** ** Witnesses *)

Lemma list_fifo_witness : exists m, list_create 4 12 ∅ 200 0 = Ok (new_list 0 12 4 20, m) /\ list_mapping m 200 0 = Ok (new_list 0 12 4 24).
Proof.
  destruct (list_fifo 0 12 4 200 ∅) as (m & H1 & _ & H2 & _); [lia|lia|lia|unfold W32; lia|]. exists m. split; [exact H1|exact H2].
Defined.

Definition sample_acts : list action := run_pop 0 ++ run_pop 0 ++ [Use 0 52 [1; 0; 0; 0]; CallPush 0 0; CallPop 0; StepPush 0; StepPop 0].

Definition sample_cstate : cstate :=
  default (at_rest aba_mem 2 1 []) (exec_all (fun _ => aba_list) (fun _ => new_list 0 12 4 24) 12 (at_rest aba_mem 2 1 []) sample_acts).

Lemma list_one_popper_witness : c_held sample_cstate = [32] /\ NoDup (c_held sample_cstate).
Proof.
  split; [vm_compute; reflexivity|].
  destruct (list_create_spec 4 12 ∅ 200 0) as (m & E & FL & _); [lia|lia|lia|unfold W32; lia|].
  assert (Em : aba_mem = m) by (unfold aba_mem; rewrite E; reflexivity).
  apply (list_one_popper aba_list 12 4 (fun _ => aba_list) (fun _ => new_list 0 12 4 24) aba_mem 2 (all_bufs 12 4) [] sample_acts sample_cstate).
  - apply new_list_geom; (lia || (unfold W32; lia)).
  - intros i. split; [reflexivity|reflexivity|reflexivity|left; reflexivity].
  - intros j. split; [reflexivity|reflexivity|reflexivity|right; reflexivity].
  - rewrite Em. exact FL.
  - rewrite app_nil_r. reflexivity.
  - intros o Ho. inversion Ho.
  - vm_compute. reflexivity.
Defined.
