(* ===== verification/LegacyManager.v ===== *)
(** * The buffer manager of the older protocols ([src/src/buffer/manager.rs])

    A mapping holds one free list per slice size behind a header of eight bytes.
    The creating process lays the lists out, the peer maps them; both allocate from
    them and recycle into them.  The manager of a path is shared by the sessions of a
    process through a registry that counts them. *)

From Stdlib Require Import ZArith Lia.
From stdpp Require Import base numbers list gmap.
From S2P Require Import Prelude Fixed Config LegacyBuf.

#[local] Open Scope Z_scope.

Definition BUFFER_MANAGER_HEADER_SIZE : Z := 8.

Definition BM_CAP_OFFSET : Z := 4.

(** [bm_len]: the length of the mapping. *)
Record BufferManager : Type := mkBM {
  bm_lists : list BufferList;
  bm_len : Z;
  bm_min : Z;
  bm_max : Z;
}.

(** [BmPanic]: the division by a size whose header wraps to zero, and the lookup of
    the first of no sizes. *)
Inductive BmError : Type :=
| BmTooSmall
| BmPercent
| BmList (e : ListError)
| BmPanic.

(** ** create and mapping *)

Fixpoint create_lists (pairs : list SizePercentPair) (region_cap sum_percent : Z) (m : mem) (mem_len had_used : Z) :
    result BmError (list BufferList * mem * Z) :=
  match pairs with
  | [] => Ok ([], m, had_used)
  | sp :: pairs =>
      let sum_percent := wrap32 (sum_percent + sp_percent sp) in
      if sum_percent >? 100 then Err BmPercent
      else if wrap32 (sp_bytes sp + BUFFER_HEADER_SIZE) =? 0 then Err BmPanic
      else
        let buffer_num := wrap32 (region_cap * sp_percent sp / 100) / wrap32 (sp_bytes sp + BUFFER_HEADER_SIZE) in
        let need_size := count_buffer_list_mem_size buffer_num (sp_bytes sp) in
        match list_create buffer_num (sp_bytes sp) m mem_len had_used with
        | Err e => Err (BmList e)
        | Ok (free_list, m) =>
            match create_lists pairs region_cap sum_percent m mem_len (wrap32 (had_used + need_size)) with
            | Err e => Err e
            | Ok (lists, m, used) => Ok (free_list :: lists, m, used)
            end
        end
  end.

Definition bm_create (pairs : list SizePercentPair) (m : mem) (mem_len offset : Z) : result BmError (BufferManager * mem) :=
  if mem_len <=? offset then Err BmTooSmall
  else
    let n := Z.of_nat (length pairs) in
    let buffer_region_cap := wrap32 (wrap32 mem_len - offset - BUFFER_LIST_HEADER_SIZE * n - BUFFER_MANAGER_HEADER_SIZE) in
    let m := store 2 m offset n in
    match create_lists pairs buffer_region_cap 0 m mem_len (BUFFER_MANAGER_HEADER_SIZE + offset) with
    | Err e => Err e
    | Ok (lists, m, had_used) =>
        let m := store32 m (offset + BM_CAP_OFFSET) (wrap32 (had_used - BUFFER_MANAGER_HEADER_SIZE)) in
        match head pairs, last pairs with
        | Some p, Some q => Ok (mkBM lists mem_len (sp_bytes p) (sp_bytes q), m)
        | _, _ => Err BmPanic
        end
    end.

Fixpoint mapping_lists (n : nat) (m : mem) (mem_len start had_used : Z) : result BmError (list BufferList) :=
  match n with
  | O => Ok []
  | S n =>
      match list_mapping m mem_len (wrap32 (start + had_used)) with
      | Err e => Err (BmList e)
      | Ok l =>
          let size := count_buffer_list_mem_size (load32 m (cap_at l)) (load32 m (cap_per_buffer_at l)) in
          match mapping_lists n m mem_len start (wrap32 (had_used + size)) with
          | Err e => Err e
          | Ok lists => Ok (l :: lists)
          end
      end
  end.

Definition bm_mapping (m : mem) (mem_len start : Z) : result BmError BufferManager :=
  if (mem_len <=? wrap32 (start + BM_CAP_OFFSET)) || (mem_len <=? start) then Err BmTooSmall
  else
    let list_num := load 2 m start in
    let length := load32 m (start + BM_CAP_OFFSET) in
    if (mem_len <? wrap32 (BUFFER_MANAGER_HEADER_SIZE + length)) || (list_num =? 0) then Err BmTooSmall
    else
      match mapping_lists (Z.to_nat list_num) m mem_len start BUFFER_MANAGER_HEADER_SIZE with
      | Err e => Err e
      | Ok lists =>
          match head lists, last lists with
          | Some a, Some b => Ok (mkBM lists mem_len (load32 m (cap_per_buffer_at a)) (load32 m (cap_per_buffer_at b)))
          | _, _ => Err BmPanic
          end
      end.

(** ** Allocation *)

Fixpoint alloc_from (lists : list BufferList) (m : mem) (size : Z) : result ListError BufferSlice * mem :=
  match lists with
  | [] => (Err NoMoreBuffer, m)
  | l :: lists =>
      if size <=? load32 m (cap_per_buffer_at l) then
        match pop l m with
        | (Ok buf, m) => (Ok buf, m)
        | (Err NoMoreBuffer, m) => alloc_from lists m size
        | (Err e, m) => (Err e, m)
        end
      else alloc_from lists m size
  end.

Definition alloc_shm_buffer (bm : BufferManager) (m : mem) (size : Z) : result ListError BufferSlice * mem :=
  if size <=? bm_max bm then alloc_from (bm_lists bm) m size else (Err NoMoreBuffer, m).

(** The inner loop of [alloc_shm_buffers]: pop from one list while bytes are wanted. *)
Fixpoint pop_many (fuel : nat) (l : BufferList) (m : mem) (remain : Z) : list BufferSlice * Z * mem :=
  match fuel with
  | O => ([], remain, m)
  | S fuel =>
      if remain <=? 0 then ([], remain, m)
      else
        match pop l m with
        | (Ok buf, m) =>
            let '(bufs, remain, m) := pop_many fuel l m (remain - bs_cap buf) in
            (buf :: bufs, remain, m)
        | (Err _, m) => ([], remain, m)
        end
  end.

(** The outer loop, from the largest slices down; [lists] are reversed. *)
Fixpoint pop_lists (fuel : nat) (lists : list BufferList) (m : mem) (remain : Z) : list BufferSlice * Z * mem :=
  match lists with
  | [] => ([], remain, m)
  | l :: lists =>
      if remain <=? 0 then ([], remain, m)
      else
        let '(bufs, remain, m) := pop_many fuel l m remain in
        let '(more, remain, m) := pop_lists fuel lists m remain in
        (bufs ++ more, remain, m)
  end.

(** The slices pushed to the list, and the bytes allocated. *)
Definition alloc_shm_buffers (bm : BufferManager) (m : mem) (size : Z) : list BufferSlice * Z * mem :=
  let '(bufs, remain, m) := pop_lists (Z.to_nat size) (reverse (bm_lists bm)) m size in
  (bufs, size - remain, m).

(** ** Recycling *)

Fixpoint recycle_into (lists : list BufferList) (m : mem) (s : BufferSlice) : mem :=
  match lists with
  | [] => m
  | l :: lists => if bs_cap s =? load32 m (cap_per_buffer_at l) then push l m s else recycle_into lists m s
  end.

(** The memory of a slice that is not shared goes back to the allocator of the process. *)
Definition recycle_buffer (bm : BufferManager) (m : mem) (s : BufferSlice) : mem :=
  if bs_from_shm s then
    match bs_header s with
    | None => m
    | Some _ => recycle_into (bm_lists bm) m s
    end
  else m.

Definition read_buffer_slice (bm : BufferManager) (m : mem) (offset : Z) : option BufferSlice :=
  if wrap32 (offset + BUFFER_HEADER_SIZE) >=? bm_len bm then None
  else
    let buf_cap := load32 m (offset + BUFFER_CAP_OFFSET) in
    let buf_end_offset := wrap32 (wrap32 (offset + BUFFER_HEADER_SIZE) + buf_cap) in
    if buf_end_offset >? wrap32 (bm_len bm) then None
    else
      let start := wrap32 (offset + BUFFER_HEADER_SIZE) in
      Some (slice_new m (Some offset) start (wrap32 (buf_end_offset - start)) offset true).

(** The loop of [recycle_buffers]; [None] when the fuel runs out, and for a slice
    without a header, whose [unwrap] panics. *)
Fixpoint recycle_chain (fuel : nat) (bm : BufferManager) (m : mem) (s : BufferSlice) : option mem :=
  match fuel with
  | O => None
  | S fuel =>
      h ← bs_header s;
      if negb (has_next h m) then Some (recycle_buffer bm m s)
      else
        let next_slice_offset := next_buffer_offset h m in
        let m := recycle_buffer bm m s in
        match read_buffer_slice bm m next_slice_offset with
        | Some s => recycle_chain fuel bm m s
        | None => Some m
        end
  end.

Definition recycle_buffers (fuel : nat) (bm : BufferManager) (m : mem) (s : BufferSlice) : option mem :=
  if bs_from_shm s then recycle_chain fuel bm m s else Some m.

(** ** What the manager reports *)

Definition bm_remain_size (bm : BufferManager) (m : mem) : Z :=
  fold_left (fun result l =>
    let remain := load_i32 m (size_at l) * load32 m (cap_per_buffer_at l) in
    if remain >? 0 then wrap32 (result + wrap32 remain) else result) (bm_lists bm) 0.

Definition bm_slice_size (bm : BufferManager) (m : mem) : Z := fold_left (fun size l => size + load_i32 m (size_at l)) (bm_lists bm) 0.

Definition check_buffer_returned (bm : BufferManager) (m : mem) : bool :=
  forallb (fun l => (load_i32 m (size_at l) =? to_i32 (load32 m (cap_at l))) && (load_i32 m (bl_counter l) =? 0)) (bm_lists bm).

(** ** The registry of managers *)

(** A manager by an identity, with the sessions that use it. *)
Record entry : Type := mkEntry {
  e_manager : nat;
  ref_count : Z;
}.

Abbreviation registry := (gmap (list Z) entry).

(** The part [get_with_memfd] and [get_with_file] share: under the lock, either one
    more user of the manager of the path, or a new manager [fresh]. *)
Definition registry_get (r : registry) (path : list Z) (fresh : nat) : nat * registry :=
  match r !! path with
  | Some e => (e_manager e, <[path := mkEntry (e_manager e) (ref_count e + 1)]> r)
  | None => (fresh, <[path := mkEntry fresh 1]> r)
  end.

(** [add_global_buffer_manager_ref_count] takes the lock twice: first to remove the
    manager, which it unmaps if no user is left, ... *)
Definition registry_take (r : registry) (path : list Z) (c : Z) : registry * option entry * option nat :=
  match r !! path with
  | None => (r, None, None)
  | Some e =>
      let e' := mkEntry (e_manager e) (ref_count e + c) in
      if ref_count e' <=? 0 then (delete path r, None, Some (e_manager e)) else (delete path r, Some e', None)
  end.

(** ... and then to put it back. *)
Definition registry_put (r : registry) (path : list Z) (e : option entry) : registry :=
  match e with Some e => <[path := e]> r | None => r end.

(** Both without interruption; the second result is the manager that was unmapped. *)
Definition add_ref_count (r : registry) (path : list Z) (c : Z) : registry * option nat :=
  let '(r, e, unmapped) := registry_take r path c in
  (registry_put r path e, unmapped).
