(* ===== verification/LegacyManagerFacts.v ===== *)
(** * The buffer manager of the older protocols: layout, allocation, recycling *)

From Stdlib Require Import ZArith Lia.
From stdpp Require Import base numbers list gmap.
From S2P Require Import Prelude Fixed Config LegacyBuf LegacyBufFacts LegacyListNew LegacyManager.

#[local] Open Scope Z_scope.

(** ** The layout of a mapping *)

(** One list behind the other; a pair is a capacity and a number of buffers. *)
Definition list_end (off cap num : Z) : Z := off + 36 + num * (cap + 20).

Fixpoint layout (off counter : Z) (geo : list (Z * Z)) : list BufferList :=
  match geo with
  | [] => []
  | (cap, num) :: geo => new_list off cap num (off + counter) :: layout (list_end off cap num) counter geo
  end.

Fixpoint layout_end (off : Z) (geo : list (Z * Z)) : Z :=
  match geo with
  | [] => off
  | (cap, num) :: geo => layout_end (list_end off cap num) geo
  end.

(** Where a list starts. *)
Definition start (off : Z) (geo : list (Z * Z)) (i : nat) : Z := layout_end off (take i geo).

Section lists.
Context (off : Z) (geo : list (Z * Z)).

Abbreviation at_start := (start off geo).

Record geo_ok : Prop := {
  go_off : 0 <= off;
  go_end : layout_end off geo < W32;
  go_pos : Forall (fun '(cap, num) => 0 < cap /\ 0 < num) geo;
}.

(** Every list is at rest, with the free buffers [fls]. *)
Record lists_ok (m : mem) (fls : list (list Z)) : Prop := {
  lo_length : length fls = length geo;
  lo_free i cap num fl : geo !! i = Some (cap, num) -> fls !! i = Some fl ->
    free_list (new_list (at_start i) cap num (at_start i + 20)) cap num m fl;
}.

(** All buffers but those of list [i] at [os] are untouched, header and data, and so is
    the memory behind the lists. *)
Definition bufs_same (i : nat) (os : list Z) (m m' : mem) : Prop :=
  (forall j cap num o, geo !! j = Some (cap, num) -> is_buf cap num o -> ~ (j = i /\ o ∈ os) ->
    mem_agree (at_start j + 36 + o) (at_start j + 36 + o + 20 + cap) m m') /\
  (forall a, layout_end off geo <= a -> rd m' a = rd m a).

Hypothesis GO : geo_ok.

Lemma layout_end_ge (o : Z) (g : list (Z * Z)) : Forall (fun '(cap, num) => 0 < cap /\ 0 < num) g -> o <= layout_end o g.
Proof.
  intros Hg. revert o. induction Hg as [|[cap num] g [Hc Hn] _ IH]; intros o; cbn; [lia|]. specialize (IH (list_end o cap num)). unfold list_end in *. nia.
Qed.

Lemma layout_end_app (o : Z) (g1 g2 : list (Z * Z)) : layout_end o (g1 ++ g2) = layout_end (layout_end o g1) g2.
Proof. revert o. induction g1 as [|[cap num] g1 IH]; intros o; cbn; [done|apply IH]. Qed.

Lemma start_bounds (i : nat) (cap num : Z) :
  geo !! i = Some (cap, num) -> 0 < cap /\ 0 < num /\ off <= at_start i /\ list_end (at_start i) cap num = at_start (S i) /\ at_start (S i) <= layout_end off geo.
Proof.
  intros Hi. pose proof (go_pos GO) as Hg. pose proof Hg as Hg'. rewrite Forall_forall in Hg'. destruct (Hg' _ (list_elem_of_lookup_2 _ _ _ Hi)) as [Hc Hn].
  split; [done|]. split; [done|]. split; [apply layout_end_ge; by apply Forall_take|]. unfold start. rewrite (take_S_r _ _ _ Hi), layout_end_app. split; [done|].
  rewrite <- (take_drop (S i) geo) at 2. rewrite layout_end_app, (take_S_r _ _ _ Hi), layout_end_app. apply layout_end_ge. by apply Forall_drop.
Qed.

Lemma start_mono (i j : nat) : (i <= j)%nat -> at_start i <= at_start j.
Proof.
  intros Hij. unfold start. rewrite <- (take_drop i (take j geo)) at 1. rewrite take_take, Nat.min_l by lia. rewrite layout_end_app.
  pose proof (go_pos GO). apply layout_end_ge. by apply Forall_drop, Forall_take.
Qed.

Lemma list_geom (i : nat) (cap num c : Z) :
  geo !! i = Some (cap, num) -> c = at_start i + 20 \/ c = at_start i + 24 -> bl_geom (new_list (at_start i) cap num c) cap num.
Proof.
  intros Hi Hc. destruct (start_bounds i cap num Hi) as (H1 & H2 & H3 & H4 & H5). pose proof (go_off GO). pose proof (go_end GO). unfold list_end in H4.
  apply new_list_geom; (done || lia).
Qed.

Lemma layout_lookup (o counter : Z) (g : list (Z * Z)) (i : nat) (l : BufferList) :
  layout o counter g !! i = Some l <-> exists cap num, g !! i = Some (cap, num) /\ l = new_list (start o g i) cap num (start o g i + counter).
Proof.
  revert o i. induction g as [|[cap num] g IH]; intros o i; cbn [layout]; [split; [done|intros (? & ? & ? & _); done]|].
  destruct i as [|i]; cbn [lookup list_lookup].
  - unfold start. cbn [take layout_end]. split; [intros [= <-]; eauto|intros (? & ? & [= <- <-] & ->); done].
  - rewrite IH. unfold start. cbn [take layout_end]. done.
Qed.

Lemma layout_length (o counter : Z) (g : list (Z * Z)) : length (layout o counter g) = length g.
Proof. revert o. induction g as [|[cap num] g IH]; intros o; cbn; [done|]. by rewrite IH. Qed.

End lists.

Lemma free_list_counter (off cap num c c' : Z) (m : mem) (fl : list Z) :
  free_list (new_list off cap num c) cap num m fl -> free_list (new_list off cap num c') cap num m fl.
Proof. intros [H1 H2 H3 H4 [L1 L2 L3 L4] H6 H7 H8 H9]. by split. Qed.

Ltac at_cells := unfold size_at, cap_at, head_at, tail_at, cap_per_buffer_at; cbn [new_list bl_offset_in_shm]; lia.

(** A free list rests on its cells and the headers of its buffers. *)
Lemma free_list_headers (l : BufferList) (cap num : Z) (m m' : mem) (fl : list Z) :
  (forall a, bl_offset_in_shm l <= a <= bl_offset_in_shm l + 16 -> load32 m' a = load32 m a) ->
  (forall o, o ∈ fl -> mem_agree (buf_at l o) (buf_at l o + 20) m m') -> free_list l cap num m fl -> free_list l cap num m' fl.
Proof.
  intros Hc Hh [H1 H2 H3 H4 H5 H6 H7 H8 H9]. split; try done.
  - rewrite Hc; [done|at_cells].
  - rewrite Hc; [done|at_cells].
  - by apply (linked_frame _ _ m).
  - rewrite Hc; [done|at_cells].
  - rewrite Hc; [done|at_cells].
  - rewrite Hc; [done|at_cells].
  - intros o Ho. destruct (header_agree _ _ _ (Hh o Ho)) as (_ & _ & -> & -> & -> & _). by apply H9.
Qed.

Lemma free_list_agree (off cap num c : Z) (m m' : mem) (fl : list Z) :
  bl_geom (new_list off cap num c) cap num -> mem_agree off (list_end off cap num) m m' ->
  free_list (new_list off cap num c) cap num m fl -> free_list (new_list off cap num c) cap num m' fl.
Proof.
  intros G Ha FL. pose proof (fl_buf _ _ _ _ _ FL) as H1. pose proof (g_cap _ _ _ G). pose proof (g_num _ _ _ G). unfold list_end in Ha.
  apply (free_list_headers _ _ _ m); [| |done].
  - intros a Hb. unfold load32. symmetry. apply load_ext. intros x Hx. apply Ha. cbn in Hb. nia.
  - intros o Ho x Hx. rewrite Forall_forall in H1. pose proof (buf_bounds _ _ _ G o (H1 o Ho)) as Hb. apply Ha. unfold buf_at in Hx. cbn in Hx, Hb. lia.
Qed.

(** The header of a list and those of its buffers [os] are written: the rest stands. *)
Lemma list_frame_held (off cap num c : Z) (os : list Z) (m m' : mem) (o : Z) :
  bl_geom (new_list off cap num c) cap num -> list_frame (new_list off cap num c) os m m' ->
  (forall x, x ∈ os -> is_buf cap num x) -> is_buf cap num o -> o ∉ os -> mem_agree (off + 36 + o) (off + 36 + o + 20 + cap) m m'.
Proof.
  intros G Hf Hos Ho Hno x Hx. symmetry. pose proof (buf_bounds _ _ _ G o Ho) as Hb. apply Hf; [cbn; lia|]. intros y Hy.
  pose proof (buf_apart _ _ _ G o y Ho (Hos y Hy) ltac:(by intros ->)). pose proof (g_cap _ _ _ G). unfold buf_at. cbn. lia.
Qed.

Lemma list_frame_outside (off cap num c : Z) (os : list Z) (m m' : mem) (lo hi : Z) :
  bl_geom (new_list off cap num c) cap num -> list_frame (new_list off cap num c) os m m' -> (forall x, x ∈ os -> is_buf cap num x) ->
  hi <= off \/ list_end off cap num <= lo -> mem_agree lo hi m m'.
Proof.
  intros G Hf Hos Hr x Hx. symmetry. pose proof (g_cap _ _ _ G). pose proof (g_num _ _ _ G). apply Hf; [cbn; unfold list_end in Hr; nia|].
  intros y Hy. pose proof (buf_bounds _ _ _ G y (Hos y Hy)) as Hb. unfold buf_at. cbn in *. unfold list_end in Hr. lia.
Qed.

(** ** An operation on one of the lists *)

Section ops.
Context (off : Z) (geo : list (Z * Z)) (GO : geo_ok off geo).

Abbreviation at_start := (start off geo).

Lemma op_at (i : nat) (cap num c : Z) (os fl' : list Z) (fls : list (list Z)) (m m' : mem) :
  geo !! i = Some (cap, num) -> c = at_start i + 20 \/ c = at_start i + 24 -> lists_ok off geo m fls ->
  list_frame (new_list (at_start i) cap num c) os m m' -> (forall x, x ∈ os -> is_buf cap num x) ->
  free_list (new_list (at_start i) cap num c) cap num m' fl' ->
  lists_ok off geo m' (<[i := fl']> fls) /\ bufs_same off geo i os m m'.
Proof.
  intros Hi Hc [Hl Hok] Hf Hos FL. pose proof (list_geom off geo GO i cap num c Hi Hc) as G.
  assert (Hout : forall j cap' num', j <> i -> geo !! j = Some (cap', num') -> mem_agree (at_start j) (list_end (at_start j) cap' num') m m').
  { intros j cap' num' Hne Hj. apply (list_frame_outside _ _ _ _ _ _ _ _ _ G Hf Hos).
    destruct (start_bounds off geo GO i cap num Hi) as (_ & _ & _ & -> & _). destruct (start_bounds off geo GO j cap' num' Hj) as (_ & _ & _ & -> & _).
    assert (j < i \/ i < j)%nat as [Hlt|Hlt] by lia; [left|right]; apply start_mono; (done || lia). }
  split; [split|].
  - by rewrite length_insert.
  - intros j cap' num' fl Hj Hfl. destruct (decide (j = i)) as [->|Hne].
    + rewrite list_lookup_insert_eq in Hfl by (rewrite Hl; by eapply lookup_lt_Some). injection Hfl as <-. rewrite Hi in Hj. injection Hj as <- <-.
      by apply (free_list_counter _ _ _ c).
    + rewrite list_lookup_insert_ne in Hfl by done. apply (free_list_agree _ _ _ _ m); [apply list_geom; auto|by apply Hout|by apply Hok].
  - split; [|intros a Ha; symmetry; apply (list_frame_outside _ _ _ _ _ _ _ a (a + 1) G Hf Hos); [|lia];
      destruct (start_bounds off geo GO i cap num Hi) as (_ & _ & _ & -> & ?); right; lia].
    intros j cap' num' o Hj Ho Hn. destruct (decide (j = i)) as [->|Hne].
    + rewrite Hi in Hj. injection Hj as <- <-. apply (list_frame_held _ _ _ _ _ _ _ _ G Hf Hos Ho). intros Hin. by apply Hn.
    + intros x Hx. apply (Hout j cap' num' Hne Hj). destruct (start_bounds off geo GO j cap' num' Hj) as (H1 & H2 & _). destruct Ho as (k & Hk & ->).
      unfold list_end. nia.
Qed.

Lemma pop_at (i : nat) (cap num counter : Z) (fl : list Z) (fls : list (list Z)) (m : mem) :
  counter = 20 \/ counter = 24 -> geo !! i = Some (cap, num) -> fls !! i = Some fl -> lists_ok off geo m fls ->
  let l := new_list (at_start i) cap num (at_start i + counter) in
  exists m', match fl with
  | a :: (_ :: _) as fl' =>
      pop l m = (Ok (fresh_slice l cap a), m') /\ lists_ok off geo m' (<[i := fl']> fls) /\ bufs_same off geo i [a] m m' /\
      bh_cap (buf_at l a) m' = cap /\ is_buf cap num a /\ has_next (buf_at l a) m' = false
  | _ => pop l m = (Err NoMoreBuffer, m') /\ lists_ok off geo m' fls /\ bufs_same off geo i [] m m'
  end.
Proof.
  intros Hc Hi Hfl Hok l. assert (Hc' : at_start i + counter = at_start i + 20 \/ at_start i + counter = at_start i + 24) by lia.
  pose proof (list_geom off geo GO i cap num _ Hi Hc') as G. pose proof (free_list_counter _ _ _ _ (at_start i + counter) _ _ (lo_free _ _ _ _ Hok i cap num fl Hi Hfl)) as FL.
  fold l in G, FL. destruct fl as [|a [|b fl]].
  - destruct FL as [_ _ Hh _ _ _ _ _ _]. done.
  - destruct (pop_last l cap num G m a FL) as (m' & E & FL' & Hf). exists m'. split; [done|].
    destruct (op_at i cap num _ [] [a] fls m m' Hi Hc' Hok Hf ltac:(set_solver) FL') as [H1 H2]. by rewrite list_insert_id in H1.
  - destruct (pop_first l cap num G m a b fl FL) as (m' & E & FL' & Hf & Hcap & Hflag). exists m'. split; [done|].
    assert (Hnx : has_next (buf_at l a) m' = false) by (unfold has_next; by rewrite Hflag).
    assert (Ha : is_buf cap num a) by (pose proof (fl_buf _ _ _ _ _ FL) as Hb; by apply Forall_cons in Hb as [? _]).
    destruct (op_at i cap num _ [a] (b :: fl) fls m m' Hi Hc' Hok Hf ltac:(intros x ->%list_elem_of_singleton; done) FL') as [H1 H2]. done.
Qed.

Lemma push_at_list (i : nat) (cap num counter : Z) (fl : list Z) (fls : list (list Z)) (m : mem) (b : Z) (s : BufferSlice) :
  counter = 20 \/ counter = 24 -> geo !! i = Some (cap, num) -> fls !! i = Some fl -> lists_ok off geo m fls ->
  let l := new_list (at_start i) cap num (at_start i + counter) in
  is_buf cap num b -> b ∉ fl -> bh_cap (buf_at l b) m = cap -> bs_header s = Some (buf_at l b) -> bs_offset_in_shm s = buf_at l b ->
  lists_ok off geo (push l m s) (<[i := fl ++ [b]]> fls) /\ bufs_same off geo i (b :: fl) m (push l m s).
Proof.
  intros Hc Hi Hfl Hok l Hb Hfr Hcap Hh Ho. assert (Hc' : at_start i + counter = at_start i + 20 \/ at_start i + counter = at_start i + 24) by lia.
  pose proof (list_geom off geo GO i cap num _ Hi Hc') as G. pose proof (free_list_counter _ _ _ _ (at_start i + counter) _ _ (lo_free _ _ _ _ Hok i cap num fl Hi Hfl)) as FL.
  fold l in G, FL. destruct (push_spec l cap num G m fl b s FL Hb Hfr Hcap Hh Ho) as [FL' Hf].
  apply (op_at i cap num _ (b :: fl) (fl ++ [b]) fls m _ Hi Hc' Hok Hf); [|done]. pose proof (fl_buf _ _ _ _ _ FL) as Hbs. rewrite Forall_forall in Hbs. set_solver.
Qed.

(** ** Allocation *)

Definition counter_ok (counter : Z) : Prop := counter = 20 \/ counter = 24.

(** The handle of list [i] on the side of [counter]. *)
Definition handle (counter : Z) (i : nat) (cap num : Z) : BufferList := new_list (at_start i) cap num (at_start i + counter).

(** Buffers that are not free are untouched, and so is the memory behind the lists. *)
Definition held_same (fls : list (list Z)) (m m' : mem) : Prop :=
  (forall j cap num fl o, geo !! j = Some (cap, num) -> fls !! j = Some fl -> is_buf cap num o -> o ∉ fl ->
    mem_agree (at_start j + 36 + o) (at_start j + 36 + o + 20 + cap) m m') /\
  (forall a, layout_end off geo <= a -> rd m' a = rd m a).

Lemma bufs_same_held (i : nat) (os fl : list Z) (fls : list (list Z)) (m m' : mem) :
  fls !! i = Some fl -> os ⊆ fl -> bufs_same off geo i os m m' -> held_same fls m m'.
Proof.
  intros Hfl Hos [Hb Hout]. split; [|done]. intros j cap num f o Hj Hf Ho Hfr. apply (Hb j cap num o Hj Ho). intros [-> Hin]. rewrite Hfl in Hf. injection Hf as ->. by apply Hfr, Hos.
Qed.

Lemma held_same_refl (fls : list (list Z)) (m : mem) : held_same fls m m.
Proof. split; [|done]. intros j cap num fl o _ _ _ _ x _. done. Qed.

Lemma held_same_trans (fls : list (list Z)) (m1 m2 m3 : mem) : held_same fls m1 m2 -> held_same fls m2 m3 -> held_same fls m1 m3.
Proof.
  intros [H1 O1] [H2 O2]. split; [intros j cap num fl o Hj Hf Ho Hfr; by apply (mem_agree_trans _ _ _ m2); [eapply H1|eapply H2]|]. intros a Ha. by rewrite O2, O1.
Qed.

(** No list from [lo] to [hi] has both room for the size and a buffer to spare. *)
Definition none_fits (fls : list (list Z)) (size : Z) (lo hi : nat) : Prop :=
  forall j cap num fl, (lo <= j < hi)%nat -> geo !! j = Some (cap, num) -> fls !! j = Some fl -> size <= cap -> (length fl <= 1)%nat.

(** The first list that fits gives its first buffer. *)
Definition alloc_done (counter : Z) (fls : list (list Z)) (m : mem) (size : Z) (k : nat) (r : result ListError BufferSlice) (m' : mem) : Prop :=
  match r with
  | Ok s =>
      exists i cap num a b fl, (k <= i)%nat /\ geo !! i = Some (cap, num) /\ fls !! i = Some (a :: b :: fl) /\ size <= cap /\
        s = fresh_slice (handle counter i cap num) cap a /\ lists_ok off geo m' (<[i := b :: fl]> fls) /\ held_same fls m m' /\
        bh_cap (buf_at (handle counter i cap num) a) m' = cap /\ is_buf cap num a /\ none_fits fls size k i
  | Err e => e = NoMoreBuffer /\ lists_ok off geo m' fls /\ held_same fls m m' /\ none_fits fls size k (length geo)
  end.

Lemma alloc_done_skip (counter : Z) (fls : list (list Z)) (m m1 : mem) (size : Z) (k : nat) (r : result ListError BufferSlice) (m' : mem) :
  (forall cap num fl, geo !! k = Some (cap, num) -> fls !! k = Some fl -> size <= cap -> (length fl <= 1)%nat) -> held_same fls m m1 ->
  alloc_done counter fls m1 size (S k) r m' -> alloc_done counter fls m size k r m'.
Proof.
  intros Hk Hh. destruct r as [s|e]; cbn.
  - intros (i & cap & num & a & b & fl & H1 & H2 & H3 & H4 & H5 & H6 & H7 & H8 & H9 & H10). exists i, cap, num, a, b, fl.
    split; [lia|]. do 5 (split; [done|]). split; [by apply (held_same_trans _ _ m1)|]. split; [done|]. split; [done|].
    intros j cap' num' fl' Hj Hg Hf Hs. destruct (decide (j = k)) as [->|Hne]; [by apply (Hk cap' num')|]. apply (H10 j cap' num'); (done || lia).
  - intros (-> & H1 & H2 & H3). split; [done|]. split; [done|]. split; [by apply (held_same_trans _ _ m1)|].
    intros j cap' num' fl' Hj Hg Hf Hs. destruct (decide (j = k)) as [->|Hne]; [by apply (Hk cap' num')|]. apply (H3 j cap' num'); (done || lia).
Qed.

Lemma alloc_from_spec (counter : Z) (fls : list (list Z)) (m : mem) (size : Z) (k : nat) :
  counter_ok counter -> lists_ok off geo m fls ->
  alloc_done counter fls m size k (alloc_from (drop k (layout off counter geo)) m size).1 (alloc_from (drop k (layout off counter geo)) m size).2.
Proof.
  intros Hc. remember (length geo - k)%nat as n eqn:En. revert k m En. induction n as [|n IH]; intros k m En Hok.
  - rewrite drop_ge by (rewrite <- (layout_length off counter geo) in En; lia). cbn. split; [done|]. split; [done|]. split; [apply held_same_refl|]. intros j cap num fl Hj. lia.
  - destruct (lookup_lt_is_Some_2 geo k ltac:(lia)) as [[cap num] Hk]. destruct (lookup_lt_is_Some_2 fls k) as [fl Hfl]; [rewrite (lo_length _ _ _ _ Hok); lia|].
    assert (Hl : layout off counter geo !! k = Some (handle counter k cap num)) by (apply layout_lookup; eauto).
    rewrite (drop_S _ _ _ Hl). cbn [alloc_from].
    replace (load32 m (cap_per_buffer_at (handle counter k cap num))) with cap by (symmetry; apply (fl_cap _ _ _ _ _ (lo_free _ _ _ _ Hok k cap num fl Hk Hfl))).
    destruct (Z.leb_spec size cap) as [Hle|Hgt].
    + destruct (pop_at k cap num counter fl fls m Hc Hk Hfl Hok) as (m' & Hp). destruct fl as [|a [|b fl]].
      * destruct Hp as (E & Hok' & Hb). fold (handle counter k cap num) in E. rewrite E. apply (alloc_done_skip _ _ _ m'); [|apply (bufs_same_held k [] _ fls m m' Hfl); [set_solver|done]|apply IH; (done || lia)].
        intros cap' num' fl' Hg Hf _. rewrite Hfl in Hf. injection Hf as <-. cbn. lia.
      * destruct Hp as (E & Hok' & Hb). fold (handle counter k cap num) in E. rewrite E. apply (alloc_done_skip _ _ _ m'); [|apply (bufs_same_held k [] _ fls m m' Hfl); [set_solver|done]|apply IH; (done || lia)].
        intros cap' num' fl' Hg Hf _. rewrite Hfl in Hf. injection Hf as <-. cbn. lia.
      * destruct Hp as (E & Hok' & Hb & Hcap & Ha & _). fold (handle counter k cap num) in E, Hcap. rewrite E. cbn [alloc_done fst snd].
        exists k, cap, num, a, b, fl. do 6 (split; [done|]). split; [eapply bufs_same_held; [done| |done]; set_solver|]. split; [done|]. split; [done|].
        intros j ? ? ? Hj. lia.
    + apply (alloc_done_skip _ _ _ m); [|apply held_same_refl|apply IH; (done || lia)]. intros cap' num' fl' Hg _ Hs. rewrite Hk in Hg. injection Hg as <- <-. lia.
Qed.

(** ** Recycling *)

(** A buffer is a list and an offset in its region. *)
Definition addr (x : nat * Z) : Z := at_start x.1 + 36 + x.2.

(** A buffer that is not free and whose capacity is intact. *)
Definition held_buf (m : mem) (fls : list (list Z)) (x : nat * Z) : Prop :=
  exists cap num fl, geo !! x.1 = Some (cap, num) /\ fls !! x.1 = Some fl /\ is_buf cap num x.2 /\ (x.2 ∉ fl) /\ bh_cap (addr x) m = cap.

(** The slice of a buffer, wherever its indices are. *)
Definition slice_of (m : mem) (x : nat * Z) (s : BufferSlice) : Prop :=
  bs_header s = Some (addr x) /\ bs_offset_in_shm s = addr x /\ bs_cap s = bh_cap (addr x) m /\ bs_from_shm s = true.

Definition give_back (fls : list (list Z)) (x : nat * Z) : list (list Z) :=
  match fls !! x.1 with Some fl => <[x.1 := fl ++ [x.2]]> fls | None => fls end.

(** What one allocation does. *)
Lemma bm_alloc_spec (counter len mn mx : Z) (fls : list (list Z)) (m : mem) (size : Z) :
  counter_ok counter -> lists_ok off geo m fls -> (forall i cap num, geo !! i = Some (cap, num) -> cap <= mx) ->
  let '(r, m') := alloc_shm_buffer (mkBM (layout off counter geo) len mn mx) m size in
  match r with
  | Ok s =>
      exists i cap num a b fl, geo !! i = Some (cap, num) /\ fls !! i = Some (a :: b :: fl) /\ size <= cap /\
        s = fresh_slice (handle counter i cap num) cap a /\ lists_ok off geo m' (<[i := b :: fl]> fls) /\ held_same fls m m' /\
        held_buf m' (<[i := b :: fl]> fls) (i, a) /\ none_fits fls size 0 i
  | Err e => e = NoMoreBuffer /\ lists_ok off geo m' fls /\ held_same fls m m' /\ none_fits fls size 0 (length geo)
  end.
Proof.
  intros Hc Hok Hmx. unfold alloc_shm_buffer. cbn [bm_lists bm_max]. destruct (Z.leb_spec size mx) as [Hle|Hgt].
  - pose proof (alloc_from_spec counter fls m size 0 Hc Hok) as H. rewrite drop_0 in H. destruct (alloc_from (layout off counter geo) m size) as [r m']. cbn [fst snd] in H.
    destruct r as [s|e]; [|done]. destruct H as (i & cap & num & a & b & fl & _ & H2 & H3 & H4 & H5 & H6 & H7 & H8 & H9 & H10).
    exists i, cap, num, a, b, fl. do 6 (split; [done|]). split; [|done]. exists cap, num, (b :: fl). cbn [fst snd]. split; [done|].
    split; [by apply list_lookup_insert_eq; eapply lookup_lt_Some|]. split; [done|]. split; [|done].
    pose proof (fl_nodup _ _ _ _ _ (lo_free _ _ _ _ Hok i cap num _ H2 H3)) as Hn. by apply NoDup_cons in Hn as [? _].
  - split; [done|]. split; [done|]. split; [apply held_same_refl|]. intros j cap num fl _ Hj _ Hs. specialize (Hmx j cap num Hj). lia.
Qed.

Hypothesis Hcaps : NoDup (fst <$> geo).

Lemma recycle_into_spec (counter : Z) (fls : list (list Z)) (m : mem) (s : BufferSlice) (i k : nat) (cap num : Z) :
  lists_ok off geo m fls -> geo !! i = Some (cap, num) -> (k <= i)%nat -> bs_cap s = cap ->
  recycle_into (drop k (layout off counter geo)) m s = push (handle counter i cap num) m s.
Proof.
  intros Hok Hi. remember (i - k)%nat as n eqn:En. revert k En. induction n as [|n IH]; intros k En Hki Hs;
    (destruct (lookup_lt_is_Some_2 geo k ltac:(apply lookup_lt_Some in Hi; lia)) as [[cap' num'] Hk]);
    (assert (Hl : layout off counter geo !! k = Some (handle counter k cap' num')) by (apply layout_lookup; eauto));
    rewrite (drop_S _ _ _ Hl); cbn [recycle_into];
    (assert (Hkl : (k < length fls)%nat) by (rewrite (lo_length _ _ _ _ Hok); apply lookup_lt_Some in Hk; lia));
    destruct (lookup_lt_is_Some_2 fls k Hkl) as [fl Hfl];
    (replace (load32 m (cap_per_buffer_at (handle counter k cap' num'))) with cap' by (symmetry; apply (fl_cap _ _ _ _ _ (lo_free _ _ _ _ Hok k cap' num' fl Hk Hfl)))).
  - assert (k = i) as -> by lia. rewrite Hi in Hk. injection Hk as <- <-. by rewrite Hs, Z.eqb_refl.
  - destruct (Z.eqb_spec (bs_cap s) cap') as [E|E]; [|apply IH; (done || lia)]. exfalso.
    assert (H1 : (fst <$> geo) !! i = Some cap) by (by rewrite list_lookup_fmap, Hi). assert (H2 : (fst <$> geo) !! k = Some cap) by (rewrite list_lookup_fmap, Hk; cbn; congruence).
    pose proof (NoDup_lookup _ _ _ _ Hcaps H1 H2). lia.
Qed.

(** The buffer goes to the end of its list; every other buffer that is not free stays. *)
Lemma recycle_buffer_spec (counter len mn mx : Z) (fls : list (list Z)) (m : mem) (x : nat * Z) (s : BufferSlice) :
  counter_ok counter -> lists_ok off geo m fls -> held_buf m fls x -> slice_of m x s ->
  let m' := recycle_buffer (mkBM (layout off counter geo) len mn mx) m s in
  lists_ok off geo m' (give_back fls x) /\
  (forall y, y <> x -> held_buf m fls y -> held_buf m' (give_back fls x) y /\ forall cap num, geo !! y.1 = Some (cap, num) -> mem_agree (addr y) (addr y + 20 + cap) m m') /\
  (forall a, layout_end off geo <= a -> rd m' a = rd m a).
Proof.
  intros Hc Hok (cap & num & fl & Hi & Hfl & Hb & Hfr & Hcap) (S1 & S2 & S3 & S4) m'. subst m'. unfold recycle_buffer. rewrite S4, S1. cbn [bm_lists].
  pose proof (recycle_into_spec counter fls m s x.1 0 cap num Hok Hi ltac:(lia) ltac:(congruence)) as Er. rewrite drop_0 in Er. rewrite Er.
  destruct (push_at_list x.1 cap num counter fl fls m x.2 s Hc Hi Hfl Hok Hb Hfr Hcap S1 S2) as [Hok' [Hsame Hout]].
  assert (Eg : give_back fls x = <[x.1 := fl ++ [x.2]]> fls) by (unfold give_back; by rewrite Hfl). rewrite Eg. split; [done|]. split; [|exact Hout].
  intros y Hne (cap' & num' & fl' & Hi' & Hfl' & Hb' & Hfr' & Hcap').
  assert (Ha : mem_agree (addr y) (addr y + 20 + cap') m (push (handle counter x.1 cap num) m s)).
  { apply (Hsame y.1 cap' num' y.2 Hi' Hb'). intros [E1 Hin]. rewrite E1, Hfl in Hfl'. injection Hfl' as <-. apply elem_of_cons in Hin as [E2|Hin]; [|done].
    apply Hne. destruct x, y. cbn in *. congruence. }
  split; [|intros ? ? Hg; rewrite Hi' in Hg; by injection Hg as <- <-].
  assert (Hcap2 : bh_cap (addr y) (push (handle counter x.1 cap num) m s) = cap').
  { rewrite <- Hcap'. unfold bh_cap, load32, BUFFER_CAP_OFFSET. symmetry. apply load_ext. intros z Hz. apply Ha.
    destruct (start_bounds off geo GO y.1 cap' num' Hi') as (? & _). lia. }
  destruct (decide (y.1 = x.1)) as [E|E].
  - exists cap', num', (fl ++ [x.2]). rewrite E in Hfl' |- *. rewrite Hfl in Hfl'. injection Hfl' as <-. rewrite E in Hi'. split; [done|].
    split; [by apply list_lookup_insert_eq; eapply lookup_lt_Some|]. split; [done|]. split; [|done]. rewrite elem_of_app. intros [Hin|Hin%list_elem_of_singleton]; [done|].
    apply Hne. destruct x, y. cbn in *. congruence.
  - exists cap', num', fl'. split; [done|]. split; [by rewrite list_lookup_insert_ne|]. done.
Qed.

(** Different buffers do not overlap. *)
Lemma nodes_apart (x y : nat * Z) (cap num cap' num' : Z) :
  geo !! x.1 = Some (cap, num) -> is_buf cap num x.2 -> geo !! y.1 = Some (cap', num') -> is_buf cap' num' y.2 -> x <> y ->
  addr x + 20 + cap <= addr y \/ addr y + 20 + cap' <= addr x.
Proof.
  intros Hg Hb Hg' Hb' Hne. destruct (start_bounds off geo GO x.1 cap num Hg) as (Hc0 & _ & _ & E1 & _). destruct (start_bounds off geo GO y.1 cap' num' Hg') as (Hc1 & _ & _ & E2 & _).
  unfold list_end, addr in *. destruct (decide (y.1 = x.1)) as [E|E].
  - rewrite E in Hg'. rewrite Hg in Hg'. injection Hg' as <- <-. assert (Hne2 : x.2 <> y.2) by (intros E'; apply Hne; destruct x, y; cbn in *; congruence).
    pose proof (buf_apart _ _ _ (list_geom off geo GO x.1 cap num _ Hg (or_introl eq_refl)) x.2 y.2 Hb Hb' Hne2). rewrite E. lia.
  - destruct Hb as (k & Hk & Ek). destruct Hb' as (k' & Hk' & Ek'). assert (x.2 + (cap + 20) <= num * (cap + 20)) by nia. assert (y.2 + (cap' + 20) <= num' * (cap' + 20)) by nia.
    assert (0 <= x.2) by nia. assert (0 <= y.2) by nia.
    assert (x.1 < y.1 \/ y.1 < x.1)%nat as [Hlt|Hlt] by lia; [pose proof (start_mono off geo GO (S x.1) y.1 ltac:(lia))|pose proof (start_mono off geo GO (S y.1) x.1 ltac:(lia))]; lia.
Qed.

(** The holder of a buffer may write anything in it but its capacity. *)
Lemma held_write (fls : list (list Z)) (m m' : mem) (x : nat * Z) (cap num : Z) :
  lists_ok off geo m fls -> held_buf m fls x -> geo !! x.1 = Some (cap, num) -> mem_frame (addr x + 4) (addr x + 20 + cap) m m' ->
  lists_ok off geo m' fls /\ (forall y, held_buf m fls y -> held_buf m' fls y) /\
  (forall y cap' num', y <> x -> held_buf m fls y -> geo !! y.1 = Some (cap', num') -> mem_agree (addr y) (addr y + 20 + cap') m m').
Proof.
  intros Hok Hx Hg Hf. destruct Hx as (cap0 & num0 & fl & Hi & Hfl & Hb & Hfr & Hcap). rewrite Hg in Hi. injection Hi as <- <-.
  assert (Hsame : forall y cap' num', geo !! y.1 = Some (cap', num') -> is_buf cap' num' y.2 -> y <> x -> mem_agree (addr y) (addr y + 20 + cap') m m').
  { intros y cap' num' Hg' Hb' Hne. apply (outside_agree (addr x + 4) (addr x + 20 + cap) (addr y) (20 + cap')) in Hf; [by rewrite Z.add_assoc in Hf|].
    destruct (nodes_apart x y cap num cap' num' Hg Hb Hg' Hb' (not_eq_sym Hne)); lia. }
  assert (Hcells : forall j cap' num', geo !! j = Some (cap', num') -> mem_agree (at_start j) (at_start j + 36) m m').
  { intros j cap' num' Hj. apply (outside_agree _ _ _ _ _ _ Hf). destruct (start_bounds off geo GO x.1 cap num Hg) as (Hc0 & _ & _ & E1 & _).
    destruct (start_bounds off geo GO j cap' num' Hj) as (Hc1 & Hn1 & _ & E2 & _). unfold list_end, addr in *. destruct Hb as (k & Hk & Ek).
    assert (x.2 + (cap + 20) <= num * (cap + 20)) by nia. assert (0 <= x.2) by nia. assert (0 < num' * (cap' + 20)) by nia.
    assert (j = x.1 \/ x.1 < j \/ j < x.1)%nat as [->|[Hlt|Hlt]] by lia; [lia|pose proof (start_mono off geo GO (S x.1) j ltac:(lia)); lia|pose proof (start_mono off geo GO (S j) x.1 ltac:(lia)); lia]. }
  split; [|split].
  - split; [apply (lo_length _ _ _ _ Hok)|]. intros j cap' num' fl' Hj Hfl'. pose proof (lo_free _ _ _ _ Hok j cap' num' fl' Hj Hfl') as FL. apply (free_list_headers _ _ _ m); [| |done].
    + intros a Ha. cbn in Ha. unfold load32. symmetry. apply load_ext. intros z Hz. apply (Hcells j cap' num' Hj). lia.
    + intros o Ho z Hz. pose proof (fl_buf _ _ _ _ _ FL) as Hbs. rewrite Forall_forall in Hbs. destruct (start_bounds off geo GO j cap' num' Hj) as (Hc1 & _).
      change (buf_at (new_list (at_start j) cap' num' (at_start j + 20)) o) with (addr (j, o)) in Hz. apply (Hsame (j, o) cap' num' Hj (Hbs o Ho)); [|lia].
      intros E. subst x. cbn in *. rewrite Hfl in Hfl'. injection Hfl' as <-. done.
  - intros y (cap' & num' & fl' & Hi' & Hfl' & Hb' & Hfr' & Hcap'). exists cap', num', fl'. repeat (split; [done|]). rewrite <- Hcap'. unfold bh_cap, BUFFER_CAP_OFFSET, load32.
    symmetry. apply load_ext. intros z Hz. destruct (decide (y = x)) as [->|Hne]; [symmetry; apply Hf; lia|].
    destruct (start_bounds off geo GO y.1 cap' num' Hi') as (Hc1 & _). apply (Hsame y cap' num' Hi' Hb' Hne). lia.
  - intros y cap' num' Hne (cap1 & num1 & fl1 & Hi' & _ & Hb' & _) Hg'. rewrite Hi' in Hg'. injection Hg' as <- <-. by apply (Hsame y cap1 num1).
Qed.

(** ** A chain *)

Fixpoint chain_ok (m : mem) (nodes : list (nat * Z)) : Prop :=
  match nodes with
  | [] => True
  | x :: nodes =>
      match nodes with
      | [] => has_next (addr x) m = false
      | y :: _ => has_next (addr x) m = true /\ next_buffer_offset (addr x) m = addr y
      end /\ chain_ok m nodes
  end.

Lemma chain_agree (m m' : mem) (nodes : list (nat * Z)) :
  (forall x, x ∈ nodes -> mem_agree (addr x) (addr x + 20) m m') -> chain_ok m nodes -> chain_ok m' nodes.
Proof.
  induction nodes as [|x nodes IH]; intros Ha; cbn [chain_ok]; [done|]. intros [Hx Hn]. destruct (header_agree _ _ _ (Ha x ltac:(left))) as (E1 & E2 & _).
  split; [|apply IH; [|done]; intros y Hy; apply Ha; by right]. destruct nodes; [congruence|]. by rewrite E1, E2.
Qed.

Lemma read_slice_at (counter len mn mx : Z) (fls : list (list Z)) (m : mem) (x : nat * Z) :
  layout_end off geo <= len < W32 -> held_buf m fls x ->
  read_buffer_slice (mkBM (layout off counter geo) len mn mx) m (addr x) = Some (slice_new m (Some (addr x)) (addr x + 20) (bh_cap (addr x) m) (addr x) true).
Proof.
  intros Hlen (cap & num & fl & Hi & Hfl & Hb & Hfr & Hcap). unfold read_buffer_slice. cbn [bm_len].
  destruct (start_bounds off geo GO x.1 cap num Hi) as (Hc0 & Hn0 & H1 & H2 & H3). pose proof (go_off _ _ GO). unfold list_end in H2.
  assert (Hbb : 0 <= x.2 /\ x.2 + (cap + 20) <= num * (cap + 20)) by (destruct Hb as (k & Hk & ->); nia).
  rewrite Hcap. unfold BUFFER_CAP_OFFSET, BUFFER_HEADER_SIZE. rewrite Z.add_0_r. unfold bh_cap, BUFFER_CAP_OFFSET in Hcap. rewrite Z.add_0_r in Hcap. rewrite Hcap. unfold addr in *.
  rewrite (wrap32_small (at_start x.1 + 36 + x.2 + _)) by lia. rewrite (wrap32_small (_ + cap)), (wrap32_small len) by lia. rewrite Z.geb_leb, Z.gtb_ltb.
  destruct (Z.leb_spec len (at_start x.1 + 36 + x.2 + (4 + 4 + 4 + 4 + 4))); [lia|]. destruct (Z.ltb_spec len (at_start x.1 + 36 + x.2 + (4 + 4 + 4 + 4 + 4) + cap)); [lia|].
  done.
Qed.

Lemma read_slice_spec (counter len mn mx : Z) (fls : list (list Z)) (m : mem) (x : nat * Z) :
  layout_end off geo <= len < W32 -> held_buf m fls x ->
  exists s, read_buffer_slice (mkBM (layout off counter geo) len mn mx) m (addr x) = Some s /\ slice_of m x s.
Proof. intros Hlen Hx. eexists. split; [by eapply read_slice_at|by repeat split]. Qed.

Lemma slice_of_agree (m m' : mem) (x : nat * Z) (s : BufferSlice) : bh_cap (addr x) m' = bh_cap (addr x) m -> slice_of m x s -> slice_of m' x s.
Proof. intros E (H1 & H2 & H3 & H4). repeat split; try done. by rewrite E. Qed.

Lemma recycle_chain_spec (counter len mn mx : Z) (nodes : list (nat * Z)) (fuel : nat) (fls : list (list Z)) (m : mem) (x : nat * Z) (s : BufferSlice) :
  counter_ok counter -> layout_end off geo <= len < W32 -> (length nodes < fuel)%nat -> NoDup (x :: nodes) -> lists_ok off geo m fls ->
  (forall y, y ∈ x :: nodes -> held_buf m fls y) -> chain_ok m (x :: nodes) -> slice_of m x s ->
  exists m', recycle_chain fuel (mkBM (layout off counter geo) len mn mx) m s = Some m' /\ lists_ok off geo m' (fold_left give_back (x :: nodes) fls) /\
    (forall y, y ∉ x :: nodes -> held_buf m fls y ->
      held_buf m' (fold_left give_back (x :: nodes) fls) y /\ forall cap num, geo !! y.1 = Some (cap, num) -> mem_agree (addr y) (addr y + 20 + cap) m m').
Proof.
  intros Hc Hlen. revert fuel fls m x s. induction nodes as [|y nodes IH]; intros fuel fls m x s Hf Hnd Hok Hheld Hch Hs;
    (destruct fuel as [|fuel]; [cbn in Hf; lia|]); pose proof Hs as (Hsh & _); cbn [recycle_chain fold_left]; rewrite Hsh; cbn [mbind option_bind];
    destruct (recycle_buffer_spec counter len mn mx fls m x s Hc Hok (Hheld x ltac:(left)) Hs) as (Hok1 & Hk1 & _); destruct Hch as [Hx Hch].
  - rewrite Hx. cbn [negb]. eexists. split; [done|]. split; [done|]. intros z Hz. apply Hk1. set_solver.
  - destruct Hx as [Hx1 Hx2]. rewrite Hx1, Hx2. cbn [negb]. set (m1 := recycle_buffer _ m s) in *.
    apply NoDup_cons in Hnd as [Hxn Hnd]. assert (Hneq : forall z, z ∈ y :: nodes -> z <> x) by (intros z Hz ->; done).
    assert (Hheld1 : forall z, z ∈ y :: nodes -> held_buf m1 (give_back fls x) z) by (intros z Hz; apply Hk1; [by apply Hneq|apply Hheld; by right]).
    destruct (read_slice_spec counter len mn mx (give_back fls x) m1 y Hlen (Hheld1 y ltac:(left))) as (s1 & Er & Hs1). rewrite Er.
    destruct (IH fuel (give_back fls x) m1 y s1) as (m' & E & Hok' & Hk'); [cbn in Hf; lia|done|done|done| |done|].
    + apply (chain_agree m); [|done]. intros z Hz. destruct (Hheld z ltac:(by right)) as (cap & num & fl & Hg & _). destruct (Hk1 z (Hneq z Hz) (Hheld z ltac:(by right))) as [_ Ha].
      intros w Hw. apply (Ha cap num Hg). destruct (start_bounds off geo GO z.1 cap num Hg) as (? & _). lia.
    + exists m'. split; [done|]. split; [done|]. intros z Hz Hzh. destruct (Hk1 z ltac:(set_solver) Hzh) as [Hz1 Hz2].
      destruct (Hk' z ltac:(set_solver) Hz1) as [Hz3 Hz4]. split; [done|]. intros cap num Hg. apply (mem_agree_trans _ _ _ m1); [by eapply Hz2|by eapply Hz4].
Qed.

End ops.
