(* ===== verification/LegacyManagerTheorems.v ===== *)
(** * What the buffer manager of the older protocols guarantees *)

From Stdlib Require Import ZArith Lia.
From stdpp Require Import base numbers list gmap.
From S2P Require Import Prelude Fixed Config LegacyBuf LegacyBufFacts LegacyListNew LegacyManager LegacyManagerFacts.

#[local] Open Scope Z_scope.

(** ** create *)

(** The lists a configuration asks for in a region of [region_cap] bytes. *)
Definition geo_of (region_cap : Z) (pairs : list SizePercentPair) : list (Z * Z) :=
  (fun p => (sp_bytes p, region_cap * sp_percent p / 100 / (sp_bytes p + 20))) <$> pairs.

Definition full (geo : list (Z * Z)) : list (list Z) := (fun '(cap, num) => all_bufs cap num) <$> geo.

Fixpoint percents (pairs : list SizePercentPair) : Z :=
  match pairs with [] => 0 | p :: pairs => sp_percent p + percents pairs end.

Definition pair_ok (p : SizePercentPair) : Prop := 0 < sp_bytes p /\ sp_bytes p + 20 < W32 /\ 0 <= sp_percent p.

Lemma lists_ok_cons (off cap num : Z) (geo : list (Z * Z)) (m : mem) (fl : list Z) (fls : list (list Z)) :
  free_list (new_list off cap num (off + 20)) cap num m fl -> lists_ok (list_end off cap num) geo m fls -> lists_ok off ((cap, num) :: geo) m (fl :: fls).
Proof.
  intros H1 [H2 H3]. split; [cbn; by rewrite H2|]. intros [|i] cap' num' fl' Hi Hf; cbn in Hi, Hf; [by injection Hi as <- <-; injection Hf as <-|].
  by apply (H3 i cap' num' fl').
Qed.

Lemma percents_nonneg (pairs : list SizePercentPair) : Forall pair_ok pairs -> 0 <= percents pairs.
Proof. induction 1 as [|p pairs (_ & _ & Hp) _ IH]; cbn; lia. Qed.

(** The lists fit the region. *)
Lemma geo_fits (region_cap off : Z) (pairs : list SizePercentPair) :
  0 <= region_cap -> Forall pair_ok pairs ->
  100 * (layout_end off (geo_of region_cap pairs) - off - 36 * Z.of_nat (length pairs)) <= region_cap * percents pairs.
Proof.
  intros Hr Hp. revert off. induction Hp as [|p pairs (H1 & H2 & H3) _ IH]; intros off; cbn [geo_of fmap list_fmap layout_end length percents]; [lia|].
  specialize (IH (list_end off (sp_bytes p) (region_cap * sp_percent p / 100 / (sp_bytes p + 20)))). fold (geo_of region_cap pairs) in *.
  set (e := layout_end _ _) in *. unfold list_end in IH. set (q := region_cap * sp_percent p / 100) in *.
  pose proof (Z.mul_div_le (region_cap * sp_percent p) 100 ltac:(lia)) as Hq. fold q in Hq.
  pose proof (Z.mul_div_le q (sp_bytes p + 20) ltac:(lia)) as Hn. rewrite (Z.mul_comm (sp_bytes p + 20)) in Hn. lia.
Qed.

Lemma create_lists_spec (pairs : list SizePercentPair) (region_cap sum : Z) (m : mem) (mem_len off : Z) :
  let geo := geo_of region_cap pairs in
  0 <= region_cap < W32 -> Forall pair_ok pairs -> 0 <= sum -> sum + percents pairs <= 100 -> Forall (fun g => 0 < g.2) geo ->
  0 <= off -> layout_end off geo <= mem_len < W32 ->
  exists m', create_lists pairs region_cap sum m mem_len off = Ok (layout off 20 geo, m', layout_end off geo) /\
    lists_ok off geo m' (full geo) /\ mem_frame off (layout_end off geo) m m'.
Proof.
  intros geo Hr Hp. subst geo. revert sum m off. induction Hp as [|p pairs (H1 & H2 & H3) Hps IH]; intros sum m off Hs Hsum Hnum Ho He.
  { exists m. split; [done|]. split; [split; [done|intros i ? ? ? Hi; done]|apply mem_frame_refl]. }
  cbn [geo_of fmap list_fmap layout_end percents] in *. fold (geo_of region_cap pairs) in *.
  pose proof (percents_nonneg pairs Hps). set (q := region_cap * sp_percent p / 100) in *. set (num := q / (sp_bytes p + 20)) in *.
  apply Forall_cons in Hnum as [Hnum Hnums]. cbn [snd] in Hnum. cbn [create_lists]. rewrite (wrap32_small (sum + _)) by (unfold W32; lia). rewrite Z.gtb_ltb.
  destruct (Z.ltb_spec 100 (sum + sp_percent p)); [lia|]. unfold BUFFER_HEADER_SIZE. change (4 + 4 + 4 + 4 + 4) with 20. rewrite (wrap32_small (sp_bytes p + 20)) by lia.
  destruct (Z.eqb_spec (sp_bytes p + 20) 0); [lia|]. assert (Hq : 0 <= q < W32).
  { split; [apply Z.div_pos; [|lia]; nia|]. apply Z.div_lt_upper_bound; [lia|]. nia. }
  fold q. rewrite (wrap32_small q) by done. fold num.
  pose proof (layout_end_ge (list_end off (sp_bytes p) num) (geo_of region_cap pairs)) as Hge.
  assert (Hge' : list_end off (sp_bytes p) num <= layout_end (list_end off (sp_bytes p) num) (geo_of region_cap pairs)).
  { apply Hge. unfold geo_of. rewrite Forall_fmap. rewrite Forall_forall in Hps |- *. unfold geo_of in Hnums. rewrite Forall_fmap, Forall_forall in Hnums.
    intros p' Hp'. destruct (Hps p' Hp') as (? & _). specialize (Hnums p' Hp'). cbn in Hnums |- *. done. }
  unfold list_end in Hge' at 1. destruct (list_create_spec num (sp_bytes p) m mem_len off) as (m1 & E1 & FL & _ & F1); [done|done|done|lia|]. rewrite E1.
  rewrite count_small by (done || lia). rewrite (wrap32_small (off + _)) by nia. replace (off + (36 + num * (sp_bytes p + 20))) with (list_end off (sp_bytes p) num) by (unfold list_end; lia).
  assert (Hle : off <= list_end off (sp_bytes p) num) by (unfold list_end; nia).
  destruct (IH (sum + sp_percent p) m1 (list_end off (sp_bytes p) num)) as (m' & E & Hok & F); [lia|lia|done|lia|done|]. rewrite E. exists m'. split; [done|]. split.
  - apply lists_ok_cons; [|done]. apply (free_list_agree _ _ _ _ m1); [apply new_list_geom; (done || lia || auto)| |done].
    intros x Hx. symmetry. apply F. lia.
  - apply (mem_frame_trans _ _ m m1); [apply (mem_frame_weaken off (list_end off (sp_bytes p) num)); [lia|unfold list_end in *; lia|exact F1]|].
    apply (mem_frame_weaken (list_end off (sp_bytes p) num) (layout_end (list_end off (sp_bytes p) num) (geo_of region_cap pairs))); [lia|lia|done].
Qed.

(** ** mapping *)

Lemma mapping_lists_spec (geo : list (Z * Z)) (m : mem) (mem_len off : Z) (fls : list (list Z)) :
  Forall (fun '(cap, num) => 0 < cap /\ 0 < num) geo -> 0 <= off -> layout_end off geo <= mem_len < W32 -> lists_ok off geo m fls ->
  mapping_lists (length geo) m mem_len 0 off = Ok (layout off 24 geo).
Proof.
  intros Hg. revert off fls. induction Hg as [|[cap num] geo [Hc Hn] Hg IH]; intros off fls Ho He [Hl Hok]; [done|]. cbn [length mapping_lists layout layout_end] in *.
  pose proof (layout_end_ge _ _ Hg : list_end off cap num <= _) as Hge. assert (Hle : off <= list_end off cap num) by (unfold list_end; nia).
  destruct fls as [|fl fls]; [done|]. pose proof (Hok 0%nat cap num fl eq_refl eq_refl) as FL. cbn in FL. unfold start in FL. cbn in FL.
  assert (G : bl_geom (new_list off cap num (off + 20)) cap num) by (apply new_list_geom; (done || unfold list_end in *; lia || auto)).
  rewrite Z.add_0_l, wrap32_small by lia. rewrite (list_mapping_spec off cap num (off + 20) mem_len m fl G FL) by (unfold list_end in *; lia).
  change (cap_at (new_list off cap num (off + 24))) with (cap_at (new_list off cap num (off + 20))).
  change (cap_per_buffer_at (new_list off cap num (off + 24))) with (cap_per_buffer_at (new_list off cap num (off + 20))).
  rewrite (fl_num _ _ _ _ _ FL), (fl_cap _ _ _ _ _ FL), count_small by (done || unfold list_end in *; lia).
  rewrite (wrap32_small (off + _)) by (unfold list_end in *; nia). replace (off + (36 + num * (cap + 20))) with (list_end off cap num) by (unfold list_end; lia).
  rewrite (IH (list_end off cap num) fls); [done|lia|done|]. split; [by injection Hl|]. intros i cap' num' fl' Hi Hf. apply (Hok (S i) cap' num' fl' Hi Hf).
Qed.

Lemma geo_head_last (region_cap : Z) (pairs : list SizePercentPair) :
  (fst <$> head (geo_of region_cap pairs)) = sp_bytes <$> head pairs /\ (fst <$> last (geo_of region_cap pairs)) = sp_bytes <$> last pairs.
Proof.
  split; [by destruct pairs|]. unfold geo_of. rewrite fmap_last. by destruct (last pairs).
Qed.

Lemma layout_last (off counter : Z) (geo : list (Z * Z)) (cap num : Z) :
  last geo = Some (cap, num) -> exists o, last (layout off counter geo) = Some (new_list o cap num (o + counter)) /\
    exists i, geo !! i = Some (cap, num) /\ o = start off geo i.
Proof.
  intros Hl. rewrite last_lookup in Hl. exists (start off geo (pred (length geo))). split; [|by exists (pred (length geo))].
  rewrite last_lookup, layout_length. apply layout_lookup. eauto.
Qed.

Lemma manager_built (pairs : list SizePercentPair) (m : mem) (mem_len : Z) :
  let n := Z.of_nat (length pairs) in
  let geo := geo_of (mem_len - 36 * n - 8) pairs in
  pairs <> [] -> n < 65536 -> Forall pair_ok pairs -> percents pairs <= 100 -> Forall (fun g => 0 < g.2) geo -> 36 * n + 8 <= mem_len < W32 ->
  exists bm m', bm_create pairs m mem_len 0 = Ok (bm, m') /\ bm = mkBM (layout 8 20 geo) mem_len (bm_min bm) (bm_max bm) /\
    geo_ok 8 geo /\ layout_end 8 geo <= mem_len /\ lists_ok 8 geo m' (full geo) /\
    bm_mapping m' mem_len 0 = Ok (mkBM (layout 8 24 geo) mem_len (bm_min bm) (bm_max bm)) /\
    Some (bm_max bm) = sp_bytes <$> last pairs.
Proof.
  intros n geo Hne Hn Hp Hsum Hnum Hlen. pose proof (geo_fits (mem_len - 36 * n - 8) 8 pairs ltac:(lia) Hp) as Hfit. fold geo n in Hfit.
  assert (Hend : layout_end 8 geo <= mem_len) by nia. assert (Hlg : length geo = length pairs) by (unfold geo, geo_of; by rewrite length_fmap).
  assert (Hpos : Forall (fun '(cap, num) => 0 < cap /\ 0 < num) geo).
  { unfold geo, geo_of in *. rewrite Forall_fmap in Hnum |- *. rewrite Forall_forall in Hp, Hnum |- *. intros p Hin. destruct (Hp p Hin) as (? & _). by split; [|apply (Hnum p Hin)]. }
  assert (GO : geo_ok 8 geo) by (split; [lia|lia|done]). unfold bm_create. destruct (Z.leb_spec mem_len 0); [lia|]. fold n.
  unfold BUFFER_LIST_HEADER_SIZE, BUFFER_MANAGER_HEADER_SIZE, BM_CAP_OFFSET. rewrite Z.sub_0_r, Z.add_0_r, Z.add_0_l. rewrite (wrap32_small mem_len), (wrap32_small (mem_len - _ - _)) by lia.
  set (m0 := store 2 m 0 n). destruct (create_lists_spec pairs (mem_len - 36 * n - 8) 0 m0 mem_len 8) as (m1 & E1 & Hok & F1); [lia|done|lia|lia|done|lia|fold geo; lia|].
  fold geo in E1, Hok, F1. rewrite E1. pose proof (layout_end_ge 8 geo Hpos) as Hge. rewrite (wrap32_small (_ - 8)) by lia. set (m2 := store32 m1 4 (layout_end 8 geo - 8)).
  destruct (geo_head_last (mem_len - 36 * n - 8) pairs) as [Eh El]. fold geo in Eh, El.
  destruct (head pairs) as [p|] eqn:Ep; [|by destruct pairs]. destruct (last pairs) as [q|] eqn:Eq; [|by apply last_None in Eq].
  destruct (head geo) as [[c0 n0]|] eqn:Eg0; [|done]. cbn in Eh. injection Eh as Eh. destruct (last geo) as [[c1 n1]|] eqn:Eg1; [|done]. cbn in El. injection El as El.
  eexists _, m2. split; [done|]. cbn [bm_min bm_max]. split; [done|]. split; [done|]. split; [done|].
  assert (Hok2 : lists_ok 8 geo m2 (full geo)).
  { split; [apply (lo_length _ _ _ _ Hok)|]. intros i cap num fl Hi Hf. apply (free_list_agree _ _ _ _ m1); [by apply (list_geom 8 geo GO); auto| |by apply (lo_free _ _ _ _ Hok)].
    intros x Hx. symmetry. unfold m2, store32. apply rd_store_out. destruct (start_bounds 8 geo GO i cap num Hi) as (_ & _ & ? & _). lia. }
  split; [done|]. split; [|done]. unfold bm_mapping, BM_CAP_OFFSET, BUFFER_MANAGER_HEADER_SIZE. rewrite Z.add_0_l, (wrap32_small 4) by (unfold W32; lia).
  destruct (Z.leb_spec mem_len 4); [lia|]. destruct (Z.leb_spec mem_len 0); [lia|]. cbn [orb].
  assert (En : load 2 m2 0 = n).
  { unfold m2, store32. rewrite (load_store_other 2 4) by (cbn; lia). rewrite (load_frame 2 _ _ _ _ 0 F1) by (cbn; lia). unfold m0. rewrite load_store_same.
    apply Z.mod_small. change (256 ^ Z.of_nat 2) with 65536. lia. }
  assert (Ec : load32 m2 4 = layout_end 8 geo - 8) by (unfold m2; rewrite load32_store32_same; apply wrap32_small; lia).
  rewrite En, Ec, (wrap32_small (8 + _)) by lia. destruct (Z.ltb_spec mem_len (8 + (layout_end 8 geo - 8))); [lia|]. destruct (Z.eqb_spec n 0) as [E0|_].
  { destruct pairs; [done|]. unfold n in E0. cbn in E0. lia. }
  cbn [orb]. replace (Z.to_nat n) with (length geo) by (unfold n; rewrite Nat2Z.id; done). rewrite (mapping_lists_spec geo m2 mem_len 8 (full geo)) by (done || lia).
  destruct (layout_last 8 24 geo c1 n1 Eg1) as (o & -> & i & Hi & Ho). destruct geo as [|[c n'] g] eqn:Egeo; [done|]. injection Eg0 as -> ->. cbn [layout head].
  assert (Hcap : forall j cap num, ((c0, n0) :: g) !! j = Some (cap, num) -> load32 m2 (start 8 ((c0, n0) :: g) j + 16) = cap).
  { intros j cap num Hj. assert (Hjl : (j < length (full ((c0, n0) :: g)))%nat) by (rewrite (lo_length _ _ _ _ Hok2); by eapply lookup_lt_Some).
    destruct (lookup_lt_is_Some_2 _ _ Hjl) as [fl Hfl]. apply (fl_cap _ _ _ _ _ (lo_free _ _ _ _ Hok2 j cap num fl Hj Hfl)). }
  do 2 f_equal; [|unfold cap_per_buffer_at; cbn [new_list bl_offset_in_shm]; rewrite Ho; rewrite (Hcap i c1 n1 Hi); congruence].
  rewrite (Hcap 0%nat c0 n0 eq_refl : load32 m2 (cap_per_buffer_at (new_list 8 c0 n0 (8 + 24))) = c0). done.
Qed.

(** The manager one process creates is the manager the other maps: for sizes and
    percentages as [Config::verify] leaves them and a mapping large enough for a
    buffer of every size, creation fills every list, the lists lie inside the mapping,
    and mapping it finds the same lists and the same largest size. *)
Theorem manager_crossed (pairs : list SizePercentPair) (m : mem) (mem_len : Z) :
  let n := Z.of_nat (length pairs) in
  let geo := geo_of (mem_len - 36 * n - 8) pairs in
  pairs <> [] -> n < 65536 -> Forall pair_ok pairs -> percents pairs <= 100 -> Forall (fun g => 0 < g.2) geo -> 36 * n + 8 <= mem_len < W32 ->
  exists bm m', bm_create pairs m mem_len 0 = Ok (bm, m') /\ bm = mkBM (layout 8 20 geo) mem_len (bm_min bm) (bm_max bm) /\
    geo_ok 8 geo /\ layout_end 8 geo <= mem_len /\ lists_ok 8 geo m' (full geo) /\
    bm_mapping m' mem_len 0 = Ok (mkBM (layout 8 24 geo) mem_len (bm_min bm) (bm_max bm)) /\
    Some (bm_max bm) = sp_bytes <$> last pairs.
Proof. exact (manager_built pairs m mem_len). Qed.

(** Allocation takes the first buffer of the smallest size that fits and has one to
    spare, hands it out empty with its whole capacity, and touches no buffer that is
    not free; it refuses exactly if every list that fits is down to its last buffer,
    and then nothing is lost.  Sizes ascend, as [get_with_memfd] sorts them. *)
Theorem alloc_smallest (off counter len mn mx : Z) (geo : list (Z * Z)) (fls : list (list Z)) (m : mem) (size : Z) :
  geo_ok off geo -> counter = 20 \/ counter = 24 -> lists_ok off geo m fls -> (forall i cap num, geo !! i = Some (cap, num) -> cap <= mx) ->
  let '(r, m') := alloc_shm_buffer (mkBM (layout off counter geo) len mn mx) m size in
  match r with
  | Ok s =>
      exists i cap num a b fl, geo !! i = Some (cap, num) /\ fls !! i = Some (a :: b :: fl) /\ size <= cap /\
        s = fresh_slice (handle off geo counter i cap num) cap a /\ lists_ok off geo m' (<[i := b :: fl]> fls) /\ held_same off geo fls m m' /\
        held_buf off geo m' (<[i := b :: fl]> fls) (i, a) /\ none_fits geo fls size 0 i
  | Err e => e = NoMoreBuffer /\ lists_ok off geo m' fls /\ held_same off geo fls m m' /\ none_fits geo fls size 0 (length geo)
  end.
Proof. intros GO Hc Hok Hmx. exact (bm_alloc_spec off geo GO counter len mn mx fls m size Hc Hok Hmx). Qed.

(** More fuel changes nothing. *)
Lemma recycle_chain_more (n n' : nat) (bm : BufferManager) (m m' : mem) (s : BufferSlice) :
  (n <= n')%nat -> recycle_chain n bm m s = Some m' -> recycle_chain n' bm m s = Some m'.
Proof.
  revert n' m s. induction n as [|n IH]; intros n' m s Hle; [done|]. destruct n' as [|n']; [lia|]. cbn [recycle_chain]. destruct (bs_header s) as [h|]; [|done].
  cbn [mbind option_bind]. destruct (negb (has_next h m)); [done|]. destruct (read_buffer_slice bm _ _) as [s'|]; [|done]. apply IH. lia.
Qed.

(** C30. Recycling a message that spans buffers of any sizes gives every one of them back
    to the list it came from, in order, and leaves all other buffers in use alone: with
    distinct sizes, for every chain of distinct buffers in use, the loop ends after as
    many rounds as the chain is long. *)
Theorem chain_recycled (off counter len mn mx : Z) (geo : list (Z * Z)) (fls : list (list Z)) (m : mem) (x : nat * Z) (nodes : list (nat * Z)) (s : BufferSlice) :
  geo_ok off geo -> counter = 20 \/ counter = 24 -> NoDup (fst <$> geo) -> layout_end off geo <= len < W32 -> lists_ok off geo m fls ->
  NoDup (x :: nodes) -> (forall y, y ∈ x :: nodes -> held_buf off geo m fls y) -> chain_ok off geo m (x :: nodes) -> slice_of off geo m x s ->
  exists m', (forall fuel, (length nodes < fuel)%nat -> recycle_buffers fuel (mkBM (layout off counter geo) len mn mx) m s = Some m') /\
    lists_ok off geo m' (fold_left give_back (x :: nodes) fls) /\
    (forall y, y ∉ x :: nodes -> held_buf off geo m fls y ->
      held_buf off geo m' (fold_left give_back (x :: nodes) fls) y /\
      forall cap num, geo !! y.1 = Some (cap, num) -> mem_agree (addr off geo y) (addr off geo y + 20 + cap) m m').
Proof.
  intros GO Hc Hnd Hlen Hok Hn Hh Hch Hs. pose proof (fun fuel Hf => recycle_chain_spec off geo GO Hnd counter len mn mx nodes fuel fls m x s Hc Hlen Hf Hn Hok Hh Hch Hs) as H.
  destruct (H (S (length nodes)) ltac:(lia)) as (m' & E & H2). exists m'. split; [|done]. intros fuel Hf. unfold recycle_buffers.
  destruct Hs as (_ & _ & _ & Hshm). rewrite Hshm. destruct fuel as [|fuel]; [lia|]. apply (recycle_chain_more (S (length nodes))); [lia|done].
Qed.

(** ** What the manager does not guard against *)

Definition one_size : list SizePercentPair := [mkPair 12 100].

Definition two_equal : list SizePercentPair := [mkPair 12 50; mkPair 12 50].

Definition made (pairs : list SizePercentPair) (len : Z) : BufferManager * mem :=
  match bm_create pairs ∅ len 0 with Ok x => x | Err _ => (mkBM [] 0 0 0, ∅) end.

Definition alloc_all (bm : BufferManager) (m : mem) (n : nat) : list BufferSlice * mem :=
  Nat.iter n (fun '(ss, m) => match alloc_shm_buffer bm m 12 with (Ok s, m) => (ss ++ [s], m) | (Err _, m) => (ss, m) end) ([], m).

(** With two lists of the same size, which [Config::verify] accepts, a buffer of the
    second one is recycled into the first, whose bound then refuses it: the first list
    counts four free buffers and gives out none. *)
Lemma equal_sizes_stuck :
  let '(bm, m) := made two_equal 272 in
  let '(ss, m) := alloc_all bm m 3 in
  match ss, bm_lists bm with
  | [a; b; c], l :: _ =>
      let m := recycle_buffer bm m c in
      match alloc_shm_buffer bm m 12 with
      | (Ok _, m) =>
          let m := recycle_buffer bm (recycle_buffer bm m a) b in
          load_i32 m (size_at l) = 3 /\ exists m', pop l m = (Err NoMoreBuffer, m')
      | _ => False
      end
  | _, _ => False
  end.
Proof. vm_compute. split; [reflexivity|]. eexists. reflexivity. Qed.

(** An offset near the end of the range of [u32] passes the checks of
    [read_buffer_slice], since the sums wrap: the header it names lies gigabytes behind
    the mapping. *)
Lemma read_slice_wraps :
  let '(bm, m) := made one_size 4096 in
  exists s, read_buffer_slice bm m 4294967280 = Some s /\ bs_header s = Some 4294967280 /\ bm_len bm = 4096.
Proof. vm_compute. eexists. split; [reflexivity|]. split; reflexivity. Qed.

(** A chain that leads back to its start is not noticed: of two buffers in use, linked in
    a circle, [recycle_buffers] gives one back twice, and the list of four buffers counts
    five free ones. *)
Lemma circle_recycled_twice :
  let '(bm, m) := made one_size 172 in
  let '(ss, m) := alloc_all bm m 2 in
  match ss, bm_lists bm with
  | [a; b], l :: _ =>
      let m := link_next 76 (link_next 44 m 76) 44 in
      bs_header a = Some 44 /\ bs_header b = Some 76 /\
      match recycle_buffers 4 bm m a with Some m' => load32 m' (cap_at l) = 4 /\ load_i32 m' (size_at l) = 5 | None => False end
  | _, _ => False
  end.
Proof. vm_compute. repeat split. Qed.

(** ** The registry *)

(** Without interruption the registry counts the users of a path: a manager is unmapped
    exactly when its last user leaves. *)
Lemma registry_counts (r : registry) (path : list Z) (fresh : nat) (e : entry) :
  r !! path = Some e -> 0 < ref_count e ->
  let '(id, r1) := registry_get r path fresh in
  let '(r2, u2) := add_ref_count r1 path (-1) in
  id = e_manager e /\ r2 = r /\ u2 = None /\
  (let '(r3, u3) := add_ref_count r path (- ref_count e) in r3 = delete path r /\ u3 = Some (e_manager e)).
Proof.
  intros He Hpos. unfold registry_get. rewrite He. cbv beta iota. unfold add_ref_count, registry_take. rewrite lookup_insert_eq, He. cbn [ref_count e_manager].
  destruct (Z.leb_spec (ref_count e + 1 + -1) 0); [lia|]. destruct (Z.leb_spec (ref_count e + - ref_count e) 0); [|lia]. cbn [registry_put].
  split; [done|]. rewrite delete_insert_eq, insert_delete_eq. replace (ref_count e + 1 + -1) with (ref_count e) by lia. split; [|done].
  rewrite insert_id; [done|]. rewrite He. by destruct e.
Qed.

(** [add_global_buffer_manager_ref_count] lets go of the lock in between: a session that
    asks for the path then is given a second manager of the same shared memory, which
    the registry forgets as soon as the first is put back. *)
Lemma registry_race (path : list Z) :
  let r := {[ path := mkEntry 0 2 ]} : registry in
  let '(r1, e, _) := registry_take r path (-1) in
  let '(id, r2) := registry_get r1 path 1 in
  id = 1%nat /\ registry_put r2 path e !! path = Some (mkEntry 0 1).
Proof.
  cbn zeta. unfold registry_take. rewrite lookup_singleton_eq. cbn [ref_count e_manager]. change (2 + -1 <=? 0) with false. cbv beta iota zeta.
  unfold registry_get. rewrite lookup_delete_eq. cbn [registry_put]. split; [done|]. by rewrite lookup_insert_eq.
Qed.

(** ** Witnesses *)

Lemma manager_crossed_witness :
  exists bm m', bm_create [mkPair 12 50; mkPair 44 50] ∅ 336 0 = Ok (bm, m') /\
    bm_mapping m' 336 0 = Ok (mkBM (layout 8 24 [(12, 4); (44, 2)]) 336 (bm_min bm) (bm_max bm)).
Proof.
  destruct (manager_crossed [mkPair 12 50; mkPair 44 50] ∅ 336) as (bm & m' & H1 & _ & _ & _ & _ & H2 & _).
  - discriminate.
  - reflexivity.
  - repeat constructor; vm_compute; (reflexivity || discriminate).
  - vm_compute. discriminate.
  - repeat constructor; vm_compute; reflexivity.
  - vm_compute. split; [discriminate|reflexivity].
  - exists bm, m'. split; [exact H1|exact H2].
Defined.

(** A manager of four buffers of twelve bytes, two of them in use and linked. *)
Definition sample_geo : list (Z * Z) := [(12, 4)].

Lemma sample_geo_ok : geo_ok 8 sample_geo.
Proof. split; [lia|vm_compute; reflexivity|repeat constructor; lia]. Qed.

Lemma sample_made :
  exists bm m, bm_create one_size ∅ 172 0 = Ok (bm, m) /\ bm = mkBM (layout 8 20 sample_geo) 172 (bm_min bm) (bm_max bm) /\ lists_ok 8 sample_geo m [all_bufs 12 4] /\ bm_max bm = 12.
Proof.
  destruct (manager_built one_size ∅ 172) as (bm & m' & H1 & H2 & _ & _ & H3 & _ & H4).
  - discriminate.
  - reflexivity.
  - repeat constructor; vm_compute; (reflexivity || discriminate).
  - vm_compute. discriminate.
  - repeat constructor; vm_compute; reflexivity.
  - vm_compute. split; [discriminate|reflexivity].
  - exists bm, m'. split; [exact H1|]. split; [exact H2|]. split; [exact H3|]. cbn in H4. congruence.
Qed.

Lemma sample_max : forall i cap num, sample_geo !! i = Some (cap, num) -> cap <= 12.
Proof. intros [|i] cap num Hi; [injection Hi as <- <-; lia|done]. Qed.

Lemma alloc_smallest_witness :
  exists bm m, bm_create one_size ∅ 172 0 = Ok (bm, m) /\
    let '(r, _) := alloc_shm_buffer (mkBM (layout 8 20 sample_geo) 172 (bm_min bm) 12) m 5 in
    exists i cap a, sample_geo !! i = Some (cap, 4) /\ 5 <= cap /\ r = Ok (fresh_slice (handle 8 sample_geo 20 i cap 4) cap a).
Proof.
  destruct sample_made as (bm & m & H1 & H2 & H3 & H4). exists bm, m. split; [exact H1|].
  pose proof (alloc_smallest 8 20 172 (bm_min bm) 12 sample_geo [all_bufs 12 4] m 5 sample_geo_ok (or_introl eq_refl) H3 sample_max) as H.
  destruct (alloc_shm_buffer _ m 5) as [[s|e] m'].
  - destruct H as (i & cap & num & a & b & fl & Hi & _ & Hs & E & _). exists i, cap, a. destruct i as [|i]; [|discriminate Hi]. injection Hi as <- <-.
    split; [reflexivity|]. split; [exact Hs|]. rewrite E. reflexivity.
  - destruct H as (_ & _ & _ & Hn). exfalso. specialize (Hn 0%nat 12 4 (all_bufs 12 4) ltac:(cbn; lia) eq_refl eq_refl ltac:(lia)). vm_compute in Hn. lia.
Defined.

(** Two of the four buffers are in use, the first linked to the second. *)
Lemma sample_linked :
  exists m, lists_ok 8 sample_geo m [[64; 96]] /\ held_buf 8 sample_geo m [[64; 96]] (0%nat, 0) /\ held_buf 8 sample_geo m [[64; 96]] (0%nat, 32) /\
    chain_ok 8 sample_geo m [(0%nat, 0); (0%nat, 32)].
Proof.
  destruct sample_made as (_ & m0 & _ & _ & Hok0 & _). change (all_bufs 12 4) with [0; 32; 64; 96] in Hok0.
  destruct (pop_at 8 sample_geo sample_geo_ok 0 12 4 20 [0; 32; 64; 96] [[0; 32; 64; 96]] m0 (or_introl eq_refl) eq_refl eq_refl Hok0) as (m1 & _ & Hok1 & _ & Hc1 & Hb1 & _).
  destruct (pop_at 8 sample_geo sample_geo_ok 0 12 4 20 [32; 64; 96] [[32; 64; 96]] m1 (or_introl eq_refl) eq_refl eq_refl Hok1) as (m2 & _ & Hok2 & Hs2 & Hc2 & Hb2 & Hn2).
  assert (Ha : mem_agree 44 (44 + 20 + 12) m1 m2) by (apply (proj1 Hs2 0%nat 12 4 0 eq_refl Hb1); intros [_ E%list_elem_of_singleton]; discriminate E).
  assert (H0 : held_buf 8 sample_geo m2 [[64; 96]] (0%nat, 0)).
  { exists 12, 4, [64; 96]. repeat (split; [done || (intros E; repeat (apply elem_of_cons in E as [E|E]; [discriminate E|]); inversion E)|]).
    destruct (header_agree 44 m1 m2 (fun x Hx => Ha x ltac:(lia))) as (_ & _ & E & _). etransitivity; [exact E|exact Hc1]. }
  assert (H1 : held_buf 8 sample_geo m2 [[64; 96]] (0%nat, 32)).
  { exists 12, 4, [64; 96]. repeat (split; [done || (intros E; repeat (apply elem_of_cons in E as [E|E]; [discriminate E|]); inversion E)|]). exact Hc2. }
  destruct (link_next_spec 44 76 m2 ltac:(unfold W32; lia)) as (F3 & N3 & X3 & _).
  destruct (held_write 8 sample_geo sample_geo_ok [[64; 96]] m2 (link_next 44 m2 76) (0%nat, 0) 12 4 Hok2 H0 eq_refl) as (Hok3 & Hh3 & Ha3).
  { apply (mem_frame_weaken 56 61); [vm_compute; discriminate|vm_compute; discriminate|exact F3]. }
  exists (link_next 44 m2 76). split; [exact Hok3|]. split; [by apply Hh3|]. split; [by apply Hh3|]. split; [split; [exact N3|exact X3]|]. split; [|done].
  pose proof (Ha3 (0%nat, 32) 12 4 ltac:(done) H1 eq_refl) as Ha4.
  destruct (header_agree 76 m2 (link_next 44 m2 76)) as (E & _); [intros z Hz; apply Ha4; unfold addr; cbn; lia|]. etransitivity; [exact E|exact Hn2].
Qed.

Lemma chain_recycled_witness :
  exists m m', (forall fuel, (1 < fuel)%nat ->
      recycle_buffers fuel (mkBM (layout 8 24 sample_geo) 172 12 12) m (mkBS (Some 44) 64 12 0 44 0 0 true) = Some m') /\
    lists_ok 8 sample_geo m' [[64; 96; 0; 32]].
Proof.
  destruct sample_linked as (m & Hok & H0 & H1 & Hch). exists m.
  destruct (chain_recycled 8 24 172 12 12 sample_geo [[64; 96]] m (0%nat, 0) [(0%nat, 32)] (mkBS (Some 44) 64 12 0 44 0 0 true)) as (m' & Hr & Hok' & _).
  - exact sample_geo_ok.
  - right. reflexivity.
  - apply NoDup_singleton.
  - vm_compute. split; [discriminate|reflexivity].
  - exact Hok.
  - apply NoDup_cons. split; [intros E%list_elem_of_singleton; discriminate E|apply NoDup_singleton].
  - intros y Hy. apply elem_of_cons in Hy as [->|Hy]; [exact H0|]. apply list_elem_of_singleton in Hy as ->. exact H1.
  - exact Hch.
  - destruct H0 as (cap & num & fl & Hg & _ & _ & _ & Hc). injection Hg as <- <-. split; [reflexivity|]. split; [reflexivity|]. split; [symmetry; exact Hc|reflexivity].
  - exists m'. split; [exact Hr|exact Hok'].
Defined.
