(* ===== verification/LegacyPool.v ===== *)
(** * What the linked buffers rely on: the interface of the buffer manager

    The buffers of a mapping that are in use, as a pool that lends them out, and the laws
    of the operations a linked buffer calls.  The manager of [manager.rs] obeys them, on
    the side that created the mapping and on the side that mapped it alike, so that the
    theorems about linked buffers hold on both sides of a connection. *)

From Stdlib Require Import ZArith Lia.
From stdpp Require Import base numbers list gmap.
From S2P Require Import Prelude Fixed Config LegacyBuf LegacyBufFacts LegacyListNew LegacyManager LegacyManagerFacts.

#[local] Open Scope Z_scope.

(** ** The interface *)

Section interface.
Context {node : Type} (naddr ncap : node -> Z) (len : Z) (pool : mem -> list node -> Prop).

(** The buffers [xs] are untouched, and so is the memory behind the mapping. *)
Definition kept (xs : list node) (m m' : mem) : Prop :=
  (forall x, x ∈ xs -> mem_agree (naddr x) (naddr x + 20 + ncap x) m m') /\ (forall a, len <= a -> rd m' a = rd m a).

(** The slice an allocation returns. *)
Definition fresh (x : node) : BufferSlice := mkBS (Some (naddr x)) (naddr x + 20) (ncap x) 0 (naddr x) 0 0 true.

(** A slice of the buffer [x], wherever its indices are. *)
Definition node_slice (x : node) (s : BufferSlice) : Prop :=
  bs_header s = Some (naddr x) /\ bs_data s = naddr x + 20 /\ bs_cap s = ncap x /\ bs_offset_in_shm s = naddr x /\ bs_from_shm s = true.

Definition caps (xs : list node) : Z := foldr (fun x n => ncap x + n) 0 xs.

(** [pool m xs]: in [m], exactly the buffers [xs] are in use. *)
Class PoolLaws : Prop := {
  pl_perm m xs ys : xs ≡ₚ ys -> pool m xs -> pool m ys;
  pl_nodup m xs : pool m xs -> NoDup xs;
  pl_node m xs x : pool m xs -> x ∈ xs -> 0 < naddr x /\ 0 < ncap x /\ naddr x + 20 + ncap x <= len /\ bh_cap (naddr x) m = ncap x;
  pl_apart m xs x y : pool m xs -> x ∈ xs -> y ∈ xs -> x <> y -> naddr x + 20 + ncap x <= naddr y \/ naddr y + 20 + ncap y <= naddr x;
  pl_write m m' xs x : pool m xs -> x ∈ xs -> mem_frame (naddr x + 4) (naddr x + 20 + ncap x) m m' -> pool m' xs;
  pl_heap m m' xs : pool m xs -> (forall a, a < len -> rd m' a = rd m a) -> pool m' xs;
  pl_len : 0 <= len < W32;
}.

Class ManagerLaws (bm : BufferManager) : Prop := {
  ml_alloc m xs size : pool m xs ->
    match alloc_shm_buffer bm m size with
    | (Ok s, m') => exists x, s = fresh x /\ size <= ncap x /\ pool m' (x :: xs) /\ kept xs m m'
    | (Err _, m') => pool m' xs /\ kept xs m m'
    end;
  ml_alloc_many m xs size : pool m xs ->
    let '(bufs, n, m') := alloc_shm_buffers bm m size in
    exists new, bufs = fresh <$> new /\ n = caps new /\ pool m' (new ++ xs) /\ kept xs m m';
  ml_recycle m x xs s : pool m (x :: xs) -> node_slice x s -> pool (recycle_buffer bm m s) xs /\ kept xs m (recycle_buffer bm m s);
  ml_read m xs x : pool m xs -> x ∈ xs -> read_buffer_slice bm m (naddr x) = Some (slice_new m (Some (naddr x)) (naddr x + 20) (ncap x) (naddr x) true);
}.

Lemma kept_refl (xs : list node) (m : mem) : kept xs m m.
Proof. by split. Qed.

Lemma kept_trans (xs : list node) (m1 m2 m3 : mem) : kept xs m1 m2 -> kept xs m2 m3 -> kept xs m1 m3.
Proof.
  intros [H1 O1] [H2 O2]. split; [intros x Hx; by apply (mem_agree_trans _ _ _ m2); [apply H1|apply H2]|]. intros a Ha. by rewrite O2, O1.
Qed.

Lemma kept_sub (xs ys : list node) (m m' : mem) : xs ⊆ ys -> kept ys m m' -> kept xs m m'.
Proof. intros Hs [H O]. split; [|done]. intros x Hx. by apply H, Hs. Qed.

Lemma caps_app (xs ys : list node) : caps (xs ++ ys) = caps xs + caps ys.
Proof. induction xs as [|x xs IH]; cbn; [done|]. fold (caps (xs ++ ys)) (caps xs). lia. Qed.

End interface.

(** ** The manager obeys it *)

Section manager.
Context (off len mn mx : Z) (geo : list (Z * Z)).
Context (GO : geo_ok off geo) (Hcaps : NoDup (fst <$> geo)) (Hlen : layout_end off geo <= len < W32).
Context (Hmx : forall i cap num, geo !! i = Some (cap, num) -> cap <= mx).

Definition bcap (x : nat * Z) : Z := match geo !! x.1 with Some (cap, _) => cap | None => 0 end.

Definition is_free (fls : list (list Z)) (x : nat * Z) : Prop := exists fl, fls !! x.1 = Some fl /\ x.2 ∈ fl.

Definition in_use (m : mem) (xs : list (nat * Z)) : Prop :=
  exists fls, lists_ok off geo m fls /\ NoDup xs /\ (forall x, x ∈ xs -> held_buf off geo m fls x) /\
    (forall x cap num, geo !! x.1 = Some (cap, num) -> is_buf cap num x.2 -> x ∈ xs \/ is_free fls x).

Abbreviation at_ := (addr off geo).

Abbreviation manager := (fun counter => mkBM (layout off counter geo) len mn mx).

Abbreviation keeps := (kept at_ bcap len).

Lemma bcap_at (x : nat * Z) (cap num : Z) : geo !! x.1 = Some (cap, num) -> bcap x = cap.
Proof. intros E. unfold bcap. by rewrite E. Qed.

Lemma held_same_kept (fls : list (list Z)) (m m' : mem) (xs : list (nat * Z)) :
  (forall x, x ∈ xs -> held_buf off geo m fls x) -> held_same off geo fls m m' -> keeps xs m m'.
Proof.
  intros Hx [Hs Ho]. split; [|intros a Ha; apply Ho; lia]. intros x Hin. destruct (Hx x Hin) as (cap & num & fl & Hg & Hf & Hb & Hfr & _).
  rewrite (bcap_at x cap num Hg). by apply (Hs x.1 cap num fl x.2).
Qed.

Lemma held_kept (fls fls' : list (list Z)) (m m' : mem) (xs : list (nat * Z)) :
  (forall x, x ∈ xs -> held_buf off geo m fls x) -> keeps xs m m' ->
  (forall x fl, x ∈ xs -> fls !! x.1 = Some fl -> exists fl', fls' !! x.1 = Some fl' /\ (x.2 ∉ fl')) -> forall x, x ∈ xs -> held_buf off geo m' fls' x.
Proof.
  intros Hx [Hk _] Hfl x Hin. destruct (Hx x Hin) as (cap & num & fl & Hg & Hf & Hb & Hfr & Hc). destruct (Hfl x fl Hin Hf) as (fl' & Hf' & Hfr').
  exists cap, num, fl'. repeat (split; [done|]). rewrite <- Hc. unfold bh_cap, BUFFER_CAP_OFFSET, load32. symmetry. apply load_ext. intros z Hz. apply (Hk x Hin).
  rewrite (bcap_at x cap num Hg). destruct (start_bounds off geo GO x.1 cap num Hg) as (? & _). lia.
Qed.

(** Taking the first buffer of a list. *)
Lemma in_use_take (fls : list (list Z)) (m m' : mem) (xs : list (nat * Z)) (i : nat) (cap num a b : Z) (fl : list Z) :
  geo !! i = Some (cap, num) -> fls !! i = Some (a :: b :: fl) -> lists_ok off geo m fls -> lists_ok off geo m' (<[i := b :: fl]> fls) -> held_same off geo fls m m' ->
  bh_cap (at_ (i, a)) m' = cap -> is_buf cap num a -> NoDup xs -> (forall x, x ∈ xs -> held_buf off geo m fls x) ->
  (forall x cap num, geo !! x.1 = Some (cap, num) -> is_buf cap num x.2 -> x ∈ xs \/ is_free fls x) ->
  in_use m' ((i, a) :: xs) /\ keeps xs m m'.
Proof.
  intros Hg Hf Hok Hok' Hs Hc Hb Hnd Hx Hall. pose proof (held_same_kept fls m m' xs Hx Hs) as Hk. split; [|done].
  pose proof (fl_nodup _ _ _ _ _ (lo_free _ _ _ _ Hok i cap num _ Hg Hf)) as Hn. apply NoDup_cons in Hn as [Hna Hn].
  assert (Hil : (i < length fls)%nat) by (by eapply lookup_lt_Some). exists (<[i := b :: fl]> fls). split; [done|]. split; [|split].
  - apply NoDup_cons. split; [|done]. intros Hin. destruct (Hx _ Hin) as (? & ? & fl1 & _ & Hf1 & _ & Hfr & _). cbn in Hf1, Hfr. rewrite Hf in Hf1. injection Hf1 as <-. apply Hfr. left.
  - intros x Hin. apply elem_of_cons in Hin as [->|Hin].
    + exists cap, num, (b :: fl). cbn [fst snd]. split; [done|]. split; [by apply list_lookup_insert_eq|]. by split.
    + apply (held_kept fls _ m m' xs Hx Hk); [|done]. intros y fl1 Hy Hf1. destruct (decide (y.1 = i)) as [E|E].
      * exists (b :: fl). rewrite E in Hf1 |- *. rewrite Hf in Hf1. injection Hf1 as <-. split; [by apply list_lookup_insert_eq|].
        destruct (Hx y Hy) as (? & ? & fl2 & _ & Hf2 & _ & Hfr & _). rewrite E, Hf in Hf2. injection Hf2 as <-. intros Hin2. apply Hfr. by right.
      * exists fl1. rewrite list_lookup_insert_ne by done. split; [done|]. destruct (Hx y Hy) as (? & ? & fl2 & _ & Hf2 & _ & Hfr & _). by rewrite Hf1 in Hf2; injection Hf2 as <-.
  - intros y cap' num' Hg' Hb'. destruct (Hall y cap' num' Hg' Hb') as [Hy|(fl1 & Hf1 & Hin)]; [left; by right|]. destruct (decide (y.1 = i)) as [E|E].
    + rewrite E, Hf in Hf1. injection Hf1 as <-. apply elem_of_cons in Hin as [E2|Hin]; [left; destruct y as [y1 y2]; cbn in E, E2; subst; left|].
      right. exists (b :: fl). rewrite E. split; [by apply list_lookup_insert_eq|done].
    + right. exists fl1. by rewrite list_lookup_insert_ne.
Qed.

Lemma in_use_same (fls : list (list Z)) (m m' : mem) (xs : list (nat * Z)) :
  lists_ok off geo m' fls -> held_same off geo fls m m' -> NoDup xs -> (forall x, x ∈ xs -> held_buf off geo m fls x) ->
  (forall x cap num, geo !! x.1 = Some (cap, num) -> is_buf cap num x.2 -> x ∈ xs \/ is_free fls x) -> in_use m' xs /\ keeps xs m m'.
Proof.
  intros Hok' Hs Hnd Hx Hall. pose proof (held_same_kept fls m m' xs Hx Hs) as Hk. split; [|done]. exists fls. split; [done|]. split; [done|]. split; [|done].
  apply (held_kept fls _ m m' xs Hx Hk). intros y fl Hy Hf. exists fl. split; [done|]. destruct (Hx y Hy) as (? & ? & fl2 & _ & Hf2 & _ & Hfr & _). rewrite Hf in Hf2. by injection Hf2 as <-.
Qed.

Lemma node_bounds (m : mem) (fls : list (list Z)) (x : nat * Z) :
  held_buf off geo m fls x -> 0 < at_ x /\ 0 < bcap x /\ at_ x + 20 + bcap x <= len /\ bh_cap (at_ x) m = bcap x.
Proof.
  intros (cap & num & fl & Hg & _ & (k & Hk & Ek) & _ & Hc). rewrite (bcap_at x cap num Hg). destruct (start_bounds off geo GO x.1 cap num Hg) as (H1 & H2 & H3 & H4 & H5).
  pose proof (go_off _ _ GO). unfold list_end, addr in *. assert (0 <= x.2 /\ x.2 + (cap + 20) <= num * (cap + 20)) by nia. lia.
Qed.

#[export] Instance in_use_laws : PoolLaws at_ bcap len in_use.
Proof.
  split.
  - intros m xs ys Hp (fls & H1 & H2 & H3 & H4). exists fls. split; [done|]. split; [by rewrite <- Hp|]. split; [intros x; rewrite <- Hp; apply H3|].
    intros x cap num Hg Hb. rewrite <- Hp. by apply (H4 x cap num).
  - by intros m xs (fls & _ & H & _).
  - intros m xs x (fls & _ & _ & H & _) Hx. by apply (node_bounds m fls), H.
  - intros m xs x y (fls & _ & _ & H & _) Hx Hy Hne. destruct (H x Hx) as (cap & num & fl & Hg & _ & Hb & _). destruct (H y Hy) as (cap' & num' & fl' & Hg' & _ & Hb' & _).
    rewrite (bcap_at x cap num Hg), (bcap_at y cap' num' Hg'). by apply (nodes_apart off geo GO x y cap num cap' num').
  - intros m m' xs x (fls & H1 & H2 & H3 & H4) Hx Hf. destruct (H3 x Hx) as (cap & num & fl & Hg & _). rewrite (bcap_at x cap num Hg) in Hf.
    destruct (held_write off geo GO fls m m' x cap num H1 (H3 x Hx) Hg Hf) as (H5 & H6 & _). exists fls. split; [done|]. split; [done|]. split; [|done]. intros y Hy. by apply H6, H3.
  - intros m m' xs (fls & H1 & H2 & H3 & H4) Hh. exists fls. split; [|split; [done|split; [|done]]].
    + split; [apply (lo_length _ _ _ _ H1)|]. intros i cap num fl Hg Hf. apply (free_list_agree _ _ _ _ m); [by apply (list_geom off geo GO); auto| |by apply (lo_free _ _ _ _ H1)].
      intros a Ha. symmetry. apply Hh. destruct (start_bounds off geo GO i cap num Hg) as (_ & _ & _ & E & ?). lia.
    + intros x Hx. destruct (node_bounds m fls x (H3 x Hx)) as (B1 & B2 & B3 & _). destruct (H3 x Hx) as (cap & num & fl & Hg & Hf & Hb & Hfr & Hc). exists cap, num, fl.
      repeat (split; [done|]). rewrite <- Hc. unfold bh_cap, BUFFER_CAP_OFFSET, load32. apply load_ext. intros z Hz. apply Hh. lia.
  - pose proof (layout_end_ge off geo (go_pos _ _ GO)). pose proof (go_off _ _ GO). lia.
Qed.

(** One [pop] of one of the lists. *)
Lemma pop_in_use (counter : Z) (i : nat) (cap num : Z) (m : mem) (xs : list (nat * Z)) :
  counter_ok counter -> geo !! i = Some (cap, num) -> in_use m xs ->
  match pop (handle off geo counter i cap num) m with
  | (Ok s, m') => exists x, s = fresh at_ bcap x /\ in_use m' (x :: xs) /\ keeps xs m m'
  | (Err _, m') => in_use m' xs /\ keeps xs m m'
  end.
Proof.
  intros Hc Hg (fls & H1 & H2 & H3 & H4). destruct (lookup_lt_is_Some_2 fls i) as [fl Hfl]; [rewrite (lo_length _ _ _ _ H1); by eapply lookup_lt_Some|].
  destruct (pop_at off geo GO i cap num counter fl fls m Hc Hg Hfl H1) as (m' & Hp). fold (handle off geo counter i cap num) in Hp.
  destruct fl as [|a [|b fl]].
  1, 2: destruct Hp as (E & Hok & Hs); rewrite E; apply (in_use_same fls m m' xs Hok); try done; eapply bufs_same_held; [done| |done]; set_solver.
  destruct Hp as (E & Hok & Hs & Hcap & Hb & _). rewrite E. exists (i, a). split; [unfold fresh, fresh_slice; by rewrite (bcap_at (i, a) cap num Hg)|].
  apply (in_use_take fls m m' xs i cap num a b fl Hg Hfl H1 Hok); try done. eapply bufs_same_held; [done| |done]. set_solver.
Qed.

Lemma pop_many_in_use (counter : Z) (i : nat) (cap num : Z) (fuel : nat) (m : mem) (xs : list (nat * Z)) (remain : Z) :
  counter_ok counter -> geo !! i = Some (cap, num) -> in_use m xs ->
  let '(bufs, r, m') := pop_many fuel (handle off geo counter i cap num) m remain in
  exists new, bufs = fresh at_ bcap <$> new /\ remain - r = caps bcap new /\ in_use m' (new ++ xs) /\ keeps xs m m'.
Proof.
  intros Hc Hg. revert m xs remain. induction fuel as [|fuel IH]; intros m xs remain Hu; cbn [pop_many].
  { exists []. cbn. split; [done|]. split; [lia|]. split; [done|apply kept_refl]. }
  destruct (remain <=? 0); [exists []; cbn; split; [done|]; split; [lia|]; split; [done|apply kept_refl]|].
  pose proof (pop_in_use counter i cap num m xs Hc Hg Hu) as Hp. destruct (pop _ m) as [[s|e] m1].
  - destruct Hp as (x & -> & Hu1 & Hk1). cbn [bs_cap fresh]. specialize (IH m1 (x :: xs) (remain - bcap x) Hu1). destruct (pop_many fuel _ m1 _) as [[bufs r] m'].
    destruct IH as (new & -> & Hr & Hu' & Hk'). exists (x :: new). split; [done|]. cbn [caps foldr]. fold (caps bcap new). split; [lia|]. split.
    + apply (pl_perm at_ bcap len in_use m' (new ++ x :: xs)); [|done]. by rewrite <- Permutation_middle.
    + apply (kept_trans _ _ _ _ _ m1); [done|]. apply (kept_sub _ _ _ xs (x :: xs)); [set_solver|done].
  - destruct Hp as [Hu1 Hk1]. exists []. cbn. split; [done|]. split; [lia|]. by split.
Qed.

Lemma pop_lists_in_use (counter : Z) (fuel : nat) (lists : list BufferList) (m : mem) (xs : list (nat * Z)) (remain : Z) :
  counter_ok counter -> Forall (fun l => exists i cap num, geo !! i = Some (cap, num) /\ l = handle off geo counter i cap num) lists -> in_use m xs ->
  let '(bufs, r, m') := pop_lists fuel lists m remain in
  exists new, bufs = fresh at_ bcap <$> new /\ remain - r = caps bcap new /\ in_use m' (new ++ xs) /\ keeps xs m m'.
Proof.
  intros Hc Hl. revert m xs remain. induction Hl as [|l lists (i & cap & num & Hg & ->) Hl IH]; intros m xs remain Hu; cbn [pop_lists].
  { exists []. cbn. split; [done|]. split; [lia|]. split; [done|apply kept_refl]. }
  destruct (remain <=? 0); [exists []; cbn; split; [done|]; split; [lia|]; split; [done|apply kept_refl]|].
  pose proof (pop_many_in_use counter i cap num fuel m xs remain Hc Hg Hu) as Hp. destruct (pop_many fuel _ m remain) as [[bufs r] m1].
  destruct Hp as (new & -> & Hr & Hu1 & Hk1). specialize (IH m1 (new ++ xs) r Hu1). destruct (pop_lists fuel lists m1 r) as [[more r'] m'].
  destruct IH as (new' & -> & Hr' & Hu' & Hk'). exists (new ++ new'). split; [by rewrite fmap_app|]. split; [|split].
  - rewrite caps_app. lia.
  - apply (pl_perm at_ bcap len in_use m' (new' ++ new ++ xs)); [|done]. rewrite !app_assoc. by rewrite (Permutation_app_comm new').
  - apply (kept_trans _ _ _ _ _ m1); [done|]. apply (kept_sub _ _ _ xs (new ++ xs)); [set_solver|done].
Qed.

Lemma layout_handles (counter : Z) : Forall (fun l => exists i cap num, geo !! i = Some (cap, num) /\ l = handle off geo counter i cap num) (layout off counter geo).
Proof. apply Forall_forall. intros l (i & Hi)%list_elem_of_lookup. apply layout_lookup in Hi as (cap & num & Hg & ->). by exists i, cap, num. Qed.

Lemma give_back_frees (fls : list (list Z)) (x y : nat * Z) : is_free fls y -> is_free (give_back fls x) y.
Proof.
  intros (fl & Hf & Hin). unfold give_back. destruct (fls !! x.1) as [fl'|] eqn:E; [|by exists fl]. destruct (decide (y.1 = x.1)) as [E1|E1].
  - rewrite E1, E in Hf. injection Hf as ->. exists (fl ++ [x.2]). rewrite E1. split; [by apply list_lookup_insert_eq; eapply lookup_lt_Some|]. set_solver.
  - exists fl. by rewrite list_lookup_insert_ne.
Qed.

#[export] Instance manager_laws (counter : Z) (Hc : counter_ok counter) : ManagerLaws at_ bcap len in_use (mkBM (layout off counter geo) len mn mx).
Proof.
  split.
  - intros m xs size (fls & H1 & H2 & H3 & H4). pose proof (bm_alloc_spec off geo GO counter len mn mx fls m size Hc H1 Hmx) as Ha. destruct (alloc_shm_buffer _ m size) as [[s|e] m'].
    + destruct Ha as (i & cap & num & a & b & fl & Hg & Hfl & Hs & -> & Hok & Hsame & (? & ? & ? & Hg' & _ & Hb & _ & Hcap) & _). cbn in Hg'. rewrite Hg in Hg'. injection Hg' as <- <-. exists (i, a).
      split; [unfold fresh, fresh_slice; by rewrite (bcap_at (i, a) cap num Hg)|]. split; [by rewrite (bcap_at (i, a) cap num Hg)|].
      by apply (in_use_take fls m m' xs i cap num a b fl Hg Hfl H1 Hok).
    + destruct Ha as (_ & Hok & Hsame & _). by apply (in_use_same fls m m' xs Hok).
  - intros m xs size Hu. unfold alloc_shm_buffers. cbn [bm_lists].
    pose proof (pop_lists_in_use counter (Z.to_nat size) (reverse (layout off counter geo)) m xs size Hc) as Hp. destruct (pop_lists _ _ m size) as [[bufs r] m'].
    apply Hp; [|done]. apply Forall_reverse, layout_handles.
  - intros m x xs s (fls & H1 & H2 & H3 & H4) (S1 & S2 & S3 & S4 & S5). apply NoDup_cons in H2 as [Hx H2].
    destruct (node_bounds m fls x (H3 x ltac:(left))) as (_ & _ & _ & Bc).
    destruct (recycle_buffer_spec off geo GO Hcaps counter len mn mx fls m x s Hc H1 (H3 x ltac:(left))) as (Hok & Hheld & Hout); [by repeat split; try congruence|].
    assert (Hne : forall y, y ∈ xs -> y <> x) by (intros y Hy ->; done). split.
    + exists (give_back fls x). split; [done|]. split; [done|]. split; [intros y Hy; apply Hheld; [by apply Hne|apply H3; by right]|].
      intros y cap num Hg Hb. destruct (H4 y cap num Hg Hb) as [Hy|Hy]; [|right; by apply give_back_frees]. apply elem_of_cons in Hy as [->|Hy]; [|by left]. right.
      destruct (H3 x ltac:(left)) as (? & ? & fl & _ & Hf & _). exists (fl ++ [x.2]). unfold give_back. rewrite Hf. split; [by apply list_lookup_insert_eq; eapply lookup_lt_Some|]. set_solver.
    + split; [|intros a Ha; apply Hout; lia]. intros y Hy. destruct (H3 y ltac:(by right)) as (cap & num & ? & Hg & _). rewrite (bcap_at y cap num Hg).
      destruct (Hheld y (Hne y Hy) (H3 y ltac:(by right))) as [_ Ha]. by apply (Ha cap num).
  - intros m xs x (fls & _ & _ & H3 & _) Hx. rewrite (read_slice_at off geo GO counter len mn mx fls m x Hlen (H3 x Hx)). by destruct (node_bounds m fls x (H3 x Hx)) as (_ & _ & _ & ->).
Qed.

End manager.
