(* ===== verification/Linked.v ===== *)
(** * Linked buffers ([src/src/buffer/linked.rs], [SliceList] of [slice.rs])

    The buffer a stream of protocol version 2 to 4 writes a message into and reads one
    out of: a list of slices, in shared memory or on the heap, and the registry of the
    slices that zero-copy readers still look at.

    The boxed, linked slices are a list, a pointer to one of them is its position; the
    slices of a list have different data pointers, so that comparing slices is comparing
    positions.  The heap of a process is memory behind the mapping that is handed out in
    ascending order and never again. *)

From Stdlib Require Import ZArith Lia.
From stdpp Require Import base numbers list gmap.
From S2P Require Import Prelude Config LegacyBuf LegacyManager.

#[local] Open Scope Z_scope.

Definition DEFAULT_SINGLE_BUFFER_SIZE : Z := 4096.

(** ** The state a buffer lives in *)

(** [SlicePinState] behind an [Arc]: its strong count and the slice retired to it. *)
Record pin : Type := mkPin {
  p_count : nat;
  p_retired : option BufferSlice;
}.

Record world : Type := mkW {
  w_mem : mem;
  w_heap : Z;
  w_pins : gmap nat pin;
  w_fresh : nat;
}.

Definition with_mem (w : world) (m : mem) : world := mkW m (w_heap w) (w_pins w) (w_fresh w).

Definition with_pins (w : world) (pins : gmap nat pin) : world := mkW (w_mem w) (w_heap w) pins (w_fresh w).

(** [slot]: the key of a [PinSlot], a data pointer, and its state. *)
Record LinkedBuffer : Type := mkLB {
  lb_slices : list BufferSlice;
  lb_write : option nat;
  lb_slots : list (Z * nat);
  lb_from_shm : bool;
  lb_len : Z;
}.

Definition lb_new : LinkedBuffer := mkLB [] None [] true 0.

(** [Buf]: memory with the lease that keeps it, or owned bytes. *)
Inductive Buf : Type :=
| BShm (ptr len : Z) (lease : nat)
| BExm (bytes : list Z).

Definition buf_bytes (m : mem) (b : Buf) : list Z :=
  match b with
  | BShm ptr len _ => read_bytes m ptr (Z.to_nat len)
  | BExm bytes => bytes
  end.

Inductive ReadError : Type := NotEnoughData.

(** ** SliceList *)

Definition push_back (lb : LinkedBuffer) (s : BufferSlice) : LinkedBuffer :=
  mkLB (lb_slices lb ++ [s]) (lb_write lb) (lb_slots lb) (lb_from_shm lb) (lb_len lb).

Definition pop_front (lb : LinkedBuffer) : option (BufferSlice * LinkedBuffer) :=
  match lb_slices lb with
  | [] => None
  | s :: slices =>
      let write := match lb_write lb with Some (S k) => Some k | _ => None end in
      Some (s, mkLB slices write (lb_slots lb) (lb_from_shm lb) (lb_len lb))
  end.

(** The slices behind the write slice, cut off. *)
Definition split_from_write (lb : LinkedBuffer) : list BufferSlice * LinkedBuffer :=
  match lb_write lb with
  | None => ([], lb)
  | Some k => (drop (S k) (lb_slices lb), mkLB (take (S k) (lb_slices lb)) (lb_write lb) (lb_slots lb) (lb_from_shm lb) (lb_len lb))
  end.

Definition with_write (lb : LinkedBuffer) (k : option nat) : LinkedBuffer := mkLB (lb_slices lb) k (lb_slots lb) (lb_from_shm lb) (lb_len lb).

Definition with_slice (lb : LinkedBuffer) (k : nat) (s : BufferSlice) : LinkedBuffer :=
  mkLB (<[k := s]> (lb_slices lb)) (lb_write lb) (lb_slots lb) (lb_from_shm lb) (lb_len lb).

Definition with_len (lb : LinkedBuffer) (len : Z) : LinkedBuffer := mkLB (lb_slices lb) (lb_write lb) (lb_slots lb) (lb_from_shm lb) len.

Definition with_slots (lb : LinkedBuffer) (slots : list (Z * nat)) : LinkedBuffer := mkLB (lb_slices lb) (lb_write lb) slots (lb_from_shm lb) (lb_len lb).

Definition with_shm (lb : LinkedBuffer) (b : bool) : LinkedBuffer := mkLB (lb_slices lb) (lb_write lb) (lb_slots lb) b (lb_len lb).

(** ** Pins *)

Section buffer.
Context (bm : BufferManager).

Definition reclaim_slice (w : world) (s : BufferSlice) : world :=
  if bs_from_shm s then with_mem w (recycle_buffer bm (w_mem w) s) else w.

Definition find_slot (slots : list (Z * nat)) (key : Z) : option (nat * nat) :=
  '(i, x) ← list_find (fun x => x.1 = key) slots; Some (i, x.2).

(** [Vec::swap_remove]. *)
Definition swap_remove {A} (i : nat) (l : list A) : list A :=
  match last l with
  | None => l
  | Some x => take (pred (length l)) (<[i := x]> l)
  end.

Definition pin_acquire (w : world) (lb : LinkedBuffer) (s : BufferSlice) : nat * world * LinkedBuffer :=
  match find_slot (lb_slots lb) (bs_data s) with
  | Some (_, id) =>
      (id, with_pins w (alter (fun p => mkPin (S (p_count p)) (p_retired p)) id (w_pins w)), lb)
  | None =>
      let id := w_fresh w in
      (id, mkW (w_mem w) (w_heap w) (<[id := mkPin 2 None]> (w_pins w)) (S id), with_slots lb (lb_slots lb ++ [(bs_data s, id)]))
  end.

Definition strong_count (w : world) (id : nat) : nat := match w_pins w !! id with Some p => p_count p | None => 0 end.

Definition is_pinned (w : world) (lb : LinkedBuffer) (s : BufferSlice) : bool :=
  match find_slot (lb_slots lb) (bs_data s) with
  | Some (_, id) => negb (Nat.eqb (strong_count w id) 1)
  | None => false
  end.

(** Dropping one reference; the last one runs [Drop for SlicePinState]. *)
Definition drop_pin (w : world) (id : nat) : world :=
  match w_pins w !! id with
  | None => w
  | Some p =>
      match p_count p with
      | S (S n) => with_pins w (<[id := mkPin (S n) (p_retired p)]> (w_pins w))
      | _ =>
          let w := with_pins w (delete id (w_pins w)) in
          match p_retired p with Some s => reclaim_slice w s | None => w end
      end
  end.

Definition drop_buf (w : world) (b : Buf) : world := match b with BShm _ _ id => drop_pin w id | BExm _ => w end.

(** [SlicePinState::retire]; the reference it was called on goes at the end. *)
Definition state_retire (w : world) (id : nat) (s : BufferSlice) : world :=
  if Nat.eqb (strong_count w id) 1 then drop_pin (reclaim_slice w s) id
  else drop_pin (with_pins w (alter (fun p => mkPin (p_count p) (Some s)) id (w_pins w))) id.

Definition retire (w : world) (lb : LinkedBuffer) (s : BufferSlice) : world * LinkedBuffer :=
  match find_slot (lb_slots lb) (bs_data s) with
  | Some (i, id) => (state_retire w id s, with_slots lb (swap_remove i (lb_slots lb)))
  | None => (reclaim_slice w s, lb)
  end.

Definition abandon (w : world) (lb : LinkedBuffer) (s : BufferSlice) : world * LinkedBuffer :=
  match find_slot (lb_slots lb) (bs_data s) with
  | Some (i, id) => (drop_pin w id, with_slots lb (swap_remove i (lb_slots lb)))
  | None => (w, lb)
  end.

(** ** Writing *)

(** [vec![0u8; n]] that is never dropped, as a slice. *)
Definition heap_slice (w : world) (n : Z) : world * BufferSlice :=
  let m := write_bytes (w_mem w) (w_heap w) (repeat 0 (Z.to_nat n)) in
  (mkW m (w_heap w + n) (w_pins w) (w_fresh w), slice_new m None (w_heap w) n 0 false).

Definition push_heap (w : world) (lb : LinkedBuffer) (n : Z) : world * LinkedBuffer :=
  let '(w, s) := heap_slice w (Z.max n DEFAULT_SINGLE_BUFFER_SIZE) in
  (w, with_shm (push_back lb s) false).

Definition lb_alloc (w : world) (lb : LinkedBuffer) (size : Z) : world * LinkedBuffer :=
  match alloc_shm_buffer bm (w_mem w) size with
  | (Ok buf, m) => (with_mem w m, push_back lb buf)
  | (Err _, m) =>
      let '(bufs, alloc_size, m) := alloc_shm_buffers bm m size in
      let lb := fold_left push_back bufs lb in
      if size - alloc_size >? 0 then push_heap (with_mem w m) lb (size - alloc_size) else (with_mem w m, lb)
  end.

(** If no slice is being written, allocate and start with the first. *)
Definition start_write (w : world) (lb : LinkedBuffer) (size : Z) : world * LinkedBuffer :=
  match lb_write lb with
  | Some _ => (w, lb)
  | None =>
      let '(w, lb) := lb_alloc w lb (wrap32 size) in
      (w, with_write lb (match lb_slices lb with [] => None | _ => Some 0%nat end))
  end.

(** Reserve in slice [k] and make it the write slice. *)
Definition reserve_in (lb : LinkedBuffer) (k : nat) (size : Z) : option (Z * LinkedBuffer) :=
  s ← lb_slices lb !! k;
  '(ptr, s) ← slice_reserve s size;
  Some (ptr, with_len (with_write (with_slice lb k s) (Some k)) (lb_len lb + size)).

(** [None] is a panic of an [unwrap], or the error of the last [reserve]. *)
Definition lb_reserve (w : world) (lb : LinkedBuffer) (size : Z) : option (Z * world * LinkedBuffer) :=
  let '(w, lb) := start_write w lb size in
  k ← lb_write lb;
  match reserve_in lb k size with
  | Some (ptr, lb) => Some (ptr, w, lb)
  | None =>
      match reserve_in lb (S k) size with
      | Some (ptr, lb) => Some (ptr, w, lb)
      | None =>
          let '(w, lb) :=
            match alloc_shm_buffer bm (w_mem w) (wrap32 size) with
            | (Ok buf, m) => (with_mem w m, push_back lb buf)
            | (Err _, m) => push_heap (with_mem w m) lb size
            end in
          '(ptr, lb) ← reserve_in lb (pred (length (lb_slices lb))) size;
          Some (ptr, w, lb)
      end
  end.

(** The loop of [write_bytes]. *)
Fixpoint write_loop (fuel : nat) (w : world) (lb : LinkedBuffer) (bytes : list Z) : option (world * LinkedBuffer) :=
  match fuel with
  | O => None
  | S fuel =>
      k ← lb_write lb;
      s ← lb_slices lb !! k;
      let '(n, m, s) := slice_append (w_mem w) s bytes in
      let w := with_mem w m in
      let lb := with_slice lb k s in
      let rest := drop (Z.to_nat n) bytes in
      match rest with
      | [] => Some (w, lb)
      | _ =>
          let '(w, lb) :=
            match lb_slices lb !! S k with
            | None => lb_alloc w lb (wrap32 (Z.of_nat (length rest)))
            | Some _ => (w, lb)
            end in
          write_loop fuel w (with_write lb (match lb_slices lb !! S k with Some _ => Some (S k) | None => None end)) rest
      end
  end.

(** Every round but the first writes at least one byte. *)
Definition lb_write_bytes (w : world) (lb : LinkedBuffer) (bytes : list Z) : option (Z * world * LinkedBuffer) :=
  match bytes with
  | [] => Some (0, w, lb)
  | _ =>
      let n := Z.of_nat (length bytes) in
      let '(w, lb) := start_write w lb n in
      '(w, lb) ← write_loop (2 + length bytes) w lb bytes;
      Some (n, w, with_len lb (lb_len lb + n))
  end.

(** ** Handing over *)

Fixpoint update_all (m : mem) (slices : list BufferSlice) : mem :=
  match slices with
  | [] => m
  | s :: slices => update_all (update m s (bs_offset_in_shm <$> head slices)) slices
  end.

Definition recycle_all (m : mem) (slices : list BufferSlice) : mem := fold_left (recycle_buffer bm) slices m.

(** The write slice is the last one once the unused slices are cut off. *)
Definition lb_done (w : world) (lb : LinkedBuffer) : world * LinkedBuffer :=
  if lb_from_shm lb then
    let '(unused, lb) := split_from_write lb in
    let m := update_all (w_mem w) (lb_slices lb) in
    (with_mem w (recycle_all m unused), lb)
  else (w, lb).

Definition root_buf_offset (lb : LinkedBuffer) : Z := match lb_slices lb with [] => 0 | s :: _ => bs_offset_in_shm s end.

Definition lb_cap (lb : LinkedBuffer) : Z := foldr (fun s n => bs_cap s + n) 0 (lb_slices lb).

Definition append_buffer_slice (lb : LinkedBuffer) (s : BufferSlice) : LinkedBuffer :=
  let lb := with_len (with_shm lb (lb_from_shm lb && bs_from_shm s)) (lb_len lb + slice_size s) in
  let lb := push_back lb s in
  with_write lb (Some (pred (length (lb_slices lb)))).

(** [pop_front] until the list is empty, each slice given to [f]. *)
Fixpoint pop_all (f : world -> LinkedBuffer -> BufferSlice -> world * LinkedBuffer) (n : nat) (w : world) (lb : LinkedBuffer) : world * LinkedBuffer :=
  match n with
  | O => (w, lb)
  | S n =>
      match pop_front lb with
      | None => (w, lb)
      | Some (s, lb) => let '(w, lb) := f w lb s in pop_all f n w lb
      end
  end.

Definition emptied (r : world * LinkedBuffer) : world * LinkedBuffer :=
  (r.1, with_len (with_shm (with_write r.2 None) true) 0).

Definition lb_recycle (w : world) (lb : LinkedBuffer) : world * LinkedBuffer :=
  emptied (pop_all retire (length (lb_slices lb)) w lb).

Definition clean_one (w : world) (lb : LinkedBuffer) (s : BufferSlice) : world * LinkedBuffer :=
  if is_pinned w lb s then retire w lb s else abandon w lb s.

Definition lb_clean (w : world) (lb : LinkedBuffer) : world * LinkedBuffer :=
  emptied (pop_all clean_one (length (lb_slices lb)) w lb).

Definition release_previous_read_and_reserve (w : world) (lb : LinkedBuffer) : world * LinkedBuffer :=
  match lb_slices lb with
  | [front] =>
      if lb_len lb =? 0 then
        if is_pinned w lb front then
          match pop_front lb with
          | Some (s, lb) => retire w (with_write lb None) s
          | None => (w, lb)
          end
        else if bs_from_shm front then
          let '(m, s) := reset_for_reuse (w_mem w) front in
          (with_mem w m, with_slice lb 0 s)
        else
          match pop_front lb with
          | Some (s, lb) => retire w lb s
          | None => (w, lb)
          end
      else (w, lb)
  | _ => (w, lb)
  end.

(** ** Reading *)

Definition read_next_slice (w : world) (lb : LinkedBuffer) : world * LinkedBuffer :=
  match pop_front lb with
  | Some (s, lb) => retire w lb s
  | None => (w, lb)
  end.

(** Skip empty slices at the front while [go] holds. *)
Fixpoint skip_empty (fuel : nat) (go : bool) (w : world) (lb : LinkedBuffer) : world * LinkedBuffer :=
  match fuel with
  | O => (w, lb)
  | S fuel =>
      match lb_slices lb with
      | s :: _ => if go && (slice_size s =? 0) then let '(w, lb) := read_next_slice w lb in skip_empty fuel go w lb else (w, lb)
      | [] => (w, lb)
      end
  end.

(** Read from the front slice under a lease. *)
Definition lease_front (w : world) (lb : LinkedBuffer) (s : BufferSlice) (size : Z) : Buf * world * LinkedBuffer :=
  let '(id, w, lb) := pin_acquire w lb s in
  let lb := with_len lb (lb_len lb - size) in
  let '(_, s') := slice_read (w_mem w) s size in
  (BShm (bs_data s + bs_read s) size id, w, with_slice lb 0 s').

Definition read_chunk (w : world) (lb : LinkedBuffer) : result ReadError Buf * world * LinkedBuffer :=
  let '(w, lb) := skip_empty (length (lb_slices lb)) true w lb in
  match lb_slices lb with
  | [] => (Err NotEnoughData, w, lb)
  | s :: _ =>
      let size := slice_size s in
      if (size >? 0) && negb (lb_len lb <? size) then
        let '(b, w, lb) := lease_front w lb s size in (Ok b, w, lb)
      else (Err NotEnoughData, w, lb)
  end.

(** The slow path of [read_exact_bytes]; [None] is a list that runs out, on which the
    loop spins. *)
Fixpoint read_slow (fuel : nat) (w : world) (lb : LinkedBuffer) (size : Z) (acc : list Z) : option (list Z * world * LinkedBuffer) :=
  if size >? 0 then
    match fuel with
    | O => None
    | S fuel =>
        match lb_slices lb with
        | [] => None
        | s :: _ =>
            let '(data, s') := slice_read (w_mem w) s size in
            let lb := with_slice lb 0 s' in
            let n := Z.of_nat (length data) in
            let '(w, lb) := if n =? size then (w, lb) else read_next_slice w lb in
            read_slow fuel w lb (size - n) (acc ++ data)
        end
    end
  else Some (acc, w, lb).

Definition read_exact_bytes (w : world) (lb : LinkedBuffer) (size : Z) : option (result ReadError Buf * world * LinkedBuffer) :=
  if size =? 0 then Some (Ok (BExm []), w, lb)
  else if lb_len lb <? size then Some (Err NotEnoughData, w, lb)
  else
    let '(w, lb) :=
      match lb_slices lb with
      | s :: _ => if slice_size s =? 0 then read_next_slice w lb else (w, lb)
      | [] => (w, lb)
      end in
    let slow :=
      '(data, w, lb) ← read_slow (length (lb_slices lb)) w (with_len lb (lb_len lb - size)) size [];
      Some (Ok (BExm data), w, lb) in
    match lb_slices lb with
    | s :: _ =>
        if slice_size s >=? size then let '(b, w, lb) := lease_front w lb s size in Some (Ok b, w, lb) else slow
    | [] => slow
    end.

Fixpoint peek_slow (m : mem) (slices : list BufferSlice) (size : Z) : list Z :=
  match slices with
  | [] => []
  | s :: slices =>
      if size >? 0 then
        let data := slice_peek m s size in
        data ++ peek_slow m slices (size - Z.of_nat (length data))
      else []
  end.

Definition lb_peek (w : world) (lb : LinkedBuffer) (size : Z) : result ReadError Buf * world * LinkedBuffer :=
  if size =? 0 then (Ok (BExm []), w, lb)
  else if lb_len lb <? size then (Err NotEnoughData, w, lb)
  else
    match lb_slices lb with
    | s :: _ =>
        let '(id, w, lb) := pin_acquire w lb s in
        if Z.of_nat (length (slice_peek (w_mem w) s size)) =? size then (Ok (BShm (bs_data s + bs_read s) size id), w, lb)
        else (Ok (BExm (peek_slow (w_mem w) (lb_slices lb) size)), drop_pin w id, lb)
    | [] => (Ok (BExm (peek_slow (w_mem w) [] size)), w, lb)
    end.

(** [None]: the loop spins on an empty list. *)
Fixpoint discard_loop (fuel : nat) (w : world) (lb : LinkedBuffer) (size n : Z) : option (Z * world * LinkedBuffer) :=
  match fuel with
  | O => None
  | S fuel =>
      match lb_slices lb with
      | [] => None
      | s :: _ =>
          let '(skip, s') := slice_skip s size in
          let lb := with_slice lb 0 s' in
          if size - skip =? 0 then Some (n + skip, w, lb)
          else let '(w, lb) := read_next_slice w lb in discard_loop fuel w lb (size - skip) (n + skip)
      end
  end.

Definition lb_discard (w : world) (lb : LinkedBuffer) (size : Z) : option (result ReadError Z * world * LinkedBuffer) :=
  if lb_len lb <? size then Some (Err NotEnoughData, w, lb)
  else
    '(n, w, lb) ← discard_loop (S (length (lb_slices lb))) w lb size 0;
    Some (Ok n, w, with_len lb (lb_len lb - n)).

Definition release_previous_read (w : world) (lb : LinkedBuffer) : world * LinkedBuffer :=
  match lb_slices lb with
  | [] => (w, lb)
  | s :: _ =>
      if (slice_size s =? 0) && bool_decide (lb_write lb = Some 0%nat) then
        match pop_front lb with
        | Some (s, lb) => let '(w, lb) := retire w lb s in (w, with_write lb None)
        | None => (w, lb)
        end
      else (w, lb)
  end.

(** The copying loop of [read_available_into]: [room] is what the destination still
    takes, [slices] how many slices may still be used up. *)
Fixpoint copy_loop (fuel : nat) (w : world) (lb : LinkedBuffer) (room : Z) (slices : nat) (acc : list Z) :
    option (result ReadError (list Z) * world * LinkedBuffer) :=
  if (lb_len lb >? 0) && (room >? 0) && negb (Nat.eqb slices 0) then
    match fuel with
    | O => None
    | S fuel =>
        match lb_slices lb with
        | [] => Some (Err NotEnoughData, w, lb)
        | s :: _ =>
            let available := slice_size s in
            if available >? 0 then
              let read_size := Z.min available room in
              let '(data, s') := slice_read (w_mem w) s read_size in
              let lb := with_len (with_slice lb 0 s') (lb_len lb - read_size) in
              if read_size =? available then
                let '(w, lb) := if lb_len lb >? 0 then read_next_slice w lb else (w, lb) in
                copy_loop fuel w lb (room - read_size) (pred slices) (acc ++ data)
              else Some (Ok (acc ++ data), w, lb)
            else Some (Err NotEnoughData, w, lb)
        end
    end
  else Some (Ok acc, w, lb).

(** The bytes put into the destination; [None] is the failed assertion. *)
Definition read_available_into (w : world) (lb : LinkedBuffer) (room : Z) (max_slices : nat) : option (result ReadError (list Z) * world * LinkedBuffer) :=
  if room =? 0 then Some (Ok [], w, lb)
  else if Nat.eqb max_slices 0 then None
  else if lb_len lb =? 0 then Some (Err NotEnoughData, w, lb)
  else
    let '(w, lb) := skip_empty (length (lb_slices lb)) (lb_len lb >? 0) w lb in
    copy_loop (S (length (lb_slices lb))) w lb room max_slices [].

End buffer.
