(* ===== verification/LinkedFacts.v ===== *)
(** * Linked buffers: the memory behind the slices

    A slice stands for a resource, a buffer of the pool or a block of the heap.  Here are
    the resources that are owned, what the operations on a slice do to them, and the bytes
    that a list of slices holds. *)

From Stdlib Require Import ZArith Lia.
From stdpp Require Import base numbers list gmap.
From S2P Require Import Prelude Config LegacyBuf LegacyBufFacts LegacyManager LegacyPool Linked.

#[local] Open Scope Z_scope.

(** The bytes of a slice that are not read yet, and those of a list of slices. *)
Definition sbytes (m : mem) (s : BufferSlice) : list Z := read_bytes m (bs_data s + bs_read s) (Z.to_nat (slice_size s)).

Definition contents (m : mem) (ss : list BufferSlice) : list Z := mjoin (sbytes m <$> ss).

(** Nothing written yet. *)
Definition unwritten (s : BufferSlice) : Prop := bs_start s = 0 /\ bs_read s = 0 /\ bs_write s = 0.

Inductive res (node : Type) : Type :=
| RShm (x : node)
| RHeap (a n : Z).

Arguments RShm {node} x.
Arguments RHeap {node} a n.

Section resources.
Context {node : Type} (naddr ncap : node -> Z) (len : Z) (pool : mem -> list node -> Prop).

Abbreviation res := (res node).

Definition lo (r : res) : Z := match r with RShm x => naddr x | RHeap a _ => a end.

Definition dlo (r : res) : Z := match r with RShm x => naddr x + 20 | RHeap a _ => a end.

Definition hi (r : res) : Z := match r with RShm x => naddr x + 20 + ncap x | RHeap a n => a + n end.

Definition nodes_of (rs : list res) : list node := omap (fun r => match r with RShm x => Some x | RHeap _ _ => None end) rs.

Definition is_shm (r : res) : bool := match r with RShm _ => true | RHeap _ _ => false end.

(** The slice of a resource, wherever its indices are. *)
Definition slice_at (r : res) (s : BufferSlice) : Prop :=
  match r with
  | RShm x => node_slice naddr ncap x s
  | RHeap a n => bs_header s = None /\ bs_data s = a /\ bs_cap s = n /\ bs_from_shm s = false
  end.

Definition srep (r : res) (s : BufferSlice) : Prop := slice_at r s /\ 0 <= bs_read s <= bs_write s /\ bs_write s <= bs_cap s.

(** What is owned in a world. *)
Record winv (w : world) (rs : list res) : Prop := {
  wi_pool : pool (w_mem w) (nodes_of rs);
  wi_len : len <= w_heap w;
  wi_nodup : NoDup rs;
  wi_heap a n : RHeap a n ∈ rs -> len <= a /\ 0 < n /\ a + n <= w_heap w;
  wi_apart a n b k : RHeap a n ∈ rs -> RHeap b k ∈ rs -> RHeap (node := node) a n <> RHeap b k -> a + n <= b \/ b + k <= a;
}.

Definition same (rs : list res) (m m' : mem) : Prop := forall r, r ∈ rs -> mem_agree (lo r) (hi r) m m'.

Lemma same_refl (rs : list res) (m : mem) : same rs m m.
Proof. by intros r _ a _. Qed.

Lemma same_trans (rs : list res) (m1 m2 m3 : mem) : same rs m1 m2 -> same rs m2 m3 -> same rs m1 m3.
Proof. intros H1 H2 r Hr. by apply (mem_agree_trans _ _ _ m2); [apply H1|apply H2]. Qed.

Lemma same_sub (rs rs' : list res) (m m' : mem) : rs ⊆ rs' -> same rs' m m' -> same rs m m'.
Proof. intros Hs H r Hr. by apply H, Hs. Qed.

Lemma elem_nodes (x : node) (rs : list res) : x ∈ nodes_of rs <-> RShm x ∈ rs.
Proof.
  unfold nodes_of. rewrite list_elem_of_omap. split; [intros ([y|a n] & Hr & E); [by injection E as ->|done]|intros H; by exists (RShm x)].
Qed.

Lemma nodes_of_app (rs rs' : list res) : nodes_of (rs ++ rs') = nodes_of rs ++ nodes_of rs'.
Proof. apply omap_app. Qed.

Lemma nodes_of_shm (xs : list node) : nodes_of (RShm <$> xs) = xs.
Proof. induction xs as [|x xs IH]; [done|]. cbn. by f_equal. Qed.

Context {PL : PoolLaws naddr ncap len pool}.

Lemma winv_perm (w : world) (rs rs' : list res) : rs ≡ₚ rs' -> winv w rs -> winv w rs'.
Proof.
  intros Hp [H1 H2 H3 H4 H5]. split; [| done| by rewrite <- Hp | |].
  - apply (pl_perm naddr ncap len pool (w_mem w) (nodes_of rs)); [|done]. unfold nodes_of. by rewrite Hp.
  - intros a n. rewrite <- Hp. apply H4.
  - intros a n b k. rewrite <- Hp. apply H5.
Qed.

Lemma bounds (w : world) (rs : list res) (r : res) : winv w rs -> r ∈ rs -> 0 <= lo r /\ lo r <= dlo r /\ dlo r < hi r /\ hi r <= w_heap w.
Proof.
  intros [H1 H2 H3 H4 H5] Hr. pose proof (pl_len naddr ncap len pool). destruct r as [x|a n]; cbn.
  - destruct (pl_node naddr ncap len pool _ _ x H1) as (? & ? & ? & _); [by apply elem_nodes|]. lia.
  - destruct (H4 a n Hr) as (? & ? & ?). lia.
Qed.

Lemma apart (w : world) (rs : list res) (r r' : res) : winv w rs -> r ∈ rs -> r' ∈ rs -> r <> r' -> hi r <= lo r' \/ hi r' <= lo r.
Proof.
  intros [H1 H2 H3 H4 H5] Hr Hr' Hne.
  assert (Hs : forall x, RShm x ∈ rs -> naddr x + 20 + ncap x <= len) by (intros x Hx%elem_nodes; by destruct (pl_node naddr ncap len pool _ _ x H1 Hx) as (_ & _ & ? & _)).
  destruct r as [x|a n], r' as [y|b k]; cbn.
  - apply (pl_apart naddr ncap len pool _ _ x y H1); [by apply elem_nodes..|congruence].
  - specialize (Hs x Hr). destruct (H4 b k Hr'). lia.
  - specialize (Hs y Hr'). destruct (H4 a n Hr). lia.
  - by apply H5.
Qed.

Lemma slice_at_data (r : res) (s : BufferSlice) : slice_at r s -> bs_data s = dlo r /\ bs_cap s = hi r - dlo r /\ bs_from_shm s = is_shm r.
Proof. destruct r; cbn; [intros (_ & -> & -> & _ & ->)|intros (_ & -> & -> & ->)]; (split; [done|]; split; [lia|done]). Qed.

Lemma same_slice (rs : list res) (r : res) (s : BufferSlice) (m m' : mem) : same rs m m' -> r ∈ rs -> lo r <= dlo r -> srep r s -> sbytes m' s = sbytes m s.
Proof.
  intros Hs Hr Hl [Ha Hb]. destruct (slice_at_data r s Ha) as (Ed & Ec & _). unfold sbytes. symmetry. apply read_bytes_ext. intros a Hx. apply (Hs r Hr). unfold slice_size in Hx. lia.
Qed.

Lemma same_contents (w : world) (rs all : list res) (ss : list BufferSlice) (m m' : mem) :
  winv w all -> rs ⊆ all -> same rs m m' -> Forall2 srep rs ss -> contents m' ss = contents m ss.
Proof.
  intros W Hsub Hs HF. unfold contents. f_equal. induction HF as [|r s rs ss Hr HF IH]; [done|]. cbn [fmap list_fmap]. f_equal.
  - apply (same_slice (r :: rs) r); [done|left|by destruct (bounds w all r W (Hsub r ltac:(left))) as (_ & ? & _)|done].
  - apply IH; [set_solver|]. eapply same_sub; [|done]. set_solver.
Qed.

Lemma contents_app (m : mem) (ss ss' : list BufferSlice) : contents m (ss ++ ss') = contents m ss ++ contents m ss'.
Proof. unfold contents. by rewrite fmap_app, join_app. Qed.

Lemma contents_cons (m : mem) (s : BufferSlice) (ss : list BufferSlice) : contents m (s :: ss) = sbytes m s ++ contents m ss.
Proof. done. Qed.

Lemma sbytes_unwritten (m : mem) (s : BufferSlice) : unwritten s -> sbytes m s = [].
Proof. intros (_ & E1 & E2). unfold sbytes, slice_size. by rewrite E1, E2. Qed.

Lemma contents_unwritten (m : mem) (ss : list BufferSlice) : Forall unwritten ss -> contents m ss = [].
Proof. induction 1 as [|s ss Hs _ IH]; [done|]. rewrite contents_cons, sbytes_unwritten by done. done. Qed.

Lemma sbytes_length (m : mem) (s : BufferSlice) : bs_read s <= bs_write s -> Z.of_nat (length (sbytes m s)) = slice_size s.
Proof. intros H. unfold sbytes. rewrite read_bytes_length. unfold slice_size. lia. Qed.

(** ** The world changes *)

Context `{EqDecision node}.

#[export] Instance res_eq_dec : EqDecision res.
Proof. solve_decision. Defined.

Lemma dlo_inj (w : world) (rs : list res) (r r' : res) : winv w rs -> r ∈ rs -> r' ∈ rs -> dlo r = dlo r' -> r = r'.
Proof.
  intros W Hr Hr' E. destruct (decide (r = r')) as [|Hne]; [done|]. pose proof (bounds w rs r W Hr). pose proof (bounds w rs r' W Hr'). destruct (apart w rs r r' W Hr Hr' Hne); lia.
Qed.

(** Buffers taken from the pool. *)
Lemma winv_taken (w : world) (rs : list res) (xs : list node) (m' : mem) :
  winv w rs -> pool m' (xs ++ nodes_of rs) -> kept naddr ncap len (nodes_of rs) (w_mem w) m' -> winv (with_mem w m') ((RShm <$> xs) ++ rs) /\ same rs (w_mem w) m'.
Proof.
  intros W Hp [Hk Ho]. pose proof W as [H1 H2 H3 H4 H5].
  assert (Hh : forall a n, RHeap a n ∈ (RShm <$> xs) ++ rs -> RHeap a n ∈ rs) by (intros a n [(? & ? & _)%list_elem_of_fmap|?]%elem_of_app; done).
  split; [split|].
  - cbn. by rewrite nodes_of_app, nodes_of_shm.
  - done.
  - apply NoDup_app. pose proof (pl_nodup naddr ncap len pool _ _ Hp) as Hn. apply NoDup_app in Hn as (Hn1 & Hn2 & Hn3). split; [|split; [|done]].
    + apply NoDup_fmap; [by intros x y [=]|done].
    + intros r (x & -> & Hx)%list_elem_of_fmap Hr. apply (Hn2 x Hx). by apply elem_nodes.
  - intros a n Hr%Hh. cbn. by apply H4.
  - intros a n b k Hr%Hh Hr'%Hh. by apply H5.
  - intros [x|a n] Hr; cbn.
    + apply Hk. by apply elem_nodes.
    + intros z Hz. symmetry. apply Ho. destruct (H4 a n Hr). lia.
Qed.

(** Memory written inside one resource, the capacity of a buffer left alone. *)
Definition wlo (r : res) : Z := match r with RShm x => naddr x + 4 | RHeap a _ => a end.

Lemma winv_write (w : world) (rs : list res) (r : res) (m' : mem) :
  winv w rs -> r ∈ rs -> mem_frame (wlo r) (hi r) (w_mem w) m' ->
  winv (with_mem w m') rs /\ forall r', r' ∈ rs -> r' <> r -> mem_agree (lo r') (hi r') (w_mem w) m'.
Proof.
  intros W Hr Hf. pose proof W as [H1 H2 H3 H4 H5]. split.
  - split; [|done..]. cbn. destruct r as [x|a n]; cbn in Hf.
    + apply (pl_write naddr ncap len pool (w_mem w) m' _ x H1); [by apply elem_nodes|done].
    + apply (pl_heap naddr ncap len pool (w_mem w) m' _ H1). intros z Hz. apply Hf. destruct (H4 a n Hr). lia.
  - intros r' Hr' Hne z Hz. symmetry. apply Hf. destruct (apart w rs r r' W Hr Hr' ltac:(done)) as [H|H]; [lia|]. assert (lo r <= wlo r) by (destruct r; cbn; lia). lia.
Qed.

(** A block of the heap. *)
Lemma winv_heap (w : world) (rs : list res) (n : Z) :
  winv w rs -> 0 < n < W32 ->
  let '(w', s) := heap_slice w n in
  winv w' (RHeap (w_heap w) n :: rs) /\ same rs (w_mem w) (w_mem w') /\ slice_at (RHeap (w_heap w) n) s /\ unwritten s /\
  w_pins w' = w_pins w /\ w_fresh w' = w_fresh w.
Proof.
  intros W Hn. pose proof W as [H1 H2 H3 H4 H5]. unfold heap_slice, slice_new.
  assert (Hf : mem_frame (w_heap w) (w_heap w + n) (w_mem w) (write_bytes (w_mem w) (w_heap w) (repeat 0 (Z.to_nat n)))) by (apply mem_frame_write_bytes; rewrite ?repeat_length; lia).
  set (m' := write_bytes _ _ _) in *. split; [split|].
  - cbn. apply (pl_heap naddr ncap len pool (w_mem w) _ _ H1). intros z Hz. apply Hf. lia.
  - cbn. lia.
  - apply NoDup_cons. split; [|done]. intros Hin. destruct (H4 _ _ Hin). lia.
  - intros a k Hin. cbn. apply elem_of_cons in Hin as [[= -> ->]|Hin]; [lia|]. destruct (H4 a k Hin). lia.
  - intros a k b k' [[= -> ->]|Ha]%elem_of_cons [[= -> ->]|Hb]%elem_of_cons Hne; [done|destruct (H4 b k' Hb); lia|destruct (H4 a k Ha); lia|by apply H5].
  - cbn. split; [|split; [|done]].
    + intros r Hr z Hz. symmetry. apply Hf. pose proof (bounds w rs r W Hr). lia.
    + repeat split. apply wrap32_small. lia.
Qed.

Context (bm : BufferManager) {ML : ManagerLaws naddr ncap len pool bm}.

(** A slice given back. *)
Lemma winv_reclaim (w : world) (rs : list res) (r : res) (s : BufferSlice) :
  winv w (r :: rs) -> slice_at r s ->
  winv (reclaim_slice bm w s) rs /\ same rs (w_mem w) (w_mem (reclaim_slice bm w s)) /\
  w_pins (reclaim_slice bm w s) = w_pins w /\ w_fresh (reclaim_slice bm w s) = w_fresh w /\ w_heap (reclaim_slice bm w s) = w_heap w.
Proof.
  intros W Hs. pose proof W as [H1 H2 H3 H4 H5]. unfold reclaim_slice. destruct (slice_at_data r s Hs) as (_ & _ & ->). apply NoDup_cons in H3 as [Hn H3].
  destruct r as [x|a n]; cbn [is_shm].
  - cbn in H1. destruct (ml_recycle naddr ncap len pool (w_mem w) x (nodes_of rs) s H1 Hs) as [Hp [Hk Ho]]. split; [split|split].
    + done.
    + done.
    + done.
    + intros a n Hr. apply H4. by right.
    + intros a n b k Ha Hb. apply H5; by right.
    + intros [y|a n] Hr; cbn; [apply Hk; by apply elem_nodes|]. intros z Hz. symmetry. apply Ho. destruct (H4 a n ltac:(by right)). lia.
    + done.
  - split; [|split; [apply same_refl|done]]. split; try done.
    + intros b k Hr. apply H4. by right.
    + intros b k b' k' Ha Hb. apply H5; by right.
Qed.

End resources.
