(* ===== verification/LinkedWrite.v ===== *)
(** * Writing into a linked buffer *)

From Stdlib Require Import ZArith Lia.
From stdpp Require Import base numbers list gmap.
From S2P Require Import Prelude Config LegacyBuf LegacyBufFacts LegacyManager LegacyPool Linked LinkedFacts.

#[local] Open Scope Z_scope.

Section write.
Context {node : Type} `{EqDecision node} (naddr ncap : node -> Z) (len : Z) (pool : mem -> list node -> Prop).
Context {PL : PoolLaws naddr ncap len pool} (bm : BufferManager) {ML : ManagerLaws naddr ncap len pool bm}.

Abbreviation res := (res node).
Abbreviation srep := (srep naddr ncap).
Abbreviation winv := (winv len pool).
Abbreviation same := (same naddr ncap).
Abbreviation lo := (lo naddr).
Abbreviation dlo := (dlo naddr).
Abbreviation hi := (hi naddr ncap).

(** A buffer that is written, on the resources [rs], holds [data]: nothing behind the
    write slice is written, and nothing is read. *)
Record wr_ok (m : mem) (lb : LinkedBuffer) (rs : list res) (data : list Z) : Prop := {
  wo_slices : Forall2 srep rs (lb_slices lb);
  wo_write : match lb_write lb with
    | None => lb_slices lb = []
    | Some k => (k < length (lb_slices lb))%nat /\ Forall unwritten (drop (S k) (lb_slices lb))
    end;
  wo_start : Forall (fun s => bs_start s = 0 /\ bs_read s = 0) (lb_slices lb);
  wo_data : contents m (lb_slices lb) = data;
  wo_shm : lb_from_shm lb = true -> forallb is_shm rs = true;
}.

(** Only slices that are not written are appended. *)
Record grown (lb lb' : LinkedBuffer) (new : list res) : Prop := {
  gr_slices : exists ss, lb_slices lb' = lb_slices lb ++ ss /\ Forall2 srep new ss /\ Forall unwritten ss;
  gr_rest : lb_write lb' = lb_write lb /\ lb_len lb' = lb_len lb /\ lb_slots lb' = lb_slots lb;
  gr_shm : lb_from_shm lb' = true -> lb_from_shm lb = true /\ forallb is_shm new = true;
}.

(** Everything but memory and heap stays. *)
Definition pins_same (w w' : world) : Prop := w_pins w' = w_pins w /\ w_fresh w' = w_fresh w.

Lemma fresh_rep (w : world) (rs : list res) (x : node) : winv w rs -> RShm x ∈ rs -> srep (RShm x) (fresh naddr ncap x) /\ unwritten (fresh naddr ncap x).
Proof.
  intros W Hx. split; [|done]. pose proof (bounds naddr ncap len pool w rs _ W Hx) as Hb. cbn in Hb. split; [by repeat split|]. cbn. lia.
Qed.

Lemma heap_rep (a n : Z) (s : BufferSlice) : 0 < n -> slice_at naddr ncap (RHeap a n) s -> unwritten s -> srep (RHeap a n) s.
Proof. intros Hn Hs (_ & E1 & E2). pose proof Hs as (_ & _ & E3 & _). split; [done|]. lia. Qed.

Lemma push_all (bufs : list BufferSlice) (lb : LinkedBuffer) :
  fold_left push_back bufs lb = mkLB (lb_slices lb ++ bufs) (lb_write lb) (lb_slots lb) (lb_from_shm lb) (lb_len lb).
Proof.
  revert lb. induction bufs as [|s bufs IH]; intros lb; [cbn; by rewrite app_nil_r; destruct lb|]. cbn [fold_left]. rewrite IH. cbn. by rewrite <- app_assoc.
Qed.

(** The heap block appended when shared memory does not suffice. *)
Lemma push_heap_spec (w : world) (lb : LinkedBuffer) (rs : list res) (n : Z) :
  winv w rs -> 0 < n < W32 ->
  let '(w', lb') := push_heap w lb n in
  exists r, grown lb lb' [r] /\ winv w' (r :: rs) /\ same rs (w_mem w) (w_mem w') /\ pins_same w w' /\ n <= hi r - dlo r.
Proof.
  intros W Hn. unfold push_heap. set (k := Z.max n DEFAULT_SINGLE_BUFFER_SIZE). assert (Hk : 0 < k < W32) by (unfold k, DEFAULT_SINGLE_BUFFER_SIZE, W32 in *; lia).
  pose proof (winv_heap naddr ncap len pool w rs k W Hk) as H. destruct (heap_slice w k) as [w' s]. destruct H as (W' & Hs & Ha & Hu & Hp).
  exists (RHeap (w_heap w) k). split; [|split; [done|split; [done|split; [done|cbn; lia]]]]. split; [|done|done]. exists [s]. split; [done|]. split; [|by apply Forall_singleton].
  apply Forall2_cons. split; [|done]. apply heap_rep; [lia|done..].
Qed.

Lemma caps_nonneg (w : world) (rs : list res) (xs : list node) : winv w rs -> (RShm <$> xs) ⊆ rs -> 0 <= caps ncap xs.
Proof.
  intros W. induction xs as [|x xs IH]; intros Hs; cbn; [lia|]. fold (caps ncap xs). pose proof (bounds naddr ncap len pool w rs (RShm x) W ltac:(apply Hs; left)) as Hb. cbn in Hb.
  specialize (IH ltac:(set_solver)). lia.
Qed.

Lemma lb_alloc_spec (w : world) (lb : LinkedBuffer) (rs : list res) (size : Z) :
  winv w rs -> 0 < size < W32 ->
  let '(w', lb') := lb_alloc bm w lb size in
  exists new, grown lb lb' new /\ new <> [] /\ winv w' (new ++ rs) /\ same rs (w_mem w) (w_mem w') /\ pins_same w w'.
Proof.
  intros W Hn. unfold lb_alloc. pose proof (ml_alloc naddr ncap len pool (w_mem w) (nodes_of rs) size (wi_pool _ _ _ _ W)) as Ha.
  destruct (alloc_shm_buffer bm (w_mem w) size) as [[s|e] m1].
  - destruct Ha as (x & -> & _ & Hp & Hk). destruct (winv_taken naddr ncap len pool w rs [x] m1 W Hp Hk) as [W' Hs]. exists [RShm x]. split; [|done].
    destruct (fresh_rep _ _ x W' ltac:(left)) as [Hr Hu]. split; [|done|done]. exists [fresh naddr ncap x]. split; [done|]. split; [by apply Forall2_cons|by apply Forall_singleton].
  - destruct Ha as [Hp Hk]. destruct (winv_taken naddr ncap len pool w rs [] m1 W Hp Hk) as [W1 Hs1]. cbn [fmap list_fmap app] in W1.
    pose proof (ml_alloc_many naddr ncap len pool m1 (nodes_of rs) size (wi_pool _ _ _ _ W1)) as Hm.
    destruct (alloc_shm_buffers bm m1 size) as [[bufs n] m2]. destruct Hm as (xs & -> & -> & Hp2 & Hk2).
    destruct (winv_taken naddr ncap len pool (with_mem w m1) rs xs m2 W1 Hp2 Hk2) as [W2 Hs2]. cbn [with_mem w_mem] in Hs2.
    assert (Hs : same rs (w_mem w) m2) by (by apply (same_trans _ _ _ _ m1)). change (with_mem (with_mem w m1) m2) with (with_mem w m2) in W2.
    rewrite push_all. set (lb1 := mkLB _ _ _ _ _).
    assert (Hg : grown lb lb1 (RShm <$> xs)).
    { split; [|done|intros H; split; [done|by clear; induction xs]]. exists (fresh naddr ncap <$> xs). split; [done|].
      assert (Hx : forall x, x ∈ xs -> srep (RShm x) (fresh naddr ncap x) /\ unwritten (fresh naddr ncap x)) by (intros x Hx; apply (fresh_rep _ _ x W2); apply elem_of_app; left; by apply list_elem_of_fmap_2).
      clear -Hx. induction xs as [|x xs IH]; [by split; constructor|]. destruct (Hx x ltac:(left)). destruct IH as [H1 H2]; [intros y Hy; apply Hx; by right|].
      split; [by apply Forall2_cons|by apply Forall_cons]. }
    rewrite Z.gtb_ltb. destruct (Z.ltb_spec 0 (size - caps ncap xs)) as [Hr|Hr].
    + pose proof (caps_nonneg _ _ xs W2 ltac:(set_solver)) as Hc. pose proof (push_heap_spec (with_mem w m2) lb1 _ (size - caps ncap xs) W2 ltac:(lia)) as H.
      destruct (push_heap _ lb1 _) as [w' lb']. destruct H as (r & [(ss & E & HF & HU) G2 G3] & W' & Hs' & Hp' & _). cbn [with_mem w_mem] in Hs'. exists ((RShm <$> xs) ++ [r]).
      destruct Hg as [(ss1 & E1 & HF1 & HU1) G21 G31]. split; [|split; [|split; [|split]]].
      * split.
        -- exists (ss1 ++ ss). rewrite E, E1, app_assoc. split; [done|]. split; [by apply Forall2_app|by apply Forall_app].
        -- destruct G2 as (-> & -> & ->). done.
        -- intros Hsh. destruct (G3 Hsh) as [H1 H2]. destruct (G31 H1) as [H3 H4]. split; [done|]. by rewrite forallb_app, H4.
      * by destruct xs.
      * eapply winv_perm; [done| |done]. rewrite (Permutation_app_comm _ [r]). done.
      * apply (same_trans _ _ _ _ m2); [done|]. eapply same_sub; [|done]. set_solver.
      * done.
    + exists (RShm <$> xs). split; [done|]. split; [|done]. intros E. destruct xs; [cbn in Hr; lia|done].
Qed.

Lemma wr_ok_grow (m m' : mem) (w : world) (lb lb' : LinkedBuffer) (rs new others : list res) (data : list Z) (k : nat) :
  wr_ok m lb rs data -> grown lb lb' new -> winv w (rs ++ others) -> same (rs ++ others) m m' ->
  (k < length (lb_slices lb'))%nat -> Forall unwritten (drop (S k) (lb_slices lb')) -> wr_ok m' (with_write lb' (Some k)) (rs ++ new) data.
Proof.
  intros [H1 H2 H3 H4 H5] [(ss & E & HF & HU) _ G3] W Hs Hk Hd. split; cbn [with_write lb_slices lb_write lb_from_shm].
  - rewrite E. by apply Forall2_app.
  - done.
  - rewrite E. apply Forall_app. split; [done|]. eapply Forall_impl; [exact HU|]. by intros s (? & ? & _).
  - rewrite E, contents_app, (contents_unwritten _ ss HU), app_nil_r, <- H4. apply (same_contents naddr ncap len pool w rs (rs ++ others)); [exact W|set_solver|by eapply same_sub; [|exact Hs]; set_solver|done].
  - intros Hsh. destruct (G3 Hsh) as [H6 H7]. by rewrite forallb_app, H5, H7.
Qed.

(** The bytes of the slice at [k] change, those behind it hold nothing. *)
Lemma contents_set (w : world) (rs others : list res) (ss : list BufferSlice) (k : nat) (r : res) (s s' : BufferSlice) (m m' : mem) (b : list Z) :
  winv w (rs ++ others) -> Forall2 srep rs ss -> ss !! k = Some s -> rs !! k = Some r -> Forall unwritten (drop (S k) ss) ->
  (forall r', r' ∈ rs -> r' <> r -> mem_agree (lo r') (hi r') m m') -> sbytes m' s' = sbytes m s ++ b ->
  contents m' (<[k := s']> ss) = contents m ss ++ b.
Proof.
  intros W HF Hk Hr Hu Ho Hb. pose proof (wi_nodup _ _ _ _ W) as Hn. apply NoDup_app in Hn as (Hn & _ & _).
  rewrite insert_take_drop by (by eapply lookup_lt_Some). rewrite contents_app, contents_cons, (contents_unwritten m' _ Hu), app_nil_r.
  rewrite <- (take_drop_middle _ _ _ Hk) at 2. rewrite contents_app, contents_cons, (contents_unwritten m _ Hu), app_nil_r, Hb, app_assoc. do 2 f_equal.
  eapply (same_contents naddr ncap len pool w (take k rs) (rs ++ others)); [exact W| | |by apply Forall2_take].
  - intros x Hx. apply elem_of_app. left. by eapply elem_of_subseteq; [apply subseteq_take|].
  - intros r' Hr'. apply elem_of_take in Hr' as (i & Hi & Hlt). apply Ho; [by eapply list_elem_of_lookup_2|]. intros ->. pose proof (NoDup_lookup _ _ _ _ Hn Hi Hr). lia.
Qed.

(** ** append *)

Lemma slice_moved (r : res) (s : BufferSlice) (read write : Z) :
  slice_at naddr ncap r s -> slice_at naddr ncap r (mkBS (bs_header s) (bs_data s) (bs_cap s) (bs_start s) (bs_offset_in_shm s) read write (bs_from_shm s)).
Proof. by destruct r. Qed.

Lemma slice_append_spec (r : res) (s : BufferSlice) (m : mem) (bytes : list Z) :
  srep r s -> Forall is_byte bytes -> bytes <> [] ->
  let '(n, m', s') := slice_append m s bytes in
  n = Z.min (Z.of_nat (length bytes)) (slice_remain s) /\ srep r s' /\ mem_frame (dlo r) (hi r) m m' /\
  sbytes m' s' = sbytes m s ++ take (Z.to_nat n) bytes /\ bs_start s' = bs_start s /\ bs_read s' = bs_read s.
Proof.
  intros [Hs Hi] Hb Hne. unfold slice_append. destruct bytes as [|b bytes]; [done|]. cbn [length Nat.eqb]. destruct (slice_at_data naddr ncap r s Hs) as (Ed & Ec & _).
  set (bs := b :: bytes) in *. change (S (length bytes)) with (length bs). set (n := Z.min _ _). assert (Hn : 0 <= n <= slice_remain s) by (unfold n, slice_remain; lia).
  assert (El : Z.of_nat (length (take (Z.to_nat n) bs)) = n) by (rewrite length_take; lia). unfold slice_remain in Hn.
  assert (Hf : mem_frame (bs_data s + bs_write s) (bs_data s + bs_write s + n) m (write_bytes m (bs_data s + bs_write s) (take (Z.to_nat n) bs))) by (apply mem_frame_write_bytes; lia).
  split; [done|]. split; [|split; [|split; [|done]]].
  - split; [by apply slice_moved|]. cbn. lia.
  - eapply mem_frame_weaken; [| |exact Hf]; lia.
  - unfold sbytes, slice_size. cbn [bs_data bs_read bs_write]. replace (Z.to_nat (bs_write s + n - bs_read s)) with (Z.to_nat (bs_write s - bs_read s) + Z.to_nat n)%nat by lia.
    rewrite read_bytes_app. f_equal.
    + apply read_bytes_ext. intros x Hx. apply Hf. lia.
    + replace (bs_data s + bs_read s + Z.of_nat (Z.to_nat (bs_write s - bs_read s))) with (bs_data s + bs_write s) by lia.
      pose proof (read_write_bytes m (bs_data s + bs_write s) (take (Z.to_nat n) bs) ltac:(by apply Forall_take)) as R.
      by replace (length (take (Z.to_nat n) bs)) with (Z.to_nat n) in R by lia.
Qed.

Lemma dlo_wlo (r : res) : wlo naddr r <= dlo r.
Proof. destruct r; cbn; lia. Qed.

(** A slice of a buffer is written inside its resource. *)
Lemma set_slice_spec (w : world) (lb : LinkedBuffer) (rs others : list res) (data b : list Z) (k : nat) (r : res) (s s' : BufferSlice) (m' : mem) :
  winv w (rs ++ others) -> wr_ok (w_mem w) lb rs data -> lb_slices lb !! k = Some s -> rs !! k = Some r -> Forall unwritten (drop (S k) (lb_slices lb)) ->
  srep r s' -> mem_frame (dlo r) (hi r) (w_mem w) m' -> sbytes m' s' = sbytes (w_mem w) s ++ b -> bs_start s' = bs_start s -> bs_read s' = bs_read s ->
  winv (with_mem w m') (rs ++ others) /\ same others (w_mem w) m' /\ wr_ok m' (with_write (with_slice lb k s') (Some k)) rs (data ++ b).
Proof.
  intros W [H1 H2 H3 H4 H5] Hk Hr Hu Hs' Hf Hb E1 E2.
  destruct (winv_write naddr ncap len pool w (rs ++ others) r m' W) as [W' Ho]; [apply elem_of_app; left; by eapply list_elem_of_lookup_2| |].
  { eapply mem_frame_weaken; [| |exact Hf]; [apply dlo_wlo|lia]. }
  pose proof (wi_nodup _ _ _ _ W) as Hn. apply NoDup_app in Hn as (_ & Hn & _). pose proof (lookup_lt_Some _ _ _ Hk) as Hlt.
  split; [done|]. split; [|split; cbn [with_write with_slice lb_slices lb_write lb_from_shm]].
  - intros r' Hr'. apply Ho; [apply elem_of_app; by right|]. intros ->. by apply (Hn r); [by eapply list_elem_of_lookup_2|].
  - rewrite <- (list_insert_id rs k r Hr). by apply Forall2_insert.
  - rewrite length_insert, drop_insert_lt by lia. by split.
  - apply Forall_insert; [done|]. rewrite E1, E2. rewrite Forall_forall in H3. apply H3. by eapply list_elem_of_lookup_2.
  - rewrite <- H4. apply (contents_set w rs others _ k r s); try done. intros r' Hr' Hne. apply Ho; [apply elem_of_app; by left|done].
  - done.
Qed.

Lemma unwritten_remain (w : world) (rs : list res) (r : res) (s : BufferSlice) : winv w rs -> r ∈ rs -> srep r s -> unwritten s -> 0 < slice_remain s.
Proof.
  intros W Hr [Hs _] (_ & _ & E). pose proof (bounds naddr ncap len pool w rs r W Hr). destruct (slice_at_data naddr ncap r s Hs) as (_ & Ec & _). unfold slice_remain. lia.
Qed.

Lemma drop_cons_lookup {A} (l : list A) (k : nat) (P : A -> Prop) (x : A) : Forall P (drop k l) -> l !! k = Some x -> P x /\ Forall P (drop (S k) l).
Proof. intros H Hx. rewrite (drop_S _ _ _ Hx) in H. by apply Forall_cons in H. Qed.

(** ** write_bytes *)

(** What a write leaves behind. *)
Definition wrote (w : world) (lb : LinkedBuffer) (others : list res) (data bytes : list Z) (w' : world) (lb' : LinkedBuffer) : Prop :=
  exists rs', wr_ok (w_mem w') lb' rs' (data ++ bytes) /\ winv w' (rs' ++ others) /\ same others (w_mem w) (w_mem w') /\ pins_same w w' /\
    lb_slots lb' = lb_slots lb.

Lemma write_loop_spec (fuel : nat) (w : world) (lb : LinkedBuffer) (rs others : list res) (data bytes : list Z) (k : nat) (s : BufferSlice) :
  winv w (rs ++ others) -> wr_ok (w_mem w) lb rs data -> lb_write lb = Some k -> lb_slices lb !! k = Some s ->
  Forall is_byte bytes -> bytes <> [] -> Z.of_nat (length bytes) < W32 -> (length bytes + (if (slice_remain s =? 0)%Z then 1 else 0) <= fuel)%nat ->
  exists w' lb', write_loop bm fuel w lb bytes = Some (w', lb') /\ wrote w lb others data bytes w' lb' /\ lb_len lb' = lb_len lb.
Proof.
  revert w lb rs data bytes k s. induction fuel as [|fuel IH]; intros w lb rs data bytes k s W Hok Hw Hk Hb Hne Hl Hf; [destruct bytes; [done|cbn in Hf; lia]|].
  cbn [write_loop]. rewrite Hw. cbn [mbind option_bind]. rewrite Hk. cbn [mbind option_bind].
  destruct (Forall2_lookup_r _ _ _ _ _ (wo_slices _ _ _ _ Hok) Hk) as (r & Hr & Hs). pose proof (slice_append_spec r s (w_mem w) bytes Hs Hb Hne) as Ha.
  destruct (slice_append (w_mem w) s bytes) as [[n m1] s1]. destruct Ha as (En & Hs1 & Hf1 & Eb & E1 & E2).
  assert (Hu : Forall unwritten (drop (S k) (lb_slices lb))) by (pose proof (wo_write _ _ _ _ Hok) as H; rewrite Hw in H; apply H).
  destruct (set_slice_spec w lb rs others data (take (Z.to_nat n) bytes) k r s s1 m1 W Hok Hk Hr Hu Hs1 Hf1 Eb E1 E2) as (W1 & So1 & Hok1).
  assert (Elb : with_write (with_slice lb k s1) (Some k) = with_slice lb k s1) by (destruct lb; cbn in Hw |- *; by rewrite Hw). rewrite Elb in Hok1.
  assert (Hrem : 0 <= slice_remain s) by (destruct Hs as [_ ?]; unfold slice_remain; lia).
  assert (Ebytes : take (Z.to_nat n) bytes ++ drop (Z.to_nat n) bytes = bytes) by apply take_drop. assert (Hlr : length (drop (Z.to_nat n) bytes) = (length bytes - Z.to_nat n)%nat) by apply length_drop.
  set (lb1 := with_slice lb k s1) in *. set (rest' := drop (Z.to_nat n) bytes) in *. destruct (decide (rest' = [])) as [Er|Er].
  { rewrite Er in Ebytes |- *. rewrite app_nil_r in Ebytes. rewrite Ebytes in Hok1. exists (with_mem w m1), lb1. split; [done|]. split; [|done]. by exists rs. }
  assert (Hl0 : (0 < length rest')%nat) by (destruct rest'; [done|cbn; lia]). assert (En' : n = slice_remain s) by lia.
  assert (Em : forall A (a b : A), match rest' with [] => a | _ :: _ => b end = b) by (by destruct rest'). rewrite Em.
  assert (Hmem : w_mem (with_mem w m1) = m1) by done.
  assert (Hnext : let '(w2, lb2) := match lb_slices lb1 !! S k with None => lb_alloc bm (with_mem w m1) lb1 (wrap32 (Z.of_nat (length rest'))) | Some _ => (with_mem w m1, lb1) end in
    exists rs2 s2, lb_slices lb2 !! S k = Some s2 /\ 0 < slice_remain s2 /\ wr_ok (w_mem w2) (with_write lb2 (Some (S k))) rs2 (data ++ take (Z.to_nat n) bytes) /\
      winv w2 (rs2 ++ others) /\ same others m1 (w_mem w2) /\ pins_same (with_mem w m1) w2 /\ lb_slots lb2 = lb_slots lb1 /\ lb_len lb2 = lb_len lb1).
  { assert (Hu1 : Forall unwritten (drop (S k) (lb_slices lb1))) by (pose proof (wo_write _ _ _ _ Hok1) as H; unfold lb1 in H |- *; cbn in H |- *; rewrite Hw in H; apply H).
    destruct (lb_slices lb1 !! S k) as [s2|] eqn:E2k.
    - destruct (Forall2_lookup_r _ _ _ _ _ (wo_slices _ _ _ _ Hok1) E2k) as (r2 & Hr2 & Hs2). destruct (drop_cons_lookup _ _ _ _ Hu1 E2k) as [Hu2 Hd2].
      exists rs, s2. split; [done|]. split; [apply (unwritten_remain (with_mem w m1) (rs ++ others) r2); [done| |done..]; apply elem_of_app; left; by eapply list_elem_of_lookup_2|].
      split; [|split; [done|split; [apply same_refl|done]]]. destruct Hok1 as [K1 K2 K3 K4 K5]. split; try done. split; [by eapply lookup_lt_Some|done].
    - rewrite wrap32_small by lia.
      pose proof (lb_alloc_spec (with_mem w m1) lb1 (rs ++ others) (Z.of_nat (length rest')) W1) as Ha. destruct (lb_alloc bm _ lb1 _) as [w2 lb2].
      destruct Ha as (new & G & Hnn & W2 & S2 & P2); [lia|]. rewrite Hmem in S2. pose proof G as [(ss & Es & HF & HU) (_ & G2 & G3) _].
      apply lookup_ge_None in E2k. assert (Hlen : length (lb_slices lb1) = S k) by (pose proof (wo_write _ _ _ _ Hok1) as H; unfold lb1 in H, E2k |- *; cbn in H, E2k |- *; rewrite Hw in H; lia).
      destruct ss as [|s2 ss]; [by apply Forall2_nil_inv_r in HF|]. assert (E2s : lb_slices lb2 !! S k = Some s2) by (rewrite Es, lookup_app_r, Hlen, Nat.sub_diag by lia; done).
      apply Forall_cons in HU as [HU HUs]. destruct new as [|r2 new]; [done|]. apply Forall2_cons in HF as [HF HFs]. exists (rs ++ r2 :: new), s2. split; [done|].
      split; [apply (unwritten_remain w2 ((r2 :: new) ++ rs ++ others) r2); [done|left|done..]|]. split; [|split; [|split; [|done]]].
      + apply (wr_ok_grow m1 (w_mem w2) (with_mem w m1) lb1 lb2 rs (r2 :: new) others); try done; [by eapply lookup_lt_Some|].
        replace (drop (S (S k)) (lb_slices lb2)) with ss; [done|]. rewrite Es, drop_app_ge, Hlen by lia. by replace (S (S k) - S k)%nat with 1%nat by lia.
      + eapply winv_perm; [done| |exact W2]. by rewrite app_assoc, (Permutation_app_comm (r2 :: new) rs).
      + eapply same_sub; [|exact S2]. set_solver. }
  destruct (match lb_slices lb1 !! S k with None => _ | Some _ => _ end) as [w2 lb2]. destruct Hnext as (rs2 & s2 & E2k & Hr2 & Hok2 & W2 & S2 & P2 & Esl & Eln).
  rewrite E2k. destruct (IH w2 (with_write lb2 (Some (S k))) rs2 (data ++ take (Z.to_nat n) bytes) rest' (S k) s2) as (w' & lb' & E & (rs' & Hok' & W' & S' & P' & Esl') & Eln'); try done.
  - by apply Forall_drop.
  - lia.
  - destruct (Z.eqb_spec (slice_remain s2) 0); [lia|]. destruct (Z.eqb_spec (slice_remain s) 0); lia.
  - exists w', lb'. rewrite E. split; [done|]. split; [|by rewrite Eln'; cbn; rewrite Eln]. exists rs'. rewrite <- app_assoc, Ebytes in Hok'. split; [done|]. split; [done|].
    split; [by apply (same_trans _ _ _ _ m1); [|apply (same_trans _ _ _ _ (w_mem w2))]|]. split; [|by rewrite Esl'; cbn; rewrite Esl].
    destruct P2 as [P2a P2b], P' as [Pa Pb]. by split; [rewrite Pa, P2a|rewrite Pb, P2b].
Qed.

(** A buffer with a write slice. *)
Definition writing (w : world) (lb : LinkedBuffer) (rs others : list res) (data : list Z) : Prop :=
  winv w (rs ++ others) /\ wr_ok (w_mem w) lb rs data /\ exists k s, lb_write lb = Some k /\ lb_slices lb !! k = Some s.

Lemma start_write_spec (w : world) (lb : LinkedBuffer) (rs others : list res) (data : list Z) (size : Z) :
  winv w (rs ++ others) -> wr_ok (w_mem w) lb rs data -> 0 < size < W32 ->
  let '(w', lb') := start_write bm w lb size in
  exists rs', writing w' lb' rs' others data /\ same others (w_mem w) (w_mem w') /\ pins_same w w' /\ lb_slots lb' = lb_slots lb /\ lb_len lb' = lb_len lb.
Proof.
  intros W Hok Hs. unfold start_write. pose proof (wo_write _ _ _ _ Hok) as Hw. destruct (lb_write lb) as [k|] eqn:Ek.
  - destruct Hw as [Hk _]. destruct (lookup_lt_is_Some_2 _ _ Hk) as [s Es]. exists rs. split; [|split; [apply same_refl|done]]. split; [done|]. split; [done|]. by exists k, s.
  - rewrite wrap32_small by lia. pose proof (lb_alloc_spec w lb (rs ++ others) size W Hs) as Ha. destruct (lb_alloc bm w lb size) as [w' lb1].
    destruct Ha as (new & G & Hn & W' & S' & P'). pose proof G as [(ss & Es & HF & HU) (G1 & G2 & G3) _]. rewrite Hw in Es. cbn [app] in Es.
    destruct ss as [|s ss]; [by apply Forall2_nil_inv_r in HF|]. apply Forall_cons in HU as [HU HUs]. rewrite Es. exists (rs ++ new). split; [|split; [|done]].
    + split; [eapply winv_perm; [done| |exact W']; by rewrite app_assoc, (Permutation_app_comm new rs)|]. split; [|by exists 0%nat, s; cbn; rewrite Es].
      apply (wr_ok_grow (w_mem w) (w_mem w') w lb lb1 rs new others data 0); try done; rewrite Es; [cbn; lia|done].
    + eapply same_sub; [|exact S']. set_solver.
Qed.

(** [write_bytes] of at least one byte. *)
Lemma lb_write_spec (w : world) (lb : LinkedBuffer) (rs others : list res) (data bytes : list Z) :
  winv w (rs ++ others) -> wr_ok (w_mem w) lb rs data -> Forall is_byte bytes -> bytes <> [] -> Z.of_nat (length bytes) < W32 ->
  exists w' lb', lb_write_bytes bm w lb bytes = Some (Z.of_nat (length bytes), w', lb') /\ wrote w lb others data bytes w' lb' /\
    lb_len lb' = lb_len lb + Z.of_nat (length bytes).
Proof.
  intros W Hok Hb Hne Hl. unfold lb_write_bytes. destruct bytes as [|b bytes]; [done|]. set (bs := b :: bytes) in *. assert (0 < length bs)%nat by (cbn; lia).
  pose proof (start_write_spec w lb rs others data (Z.of_nat (length bs)) W Hok ltac:(lia)) as Hst. destruct (start_write bm w lb (Z.of_nat (length bs))) as [w1 lb1].
  destruct Hst as (rs1 & (W1 & Hok1 & k & s & Ek & Es) & S1 & P1 & Esl & Eln).
  destruct (write_loop_spec (2 + length bs) w1 lb1 rs1 others data bs k s W1 Hok1 Ek Es Hb Hne Hl) as (w' & lb' & E & (rs' & Hok' & W' & S' & P' & Esl') & Eln').
  { destruct (slice_remain s =? 0); lia. }
  rewrite E. cbn [mbind option_bind]. exists w', (with_len lb' (lb_len lb' + Z.of_nat (length bs))). split; [done|]. split; [|cbn; lia].
  exists rs'. split; [destruct Hok' as [K1 K2 K3 K4 K5]; by split|]. split; [done|]. split; [by apply (same_trans _ _ _ _ (w_mem w1))|].
  split; [|by cbn; rewrite Esl', Esl]. destruct P1 as [P1a P1b], P' as [Pa Pb]. by split; [rewrite Pa, P1a|rewrite Pb, P1b].
Qed.

(** ** reserve *)

(** The reserved bytes are part of the message, whatever the caller puts there. *)
Definition reserved (w : world) (lb : LinkedBuffer) (rs others : list res) (data : list Z) (ptr size : Z) : Prop :=
  forall m', mem_frame ptr (ptr + size) (w_mem w) m' ->
    winv (with_mem w m') (rs ++ others) /\ same others (w_mem w) m' /\ wr_ok m' lb rs (data ++ read_bytes m' ptr (Z.to_nat size)).

Lemma reserve_in_spec (w : world) (lb : LinkedBuffer) (rs others : list res) (data : list Z) (k : nat) (s : BufferSlice) (size : Z) :
  winv w (rs ++ others) -> wr_ok (w_mem w) lb rs data -> lb_slices lb !! k = Some s -> Forall unwritten (drop (S k) (lb_slices lb)) -> 0 < size ->
  match reserve_in lb k size with
  | Some (ptr, lb') => reserved w lb' rs others data ptr size /\ lb_slots lb' = lb_slots lb /\ lb_len lb' = lb_len lb + size
  | None => slice_remain s < size
  end.
Proof.
  intros W Hok Hk Hu Hn. unfold reserve_in. rewrite Hk. cbn [mbind option_bind]. unfold slice_reserve. rewrite Z.geb_leb. destruct (Z.leb_spec size (slice_remain s)) as [Hle|Hgt]; [|done].
  cbn [mbind option_bind]. destruct (Forall2_lookup_r _ _ _ _ _ (wo_slices _ _ _ _ Hok) Hk) as (r & Hr & Hs). split; [|done]. pose proof Hs as [Hs1 Hi]. destruct (slice_at_data naddr ncap r s Hs1) as (Ed & Ec & _).
  unfold slice_remain in Hle. intros m' Hf. set (s' := mkBS _ _ _ _ _ _ _ _).
  destruct (set_slice_spec w lb rs others data (read_bytes m' (bs_data s + bs_write s) (Z.to_nat size)) k r s s' m' W Hok Hk Hr Hu) as (W' & S' & Hok'); try done.
  - split; [by apply slice_moved|]. cbn. lia.
  - eapply mem_frame_weaken; [| |exact Hf]; lia.
  - unfold sbytes, slice_size, s'. cbn [bs_data bs_read bs_write]. replace (Z.to_nat (bs_write s + size - bs_read s)) with (Z.to_nat (bs_write s - bs_read s) + Z.to_nat size)%nat by lia.
    rewrite read_bytes_app. f_equal; [apply read_bytes_ext; intros x Hx; apply Hf; lia|]. f_equal. lia.
  - split; [done|]. split; [done|]. destruct Hok' as [K1 K2 K3 K4 K5]. by split.
Qed.

Lemma lb_reserve_spec (w : world) (lb : LinkedBuffer) (rs others : list res) (data : list Z) (size : Z) :
  winv w (rs ++ others) -> wr_ok (w_mem w) lb rs data -> 0 < size < W32 ->
  exists ptr w' lb' rs', lb_reserve bm w lb size = Some (ptr, w', lb') /\ reserved w' lb' rs' others data ptr size /\
    same others (w_mem w) (w_mem w') /\ pins_same w w' /\ lb_slots lb' = lb_slots lb /\ lb_len lb' = lb_len lb + size.
Proof.
  intros W Hok Hs. unfold lb_reserve. pose proof (start_write_spec w lb rs others data size W Hok Hs) as Hst. destruct (start_write bm w lb size) as [w1 lb1].
  destruct Hst as (rs1 & (W1 & Hok1 & k & s & Ek & Es) & S1 & P1 & Esl & Eln). rewrite Ek. cbn [mbind option_bind].
  assert (Hu1 : Forall unwritten (drop (S k) (lb_slices lb1))) by (pose proof (wo_write _ _ _ _ Hok1) as H; rewrite Ek in H; apply H).
  pose proof (reserve_in_spec w1 lb1 rs1 others data k s size W1 Hok1 Es Hu1 ltac:(lia)) as H1. destruct (reserve_in lb1 k size) as [[ptr lb']|].
  { destruct H1 as (R & E1 & E2). exists ptr, w1, lb', rs1. split; [done|]. split; [done|]. split; [done|]. split; [done|]. split; [congruence|lia]. }
  assert (H2 : match reserve_in lb1 (S k) size with
    | Some (ptr, lb') => reserved w1 lb' rs1 others data ptr size /\ lb_slots lb' = lb_slots lb1 /\ lb_len lb' = lb_len lb1 + size
    | None => True end).
  { destruct (lb_slices lb1 !! S k) as [s2|] eqn:E2; [|unfold reserve_in; by rewrite E2]. destruct (drop_cons_lookup _ _ _ _ Hu1 E2) as [_ Hd].
    pose proof (reserve_in_spec w1 lb1 rs1 others data (S k) s2 size W1 Hok1 E2 Hd ltac:(lia)) as H. by destruct (reserve_in lb1 (S k) size) as [[ptr lb']|]. }
  destruct (reserve_in lb1 (S k) size) as [[ptr lb']|].
  { destruct H2 as (R & E1 & E2). exists ptr, w1, lb', rs1. split; [done|]. split; [done|]. split; [done|]. split; [done|]. split; [congruence|lia]. }
  rewrite wrap32_small by lia.
  assert (Hnew : let '(w2, lb2) := match alloc_shm_buffer bm (w_mem w1) size with (Ok buf, m) => (with_mem w1 m, push_back lb1 buf) | (Err _, m) => push_heap (with_mem w1 m) lb1 size end in
    exists r, grown lb1 lb2 [r] /\ winv w2 (r :: rs1 ++ others) /\ same (rs1 ++ others) (w_mem w1) (w_mem w2) /\ pins_same w1 w2 /\ size <= hi r - dlo r).
  { pose proof (ml_alloc naddr ncap len pool (w_mem w1) (nodes_of (rs1 ++ others)) size (wi_pool _ _ _ _ W1)) as Ha. destruct (alloc_shm_buffer bm (w_mem w1) size) as [[buf|e] m2].
    - destruct Ha as (x & -> & Hx & Hp & Hk). destruct (winv_taken naddr ncap len pool w1 (rs1 ++ others) [x] m2 W1 Hp Hk) as [W2 S2]. exists (RShm x).
      destruct (fresh_rep _ _ x W2 ltac:(left)) as [Hr Hu]. split; [|split; [done|split; [done|split; [done|cbn; lia]]]]. split; [|done|done].
      exists [fresh naddr ncap x]. split; [done|]. split; [by apply Forall2_cons|by apply Forall_singleton].
    - destruct Ha as [Hp Hk]. destruct (winv_taken naddr ncap len pool w1 (rs1 ++ others) [] m2 W1 Hp Hk) as [W2 S2]. cbn [fmap list_fmap app] in W2.
      pose proof (push_heap_spec (with_mem w1 m2) lb1 (rs1 ++ others) size W2 Hs) as H. destruct (push_heap (with_mem w1 m2) lb1 size) as [w2 lb2].
      destruct H as (r & G & W3 & S3 & P3 & Hle). exists r. split; [done|]. split; [done|]. split; [by apply (same_trans _ _ _ _ m2)|]. done. }
  destruct (match alloc_shm_buffer bm (w_mem w1) size with (Ok _, _) => _ | (Err _, _) => _ end) as [w2 lb2]. destruct Hnew as (r & G & W2 & S2 & P2 & Hle).
  pose proof G as [(ss & Ess & HF & HU) (_ & G2 & G3) _]. pose proof (Forall2_length _ _ _ HF) as Hss. destruct ss as [|s2 [|? ?]]; [cbn in Hss; lia| |cbn in Hss; lia].
  apply Forall2_cons in HF as [HF _]. apply Forall_cons in HU as [HU _]. set (k2 := pred (length (lb_slices lb2))). assert (Ek2 : k2 = length (lb_slices lb1)) by (unfold k2; rewrite Ess, length_app; cbn; lia).
  assert (E2 : lb_slices lb2 !! k2 = Some s2) by (rewrite Ess, lookup_app_r, Ek2, Nat.sub_diag by lia; done).
  assert (Hd : drop (S k2) (lb_slices lb2) = []) by (apply drop_ge; rewrite Ess, length_app, Ek2; cbn; lia).
  assert (Hok2 : wr_ok (w_mem w2) (with_write lb2 (Some k2)) (rs1 ++ [r]) data).
  { apply (wr_ok_grow (w_mem w1) (w_mem w2) w1 lb1 lb2 rs1 [r] others); try done; [by eapply lookup_lt_Some|by rewrite Hd]. }
  assert (W2' : winv w2 ((rs1 ++ [r]) ++ others)) by (eapply winv_perm; [done| |exact W2]; by rewrite (Permutation_app_comm rs1 [r])).
  pose proof (reserve_in_spec w2 (with_write lb2 (Some k2)) (rs1 ++ [r]) others data k2 s2 size W2' Hok2 E2) as H3.
  change (reserve_in (with_write lb2 (Some k2)) k2 size) with (reserve_in lb2 k2 size) in H3.
  destruct (reserve_in lb2 k2 size) as [[ptr lb']|].
  - destruct H3 as (R & E3 & E4); [by cbn; rewrite Hd|lia|]. exists ptr, w2, lb', (rs1 ++ [r]). cbn in E3, E4. split; [done|]. split; [done|].
    split; [apply (same_trans _ _ _ _ (w_mem w1)); [done|]; eapply same_sub; [|exact S2]; set_solver|]. split; [|split; [congruence|lia]].
    destruct P1 as [P1a P1b], P2 as [Pa Pb]. by split; [rewrite Pa, P1a|rewrite Pb, P1b].
  - exfalso. specialize (H3 ltac:(by cbn; rewrite Hd) ltac:(lia)). destruct HF as [Ha Hi]. destruct (slice_at_data naddr ncap r s2 Ha) as (_ & Ec & _). destruct HU as (_ & _ & E0).
    unfold slice_remain in H3. lia.
Qed.

End write.
