(* ===== verification/LinkedPins.v ===== *)
(** * Linked buffers: leases

    A zero-copy read hands out memory of a slice together with a lease.  A slice that is
    used up while leases of it live is retired, and goes back to the pool with the last of
    them. *)

From Stdlib Require Import ZArith Lia.
From stdpp Require Import base numbers list gmap.
From S2P Require Import Prelude Config LegacyBuf LegacyBufFacts LegacyManager LegacyPool Linked LinkedFacts.

#[local] Open Scope Z_scope.

(** ** The slots *)

Lemma find_slot_Some (slots : list (Z * nat)) (key : Z) (i id : nat) : find_slot slots key = Some (i, id) -> slots !! i = Some (key, id).
Proof.
  unfold find_slot. destruct (list_find _ slots) as [[j [k d]]|] eqn:E; [|done]. cbn. intros [= -> ->]. apply list_find_Some in E as (E & Ek & _). cbn in Ek. by subst.
Qed.

Lemma find_slot_None (slots : list (Z * nat)) (key : Z) : find_slot slots key = None -> key ∉ slots.*1.
Proof.
  unfold find_slot. destruct (list_find _ slots) as [[j x]|] eqn:E; [done|]. intros _ (x & -> & Hx)%list_elem_of_fmap. apply list_find_None in E. rewrite Forall_forall in E. by apply (E x Hx).
Qed.

Lemma swap_remove_perm {A} (l : list A) (i : nat) (x : A) : l !! i = Some x -> l ≡ₚ x :: swap_remove i l.
Proof.
  intros Hi. unfold swap_remove. destruct l as [|z l _] using rev_ind; [done|]. rewrite last_snoc, length_app. cbn [length]. rewrite Nat.add_1_r. cbn [pred].
  destruct (decide (i < length l)%nat) as [Hlt|Hge].
  - rewrite insert_app_l, take_app_length' by (done || by rewrite length_insert). rewrite lookup_app_l in Hi by done.
    rewrite insert_take_drop by done. rewrite <- (take_drop_middle l i x Hi) at 1. rewrite <- app_assoc. cbn [app]. rewrite <- Permutation_middle. constructor.
    by rewrite (Permutation_app_comm (drop (S i) l) [z]).
  - pose proof (lookup_lt_Some _ _ _ Hi) as Hlt. rewrite length_app in Hlt. cbn in Hlt. assert (i = length l) as -> by lia. rewrite lookup_app_r, Nat.sub_diag in Hi by done. injection Hi as ->.
    rewrite insert_app_r_alt, Nat.sub_diag by lia. cbn. rewrite take_app_length. by rewrite (Permutation_app_comm l [x]).
Qed.

(** A lease: the state it keeps, and the bytes it shows. *)
Abbreviation lease := (nat * (Z * list Z))%type.

Definition nleases (id : nat) (leases : list lease) : nat := length (filter (fun l => l.1 = id) leases).

Lemma nleases_cons (id : nat) (l : lease) (leases : list lease) : nleases id (l :: leases) = if decide (l.1 = id) then S (nleases id leases) else nleases id leases.
Proof. unfold nleases. rewrite filter_cons. by destruct (decide _). Qed.

Lemma nleases_perm (id : nat) (leases leases' : list lease) : leases ≡ₚ leases' -> nleases id leases = nleases id leases'.
Proof. intros H. unfold nleases. by rewrite H. Qed.

Lemma nleases_pos (id : nat) (l : lease) (leases : list lease) : l ∈ leases -> l.1 = id -> (0 < nleases id leases)%nat.
Proof.
  intros Hl Hi. unfold nleases. assert (H : l ∈ filter (fun l => l.1 = id) leases) by (by apply list_elem_of_filter). destruct (filter _ leases); [by apply not_elem_of_nil in H|cbn; lia].
Qed.

Section pins.
Context {node : Type} `{EqDecision node} (naddr ncap : node -> Z) (len : Z) (pool : mem -> list node -> Prop).
Context {PL : PoolLaws naddr ncap len pool} (bm : BufferManager) {ML : ManagerLaws naddr ncap len pool bm}.

Abbreviation res := (res node).
Abbreviation srep := (srep naddr ncap).
Abbreviation slice_at := (slice_at naddr ncap).
Abbreviation winv := (winv len pool).
Abbreviation same := (same naddr ncap).
Abbreviation lo := (lo naddr).
Abbreviation dlo := (dlo naddr).
Abbreviation hi := (hi naddr ncap).

(** The resource behind a state is retired, or still in the list. *)
Definition owner (lb : LinkedBuffer) (rs : list res) (ret : list (nat * res)) (id : nat) (r : res) : Prop :=
  (id, r) ∈ ret \/ (r ∈ rs /\ (dlo r, id) ∈ lb_slots lb).

(** The buffer has the slices of [rs], the retired slices are [ret], the leases in the
    hands of readers are [leases]; the rest of what is in use is [others]. *)
Record rd_inv (w : world) (lb : LinkedBuffer) (rs : list res) (ret : list (nat * res)) (others : list res) (leases : list lease) : Prop := {
  ri_world : winv w (rs ++ ret.*2 ++ others);
  ri_slices : Forall2 srep rs (lb_slices lb);
  ri_ids : NoDup ((lb_slots lb).*2 ++ ret.*1);
  ri_keys : NoDup (lb_slots lb).*1;
  ri_slot key id : (key, id) ∈ lb_slots lb -> (exists r, r ∈ rs /\ dlo r = key) /\ w_pins w !! id = Some (mkPin (S (nleases id leases)) None);
  ri_ret id r : (id, r) ∈ ret -> (exists s, slice_at r s /\ w_pins w !! id = Some (mkPin (nleases id leases) (Some s))) /\ (0 < nleases id leases)%nat;
  ri_lease id ptr bytes : (id, (ptr, bytes)) ∈ leases ->
    exists r, owner lb rs ret id r /\ dlo r <= ptr /\ ptr + Z.of_nat (length bytes) <= hi r /\ read_bytes (w_mem w) ptr (length bytes) = bytes;
  ri_fresh id : is_Some (w_pins w !! id) -> (id < w_fresh w)%nat;
}.

(** What is kept from one state to the next. *)
Definition steady (rs : list res) (ret : list (nat * res)) (others : list res) (w w' : world) : Prop := same (rs ++ ret.*2 ++ others) (w_mem w) (w_mem w').

Lemma lease_kept (w w' : world) (all : list res) (r : res) (ptr : Z) (bytes : list Z) :
  winv w all -> r ∈ all -> mem_agree (lo r) (hi r) (w_mem w) (w_mem w') -> dlo r <= ptr -> ptr + Z.of_nat (length bytes) <= hi r ->
  read_bytes (w_mem w) ptr (length bytes) = bytes -> read_bytes (w_mem w') ptr (length bytes) = bytes.
Proof.
  intros W Hr Ha H1 H2 Hb. transitivity (read_bytes (w_mem w) ptr (length bytes)); [|done]. symmetry. apply read_bytes_ext. intros x Hx. apply Ha.
  destruct (bounds naddr ncap len pool w all r W Hr) as (_ & ? & _). lia.
Qed.

Lemma owner_in (lb : LinkedBuffer) (rs : list res) (ret : list (nat * res)) (others : list res) (id : nat) (r : res) :
  owner lb rs ret id r -> r ∈ rs ++ ret.*2 ++ others.
Proof.
  intros [H|[H _]]; rewrite !elem_of_app; [|by left]. right. left. apply list_elem_of_fmap. by exists (id, r).
Qed.

(** ** acquire *)

Lemma acquire_spec (w : world) (lb : LinkedBuffer) (rs : list res) (ret : list (nat * res)) (others : list res) (leases : list lease) (r : res) (s : BufferSlice) (ptr : Z) (bytes : list Z) :
  rd_inv w lb rs ret others leases -> r ∈ rs -> slice_at r s -> dlo r <= ptr -> ptr + Z.of_nat (length bytes) <= hi r -> read_bytes (w_mem w) ptr (length bytes) = bytes ->
  let '(id, w', lb') := pin_acquire w lb s in
  rd_inv w' lb' rs ret others ((id, (ptr, bytes)) :: leases) /\ w_mem w' = w_mem w /\ lb' = with_slots lb (lb_slots lb').
Proof.
  intros [H1 H2 H3 H4 H5 H6 H7 H8] Hr Hs Hp1 Hp2 Hb. unfold pin_acquire. destruct (slice_at_data naddr ncap r s Hs) as (-> & _).
  destruct (find_slot (lb_slots lb) (dlo r)) as [[i id]|] eqn:Ef.
  - apply find_slot_Some, list_elem_of_lookup_2 in Ef. destruct (H5 _ _ Ef) as [_ Hpin]. split; [|split; [done|by destruct lb]]. cbn [with_pins w_pins w_mem w_fresh].
    assert (Hother : forall id', id' <> id -> alter (fun p => mkPin (S (p_count p)) (p_retired p)) id (w_pins w) !! id' = w_pins w !! id') by (intros id' Hne; by rewrite lookup_alter_ne).
    split; cbn [with_pins w_pins w_mem w_fresh]; try done.
    + destruct H1 as [K1 K2 K3 K4 K5]. by split.
    + intros key id' Hin. destruct (H5 _ _ Hin) as [Hk Hpin']. split; [done|]. rewrite nleases_cons. cbn. destruct (decide (id = id')) as [<-|Hne].
      * by rewrite lookup_alter_eq, Hpin.
      * by rewrite Hother.
    + intros id' r' Hin. assert (Hne : id' <> id).
      { intros ->. apply NoDup_app in H3 as (_ & H3 & _). apply (H3 id); [apply list_elem_of_fmap; by exists (dlo r, id)|apply list_elem_of_fmap; by exists (id, r')]. }
      rewrite nleases_cons. cbn. rewrite decide_False by done. rewrite Hother by done. by apply H6.
    + intros id' ptr' bytes' [[= -> -> ->]|Hin]%elem_of_cons; [|by apply H7]. exists r. split; [right; by split|]. done.
    + intros id' Hid. destruct (decide (id' = id)) as [->|Hne]; [apply H8; by rewrite Hpin|]. apply H8. by rewrite Hother in Hid.
  - set (id := w_fresh w). apply find_slot_None in Ef. assert (Hnone : w_pins w !! id = None) by (destruct (w_pins w !! id) eqn:E; [|done]; specialize (H8 id ltac:(by rewrite E)); unfold id in H8; lia).
    assert (Hz : nleases id leases = 0%nat).
    { destruct (nleases id leases) as [|n] eqn:E; [done|]. unfold nleases in E. destruct (filter _ leases) as [|[id' [p b]] l] eqn:El; [done|].
      assert (Hin : (id', (p, b)) ∈ filter (fun l => l.1 = id) leases) by (rewrite El; left). apply list_elem_of_filter in Hin as [Hi Hin]. cbn in Hi. subst id'.
      destruct (H7 _ _ _ Hin) as (r' & [Ho|[_ Ho]] & _); [destruct (H6 _ _ Ho) as [(? & _ & E') _]|destruct (H5 _ _ Ho) as [_ E']]; rewrite Hnone in E'; done. }
    assert (Hid : forall id', is_Some (w_pins w !! id') -> id' <> id) by (intros id' [? E] ->; congruence).
    split; [|split; [done|by destruct lb]]. split; cbn [w_pins w_mem w_fresh with_slots lb_slots lb_slices].
    + destruct H1 as [K1 K2 K3 K4 K5]. by split.
    + done.
    + rewrite fmap_app, <- app_assoc. cbn [fmap list_fmap app fst snd]. rewrite <- Permutation_middle. apply NoDup_cons. split; [|done]. intros [(x & Ex & Hx)%list_elem_of_fmap|(x & Ex & Hx)%list_elem_of_fmap]%elem_of_app.
      * destruct x as [key id']. cbn in Ex. subst id'. destruct (H5 _ _ Hx) as [_ E]. congruence.
      * destruct x as [id' r']. cbn in Ex. subst id'. destruct (H6 _ _ Hx) as [(? & _ & E) _]. congruence.
    + rewrite fmap_app. cbn [fmap list_fmap fst]. rewrite <- Permutation_cons_append. by apply NoDup_cons.
    + intros key id' [Hin|[= -> ->]%list_elem_of_singleton]%elem_of_app.
      * destruct (H5 _ _ Hin) as [Hk Hpin]. split; [done|]. assert (Hne : id' <> id) by (apply Hid; by rewrite Hpin). rewrite nleases_cons. cbn. rewrite decide_False by done. by rewrite lookup_insert_ne.
      * split; [by exists r|]. rewrite lookup_insert_eq, nleases_cons. cbn. rewrite decide_True by done. by rewrite Hz.
    + intros id' r' Hin. destruct (H6 _ _ Hin) as [(s' & Hs' & Hpin) Hpos]. assert (Hne : id' <> id) by (apply Hid; by rewrite Hpin). rewrite nleases_cons. cbn. rewrite decide_False by done.
      split; [|done]. exists s'. by rewrite lookup_insert_ne.
    + intros id' ptr' bytes' [[= -> -> ->]|Hin]%elem_of_cons.
      * exists r. split; [right; split; [done|]; cbn; apply elem_of_app; right; left|done].
      * destruct (H7 _ _ _ Hin) as (r' & Ho & Hrest). exists r'. split; [|done]. destruct Ho as [Ho|[Ho1 Ho2]]; [by left|right; split; [done|]]. cbn. apply elem_of_app. by left.
    + intros id' Hs'. destruct (decide (id' = id)) as [->|Hne]; [unfold id; lia|]. rewrite lookup_insert_ne in Hs' by done. specialize (H8 id' Hs'). unfold id. lia.
Qed.

(** ** Dropping a lease *)

Lemma rd_inv_leases (w : world) (lb : LinkedBuffer) (rs : list res) (ret : list (nat * res)) (others : list res) (leases leases' : list lease) :
  leases ≡ₚ leases' -> rd_inv w lb rs ret others leases -> rd_inv w lb rs ret others leases'.
Proof.
  intros Hp [H1 H2 H3 H4 H5 H6 H7 H8]. split; try done.
  - intros key id. rewrite <- (nleases_perm id _ _ Hp). apply H5.
  - intros id r. rewrite <- (nleases_perm id _ _ Hp). apply H6.
  - intros id ptr bytes. rewrite <- Hp. apply H7.
Qed.

(** One of several references goes. *)
Lemma drop_shared (w : world) (lb : LinkedBuffer) (rs : list res) (ret : list (nat * res)) (others : list res) (leases : list lease) (l : lease) (n : nat) (p : option BufferSlice) :
  rd_inv w lb rs ret others (l :: leases) -> w_pins w !! l.1 = Some (mkPin (S (S n)) p) -> (p = None -> (n = nleases l.1 leases)%nat) -> (p <> None -> S n = nleases l.1 leases) ->
  rd_inv (drop_pin bm w l.1) lb rs ret others leases /\ w_mem (drop_pin bm w l.1) = w_mem w.
Proof.
  intros [H1 H2 H3 H4 H5 H6 H7 H8] Hpin Hp1 Hp2. unfold drop_pin. rewrite Hpin. cbn [p_count p_retired]. split; [|done]. destruct l as [id [ptr bytes]]. cbn [fst] in *.
  split; cbn [with_pins w_pins w_mem w_fresh]; try done.
  - destruct H1 as [K1 K2 K3 K4 K5]. by split.
  - intros key id' Hin. destruct (H5 _ _ Hin) as [Hk Hpin']. split; [done|]. rewrite nleases_cons in Hpin'. cbn in Hpin'. destruct (decide (id = id')) as [<-|Hne].
    + rewrite lookup_insert_eq. rewrite Hpin in Hpin'. injection Hpin' as E ->. by rewrite (Hp1 eq_refl).
    + by rewrite lookup_insert_ne.
  - intros id' r Hin. destruct (H6 _ _ Hin) as [(s & Hs & Hpin') Hpos]. rewrite nleases_cons in Hpin', Hpos. cbn in Hpin', Hpos. destruct (decide (id = id')) as [<-|Hne].
    + rewrite Hpin in Hpin'. injection Hpin' as E ->. specialize (Hp2 ltac:(done)). split; [|lia]. exists s. split; [done|]. rewrite lookup_insert_eq. by rewrite Hp2.
    + split; [|done]. exists s. by rewrite lookup_insert_ne.
  - intros id' ptr' bytes' Hin. apply H7. by right.
  - intros id' Hs'. destruct (decide (id' = id)) as [->|Hne]; [apply H8; by rewrite Hpin|]. rewrite lookup_insert_ne in Hs' by done. by apply H8.
Qed.

(** The last lease of a retired slice gives it back. *)
Lemma drop_last (w : world) (lb : LinkedBuffer) (rs : list res) (ret : list (nat * res)) (others : list res) (leases : list lease) (l : lease) (r : res) :
  rd_inv w lb rs ((l.1, r) :: ret) others (l :: leases) -> nleases l.1 leases = 0%nat ->
  rd_inv (drop_pin bm w l.1) lb rs ret others leases /\ steady rs ret others w (drop_pin bm w l.1).
Proof.
  intros [H1 H2 H3 H4 H5 H6 H7 H8] Hz. destruct l as [id [ptr bytes]]. cbn [fst] in *. destruct (H6 id r ltac:(left)) as [(s & Hs & Hpin) _].
  rewrite nleases_cons in Hpin. cbn in Hpin. rewrite decide_True in Hpin by done. rewrite Hz in Hpin. unfold drop_pin. rewrite Hpin. cbn [p_count p_retired].
  set (w1 := with_pins w (delete id (w_pins w))). cbn [fmap list_fmap snd] in H1.
  assert (W1 : winv w1 (r :: rs ++ ret.*2 ++ others)).
  { apply (winv_perm naddr ncap len pool w1 (rs ++ (r :: ret.*2) ++ others)); [by cbn [app]; rewrite <- Permutation_middle|]. destruct H1 as [K1 K2 K3 K4 K5]. by split. }
  destruct (winv_reclaim naddr ncap len pool bm w1 _ r s W1 Hs) as (W2 & S2 & P2 & F2 & _). cbn [fmap list_fmap fst app] in H3.
  apply NoDup_app in H3 as (N1 & N2 & N3). apply NoDup_cons in N3 as [N3 N4].
  assert (Hnid : forall key, (key, id) ∉ lb_slots lb) by (intros key Hin; apply (N2 id); [apply list_elem_of_fmap; by exists (key, id)|left]).
  split; [|done]. split.
  - done.
  - done.
  - apply NoDup_app. split; [done|]. split; [|done]. intros x Hx Hx'. apply (N2 x Hx). by right.
  - done.
  - intros key id' Hin. destruct (H5 _ _ Hin) as [Hk Hp]. split; [done|]. rewrite P2. cbn. rewrite nleases_cons in Hp. cbn in Hp.
    destruct (decide (id = id')) as [<-|Hne]; [by apply Hnid in Hin|]. by rewrite lookup_delete_ne.
  - intros id' r' Hin. destruct (H6 id' r' ltac:(by right)) as [(s' & Hs' & Hp) Hpos]. rewrite nleases_cons in Hp, Hpos. cbn in Hp, Hpos. destruct (decide (id = id')) as [<-|Hne].
    + exfalso. apply N3. apply list_elem_of_fmap. by exists (id, r').
    + split; [|done]. exists s'. split; [done|]. rewrite P2. cbn. by rewrite lookup_delete_ne.
  - intros id' ptr' bytes' Hin. destruct (H7 id' ptr' bytes' ltac:(by right)) as (r' & Ho & B1 & B2 & Hb).
    assert (Ho' : owner lb rs ret id' r').
    { destruct Ho as [[[= -> ->]|Ho]%elem_of_cons|Ho]; [|by left|by right]. pose proof (nleases_pos id _ _ Hin eq_refl). lia. }
    exists r'. split; [done|]. split; [done|]. split; [done|]. apply (lease_kept w1 _ (r :: rs ++ ret.*2 ++ others) r'); try done; [right; by eapply owner_in|]. apply S2. by eapply owner_in.
  - intros id' Hs'. rewrite P2 in Hs'. rewrite F2. cbn in Hs' |- *. apply H8. destruct (decide (id' = id)) as [->|Hne]; [by rewrite lookup_delete_eq in Hs'; destruct Hs'|]. by rewrite lookup_delete_ne in Hs'.
Qed.

Lemma drop_lease_spec (w : world) (lb : LinkedBuffer) (rs : list res) (ret : list (nat * res)) (others : list res) (leases : list lease) (l : lease) :
  rd_inv w lb rs ret others (l :: leases) ->
  exists ret', rd_inv (drop_pin bm w l.1) lb rs ret' others leases /\ steady rs ret' others w (drop_pin bm w l.1) /\ ret' ⊆ ret.
Proof.
  intros HI. destruct l as [id [ptr bytes]] eqn:El. cbn [fst]. destruct (ri_lease _ _ _ _ _ _ HI id ptr bytes ltac:(left)) as (r & Ho & _).
  destruct Ho as [Ho|[_ Ho]].
  - destruct (ri_ret _ _ _ _ _ _ HI id r Ho) as [(s & Hs & Hpin) _]. rewrite nleases_cons in Hpin. cbn in Hpin. rewrite decide_True in Hpin by done.
    destruct (nleases id leases) as [|n] eqn:En.
    + apply list_elem_of_split in Ho as (ret1 & ret2 & Er). subst ret. exists (ret1 ++ ret2).
      destruct (drop_last w lb rs (ret1 ++ ret2) others leases (id, (ptr, bytes)) r) as [H1 H2]; [|done|split; [done|split; [done|set_solver]]].
      cbn [fst]. clear -HI PL. destruct HI as [H1 H2 H3 H4 H5 H6 H7 H8].
      assert (Hp : ret1 ++ (id, r) :: ret2 ≡ₚ (id, r) :: ret1 ++ ret2) by (by rewrite Permutation_middle). split; try done.
      * eapply winv_perm; [exact PL| |exact H1]. by rewrite Hp.
      * by rewrite <- Hp.
      * intros id' r'. rewrite <- Hp. apply H6.
      * intros id' p b Hin. destruct (H7 id' p b Hin) as (r' & Ho & Hrest). exists r'. split; [|done]. destruct Ho as [Ho|Ho]; [left; by rewrite <- Hp|by right].
    + exists ret. destruct (drop_shared w lb rs ret others leases (id, (ptr, bytes)) n (Some s) HI) as [H1 H2]; [done|done|by cbn; rewrite En|]. split; [done|]. split; [|done].
      unfold steady. cbn in H2. rewrite H2. apply same_refl.
  - destruct (ri_slot _ _ _ _ _ _ HI _ _ Ho) as [_ Hpin]. rewrite nleases_cons in Hpin. cbn in Hpin. rewrite decide_True in Hpin by done. exists ret.
    destruct (drop_shared w lb rs ret others leases (id, (ptr, bytes)) (nleases id leases) None HI) as [H1 H2]; [done|done|done|]. split; [done|]. split; [|done].
    unfold steady. cbn in H2. rewrite H2. apply same_refl.
Qed.

(** ** Slices that leave the list *)

(** The slot of a slice that is used up. *)
Lemma slot_removed (w : world) (lb : LinkedBuffer) (rs : list res) (ret : list (nat * res)) (others : list res) (leases : list lease) (r : res) (i id : nat) :
  rd_inv w lb (r :: rs) ret others leases -> lb_slots lb !! i = Some (dlo r, id) ->
  let slots := swap_remove i (lb_slots lb) in
  lb_slots lb ≡ₚ (dlo r, id) :: slots /\ (id ∉ slots.*2 ++ ret.*1) /\ NoDup (slots.*2 ++ ret.*1) /\ NoDup slots.*1 /\
  (forall key id', (key, id') ∈ slots -> id' <> id /\ exists r', r' ∈ rs /\ dlo r' = key).
Proof.
  intros HI Hi slots. pose proof (swap_remove_perm _ _ _ Hi) as Hp. fold slots in Hp. pose proof (ri_ids _ _ _ _ _ _ HI) as H3. pose proof (ri_keys _ _ _ _ _ _ HI) as H4.
  rewrite Hp in H3, H4. cbn [fmap list_fmap fst snd app] in H3, H4. apply NoDup_cons in H3 as [H3 H3'], H4 as [H4 H4']. split; [done|]. split; [done|]. split; [done|]. split; [done|].
  intros key id' Hin. split; [intros ->; apply H3, elem_of_app; left; apply list_elem_of_fmap; by exists (key, id)|].
  destruct (ri_slot _ _ _ _ _ _ HI key id') as [(r' & Hr' & Ek) _]; [rewrite Hp; by right|]. exists r'. split; [|done]. apply elem_of_cons in Hr' as [->|Hr']; [|done].
  exfalso. apply H4. apply list_elem_of_fmap. exists (key, id'). by cbn.
Qed.

(** A slot without leases goes with its slice. *)
Lemma unpinned_removed (w w' : world) (lb lb' : LinkedBuffer) (rs : list res) (ret : list (nat * res)) (others others' : list res) (leases : list lease) (r : res) :
  rd_inv w lb (r :: rs) ret others leases -> winv w' (rs ++ ret.*2 ++ others') -> Forall2 srep rs (lb_slices lb') ->
  (forall r', r' ∈ rs ++ ret.*2 -> mem_agree (lo r') (hi r') (w_mem w) (w_mem w')) -> w_fresh w' = w_fresh w ->
  match find_slot (lb_slots lb) (dlo r) with
  | Some (i, id) => nleases id leases = 0%nat /\ w_pins w' = delete id (w_pins w) /\ lb_slots lb' = swap_remove i (lb_slots lb)
  | None => w_pins w' = w_pins w /\ lb_slots lb' = lb_slots lb
  end -> rd_inv w' lb' rs ret others' leases.
Proof.
  intros HI W' HF Ha Hfr Hc. pose proof HI as [H1 H2 H3 H4 H5 H6 H7 H8].
  assert (Hkeep : forall id ptr bytes, (id, (ptr, bytes)) ∈ leases -> (forall r', owner lb (r :: rs) ret id r' -> owner lb' rs ret id r') ->
    exists r', owner lb' rs ret id r' /\ dlo r' <= ptr /\ ptr + Z.of_nat (length bytes) <= hi r' /\ read_bytes (w_mem w') ptr (length bytes) = bytes).
  { intros id ptr bytes Hin Ho. destruct (H7 _ _ _ Hin) as (r' & Hor & B1 & B2 & Hb). exists r'. split; [by apply Ho|]. split; [done|]. split; [done|].
    apply (lease_kept w w' ((r :: rs) ++ ret.*2 ++ others) r' ptr bytes H1); [by eapply owner_in| |done..]. apply Ha. apply Ho in Hor. rewrite <- (app_nil_r (rs ++ ret.*2)), <- app_assoc. by eapply owner_in. }
  destruct (find_slot (lb_slots lb) (dlo r)) as [[i id]|] eqn:Ef.
  - destruct Hc as (Hz & Ep & Es). apply find_slot_Some in Ef. destruct (slot_removed w lb rs ret others leases r i id HI Ef) as (Hp & N1 & N2 & N3 & N4). rewrite <- Es in *.
    assert (Hne : forall key id', (key, id') ∈ lb_slots lb' -> id' <> id) by (intros key id' Hin; by destruct (N4 _ _ Hin)). split; try done.
    + intros key id' Hin. destruct (N4 _ _ Hin) as [Hn Hk]. split; [done|]. rewrite Ep, lookup_delete_ne by done. apply (H5 key id'). rewrite Hp. by right.
    + intros id' r' Hin. rewrite Ep. assert (id' <> id) by (intros ->; apply N1, elem_of_app; right; apply list_elem_of_fmap; by exists (id, r')). rewrite lookup_delete_ne by done. by apply H6.
    + intros id' ptr bytes Hin. apply Hkeep; [done|]. intros r' [Ho|[Ho1 Ho2]]; [by left|right]. rewrite Hp in Ho2. assert (id' <> id) by (intros ->; pose proof (nleases_pos id _ _ Hin eq_refl); lia).
      apply elem_of_cons in Ho2 as [[= _ ->]|Ho2]; [done|]. split; [|done]. apply elem_of_cons in Ho1 as [->|Ho1]; [|done]. exfalso. rewrite Hp in H4. cbn in H4. apply NoDup_cons in H4 as [H4 _].
      apply H4. apply list_elem_of_fmap. by exists (dlo r, id').
    + intros id' Hs. rewrite Hfr. apply H8. rewrite Ep in Hs. destruct (decide (id' = id)) as [->|Hn]; [by rewrite lookup_delete_eq in Hs; destruct Hs|]. by rewrite lookup_delete_ne in Hs.
  - destruct Hc as [Ep Es]. apply find_slot_None in Ef. split; rewrite ?Ep, ?Es, ?Hfr; try done.
    + intros key id' Hin. destruct (H5 _ _ Hin) as [(r' & Hr' & Ek) Hpin]. split; [|done]. exists r'. split; [|done]. apply elem_of_cons in Hr' as [->|Hr']; [|done].
      exfalso. apply Ef. apply list_elem_of_fmap. exists (key, id'). by cbn.
    + intros id' ptr bytes Hin. apply Hkeep; [done|]. intros r' [Ho|[Ho1 Ho2]]; [by left|right]. rewrite Es. split; [|done]. apply elem_of_cons in Ho1 as [->|Ho1]; [|done].
      exfalso. apply Ef. apply list_elem_of_fmap. by exists (dlo r, id').
Qed.

Lemma retire_spec (w : world) (lb lb1 : LinkedBuffer) (rs : list res) (ret : list (nat * res)) (others : list res) (leases : list lease) (r : res) (s : BufferSlice) :
  rd_inv w lb (r :: rs) ret others leases -> slice_at r s -> Forall2 srep rs (lb_slices lb1) -> lb_slots lb1 = lb_slots lb ->
  let '(w', lb') := retire bm w lb1 s in
  exists ret', rd_inv w' lb' rs ret' others leases /\ steady rs ret' others w w' /\ lb' = with_slots lb1 (lb_slots lb').
Proof.
  intros HI Hs HF El. pose proof HI as [H1 H2 H3 H4 H5 H6 H7 H8]. unfold retire. destruct (slice_at_data naddr ncap r s Hs) as (-> & _). rewrite El.
  destruct (winv_reclaim naddr ncap len pool bm w (rs ++ ret.*2 ++ others) r s H1 Hs) as (W1 & S1 & P1 & F1 & _). set (w1 := reclaim_slice bm w s) in *.
  assert (Ha : forall r', r' ∈ rs ++ ret.*2 -> mem_agree (lo r') (hi r') (w_mem w) (w_mem w1)) by (intros r' Hr'; apply S1; rewrite app_assoc; apply elem_of_app; by left).
  destruct (find_slot (lb_slots lb) (dlo r)) as [[i id]|] eqn:Ef.
  2: { exists ret. split; [|split; [done|by destruct lb1; cbn in El |- *; rewrite El]]. apply (unpinned_removed w w1 lb lb1 rs ret others others leases r HI); try done. by rewrite Ef. }
  pose proof (find_slot_Some _ _ _ _ Ef) as Hi. destruct (slot_removed w lb rs ret others leases r i id HI Hi) as (Hp & N1 & N2 & N3 & N4).
  destruct (H5 (dlo r) id) as [_ Hpin]; [by eapply list_elem_of_lookup_2|]. unfold state_retire, strong_count. rewrite Hpin. cbn [p_count].
  set (slots := swap_remove i (lb_slots lb)) in *. destruct (nleases id leases) as [|n] eqn:En; cbn [Nat.eqb].
  - fold w1. unfold drop_pin. rewrite P1, Hpin. cbn [p_count p_retired]. exists ret. split; [|split; [done|done]]. apply (unpinned_removed w _ lb _ rs ret others others leases r HI); try done; cbn.
    + destruct W1 as [K1 K2 K3 K4 K5]. by split.
    + by rewrite Ef.
  - unfold drop_pin. cbn [with_pins w_pins]. rewrite lookup_alter_eq, Hpin. cbn [fmap option_fmap option_map p_count p_retired].
    exists ((id, r) :: ret). split; [|split; [apply same_refl|done]]. unfold with_pins. cbn [w_mem w_heap w_fresh w_pins].
    set (pins := <[id := mkPin (S n) (Some s)]> (alter _ id (w_pins w))).
    assert (Hne : forall id', id' <> id -> pins !! id' = w_pins w !! id') by (intros id' Hn; unfold pins; by rewrite lookup_insert_ne, lookup_alter_ne).
    split; cbn [w_mem w_pins w_fresh lb_slots lb_slices with_slots].
    + apply (winv_perm naddr ncap len pool _ ((r :: rs) ++ ret.*2 ++ others)); [by cbn [fmap list_fmap snd app]; rewrite <- Permutation_middle|]. destruct H1 as [K1 K2 K3 K4 K5]. by split.
    + done.
    + cbn [fmap list_fmap fst]. rewrite <- Permutation_middle. by apply NoDup_cons.
    + done.
    + intros key id' Hin. destruct (N4 _ _ Hin) as [Hn Hk]. split; [done|]. rewrite Hne by done. apply (H5 key id'). rewrite Hp. by right.
    + intros id' r' [[= -> ->]|Hin]%elem_of_cons.
      * rewrite En. split; [|lia]. exists s. split; [done|]. unfold pins. by rewrite lookup_insert_eq.
      * rewrite Hne; [by apply H6|]. intros ->. apply N1, elem_of_app. right. apply list_elem_of_fmap. by exists (id, r').
    + intros id' ptr bytes Hin. destruct (H7 _ _ _ Hin) as (r' & Ho & Hrest). exists r'. split; [|done]. destruct Ho as [Ho|[Ho1 Ho2]]; [left; by right|].
      rewrite Hp in Ho2. apply elem_of_cons in Ho2 as [[= E1 ->]|Ho2].
      * left. assert (r' = r) as ->; [|left]. apply (dlo_inj naddr ncap len pool w ((r :: rs) ++ ret.*2 ++ others)); [done| | |done]; apply elem_of_app; left; [done|left].
      * right. split; [|done]. apply elem_of_cons in Ho1 as [->|Ho1]; [|done]. exfalso. rewrite Hp in H4. cbn in H4. apply NoDup_cons in H4 as [H4 _]. apply H4. apply list_elem_of_fmap. by exists (dlo r, id').
    + intros id' Hs'. apply H8. destruct (decide (id' = id)) as [->|Hn]; [by rewrite Hpin|]. by rewrite Hne in Hs'.
Qed.

(** A slice that nobody leases leaves without going back to the pool. *)
Lemma abandon_spec (w : world) (lb lb1 : LinkedBuffer) (rs : list res) (ret : list (nat * res)) (others : list res) (leases : list lease) (r : res) (s : BufferSlice) :
  rd_inv w lb (r :: rs) ret others leases -> slice_at r s -> Forall2 srep rs (lb_slices lb1) -> lb_slots lb1 = lb_slots lb -> is_pinned w lb1 s = false ->
  let '(w', lb') := abandon bm w lb1 s in
  rd_inv w' lb' rs ret (r :: others) leases /\ w_mem w' = w_mem w /\ lb' = with_slots lb1 (lb_slots lb').
Proof.
  intros HI Hs HF El Hn. pose proof HI as [H1 H2 H3 H4 H5 H6 H7 H8]. unfold abandon, is_pinned in *. destruct (slice_at_data naddr ncap r s Hs) as (Ed & _). rewrite Ed, El in *.
  assert (W1 : winv w (rs ++ ret.*2 ++ r :: others)) by (apply (winv_perm naddr ncap len pool _ ((r :: rs) ++ ret.*2 ++ others)); [cbn [app]; by rewrite !app_assoc, Permutation_middle|done]).
  destruct (find_slot (lb_slots lb) (dlo r)) as [[i id]|] eqn:Ef.
  - pose proof (find_slot_Some _ _ _ _ Ef) as Hi. destruct (H5 (dlo r) id) as [_ Hpin]; [by eapply list_elem_of_lookup_2|]. unfold strong_count in Hn. rewrite Hpin in Hn. cbn [p_count] in Hn.
    destruct (nleases id leases) as [|n] eqn:En; [|done]. unfold drop_pin. rewrite Hpin. cbn [p_count p_retired]. split; [|done].
    apply (unpinned_removed w _ lb _ rs ret others (r :: others) leases r HI); try done; cbn.
    + destruct W1 as [K1 K2 K3 K4 K5]. by split.
    + by rewrite Ef.
  - split; [|split; [done|by destruct lb1; cbn in El |- *; rewrite El]]. apply (unpinned_removed w w lb lb1 rs ret others (r :: others) leases r HI); try done. by rewrite Ef.
Qed.

End pins.
