(* ===== verification/LinkedRead.v ===== *)
(** * Reading from a linked buffer *)

From Stdlib Require Import ZArith Lia.
From stdpp Require Import base numbers list gmap.
From S2P Require Import Prelude Config LegacyBuf LegacyBufFacts LegacyManager LegacyPool Linked LinkedFacts LinkedPins.

#[local] Open Scope Z_scope.

(** What a successful read adds to the leases. *)
Definition lease_of (b : Buf) (bytes : list Z) (leases : list lease) : list lease :=
  match b with BShm ptr _ id => (id, (ptr, bytes)) :: leases | BExm _ => leases end.

Section read.
Context {node : Type} `{EqDecision node} (naddr ncap : node -> Z) (len : Z) (pool : mem -> list node -> Prop).
Context {PL : PoolLaws naddr ncap len pool} (bm : BufferManager) {ML : ManagerLaws naddr ncap len pool bm}.

Abbreviation res := (res node).
Abbreviation srep := (srep naddr ncap).
Abbreviation slice_at := (slice_at naddr ncap).
Abbreviation winv := (winv len pool).
Abbreviation same := (same naddr ncap).
Abbreviation dlo := (dlo naddr).
Abbreviation hi := (hi naddr ncap).
Abbreviation rd_inv := (rd_inv naddr ncap len pool).

(** The bytes to be read are [data]; only the first slice may be used up. *)
Record reader (w : world) (lb : LinkedBuffer) (rs : list res) (ret : list (nat * res)) (others : list res) (leases : list lease) (data : list Z) : Prop := {
  rd_is : rd_inv w lb rs ret others leases;
  rd_data : contents (w_mem w) (lb_slices lb) = data;
  rd_len : lb_len lb = Z.of_nat (length data);
  rd_full : Forall (fun s => 0 < slice_size s) (tail (lb_slices lb));
}.

Lemma rd_inv_lb (w : world) (lb lb' : LinkedBuffer) (rs : list res) (ret : list (nat * res)) (others : list res) (leases : list lease) :
  Forall2 srep rs (lb_slices lb') -> lb_slots lb' = lb_slots lb -> rd_inv w lb rs ret others leases -> rd_inv w lb' rs ret others leases.
Proof.
  intros HF Es [H1 H2 H3 H4 H5 H6 H7 H8]. split; rewrite ?Es; try done. intros id ptr bytes Hin. destruct (H7 _ _ _ Hin) as (r & Ho & Hrest). exists r. split; [|done].
  unfold owner. by rewrite Es.
Qed.

(** ** The first slice *)

Lemma front_cases (w : world) (lb : LinkedBuffer) (rs : list res) (ret : list (nat * res)) (others : list res) (leases : list lease) (s : BufferSlice) (ss : list BufferSlice) :
  rd_inv w lb rs ret others leases -> lb_slices lb = s :: ss -> exists r rs', rs = r :: rs' /\ srep r s /\ Forall2 srep rs' ss /\ r ∈ rs.
Proof.
  intros HI E. pose proof (ri_slices _ _ _ _ _ _ _ _ _ _ HI) as HF. rewrite E in HF. apply Forall2_cons_inv_r in HF as (r & rs' & Hs & HF & ->). exists r, rs'.
  split; [done|]. split; [done|]. split; [done|left].
Qed.

(** Bytes read or skipped at the front of a slice. *)
Definition advanced (s : BufferSlice) (n : Z) : BufferSlice :=
  mkBS (bs_header s) (bs_data s) (bs_cap s) (bs_start s) (bs_offset_in_shm s) (bs_read s + n) (bs_write s) (bs_from_shm s).

Lemma advanced_spec (r : res) (s : BufferSlice) (m : mem) (n : Z) :
  srep r s -> 0 <= n <= slice_size s ->
  srep r (advanced s n) /\ sbytes m s = read_bytes m (bs_data s + bs_read s) (Z.to_nat n) ++ sbytes m (advanced s n) /\ slice_size (advanced s n) = slice_size s - n /\
  dlo r <= bs_data s + bs_read s /\ bs_data s + bs_read s + n <= hi r.
Proof.
  intros [Hs Hi] Hn. destruct (slice_at_data naddr ncap r s Hs) as (Ed & Ec & _). unfold slice_size in *. cbn [advanced bs_write bs_read].
  split; [split; [by destruct r|cbn; lia]|]. split; [|lia]. unfold sbytes, slice_size. cbn [advanced bs_write bs_read bs_data].
  replace (Z.to_nat (bs_write s - bs_read s)) with (Z.to_nat n + Z.to_nat (bs_write s - (bs_read s + n)))%nat by lia. rewrite read_bytes_app. do 2 f_equal. lia.
Qed.

Lemma slice_read_advanced (m : mem) (s : BufferSlice) (size : Z) :
  slice_read m s size = (read_bytes m (bs_data s + bs_read s) (Z.to_nat (Z.min size (slice_size s))), advanced s (Z.min size (slice_size s))).
Proof. done. Qed.

Lemma slice_skip_advanced (s : BufferSlice) (size : Z) : slice_skip s size = (Z.min size (slice_size s), advanced s (Z.min size (slice_size s))).
Proof.
  unfold slice_skip. rewrite Z.gtb_ltb. destruct (Z.ltb_spec size (slice_size s)); [rewrite Z.min_l by lia|rewrite Z.min_r by lia]; done.
Qed.

(** [n] bytes go from the front. *)
Lemma front_advanced (w : world) (lb : LinkedBuffer) (rs : list res) (ret : list (nat * res)) (others : list res) (leases : list lease) (s : BufferSlice) (ss : list BufferSlice) (n : Z) :
  rd_inv w lb rs ret others leases -> lb_slices lb = s :: ss -> 0 <= n <= slice_size s ->
  let lb' := with_slice lb 0 (advanced s n) in
  rd_inv w lb' rs ret others leases /\ lb_slices lb' = advanced s n :: ss /\
  contents (w_mem w) (lb_slices lb) = read_bytes (w_mem w) (bs_data s + bs_read s) (Z.to_nat n) ++ contents (w_mem w) (lb_slices lb').
Proof.
  intros HI E Hn lb'. destruct (front_cases _ _ _ _ _ _ _ _ HI E) as (r & rs' & -> & Hs & HF & _). destruct (advanced_spec r s (w_mem w) n Hs Hn) as (Hs' & Eb & _).
  assert (Esl : lb_slices lb' = advanced s n :: ss) by (unfold lb'; cbn; by rewrite E). split; [|split; [done|]].
  - apply (rd_inv_lb w lb); [rewrite Esl; by apply Forall2_cons|done|done].
  - by rewrite Esl, E, !contents_cons, Eb, app_assoc.
Qed.

Lemma read_next_spec (w : world) (lb : LinkedBuffer) (r : res) (rs : list res) (ret : list (nat * res)) (others : list res) (leases : list lease) (s : BufferSlice) (ss : list BufferSlice) :
  rd_inv w lb (r :: rs) ret others leases -> lb_slices lb = s :: ss ->
  let '(w', lb') := read_next_slice bm w lb in
  exists ret', rd_inv w' lb' rs ret' others leases /\ same others (w_mem w) (w_mem w') /\ lb_slices lb' = ss /\ lb_len lb' = lb_len lb /\
    contents (w_mem w') ss = contents (w_mem w) ss.
Proof.
  intros HI E. unfold read_next_slice, pop_front. rewrite E. set (lb1 := mkLB ss _ _ _ _).
  destruct (front_cases _ _ _ _ _ _ _ _ HI E) as (r' & rs' & [= -> ->] & [Hs _] & HF & _).
  pose proof (retire_spec naddr ncap len pool bm w lb lb1 rs' ret others leases r' s HI Hs HF eq_refl) as H. destruct (retire bm w lb1 s) as [w' lb']. destruct H as (ret' & HI' & St & El).
  exists ret'. assert (Esl : lb_slices lb' = ss) by (by rewrite El). split; [done|]. split; [eapply same_sub; [|exact St]; set_solver|]. split; [done|]. split; [by rewrite El|].
  apply (same_contents naddr ncap len pool w' rs' (rs' ++ ret'.*2 ++ others)); [apply (ri_world _ _ _ _ _ _ _ _ _ _ HI')|set_solver|eapply same_sub; [|exact St]; set_solver|done].
Qed.

(** The used-up slices at the front are skipped. *)
Lemma skip_empty_spec (fuel : nat) (w : world) (lb : LinkedBuffer) (rs : list res) (ret : list (nat * res)) (others : list res) (leases : list lease) (data : list Z) :
  reader w lb rs ret others leases data -> (length (lb_slices lb) <= fuel)%nat ->
  let '(w', lb') := skip_empty bm fuel true w lb in
  exists rs' ret', reader w' lb' rs' ret' others leases data /\ same others (w_mem w) (w_mem w') /\
    match lb_slices lb' with [] => data = [] | s :: _ => 0 < slice_size s end.
Proof.
  revert w lb rs ret. induction fuel as [|fuel IH]; intros w lb rs ret [HI Hd Hl Hf] Hfuel; cbn [skip_empty].
  { exists rs, ret. split; [by split|]. split; [apply same_refl|]. destruct (lb_slices lb); [by rewrite <- Hd|cbn in Hfuel; lia]. }
  destruct (lb_slices lb) as [|s ss] eqn:E; [exists rs, ret; split; [by split; rewrite ?E|]; split; [apply same_refl|by rewrite E, <- Hd]|]. cbn [andb].
  destruct (front_cases _ _ _ _ _ _ _ _ HI E) as (r & rs' & -> & [Hs Hi] & HF & _). destruct (Z.eqb_spec (slice_size s) 0) as [Ez|Ez].
  - pose proof (read_next_spec w lb r rs' ret others leases s ss HI E) as H. destruct (read_next_slice bm w lb) as [w1 lb1]. destruct H as (ret1 & HI1 & S1 & Es1 & El1 & Ec1).
    assert (R1 : reader w1 lb1 rs' ret1 others leases data).
    { split; [done| |congruence|rewrite Es1; cbn in Hf; by destruct ss; [|apply Forall_cons in Hf as [_ ?]]]. rewrite Es1, Ec1, <- Hd, contents_cons. unfold sbytes. by rewrite Ez. }
    specialize (IH w1 lb1 rs' ret1 R1). rewrite Es1 in IH. specialize (IH ltac:(cbn in Hfuel; lia)). destruct (skip_empty bm fuel true w1 lb1) as [w' lb'].
    destruct IH as (rs2 & ret2 & R2 & S2 & Hfr). exists rs2, ret2. split; [done|]. split; [by apply (same_trans _ _ _ _ (w_mem w1))|done].
  - exists (r :: rs'), ret. split; [by split; rewrite ?E|]. split; [apply same_refl|]. rewrite E. unfold slice_size in *. lia.
Qed.

(** ** Reading under a lease *)

Lemma take_front (m : mem) (s : BufferSlice) (ss : list BufferSlice) (n : Z) :
  bs_read s <= bs_write s -> 0 <= n <= slice_size s -> take (Z.to_nat n) (contents m (s :: ss)) = read_bytes m (bs_data s + bs_read s) (Z.to_nat n).
Proof.
  intros Hi Hn. rewrite contents_cons. unfold sbytes. replace (Z.to_nat (slice_size s)) with (Z.to_nat n + Z.to_nat (slice_size s - n))%nat by lia.
  rewrite read_bytes_app, <- app_assoc. apply take_app_length'. by rewrite read_bytes_length.
Qed.

Lemma lease_front_spec (w : world) (lb : LinkedBuffer) (rs : list res) (ret : list (nat * res)) (others : list res) (leases : list lease) (data : list Z) (s : BufferSlice) (ss : list BufferSlice) (size : Z) :
  reader w lb rs ret others leases data -> lb_slices lb = s :: ss -> 0 <= size <= slice_size s ->
  let '(b, w', lb') := lease_front w lb s size in
  reader w' lb' rs ret others (lease_of b (take (Z.to_nat size) data) leases) (drop (Z.to_nat size) data) /\ w_mem w' = w_mem w /\ buf_bytes (w_mem w') b = take (Z.to_nat size) data /\
  (Z.to_nat size <= length data)%nat.
Proof.
  intros [HI Hd Hl Hf] E Hn. destruct (front_cases _ _ _ _ _ _ _ _ HI E) as (r & rs' & Er & Hs & HF & Hr). unfold lease_front.
  destruct (advanced_spec r s (w_mem w) size Hs Hn) as (Hs' & _ & _ & B1 & B2). pose proof Hs as [Hsa Hi].
  pose proof (take_front (w_mem w) s ss size ltac:(lia) Hn) as Et. rewrite <- E, Hd in Et. assert (Hlen : length (take (Z.to_nat size) data) = Z.to_nat size) by (rewrite Et; apply read_bytes_length).
  pose proof (acquire_spec naddr ncap len pool w lb rs ret others leases r s (bs_data s + bs_read s) (take (Z.to_nat size) data) HI Hr Hsa B1) as Ha.
  destruct (pin_acquire w lb s) as [[id w1] lb1]. destruct Ha as (HI1 & Em & Elb); [rewrite Hlen; lia|by rewrite Hlen|]. rewrite slice_read_advanced, Z.min_l by lia.
  assert (E1 : lb_slices lb1 = s :: ss) by (by rewrite Elb). destruct (front_advanced w1 lb1 rs ret others _ s ss size HI1 E1 Hn) as (HI2 & E2 & Ec).
  split; [|split; [done|split]].
  - split; cbn [lease_of].
    + apply (rd_inv_lb w1 (with_slice lb1 0 (advanced s size))); [|done|done]. apply (ri_slices _ _ _ _ _ _ _ _ _ _ HI2).
    + change (lb_slices (with_slice (with_len lb1 (lb_len lb1 - size)) 0 (advanced s size))) with (lb_slices (with_slice lb1 0 (advanced s size))).
      rewrite Em, E1, <- E, Hd in Ec. rewrite Em, Ec. symmetry. apply drop_app_length'. by rewrite read_bytes_length.
    + cbn. assert (lb_len lb1 = lb_len lb) as -> by (by rewrite Elb). rewrite length_drop. rewrite length_take in Hlen. lia.
    + change (lb_slices (with_slice (with_len lb1 (lb_len lb1 - size)) 0 (advanced s size))) with (lb_slices (with_slice lb1 0 (advanced s size))). rewrite E2. rewrite E in Hf. done.
  - cbn. by rewrite Em, Et.
  - rewrite length_take in Hlen. lia.
Qed.

(** ** Copying reads *)

Lemma take_app_more {A} (l k : list A) (n : Z) : Z.of_nat (length l) <= n -> take (Z.to_nat n) (l ++ k) = l ++ take (Z.to_nat (n - Z.of_nat (length l))) k.
Proof. intros Hn. rewrite take_app, take_ge by lia. do 2 f_equal. lia. Qed.

Lemma drop_app_more {A} (l k : list A) (n : Z) : Z.of_nat (length l) <= n -> drop (Z.to_nat n) (l ++ k) = drop (Z.to_nat (n - Z.of_nat (length l))) k.
Proof. intros Hn. rewrite drop_app, drop_ge by lia. cbn. f_equal. lia. Qed.

Lemma tail_full (ss : list BufferSlice) (P : BufferSlice -> Prop) : Forall P ss -> Forall P (tail ss).
Proof. by destruct 1. Qed.

(** One round of a copying loop: some bytes of the first slice are taken, and the slice
    goes if it is used up. *)
Lemma copy_round (w : world) (lb : LinkedBuffer) (rs : list res) (ret : list (nat * res)) (others : list res) (leases : list lease) (s : BufferSlice) (ss : list BufferSlice) (size : Z) :
  rd_inv w lb rs ret others leases -> lb_slices lb = s :: ss -> Forall (fun s => 0 < slice_size s) ss -> 0 <= size ->
  let n := Z.min size (slice_size s) in
  let lb1 := with_slice lb 0 (advanced s n) in
  let '(w', lb') := if n =? size then (w, lb1) else read_next_slice bm w lb1 in
  exists rs' ret', rd_inv w' lb' rs' ret' others leases /\ same others (w_mem w) (w_mem w') /\ lb_len lb' = lb_len lb /\ Forall (fun s => 0 < slice_size s) (tail (lb_slices lb')) /\
    contents (w_mem w) (lb_slices lb) = read_bytes (w_mem w) (bs_data s + bs_read s) (Z.to_nat n) ++ contents (w_mem w') (lb_slices lb') /\
    (n <> size -> lb_slices lb' = ss).
Proof.
  intros HI E Hf Hn n lb1. destruct (front_cases _ _ _ _ _ _ _ _ HI E) as (r & rs' & -> & [Hs Hi] & HF & _). assert (Hsz : 0 <= slice_size s) by (unfold slice_size; lia).
  destruct (front_advanced w lb (r :: rs') ret others leases s ss n HI E) as (HI1 & E1 & Ec); [lia|]. fold lb1 in HI1, E1, Ec. destruct (Z.eqb_spec n size) as [En|En].
  - exists (r :: rs'), ret. split; [done|]. split; [apply same_refl|]. split; [done|]. split; [by rewrite E1|]. split; [done|]. by intros ?.
  - pose proof (read_next_spec w lb1 r rs' ret others leases _ ss HI1 E1) as H. destruct (read_next_slice bm w lb1) as [w' lb']. destruct H as (ret' & HI' & S' & Es' & El' & Ec').
    exists rs', ret'. split; [done|]. split; [done|]. split; [done|]. rewrite Es'. split; [by apply tail_full|]. split; [|done]. rewrite Ec, E1, contents_cons, Ec'. f_equal.
    unfold sbytes. destruct (advanced_spec r s (w_mem w) n ltac:(by split) ltac:(lia)) as (_ & _ & -> & _). by replace (slice_size s - n) with 0 by lia.
Qed.

Lemma read_slow_spec (fuel : nat) (w : world) (lb : LinkedBuffer) (rs : list res) (ret : list (nat * res)) (others : list res) (leases : list lease) (size : Z) (acc : list Z) :
  let data := contents (w_mem w) (lb_slices lb) in
  rd_inv w lb rs ret others leases -> Forall (fun s => 0 < slice_size s) (tail (lb_slices lb)) -> 0 <= size <= Z.of_nat (length data) -> (length (lb_slices lb) <= fuel)%nat ->
  exists w' lb' rs' ret', read_slow bm fuel w lb size acc = Some (acc ++ take (Z.to_nat size) data, w', lb') /\ rd_inv w' lb' rs' ret' others leases /\
    same others (w_mem w) (w_mem w') /\ contents (w_mem w') (lb_slices lb') = drop (Z.to_nat size) data /\ lb_len lb' = lb_len lb /\ Forall (fun s => 0 < slice_size s) (tail (lb_slices lb')).
Proof.
  revert w lb rs ret size acc. induction fuel as [|fuel IH]; intros w lb rs ret size acc data HI Hf Hn Hfuel; cbn [read_slow]; rewrite Z.gtb_ltb; destruct (Z.ltb_spec 0 size) as [Hp|Hz].
  2, 4: assert (size = 0) as -> by lia; exists w, lb, rs, ret; cbn [Z.to_nat]; rewrite take_0, drop_0, app_nil_r; (split; [done|]); (split; [done|]); (split; [apply same_refl|done]).
  { unfold data in Hn. destruct (lb_slices lb); [cbn in Hn; lia|cbn in Hfuel; lia]. }
  destruct (lb_slices lb) as [|s ss] eqn:E; [unfold data in Hn; cbn in Hn; lia|]. rewrite slice_read_advanced. set (n := Z.min size (slice_size s)).
  destruct (front_cases _ _ _ _ _ _ _ _ HI E) as (r & rs1 & Er & [Hs Hi] & _). assert (Hsz : 0 <= slice_size s) by (unfold slice_size; lia).
  pose proof (copy_round w lb rs ret others leases s ss size HI E Hf ltac:(lia)) as Hc. cbn zeta in Hc. fold n in Hc. rewrite read_bytes_length.
  replace (Z.of_nat (Z.to_nat n)) with n by lia. destruct (if n =? size then _ else _) as [w1 lb1]. destruct Hc as (rs' & ret' & HI1 & S1 & El1 & Hf1 & Ec & Ess).
  set (d := read_bytes (w_mem w) _ _) in *. assert (Hd : Z.of_nat (length d) = n) by (unfold d; rewrite read_bytes_length; lia). rewrite E in Ec. fold data in Ec.
  assert (Hlen : Z.of_nat (length data) = n + Z.of_nat (length (contents (w_mem w1) (lb_slices lb1)))) by (rewrite Ec, length_app; lia).
  assert (Hgo : exists w' lb' rs2 ret2, read_slow bm fuel w1 lb1 (size - n) (acc ++ d) = Some ((acc ++ d) ++ take (Z.to_nat (size - n)) (contents (w_mem w1) (lb_slices lb1)), w', lb') /\
    rd_inv w' lb' rs2 ret2 others leases /\ same others (w_mem w1) (w_mem w') /\ contents (w_mem w') (lb_slices lb') = drop (Z.to_nat (size - n)) (contents (w_mem w1) (lb_slices lb1)) /\
    lb_len lb' = lb_len lb1 /\ Forall (fun s => 0 < slice_size s) (tail (lb_slices lb'))).
  { destruct (decide (n = size)) as [En|En].
    - exists w1, lb1, rs', ret'. replace (size - n) with 0 by lia. cbn [Z.to_nat]. rewrite take_0, drop_0, app_nil_r. split; [by destruct fuel|]. split; [done|]. split; [apply same_refl|done].
    - apply (IH w1 lb1 rs' ret' (size - n) (acc ++ d)); try done; [lia|]. rewrite (Ess En). cbn in Hfuel. lia. }
  destruct Hgo as (w' & lb' & rs2 & ret2 & -> & HI2 & S2 & Ec2 & El2 & Hf2). exists w', lb', rs2, ret2. rewrite Ec, take_app_more, drop_app_more by lia. rewrite Hd, <- app_assoc.
  split; [done|]. split; [done|]. split; [by apply (same_trans _ _ _ _ (w_mem w1))|]. split; [done|]. split; [congruence|done].
Qed.

(** [read_exact_bytes]. *)
Lemma lb_read_exact_spec (w : world) (lb : LinkedBuffer) (rs : list res) (ret : list (nat * res)) (others : list res) (leases : list lease) (data : list Z) (size : Z) :
  reader w lb rs ret others leases data -> 0 <= size <= Z.of_nat (length data) ->
  exists b w' lb' rs' ret', read_exact_bytes bm w lb size = Some (Ok b, w', lb') /\
    reader w' lb' rs' ret' others (lease_of b (take (Z.to_nat size) data) leases) (drop (Z.to_nat size) data) /\
    buf_bytes (w_mem w') b = take (Z.to_nat size) data /\ same others (w_mem w) (w_mem w').
Proof.
  intros R Hn. unfold read_exact_bytes. destruct (Z.eqb_spec size 0) as [->|Hz].
  { exists (BExm []), w, lb, rs, ret. cbn [Z.to_nat lease_of]. rewrite take_0, drop_0. split; [done|]. split; [done|]. split; [done|apply same_refl]. }
  pose proof R as [HI Hd Hl Hf]. destruct (Z.ltb_spec (lb_len lb) size) as [?|_]; [lia|].
  assert (Hskip : let '(w1, lb1) := match lb_slices lb with s :: _ => if slice_size s =? 0 then read_next_slice bm w lb else (w, lb) | [] => (w, lb) end in
    exists rs1 ret1, reader w1 lb1 rs1 ret1 others leases data /\ same others (w_mem w) (w_mem w1)).
  { destruct (lb_slices lb) as [|s ss] eqn:E; [exists rs, ret; split; [done|apply same_refl]|]. destruct (Z.eqb_spec (slice_size s) 0) as [Ez|Ez]; [|exists rs, ret; split; [done|apply same_refl]].
    destruct (front_cases _ _ _ _ _ _ _ _ HI E) as (r & rs' & -> & _). pose proof (read_next_spec w lb r rs' ret others leases s ss HI E) as H. destruct (read_next_slice bm w lb) as [w1 lb1].
    destruct H as (ret1 & HI1 & S1 & Es1 & El1 & Ec1). exists rs', ret1. split; [|done]. cbn in Hf. split; [done| |congruence|rewrite Es1; by apply tail_full].
    rewrite Es1, Ec1, <- Hd, contents_cons. unfold sbytes. by rewrite Ez. }
  destruct (match lb_slices lb with [] => _ | _ :: _ => _ end) as [w1 lb1]. destruct Hskip as (rs1 & ret1 & R1 & S1). pose proof R1 as [HI1 Hd1 Hl1 Hf1].
  assert (Hslow : exists w' lb' rs' ret', read_slow bm (length (lb_slices lb1)) w1 (with_len lb1 (lb_len lb1 - size)) size [] = Some (take (Z.to_nat size) data, w', lb') /\
    reader w' lb' rs' ret' others leases (drop (Z.to_nat size) data) /\ same others (w_mem w) (w_mem w')).
  { destruct (read_slow_spec (length (lb_slices lb1)) w1 (with_len lb1 (lb_len lb1 - size)) rs1 ret1 others leases size []) as (w' & lb' & rs' & ret' & E & HI' & S' & Ec' & El' & Hf').
    - apply (rd_inv_lb w1 lb1); [apply (ri_slices _ _ _ _ _ _ _ _ _ _ HI1)|done|done].
    - done.
    - cbn [with_len lb_slices]. rewrite Hd1. lia.
    - done.
    - cbn [with_len lb_slices lb_len] in E, Ec', El'. rewrite Hd1 in E, Ec'. exists w', lb', rs', ret'. split; [done|]. split; [|by apply (same_trans _ _ _ _ (w_mem w1))]. split; [done|done| |done].
      rewrite El', length_drop. lia. }
  destruct Hslow as (w' & lb' & rs' & ret' & Es & R' & S'). rewrite Es. cbn [mbind option_bind].
  destruct (lb_slices lb1) as [|s ss] eqn:E; [exists (BExm (take (Z.to_nat size) data)), w', lb', rs', ret'; done|]. rewrite Z.geb_leb. destruct (Z.leb_spec size (slice_size s)) as [Hle|Hgt].
  - pose proof (lease_front_spec w1 lb1 rs1 ret1 others leases data s ss size R1 E ltac:(lia)) as H. destruct (lease_front w1 lb1 s size) as [[b w2] lb2]. destruct H as (R2 & Em & Eb & _).
    exists b, w2, lb2, rs1, ret1. split; [done|]. split; [done|]. split; [done|]. by rewrite Em.
  - exists (BExm (take (Z.to_nat size) data)), w', lb', rs', ret'. done.
Qed.

(** [read_chunk]: what is left of the first slice that has something. *)
Lemma read_chunk_spec (w : world) (lb : LinkedBuffer) (rs : list res) (ret : list (nat * res)) (others : list res) (leases : list lease) (data : list Z) :
  reader w lb rs ret others leases data ->
  exists o w' lb' rs' ret', read_chunk bm w lb = (o, w', lb') /\ same others (w_mem w) (w_mem w') /\
    match o with
    | Ok b => exists n, (0 < n <= length data)%nat /\ reader w' lb' rs' ret' others (lease_of b (take n data) leases) (drop n data) /\ buf_bytes (w_mem w') b = take n data
    | Err NotEnoughData => data = [] /\ reader w' lb' rs' ret' others leases data
    end.
Proof.
  intros R. unfold read_chunk. pose proof (skip_empty_spec (length (lb_slices lb)) w lb rs ret others leases data R ltac:(lia)) as Hs.
  destruct (skip_empty bm _ true w lb) as [w1 lb1]. destruct Hs as (rs1 & ret1 & R1 & S1 & Hfr). destruct (lb_slices lb1) as [|s ss] eqn:E; [by exists (Err NotEnoughData), w1, lb1, rs1, ret1|].
  pose proof R1 as [HI1 Hd1 Hl1 _]. pose proof (lease_front_spec w1 lb1 rs1 ret1 others leases data s ss (slice_size s) R1 E ltac:(lia)) as H.
  rewrite Z.gtb_ltb. destruct (Z.ltb_spec 0 (slice_size s)); [|lia]. destruct (lease_front w1 lb1 s (slice_size s)) as [[b w2] lb2]. destruct H as (R2 & Em & Eb & Hle).
  destruct (Z.ltb_spec (lb_len lb1) (slice_size s)) as [?|_]; [lia|]. cbn [andb negb]. exists (Ok b), w2, lb2, rs1, ret1. split; [done|]. split; [by rewrite Em|]. exists (Z.to_nat (slice_size s)).
  split; [lia|]. done.
Qed.

(** ** Looking ahead *)

Lemma peek_slow_spec (m : mem) (rs : list res) (ss : list BufferSlice) (size : Z) :
  Forall2 srep rs ss -> 0 <= size <= Z.of_nat (length (contents m ss)) -> peek_slow m ss size = take (Z.to_nat size) (contents m ss).
Proof.
  intros HF. revert size. induction HF as [|r s rs ss [Hs Hi] HF IH]; intros size Hn; cbn [peek_slow]; [by destruct (Z.to_nat size)|]. rewrite Z.gtb_ltb.
  destruct (Z.ltb_spec 0 size) as [Hp|Hz]; [|assert (size = 0) as -> by lia; done]. unfold slice_peek. rewrite read_bytes_length. set (n := Z.min size (slice_size s)).
  assert (Hsz : 0 <= slice_size s) by (unfold slice_size; lia). rewrite contents_cons in Hn |- *. rewrite length_app in Hn. pose proof (sbytes_length m s ltac:(lia)) as Hb.
  replace (Z.of_nat (Z.to_nat n)) with n by lia. destruct (decide (size <= slice_size s)) as [Hle|Hgt].
  - replace n with size by lia. replace (size - size) with 0 by lia. rewrite <- contents_cons. rewrite (take_front m s ss size) by lia. destruct ss; cbn; by rewrite app_nil_r.
  - rewrite IH by lia. rewrite take_app_more by lia. rewrite Hb. replace n with (slice_size s) by lia. done.
Qed.

(** [peek] leaves everything in place. *)
Lemma lb_peek_spec (w : world) (lb : LinkedBuffer) (rs : list res) (ret : list (nat * res)) (others : list res) (leases : list lease) (data : list Z) (size : Z) :
  reader w lb rs ret others leases data -> 0 <= size <= Z.of_nat (length data) ->
  exists b w' lb' ret', lb_peek bm w lb size = (Ok b, w', lb') /\ reader w' lb' rs ret' others (lease_of b (take (Z.to_nat size) data) leases) data /\
    buf_bytes (w_mem w') b = take (Z.to_nat size) data /\ same others (w_mem w) (w_mem w').
Proof.
  intros R Hn. unfold lb_peek. destruct (Z.eqb_spec size 0) as [->|Hz].
  { exists (BExm []), w, lb, ret. cbn [Z.to_nat lease_of]. rewrite take_0. split; [done|]. split; [done|]. split; [done|apply same_refl]. }
  pose proof R as [HI Hd Hl Hf]. destruct (Z.ltb_spec (lb_len lb) size) as [?|_]; [lia|]. destruct (lb_slices lb) as [|s ss] eqn:E; [rewrite <- Hd in Hn; cbn in Hn; lia|].
  destruct (front_cases _ _ _ _ _ _ _ _ HI E) as (r & rs' & Er & Hs & HF & Hr). pose proof Hs as [Hsa Hi]. assert (Hsz : 0 <= slice_size s) by (unfold slice_size; lia). set (n := Z.min size (slice_size s)).
  destruct (advanced_spec r s (w_mem w) n Hs ltac:(lia)) as (_ & _ & _ & B1 & B2).
  assert (Et : take (Z.to_nat n) data = read_bytes (w_mem w) (bs_data s + bs_read s) (Z.to_nat n)) by (rewrite <- Hd; apply take_front; lia).
  assert (Hlen : length (take (Z.to_nat n) data) = Z.to_nat n) by (rewrite Et; apply read_bytes_length).
  pose proof (acquire_spec naddr ncap len pool w lb rs ret others leases r s (bs_data s + bs_read s) (take (Z.to_nat n) data) HI Hr Hsa B1) as Ha.
  destruct (pin_acquire w lb s) as [[id w1] lb1]. destruct Ha as (HI1 & Em & Elb); [rewrite Hlen; lia|by rewrite Hlen|]. assert (E1 : lb_slices lb1 = s :: ss) by (by rewrite Elb). assert (El1 : lb_len lb1 = lb_len lb) by (by rewrite Elb).
  unfold slice_peek. rewrite read_bytes_length. fold n. replace (Z.of_nat (Z.to_nat n)) with n by lia. destruct (Z.eqb_spec n size) as [En|En].
  - exists (BShm (bs_data s + bs_read s) size id), w1, lb1, ret. rewrite <- En. cbn [lease_of buf_bytes]. rewrite Em. split; [done|]. split; [|split; [done|apply same_refl]].
    split; [done|by rewrite Em, E1|congruence|by rewrite E1].
  - destruct (drop_lease_spec naddr ncap len pool bm w1 lb1 rs ret others leases _ HI1) as (ret' & HI2 & St & _). cbn [fst] in HI2, St.
    assert (Ec : contents (w_mem (drop_pin bm w1 id)) (lb_slices lb1) = data).
    { rewrite <- Hd, <- E1, <- Em. apply (same_contents naddr ncap len pool w1 rs (rs ++ ret.*2 ++ others)); [apply (ri_world _ _ _ _ _ _ _ _ _ _ HI1)|set_solver| |apply (ri_slices _ _ _ _ _ _ _ _ _ _ HI1)].
      eapply same_sub; [|exact St]. set_solver. }
    eexists _, (drop_pin bm w1 id), lb1, ret'. split; [done|]. cbn [lease_of buf_bytes]. split; [split; [done|done|congruence|by rewrite E1]|]. split.
    + rewrite Em, E1, (peek_slow_spec (w_mem w) rs (s :: ss)); [by rewrite Hd| |by rewrite Hd]. rewrite <- E. apply (ri_slices _ _ _ _ _ _ _ _ _ _ HI).
    + rewrite <- Em. eapply same_sub; [|exact St]. set_solver.
Qed.

(** ** discard *)

Lemma discard_loop_spec (fuel : nat) (w : world) (lb : LinkedBuffer) (rs : list res) (ret : list (nat * res)) (others : list res) (leases : list lease) (size n : Z) :
  let data := contents (w_mem w) (lb_slices lb) in
  rd_inv w lb rs ret others leases -> Forall (fun s => 0 < slice_size s) (tail (lb_slices lb)) -> 0 <= size <= Z.of_nat (length data) -> lb_slices lb <> [] -> (length (lb_slices lb) <= fuel)%nat ->
  exists w' lb' rs' ret', discard_loop bm fuel w lb size n = Some (n + size, w', lb') /\ rd_inv w' lb' rs' ret' others leases /\
    same others (w_mem w) (w_mem w') /\ contents (w_mem w') (lb_slices lb') = drop (Z.to_nat size) data /\ lb_len lb' = lb_len lb /\ Forall (fun s => 0 < slice_size s) (tail (lb_slices lb')).
Proof.
  revert w lb rs ret size n. induction fuel as [|fuel IH]; intros w lb rs ret size n data HI Hf Hn Hne Hfuel; [by destruct (lb_slices lb); [|cbn in Hfuel; lia]|].
  cbn [discard_loop]. destruct (lb_slices lb) as [|s ss] eqn:E; [done|]. rewrite slice_skip_advanced. set (k := Z.min size (slice_size s)).
  destruct (front_cases _ _ _ _ _ _ _ _ HI E) as (r & rs1 & Er & [Hs Hi] & _). assert (Hsz : 0 <= slice_size s) by (unfold slice_size; lia).
  pose proof (copy_round w lb rs ret others leases s ss size HI E Hf ltac:(lia)) as Hc. cbn zeta in Hc. fold k in Hc. assert (Eb : (size - k =? 0) = (k =? size)) by (apply eq_true_iff_eq; rewrite !Z.eqb_eq; lia).
  rewrite Eb. set (d := read_bytes (w_mem w) (bs_data s + bs_read s) (Z.to_nat k)) in *. assert (Hd : Z.of_nat (length d) = k) by (unfold d; rewrite read_bytes_length; lia).
  destruct (Z.eqb_spec k size) as [Ek|Ek].
  - destruct Hc as (rs' & ret' & HI1 & S1 & El1 & Hf1 & Ec & _). eexists w, _, rs', ret'. split; [by rewrite Ek|]. split; [exact HI1|]. split; [done|]. split; [|done].
    rewrite E in Ec. fold data in Ec. replace (Z.to_nat size) with (length d) by lia. by rewrite Ec, drop_app_length.
  - destruct (read_next_slice bm w (with_slice lb 0 (advanced s k))) as [w1 lb1]. destruct Hc as (rs' & ret' & HI1 & S1 & El1 & Hf1 & Ec & Ess). rewrite E in Ec. fold data in Ec.
    assert (Hlen : Z.of_nat (length data) = k + Z.of_nat (length (contents (w_mem w1) (lb_slices lb1)))) by (rewrite Ec, length_app; lia). specialize (Ess Ek).
    destruct (IH w1 lb1 rs' ret' (size - k) (n + k) HI1 Hf1 ltac:(lia)) as (w' & lb' & rs2 & ret2 & E2 & HI2 & S2 & Ec2 & El2 & Hf2).
    + intros E0. rewrite E0 in Hlen. change (contents (w_mem w1) []) with (@nil Z) in Hlen. cbn [length] in Hlen. lia.
    + rewrite Ess. cbn in Hfuel. lia.
    + exists w', lb', rs2, ret2. rewrite E2. split; [do 3 f_equal; lia|]. split; [done|]. split; [by apply (same_trans _ _ _ _ (w_mem w1))|]. split; [|split; [congruence|done]].
      rewrite Ec, drop_app_more by lia. by rewrite Hd.
Qed.

Lemma discard_spec (w : world) (lb : LinkedBuffer) (rs : list res) (ret : list (nat * res)) (others : list res) (leases : list lease) (data : list Z) (size : Z) :
  reader w lb rs ret others leases data -> 0 <= size <= Z.of_nat (length data) -> lb_slices lb <> [] ->
  exists w' lb' rs' ret', lb_discard bm w lb size = Some (Ok size, w', lb') /\ reader w' lb' rs' ret' others leases (drop (Z.to_nat size) data) /\ same others (w_mem w) (w_mem w').
Proof.
  intros [HI Hd Hl Hf] Hn Hne. unfold lb_discard. destruct (Z.ltb_spec (lb_len lb) size) as [?|_]; [lia|].
  destruct (discard_loop_spec (S (length (lb_slices lb))) w lb rs ret others leases size 0 HI Hf) as (w' & lb' & rs' & ret' & -> & HI' & S' & Ec' & El' & Hf'); [by rewrite Hd|done|lia|].
  cbn [mbind option_bind]. rewrite Z.add_0_l. exists w', (with_len lb' (lb_len lb' - size)), rs', ret'. split; [done|]. split; [|done]. split.
  - apply (rd_inv_lb w' lb'); [apply (ri_slices _ _ _ _ _ _ _ _ _ _ HI')|done|done].
  - cbn [with_len lb_slices]. by rewrite Ec', Hd.
  - cbn. rewrite El', Hl, length_drop. lia.
  - done.
Qed.

(** ** Filling a destination *)

(** A slice to read from, unless all is read. *)
Definition ready (lb : LinkedBuffer) (data : list Z) : Prop := data <> [] -> exists s ss, lb_slices lb = s :: ss /\ 0 < slice_size s.

(** [n] bytes are copied out of the first slice. *)
Lemma copy_front (w : world) (lb : LinkedBuffer) (rs : list res) (ret : list (nat * res)) (others : list res) (leases : list lease) (data : list Z) (s : BufferSlice) (ss : list BufferSlice) (n : Z) :
  reader w lb rs ret others leases data -> lb_slices lb = s :: ss -> 0 <= n <= slice_size s ->
  let lb1 := with_len (with_slice lb 0 (advanced s n)) (lb_len lb - n) in
  reader w lb1 rs ret others leases (drop (Z.to_nat n) data) /\ lb_slices lb1 = advanced s n :: ss /\
  read_bytes (w_mem w) (bs_data s + bs_read s) (Z.to_nat n) = take (Z.to_nat n) data /\ n <= Z.of_nat (length data).
Proof.
  intros [HI Hd Hl Hf] E Hn lb1. destruct (front_advanced w lb rs ret others leases s ss n HI E Hn) as (HI1 & E1 & Ec). set (d := read_bytes _ _ _) in *.
  assert (Hlen : Z.to_nat n = length d) by (unfold d; by rewrite read_bytes_length). rewrite Hd in Ec. assert (E1' : lb_slices lb1 = advanced s n :: ss) by done.
  assert (Hle : Z.of_nat (length data) = n + Z.of_nat (length (contents (w_mem w) (lb_slices lb1)))) by (rewrite Ec, length_app; change (lb_slices lb1) with (lb_slices (with_slice lb 0 (advanced s n))); lia).
  split; [|split; [done|split; [|lia]]].
  - split.
    + apply (rd_inv_lb w (with_slice lb 0 (advanced s n))); [apply (ri_slices _ _ _ _ _ _ _ _ _ _ HI1)|done|done].
    + rewrite Ec, Hlen, drop_app_length. done.
    + cbn [lb1 with_len lb_len]. rewrite Hl, length_drop. lia.
    + rewrite E1'. rewrite E in Hf. done.
  - by rewrite Ec, Hlen, take_app_length.
Qed.

Lemma copy_goes (k : Z) (data : list Z) (room : Z) (slices : nat) :
  k = Z.of_nat (length data) -> (k >? 0) && (room >? 0) && negb (Nat.eqb slices 0) = bool_decide (data <> [] /\ 0 < room /\ slices <> 0%nat).
Proof.
  intros ->. apply eq_true_iff_eq. rewrite !andb_true_iff, negb_true_iff, Nat.eqb_neq, !Z.gtb_lt, bool_decide_eq_true. destruct data; cbn [length].
  - split; [intros [[? _] _]; lia|by intros [? _]].
  - split; [by intros [[_ ?] ?]|intros (_ & ? & ?); split; [split; [lia|done]|done]].
Qed.

Lemma copy_loop_spec (fuel : nat) (w : world) (lb : LinkedBuffer) (rs : list res) (ret : list (nat * res)) (others : list res) (leases : list lease) (data : list Z) (room : Z) (slices : nat) (acc : list Z) :
  reader w lb rs ret others leases data -> ready lb data -> 0 <= room -> (data <> [] -> length (lb_slices lb) <= fuel)%nat ->
  exists n w' lb' rs' ret', copy_loop bm fuel w lb room slices acc = Some (Ok (acc ++ take n data), w', lb') /\ reader w' lb' rs' ret' others leases (drop n data) /\
    same others (w_mem w) (w_mem w') /\ (n <= length data)%nat /\ Z.of_nat n <= room /\ (data <> [] -> 0 < room -> slices <> 0%nat -> (0 < n)%nat).
Proof.
  revert w lb rs ret data room slices acc. induction fuel as [|fuel IH]; intros w lb rs ret data room slices acc R Hr Hroom Hfuel; cbn [copy_loop]; pose proof R as [HI Hd Hl Hf];
    rewrite (copy_goes _ data) by done; case_bool_decide as Hgo.
  2, 4: exists 0%nat, w, lb, rs, ret; rewrite take_0, drop_0, app_nil_r; (split; [done|]); (split; [done|]); (split; [apply same_refl|]); (split; [lia|]); (split; [lia|]); intros ? ? ?; exfalso; by apply Hgo.
  all: destruct Hgo as (Hne & Hrm & Hsl); (assert (Hdl : (0 < length data)%nat) by (destruct data; [done|cbn; lia])).
  { destruct (Hr Hne) as (s & ss & E & _). specialize (Hfuel Hne). rewrite E in Hfuel. cbn in Hfuel. lia. }
  destruct (Hr Hne) as (s & ss & E & Hs). rewrite E, Z.gtb_ltb. destruct (Z.ltb_spec 0 (slice_size s)) as [_|?]; [|lia]. rewrite slice_read_advanced. set (k := Z.min (slice_size s) room).
  replace (Z.min k (slice_size s)) with k by lia. assert (Hk : 0 < k <= slice_size s) by lia.
  destruct (copy_front w lb rs ret others leases data s ss k R E ltac:(lia)) as (R1 & E1 & -> & Hkl). change (lb_len (with_slice lb 0 (advanced s k))) with (lb_len lb). set (lb1 := with_len _ _) in *.
  destruct (Z.eqb_spec k (slice_size s)) as [Ek|Ek].
  - assert (Hnext : let '(w2, lb2) := if lb_len lb1 >? 0 then read_next_slice bm w lb1 else (w, lb1) in
      exists rs2 ret2, reader w2 lb2 rs2 ret2 others leases (drop (Z.to_nat k) data) /\ same others (w_mem w) (w_mem w2) /\ ready lb2 (drop (Z.to_nat k) data) /\
        (drop (Z.to_nat k) data <> [] -> lb_slices lb2 = ss)).
    { pose proof R1 as [HI1 Hd1 Hl1 Hf1]. rewrite Z.gtb_ltb. destruct (Z.ltb_spec 0 (lb_len lb1)) as [Hp|Hz].
      - destruct (front_cases _ _ _ _ _ _ _ _ HI1 E1) as (r & rs1 & -> & _). pose proof (read_next_spec w lb1 r rs1 ret others leases _ ss HI1 E1) as H.
        destruct (read_next_slice bm w lb1) as [w2 lb2]. destruct H as (ret2 & HI2 & S2 & Es2 & El2 & Ec2). exists rs1, ret2. rewrite E1 in Hf1. cbn [tail] in Hf1.
        assert (Eempty : sbytes (w_mem w) (advanced s k) = []) by (unfold sbytes, slice_size; cbn [advanced bs_write bs_read]; replace (bs_write s - (bs_read s + k)) with 0 by (unfold slice_size in Ek; lia); done).
        rewrite E1, contents_cons, Eempty in Hd1. cbn [app] in Hd1. split; [|split; [done|split; [|done]]].
        + split; [done|by rewrite Es2, Ec2|congruence|rewrite Es2; by apply tail_full].
        + intros Hd2. rewrite Es2. destruct ss as [|s2 ss]; [by rewrite <- Hd1 in Hd2|]. exists s2, ss. split; [done|]. by apply Forall_cons in Hf1 as [? _].
      - assert (Ez : drop (Z.to_nat k) data = []) by (apply nil_length_inv; lia). exists rs, ret. split; [done|]. split; [apply same_refl|]. by split; intros []. }
    destruct (if lb_len lb1 >? 0 then _ else _) as [w2 lb2]. destruct Hnext as (rs2 & ret2 & R2 & S2 & Hr2 & Es2).
    destruct (IH w2 lb2 rs2 ret2 (drop (Z.to_nat k) data) (room - k) (pred slices) (acc ++ take (Z.to_nat k) data) R2 Hr2 ltac:(lia)) as (n & w' & lb' & rs' & ret' & E' & R' & S' & Hn & Hnr & _).
    { intros Hd2. rewrite (Es2 Hd2). specialize (Hfuel Hne). rewrite E in Hfuel. cbn in Hfuel. lia. }
    rewrite length_drop in Hn. exists (Z.to_nat k + n)%nat, w', lb', rs', ret'. rewrite E', <- app_assoc, <- drop_drop, take_take_drop. split; [done|]. split; [done|].
    split; [by apply (same_trans _ _ _ _ (w_mem w2))|]. split; [lia|]. split; lia.
  - exists (Z.to_nat k), w, lb1, rs, ret. split; [done|]. split; [done|]. split; [apply same_refl|]. split; [lia|]. split; lia.
Qed.

(** [read_available_into] puts a prefix of what there is into the destination. *)
Lemma read_available_spec (w : world) (lb : LinkedBuffer) (rs : list res) (ret : list (nat * res)) (others : list res) (leases : list lease) (data : list Z) (room : Z) (max_slices : nat) :
  reader w lb rs ret others leases data -> 0 <= room -> max_slices <> 0%nat ->
  exists o w' lb' rs' ret', read_available_into bm w lb room max_slices = Some (o, w', lb') /\ same others (w_mem w) (w_mem w') /\
    match o with
    | Ok bytes => exists n, bytes = take n data /\ (n <= length data)%nat /\ Z.of_nat n <= room /\ (0 < room -> (0 < n)%nat) /\ reader w' lb' rs' ret' others leases (drop n data)
    | Err NotEnoughData => data = [] /\ 0 < room /\ w' = w /\ lb' = lb
    end.
Proof.
  intros R Hroom Hms. unfold read_available_into. destruct (Z.eqb_spec room 0) as [->|Hz].
  { exists (Ok []), w, lb, rs, ret. split; [done|]. split; [apply same_refl|]. exists 0%nat. rewrite take_0, drop_0. split; [done|]. split; [lia|]. split; [lia|]. split; [lia|done]. }
  destruct (Nat.eqb_spec max_slices 0) as [?|_]; [done|]. pose proof R as [HI Hd Hl Hf]. destruct (Z.eqb_spec (lb_len lb) 0) as [E0|Hne].
  { exists (Err NotEnoughData), w, lb, rs, ret. split; [done|]. split; [apply same_refl|]. split; [|split; [lia|done]]. apply nil_length_inv. lia. }
  rewrite Z.gtb_ltb. destruct (Z.ltb_spec 0 (lb_len lb)) as [_|?]; [|lia]. pose proof (skip_empty_spec (length (lb_slices lb)) w lb rs ret others leases data R ltac:(lia)) as Hs.
  destruct (skip_empty bm _ true w lb) as [w1 lb1]. destruct Hs as (rs1 & ret1 & R1 & S1 & Hfr).
  destruct (copy_loop_spec (S (length (lb_slices lb1))) w1 lb1 rs1 ret1 others leases data room max_slices [] R1) as (n & w' & lb' & rs' & ret' & E' & R' & S' & Hn & Hnr & Hpos).
  - intros Hd'. destruct (lb_slices lb1) as [|s ss]; [done|]. by exists s, ss.
  - lia.
  - intros _. lia.
  - exists (Ok (take n data)), w', lb', rs', ret'. split; [done|]. split; [by apply (same_trans _ _ _ _ (w_mem w1))|]. exists n. split; [done|]. split; [done|]. split; [done|]. split; [|done].
    intros _. apply Hpos; [by intros ->|lia|done].
Qed.

End read.
