(* ===== verification/LinkedHand.v ===== *)
(** * Linked buffers: handing a message over, taking slices in and giving them back *)

From Stdlib Require Import ZArith Lia.
From stdpp Require Import base numbers list gmap.
From S2P Require Import Prelude Config LegacyBuf LegacyBufFacts LegacyManager LegacyPool Linked LinkedFacts LinkedWrite LinkedPins LinkedRead.

#[local] Open Scope Z_scope.

(** ** What [update] puts into a header *)

Lemma update_spec (m : mem) (s : BufferSlice) (h : Z) (next : option Z) :
  bs_header s = Some h -> 0 <= slice_size s < W32 -> 0 <= bs_start s < W32 -> (forall n, next = Some n -> 0 <= n < W32) ->
  let m' := update m s next in
  mem_frame (h + 4) (h + 20) m m' /\ bh_size h m' = slice_size s /\ bh_start h m' = bs_start s /\ bh_cap h m' = bh_cap h m /\
  match next with Some n => has_next h m' = true /\ next_buffer_offset h m' = n | None => has_next h m' = false end.
Proof.
  intros Hh Hs Ht Hn m'. subst m'. unfold update. rewrite Hh, wrap32_small by done. set (m1 := set_size h m _). set (m2 := set_start h m1 _).
  assert (F2 : mem_frame (h + 4) (h + 12) m m2).
  { apply (mem_frame_trans _ _ m m1); unfold m2, m1, set_size, set_start; hdr; apply mem_frame_store; lia. }
  assert (E2 : bh_size h m2 = slice_size s /\ bh_start h m2 = bs_start s /\ bh_cap h m2 = bh_cap h m).
  { unfold m2, m1, set_size, set_start, bh_size, bh_start, bh_cap. hdr. split; [|split].
    - rewrite (load_store_other 4 4) by lia. rewrite load_store_same. by apply wrap32_small.
    - rewrite load_store_same. by apply wrap32_small.
    - by rewrite !(load_store_other 4 4) by lia. }
  destruct E2 as (E1 & E3 & E4). assert (Fw : forall m3, mem_frame (h + 12) (h + 17) m2 m3 -> mem_frame (h + 4) (h + 20) m m3).
  { intros m3 F3. apply (mem_frame_trans _ _ m m2); [eapply mem_frame_weaken; [| |exact F2]; lia|eapply mem_frame_weaken; [| |exact F3]; lia]. }
  destruct next as [n|].
  - destruct (link_next_spec h n m2 (Hn n eq_refl)) as (F3 & N3 & X3 & C3 & S3 & T3). split; [by apply Fw|]. split; [congruence|]. split; [congruence|]. split; [congruence|done].
  - destruct (unlink_next_spec h m2) as (F3 & N3 & C3 & S3 & T3). split; [by apply Fw|]. split; [congruence|]. split; [congruence|]. split; [congruence|done].
Qed.

Section hand.
Context {node : Type} `{EqDecision node} (naddr ncap : node -> Z) (len : Z) (pool : mem -> list node -> Prop).
Context {PL : PoolLaws naddr ncap len pool} (bm : BufferManager) {ML : ManagerLaws naddr ncap len pool bm}.

Abbreviation res := (res node).
Abbreviation srep := (srep naddr ncap).
Abbreviation slice_at := (slice_at naddr ncap).
Abbreviation winv := (winv len pool).
Abbreviation same := (same naddr ncap).
Abbreviation lo := (lo naddr).
Abbreviation dlo := (dlo naddr).
Abbreviation hi := (hi naddr ncap).
Abbreviation rd_inv := (rd_inv naddr ncap len pool).
Abbreviation reader := (reader naddr ncap len pool).
Abbreviation wr_ok := (wr_ok naddr ncap).

(** ** A message in shared memory *)

(** The headers of the buffers link them in order. *)
Fixpoint linked_chain (m : mem) (xs : list node) : Prop :=
  match xs with
  | [] => True
  | x :: xs =>
      match xs with
      | [] => has_next (naddr x) m = false
      | y :: _ => has_next (naddr x) m = true /\ next_buffer_offset (naddr x) m = naddr y
      end /\ linked_chain m xs
  end.

Definition node_bytes (m : mem) (x : node) : list Z := read_bytes m (naddr x + 20 + bh_start (naddr x) m) (Z.to_nat (bh_size (naddr x) m)).

Definition node_ok (m : mem) (x : node) : Prop := 0 <= bh_start (naddr x) m /\ 0 <= bh_size (naddr x) m /\ bh_start (naddr x) m + bh_size (naddr x) m <= ncap x.

(** The buffers [xs] hold the bytes [data]. *)
Record message (m : mem) (xs : list node) (data : list Z) : Prop := {
  msg_chain : linked_chain m xs;
  msg_nodes : Forall (node_ok m) xs;
  msg_data : mjoin (node_bytes m <$> xs) = data;
}.

Lemma node_agree (x : node) (m m' : mem) : 0 < ncap x -> mem_agree (naddr x) (naddr x + 20 + ncap x) m m' -> node_ok m x ->
  node_ok m' x /\ node_bytes m' x = node_bytes m x /\ has_next (naddr x) m' = has_next (naddr x) m /\ next_buffer_offset (naddr x) m' = next_buffer_offset (naddr x) m.
Proof.
  intros Hc Ha Hok. destruct (header_agree (naddr x) m m' (fun z Hz => Ha z ltac:(lia))) as (E1 & E2 & _ & E4 & E5 & _). unfold node_ok, node_bytes in *. rewrite E4, E5. split; [done|]. split; [|done].
  symmetry. apply read_bytes_ext. intros z Hz. apply Ha. lia.
Qed.

Lemma message_agree (w : world) (rs : list res) (xs : list node) (m m' : mem) (data : list Z) :
  winv w rs -> (RShm <$> xs) ⊆ rs -> same (RShm <$> xs) m m' -> message m xs data -> message m' xs data.
Proof.
  intros W Hsub Hs [H1 H2 H3]. assert (Hx : forall x, x ∈ xs -> node_ok m x -> node_ok m' x /\ node_bytes m' x = node_bytes m x /\
    has_next (naddr x) m' = has_next (naddr x) m /\ next_buffer_offset (naddr x) m' = next_buffer_offset (naddr x) m).
  { intros x Hx. assert (Hr : RShm x ∈ RShm <$> xs) by (by apply list_elem_of_fmap_2). pose proof (bounds naddr ncap len pool w rs _ W (Hsub _ Hr)) as Hb. cbn in Hb.
    apply node_agree; [lia|]. apply (Hs _ Hr). }
  clear Hsub Hs. split.
  - clear H3. induction xs as [|x xs IH]; [done|]. cbn [linked_chain] in *. destruct H1 as [H1 H1']. apply Forall_cons in H2 as [H2 H2']. split; [|apply IH; try done; intros y Hy; apply Hx; by right].
    destruct (Hx x ltac:(left) H2) as (_ & _ & -> & ->). done.
  - rewrite Forall_forall in *. intros x Hin. by apply (Hx x Hin), H2.
  - rewrite <- H3. f_equal. clear H1 H3. induction xs as [|x xs IH]; [done|]. cbn. apply Forall_cons in H2 as [H2 H2']. f_equal; [by apply (Hx x ltac:(left) H2)|].
    apply IH; [done|]. intros y Hy. apply Hx. by right.
Qed.

(** ** done *)

Lemma update_all_spec (w : world) (xs : list node) (ss : list BufferSlice) (others : list res) :
  winv w ((RShm <$> xs) ++ others) -> Forall2 srep (RShm <$> xs) ss -> Forall (fun s => bs_start s = 0 /\ bs_read s = 0) ss ->
  let m' := update_all (w_mem w) ss in
  winv (with_mem w m') ((RShm <$> xs) ++ others) /\ same others (w_mem w) m' /\ message m' xs (contents (w_mem w) ss) /\ contents m' ss = contents (w_mem w) ss.
Proof.
  revert w ss others. induction xs as [|x xs IH]; intros w ss others W HF Hst.
  { apply Forall2_nil_inv_l in HF as ->. cbn. split; [by destruct w|]. split; [apply same_refl|]. split; [|done]. by split. }
  cbn [fmap list_fmap] in *. apply Forall2_cons_inv_l in HF as (s & ss' & Hs & HF & ->). apply Forall_cons in Hst as [[Ht0 Hrd] Hst]. cbn [update_all].
  pose proof Hs as [(Hh & Hd & Hc & Ho & _) Hi]. pose proof (bounds naddr ncap len pool w _ (RShm x) W ltac:(left)) as Hb. cbn in Hb.
  destruct (pl_node naddr ncap len pool _ _ x (wi_pool _ _ _ _ W)) as (Hb0 & Hb1 & Hb2 & Hb3); [cbn; left|]. pose proof (pl_len naddr ncap len pool) as Hlen.
  set (nx := bs_offset_in_shm <$> head ss'). assert (Hnx : nx = match xs with [] => None | y :: _ => Some (naddr y) end).
  { unfold nx. destruct xs as [|y xs]; [by apply Forall2_nil_inv_l in HF as ->|]. cbn in HF. apply Forall2_cons_inv_l in HF as (s2 & ss2 & [(_ & _ & _ & E & _) _] & _ & ->). cbn. by rewrite E. }
  destruct (update_spec (w_mem w) s (naddr x) nx Hh) as (F1 & Z1 & T1 & C1 & L1).
  { unfold slice_size. lia. }
  { lia. }
  { intros n En. rewrite Hnx in En. destruct xs as [|y xs]; [done|]. injection En as <-. destruct (pl_node naddr ncap len pool _ _ y (wi_pool _ _ _ _ W)) as (? & ? & ? & _); [cbn; right; left|]. lia. }
  set (m1 := update (w_mem w) s nx) in *. destruct (winv_write naddr ncap len pool w _ (RShm x) m1 W ltac:(left)) as [W1 Ag1]; [eapply mem_frame_weaken; [| |exact F1]; cbn; lia|].
  assert (W1' : winv (with_mem w m1) ((RShm <$> xs) ++ RShm x :: others)) by (eapply winv_perm; [exact PL| |exact W1]; cbn [app]; by rewrite Permutation_middle).
  destruct (IH (with_mem w m1) ss' (RShm x :: others) W1' HF Hst) as (W2 & S2 & [M1 M2 M3] & Ec2). cbn [with_mem w_mem] in W2, S2, M1, M2, M3, Ec2. set (m2 := update_all m1 ss') in *.
  pose proof (wi_nodup _ _ _ _ W) as Hnd. cbn [app] in Hnd. apply NoDup_cons in Hnd as [Hnx' _].
  assert (So : same others (w_mem w) m1) by (intros r Hr; apply Ag1; [apply elem_of_app; by right|intros ->; apply Hnx', elem_of_app; by right]).
  assert (Hss : contents m1 ss' = contents (w_mem w) ss').
  { apply (same_contents naddr ncap len pool w (RShm <$> xs) ((RShm x :: (RShm <$> xs)) ++ others)); [done|set_solver| |done]. intros r Hr. apply Ag1; [set_solver|]. intros ->. apply Hnx', elem_of_app. by left. }
  assert (Hx2 : mem_agree (naddr x) (naddr x + 20 + ncap x) m1 m2) by (apply (S2 (RShm x)); left).
  assert (Hnode : node_ok m1 x /\ node_bytes m1 x = sbytes (w_mem w) s).
  { unfold node_ok, node_bytes, sbytes. rewrite Z1, T1, Ht0, Hrd, Hd. split; [unfold slice_size; lia|]. apply read_bytes_ext. intros z Hz. apply F1. lia. }
  destruct Hnode as [Hn1 Hn2]. destruct (node_agree x m1 m2 ltac:(lia) Hx2 Hn1) as (Hn3 & Hn4 & Hn5 & Hn6). split; [|split; [|split]].
  - eapply winv_perm; [exact PL| |exact W2]. cbn [app]. by rewrite Permutation_middle.
  - apply (same_trans _ _ _ _ m1); [done|]. eapply same_sub; [|exact S2]. set_solver.
  - split.
    + cbn [linked_chain]. split; [|done]. rewrite Hn5, Hn6. rewrite Hnx in L1. by destruct xs.
    + by apply Forall_cons.
    + cbn [fmap list_fmap]. change (node_bytes m2 x ++ mjoin (node_bytes m2 <$> xs) = contents (w_mem w) (s :: ss')). by rewrite M3, Hn4, Hn2, contents_cons, Hss.
  - rewrite !contents_cons, Ec2, Hss. f_equal. transitivity (sbytes m1 s); unfold sbytes; symmetry; apply read_bytes_ext; intros z Hz; unfold slice_size in Hz; [apply Hx2|symmetry; apply F1]; lia.
Qed.

Lemma recycle_all_spec (w : world) (rs others : list res) (ss : list BufferSlice) :
  winv w (rs ++ others) -> Forall2 slice_at rs ss -> forallb is_shm rs = true ->
  winv (with_mem w (recycle_all bm (w_mem w) ss)) others /\ same others (w_mem w) (recycle_all bm (w_mem w) ss).
Proof.
  intros W HF. revert w W. induction HF as [|r s rs ss Hs HF IH]; intros w W Hsh; [split; [by destruct w|apply same_refl]|]. cbn [forallb] in Hsh. apply andb_true_iff in Hsh as [Hr Hsh].
  destruct (winv_reclaim naddr ncap len pool bm w (rs ++ others) r s W Hs) as (W1 & S1 & _). unfold reclaim_slice in W1, S1. destruct (slice_at_data naddr ncap r s Hs) as (_ & _ & Ef). rewrite Ef, Hr in W1, S1.
  destruct (IH (with_mem w (recycle_buffer bm (w_mem w) s)) W1 Hsh) as [W2 S2]. cbn [with_mem w_mem] in W2, S2. split; [exact W2|]. cbn [recycle_all fold_left]. fold (recycle_all bm (recycle_buffer bm (w_mem w) s) ss).
  apply (same_trans _ _ _ _ (recycle_buffer bm (w_mem w) s)); [|done]. eapply same_sub; [|exact S1]. set_solver.
Qed.

Lemma all_shm (rs : list res) : forallb is_shm rs = true -> rs = RShm <$> nodes_of rs.
Proof. induction rs as [|[x|a n] rs IH]; [done| |done]. cbn. intros H. f_equal. by apply IH. Qed.

(** [done] writes the headers of the slices that are used, and returns the others. *)
Lemma lb_done_spec (w : world) (lb : LinkedBuffer) (rs others : list res) (data : list Z) :
  winv w (rs ++ others) -> wr_ok (w_mem w) lb rs data -> lb_from_shm lb = true ->
  let '(w', lb') := lb_done bm w lb in
  exists xs, winv w' ((RShm <$> xs) ++ others) /\ same others (w_mem w) (w_mem w') /\ message (w_mem w') xs data /\ wr_ok (w_mem w') lb' (RShm <$> xs) data /\
    pins_same w w' /\ lb_slots lb' = lb_slots lb /\ lb_len lb' = lb_len lb /\ lb_from_shm lb' = true.
Proof.
  intros W [H1 H2 H3 H4 H5] Hsh. specialize (H5 Hsh). unfold lb_done. rewrite Hsh. unfold split_from_write. destruct (lb_write lb) as [k|] eqn:Ek.
  - destruct H2 as [Hk Hu]. set (ss := lb_slices lb) in *. rewrite <- (take_drop (S k) rs) in W. rewrite <- (take_drop (S k) rs), forallb_app in H5. apply andb_true_iff in H5 as [Hs1 Hs2].
    assert (HF1 : Forall2 srep (take (S k) rs) (take (S k) ss)) by (by apply Forall2_take). assert (HF2 : Forall2 srep (drop (S k) rs) (drop (S k) ss)) by (by apply Forall2_drop).
    pose proof (all_shm _ Hs1) as Exs. set (xs := nodes_of (take (S k) rs)) in *. rewrite Exs in W, HF1. rewrite <- app_assoc in W.
    destruct (update_all_spec w xs (take (S k) ss) (drop (S k) rs ++ others) W HF1 ltac:(by apply Forall_take)) as (W1 & S1 & M1 & Ec1). cbn [lb_slices].
    set (m1 := update_all (w_mem w) (take (S k) ss)) in *. assert (W1' : winv (with_mem w m1) (drop (S k) rs ++ (RShm <$> xs) ++ others)).
    { eapply winv_perm; [exact PL| |exact W1]. by rewrite !app_assoc, (Permutation_app_comm (RShm <$> xs)). }
    destruct (recycle_all_spec (with_mem w m1) (drop (S k) rs) ((RShm <$> xs) ++ others) (drop (S k) ss) W1') as [W2 S2]; [|done|].
    { eapply Forall2_impl; [exact HF2|]. by intros r s [? _]. }
    cbn [with_mem w_mem] in W2, S2. set (m2 := recycle_all bm m1 (drop (S k) ss)) in *.
    assert (Ecd : contents (w_mem w) (take (S k) ss) = data) by (rewrite <- H4; transitivity (contents (w_mem w) (take (S k) ss ++ drop (S k) ss)); [by rewrite contents_app, (contents_unwritten _ _ Hu), app_nil_r|by rewrite take_drop]).
    exists xs. split; [exact W2|]. split; [|split; [|split; [|done]]].
    + apply (same_trans _ _ _ _ m1); [eapply same_sub; [|exact S1]; set_solver|eapply same_sub; [|exact S2]; set_solver].
    + rewrite Ecd in M1. apply (message_agree _ _ xs m1 m2 data W2); [set_solver| |done]. eapply same_sub; [|exact S2]. set_solver.
    + split; cbn [lb_slices lb_write lb_from_shm].
      * done.
      * split; [rewrite length_take; lia|]. rewrite drop_ge; [done|]. rewrite length_take. lia.
      * by apply Forall_take.
      * rewrite <- Ecd, <- Ec1. apply (same_contents naddr ncap len pool _ (RShm <$> xs) ((RShm <$> xs) ++ others) _ m1 m2 W2); [set_solver| |done]. eapply same_sub; [|exact S2]. set_solver.
      * intros _. clear. by induction xs.
  - rewrite H2 in *. apply Forall2_nil_inv_r in H1 as ->. exists []. cbn. split; [by destruct w|]. split; [apply same_refl|]. split; [by split; [done|done|rewrite <- H4]|]. split; [|done].
    split; [by rewrite H2|by rewrite Ek|by rewrite H2|by rewrite H2|done].
Qed.

(** ** Slices taken in *)

Lemma append_slice_spec (w : world) (lb : LinkedBuffer) (rs : list res) (ret : list (nat * res)) (others : list res) (leases : list lease) (data : list Z) (r : res) (s : BufferSlice) :
  reader w lb rs ret (r :: others) leases data -> srep r s -> 0 < slice_size s ->
  reader w (append_buffer_slice lb s) (rs ++ [r]) ret others leases (data ++ sbytes (w_mem w) s).
Proof.
  intros [[H1 H2 H3 H4 H5 H6 H7 H8] Hd Hl Hf] Hs Hp. split.
  - split; cbn [append_buffer_slice with_write push_back with_len with_shm lb_slices lb_slots]; try done.
    + apply (winv_perm naddr ncap len pool w (rs ++ ret.*2 ++ r :: others)); [|done]. rewrite <- app_assoc. cbn [app]. by rewrite <- !Permutation_middle.
    + apply Forall2_app; [done|]. by apply Forall2_cons.
    + intros key id Hin. destruct (H5 _ _ Hin) as [(r' & Hr' & E) Hpin]. split; [|done]. exists r'. split; [|done]. apply elem_of_app. by left.
    + intros id ptr bytes Hin. destruct (H7 _ _ _ Hin) as (r' & Ho & Hrest). exists r'. split; [|done]. destruct Ho as [Ho|[Ho1 Ho2]]; [by left|right; split; [|done]]. apply elem_of_app. by left.
  - cbn [append_buffer_slice with_write push_back with_len with_shm lb_slices]. by rewrite contents_app, Hd, contents_cons, app_nil_r.
  - cbn [append_buffer_slice with_write push_back with_len with_shm lb_len]. rewrite Hl, length_app. destruct Hs as [_ Hi]. pose proof (sbytes_length (w_mem w) s ltac:(lia)). lia.
  - cbn [append_buffer_slice with_write push_back with_len with_shm lb_slices]. destruct (lb_slices lb) as [|s0 ss]; [done|]. cbn in Hf |- *. apply Forall_app. split; [done|]. by apply Forall_singleton.
Qed.

(** ** Slices given back *)

Lemma no_slots (w : world) (lb : LinkedBuffer) (ret : list (nat * res)) (others : list res) (leases : list lease) : rd_inv w lb [] ret others leases -> lb_slots lb = [].
Proof.
  intros HI. destruct (lb_slots lb) as [|[key id] slots] eqn:E; [done|]. destruct (ri_slot _ _ _ _ _ _ _ _ _ _ HI key id) as [(r & Hr & _) _]; [rewrite E; left|]. by apply not_elem_of_nil in Hr.
Qed.

Lemma retire_all_spec (n : nat) (w : world) (lb : LinkedBuffer) (rs : list res) (ret : list (nat * res)) (others : list res) (leases : list lease) :
  rd_inv w lb rs ret others leases -> n = length (lb_slices lb) ->
  let '(w', lb') := pop_all (retire bm) n w lb in
  exists ret', rd_inv w' lb' [] ret' others leases /\ same others (w_mem w) (w_mem w').
Proof.
  revert w lb rs ret. induction n as [|n IH]; intros w lb rs ret HI En; cbn [pop_all].
  - destruct rs as [|r rs]; [exists ret; split; [done|apply same_refl]|]. pose proof (Forall2_length _ _ _ (ri_slices _ _ _ _ _ _ _ _ _ _ HI)) as E. rewrite <- En in E. done.
  - unfold pop_front. destruct (lb_slices lb) as [|s ss] eqn:E; [done|]. set (lb1 := mkLB ss _ _ _ _). destruct (front_cases naddr ncap len pool _ _ _ _ _ _ _ _ HI E) as (r & rs' & -> & [Hs _] & HF & _).
    pose proof (retire_spec naddr ncap len pool bm w lb lb1 rs' ret others leases r s HI Hs HF eq_refl) as H. destruct (retire bm w lb1 s) as [w1 lb2]. destruct H as (ret1 & HI1 & St & El).
    specialize (IH w1 lb2 rs' ret1 HI1). rewrite El in IH. specialize (IH ltac:(cbn in En; injection En; done)). rewrite <- El in IH. destruct (pop_all (retire bm) n w1 lb2) as [w' lb'].
    destruct IH as (ret' & HI' & S'). exists ret'. split; [done|]. apply (same_trans _ _ _ _ (w_mem w1)); [|done]. eapply same_sub; [|exact St]. set_solver.
Qed.

(** [recycle]: only what is leased stays. *)
Lemma recycle_lb_spec (w : world) (lb : LinkedBuffer) (rs : list res) (ret : list (nat * res)) (others : list res) (leases : list lease) :
  rd_inv w lb rs ret others leases ->
  let '(w', lb') := lb_recycle bm w lb in
  exists ret', rd_inv w' lb' [] ret' others leases /\ same others (w_mem w) (w_mem w') /\ lb' = lb_new.
Proof.
  intros HI. unfold lb_recycle. pose proof (retire_all_spec (length (lb_slices lb)) w lb rs ret others leases HI eq_refl) as H.
  destruct (pop_all (retire bm) (length (lb_slices lb)) w lb) as [w' lb']. destruct H as (ret' & HI' & S'). unfold emptied. cbn [fst snd]. exists ret'.
  pose proof (no_slots _ _ _ _ _ HI') as Es. pose proof (ri_slices _ _ _ _ _ _ _ _ _ _ HI') as HF. apply Forall2_nil_inv_l in HF.
  split; [|split; [done|destruct lb'; cbn in *; by subst]]. apply (rd_inv_lb naddr ncap len pool w' lb'); [by cbn; rewrite HF|done|done].
Qed.

(** [clean] of a buffer nobody leases: its slices are not its own any more. *)
Lemma clean_all_spec (n : nat) (w : world) (lb : LinkedBuffer) (rs others : list res) :
  rd_inv w lb rs [] others [] -> n = length (lb_slices lb) ->
  let '(w', lb') := pop_all (clean_one bm) n w lb in
  rd_inv w' lb' [] [] (rs ++ others) [] /\ w_mem w' = w_mem w.
Proof.
  revert w lb rs others. induction n as [|n IH]; intros w lb rs others HI En; cbn [pop_all].
  - destruct rs as [|r rs]; [done|]. pose proof (Forall2_length _ _ _ (ri_slices _ _ _ _ _ _ _ _ _ _ HI)) as E. by rewrite <- En in E.
  - unfold pop_front. destruct (lb_slices lb) as [|s ss] eqn:E; [done|]. set (lb1 := mkLB ss _ _ _ _). destruct (front_cases naddr ncap len pool _ _ _ _ _ _ _ _ HI E) as (r & rs' & -> & [Hs _] & HF & _).
    assert (Hn : is_pinned w lb1 s = false).
    { unfold is_pinned. destruct (find_slot (lb_slots lb1) (bs_data s)) as [[i id]|] eqn:Ef; [|done]. apply find_slot_Some, list_elem_of_lookup_2 in Ef.
      destruct (ri_slot _ _ _ _ _ _ _ _ _ _ HI _ _ Ef) as [_ Hpin]. unfold strong_count. by rewrite Hpin. }
    unfold clean_one at 1. rewrite Hn. pose proof (abandon_spec naddr ncap len pool bm w lb lb1 rs' [] others [] r s HI Hs HF eq_refl Hn) as H. destruct (abandon bm w lb1 s) as [w1 lb2].
    destruct H as (HI1 & Em & El). specialize (IH w1 lb2 rs' (r :: others) HI1). rewrite El in IH. specialize (IH ltac:(cbn in En; by injection En)). rewrite <- El in IH.
    destruct (pop_all (clean_one bm) n w1 lb2) as [w' lb']. destruct IH as [[K1 K2 K3 K4 K5 K6 K7 K8] Em']. split; [|congruence]. split; try done.
    eapply winv_perm; [exact PL| |exact K1]. cbn [app fmap list_fmap]. by rewrite Permutation_middle.
Qed.

Lemma clean_lb_spec (w : world) (lb : LinkedBuffer) (rs others : list res) :
  rd_inv w lb rs [] others [] ->
  let '(w', lb') := lb_clean bm w lb in
  rd_inv w' lb' [] [] (rs ++ others) [] /\ w_mem w' = w_mem w /\ lb' = lb_new.
Proof.
  intros HI. unfold lb_clean. pose proof (clean_all_spec (length (lb_slices lb)) w lb rs others HI eq_refl) as H.
  destruct (pop_all (clean_one bm) (length (lb_slices lb)) w lb) as [w' lb']. destruct H as [HI' Em]. unfold emptied. cbn [fst snd].
  pose proof (no_slots _ _ _ _ _ HI') as Es. pose proof (ri_slices _ _ _ _ _ _ _ _ _ _ HI') as HF. apply Forall2_nil_inv_l in HF.
  split; [|split; [done|destruct lb'; cbn in *; by subst]]. apply (rd_inv_lb naddr ncap len pool w' lb'); [by cbn; rewrite HF|done|done].
Qed.

(** ** Releasing what is read *)

Lemma release_previous_spec (w : world) (lb : LinkedBuffer) (rs : list res) (ret : list (nat * res)) (others : list res) (leases : list lease) (data : list Z) :
  reader w lb rs ret others leases data ->
  let '(w', lb') := release_previous_read bm w lb in
  exists rs' ret', reader w' lb' rs' ret' others leases data /\ same others (w_mem w) (w_mem w').
Proof.
  intros R. pose proof R as [HI Hd Hl Hf]. unfold release_previous_read. destruct (lb_slices lb) as [|s ss] eqn:E; [exists rs, ret; split; [done|apply same_refl]|].
  destruct ((slice_size s =? 0) && bool_decide (lb_write lb = Some 0%nat)) eqn:Eb; [|exists rs, ret; split; [done|apply same_refl]]. apply andb_true_iff in Eb as [Ez%Z.eqb_eq _].
  destruct (front_cases naddr ncap len pool _ _ _ _ _ _ _ _ HI E) as (r & rs' & -> & _). pose proof (read_next_spec naddr ncap len pool bm w lb r rs' ret others leases s ss HI E) as H.
  unfold read_next_slice in H. destruct (pop_front lb) as [[s1 lb1]|] eqn:Ep; [|unfold pop_front in Ep; by rewrite E in Ep]. destruct (retire bm w lb1 s1) as [w' lb'].
  destruct H as (ret' & HI' & S' & Es' & El' & Ec'). exists rs', ret'. split; [|done]. split.
  - apply (rd_inv_lb naddr ncap len pool w' lb'); [apply (ri_slices _ _ _ _ _ _ _ _ _ _ HI')|done|done].
  - cbn [with_write lb_slices]. rewrite Es', Ec', <- Hd, contents_cons. unfold sbytes. by rewrite Ez.
  - cbn. congruence.
  - cbn [with_write lb_slices]. rewrite Es'. cbn in Hf. by apply tail_full.
Qed.

Lemma reset_reuse_spec (m : mem) (s : BufferSlice) (h : Z) :
  bs_header s = Some h -> let '(m', s') := reset_for_reuse m s in
  mem_frame (h + 4) (h + 20) m m' /\ s' = mkBS (bs_header s) (bs_data s) (bs_cap s) 0 (bs_offset_in_shm s) 0 0 (bs_from_shm s).
Proof.
  intros Hh. unfold reset_for_reuse, reset_indices_and_link. rewrite Hh. cbn [bs_header]. split; [|done]. set (m1 := set_size h m 0). set (m2 := set_start h m1 0).
  destruct (unlink_next_spec h m2) as (F3 & _). set (m3 := unlink_next h m2) in *. apply (mem_frame_trans _ _ m m3); [apply (mem_frame_trans _ _ m m2); [apply (mem_frame_trans _ _ m m1)|]|].
  - unfold m1, set_size. hdr. apply mem_frame_store; lia.
  - unfold m2, set_start. hdr. apply mem_frame_store; lia.
  - apply (mem_frame_weaken (h + 12) (h + 17)); [lia|lia|done].
  - apply (mem_frame_weaken (h + 16) (h + 17)); [lia|lia|apply flag_byte_frame].
Qed.

(** A buffer that is read to its end can be written next: its last slice is emptied for
    that, unless a reader still looks at it. *)
Lemma reserve_after_read_spec (w : world) (lb : LinkedBuffer) (rs : list res) (ret : list (nat * res)) (others : list res) (leases : list lease) :
  reader w lb rs ret others leases [] -> lb_write lb = (if lb_slices lb then None else Some (pred (length (lb_slices lb)))) -> (lb_from_shm lb = true -> forallb is_shm rs = true) ->
  let '(w', lb') := release_previous_read_and_reserve bm w lb in
  exists rs' ret', rd_inv w' lb' rs' ret' others leases /\ wr_ok (w_mem w') lb' rs' [] /\ lb_len lb' = 0 /\ same others (w_mem w) (w_mem w').
Proof.
  intros R Hw Hsh. pose proof R as [HI Hd Hl Hf]. unfold release_previous_read_and_reserve. change (Z.of_nat (length [])) with 0 in Hl. destruct (lb_slices lb) as [|s [|s2 ss]] eqn:E.
  - exists rs, ret. split; [done|]. pose proof (ri_slices _ _ _ _ _ _ _ _ _ _ HI) as HF. rewrite E in HF. apply Forall2_nil_inv_r in HF as ->.
    split; [|split; [done|apply same_refl]]. split; rewrite ?E; try done. by rewrite Hw.
  - rewrite Hl. cbn [Z.eqb]. destruct (front_cases naddr ncap len pool _ _ _ _ _ _ _ _ HI E) as (r & rs' & -> & Hs & HF & _). apply Forall2_nil_inv_r in HF as ->. pose proof Hs as [Hsa Hi].
    destruct (slice_at_data naddr ncap r s Hsa) as (Edt & Ecp & Efs).
    pose proof (read_next_spec naddr ncap len pool bm w lb r [] ret others leases s [] HI E) as Hpop. unfold read_next_slice, pop_front in Hpop. rewrite E in Hpop. unfold pop_front. rewrite E.
    assert (Hgone : forall w' lb', (exists ret', rd_inv w' lb' [] ret' others leases /\ same others (w_mem w) (w_mem w') /\ lb_slices lb' = [] /\ lb_len lb' = lb_len lb /\ contents (w_mem w') [] = contents (w_mem w) []) -> lb_write lb' = None ->
      exists rs' ret', rd_inv w' lb' rs' ret' others leases /\ wr_ok (w_mem w') lb' rs' [] /\ lb_len lb' = 0 /\ same others (w_mem w) (w_mem w')).
    { intros w' lb' (ret' & HI' & S' & Es' & El' & _) Hwn. exists [], ret'. split; [done|]. split; [|split; [lia|done]]. split; rewrite ?Es'; try done. by rewrite Hwn. }
    cbn [length pred] in Hw. rewrite Hw in Hpop |- *. destruct (is_pinned w lb s).
    + set (lb1 := mkLB [] None _ _ _) in *. change (with_write lb1 None) with lb1. destruct (retire bm w lb1 s) as [w' lb'] eqn:Er. apply Hgone; [done|].
      unfold retire in Er. destruct (find_slot (lb_slots lb1) (bs_data s)) as [[i id]|]; by injection Er as _ <-.
    + destruct (bs_from_shm s) eqn:Es.
      * destruct r as [x|a n]; [|by rewrite Efs in Es]. pose proof Hsa as (Hh & Hdt & Hcp & Hof & _). pose proof (reset_reuse_spec (w_mem w) s (naddr x) Hh) as Hr. destruct (reset_for_reuse (w_mem w) s) as [m' s']. destruct Hr as [F ->].
        pose proof HI as [H1 H2 H3 H4 H5 H6 H7 H8]. pose proof (bounds naddr ncap len pool w _ (RShm x) H1 ltac:(left)) as Hb. cbn in Hb.
        destruct (winv_write naddr ncap len pool w _ (RShm x) m' H1 ltac:(left)) as [W1 Ag]; [eapply mem_frame_weaken; [| |exact F]; cbn; lia|].
        pose proof (wi_nodup _ _ _ _ H1) as Hnd. cbn [app] in Hnd. apply NoDup_cons in Hnd as [Hnx _].
        assert (HF' : Forall2 srep [RShm x] (lb_slices (with_slice lb 0 (mkBS (bs_header s) (bs_data s) (bs_cap s) 0 (bs_offset_in_shm s) 0 0 (bs_from_shm s))))).
        { cbn. rewrite E. cbn. apply Forall2_cons. split; [|done]. split; [by rewrite Es|]. cbn. lia. }
        rewrite Es in HF' |- *. exists [RShm x], ret. split; [|split; [|split; [done|]]].
        -- split; cbn [with_mem w_mem w_pins w_fresh with_slice lb_slots lb_slices]; try done. intros id ptr bytes Hin. destruct (H7 _ _ _ Hin) as (r' & Ho & B1 & B2 & Hb').
           exists r'. split; [done|]. split; [done|]. split; [done|]. transitivity (read_bytes (w_mem w) ptr (length bytes)); [|done]. apply read_bytes_ext. intros z Hz. destruct (decide (r' = RShm x)) as [->|Hne].
           ++ cbn in B1. apply F. lia.
           ++ pose proof (owner_in naddr lb [RShm x] ret others id r' Ho) as Hin'. pose proof (bounds naddr ncap len pool w _ r' H1 Hin'). symmetry. apply (Ag r' Hin' Hne). lia.
        -- split; cbn [with_mem w_mem with_slice lb_slices lb_write lb_from_shm]; [done| | | |done].
           ++ rewrite Hw, E. cbn. split; [lia|done].
           ++ rewrite E. cbn. by apply Forall_singleton.
           ++ rewrite E. cbn. done.
        -- intros r' Hr'. apply Ag; [set_solver|]. intros ->. apply Hnx. set_solver.
      * set (lb1 := mkLB [] None _ _ _) in *. destruct (retire bm w lb1 s) as [w' lb'] eqn:Er. apply Hgone; [done|]. unfold retire in Er. destruct (find_slot (lb_slots lb1) (bs_data s)) as [[i id]|]; by injection Er as _ <-.
  - exfalso. cbn in Hf. apply Forall_cons in Hf as [Hf _]. destruct (front_cases naddr ncap len pool _ _ _ _ _ _ _ _ HI E) as (r & rs' & -> & [_ Hi] & HF & _). apply Forall2_cons_inv_r in HF as (r2 & rs2 & [_ Hi2] & _ & ->).
    pose proof (sbytes_length (w_mem w) s2 ltac:(lia)) as Hb. rewrite !contents_cons in Hd. apply (f_equal length) in Hd. rewrite !length_app in Hd. cbn [length] in Hd. lia.
Qed.

End hand.
