(* ===== verification/LinkedTheorems.v ===== *)
(** * What a linked buffer guarantees *)

From Stdlib Require Import ZArith Lia.
From stdpp Require Import base numbers list gmap.
From S2P Require Import Prelude Config LegacyBuf LegacyBufFacts LegacyListNew LegacyManager LegacyManagerFacts LegacyManagerTheorems LegacyPool Linked LinkedFacts LinkedWrite LinkedPins LinkedRead LinkedHand.

#[local] Open Scope Z_scope.

(** ** Writing *)

(** One call of a writer: bytes that are copied in, or room that is reserved and filled. *)
Inductive wop : Type :=
| WBytes (bytes : list Z)
| WFill (bytes : list Z).

Definition wop_bytes (o : wop) : list Z := match o with WBytes b => b | WFill b => b end.

Definition wop_ok (o : wop) : Prop :=
  Forall is_byte (wop_bytes o) /\ Z.of_nat (length (wop_bytes o)) < W32 /\ match o with WBytes _ => True | WFill b => b <> [] end.

Definition write_op (bm : BufferManager) (w : world) (lb : LinkedBuffer) (o : wop) : option (world * LinkedBuffer) :=
  match o with
  | WBytes b => '(_, w, lb) ← lb_write_bytes bm w lb b; Some (w, lb)
  | WFill b => '(ptr, w, lb) ← lb_reserve bm w lb (Z.of_nat (length b)); Some (with_mem w (write_bytes (w_mem w) ptr b), lb)
  end.

Fixpoint write_ops (bm : BufferManager) (w : world) (lb : LinkedBuffer) (ops : list wop) : option (world * LinkedBuffer) :=
  match ops with
  | [] => Some (w, lb)
  | o :: ops => '(w, lb) ← write_op bm w lb o; write_ops bm w lb ops
  end.

Definition written (ops : list wop) : list Z := mjoin (wop_bytes <$> ops).

(** ** Reading *)

Inductive rop : Type :=
| RRead (n : Z)
| RPeek (n : Z)
| RChunk
| RDiscard (n : Z)
| RCopy (room : Z) (max_slices : nat)
| RRelease
| RDrop (i : nat).

(** What the caller sees; a buffer that is handed out is kept until it is dropped. *)
Inductive robs : Type :=
| OBuf
| OCopied (bytes : list Z)
| OCount (n : Z)
| ONotEnough
| ODone.

Definition rop_ok (o : rop) : Prop :=
  match o with
  | RRead n | RPeek n => 0 <= n
  | RDiscard n => 0 < n
  | RCopy room k => 0 <= room /\ k <> 0%nat
  | RChunk | RRelease | RDrop _ => True
  end.

(** The buffer, and the [Buf]s in the hands of the caller. *)
Record rstate : Type := mkR {
  r_world : world;
  r_lb : LinkedBuffer;
  r_bufs : list Buf;
}.

Definition got (r : result ReadError Buf) (w : world) (lb : LinkedBuffer) (bufs : list Buf) : robs * rstate :=
  match r with Ok b => (OBuf, mkR w lb (bufs ++ [b])) | Err NotEnoughData => (ONotEnough, mkR w lb bufs) end.

Definition read_op (bm : BufferManager) (s : rstate) (o : rop) : option (robs * rstate) :=
  let '(mkR w lb bufs) := s in
  match o with
  | RRead n => '(r, w, lb) ← read_exact_bytes bm w lb n; Some (got r w lb bufs)
  | RPeek n => let '(r, w, lb) := lb_peek bm w lb n in Some (got r w lb bufs)
  | RChunk => let '(r, w, lb) := read_chunk bm w lb in Some (got r w lb bufs)
  | RDiscard n => '(r, w, lb) ← lb_discard bm w lb n; Some (match r with Ok n => OCount n | Err NotEnoughData => ONotEnough end, mkR w lb bufs)
  | RCopy room k => '(r, w, lb) ← read_available_into bm w lb room k; Some (match r with Ok b => OCopied b | Err NotEnoughData => ONotEnough end, mkR w lb bufs)
  | RRelease => let '(w, lb) := release_previous_read bm w lb in Some (ODone, mkR w lb bufs)
  | RDrop i => match bufs !! i with Some b => Some (ODone, mkR (drop_buf bm w b) lb (delete i bufs)) | None => Some (ODone, s) end
  end.

(** The abstract reader: a string of bytes, and the strings handed out, which nothing
    changes. *)
Inductive aread : list Z -> list (list Z) -> rop -> robs -> list Z -> list (list Z) -> Prop :=
| a_read data vals n : 0 <= n <= Z.of_nat (length data) -> aread data vals (RRead n) OBuf (drop (Z.to_nat n) data) (vals ++ [take (Z.to_nat n) data])
| a_read_short data vals n : Z.of_nat (length data) < n -> aread data vals (RRead n) ONotEnough data vals
| a_peek data vals n : 0 <= n <= Z.of_nat (length data) -> aread data vals (RPeek n) OBuf data (vals ++ [take (Z.to_nat n) data])
| a_peek_short data vals n : Z.of_nat (length data) < n -> aread data vals (RPeek n) ONotEnough data vals
| a_chunk data vals n : (0 < n <= length data)%nat -> aread data vals RChunk OBuf (drop n data) (vals ++ [take n data])
| a_chunk_none vals : aread [] vals RChunk ONotEnough [] vals
| a_discard data vals n : 0 <= n <= Z.of_nat (length data) -> aread data vals (RDiscard n) (OCount n) (drop (Z.to_nat n) data) vals
| a_discard_short data vals n : Z.of_nat (length data) < n -> aread data vals (RDiscard n) ONotEnough data vals
| a_copy data vals room k n : (n <= length data)%nat -> Z.of_nat n <= room -> (0 < room -> (0 < n)%nat) -> aread data vals (RCopy room k) (OCopied (take n data)) (drop n data) vals
| a_copy_none vals room k : 0 < room -> aread [] vals (RCopy room k) ONotEnough [] vals
| a_release data vals : aread data vals RRelease ODone data vals
| a_drop data vals i : aread data vals (RDrop i) ODone data (delete i vals).

Inductive areads : list Z -> list (list Z) -> list rop -> list robs -> list Z -> list (list Z) -> Prop :=
| ar_nil data vals : areads data vals [] [] data vals
| ar_cons data vals o obs data1 vals1 ops more data' vals' :
    aread data vals o obs data1 vals1 -> areads data1 vals1 ops more data' vals' -> areads data vals (o :: ops) (obs :: more) data' vals'.

Fixpoint read_ops (bm : BufferManager) (s : rstate) (ops : list rop) : option (list robs * rstate) :=
  match ops with
  | [] => Some ([], s)
  | o :: ops => '(x, s) ← read_op bm s o; '(xs, s) ← read_ops bm s ops; Some (x :: xs, s)
  end.

(** The lease of a [Buf] that shows [bytes]. *)
Definition buf_lease (x : Buf * list Z) : option lease := match x.1 with BShm ptr _ id => Some (id, (ptr, x.2)) | BExm _ => None end.

Definition buf_shape (b : Buf) (v : list Z) : Prop := match b with BShm _ n _ => Z.to_nat n = length v | BExm bytes => bytes = v end.

Section linked.
Context {node : Type} `{EqDecision node} (naddr ncap : node -> Z) (len : Z) (pool : mem -> list node -> Prop).
Context {PL : PoolLaws naddr ncap len pool} (bm : BufferManager) {ML : ManagerLaws naddr ncap len pool bm}.

Abbreviation res := (res node).
Abbreviation winv := (winv len pool).
Abbreviation same := (same naddr ncap).
Abbreviation wr_ok := (wr_ok naddr ncap).
Abbreviation reader := (reader naddr ncap len pool).
Abbreviation rd_inv := (rd_inv naddr ncap len pool).

(** A buffer being written, holding [data]. *)
Definition writer (w : world) (lb : LinkedBuffer) (others : list res) (data : list Z) : Prop :=
  exists rs, winv w (rs ++ others) /\ wr_ok (w_mem w) lb rs data /\ lb_len lb = Z.of_nat (length data).

Lemma write_op_spec (w : world) (lb : LinkedBuffer) (others : list res) (data : list Z) (o : wop) :
  writer w lb others data -> wop_ok o ->
  exists w' lb', write_op bm w lb o = Some (w', lb') /\ writer w' lb' others (data ++ wop_bytes o) /\ same others (w_mem w) (w_mem w') /\
    w_pins w' = w_pins w /\ w_fresh w' = w_fresh w /\ lb_slots lb' = lb_slots lb.
Proof.
  intros (rs & W & Hok & Hl) (Hb & Hlen & Hne). destruct o as [b|b]; cbn [wop_bytes write_op] in *.
  - destruct b as [|x b]; [exists w, lb; rewrite app_nil_r; split; [done|]; split; [by exists rs|]; split; [apply same_refl|done]|].
    destruct (lb_write_spec naddr ncap len pool bm w lb rs others data (x :: b) W Hok Hb ltac:(done) Hlen) as (w' & lb' & -> & (rs' & Hok' & W' & S' & [P1 P2] & Es) & El). cbn [mbind option_bind].
    exists w', lb'. split; [done|]. split; [|done]. exists rs'. split; [done|]. split; [done|]. rewrite El, length_app. lia.
  - assert (0 < Z.of_nat (length b)) by (destruct b; [done|cbn; lia]).
    destruct (lb_reserve_spec naddr ncap len pool bm w lb rs others data (Z.of_nat (length b)) W Hok ltac:(lia)) as (ptr & w' & lb' & rs' & -> & R & S' & [P1 P2] & Es & El). cbn [mbind option_bind].
    destruct (R (write_bytes (w_mem w') ptr b)) as (W2 & S2 & Hok2); [by apply mem_frame_write_bytes|]. rewrite Nat2Z.id, read_write_bytes in Hok2 by done.
    eexists _, lb'. split; [done|]. split; [|split; [by apply (same_trans _ _ _ _ (w_mem w'))|done]]. exists rs'. split; [done|]. split; [done|]. rewrite El, length_app. lia.
Qed.

Lemma write_ops_spec (w : world) (lb : LinkedBuffer) (others : list res) (data : list Z) (ops : list wop) :
  writer w lb others data -> Forall wop_ok ops ->
  exists w' lb', write_ops bm w lb ops = Some (w', lb') /\ writer w' lb' others (data ++ written ops) /\ same others (w_mem w) (w_mem w') /\
    w_pins w' = w_pins w /\ w_fresh w' = w_fresh w /\ lb_slots lb' = lb_slots lb.
Proof.
  intros W Hok. revert w lb data W. induction Hok as [|o ops Ho Hok IH]; intros w lb data W; cbn [write_ops].
  { exists w, lb. rewrite app_nil_r. split; [done|]. split; [done|]. split; [apply same_refl|done]. }
  destruct (write_op_spec w lb others data o W Ho) as (w1 & lb1 & -> & W1 & S1 & P1 & F1 & E1). cbn [mbind option_bind].
  destruct (IH w1 lb1 (data ++ wop_bytes o) W1) as (w' & lb' & -> & W' & S' & P' & F' & E'). exists w', lb'. split; [done|]. rewrite <- app_assoc in W'. split; [exact W'|].
  split; [by apply (same_trans _ _ _ _ (w_mem w1))|]. split; [congruence|]. split; congruence.
Qed.

Lemma writer_new (w : world) (others : list res) : winv w others -> writer w lb_new others [].
Proof. intros W. exists []. split; [done|]. split; [|done]. by split. Qed.

(** The callers of a reader hold [bufs], whose bytes are [vals]. *)
Definition reading (s : rstate) (others : list res) (data : list Z) (vals : list (list Z)) : Prop :=
  exists rs ret leases, reader (r_world s) (r_lb s) rs ret others leases data /\ leases ≡ₚ omap buf_lease (zip (r_bufs s) vals) /\ Forall2 buf_shape (r_bufs s) vals.

(** What is handed out still shows what it showed. *)
Lemma reading_vals (s : rstate) (others : list res) (data : list Z) (vals : list (list Z)) :
  reading s others data vals -> buf_bytes (w_mem (r_world s)) <$> r_bufs s = vals.
Proof.
  intros (rs & ret & leases & R & Hp & HF). apply list_eq_Forall2, Forall2_fmap_l, Forall2_same_length_lookup. split; [by eapply Forall2_length|]. intros i b v Hb Hv.
  pose proof (Forall2_lookup_lr _ _ _ _ _ _ HF Hb Hv) as Hs. destruct b as [ptr n id|bytes]; cbn in Hs |- *; [|done]. rewrite Hs.
  destruct (ri_lease _ _ _ _ _ _ _ _ _ _ (rd_is _ _ _ _ _ _ _ _ _ _ _ R) id ptr v) as (r & _ & _ & _ & E); [|done].
  rewrite Hp. apply list_elem_of_omap. exists (BShm ptr n id, v). split; [|done]. apply list_elem_of_lookup. exists i. by apply lookup_zip_with_Some; eauto.
Qed.

Lemma buf_shape_of (m : mem) (b : Buf) (v : list Z) : buf_bytes m b = v -> buf_shape b v.
Proof. destruct b as [ptr n id|bytes]; cbn; [|done]. intros <-. by rewrite read_bytes_length. Qed.

(** A buffer more. *)
Lemma reading_got (w w' : world) (lb lb' : LinkedBuffer) (bufs : list Buf) (vals : list (list Z)) (others rs' : list res) (ret' : list (nat * res)) (leases : list lease) (data' v : list Z) (b : Buf) :
  reader w' lb' rs' ret' others (lease_of b v leases) data' -> leases ≡ₚ omap buf_lease (zip bufs vals) -> Forall2 buf_shape bufs vals -> buf_bytes (w_mem w') b = v ->
  reading (mkR w' lb' (bufs ++ [b])) others data' (vals ++ [v]).
Proof.
  intros R Hp HF Hb. exists rs', ret', (lease_of b v leases). split; [done|]. cbn [r_bufs]. split; [|apply Forall2_app; [done|]; apply Forall2_cons; split; [by eapply buf_shape_of|done]].
  rewrite zip_with_app by (by eapply Forall2_length). rewrite omap_app, <- Hp. destruct b as [ptr n id|bytes]; cbn; [|by rewrite app_nil_r]. by rewrite <- Permutation_cons_append.
Qed.

Lemma zip_delete {A B} (l : list A) (k : list B) (i : nat) : zip (delete i l) (delete i k) = delete i (zip l k).
Proof.
  revert k i. induction l as [|x l IH]; intros k i; [by destruct i|]. destruct k as [|y k]; [destruct i; cbn; by rewrite ?zip_with_nil_r|]. destruct i; [done|]. cbn. f_equal. apply IH.
Qed.

Lemma read_op_spec (s : rstate) (others : list res) (data : list Z) (vals : list (list Z)) (o : rop) :
  reading s others data vals -> rop_ok o ->
  exists obs s' data' vals', read_op bm s o = Some (obs, s') /\ aread data vals o obs data' vals' /\ reading s' others data' vals' /\
    same others (w_mem (r_world s)) (w_mem (r_world s')).
Proof.
  destruct s as [w lb bufs]. intros (rs & ret & leases & R & Hp & HF) Ho. cbn [r_world r_lb r_bufs] in *. pose proof R as [HI Hd Hl Hf].
  destruct o as [n|n| |n|room k| |i]; cbn [read_op rop_ok] in *.
  - destruct (Z.leb_spec n (Z.of_nat (length data))) as [Hle|Hgt].
    + destruct (lb_read_exact_spec naddr ncap len pool bm w lb rs ret others leases data n R ltac:(lia)) as (b & w' & lb' & rs' & ret' & -> & R' & Hb & S'). cbn [mbind option_bind got].
      eexists OBuf, _, _, _. split; [done|]. split; [by apply a_read|]. split; [by eapply reading_got|done].
    + unfold read_exact_bytes. destruct (Z.eqb_spec n 0); [lia|]. destruct (Z.ltb_spec (lb_len lb) n); [|lia]. cbn [mbind option_bind got].
      eexists ONotEnough, _, _, _. split; [done|]. split; [by apply a_read_short|]. split; [by exists rs, ret, leases|apply same_refl].
  - destruct (Z.leb_spec n (Z.of_nat (length data))) as [Hle|Hgt].
    + destruct (lb_peek_spec naddr ncap len pool bm w lb rs ret others leases data n R ltac:(lia)) as (b & w' & lb' & ret' & -> & R' & Hb & S'). cbn [got].
      eexists OBuf, _, _, _. split; [done|]. split; [by apply a_peek|]. split; [by eapply reading_got|done].
    + unfold lb_peek. destruct (Z.eqb_spec n 0); [lia|]. destruct (Z.ltb_spec (lb_len lb) n); [|lia]. cbn [got].
      eexists ONotEnough, _, _, _. split; [done|]. split; [by apply a_peek_short|]. split; [by exists rs, ret, leases|apply same_refl].
  - destruct (read_chunk_spec naddr ncap len pool bm w lb rs ret others leases data R) as (r & w' & lb' & rs' & ret' & -> & S' & Hr). destruct r as [b|[]]; cbn [got].
    + destruct Hr as (n & Hn & R' & Hb). eexists OBuf, _, _, _. split; [done|]. split; [by apply (a_chunk _ _ n)|]. split; [by eapply reading_got|done].
    + destruct Hr as [-> R']. eexists ONotEnough, _, _, _. split; [done|]. split; [apply a_chunk_none|]. split; [by exists rs', ret', leases|done].
  - destruct (Z.leb_spec n (Z.of_nat (length data))) as [Hle|Hgt].
    + destruct (discard_spec naddr ncap len pool bm w lb rs ret others leases data n R ltac:(lia)) as (w' & lb' & rs' & ret' & -> & R' & S'); [intros E; rewrite <- Hd, E in Hle; cbn in Hle; lia|].
      cbn [mbind option_bind]. eexists _, _, _, _. split; [done|]. split; [by apply a_discard; lia|]. split; [by exists rs', ret', leases|done].
    + unfold lb_discard. destruct (Z.ltb_spec (lb_len lb) n); [|lia]. cbn [mbind option_bind].
      eexists ONotEnough, _, _, _. split; [done|]. split; [by apply a_discard_short|]. split; [by exists rs, ret, leases|apply same_refl].
  - destruct Ho as [Hr Hk]. destruct (read_available_spec naddr ncap len pool bm w lb rs ret others leases data room k R Hr Hk) as (r & w' & lb' & rs' & ret' & -> & S' & Hres). cbn [mbind option_bind].
    destruct r as [b|[]].
    + destruct Hres as (n & -> & Hn & Hnr & Hpos & R'). eexists _, _, _, _. split; [done|]. split; [by apply (a_copy _ _ _ _ n)|]. split; [by exists rs', ret', leases|done].
    + destruct Hres as (-> & Hr' & -> & ->). eexists ONotEnough, _, _, _. split; [done|]. split; [by apply a_copy_none|]. split; [by exists rs, ret, leases|done].
  - pose proof (release_previous_spec naddr ncap len pool bm w lb rs ret others leases data R) as H. destruct (release_previous_read bm w lb) as [w' lb']. destruct H as (rs' & ret' & R' & S').
    eexists ODone, _, _, _. split; [done|]. split; [apply a_release|]. split; [by exists rs', ret', leases|done].
  - destruct (bufs !! i) as [b|] eqn:Eb.
    + destruct (Forall2_lookup_l _ _ _ _ _ HF Eb) as (v & Ev & Hs). eexists ODone, _, _, _. split; [done|]. split; [apply a_drop|].
      assert (Ez : zip bufs vals !! i = Some (b, v)) by (by apply lookup_zip_with_Some; eauto). rewrite (delete_Permutation _ _ _ Ez) in Hp. cbn [omap list_omap] in Hp.
      assert (HF' : Forall2 buf_shape (delete i bufs) (delete i vals)) by (by apply Forall2_delete). destruct b as [ptr n id|bytes]; cbn [buf_lease fst snd drop_buf] in *.
      * pose proof (rd_inv_leases naddr ncap len pool _ _ _ _ _ _ _ Hp HI) as HI'. destruct (drop_lease_spec naddr ncap len pool bm w lb rs ret others _ _ HI') as (ret' & HI2 & St & _). cbn [fst] in HI2, St.
        split; [|eapply same_sub; [|exact St]; set_solver]. exists rs, ret', (omap buf_lease (zip (delete i bufs) (delete i vals))). cbn [r_world r_lb r_bufs]. rewrite zip_delete. split; [|done].
        split; [done| |done|done]. rewrite <- Hd. apply (same_contents naddr ncap len pool _ rs (rs ++ ret.*2 ++ others) _ _ _ (ri_world _ _ _ _ _ _ _ _ _ _ HI)); [set_solver| |apply (ri_slices _ _ _ _ _ _ _ _ _ _ HI)].
        eapply same_sub; [|exact St]. set_solver.
      * split; [|apply same_refl]. exists rs, ret, leases. cbn [r_world r_lb r_bufs]. rewrite zip_delete. done.
    + eexists ODone, _, _, _. split; [done|]. split; [apply a_drop|]. split; [|apply same_refl]. exists rs, ret, leases. split; [done|]. cbn [r_bufs].
      assert (H : vals !! i = None) by (apply lookup_ge_None; apply lookup_ge_None in Eb; by rewrite <- (Forall2_length _ _ _ HF)). by rewrite delete_take_drop, take_ge, drop_ge, app_nil_r by (apply lookup_ge_None in H; lia).
Qed.

Lemma read_ops_spec (s : rstate) (others : list res) (data : list Z) (vals : list (list Z)) (ops : list rop) :
  reading s others data vals -> Forall rop_ok ops ->
  exists obs s' data' vals', read_ops bm s ops = Some (obs, s') /\ areads data vals ops obs data' vals' /\ reading s' others data' vals' /\
    same others (w_mem (r_world s)) (w_mem (r_world s')).
Proof.
  intros R Hok. revert s data vals R. induction Hok as [|o ops Ho Hok IH]; intros s data vals R; cbn [read_ops].
  { exists [], s, data, vals. split; [done|]. split; [constructor|]. split; [done|apply same_refl]. }
  destruct (read_op_spec s others data vals o R Ho) as (x & s1 & data1 & vals1 & -> & A1 & R1 & S1). cbn [mbind option_bind].
  destruct (IH s1 data1 vals1 R1) as (xs & s' & data' & vals' & -> & A' & R' & S'). cbn [mbind option_bind]. exists (x :: xs), s', data', vals'. split; [done|].
  split; [by econstructor|]. split; [done|]. by apply (same_trans _ _ _ _ (w_mem (r_world s1))).
Qed.

(** Dropping every buffer in somebody's hands. *)
Lemma drop_all_spec (w : world) (lb : LinkedBuffer) (rs : list res) (ret : list (nat * res)) (others : list res) (leases : list lease) (bufs : list Buf) (vals : list (list Z)) :
  rd_inv w lb rs ret others leases -> leases ≡ₚ omap buf_lease (zip bufs vals) -> length bufs = length vals ->
  exists ret', rd_inv (fold_left (drop_buf bm) bufs w) lb rs ret' others [] /\ same others (w_mem w) (w_mem (fold_left (drop_buf bm) bufs w)).
Proof.
  revert w ret leases vals. induction bufs as [|b bufs IH]; intros w ret leases vals HI Hp Hl; cbn [fold_left].
  { cbn in Hp. apply Permutation_nil_r in Hp as ->. exists ret. split; [done|apply same_refl]. }
  destruct vals as [|v vals]; [done|]. injection Hl as Hl. cbn [zip_with omap list_omap] in Hp. destruct b as [ptr n id|bytes]; cbn [buf_lease fst snd drop_buf] in *.
  - pose proof (rd_inv_leases naddr ncap len pool _ _ _ _ _ _ _ Hp HI) as HI'. destruct (drop_lease_spec naddr ncap len pool bm w lb rs ret others _ _ HI') as (ret1 & HI1 & St & _). cbn [fst] in HI1, St.
    destruct (IH _ ret1 _ vals HI1 ltac:(done) Hl) as (ret' & HI2 & S2). exists ret'. split; [done|]. apply (same_trans _ _ _ _ (w_mem (drop_pin bm w id))); [|done]. eapply same_sub; [|exact St]. set_solver.
  - by apply (IH w ret leases vals).
Qed.

(** A linked buffer is a byte string that grows: whatever is written or reserved and
    filled, in pieces of any size, it is there in order and the length says how much;
    writing never fails, since the heap steps in for shared memory, and nothing but
    the buffer's own memory changes. *)
Theorem linked_writes (w : world) (lb : LinkedBuffer) (others : list res) (data : list Z) (ops : list wop) :
  writer w lb others data -> Forall wop_ok ops ->
  exists w' lb', write_ops bm w lb ops = Some (w', lb') /\ writer w' lb' others (data ++ written ops) /\
    contents (w_mem w') (lb_slices lb') = data ++ written ops /\ lb_len lb' = Z.of_nat (length (data ++ written ops)) /\ same others (w_mem w) (w_mem w').
Proof.
  intros W Hok. destruct (write_ops_spec w lb others data ops W Hok) as (w' & lb' & E & W' & S' & _). exists w', lb'. split; [done|]. split; [done|].
  destruct W' as (rs' & _ & Hw & Hl). split; [apply (wo_data _ _ _ _ _ _ Hw)|]. by split.
Qed.

(** C7. Reading without copying looks like reading into owned strings: any sequence of
    exact reads, looks ahead, chunks, discards, copies, releases and drops of what was
    handed out, over any slices, ends, and its results are those of a plain byte string
    from which values are taken that nothing changes afterwards; a read fails exactly
    if there are too few bytes. *)
Theorem linked_reader_refines (s : rstate) (others : list res) (data : list Z) (vals : list (list Z)) (ops : list rop) :
  reading s others data vals -> Forall rop_ok ops ->
  exists obs s' data' vals', read_ops bm s ops = Some (obs, s') /\ areads data vals ops obs data' vals' /\ reading s' others data' vals' /\
    buf_bytes (w_mem (r_world s')) <$> r_bufs s' = vals' /\ same others (w_mem (r_world s)) (w_mem (r_world s')).
Proof.
  intros R Hok. destruct (read_ops_spec s others data vals ops R Hok) as (obs & s' & data' & vals' & E & A & R' & S'). exists obs, s', data', vals'.
  split; [done|]. split; [done|]. split; [done|]. split; [by eapply reading_vals|done].
Qed.

(** No slice is lost or given back early: once a buffer is recycled and everything it
    handed out is dropped, exactly the buffers of others are in use, and until then
    whatever is still held shows its bytes. *)
Theorem linked_returns_all (s : rstate) (others : list res) (data : list Z) (vals : list (list Z)) :
  reading s others data vals ->
  let '(w1, lb1) := lb_recycle bm (r_world s) (r_lb s) in
  buf_bytes (w_mem w1) <$> r_bufs s = vals /\ lb1 = lb_new /\ winv (fold_left (drop_buf bm) (r_bufs s) w1) others /\
  same others (w_mem (r_world s)) (w_mem (fold_left (drop_buf bm) (r_bufs s) w1)).
Proof.
  intros (rs & ret & leases & R & Hp & HF). pose proof (recycle_lb_spec naddr ncap len pool bm (r_world s) (r_lb s) rs ret others leases (rd_is _ _ _ _ _ _ _ _ _ _ _ R)) as H.
  destruct (lb_recycle bm (r_world s) (r_lb s)) as [w1 lb1]. destruct H as (ret1 & HI1 & S1 & ->). split; [|split; [done|]].
  - apply (reading_vals (mkR w1 lb_new (r_bufs s)) others []). exists [], ret1, leases. split; [|done]. by split.
  - destruct (drop_all_spec w1 lb_new [] ret1 others leases (r_bufs s) vals HI1 Hp (Forall2_length _ _ _ HF)) as (ret2 & HI2 & S2).
    split; [|by apply (same_trans _ _ _ _ (w_mem w1))]. destruct ret2 as [|[id r] ret2]; [exact (ri_world _ _ _ _ _ _ _ _ _ _ HI2)|].
    destruct (ri_ret _ _ _ _ _ _ _ _ _ _ HI2 id r ltac:(left)) as [_ Hpos]. cbn in Hpos. lia.
Qed.

End linked.

(** ** Corners *)

(** [discard(0)] on a buffer without slices never ends: no round of the loop makes
    progress. *)
Lemma discard_zero_spins (bm : BufferManager) (w : world) (fuel : nat) : discard_loop bm fuel w lb_new 0 0 = None.
Proof. by destruct fuel. Qed.

(** [reserve(0)] panics once shared memory is used up: nothing is allocated for no bytes. *)
Lemma reserve_zero_panics :
  let '(bm, m) := made one_size 172 in
  let '(_, m) := alloc_all bm m 3 in
  lb_reserve bm (mkW m 172 ∅ 0) lb_new 0 = None.
Proof. vm_compute. reflexivity. Qed.

(** A slice without bytes behind one with bytes makes [read_available_into] fail after it
    has moved bytes into the destination: they are gone from the buffer. *)
Lemma empty_slice_loses :
  let m := write_bytes ∅ 500 [1; 2; 3; 4; 5] in
  let slice a n := mkBS None a n 0 0 0 n false in
  let lb := mkLB [slice 500 3; slice 503 0; slice 503 2] (Some 2%nat) [] false 5 in
  let bm := mkBM [] 0 0 0 in
  match read_available_into bm (mkW m 600 ∅ 0) lb 10 8 with
  | Some (Err NotEnoughData, w, lb') => lb_len lb' = 2 /\ contents (w_mem w) (lb_slices lb') = [4; 5]
  | _ => False
  end.
Proof. vm_compute. split; reflexivity. Qed.


(** ** Witnesses *)

(** The manager of four buffers of twelve bytes, on either side. *)
Definition sample_bm (counter : Z) : BufferManager := mkBM (layout 8 counter sample_geo) 172 12 12.

Lemma sample_len : layout_end 8 sample_geo <= 172 < W32.
Proof. vm_compute. split; [discriminate|reflexivity]. Qed.

#[export] Instance sample_pool_laws : PoolLaws (addr 8 sample_geo) (bcap sample_geo) 172 (in_use 8 sample_geo).
Proof. exact (in_use_laws 8 172 sample_geo sample_geo_ok sample_len). Qed.

Lemma sample_manager_laws (counter : Z) : counter_ok counter -> ManagerLaws (addr 8 sample_geo) (bcap sample_geo) 172 (in_use 8 sample_geo) (sample_bm counter).
Proof. intros Hc. exact (manager_laws 8 172 12 12 sample_geo sample_geo_ok (NoDup_singleton 12) sample_len sample_max counter Hc). Qed.

#[export] Instance creator_laws : ManagerLaws (addr 8 sample_geo) (bcap sample_geo) 172 (in_use 8 sample_geo) (sample_bm 20).
Proof. apply sample_manager_laws. by left. Qed.

#[export] Instance mapper_laws : ManagerLaws (addr 8 sample_geo) (bcap sample_geo) 172 (in_use 8 sample_geo) (sample_bm 24).
Proof. apply sample_manager_laws. by right. Qed.

(** At the start nothing is in use. *)
Lemma sample_world : exists m, winv 172 (in_use 8 sample_geo) (mkW m 172 ∅ 0) [].
Proof.
  destruct sample_made as (_ & m & _ & _ & Hok & _). exists m. split; cbn; try done.
  - exists [all_bufs 12 4]. split; [done|]. split; [apply NoDup_nil_2|]. split; [intros x Hx; by apply not_elem_of_nil in Hx|].
    intros [[|i] o] cap num Hg (k & Hk & Eo); cbn in Hg; [|done]. injection Hg as <- <-. right. exists (all_bufs 12 4). split; [done|]. cbn in Eo |- *. subst o.
    assert (k = 0 \/ k = 1 \/ k = 2 \/ k = 3) as [->|[->|[->| ->]]] by lia; vm_compute; repeat constructor.
  - apply NoDup_nil_2.
  - intros a n Hin. by apply not_elem_of_nil in Hin.
  - intros a n b k Hin. by apply not_elem_of_nil in Hin.
Qed.

Lemma linked_writes_witness :
  exists m w lb, write_ops (sample_bm 20) (mkW m 172 ∅ 0) lb_new [WBytes [1; 2; 3]; WFill [4; 5]; WBytes (repeat 7 40)] = Some (w, lb) /\
    contents (w_mem w) (lb_slices lb) = [1; 2; 3; 4; 5] ++ repeat 7 40 /\ lb_len lb = 45.
Proof.
  destruct sample_world as (m & W). exists m.
  destruct (linked_writes (addr 8 sample_geo) (bcap sample_geo) 172 (in_use 8 sample_geo) (sample_bm 20) (mkW m 172 ∅ 0) lb_new [] [] [WBytes [1; 2; 3]; WFill [4; 5]; WBytes (repeat 7 40)]) as (w & lb & E & _ & Ec & El & _).
  - exact (writer_new _ _ _ _ (mkW m 172 ∅ 0) [] W).
  - repeat constructor; cbn; try lia; try discriminate.
  - exists w, lb. split; [exact E|]. split; [exact Ec|exact El].
Defined.

(** A buffer of two slices on the heap. *)
Definition sample_state (m : mem) : rstate :=
  mkR (mkW (write_bytes m 172 [1; 2; 3; 4; 5]) 177 ∅ 0) (mkLB [mkBS None 172 3 0 0 0 3 false; mkBS None 175 2 0 0 0 2 false] (Some 1%nat) [] false 5) [].

Lemma sample_reading : exists m, reading (addr 8 sample_geo) (bcap sample_geo) 172 (in_use 8 sample_geo) (sample_state m) [] [1; 2; 3; 4; 5] [].
Proof.
  destruct sample_world as (m & [H1 _ _ _ _]). exists m, [RHeap 172 3; RHeap 175 2], [], []. split; [|done]. cbn [sample_state r_world r_lb].
  assert (Hin : forall a n, RHeap (node := nat * Z) a n ∈ [RHeap 172 3; RHeap 175 2] -> (a = 172 /\ n = 3) \/ (a = 175 /\ n = 2)).
  { intros a n [[= -> ->]|[[= -> ->]|H%not_elem_of_nil]%elem_of_cons]%elem_of_cons; [by left|by right|done]. }
  split; cbn [lb_slices lb_len w_mem]; [|rewrite !contents_cons| |].
  - split; cbn [w_mem w_pins w_fresh lb_slices lb_slots fmap list_fmap app]; try apply NoDup_nil_2.
    + split; cbn [w_mem w_heap app]; [| lia | | |].
      * apply (pl_heap (addr 8 sample_geo) (bcap sample_geo) 172 (in_use 8 sample_geo) m); [exact H1|]. intros a Ha. apply rd_write_bytes_out. cbn. lia.
      * repeat constructor; set_solver.
      * intros a n H. apply Hin in H. lia.
      * intros a n b k Ha Hb Hne. apply Hin in Ha as [[-> ->]|[-> ->]], Hb as [[-> ->]|[-> ->]]; (done || lia).
    + repeat constructor; cbn; lia.
    + intros key id H. by apply not_elem_of_nil in H.
    + intros id r H. by apply not_elem_of_nil in H.
    + intros id ptr bytes H. by apply not_elem_of_nil in H.
    + intros id [p E]. by rewrite lookup_empty in E.
  - pose proof (read_write_bytes m 172 [1; 2; 3; 4; 5] ltac:(repeat constructor; lia)) as E. change (length [1; 2; 3; 4; 5]) with (3 + 2)%nat in E. rewrite read_bytes_app in E. exact E.
  - done.
  - by apply Forall_singleton.
Qed.

Lemma linked_reader_refines_witness :
  exists m obs s' data' vals', read_ops (sample_bm 24) (sample_state m) [RPeek 2; RRead 4; RDrop 0; RChunk; RRead 1] = Some (obs, s') /\
    areads [1; 2; 3; 4; 5] [] [RPeek 2; RRead 4; RDrop 0; RChunk; RRead 1] obs data' vals' /\ buf_bytes (w_mem (r_world s')) <$> r_bufs s' = vals'.
Proof.
  destruct sample_reading as (m & R). exists m.
  destruct (linked_reader_refines (addr 8 sample_geo) (bcap sample_geo) 172 (in_use 8 sample_geo) (sample_bm 24) (sample_state m) [] [1; 2; 3; 4; 5] [] [RPeek 2; RRead 4; RDrop 0; RChunk; RRead 1])
    as (obs & s' & data' & vals' & E & A & _ & V & _).
  - exact R.
  - repeat constructor; cbn; lia.
  - exists obs, s', data', vals'. split; [exact E|]. split; [exact A|exact V].
Defined.

Lemma linked_returns_all_witness :
  exists m, let '(w1, lb1) := lb_recycle (sample_bm 24) (r_world (sample_state m)) (r_lb (sample_state m)) in lb1 = lb_new /\ winv 172 (in_use 8 sample_geo) w1 [].
Proof.
  destruct sample_reading as (m & R). exists m. pose proof (linked_returns_all (addr 8 sample_geo) (bcap sample_geo) 172 (in_use 8 sample_geo) (sample_bm 24) (sample_state m) [] [1; 2; 3; 4; 5] [] R) as H.
  destruct (lb_recycle (sample_bm 24) (r_world (sample_state m)) (r_lb (sample_state m))) as [w1 lb1]. destruct H as (_ & H1 & H2 & _). split; [exact H1|exact H2].
Defined.
