(* ===== verification/BufReader.v ===== *)
(** * The buffered socket reader

    [src/src/util/buf_reader.rs].  The socket is the bytes the peer will have
    sent by the time it shuts the connection down, with a schedule that says how
    each poll of it turns out: not ready, or ready with at most so many bytes.
    After the schedule a poll yields everything that fits.  An end of file is a
    ready poll without bytes; other I/O errors are not modelled.
    Whatever the schedule, the reader's contents are the bytes of the socket in
    order: filling keeps them, consuming and reading take from their front. *)

From Stdlib Require Import ZArith Lia.
From stdpp Require Import base numbers list.
From S2P Require Import Prelude Bytes.

#[local] Open Scope nat_scope.

Inductive IoError : Type :=
| InvalidData
| UnexpectedEof.

Record BufReader : Type := mkBR {
  br_src : list Z;
  br_sched : list (option nat);
  br_buf : list Z;
  br_pos : nat;
  br_len : nat;
  br_cap : nat;
}.

Definition with_capacity (capacity : nat) (src : list Z) (sched : list (option nat)) : BufReader :=
  mkBR src sched (repeat 0%Z capacity) 0 0 capacity.

(** [buffer]: what has been read and not consumed. *)
Definition buffer (r : BufReader) : list Z := drop (br_pos r) (take (br_len r) (br_buf r)).

(** ** The socket *)

(** One poll of the socket with [room] bytes to fill: [None] is pending. *)
Definition poll_inner (room : nat) (src : list Z) (sched : list (option nat))
    : option (list Z) * list Z * list (option nat) :=
  match sched with
  | [] => (Some (take room src), drop room src, [])
  | None :: sched => (None, src, sched)
  | Some k :: sched => let n := min room (S k) in (Some (take n src), drop n src, sched)
  end.

(** [inner.read(buf).await]: poll until ready. *)
Fixpoint await_inner (room : nat) (src : list Z) (sched : list (option nat))
    : list Z * list Z * list (option nat) :=
  match sched with
  | None :: sched => await_inner room src sched
  | Some k :: sched => let n := min room (S k) in (take n src, drop n src, sched)
  | [] => (take room src, drop room src, [])
  end.

(** Bytes that arrive at index [i] of the buffer. *)
Definition put_at (buf : list Z) (i : nat) (bytes : list Z) : list Z :=
  take i buf ++ bytes ++ drop (i + length bytes) buf.

(** ** Operations *)

Definition compact (r : BufReader) : BufReader :=
  if br_len r =? br_pos r then mkBR (br_src r) (br_sched r) (br_buf r) 0 0 (br_cap r)
  else mkBR (br_src r) (br_sched r) (put_at (br_buf r) 0 (buffer r)) 0 (br_len r - br_pos r) (br_cap r).

(** The read loop of [fill_buf_at_least]; every turn adds a byte, so [len] turns
    are enough. *)
Fixpoint fill_loop (fuel len : nat) (r : BufReader) : option (result IoError (list Z) * BufReader) :=
  match fuel with
  | O => None
  | S fuel =>
      if br_len r - br_pos r <? len then
        let '(bytes, src, sched) := await_inner (br_cap r - br_len r) (br_src r) (br_sched r) in
        if length bytes =? 0
        then Some (Err InvalidData, mkBR src sched (br_buf r) (br_pos r) (br_len r) (br_cap r))
        else fill_loop fuel len
               (mkBR src sched (put_at (br_buf r) (br_len r) bytes) (br_pos r) (br_len r + length bytes) (br_cap r))
      else Some (Ok (buffer r), r)
  end.

Definition fill_buf_at_least (r : BufReader) (len : nat) : option (result IoError (list Z) * BufReader) :=
  let r := if br_pos r =? br_len r then compact r else r in
  if len =? 0 then Some (Ok [], r)
  else if len <=? br_len r - br_pos r then Some (Ok (buffer r), r)
  else if br_cap r <? len then Some (Err InvalidData, r)
  else
    let r := if br_cap r - br_pos r <? len then compact r else r in
    fill_loop (S len) len r.

Definition consume (r : BufReader) (amt : nat) : BufReader :=
  mkBR (br_src r) (br_sched r) (br_buf r) (min (br_pos r + amt) (br_len r)) (br_len r) (br_cap r).

(** [poll_fill_buf]: [None] is pending, otherwise what is buffered afterwards. *)
Definition poll_fill_buf (r : BufReader) : option (list Z) * BufReader :=
  if br_cap r <=? br_pos r then
    match poll_inner (length (br_buf r)) (br_src r) (br_sched r) with
    | (None, src, sched) => (None, mkBR src sched (br_buf r) (br_pos r) (br_len r) (br_cap r))
    | (Some bytes, src, sched) =>
        let r := mkBR src sched (put_at (br_buf r) 0 bytes) 0 (length bytes) (br_cap r) in
        (Some (buffer r), r)
    end
  else if br_len r <? br_cap r then
    match poll_inner (br_cap r - br_len r) (br_src r) (br_sched r) with
    | (None, src, sched) =>
        let r := mkBR src sched (br_buf r) (br_pos r) (br_len r) (br_cap r) in
        (if br_pos r <? br_len r then Some (buffer r) else None, r)
    | (Some bytes, src, sched) =>
        let r := mkBR src sched (put_at (br_buf r) (br_len r) bytes) (br_pos r) (br_len r + length bytes) (br_cap r) in
        (Some (buffer r), r)
    end
  else (Some (buffer r), r).

Definition poll_read (r : BufReader) (remaining : nat) : option (list Z) * BufReader :=
  if (br_pos r =? br_len r) && (length (br_buf r) <=? remaining) then
    match poll_inner remaining (br_src r) (br_sched r) with
    | (None, src, sched) => (None, mkBR src sched (br_buf r) (br_pos r) (br_len r) (br_cap r))
    | (Some bytes, src, sched) => (Some bytes, mkBR src sched (br_buf r) 0 0 (br_cap r))
    end
  else
    match poll_fill_buf r with
    | (None, r) => (None, r)
    | (Some rem, r) => let amt := min (length rem) remaining in (Some (take amt rem), consume r amt)
    end.

(** [AsyncReadExt::read_exact]: polls until the slice is full; a ready poll
    without bytes is an end of file.  Every poll shortens the schedule or
    delivers, so their sum is enough fuel. *)
Fixpoint read_exact_loop (fuel : nat) (r : BufReader) (n : nat) (got : list Z)
    : option (result IoError (list Z) * BufReader) :=
  match fuel with
  | O => None
  | S fuel =>
      if n =? 0 then Some (Ok got, r)
      else
        match poll_read r n with
        | (None, r) => read_exact_loop fuel r n got
        | (Some bytes, r) =>
            if length bytes =? 0 then Some (Err UnexpectedEof, r)
            else read_exact_loop fuel r (n - length bytes) (got ++ bytes)
        end
  end.

Definition read_exact (r : BufReader) (n : nat) : option (result IoError (list Z) * BufReader) :=
  read_exact_loop (S (n + length (br_sched r))) r n [].

(** ** Invariant and contents *)

Definition br_ok (r : BufReader) : Prop :=
  length (br_buf r) = br_cap r /\ br_pos r <= br_len r /\ br_len r <= br_cap r /\ 0 < br_cap r.

(** Everything the reader will still deliver. *)
Definition stream (r : BufReader) : list Z := buffer r ++ br_src r.

(** ** What the reader delivers *)

Lemma buffer_length (r : BufReader) : br_ok r -> length (buffer r) = br_len r - br_pos r.
Proof. intros (H1 & H2 & H3 & _). unfold buffer. rewrite length_drop, length_take. lia. Qed.

Lemma put_at_length (buf : list Z) (i : nat) (bytes : list Z) :
  i + length bytes <= length buf -> length (put_at buf i bytes) = length buf.
Proof. intros H. unfold put_at. rewrite !length_app, length_take, length_drop. lia. Qed.

Lemma take_put_at (buf : list Z) (i : nat) (bytes : list Z) :
  i <= length buf -> take (i + length bytes) (put_at buf i bytes) = take i buf ++ bytes.
Proof.
  intros H. unfold put_at. rewrite app_assoc. apply take_app_exact. rewrite length_app, length_take. lia.
Qed.

(** *** The socket *)

Lemma await_spec (room : nat) (src : list Z) (sched : list (option nat)) :
  0 < room ->
  let '(bytes, src', sched') := await_inner room src sched in
  bytes ++ src' = src /\ length bytes <= room /\ (length bytes = 0 -> src = []).
Proof.
  intros Hr. induction sched as [|[k|] sched IH]; cbn [await_inner]; [| |done].
  - split; [apply take_drop|]. rewrite length_take. split; [lia|]. destruct src; cbn; [done|lia].
  - split; [apply take_drop|]. rewrite length_take. split; [lia|]. destruct src; cbn; [done|lia].
Qed.

Lemma poll_spec (room : nat) (src : list Z) (sched : list (option nat)) :
  0 < room ->
  match poll_inner room src sched with
  | (None, src', sched') => src' = src /\ length sched' < length sched
  | (Some bytes, src', sched') =>
      bytes ++ src' = src /\ length bytes <= room /\ (length bytes = 0 -> src = []) /\ length sched' <= length sched
  end.
Proof.
  intros Hr. destruct sched as [|[k|] sched]; cbn [poll_inner length]; [| |split; [done|lia]].
  all: split; [apply take_drop|]; rewrite length_take; split; [lia|]; split; [|lia]; destruct src; cbn; [done|lia].
Qed.

(** *** The buffer *)

(** Bytes appended behind what is buffered. *)
Lemma append_ok (r : BufReader) (src : list Z) (sched : list (option nat)) (bytes : list Z) :
  br_ok r -> br_len r + length bytes <= br_cap r ->
  let r' := mkBR src sched (put_at (br_buf r) (br_len r) bytes) (br_pos r) (br_len r + length bytes) (br_cap r) in
  br_ok r' /\ buffer r' = buffer r ++ bytes.
Proof.
  intros (H1 & H2 & H3 & H4) Hb. split.
  - repeat split; cbn; try lia. rewrite put_at_length by lia. done.
  - unfold buffer; cbn. rewrite take_put_at by lia. rewrite drop_app_le; [done|]. rewrite length_take. lia.
Qed.

Lemma compact_ok (r : BufReader) :
  br_ok r -> br_ok (compact r) /\ buffer (compact r) = buffer r /\ br_src (compact r) = br_src r /\
  br_cap (compact r) = br_cap r /\ br_pos (compact r) = 0 /\ length (br_sched (compact r)) = length (br_sched r).
Proof.
  intros Hok. pose proof (buffer_length r Hok) as Hl. destruct Hok as (H1 & H2 & H3 & H4). unfold compact.
  destruct (br_len r =? br_pos r) eqn:E.
  - apply Nat.eqb_eq in E. repeat split; cbn; try lia; try done.
    symmetry. apply nil_length_inv. rewrite Hl. lia.
  - assert (Hb : 0 + length (buffer r) <= length (br_buf r)) by lia.
    repeat split; cbn; try lia; try done; [by rewrite put_at_length|].
    unfold buffer at 1; cbn [br_pos br_len br_buf]. rewrite drop_0. pose proof (take_put_at (br_buf r) 0 (buffer r)) as Ht.
    rewrite Hl in Ht. apply Ht. lia.
Qed.

Lemma fill_loop_spec (fuel len : nat) (r : BufReader) :
  br_ok r -> len <= br_cap r - br_pos r -> len - length (buffer r) < fuel ->
  exists r', if len <=? length (stream r)
    then fill_loop fuel len r = Some (Ok (buffer r'), r') /\ br_ok r' /\ stream r' = stream r /\
         len <= length (buffer r') /\ br_cap r' = br_cap r
    else fill_loop fuel len r = Some (Err InvalidData, r').
Proof.
  revert r. induction fuel as [|fuel IH]; intros r Hok Hlen Hf; [lia|]. cbn [fill_loop].
  pose proof (buffer_length r Hok) as Hb. pose proof Hok as (H1 & H2 & H3 & H4).
  destruct (br_len r - br_pos r <? len) eqn:E.
  - apply Nat.ltb_lt in E. pose proof (await_spec (br_cap r - br_len r) (br_src r) (br_sched r)) as Ha.
    destruct (await_inner _ _ _) as [[bytes src] sched]. destruct Ha as (A1 & A2 & A3); [lia|].
    destruct (length bytes =? 0) eqn:E0.
    + apply Nat.eqb_eq in E0. specialize (A3 E0). eexists. unfold stream. rewrite A3, length_app. cbn [length].
      replace (len <=? length (buffer r) + 0) with false by (symmetry; apply Nat.leb_gt; lia). reflexivity.
    + apply Nat.eqb_neq in E0. destruct (append_ok r src sched bytes Hok) as [Hok' Hbuf]; [lia|].
      set (r1 := mkBR src sched _ _ _ _) in *.
      destruct (IH r1 Hok') as (r' & Hr'); [cbn; lia|rewrite Hbuf, length_app; lia|].
      assert (Hs : stream r1 = stream r) by (unfold stream; rewrite Hbuf, <- app_assoc; cbn; by rewrite A1).
      rewrite Hs in Hr'. by exists r'.
  - apply Nat.ltb_ge in E. exists r. unfold stream. rewrite length_app.
    replace (len <=? length (buffer r) + length (br_src r)) with true by (symmetry; apply Nat.leb_le; lia).
    repeat split; try done; lia.
Qed.

(** [fill_buf_at_least] finds the bytes, or the socket ends before them. *)
Lemma fill_spec (r : BufReader) (len : nat) :
  br_ok r -> 0 < len -> len <= br_cap r ->
  exists r', if len <=? length (stream r)
    then fill_buf_at_least r len = Some (Ok (buffer r'), r') /\ br_ok r' /\ stream r' = stream r /\
         len <= length (buffer r') /\ br_cap r' = br_cap r
    else fill_buf_at_least r len = Some (Err InvalidData, r').
Proof.
  intros Hok Hl Hc. unfold fill_buf_at_least.
  assert (exists r0, (if br_pos r =? br_len r then compact r else r) = r0 /\ br_ok r0 /\ stream r0 = stream r /\
    br_cap r0 = br_cap r) as (r0 & -> & Hok0 & Hs0 & Hc0).
  { destruct (br_pos r =? br_len r); [|by exists r].
    destruct (compact_ok r Hok) as (C1 & C2 & C3 & C4 & _). exists (compact r). unfold stream. by rewrite C2, C3. }
  rewrite <- Hs0, <- Hc0. rewrite <- Hc0 in Hc. clear r Hok Hs0 Hc0.
  pose proof (buffer_length r0 Hok0) as Hb. pose proof Hok0 as (H1 & H2 & H3 & H4).
  destruct (Nat.eqb_spec len 0); [lia|]. destruct (len <=? br_len r0 - br_pos r0) eqn:E.
  - apply Nat.leb_le in E. exists r0. unfold stream at 1. rewrite length_app.
    replace (len <=? length (buffer r0) + length (br_src r0)) with true by (symmetry; apply Nat.leb_le; lia).
    repeat split; try done; lia.
  - apply Nat.leb_gt in E. destruct (Nat.ltb_spec (br_cap r0) len); [lia|].
    assert (exists r1, (if br_cap r0 - br_pos r0 <? len then compact r0 else r0) = r1 /\ br_ok r1 /\
      stream r1 = stream r0 /\ br_cap r1 = br_cap r0 /\ len <= br_cap r1 - br_pos r1) as (r1 & -> & Hok1 & Hs1 & Hc1 & Hl1).
    { destruct (Nat.ltb_spec (br_cap r0 - br_pos r0) len); [|exists r0; repeat split; try done; lia].
      destruct (compact_ok r0 Hok0) as (C1 & C2 & C3 & C4 & C5 & _). exists (compact r0). unfold stream.
      rewrite C2, C3, C4, C5. split; [done|]. split; [done|]. split; [done|]. split; [done|lia]. }
    destruct (fill_loop_spec (S len) len r1 Hok1 Hl1) as (r' & Hr'); [lia|]. rewrite Hs1, Hc1 in Hr'. by exists r'.
Qed.

Lemma consume_spec (r : BufReader) (amt : nat) :
  br_ok r -> amt <= length (buffer r) ->
  br_ok (consume r amt) /\ stream (consume r amt) = drop amt (stream r) /\ br_cap (consume r amt) = br_cap r.
Proof.
  intros Hok Ha. pose proof (buffer_length r Hok) as Hb. destruct Hok as (H1 & H2 & H3 & H4).
  split; [repeat split; cbn; lia|]. split; [|done]. unfold stream. rewrite drop_app_le by done. f_equal.
  unfold buffer; cbn. rewrite drop_drop. f_equal. lia.
Qed.

(** *** Exact reads *)

Lemma poll_fill_spec (r : BufReader) :
  br_ok r ->
  match poll_fill_buf r with
  | (None, r') => br_ok r' /\ stream r' = stream r /\ length (br_sched r') < length (br_sched r) /\ br_cap r' = br_cap r
  | (Some rem, r') => br_ok r' /\ stream r' = stream r /\ length (br_sched r') <= length (br_sched r) /\
      rem = buffer r' /\ (length rem = 0 -> stream r = []) /\ br_cap r' = br_cap r
  end.
Proof.
  intros Hok. pose proof (buffer_length r Hok) as Hb. pose proof Hok as (H1 & H2 & H3 & H4). unfold poll_fill_buf.
  destruct (Nat.leb_spec (br_cap r) (br_pos r)) as [E|E].
  - assert (Hnil : buffer r = []) by (apply nil_length_inv; lia).
    pose proof (poll_spec (length (br_buf r)) (br_src r) (br_sched r)) as Hp. destruct (poll_inner _ _ _) as [[[bytes|] src] sched].
    + destruct Hp as (P1 & P2 & P3 & P4); [lia|].
      assert (Hbuf : buffer (mkBR src sched (put_at (br_buf r) 0 bytes) 0 (length bytes) (br_cap r)) = bytes).
      { unfold buffer; cbn. pose proof (take_put_at (br_buf r) 0 bytes) as Ht. cbn in Ht. apply Ht. lia. }
      split; [repeat split; cbn; try lia; by rewrite put_at_length|]. unfold stream. rewrite Hbuf, Hnil.
      by repeat split.
    + destruct Hp as (P1 & P2); [lia|]. subst src. done.
  - destruct (Nat.ltb_spec (br_len r) (br_cap r)) as [E2|E2].
    + pose proof (poll_spec (br_cap r - br_len r) (br_src r) (br_sched r)) as Hp. destruct (poll_inner _ _ _) as [[[bytes|] src] sched].
      * destruct Hp as (P1 & P2 & P3 & P4); [lia|]. destruct (append_ok r src sched bytes Hok) as [Hok' Hbuf]; [lia|].
        split; [done|]. unfold stream. rewrite Hbuf, <- app_assoc. cbn [br_src br_sched br_cap]. rewrite P1.
        repeat split; try done. rewrite length_app. intros E0. rewrite (P3 ltac:(lia)), app_nil_r.
        apply nil_length_inv. lia.
      * destruct Hp as (P1 & P2); [lia|]. subst src. cbn [br_pos br_len]. destruct (Nat.ltb_spec (br_pos r) (br_len r)); [|done].
        split; [done|]. split; [done|]. split; [cbn; lia|]. split; [done|]. split; [|done].
        intros E0. change (length (buffer r) = 0) in E0. lia.
    + split; [done|]. split; [done|]. split; [lia|]. split; [done|]. split; [|done]. intros E0. lia.
Qed.

Lemma poll_read_spec (r : BufReader) (n : nat) :
  br_ok r -> 0 < n ->
  match poll_read r n with
  | (None, r') => br_ok r' /\ stream r' = stream r /\ length (br_sched r') < length (br_sched r) /\ br_cap r' = br_cap r
  | (Some bytes, r') => br_ok r' /\ stream r = bytes ++ stream r' /\ length bytes <= n /\
      length (br_sched r') <= length (br_sched r) /\ (length bytes = 0 -> stream r = []) /\ br_cap r' = br_cap r
  end.
Proof.
  intros Hok Hn. pose proof (buffer_length r Hok) as Hb. pose proof Hok as (H1 & H2 & H3 & H4). unfold poll_read.
  destruct ((br_pos r =? br_len r) && (length (br_buf r) <=? n)) eqn:E.
  - apply andb_true_iff in E as [E _]. apply Nat.eqb_eq in E.
    assert (Hnil : buffer r = []) by (apply nil_length_inv; lia).
    pose proof (poll_spec n (br_src r) (br_sched r) Hn) as Hp. destruct (poll_inner _ _ _) as [[[bytes|] src] sched].
    + destruct Hp as (P1 & P2 & P3 & P4). split; [repeat split; cbn; lia|]. unfold stream. rewrite Hnil. cbn.
      by repeat split.
    + destruct Hp as (P1 & P2). subst src. done.
  - pose proof (poll_fill_spec r Hok) as Hp. destruct (poll_fill_buf r) as [[rem|] r1]; [|done].
    destruct Hp as (P1 & P2 & P3 & P4 & P5 & P6).
    destruct (consume_spec r1 (min (length rem) n) P1) as (C1 & C2 & C3); [rewrite <- P4; lia|].
    split; [done|]. rewrite C2, <- P2, C3. split.
    { rewrite P4. unfold stream. set (k := min _ _). rewrite drop_app_le by lia. by rewrite app_assoc, take_drop. }
    rewrite length_take. repeat split; try done; try lia. intros E0. rewrite P2. apply P5. lia.
Qed.

Lemma read_exact_loop_spec (fuel : nat) (r : BufReader) (n : nat) (got : list Z) :
  br_ok r -> n + length (br_sched r) < fuel ->
  exists r', if n <=? length (stream r)
    then read_exact_loop fuel r n got = Some (Ok (got ++ take n (stream r)), r') /\ br_ok r' /\
         stream r' = drop n (stream r) /\ br_cap r' = br_cap r
    else read_exact_loop fuel r n got = Some (Err UnexpectedEof, r').
Proof.
  revert r n got. induction fuel as [|fuel IH]; intros r n got Hok Hf; [lia|]. cbn [read_exact_loop].
  destruct (Nat.eqb_spec n 0) as [->|Hn].
  { exists r. cbn. by rewrite app_nil_r. }
  pose proof (poll_read_spec r n Hok ltac:(lia)) as Hp. destruct (poll_read r n) as [[bytes|] r1].
  - destruct Hp as (P1 & P2 & P3 & P4 & P5 & P6). destruct (Nat.eqb_spec (length bytes) 0) as [E0|E0].
    + exists r1. rewrite (P5 E0). cbn. by destruct n.
    + destruct (IH r1 (n - length bytes) (got ++ bytes) P1) as (r' & Hr'); [lia|]. exists r'.
      rewrite P2, length_app. replace (n <=? length bytes + length (stream r1)) with (n - length bytes <=? length (stream r1)).
      2:{ destruct (Nat.leb_spec (n - length bytes) (length (stream r1))); symmetry; [apply Nat.leb_le|apply Nat.leb_gt]; lia. }
      destruct (_ <=? _); [|done]. destruct Hr' as (E & O1 & O2 & O3).
      rewrite E, take_app_ge, drop_app_ge by lia. by rewrite <- app_assoc, O3.
  - destruct Hp as (P1 & P2 & P3 & P4). destruct (IH r1 n got P1) as (r' & Hr'); [lia|].
    rewrite P2, P4 in Hr'. by exists r'.
Qed.

(** [read_exact] takes the next [n] bytes, or the socket ends before them. *)
Lemma read_exact_stream (r : BufReader) (n : nat) :
  br_ok r ->
  exists r', if n <=? length (stream r)
    then read_exact r n = Some (Ok (take n (stream r)), r') /\ br_ok r' /\ stream r' = drop n (stream r) /\
         br_cap r' = br_cap r
    else read_exact r n = Some (Err UnexpectedEof, r').
Proof. intros Hok. apply (read_exact_loop_spec _ r n [] Hok). lia. Qed.

Lemma with_capacity_ok (capacity : nat) (src : list Z) (sched : list (option nat)) :
  0 < capacity -> br_ok (with_capacity capacity src sched) /\ stream (with_capacity capacity src sched) = src.
Proof. intros H. split; [|done]. repeat split; cbn; try lia. apply repeat_length. Qed.
