(* ===== verification/Socket.v ===== *)
(** * Events on the unix socket

    [Session::read_loop] and [Session::handle_events] of
    [src/src/session/mod.rs], over the handlers a session gives them, and the
    sending side of a fallback message ([Stream::frame_fallback] and
    [Stream::write_fallback_v5] of [src/src/stream.rs]).  The loop is modelled for
    a session nobody shuts down meanwhile: a shutdown ends it after some prefix. *)

From Stdlib Require Import ZArith Lia.
From stdpp Require Import base numbers list.
From S2P Require Import Prelude Bytes Protocol BufReader.

#[local] Open Scope Z_scope.

(** ** Receiving *)

(** [Next]: what the read loop does after [handle_events]. *)
Inductive Next : Type :=
| Fill (len : nat)
| FallbackPayload (seq_id status : Z) (len : nat).

(** What brings a session down: a malformed frame, or a handler's error. *)
Inductive SockError (E : Type) : Type :=
| BadFrame (e : EventError)
| Failed (e : E).

Arguments BadFrame {E} e.

Arguments Failed {E} e.

(** Why the read loop ended. *)
Inductive Exit (E : Type) : Type :=
| ExitIo (e : IoError)
| ExitErr (e : SockError E).

Arguments ExitIo {E} e.

Arguments ExitErr {E} e.

(** [HEADER_SIZE] and [FALLBACK_DATA_HEADER] as lengths, and [ID_LEN] of
    [handle_stream_close]. *)
Definition HDR : nat := Z.to_nat HEADER_SIZE.

Definition FALLBACK_DATA_HEADER : nat := 8.

Definition ID_LEN : nat := 4.

(** What a session does with an event.  [on_polling] is the whole branch of a
    polling event: the drain, or nothing where the session polls by itself. *)
Class Handlers (St E : Type) : Type := {
  on_polling : St -> St * option E;
  on_close : Z -> St -> St * option E;
  on_fallback : Z -> Z -> list Z -> St -> St * option E;
}.

Section socket.
Context {St E : Type} `{Handlers St E}.

(** The checks at the top of the loop of [handle_events]. *)
Definition frame_check (h : list Z) : option EventError :=
  match check_event_valid h with
  | Err e => Some e
  | Ok _ =>
      if hdr_length h >? MAX_CONTROL_FRAME_SIZE then Some FrameTooLarge
      else
        let min_payload_size :=
          if hdr_msg_type h =? TYPE_STREAM_CLOSE then 4
          else if hdr_msg_type h =? TYPE_FALLBACK_DATA then Z.of_nat FALLBACK_DATA_HEADER
          else 0 in
        if hdr_length h <? HEADER_SIZE + min_payload_size then Some FrameTooShort else None
  end.

(** [handle_stream_close]: bytes consumed, bytes required, stop, error. *)
Definition handle_stream_close (buf : list Z) (s : St) : (nat * nat * bool * option E) * St :=
  if (length buf <? ID_LEN)%nat then ((0%nat, (HDR + ID_LEN)%nat, true, None), s)
  else
    let '(s, err) := on_close (be_val (take ID_LEN buf)) s in
    (((HDR + ID_LEN)%nat, HDR, false, err), s).

(** The loop of [handle_events] on the bytes not consumed yet. *)
Fixpoint events_loop (fuel : nat) (rest : list Z) (consumed : nat) (s : St)
    : option ((nat * Next * option (SockError E)) * St) :=
  match fuel with
  | O => None
  | S fuel =>
      if (length rest <? HDR)%nat then Some ((consumed, Fill HDR, None), s)
      else
        match frame_check rest with
        | Some e => Some (((consumed + HDR)%nat, Fill HDR, Some (BadFrame e)), s)
        | None =>
            let head := drop HDR rest in
            let go (r : (nat * nat * bool * option E) * St) :=
              let '((n, required, stop, err), s) := r in
              match err with
              | Some e => Some (((consumed + n)%nat, Fill HDR, Some (Failed e)), s)
              | None =>
                  if stop : bool then Some (((consumed + n)%nat, Fill required, None), s)
                  else events_loop fuel (drop n rest) (consumed + n)%nat s
              end in
            if hdr_msg_type rest =? TYPE_POLLING then
              let '(s, err) := on_polling s in go ((HDR, HDR, false, err), s)
            else if hdr_msg_type rest =? TYPE_STREAM_CLOSE then go (handle_stream_close head s)
            else if hdr_msg_type rest =? TYPE_FALLBACK_DATA then
              if (length head <? FALLBACK_DATA_HEADER)%nat
              then Some ((consumed, Fill (HDR + FALLBACK_DATA_HEADER)%nat, None), s)
              else
                let seq_id := be_val (take 4 head) in
                let status := Z.land (be_val (take 4 (drop 4 head))) 255 in
                let len := Z.to_nat (hdr_length rest - HEADER_SIZE - Z.of_nat FALLBACK_DATA_HEADER) in
                Some (((consumed + HDR + FALLBACK_DATA_HEADER)%nat, FallbackPayload seq_id status len, None), s)
            else Some (((consumed + HDR)%nat, Fill HDR, Some (BadFrame InvalidMsgType)), s)
        end
  end.

Definition handle_events (buf : list Z) (s : St) : option ((nat * Next * option (SockError E)) * St) :=
  events_loop (S (length buf)) buf 0 s.

(** [Session::read_loop]: [fuel] bounds its iterations. *)
Fixpoint read_loop (fuel : nat) (r : BufReader) (len : nat) (s : St) : option (Exit E * St) :=
  match fuel with
  | O => None
  | S fuel =>
      '(res, r) ← fill_buf_at_least r len;
      match res with
      | Err e => Some (ExitIo e, s)
      | Ok buf =>
          '((consumed, next, err), s) ← handle_events buf s;
          let r := consume r consumed in
          match err with
          | Some e => Some (ExitErr e, s)
          | None =>
              match next with
              | Fill len => read_loop fuel r len s
              | FallbackPayload seq_id status payload_len =>
                  '(res, r) ← (if (0 <? payload_len)%nat then read_exact r payload_len else Some (Ok [], r));
                  match res with
                  | Err e => Some (ExitIo e, s)
                  | Ok payload =>
                      let '(s, err) := on_fallback seq_id status payload s in
                      match err with
                      | Some e => Some (ExitErr (Failed e), s)
                      | None => read_loop fuel r HDR s
                      end
                  end
              end
          end
      end
  end.

(** ** The reference: one event after the other off the whole byte stream *)

(** How far one event reaches and what it does, given all the bytes to come. *)
Inductive event_result : Type :=
| Ends (e : Exit E) (s : St)
| Goes (n : nat) (s : St).

Definition after (n : nat) (r : St * option E) : event_result :=
  match r with
  | (s, Some e) => Ends (ExitErr (Failed e)) s
  | (s, None) => Goes n s
  end.

Definition next_event (bytes : list Z) (s : St) : event_result :=
  if (length bytes <? HDR)%nat then Ends (ExitIo InvalidData) s
  else
    match frame_check bytes with
    | Some e => Ends (ExitErr (BadFrame e)) s
    | None =>
        let body := drop HDR bytes in
        if hdr_msg_type bytes =? TYPE_POLLING then after HDR (on_polling s)
        else if hdr_msg_type bytes =? TYPE_STREAM_CLOSE then
          if (length body <? ID_LEN)%nat then Ends (ExitIo InvalidData) s
          else after (HDR + ID_LEN)%nat (on_close (be_val (take ID_LEN body)) s)
        else if hdr_msg_type bytes =? TYPE_FALLBACK_DATA then
          if (length body <? FALLBACK_DATA_HEADER)%nat then Ends (ExitIo InvalidData) s
          else
            let len := Z.to_nat (hdr_length bytes - HEADER_SIZE - Z.of_nat FALLBACK_DATA_HEADER) in
            let payload := drop FALLBACK_DATA_HEADER body in
            if (length payload <? len)%nat then Ends (ExitIo UnexpectedEof) s
            else after (HDR + FALLBACK_DATA_HEADER + len)%nat
                   (on_fallback (be_val (take 4 body)) (Z.land (be_val (take 4 (drop 4 body))) 255)
                                (take len payload) s)
        else Ends (ExitErr (BadFrame InvalidMsgType)) s
    end.

Fixpoint events_from (fuel : nat) (bytes : list Z) (s : St) : option (Exit E * St) :=
  match fuel with
  | O => None
  | S fuel =>
      match next_event bytes s with
      | Ends e s => Some (e, s)
      | Goes n s => events_from fuel (drop n bytes) s
      end
  end.

(** Everything a peer's bytes make the session do. *)
Definition all_events (bytes : list Z) (s : St) : option (Exit E * St) :=
  events_from (S (length bytes)) bytes s.

End socket.

(** ** Sending a fallback message *)

Definition EVENT_HEADER : Z := HEADER_SIZE + 8.

Definition new_frame : list Z := repeat 0 (Z.to_nat EVENT_HEADER).

Definition is_empty_slice (l : list Z) : bool := match l with [] => true | _ => false end.

(** The inner loop over the rest of one chunk; [fuel] bounds its iterations. *)
Fixpoint frame_chunk (fuel : nat) (max_frame : Z) (frames : list (list Z)) (current rest : list Z)
    : option (list (list Z) * list Z) :=
  match fuel with
  | O => None
  | S fuel =>
      if is_empty_slice rest then Some (frames, current)
      else
        let take_n := Z.to_nat (Z.min (max_frame - Z.of_nat (length current)) (Z.of_nat (length rest))) in
        let current := current ++ take take_n rest in
        let rest := drop take_n rest in
        if Z.of_nat (length current) =? max_frame
        then frame_chunk fuel max_frame (frames ++ [current]) new_frame rest
        else frame_chunk fuel max_frame frames current rest
  end.

Fixpoint frame_chunks (max_frame : Z) (frames : list (list Z)) (current : list Z) (chunks : list (list Z))
    : option (list (list Z) * list Z) :=
  match chunks with
  | [] => Some (frames, current)
  | c :: chunks =>
      '(frames, current) ← frame_chunk (S (length c)) max_frame frames current c;
      frame_chunks max_frame frames current chunks
  end.

Definition frame_with (max_frame : Z) (chunks : list (list Z)) : option (list (list Z)) :=
  '(frames, current) ← frame_chunks max_frame [] new_frame chunks;
  Some (if Z.of_nat (length current) >? EVENT_HEADER then frames ++ [current] else frames).

Definition frame_fallback (chunks : list (list Z)) : option (list (list Z)) :=
  frame_with MAX_CONTROL_FRAME_SIZE chunks.

Definition STREAM_OPENED : Z := 0.

Definition STREAM_CLOSED : Z := 1.

Definition STREAM_HALF_CLOSED : Z := 2.

(** [event.encode] over the front of a frame. *)
Definition stamp_frame (version id status : Z) (frame : list Z) : list Z :=
  fallback_encode (wrap32 (Z.of_nat (length frame))) version id status ++ drop (Z.to_nat EVENT_HEADER) frame.

(** The bytes [write_fallback_v5] puts on the socket, a frame after the other;
    only the last carries the stream's own status. *)
Fixpoint write_fallback_v5 (version id status : Z) (frames : list (list Z)) : list Z :=
  match frames with
  | [] => []
  | [f] => stamp_frame version id status f
  | f :: fs => stamp_frame version id STREAM_OPENED f ++ write_fallback_v5 version id status fs
  end.
