(* ===== verification/SocketTheorems.v ===== *)
(** * What the socket carries

    The read loop is independent of how the socket cuts the bytes, and a
    fallback message comes out of it as the bytes that went in. *)

From Stdlib Require Import ZArith Lia.
From stdpp Require Import base numbers list.
From S2P Require Import Prelude Bytes Protocol BufReader Socket.

#[local] Open Scope nat_scope.

(** ** A header is its first eight bytes *)

Lemma hdr_app (h q : list Z) :
  HDR <= length h ->
  hdr_length (h ++ q) = hdr_length h /\ hdr_magic (h ++ q) = hdr_magic h /\
  hdr_version (h ++ q) = hdr_version h /\ hdr_msg_type (h ++ q) = hdr_msg_type h.
Proof.
  change HDR with 8. intros Hl. unfold hdr_length, hdr_magic, hdr_version, hdr_msg_type.
  rewrite take_app_le by lia. rewrite drop_app_le by lia. rewrite take_app_le by (rewrite length_drop; lia).
  by rewrite !lookup_app_l by lia.
Qed.

Lemma frame_check_app (h q : list Z) : HDR <= length h -> frame_check (h ++ q) = frame_check h.
Proof.
  intros Hl. destruct (hdr_app h q Hl) as (E1 & E2 & E3 & E4). unfold frame_check, check_event_valid.
  by rewrite E1, E2, E3, E4.
Qed.

Section facts.
Context {St E : Type} `{Handlers St E}.

(** ** Unfolding the reference *)

Lemma next_event_goes (bytes : list Z) (s s' : St) (n : nat) :
  next_event bytes s = Goes n s' -> HDR <= n <= length bytes.
Proof.
  unfold next_event, after. intros Hn. change HDR with 8 in *. change ID_LEN with 4 in *.
  change FALLBACK_DATA_HEADER with 8 in *.
  destruct (Nat.ltb_spec (length bytes) 8) as [?|H8]; [done|]. destruct (frame_check bytes); [done|].
  destruct (hdr_msg_type bytes =? TYPE_POLLING)%Z.
  { destruct (on_polling s) as [? []]; [done|]. injection Hn as <- _. lia. }
  destruct (hdr_msg_type bytes =? TYPE_STREAM_CLOSE)%Z.
  { destruct (Nat.ltb_spec (length (drop 8 bytes)) 4) as [?|Hd]; [done|]. rewrite length_drop in Hd.
    destruct (on_close _ s) as [? []]; [done|]. injection Hn as <- _. lia. }
  destruct (hdr_msg_type bytes =? TYPE_FALLBACK_DATA)%Z; [|done].
  destruct (Nat.ltb_spec (length (drop 8 bytes)) 8) as [?|Hd]; [done|]. rewrite length_drop in Hd.
  set (len := Z.to_nat _) in *. destruct (Nat.ltb_spec (length (drop 8 (drop 8 bytes))) len) as [?|Hp]; [done|].
  rewrite !length_drop in Hp. destruct (on_fallback _ _ _ s) as [? []]; [done|]. injection Hn as <- _. lia.
Qed.

Lemma events_from_fuel (f1 f2 : nat) (bytes : list Z) (s : St) :
  length bytes < f1 -> length bytes < f2 -> events_from f1 bytes s = events_from f2 bytes s.
Proof.
  revert f2 bytes s. induction f1 as [|f1 IH]; intros f2 bytes s H1 H2; [lia|]. destruct f2 as [|f2]; [lia|].
  cbn [events_from]. destruct (next_event bytes s) as [e s'|n s'] eqn:En; [done|].
  apply next_event_goes in En. change HDR with 8 in En. apply IH; rewrite length_drop; lia.
Qed.

Lemma all_events_unfold (bytes : list Z) (s : St) :
  all_events bytes s =
  match next_event bytes s with
  | Ends e s' => Some (e, s')
  | Goes n s' => all_events (drop n bytes) s'
  end.
Proof.
  unfold all_events at 1. cbn [events_from]. destruct (next_event bytes s) as [e s'|n s'] eqn:En; [done|].
  apply next_event_goes in En. change HDR with 8 in En. apply events_from_fuel; rewrite length_drop; lia.
Qed.

(** ** One buffer of events *)

(** What is left to do with the bytes [q] behind a buffer that has been handled
    up to [tail], according to what [handle_events] returned. *)
Definition continues (tail q : list Z) (next : Next) (s : St) (out : option (Exit E * St)) : Prop :=
  match next with
  | Fill k => HDR <= k <= 16 /\ length tail < k /\ out = all_events (tail ++ q) s /\
      (length (tail ++ q) < k -> out = Some (ExitIo InvalidData, s))
  | FallbackPayload sid status len =>
      out = if length (tail ++ q) <? len then Some (ExitIo UnexpectedEof, s)
            else match on_fallback sid status (take len (tail ++ q)) s with
                 | (s', Some e) => Some (ExitErr (Failed e), s')
                 | (s', None) => all_events (drop len (tail ++ q)) s'
                 end
  end.

Definition handled (rest q : list Z) (n : nat) (next : Next) (err : option (SockError E)) (s s' : St) : Prop :=
  match err with
  | Some e => all_events (rest ++ q) s = Some (ExitErr e, s')
  | None => n <= length rest /\ (n = 0 -> exists k, next = Fill k) /\
      continues (drop n rest) q next s' (all_events (rest ++ q) s)
  end.

(** Too few bytes for the event at hand. *)
Lemma handled_short (rest q : list Z) (k : nat) (s : St) :
  HDR <= k <= 16 -> length rest < k ->
  (length (rest ++ q) < k -> next_event (rest ++ q) s = Ends (ExitIo InvalidData) s) ->
  handled rest q 0 (Fill k) None s s.
Proof.
  intros Hk Hl Hs. split; [lia|]. split; [by exists k|]. rewrite drop_0. split; [done|]. split; [done|]. split; [done|].
  intros Hq. rewrite all_events_unfold. by rewrite (Hs Hq).
Qed.

(** An event of [n] bytes that is complete in the buffer, and what follows it. *)
Lemma handled_step (rest q : list Z) (n n' : nat) (next : Next) (err : option (SockError E)) (s s1 s' : St) :
  0 < n <= length rest -> next_event (rest ++ q) s = Goes n s1 ->
  handled (drop n rest) q n' next err s1 s' -> handled rest q (n + n') next err s s'.
Proof.
  intros Hn Hne Hh. unfold handled in *. rewrite all_events_unfold, Hne, drop_app_le by lia.
  destruct err as [e|]; [done|]. rewrite length_drop, drop_drop in Hh. destruct Hh as (H1 & H2 & H3).
  split; [lia|]. split; [lia|]. done.
Qed.

Lemma events_loop_spec (fuel : nat) (rest q : list Z) (consumed : nat) (s : St) :
  length rest < fuel ->
  exists n next err s', events_loop fuel rest consumed s = Some ((consumed + n, next, err), s') /\
    handled rest q n next err s s'.
Proof.
  revert rest consumed s. induction fuel as [|fuel IH]; intros rest consumed s Hf; [lia|]. cbn [events_loop].
  destruct (Nat.ltb_spec (length rest) HDR) as [Hs|Hs].
  { exists 0, (Fill HDR), None, s. rewrite Nat.add_0_r. split; [done|]. change HDR with 8 in *.
    apply handled_short; [change HDR with 8; lia|done|]. intros Hq. unfold next_event. change HDR with 8.
    by destruct (Nat.ltb_spec (length (rest ++ q)) 8); [|lia]. }
  pose proof (hdr_app rest q Hs) as (E1 & _ & _ & E4). pose proof (frame_check_app rest q Hs) as Ec.
  assert (Hlq : (length (rest ++ q) <? HDR) = false) by (apply Nat.ltb_ge; rewrite length_app; lia).
  assert (Hne : next_event (rest ++ q) s = next_event (rest ++ q) s) by done.
  unfold next_event at 2 in Hne. rewrite Hlq, Ec, E1, E4 in Hne.
  destruct (frame_check rest) as [e|] eqn:Efc.
  { exists HDR, (Fill HDR), (Some (BadFrame e)), s. split; [done|]. unfold handled. by rewrite all_events_unfold, Hne. }
  change HDR with 8 in *. change ID_LEN with 4 in *. change FALLBACK_DATA_HEADER with 8 in *.
  destruct (hdr_msg_type rest =? TYPE_POLLING)%Z.
  { destruct (on_polling s) as [s1 [e|]]; cbn [after] in Hne.
    - exists 8, (Fill 8), (Some (Failed e)), s1. split; [done|]. unfold handled. by rewrite all_events_unfold, Hne.
    - destruct (IH (drop 8 rest) (consumed + 8) s1) as (n & next & err & s' & -> & Hh); [rewrite length_drop; lia|].
      exists (8 + n), next, err, s'. split; [by rewrite Nat.add_assoc|]. apply (handled_step _ _ _ _ _ _ s s1); [lia|done|done]. }
  destruct (hdr_msg_type rest =? TYPE_STREAM_CLOSE)%Z.
  { unfold handle_stream_close. change HDR with 8. change ID_LEN with 4. change (8 + 4) with 12 in *.
    rewrite drop_app_le in Hne by lia.
    destruct (Nat.ltb_spec (length (drop 8 rest)) 4) as [Hd|Hd]; rewrite length_drop in Hd.
    - exists 0, (Fill 12), None, s. split; [done|]. apply handled_short; [change HDR with 8; lia|lia|].
      rewrite length_app. intros Hq. rewrite Hne, length_app, length_drop.
      by destruct (Nat.ltb_spec (length rest - 8 + length q) 4); [|lia].
    - rewrite length_app, length_drop in Hne. destruct (Nat.ltb_spec (length rest - 8 + length q) 4); [lia|].
      rewrite take_app_le in Hne by (rewrite length_drop; lia). destruct (on_close _ s) as [s1 [e|]]; cbn [after] in Hne.
      + exists 12, (Fill 8), (Some (Failed e)), s1. split; [done|]. unfold handled. by rewrite all_events_unfold, Hne.
      + destruct (IH (drop 12 rest) (consumed + 12) s1) as (n & next & err & s' & -> & Hh); [rewrite length_drop; lia|].
        exists (12 + n), next, err, s'. split; [by rewrite Nat.add_assoc|].
        apply (handled_step _ _ _ _ _ _ s s1); [lia|done|done]. }
  destruct (hdr_msg_type rest =? TYPE_FALLBACK_DATA)%Z.
  2:{ exists 8, (Fill 8), (Some (BadFrame InvalidMsgType)), s. split; [done|]. unfold handled. by rewrite all_events_unfold, Hne. }
  rewrite drop_app_le in Hne by lia.
  destruct (Nat.ltb_spec (length (drop 8 rest)) 8) as [Hd|Hd]; rewrite length_drop in Hd.
  { exists 0, (Fill 16), None, s. rewrite Nat.add_0_r. split; [done|]. apply handled_short; [change HDR with 8; lia|lia|].
    rewrite length_app. intros Hq. rewrite Hne, length_app, length_drop.
    by destruct (Nat.ltb_spec (length rest - 8 + length q) 8); [|lia]. }
  rewrite <- Nat.add_assoc. change (8 + 8) with 16 in *. eexists 16, _, None, s. split; [reflexivity|].
  split; [lia|]. split; [done|].
  set (len := Z.to_nat _) in *. cbn [continues]. rewrite all_events_unfold, Hne, length_app, length_drop.
  destruct (Nat.ltb_spec (length rest - 8 + length q) 8); [lia|].
  rewrite (take_app_le (drop 8 rest)) by (rewrite length_drop; lia). rewrite drop_app_le by (rewrite length_drop; lia).
  rewrite (drop_app_le _ q 4), (take_app_le _ q 4) by (rewrite ?length_drop; lia).
  rewrite (drop_drop rest 8 8). change (8 + 8) with 16.
  clear Hne. destruct (_ <? len); [done|]. destruct (on_fallback _ _ _ s) as [s1 [e|]]; cbn [after]; [done|].
  by rewrite <- drop_drop, drop_app_le by lia.
Qed.

(** ** The loop *)

Lemma read_loop_spec (fuel : nat) (r : BufReader) (len : nat) (s : St) :
  br_ok r -> 16 <= br_cap r -> HDR <= len <= 16 ->
  (length (stream r) < len -> all_events (stream r) s = Some (ExitIo InvalidData, s)) ->
  16 * length (stream r) + (16 - len) < fuel ->
  read_loop fuel r len s = all_events (stream r) s.
Proof.
  revert r len s. induction fuel as [|fuel IH]; intros r len s Hok Hcap Hlen Hsh Hf; [lia|]. cbn [read_loop].
  change HDR with 8 in *. destruct (fill_spec r len Hok) as (r1 & Hr1); [lia|lia|].
  destruct (Nat.leb_spec len (length (stream r))) as [Hle|Hgt].
  2:{ rewrite Hr1. cbn [mbind option_bind]. by rewrite Hsh. }
  destruct Hr1 as (-> & Hok1 & Hs1 & Hb1 & Hc1). cbn [mbind option_bind].
  destruct (events_loop_spec (S (length (buffer r1))) (buffer r1) (br_src r1) 0 s) as (n & next & err & s1 & He & Hh); [lia|].
  unfold handle_events. rewrite He. cbn [mbind option_bind Nat.add]. rewrite <- Hs1. unfold handled in Hh. fold (stream r1) in Hh.
  destruct err as [e|]; [by rewrite Hh|]. destruct Hh as (Hn & Hn0 & Hcont).
  destruct (consume_spec r1 n Hok1 Hn) as (C1 & C2 & C3).
  assert (Ht : drop n (buffer r1) ++ br_src r1 = stream (consume r1 n)) by (rewrite C2; unfold stream; by rewrite drop_app_le by lia).
  unfold continues in Hcont. rewrite Ht in Hcont.
  assert (Hlc : length (stream (consume r1 n)) = length (stream r) - n) by (rewrite C2, length_drop, Hs1; lia).
  destruct next as [k|sid status plen].
  - destruct Hcont as (Hk & Hlt & -> & Hsh'). change HDR with 8 in *. rewrite length_drop in Hlt.
    apply IH; [done|by rewrite C3, Hc1|done|done|]. destruct n; [cbn in Hlt|]; lia.
  - rewrite Hcont. assert (Hn1 : n <> 0) by (intros ->; destruct (Hn0 eq_refl); discriminate).
    destruct (read_exact_stream (consume r1 n) plen C1) as (r2 & Hr2).
    assert (Hr : exists r3, if plen <=? length (stream (consume r1 n))
        then (if 0 <? plen then read_exact (consume r1 n) plen else Some (Ok [], consume r1 n))
               = Some (Ok (take plen (stream (consume r1 n))), r3) /\ br_ok r3 /\
             stream r3 = drop plen (stream (consume r1 n)) /\ br_cap r3 = br_cap r
        else (if 0 <? plen then read_exact (consume r1 n) plen else Some (Ok [], consume r1 n))
               = Some (Err UnexpectedEof, r3)).
    { destruct (Nat.ltb_spec 0 plen) as [Hp|Hp].
      - exists r2. destruct (plen <=? _); [|done]. destruct Hr2 as (R1 & R2 & R3 & R4). by rewrite R4, C3, Hc1.
      - replace plen with 0 by lia. exists (consume r1 n). cbn [Nat.leb]. by rewrite drop_0, take_0, C3, Hc1. }
    destruct Hr as (r3 & Hr3). destruct (Nat.leb_spec plen (length (stream (consume r1 n)))) as [Hle2|Hgt2].
    + destruct (Nat.ltb_spec (length (stream (consume r1 n))) plen); [lia|]. destruct Hr3 as (-> & R2 & R3 & R4).
      cbn [mbind option_bind]. destruct (on_fallback _ _ _ s1) as [s2 [e|]]; [done|]. rewrite <- R3.
      apply IH; [done|by rewrite R4|change HDR with 8; lia| |].
      * intros Hs8. rewrite all_events_unfold. unfold next_event. change HDR with 8.
        by destruct (Nat.ltb_spec (length (stream r3)) 8); [|lia].
      * rewrite R3, length_drop. change HDR with 8. lia.
    + destruct (Nat.ltb_spec (length (stream (consume r1 n))) plen); [|lia]. by rewrite Hr3.
Qed.

End facts.

#[local] Close Scope nat_scope.
#[local] Open Scope Z_scope.

(** ** Frames *)

Definition frame_ok (max_frame : Z) (f : list Z) : Prop := EVENT_HEADER < Z.of_nat (length f) <= max_frame.

Definition payloads (frames : list (list Z)) : list (list Z) := drop (Z.to_nat EVENT_HEADER) <$> frames.

Lemma frame_chunk_spec (fuel : nat) (max_frame : Z) (frames : list (list Z)) (current rest : list Z) :
  EVENT_HEADER < max_frame -> EVENT_HEADER <= Z.of_nat (length current) < max_frame ->
  Forall (frame_ok max_frame) frames -> (length rest < fuel)%nat ->
  exists frames' current', frame_chunk fuel max_frame frames current rest = Some (frames', current') /\
    EVENT_HEADER <= Z.of_nat (length current') < max_frame /\ Forall (frame_ok max_frame) frames' /\
    concat (payloads frames') ++ drop (Z.to_nat EVENT_HEADER) current' =
      concat (payloads frames) ++ drop (Z.to_nat EVENT_HEADER) current ++ rest.
Proof.
  intros Hmax. revert frames current rest. induction fuel as [|fuel IH]; intros frames current rest Hc Hfr Hf; [lia|].
  cbn [frame_chunk]. destruct rest as [|b rest]; cbn [is_empty_slice].
  { exists frames, current. by rewrite app_nil_r. }
  set (r := b :: rest) in *. set (k := Z.to_nat (Z.min _ _)).
  assert (Hk : (0 < k <= length r)%nat) by (unfold k, r in *; cbn [length] in *; lia).
  assert (Hl : length (current ++ take k r) = (length current + k)%nat) by (rewrite length_app, length_take; lia).
  assert (Hd : drop (Z.to_nat EVENT_HEADER) (current ++ take k r) = drop (Z.to_nat EVENT_HEADER) current ++ take k r)
    by (apply drop_app_le; lia).
  assert (Hkm : Z.of_nat (length current + k) <= max_frame) by (unfold k; lia).
  destruct (Z.eqb_spec (Z.of_nat (length (current ++ take k r))) max_frame) as [E|E].
  - destruct (IH (frames ++ [current ++ take k r]) new_frame (drop k r)) as (f' & c' & -> & R1 & R2 & R3).
    + change (length new_frame) with 16%nat. change EVENT_HEADER with 16 in *. lia.
    + apply Forall_app. split; [done|]. apply Forall_singleton. unfold frame_ok. lia.
    + rewrite length_drop. lia.
    + exists f', c'. split; [done|]. split; [done|]. split; [done|]. rewrite R3.
      unfold payloads. rewrite fmap_app, concat_app. cbn [fmap list_fmap concat].
      change (drop (Z.to_nat EVENT_HEADER) new_frame) with (@nil Z). rewrite Hd, app_nil_r, <- !app_assoc.
      cbn [app]. by rewrite take_drop.
  - destruct (IH frames (current ++ take k r) (drop k r)) as (f' & c' & -> & R1 & R2 & R3); [lia|done|rewrite length_drop; lia|].
    exists f', c'. split; [done|]. split; [done|]. split; [done|]. by rewrite R3, Hd, <- app_assoc, take_drop.
Qed.

Lemma frame_chunks_spec (max_frame : Z) (chunks frames : list (list Z)) (current : list Z) :
  EVENT_HEADER < max_frame -> EVENT_HEADER <= Z.of_nat (length current) < max_frame ->
  Forall (frame_ok max_frame) frames ->
  exists frames' current', frame_chunks max_frame frames current chunks = Some (frames', current') /\
    EVENT_HEADER <= Z.of_nat (length current') < max_frame /\ Forall (frame_ok max_frame) frames' /\
    concat (payloads frames') ++ drop (Z.to_nat EVENT_HEADER) current' =
      concat (payloads frames) ++ drop (Z.to_nat EVENT_HEADER) current ++ concat chunks.
Proof.
  intros Hmax. revert frames current. induction chunks as [|c chunks IH]; intros frames current Hc Hfr; cbn [frame_chunks concat].
  - exists frames, current. by rewrite app_nil_r.
  - destruct (frame_chunk_spec (S (length c)) max_frame frames current c Hmax Hc Hfr) as (f1 & c1 & -> & H1 & H2 & H3); [lia|].
    cbn [mbind option_bind]. destruct (IH f1 c1 H1 H2) as (f2 & c2 & -> & G1 & G2 & G3). exists f2, c2.
    split; [done|]. split; [done|]. split; [done|]. by rewrite G3, app_assoc, H3, <- !app_assoc.
Qed.

Lemma frame_with_spec (max_frame : Z) (chunks : list (list Z)) :
  EVENT_HEADER < max_frame ->
  exists frames, frame_with max_frame chunks = Some frames /\ Forall (frame_ok max_frame) frames /\
    concat (payloads frames) = concat chunks.
Proof.
  intros Hmax. unfold frame_with.
  destruct (frame_chunks_spec max_frame chunks [] new_frame Hmax) as (f & c & -> & H1 & H2 & H3); [|constructor|].
  { change (length new_frame) with 16%nat. change EVENT_HEADER with 16 in *. lia. }
  change (concat (payloads [])) with (@nil Z) in H3. change (drop (Z.to_nat EVENT_HEADER) new_frame) with (@nil Z) in H3.
  cbn [app] in H3. cbn [mbind option_bind]. eexists. split; [reflexivity|].
  destruct (Z.gtb_spec (Z.of_nat (length c)) EVENT_HEADER) as [Hg|Hg].
  - split; [apply Forall_app; split; [done|]; apply Forall_singleton; unfold frame_ok; lia|].
    unfold payloads in *. rewrite fmap_app, concat_app. cbn. by rewrite app_nil_r.
  - split; [done|]. rewrite <- H3. rewrite drop_ge by lia. by rewrite app_nil_r.
Qed.

Section theorems.
Context {St E : Type} `{Handlers St E}.

(** The read loop against its reference, from a fresh reader. *)
Lemma read_loop_all (capacity : nat) (src : list Z) (sched : list (option nat)) (s : St) :
  (HDR + FALLBACK_DATA_HEADER <= capacity)%nat ->
  read_loop (S (16 * length src + 16)) (with_capacity capacity src sched) HDR s = all_events src s.
Proof.
  change (HDR + FALLBACK_DATA_HEADER)%nat with 16%nat. intros Hc.
  destruct (with_capacity_ok capacity src sched) as [Hok Hs]; [lia|].
  transitivity (all_events (stream (with_capacity capacity src sched)) s); [|by rewrite Hs].
  apply read_loop_spec; [done|done|change HDR with 8%nat; lia| |].
  - intros Hl. rewrite all_events_unfold. unfold next_event. by rewrite (proj2 (Nat.ltb_lt _ _) Hl).
  - rewrite Hs. change HDR with 8%nat. lia.
Qed.

(** The reference ends: every event takes at least a header off the bytes. *)
Lemma all_events_ends (src : list Z) (s : St) : exists e s', all_events src s = Some (e, s').
Proof.
  remember (length src) as n eqn:En. revert src s En. induction (lt_wf n) as [n _ IH]; intros src s ->.
  rewrite all_events_unfold. destruct (next_event src s) as [e s'|k s'] eqn:Ev; [by exists e, s'|].
  apply next_event_goes in Ev. change HDR with 8%nat in Ev. apply (IH (length (drop k src))); [rewrite length_drop; lia|done].
Qed.

(** C8. However the kernel cuts the peer's bytes into reads, and whenever it is
    not ready, the read loop returns, with a buffer of at least the sixteen bytes of a
    fallback event's header, and has done with the session exactly what handling the
    whole byte stream one event after the other does: the same handler calls in the
    same order, and the same reason to stop. *)
Theorem read_loop_chunking (capacity : nat) (src : list Z) (sched : list (option nat)) (s : St) :
  (HDR + FALLBACK_DATA_HEADER <= capacity)%nat ->
  exists e s', read_loop (S (16 * length src + 16)) (with_capacity capacity src sched) HDR s = Some (e, s') /\ all_events src s = Some (e, s').
Proof. intros Hc. rewrite read_loop_all by done. destruct (all_events_ends src s) as (e & s' & Es). by exists e, s'. Qed.

(** The calls a message's payloads amount to, up to the first error. *)
Fixpoint deliver (id status : Z) (ps : list (list Z)) (s : St) : St * option E :=
  match ps with
  | [] => (s, None)
  | [p] => on_fallback id status p s
  | p :: ps =>
      match on_fallback id STREAM_OPENED p s with
      | (s, None) => deliver id status ps s
      | r => r
      end
  end.

(** One stamped frame at the front of the bytes to come. *)
Lemma stamped_event (version id status : Z) (f rest : list Z) (s : St) :
  0 <= version <= MAX_SUPPORT_PROTO_VERSION -> 0 <= id < W32 -> 0 <= status < 256 ->
  frame_ok MAX_CONTROL_FRAME_SIZE f ->
  all_events (stamp_frame version id status f ++ rest) s =
  match on_fallback id status (drop (Z.to_nat EVENT_HEADER) f) s with
  | (s', Some e) => Some (ExitErr (Failed e), s')
  | (s', None) => all_events rest s'
  end.
Proof.
  intros Hv Hid Hst [Hf1 Hf2]. change (Z.to_nat EVENT_HEADER) with 16%nat. change EVENT_HEADER with 16 in Hf1.
  assert (Hw : 0 <= Z.of_nat (length f) < W32) by (change MAX_CONTROL_FRAME_SIZE with 268435456 in Hf2; unfold W32; lia).
  unfold stamp_frame. rewrite wrap32_small, fallback_encode_split by done. change (Z.to_nat EVENT_HEADER) with 16%nat.
  set (len := Z.of_nat (length f)) in *. set (tail := drop 16 f).
  assert (Ht : length tail = (length f - 16)%nat) by apply length_drop.
  rewrite <- !app_assoc. set (q := be_bytes 4 id ++ be_bytes 4 status ++ tail ++ rest).
  destruct (hdr_fields len version TYPE_FALLBACK_DATA q Hw) as (E1 & _ & _ & E4).
  rewrite all_events_unfold. unfold next_event.
  assert (Hlb : (length (hdr_encode len version TYPE_FALLBACK_DATA ++ q) <? HDR)%nat = false).
  { apply Nat.ltb_ge. rewrite length_app, hdr_encode_length. change HDR with 8%nat. lia. }
  assert (Hfc : frame_check (hdr_encode len version TYPE_FALLBACK_DATA ++ q) = None).
  { unfold frame_check. rewrite check_encoded by (try done; unfold MIN_EVENT_TYPE, MAX_EVENT_TYPE; vm_compute; split; discriminate).
    rewrite E1, E4. replace (len >? MAX_CONTROL_FRAME_SIZE) with false by (symmetry; lia). cbn [Z.eqb].
    change (HEADER_SIZE + _) with 16. by replace (len <? 16) with false by (symmetry; lia). }
  rewrite Hlb, Hfc, E1, E4. change (TYPE_FALLBACK_DATA =? TYPE_POLLING) with false.
  change (TYPE_FALLBACK_DATA =? TYPE_STREAM_CLOSE) with false. change (TYPE_FALLBACK_DATA =? TYPE_FALLBACK_DATA) with true.
  cbv iota. rewrite (drop_app_exact HDR) by apply hdr_encode_length. unfold q.
  rewrite !length_app, !be_bytes_length, (proj2 (Nat.ltb_ge _ _)) by (change FALLBACK_DATA_HEADER with 8%nat; lia).
  assert (Hd8 : drop FALLBACK_DATA_HEADER (be_bytes 4 id ++ be_bytes 4 status ++ tail ++ rest) = tail ++ rest).
  { rewrite app_assoc. apply drop_app_exact. by rewrite length_app, !be_bytes_length. }
  replace (Z.to_nat (len - HEADER_SIZE - Z.of_nat FALLBACK_DATA_HEADER)) with (length tail)
    by (rewrite Ht; change HEADER_SIZE with 8; change FALLBACK_DATA_HEADER with 8%nat; lia).
  rewrite Hd8, length_app, (proj2 (Nat.ltb_ge _ _)) by lia. rewrite take_app_length.
  rewrite (take_app_exact 4 (be_bytes 4 id)), (drop_app_exact 4 (be_bytes 4 id)), (take_app_exact 4 (be_bytes 4 status))
    by apply be_bytes_length.
  rewrite !be_val_bytes4 by (unfold W32 in *; lia). change 255 with (Z.ones 8). rewrite Z.land_ones, Z.mod_small by lia.
  destruct (on_fallback id status tail s) as [s' [e|]]; cbn [after]; [done|]. f_equal.
  rewrite !app_assoc. apply drop_app_exact. rewrite !length_app, hdr_encode_length, !be_bytes_length. reflexivity.
Qed.

(** A wakeup, and a close, at the front of the bytes to come. *)
Lemma polling_event (version : Z) (rest : list Z) (s : St) :
  0 <= version <= MAX_SUPPORT_PROTO_VERSION ->
  all_events (hdr_encode HEADER_SIZE version TYPE_POLLING ++ rest) s =
  match on_polling s with
  | (s', Some e) => Some (ExitErr (Failed e), s')
  | (s', None) => all_events rest s'
  end.
Proof.
  intros Hv. destruct (hdr_fields HEADER_SIZE version TYPE_POLLING rest ltac:(done)) as (E1 & _ & _ & E4). rewrite all_events_unfold. unfold next_event.
  rewrite (proj2 (Nat.ltb_ge _ _)) by (rewrite length_app, hdr_encode_length; change HDR with 8%nat; lia).
  assert (Hfc : frame_check (hdr_encode HEADER_SIZE version TYPE_POLLING ++ rest) = None).
  { unfold frame_check. rewrite check_encoded by (try done; vm_compute; split; discriminate). by rewrite E1, E4. }
  rewrite Hfc, E4. change (TYPE_POLLING =? TYPE_POLLING) with true. cbv iota. destruct (on_polling s) as [s' [e|]]; cbn [after]; [done|]. f_equal.
Qed.

Lemma close_event (version id : Z) (rest : list Z) (s : St) :
  0 <= version <= MAX_SUPPORT_PROTO_VERSION -> 0 <= id < W32 ->
  all_events (close_encode version id ++ rest) s =
  match on_close id s with
  | (s', Some e) => Some (ExitErr (Failed e), s')
  | (s', None) => all_events rest s'
  end.
Proof.
  intros Hv Hid. rewrite close_encode_split, <- app_assoc. set (q := be_bytes 4 id ++ rest).
  destruct (hdr_fields 12 version TYPE_STREAM_CLOSE q ltac:(done)) as (E1 & _ & _ & E4). rewrite all_events_unfold. unfold next_event.
  rewrite (proj2 (Nat.ltb_ge _ _)) by (rewrite length_app, hdr_encode_length; change HDR with 8%nat; lia).
  assert (Hfc : frame_check (hdr_encode 12 version TYPE_STREAM_CLOSE ++ q) = None).
  { unfold frame_check. rewrite check_encoded by (try done; vm_compute; split; discriminate). by rewrite E1, E4. }
  rewrite Hfc, E4. change (TYPE_STREAM_CLOSE =? TYPE_POLLING) with false. change (TYPE_STREAM_CLOSE =? TYPE_STREAM_CLOSE) with true. cbv iota.
  rewrite (drop_app_exact HDR) by apply hdr_encode_length. unfold q. rewrite (proj2 (Nat.ltb_ge _ _)) by (rewrite length_app, be_bytes_length; change ID_LEN with 4%nat; lia).
  rewrite (take_app_exact ID_LEN (be_bytes 4 id)) by apply be_bytes_length. rewrite be_val_bytes4 by done.
  by destruct (on_close id s) as [s' [e|]].
Qed.

(** C13. A fallback message survives the socket: cut into frames the peer
    accepts, it reaches the fallback handler as payloads that are the message's
    bytes in order, all for its stream, the last one with the sender's status and
    the others as of an open stream; what follows on the socket is handled next. *)
Theorem fallback_over_socket (version id status : Z) (chunks : list (list Z)) (rest : list Z) (s : St) :
  0 <= version <= MAX_SUPPORT_PROTO_VERSION -> 0 <= id < W32 -> 0 <= status < 256 ->
  exists frames, frame_fallback chunks = Some frames /\ Forall (frame_ok MAX_CONTROL_FRAME_SIZE) frames /\
    concat (payloads frames) = concat chunks /\
    all_events (write_fallback_v5 version id status frames ++ rest) s =
      match deliver id status (payloads frames) s with
      | (s', Some e) => Some (ExitErr (Failed e), s')
      | (s', None) => all_events rest s'
      end.
Proof.
  intros Hv Hid Hst. destruct (frame_with_spec MAX_CONTROL_FRAME_SIZE chunks) as (frames & E1 & Hfr & E2); [done|].
  exists frames. split; [done|]. split; [done|]. split; [done|]. clear E1 E2 chunks. revert s.
  induction Hfr as [|f fs Hf Hfs IH]; intros s; [done|]. cbn [write_fallback_v5 payloads fmap list_fmap deliver].
  destruct fs as [|f2 fs].
  - by apply stamped_event.
  - rewrite <- app_assoc, stamped_event by (try done; unfold STREAM_OPENED; lia).
    change (payloads (f2 :: fs)) with (drop (Z.to_nat EVENT_HEADER) f2 :: payloads fs) in IH.
    cbn [fmap list_fmap]. fold (payloads fs).
    destruct (on_fallback id STREAM_OPENED _ s) as [s' [e|]]; [done|]. apply IH.
Qed.

End theorems.

(** *** Two messages and a wakeup, cut arbitrarily, into a log of the calls *)

Definition call_log : Type := list (Z * Z * list Z).

#[local] Instance log_handlers : Handlers call_log unit := {|
  on_polling := fun s => (s ++ [(0, 0, [])], None);
  on_close := fun id s => (s ++ [(id, 1, [])], None);
  on_fallback := fun id status bytes s => (s ++ [(id, status, bytes)], None);
|}.

Definition sample_bytes : list Z :=
  write_fallback_v5 5 9 0 [new_frame ++ [1; 2; 3]; new_frame ++ [4]] ++
  hdr_encode 8 5 TYPE_POLLING ++ close_encode 5 9.

Lemma read_loop_chunking_witness :
  (HDR + FALLBACK_DATA_HEADER <= 16)%nat /\
  read_loop (S (16 * length sample_bytes + 16)) (with_capacity 16 sample_bytes [Some 2; None; Some 9; None; Some 3]%nat)
    HDR ([] : call_log) = Some (ExitIo InvalidData, [(9, 0, [1; 2; 3]); (9, 0, [4]); (0, 0, []); (9, 1, [])]).
Proof.
  split; [vm_compute; lia|]. destruct (read_loop_chunking 16 sample_bytes [Some 2; None; Some 9; None; Some 3]%nat ([] : call_log)) as (e & s' & E1 & E2); [vm_compute; lia|].
  rewrite E1, <- E2. vm_compute. reflexivity.
Defined.

Lemma fallback_over_socket_witness :
  exists frames, frame_fallback [[1; 2]; []; [3]] = Some frames /\ concat (payloads frames) = [1; 2; 3] /\
    all_events (write_fallback_v5 5 9 1 frames ++ close_encode 5 9) ([] : call_log) =
      match deliver 9 1 (payloads frames) ([] : call_log) with
      | (s', Some e) => Some (ExitErr (Failed e), s')
      | (s', None) => all_events (close_encode 5 9) s'
      end.
Proof.
  destruct (fallback_over_socket 5 9 1 [[1; 2]; []; [3]] (close_encode 5 9) ([] : call_log)) as (frames & E1 & _ & E2 & E3).
  - vm_compute. split; discriminate.
  - vm_compute. split; [discriminate|reflexivity].
  - vm_compute. split; [discriminate|reflexivity].
  - exists frames. split; [exact E1|]. split; [exact E2|exact E3].
Defined.
