(* ===== verification/Writer.v ===== *)
(** * The writing half of the socket

    [Session::wait_for_send], [try_write_wakeup], [wake_up_peer], [write_loop]
    and [exit_err] of [src/src/session/mod.rs].  Senders hand whole frames to one
    task, the write loop, over a bounded channel; a wakeup is first tried on the
    socket directly, under the lock the loop holds while it writes a frame.  The
    socket may take any part of what it is offered, so a direct write can leave a
    tail, the carry, which the loop writes ahead of its next frame.

    Every await point of these functions is a step.  How a poll of the socket
    turns out, who finds the lock taken and which sender goes first is a choice.
    The channel is the runtime's: what is relied on is stated as a class.  The
    lock is held exactly at the program points of the loop between [lock] and
    [drop(writer)]; elsewhere it is held only within one step. *)

From Stdlib Require Import ZArith Lia.
From stdpp Require Import base numbers list relations.
From S2P Require Import Prelude Bytes Protocol BufReader Socket SocketTheorems.

#[local] Open Scope nat_scope.

(** ** The channel *)

(** A bounded channel with one receiver: what is in it, oldest first; [None] of
    [ch_send] says that it is full. *)
Class Channel (A C : Type) : Type := {
  ch_items : C -> list A;
  ch_new : C;
  ch_send : A -> C -> option C;
  ch_recv : C -> option (A * C);
  ch_new_items : ch_items ch_new = [];
  ch_send_items x c c' : ch_send x c = Some c' -> ch_items c' = ch_items c ++ [x];
  ch_recv_some x c c' : ch_recv c = Some (x, c') -> ch_items c = x :: ch_items c';
  ch_recv_none c : ch_recv c = None -> ch_items c = [];
}.

(** A list of at most [cap] entries is one. *)
#[refine] Instance list_channel {A : Type} (cap : nat) : Channel A (list A) := {|
  ch_items c := c;
  ch_new := [];
  ch_send x c := if length c <? cap then Some (c ++ [x]) else None;
  ch_recv c := match c with [] => None | x :: c => Some (x, c) end;
|}.
Proof.
  - done.
  - intros x c c'. case_match; [|done]. by intros [= <-].
  - intros x [|y c] c' H; by simplify_eq.
  - by intros [|y c].
Defined.

(** ** State *)

(** [sr_tx]: who waits for the answer. *)
Record SendReady : Type := mkReady {
  sr_hdr : option (list Z);
  sr_body : list Z;
  sr_tx : option nat;
}.

Definition frame (r : SendReady) : list Z := default [] (sr_hdr r) ++ sr_body r.

(** What one [poll_write] says. *)
Inductive Polled : Type :=
| Accepted (n : nat)
| Failed
| NoRoom.

(** How a session wakes its peer: not at all, through an eventfd, or by a frame on
    the socket. *)
Inductive WakeBy : Type :=
| ByPolling
| ByEventFd
| BySocket.

(** Where the write loop is: not yet polled, in its select, waiting for the lock,
    writing the carry, the header, the body, past an error, past the loop, past
    [take], done. *)
Inductive LoopPc : Type :=
| LStart
| LRecv
| LLock (r : SendReady)
| LCarry (rest : list Z) (r : SendReady)
| LHdr (rest : list Z) (r : SendReady)
| LBody (rest : list Z) (r : SendReady)
| LExitErr
| LTake
| LDrop
| LEnded.

Definition holds (pc : LoopPc) : bool :=
  match pc with LCarry _ _ | LHdr _ _ | LBody _ _ => true | _ => false end.

Section writer.
Context {Ch : Type} `{Channel SendReady Ch}.
(** The session's way to wake its peer, and the frame of a wakeup. *)
Context (by_ : WakeBy) (event : list Z).

(** [cn_writer] is the shared [ConnWriter] with its carry; [cn_parked] are the
    senders that wait for room in the channel; [cn_answers] what waiters got back
    and [cn_hung] those who wait on a reply nobody can send any more.  The last
    four fields record what happened: the frames begun, with whether the loop or a
    direct write did it, what the channel took, the wakeups that got past the socket,
    and whether the loop has broken off inside a frame. *)
Record Conn : Type := mkConn {
  cn_writer : option (list Z);
  cn_wire : list Z;
  cn_chan : Ch;
  cn_open : bool;
  cn_pc : LoopPc;
  cn_shutdown : bool;
  cn_notified : bool;
  cn_next : nat;
  cn_parked : list SendReady;
  cn_answers : list (nat * bool);
  cn_late : list nat;
  cn_hung : list nat;
  cn_signals : nat;
  cn_log : list (bool * list Z);
  cn_taken : list SendReady;
  cn_wakes : nat;
  cn_failed : bool;
}.

Definition conn_new : Conn :=
  mkConn (Some []) [] ch_new true LStart false false 0 [] [] [] [] 0 [] [] 0 false.

(** ** Updates *)

Definition at_pc (pc : LoopPc) (c : Conn) : Conn :=
  let '(mkConn w b ch o _ sh nt nx pk an la hu sg lg tk wk fl) := c in mkConn w b ch o pc sh nt nx pk an la hu sg lg tk wk fl.
Definition with_writer (w : option (list Z)) (c : Conn) : Conn :=
  let '(mkConn _ b ch o pc sh nt nx pk an la hu sg lg tk wk fl) := c in mkConn w b ch o pc sh nt nx pk an la hu sg lg tk wk fl.
Definition put_wire (bytes : list Z) (c : Conn) : Conn :=
  let '(mkConn w b ch o pc sh nt nx pk an la hu sg lg tk wk fl) := c in mkConn w (b ++ bytes) ch o pc sh nt nx pk an la hu sg lg tk wk fl.
Definition with_chan (ch : Ch) (c : Conn) : Conn :=
  let '(mkConn w b _ o pc sh nt nx pk an la hu sg lg tk wk fl) := c in mkConn w b ch o pc sh nt nx pk an la hu sg lg tk wk fl.
Definition with_parked (pk : list SendReady) (c : Conn) : Conn :=
  let '(mkConn w b ch o pc sh nt nx _ an la hu sg lg tk wk fl) := c in mkConn w b ch o pc sh nt nx pk an la hu sg lg tk wk fl.
Definition begin_frame (looped : bool) (f : list Z) (c : Conn) : Conn :=
  let '(mkConn w b ch o pc sh nt nx pk an la hu sg lg tk wk fl) := c in mkConn w b ch o pc sh nt nx pk an la hu sg (lg ++ [(looped, f)]) tk wk fl.
Definition fail (c : Conn) : Conn :=
  let '(mkConn w b ch o pc sh nt nx pk an la hu sg lg tk wk _) := c in mkConn w b ch o pc sh nt nx pk an la hu sg lg tk wk true.
Definition signal (c : Conn) : Conn :=
  let '(mkConn w b ch o pc sh nt nx pk an la hu sg lg tk wk fl) := c in mkConn w b ch o pc sh nt nx pk an la hu (S sg) lg tk wk fl.
Definition count_wake (c : Conn) : Conn :=
  let '(mkConn w b ch o pc sh nt nx pk an la hu sg lg tk wk fl) := c in mkConn w b ch o pc sh nt nx pk an la hu sg lg tk (S wk) fl.

(** A reply: [tx.send(())], or the sender dropped. *)
Definition reply (ok : bool) (r : SendReady) (c : Conn) : Conn :=
  let '(mkConn w b ch o pc sh nt nx pk an la hu sg lg tk wk fl) := c in
  mkConn w b ch o pc sh nt nx pk (an ++ match sr_tx r with Some i => [(i, ok)] | None => [] end) la hu sg lg tk wk fl.

(** [Session::close] as the loop sees it: the first one notifies the waiters there
    are; a loop that has not run yet is not among them. *)
Definition shut (c : Conn) : Conn :=
  let '(mkConn w b ch o pc sh nt nx pk an la hu sg lg tk wk fl) := c in
  mkConn w b ch o pc true (nt || (negb sh && match pc with LStart => false | _ => true end)) nx pk an la hu sg lg tk wk fl.

Definition exit_err (c : Conn) : Conn := shut c.

(** ** Sending *)

(** [wait_for_send] up to its [send]. *)
Definition wait_for_send (hdr : option (list Z)) (body : list Z) (c : Conn) : Conn :=
  let '(mkConn w b ch o pc sh nt nx pk an la hu sg lg tk wk fl) := c in
  mkConn w b ch o pc sh nt (S nx) (pk ++ [mkReady hdr body (Some nx)]) an la hu sg lg tk wk fl.

(** A parked [send]: into the channel when there is room.  A channel without its
    receiver refuses; [wait_for_send] then keeps the refused item, reply sender
    and all, in the scrutinee of its match while it waits for the reply. *)
Definition enter (i : nat) (c : Conn) : option Conn :=
  r ← cn_parked c !! i;
  let rest := delete i (cn_parked c) in
  if cn_open c then
    ch ← ch_send r (cn_chan c);
    let '(mkConn w b _ o pc sh nt nx _ an la hu sg lg tk wk fl) := c in
    Some (mkConn w b ch o pc sh nt nx rest an la hu sg lg (tk ++ [r]) wk fl)
  else
    let '(mkConn w b ch o pc sh nt nx _ an la hu sg lg tk wk fl) := c in
    Some (mkConn w b ch o pc sh nt nx rest an la (hu ++ option_list (sr_tx r)) sg lg tk wk fl).

(** [connection_write_timeout] runs out in [wait_for_send]; a wakeup has no
    timeout. *)
Definition time_out (i : nat) (c : Conn) : option Conn :=
  r ← cn_parked c !! i;
  k ← sr_tx r;
  let '(mkConn w b ch o pc sh nt nx pk an la hu sg lg tk wk fl) := c in
  Some (mkConn w b ch o pc sh nt nx (delete i pk) an (la ++ [k]) hu sg lg tk wk fl).

(** [try_write_wakeup]: what it returns ([None] for an error), what is left of the
    event, the state. *)
Definition try_write_wakeup (contended : bool) (p : Polled) (c : Conn) : option bool * list Z * Conn :=
  if contended || holds (cn_pc c) then (Some false, event, c)
  else
    match cn_writer c with
    | None => (Some false, event, c)
    | Some (_ :: _) => (Some false, event, c)
    | Some [] =>
        match p with
        | Accepted n =>
            let c := put_wire (take n event) (begin_frame false event c) in
            if n =? length event then (Some true, event, c)
            else (Some false, [], with_writer (Some (drop n event)) c)
        | Failed => (None, event, c)
        | NoRoom => (Some false, event, c)
        end
    end.

(** [wake_up_peer], given whether it claimed the peer's consumer and how the write of
    the eventfd or the poll of the socket turns out. *)
Definition wake_up_peer (claimed contended : bool) (p : Polled) (c : Conn) : Conn :=
  match by_ with
  | ByPolling => c
  | ByEventFd => if negb claimed then c else match p with Failed => c | _ => signal c end
  | BySocket =>
      if negb claimed then c
      else
        match try_write_wakeup contended p c with
        | (Some true, _, c) => count_wake c
        | (Some false, rest, c) => count_wake (with_parked (cn_parked c ++ [mkReady None rest None]) c)
        | (None, _, c) => exit_err c
        end
  end.

(** ** The write loop *)

(** An error inside a frame: the lock and the reply sender are dropped, then the
    session exits. *)
Definition loop_error (r : SendReady) (c : Conn) : Conn := at_pc LExitErr (reply false r (fail c)).

(** One poll of a [write_all] that still has [rest] to write. *)
Definition write_all (rest : list Z) (r : SendReady) (p : Polled) (k : list Z -> LoopPc) (c : Conn) : option Conn :=
  match p with
  | Accepted 0 => Some (loop_error r c)
  | Accepted n => Some (at_pc (k (drop n rest)) (put_wire (take n rest) c))
  | Failed => Some (loop_error r c)
  | NoRoom => None
  end.

Definition loop_step (p : Polled) (c : Conn) : option Conn :=
  match cn_pc c with
  | LStart => Some (at_pc LRecv c)
  | LRecv =>
      match ch_recv (cn_chan c) with
      | Some (r, ch) => Some (at_pc (LLock r) (with_chan ch c))
      | None => if cn_notified c then Some (at_pc LTake c) else None
      end
  | LLock r =>
      match cn_writer c with
      | None => Some (at_pc LTake (reply false r c))
      | Some carry => Some (at_pc (LCarry carry r) (with_writer (Some []) c))
      end
  | LCarry [] r =>
      let c := begin_frame true (frame r) c in
      Some (at_pc (match sr_hdr r with Some h => LHdr h r | None => LBody (sr_body r) r end) c)
  | LCarry rest r => write_all rest r p (fun rest => LCarry rest r) c
  | LHdr [] r => Some (at_pc (LBody (sr_body r) r) c)
  | LHdr rest r => write_all rest r p (fun rest => LHdr rest r) c
  | LBody [] r => Some (at_pc LRecv (reply true r c))
  | LBody rest r => write_all rest r p (fun rest => LBody rest r) c
  | LExitErr => Some (at_pc LTake (exit_err c))
  | LTake => Some (at_pc LDrop (with_writer None c))
  | LDrop =>
      let c := foldl (fun c r => reply false r c) c (ch_items (cn_chan c)) in
      let '(mkConn w b _ _ _ sh nt nx pk an la hu sg lg tk wk fl) := c in
      Some (mkConn w b ch_new false LEnded sh nt nx pk an la hu sg lg tk wk fl)
  | LEnded => None
  end.

(** ** Executions *)

Inductive choice : Type :=
| CSend (hdr : option (list Z)) (body : list Z)
| CEnter (i : nat)
| CTimeout (i : nat)
| CWake (claimed contended : bool) (p : Polled)
| CLoop (p : Polled)
| CShut.

Definition do_step (ch : choice) (c : Conn) : option Conn :=
  match ch with
  | CSend hdr body => Some (wait_for_send hdr body c)
  | CEnter i => enter i c
  | CTimeout i => time_out i c
  | CWake claimed contended p => Some (wake_up_peer claimed contended p c)
  | CLoop p => loop_step p c
  | CShut => Some (shut c)
  end.

Definition conn_step (c c' : Conn) : Prop := exists ch, do_step ch c = Some c'.

Fixpoint run (l : list choice) (c : Conn) : option Conn :=
  match l with
  | [] => Some c
  | ch :: l => c ← do_step ch c; run l c
  end.

Lemma run_rtc (l : list choice) (c c' : Conn) : run l c = Some c' -> rtc conn_step c c'.
Proof.
  revert c. induction l as [|ch l IH]; intros c Hr; cbn in Hr; [by injection Hr as ->|].
  destruct (do_step ch c) as [c1|] eqn:E; [|done]. apply (rtc_l _ _ c1); [by exists ch|by apply IH].
Qed.

Definition reachable (c : Conn) : Prop := rtc conn_step conn_new c.

(** ** The invariant *)

Definition frames (log : list (bool * list Z)) : list (list Z) := snd <$> log.
Definition loop_frames (log : list (bool * list Z)) : list (list Z) := omap (fun bf : bool * list Z => if fst bf then Some (snd bf) else None) log.
Definition direct_frames (log : list (bool * list Z)) : list (list Z) := omap (fun bf : bool * list Z => if fst bf then None else Some (snd bf)) log.

(** Begun, and not yet on the wire. *)
Definition todo (c : Conn) : list Z :=
  match cn_pc c with
  | LCarry rest _ => rest
  | LHdr rest r => rest ++ sr_body r
  | LBody rest _ => rest
  | _ => default [] (cn_writer c)
  end.

(** Out of the channel and not begun, and out of the channel and not answered. *)
Definition unbegun (pc : LoopPc) : list SendReady := match pc with LLock r | LCarry _ r => [r] | _ => [] end.
Definition in_hand (pc : LoopPc) : list SendReady := match pc with LLock r | LCarry _ r | LHdr _ r | LBody _ r => [r] | _ => [] end.

Definition over (pc : LoopPc) : bool := match pc with LExitErr | LTake | LDrop | LEnded => true | _ => false end.
Definition gone (pc : LoopPc) : bool := match pc with LDrop | LEnded => true | _ => false end.

Definition is_wake (r : SendReady) : bool := match sr_tx r, sr_body r with None, _ :: _ => true | _, _ => false end.
Definition wake_items (l : list SendReady) : nat := length (List.filter is_wake l).

Definition txs (l : list SendReady) : list nat := omap sr_tx l.

Definition waiting (c : Conn) : list nat := txs (cn_parked c ++ in_hand (cn_pc c) ++ ch_items (cn_chan c)).

(** The frame of [i] is on the wire, behind those begun before it. *)
Definition written (c : Conn) (i : nat) : Prop :=
  exists l r l', cn_log c = l ++ (true, frame r) :: l' /\ r ∈ cn_taken c /\ sr_tx r = Some i /\
    concat (frames l) ++ frame r `prefix_of` cn_wire c.

Record cinv (c : Conn) : Prop := {
  ci_bytes : cn_failed c = false -> exists rest, concat (frames (cn_log c)) = cn_wire c ++ rest /\ (gone (cn_pc c) = false -> rest = todo c);
  ci_held : holds (cn_pc c) = true -> cn_writer c = Some [];
  ci_gone : cn_writer c = None <-> gone (cn_pc c) = true;
  ci_last : match cn_pc c with LHdr _ r | LBody _ r => exists l, cn_log c = l ++ [(true, frame r)] | _ => True end;
  ci_fail : cn_failed c = true -> over (cn_pc c) = true;
  ci_open : cn_open c = false <-> cn_pc c = LEnded;
  ci_order : exists rest, loop_frames (cn_log c) ++ rest = frame <$> cn_taken c /\
    (cn_failed c = false -> cn_open c = true -> rest = frame <$> (unbegun (cn_pc c) ++ ch_items (cn_chan c)));
  ci_hand : Forall (fun r : SendReady => r ∈ cn_taken c) (in_hand (cn_pc c) ++ ch_items (cn_chan c));
  ci_answers : forall i, (i, true) ∈ cn_answers c -> written c i;
  ci_ids : seq 0 (cn_next c) ≡ₚ (cn_answers c).*1 ++ cn_late c ++ cn_hung c ++ waiting c;
  ci_wakes : cn_open c = true -> cn_wakes c = length (direct_frames (cn_log c)) + wake_items (cn_parked c ++ cn_taken c);
  ci_drained : cn_open c = false -> ch_items (cn_chan c) = [];
  ci_tail : todo c `suffix_of` default [] (last (frames (cn_log c)));
  ci_direct : Forall (fun f => f = event) (direct_frames (cn_log c));
}.

Lemma txs_app (a b : list SendReady) : txs (a ++ b) = txs a ++ txs b.
Proof. apply omap_app. Qed.

#[local] Instance txs_perm : Proper (Permutation ==> Permutation) txs.
Proof. intros a b E. unfold txs. induction E; cbn; repeat case_match; cbn; solve [done|by constructor|by etransitivity|by f_equiv]. Qed.

Lemma cinv_new : cinv conn_new.
Proof.
  split; cbn; rewrite ?ch_new_items; try done.
  - intros _. by exists [].
  - by exists [].
  - by intros i ?%not_elem_of_nil.
Qed.

#[local] Arguments wake_items : simpl never.
#[local] Arguments frames : simpl never.
#[local] Arguments loop_frames : simpl never.
#[local] Arguments direct_frames : simpl never.

Ltac open_conn c := destruct c; unfold waiting, written, todo in *; cbn -[seq] in *.

Lemma cinv_send (hdr : option (list Z)) (body : list Z) (c : Conn) : cinv c -> cinv (wait_for_send hdr body c).
Proof.
  intros [A1 A2 A3 A4 A5 A6 A7 A8 A9 A10 A11 A13 A12 A14]. open_conn c. split; try done; unfold waiting; cbn -[seq].
  - rewrite seq_S, A10. cbn. rewrite !txs_app. cbn. solve_Permutation.
  - intros Ho. rewrite (A11 Ho). unfold wake_items. rewrite !List.filter_app, !length_app. cbn. lia.
Qed.

Lemma cinv_shut (c : Conn) : cinv c -> cinv (shut c).
Proof. intros [A1 A2 A3 A4 A5 A6 A7 A8 A9 A10 A11 A13 A12 A14]. open_conn c. by split. Qed.

Lemma parked_split (l : list SendReady) (i : nat) (r : SendReady) : l !! i = Some r -> l ≡ₚ r :: delete i l.
Proof. apply delete_Permutation. Qed.

Lemma wake_items_perm (a b : list SendReady) : a ≡ₚ b -> wake_items a = wake_items b.
Proof. intros E. unfold wake_items. induction E; cbn; repeat case_match; cbn; congruence. Qed.

Lemma cinv_enter (i : nat) (c c' : Conn) : cinv c -> enter i c = Some c' -> cinv c'.
Proof.
  intros [A1 A2 A3 A4 A5 A6 A7 A8 A9 A10 A11 A13 A12 A14] E. unfold enter in E. open_conn c.
  destruct (cn_parked0 !! i) as [r|] eqn:Er; [|done]. cbn in E. pose proof (parked_split _ _ _ Er) as Hp. destruct cn_open0.
  - destruct (ch_send r cn_chan0) as [ch|] eqn:Es; [|done]. cbn in E. injection E as <-. apply ch_send_items in Es.
    split; try done; unfold waiting, written; cbn -[seq]; rewrite ?Es.
    + destruct A7 as (rest & E1 & E2). exists (rest ++ [frame r]). split; [by rewrite app_assoc, E1, fmap_app|].
      intros Hf Ho. by rewrite (E2 Hf Ho), app_assoc, (fmap_app _ _ [r]).
    + rewrite app_assoc. apply Forall_app. split; [eapply Forall_impl; [done|]; cbn; set_solver|repeat constructor; set_solver].
    + intros j Hj. destruct (A9 j Hj) as (l & r' & l' & E1 & E2 & E3). exists l, r', l'. split; [done|]. split; [set_solver|done].
    + rewrite A10, !txs_app, (txs_perm _ _ Hp). cbn. destruct (sr_tx r); solve_Permutation.
    + intros _. rewrite (A11 eq_refl). f_equal. apply wake_items_perm. rewrite (Permutation_app_tail cn_taken0 Hp). solve_Permutation.
  - injection E as <-. split; try done; unfold waiting, written; cbn -[seq].
    rewrite A10, !txs_app, (txs_perm _ _ Hp). cbn. destruct (sr_tx r); cbn; solve_Permutation.
Qed.

Lemma cinv_timeout (i : nat) (c c' : Conn) : cinv c -> time_out i c = Some c' -> cinv c'.
Proof.
  intros [A1 A2 A3 A4 A5 A6 A7 A8 A9 A10 A11 A13 A12 A14] E. unfold time_out in E. open_conn c.
  destruct (cn_parked0 !! i) as [r|] eqn:Er; [|done]. cbn in E. pose proof (parked_split _ _ _ Er) as Hp.
  destruct (sr_tx r) as [k|] eqn:Ek; [|done]. cbn in E. injection E as <-. split; try done; unfold waiting, written; cbn -[seq].
  - rewrite A10, !txs_app, (txs_perm _ _ Hp). cbn. rewrite Ek. solve_Permutation.
  - intros Ho. rewrite (A11 Ho), (wake_items_perm (cn_parked0 ++ cn_taken0) (r :: delete i cn_parked0 ++ cn_taken0)) by (by rewrite (Permutation_app_tail cn_taken0 Hp)).
    unfold wake_items, is_wake. cbn. by rewrite Ek.
Qed.

Lemma frames_snoc (l : list (bool * list Z)) (b : bool) (f : list Z) : concat (frames (l ++ [(b, f)])) = concat (frames l) ++ f.
Proof. unfold frames. rewrite fmap_app, concat_app. cbn. by rewrite app_nil_r. Qed.

Lemma direct_snoc (l : list (bool * list Z)) (f : list Z) : direct_frames (l ++ [(false, f)]) = direct_frames l ++ [f].
Proof. unfold direct_frames. by rewrite omap_app. Qed.

Lemma frames_last (l : list (bool * list Z)) (b : bool) (f : list Z) : default [] (last (frames (l ++ [(b, f)]))) = f.
Proof. unfold frames. rewrite fmap_app. cbn. by rewrite last_snoc. Qed.

Lemma suffix_drop {A} (n : nat) (l : list A) : drop n l `suffix_of` l.
Proof. exists (take n l). by rewrite take_drop. Qed.

(** Writing and beginning frames leaves what is on the wire. *)
Lemma written_grow (c c' : Conn) (l : list (bool * list Z)) (b : list Z) (i : nat) :
  cn_log c' = cn_log c ++ l -> cn_wire c' = cn_wire c ++ b -> cn_taken c' = cn_taken c -> written c i -> written c' i.
Proof.
  intros E1 E2 E3 (l1 & r & l2 & F1 & F2 & F3 & F4). exists l1, r, (l2 ++ l). rewrite E1, E2, E3, F1, <- app_assoc.
  split; [done|]. split; [done|]. split; [done|]. by apply prefix_app_r.
Qed.

Lemma cinv_wake (claimed contended : bool) (p : Polled) (c : Conn) :
  event <> [] -> cinv c -> cinv (wake_up_peer claimed contended p c).
Proof.
  intros Hev Hinv. unfold wake_up_peer. destruct by_; [done|destruct claimed; [|done]|].
  { cbn [negb]. assert (Hs : cinv (signal c)); [|by destruct p]. destruct Hinv as [A1 A2 A3 A4 A5 A6 A7 A8 A9 A10 A11 A13 A12 A14]. open_conn c. by split. }
  destruct claimed; [|done]. cbn [negb].
  assert (Hpark : cinv (count_wake (with_parked (cn_parked c ++ [mkReady None event None]) c))).
  { destruct Hinv as [A1 A2 A3 A4 A5 A6 A7 A8 A9 A10 A11 A13 A12 A14]. open_conn c. split; try done; unfold waiting; cbn -[seq].
    - rewrite A10, !txs_app. cbn. by rewrite app_nil_r.
    - intros Ho. rewrite (A11 Ho). unfold wake_items. rewrite !List.filter_app, !length_app. cbn. destruct event; [done|]. cbn. lia. }
  unfold try_write_wakeup. destruct (contended || holds (cn_pc c)) eqn:Eh; [done|].
  apply orb_false_iff in Eh as [_ Eh]. destruct (cn_writer c) as [[|x l]|] eqn:Ew; [|done..].
  destruct p as [n| |]; [|by apply cinv_shut|done].
  assert (Htd : todo c = []) by (unfold todo; destruct (cn_pc c); try done; by rewrite Ew).
  assert (Hg : gone (cn_pc c) = false) by (destruct (gone (cn_pc c)) eqn:E; [|done]; apply (ci_gone _ Hinv) in E; congruence).
  assert (Hgr : forall c' i, cn_log c' = cn_log c ++ [(false, event)] -> cn_wire c' = cn_wire c ++ take n event -> cn_taken c' = cn_taken c -> (i, true) ∈ cn_answers c -> written c' i).
  { intros c' i E1 E2 E3 Hi. eapply written_grow; [done..|]. by apply (ci_answers _ Hinv). }
  destruct Hinv as [A1 A2 A3 A4 A5 A6 A7 A8 A9 A10 A11 A13 A12 A14].
  destruct (Nat.eqb_spec n (length event)) as [->|Hne].
  - open_conn c. split; try done; unfold waiting; cbn -[seq].
    + intros Hf. destruct (A1 Hf) as (rest & E1 & E2). rewrite (E2 Hg), Htd, app_nil_r in E1. exists []. rewrite frames_snoc, E1, take_ge, app_nil_r by lia. split; [done|].
      intros _. symmetry. done.
    + destruct cn_pc0; try done.
    + unfold loop_frames. rewrite omap_app. cbn. by rewrite app_nil_r.
    + intros i Hi. by apply Hgr.
    + intros Ho. rewrite (A11 Ho). unfold direct_frames. rewrite omap_app, length_app. cbn. lia.
    + unfold todo. cbn. rewrite Htd. apply suffix_nil.
    + rewrite direct_snoc. by apply Forall_app_2; [|constructor].
  - open_conn c. split; try done; unfold waiting; cbn -[seq].
    + intros Hf. destruct (A1 Hf) as (rest & E1 & E2). rewrite (E2 Hg), Htd, app_nil_r in E1. exists (drop n event). rewrite frames_snoc, E1, <- app_assoc, take_drop. split; [done|].
      intros _. by destruct cn_pc0.
    + by rewrite Eh.
    + split; [done|]. intros E. congruence.
    + destruct cn_pc0; try done.
    + unfold loop_frames. rewrite omap_app. cbn. by rewrite app_nil_r.
    + intros i Hi. by apply Hgr.
    + rewrite A10, !txs_app. cbn. by rewrite app_nil_r.
    + intros Ho. rewrite (A11 Ho). unfold direct_frames, wake_items. rewrite omap_app, !List.filter_app, !length_app. cbn. lia.
    + rewrite frames_last. unfold todo. cbn. destruct cn_pc0; try done; apply suffix_drop.
    + rewrite direct_snoc. by apply Forall_app_2; [|constructor].
Qed.

(** Answers other than success promise nothing. *)
Lemma answers_snoc (r : SendReady) (l : list (nat * bool)) (P : nat -> Prop) :
  (forall i, (i, true) ∈ l -> P i) -> forall i, (i, true) ∈ l ++ match sr_tx r with Some k => [(k, false)] | None => [] end -> P i.
Proof. intros HP i [Hi|Hi]%elem_of_app; [by apply HP|]. destruct (sr_tx r); set_solver. Qed.

Lemma ids_snoc (ok : bool) (r : SendReady) (l : list (nat * bool)) :
  (l ++ match sr_tx r with Some k => [(k, ok)] | None => [] end).*1 = l.*1 ++ txs [r].
Proof. rewrite fmap_app. cbn. by destruct (sr_tx r). Qed.

Lemma cinv_error (r : SendReady) (c : Conn) : cinv c -> holds (cn_pc c) = true -> in_hand (cn_pc c) = [r] -> cinv (loop_error r c).
Proof.
  intros [A1 A2 A3 A4 A5 A6 A7 A8 A9 A10 A11 A13 A12 A14] Hh Hr. open_conn c. split; try done; unfold waiting, written; cbn -[seq].
  - split; [intros E; by rewrite (A2 Hh) in E|done].
  - split; [intros E; apply A6 in E; by subst|done].
  - destruct A7 as (rest & E & _). by exists rest.
  - rewrite Hr in A8. by apply Forall_app in A8 as [_ ?].
  - by apply answers_snoc.
  - rewrite ids_snoc, A10, Hr, !txs_app. solve_Permutation.
  - rewrite (A2 Hh). apply suffix_nil.
Qed.

(** Bytes of the frame in progress reach the wire. *)
Lemma cinv_progress (rest : list Z) (pc : LoopPc) (c : Conn) :
  cinv c -> holds (cn_pc c) = true -> holds pc = true -> in_hand (cn_pc c) = in_hand pc -> unbegun (cn_pc c) = unbegun pc ->
  match cn_pc c, pc with LCarry _ _, LCarry _ _ | LHdr _ _, LHdr _ _ | LBody _ _, LBody _ _ => True | _, _ => False end ->
  todo c = rest ++ todo (at_pc pc c) -> cinv (at_pc pc (put_wire rest c)).
Proof.
  intros Hinv Hh Hh' Hi Hu Hk Ht. assert (Hgr : forall i, (i, true) ∈ cn_answers c -> written (at_pc pc (put_wire rest c)) i).
  { intros i Hin. apply (written_grow c _ [] rest); [by destruct c; cbn; rewrite app_nil_r|by destruct c..|]. by apply (ci_answers _ Hinv). }
  destruct Hinv as [A1 A2 A3 A4 A5 A6 A7 A8 A9 A10 A11 A13 A12 A14]. assert (Hg : gone (cn_pc c) = false) by (by destruct (cn_pc c)).
  open_conn c. split; try done; unfold waiting; cbn -[seq].
  - intros Hf. destruct (A1 Hf) as (todo' & E1 & E2). rewrite (E2 Hg), Ht in E1. eexists. split; [rewrite E1; by rewrite app_assoc|done].
  - intros _. by apply A2.
  - rewrite (A2 Hh). split; [done|]. by destruct pc.
  - destruct cn_pc0, pc; try done; by simplify_eq/=.
  - intros Hf. specialize (A5 Hf). by destruct cn_pc0.
  - split; [intros E; apply A6 in E; by subst|]. intros ->. done.
  - by rewrite <- Hu.
  - by rewrite <- Hi.
  - by rewrite <- Hi.
  - etransitivity; [|exact A12]. unfold todo. rewrite Ht. by exists rest.
Qed.

Lemma cinv_write_all (rest : list Z) (r : SendReady) (p : Polled) (k : list Z -> LoopPc) (c c' : Conn) :
  cinv c -> cn_pc c = k rest -> (k = (fun rest => LCarry rest r) \/ k = (fun rest => LHdr rest r) \/ k = (fun rest => LBody rest r)) ->
  write_all rest r p k c = Some c' -> cinv c'.
Proof.
  intros Hinv Hpc Hk Hs. assert (Herr : cinv (loop_error r c)) by (apply cinv_error; [done|rewrite Hpc; by destruct Hk as [->|[->| ->]]..]).
  destruct p as [[|n]| |]; cbn [write_all] in Hs; try done; injection Hs as <-; try done.
  apply cinv_progress; rewrite ?Hpc; [done|destruct Hk as [->|[->| ->]]; try done..].
  all: unfold todo; rewrite Hpc; destruct c; cbn; rewrite ?app_assoc, take_drop; done.
Qed.

(** Moving on without an effect. *)
Lemma cinv_move (pc : LoopPc) (c : Conn) :
  cinv c -> todo (at_pc pc c) = todo c -> gone (cn_pc c) = false -> gone pc = false -> implb (holds pc) (holds (cn_pc c)) = true ->
  implb (over (cn_pc c)) (over pc) = true -> in_hand pc = in_hand (cn_pc c) -> unbegun pc = unbegun (cn_pc c) ->
  match pc with LHdr _ r | LBody _ r => exists l, cn_log c = l ++ [(true, frame r)] | _ => True end -> cinv (at_pc pc c).
Proof.
  intros [A1 A2 A3 A4 A5 A6 A7 A8 A9 A10 A11 A13 A12 A14] Ht Hg Hg' Hh Ho Hi Hu Hl. open_conn c. split; try done; unfold waiting; cbn -[seq].
  - intros Hf. destruct (A1 Hf) as (rest & E1 & E2). exists rest. split; [done|]. intros _. rewrite (E2 Hg). symmetry. exact Ht.
  - intros E. rewrite E in Hh. by apply A2.
  - rewrite A3, Hg, Hg'. done.
  - intros E. rewrite (A5 E) in Ho. done.
  - split; [intros E; apply A6 in E; by subst|by intros ->].
  - by rewrite Hu.
  - by rewrite Hi.
  - by rewrite Hi.
  - unfold todo. cbn. by rewrite Ht.
Qed.

Lemma cinv_recv (r : SendReady) (ch : Ch) (c : Conn) :
  cinv c -> cn_pc c = LRecv -> ch_recv (cn_chan c) = Some (r, ch) -> cinv (at_pc (LLock r) (with_chan ch c)).
Proof.
  intros [A1 A2 A3 A4 A5 A6 A7 A8 A9 A10 A11 A13 A12 A14] Epc Hr. apply ch_recv_some in Hr. open_conn c. subst. rewrite Hr in *. split; try done; cbn; [split; [intros E; by apply A6 in E|done]|intros E; by apply A6 in E].
Qed.

Lemma cinv_lock (r : SendReady) (carry : list Z) (c : Conn) :
  cinv c -> cn_pc c = LLock r -> cn_writer c = Some carry -> cinv (at_pc (LCarry carry r) (with_writer (Some []) c)).
Proof. intros [A1 A2 A3 A4 A5 A6 A7 A8 A9 A10 A11 A13 A12 A14] Epc Hr. open_conn c. subst. split; try done; cbn. split; [intros E; by apply A6 in E|done]. Qed.

Lemma cinv_begin (r : SendReady) (c : Conn) :
  cinv c -> cn_pc c = LCarry [] r ->
  cinv (at_pc (match sr_hdr r with Some h => LHdr h r | None => LBody (sr_body r) r end) (begin_frame true (frame r) c)).
Proof.
  intros Hinv Epc. assert (Hgr : forall c' i, cn_log c' = cn_log c ++ [(true, frame r)] -> cn_wire c' = cn_wire c -> cn_taken c' = cn_taken c -> (i, true) ∈ cn_answers c -> written c' i).
  { intros c' i E1 E2 E3 Hi. apply (written_grow c c' [(true, frame r)] []); [done|by rewrite app_nil_r|done|]. by apply (ci_answers _ Hinv). }
  destruct Hinv as [A1 A2 A3 A4 A5 A6 A7 A8 A9 A10 A11 A13 A12 A14]. open_conn c. subst. set (pc := match sr_hdr r with Some h => LHdr h r | None => _ end).
  assert (Hpc : holds pc = true /\ gone pc = false /\ over pc = false /\ in_hand pc = [r] /\ unbegun pc = [] /\ pc <> LEnded) by (subst pc; by destruct (sr_hdr r)).
  destruct Hpc as (P1 & P2 & P3 & P4 & P5 & P6). split; try done; unfold waiting; cbn -[seq]; rewrite ?P2, ?P4, ?P5; try done.
  - intros Hf. destruct (A1 Hf) as (rest & E1 & E2). rewrite (E2 eq_refl), app_nil_r in E1. exists (frame r). rewrite frames_snoc, E1. split; [done|]. intros _. unfold todo, frame. cbn. subst pc. by destruct (sr_hdr r).
  - intros _. by apply A2.
  - subst pc. destruct (sr_hdr r); by eexists.
  - intros Hf. by specialize (A5 Hf).
  - split; [intros E; by apply A6 in E|done].
  - assert (Hf : cn_failed0 = false) by (destruct cn_failed0; [by specialize (A5 eq_refl)|done]).
    assert (Ho : cn_open0 = true) by (destruct cn_open0; [done|by pose proof (proj1 A6 eq_refl)]).
    destruct A7 as (rest & E1 & E2). rewrite (E2 Hf Ho) in E1. eexists. split; [|done]. unfold loop_frames in *. rewrite omap_app, <- E1. cbn. by rewrite <- app_assoc.
  - intros i Hi. by apply Hgr.
  - unfold direct_frames in *. rewrite omap_app. cbn. by rewrite app_nil_r.
  - rewrite frames_last. unfold todo, frame. cbn. subst pc. by destruct (sr_hdr r).
  - unfold direct_frames in *. rewrite omap_app. cbn. by rewrite app_nil_r.
Qed.

Lemma cinv_done (r : SendReady) (c : Conn) : cinv c -> cn_pc c = LBody [] r -> cinv (at_pc LRecv (reply true r c)).
Proof.
  intros [A1 A2 A3 A4 A5 A6 A7 A8 A9 A10 A11 A13 A12 A14] Epc. assert (Hf : cn_failed c = false) by (destruct (cn_failed c); [specialize (A5 eq_refl); by rewrite Epc in A5|done]).
  open_conn c. subst. rewrite (A2 eq_refl) in *. inversion A8 as [|r' l Hr Hit]; subst. split; try done; unfold waiting; cbn -[seq].
  - split; [intros E; by apply A6 in E|done].
  - intros i [Hi|Hi]%elem_of_app; [by apply A9|]. destruct (sr_tx r) as [k|] eqn:Ek; [|by apply not_elem_of_nil in Hi]. apply list_elem_of_singleton in Hi as [= ->].
    destruct A4 as [l E]. exists l, r, []. cbn. split; [done|]. split; [done|]. split; [done|]. destruct (A1 eq_refl) as (rest & E1 & E2).
    rewrite (E2 eq_refl), app_nil_r, E, frames_snoc in E1. by rewrite E1.
  - rewrite ids_snoc, A10, !txs_app. cbn. destruct (sr_tx r); solve_Permutation.
Qed.

Lemma reply_all (l : list SendReady) (c : Conn) :
  foldl (fun c r => reply false r c) c l =
  let '(mkConn w b ch o pc sh nt nx pk an la hu sg lg tk wk fl) := c in
  mkConn w b ch o pc sh nt nx pk (an ++ ((fun k => (k, false)) <$> txs l)) la hu sg lg tk wk fl.
Proof.
  revert c. induction l as [|r l IH]; intros c; destruct c; cbn; [by rewrite app_nil_r|]. rewrite IH. cbn. destruct (sr_tx r); cbn; by rewrite <- ?app_assoc, ?app_nil_r.
Qed.

Lemma cinv_take (c : Conn) : cinv c -> cn_pc c = LTake -> cinv (at_pc LDrop (with_writer None c)).
Proof.
  intros [A1 A2 A3 A4 A5 A6 A7 A8 A9 A10 A11 A13 A12 A14] Epc. open_conn c. subst. split; try done; cbn.
  - intros Hf. destruct (A1 Hf) as (rest & E1 & _). by exists rest.
  - split; [intros E; by apply A6 in E|done].
  - apply suffix_nil.
Qed.

Lemma cinv_drop (c c' : Conn) : cinv c -> cn_pc c = LDrop -> loop_step NoRoom c = Some c' -> cinv c'.
Proof.
  intros [A1 A2 A3 A4 A5 A6 A7 A8 A9 A10 A11 A13 A12 A14] Epc Hs. unfold loop_step in Hs. rewrite Epc, reply_all in Hs. open_conn c. subst. injection Hs as <-. split; try done; unfold waiting, written; cbn -[seq]; rewrite ?ch_new_items.
  - destruct A7 as (rest & E & _). by exists rest.
  - constructor.
  - intros i [Hi|Hi]%elem_of_app; [by apply A9|]. apply list_elem_of_fmap in Hi as (k & [=] & _).
  - rewrite A10, !txs_app, fmap_app, <- list_fmap_compose. cbn. rewrite list_fmap_id. solve_Permutation.
  - done.
Qed.

(** The loop's steps keep the invariant. *)
Lemma cinv_loop (p : Polled) (c c' : Conn) : cinv c -> loop_step p c = Some c' -> cinv c'.
Proof.
  intros Hinv Hs. pose proof Hs as Hs'. unfold loop_step in Hs. destruct (cn_pc c) as [| |r|[|x rest] r|[|x rest] r|[|x rest] r| | | |] eqn:Epc.
  - injection Hs as <-. apply cinv_move; rewrite ?Epc; try done. unfold todo. by destruct c; cbn in *; subst.
  - destruct (ch_recv (cn_chan c)) as [[r ch]|] eqn:Er; [injection Hs as <-; by apply cinv_recv|]. case_match; [|done]. injection Hs as <-.
    apply cinv_move; rewrite ?Epc; try done. unfold todo. by destruct c; cbn in *; subst.
  - destruct (cn_writer c) as [carry|] eqn:Ew; injection Hs as <-; [by apply cinv_lock|]. apply (ci_gone _ Hinv) in Ew. by rewrite Epc in Ew.
  - injection Hs as <-. by apply cinv_begin.
  - apply (cinv_write_all (x :: rest) r p (fun rest => LCarry rest r) c c'); auto.
  - injection Hs as <-. pose proof (ci_last _ Hinv) as Hl. rewrite Epc in Hl. apply cinv_move; rewrite ?Epc; try done. unfold todo. by destruct c; cbn in *; subst.
  - apply (cinv_write_all (x :: rest) r p (fun rest => LHdr rest r) c c'); auto.
  - injection Hs as <-. by apply cinv_done.
  - apply (cinv_write_all (x :: rest) r p (fun rest => LBody rest r) c c'); auto.
  - injection Hs as <-. apply cinv_move; [by apply cinv_shut|..]; unfold exit_err; destruct c; cbn in *; subst; done.
  - injection Hs as <-. by apply cinv_take.
  - apply (cinv_drop c); [done..|]. unfold loop_step. by rewrite Epc.
  - done.
Qed.

Lemma cinv_step (c c' : Conn) : event <> [] -> cinv c -> conn_step c c' -> cinv c'.
Proof.
  intros Hev Hinv (ch & Hs). destruct ch as [hdr body|i|i|cl co p|p|]; cbn in Hs.
  - injection Hs as <-. by apply cinv_send.
  - by apply (cinv_enter i c).
  - by apply (cinv_timeout i c).
  - injection Hs as <-. by apply cinv_wake.
  - by apply (cinv_loop p c).
  - injection Hs as <-. by apply cinv_shut.
Qed.

Lemma cinv_reach (c c' : Conn) : event <> [] -> cinv c -> rtc conn_step c c' -> cinv c'.
Proof. intros Hev Hinv Hr. induction Hr as [|c c1 c2 Hs _ IH]; [done|]. by apply IH, (cinv_step c). Qed.

(** C9. What the write loop and the direct wakeups put on the socket are whole
    frames, one after the other: the wire holds the frames begun so far except for
    an end of the last one, whatever parts the socket accepts and however often a
    wakeup gets in between.  The loop writes what the channel took, in order; every
    wakeup is on the wire or on its way, once.  Who waits for a frame gets one
    answer, and a positive one only when the whole frame is on the wire.  (Until
    the loop breaks off inside a frame: then the session is on its way out.) *)
Theorem frames_whole (c : Conn) :
  event <> [] -> reachable c ->
  (cn_failed c = false -> exists rest, concat (frames (cn_log c)) = cn_wire c ++ rest /\ (cn_writer c <> None -> rest `suffix_of` default [] (last (frames (cn_log c))))) /\
  loop_frames (cn_log c) `prefix_of` (frame <$> cn_taken c) /\
  (cn_open c = true -> cn_wakes c = length (direct_frames (cn_log c)) + wake_items (cn_parked c ++ cn_taken c)) /\
  (forall i, (i, true) ∈ cn_answers c -> written c i) /\
  seq 0 (cn_next c) ≡ₚ (cn_answers c).*1 ++ cn_late c ++ cn_hung c ++ waiting c /\
  (cn_open c = false -> waiting c = txs (cn_parked c)).
Proof.
  intros Hev Hr. destruct (cinv_reach _ _ Hev cinv_new Hr) as [A1 A2 A3 A4 A5 A6 A7 A8 A9 A10 A11 A13 A12 A14].
  split; [|split; [|split; [done|split; [done|split; [done|]]]]].
  - intros Hf. destruct (A1 Hf) as (rest & E1 & E2). exists rest. split; [done|]. intros Hw. rewrite E2; [done|].
    destruct (gone (cn_pc c)); [|done]. by destruct (Hw (proj2 A3 eq_refl)).
  - destruct A7 as (rest & <- & _). by exists rest.
  - intros Ho. unfold waiting. rewrite (A13 Ho), (proj1 A6 Ho). cbn. by rewrite app_nil_r.
Qed.

(** ** Where it goes wrong *)

Lemma hung_step (c c' : Conn) : conn_step c c' -> cn_hung c `prefix_of` cn_hung c'.
Proof.
  intros (ch & Hs). destruct ch as [hdr body|i|i|cl co p|p|]; cbn in Hs.
  - injection Hs as <-. by destruct c.
  - unfold enter in Hs. destruct c. cbn in *. destruct (_ !! i); [|done]. cbn in Hs. destruct cn_open0; [destruct (ch_send _ _); [|done]|]; injection Hs as <-; cbn; [done|by apply prefix_app_r].
  - unfold time_out in Hs. destruct c. cbn in *. destruct (_ !! i); [|done]. cbn in Hs. destruct (sr_tx _); [|done]. by injection Hs as <-.
  - injection Hs as <-. unfold wake_up_peer, try_write_wakeup. destruct c. cbn. repeat case_match; simplify_eq; done.
  - unfold loop_step, write_all in Hs. rewrite reply_all in Hs. destruct c. cbn in *. repeat case_match; simplify_eq/=; done.
  - injection Hs as <-. by destruct c.
Qed.

(** A [wait_for_send] that comes after the end of the write loop is never answered. *)
Theorem late_send_never_answered (hdr : option (list Z)) (body : list Z) (c : Conn) :
  event <> [] -> reachable c -> cn_pc c = LEnded ->
  exists c1, enter (length (cn_parked c)) (wait_for_send hdr body c) = Some c1 /\
    forall c2, rtc conn_step c1 c2 -> cn_next c ∉ (cn_answers c2).*1 /\ cn_next c ∉ cn_late c2.
Proof.
  intros Hev Hr Hpc. pose proof (cinv_reach _ _ Hev cinv_new Hr) as Hinv. assert (Ho : cn_open c = false) by (by apply (ci_open _ Hinv)).
  assert (He : exists c1, enter (length (cn_parked c)) (wait_for_send hdr body c) = Some c1 /\ cn_next c ∈ cn_hung c1).
  { unfold enter. destruct c. cbn in *. rewrite Ho, lookup_app_r, Nat.sub_diag by lia. cbn. eexists. split; [done|]. cbn. set_solver. }
  destruct He as (c1 & He & Hh). exists c1. split; [done|]. intros c2 H2.
  assert (Hinv2 : cinv c2) by (apply (cinv_reach c1); [done|eapply cinv_enter; [|done]; by apply cinv_send|done]).
  assert (Hh2 : cn_next c ∈ cn_hung c2). { clear -H2 Hh. induction H2 as [|a b d Hs _ IH]; [done|]. apply IH. destruct (hung_step _ _ Hs) as [l ->]. set_solver. }
  pose proof (NoDup_seq 0 (cn_next c2)) as Hnd. rewrite (ci_ids _ Hinv2) in Hnd. apply NoDup_app in Hnd as (_ & N1 & Hnd). apply NoDup_app in Hnd as (_ & N2 & _).
  split; intros Hin; [eapply N1|eapply N2]; try done; set_solver.
Qed.

(** A session closed before its write loop first ran leaves the loop waiting: it is
    never told. *)
Theorem early_shutdown_unnoticed :
  exists c, reachable c /\ cn_shutdown c = true /\ shut c = c /\ forall p, loop_step p c = None.
Proof.
  exists (at_pc LRecv (shut conn_new)). split; [|split; [done|split; [done|]]].
  - apply (rtc_l _ _ (shut conn_new)); [by exists CShut|]. apply rtc_once. by exists (CLoop NoRoom).
  - intros p. cbn. destruct (ch_recv ch_new) as [[r ch]|] eqn:E; [|done]. apply ch_recv_some in E. by rewrite ch_new_items in E.
Qed.

End writer.

(** ** At the other end *)

(** What one frame says to the peer. *)
Inductive SockMsg : Type :=
| MWake
| MClose (id : Z)
| MData (id status : Z) (f : list Z).

Definition msg_ok (msg : SockMsg) : Prop :=
  match msg with
  | MWake => True
  | MClose id => (0 <= id < W32)%Z
  | MData id status f => (0 <= id < W32)%Z /\ (0 <= status < 256)%Z /\ frame_ok MAX_CONTROL_FRAME_SIZE f
  end.

Definition msg_bytes (version : Z) (msg : SockMsg) : list Z :=
  match msg with
  | MWake => hdr_encode HEADER_SIZE version TYPE_POLLING
  | MClose id => close_encode version id
  | MData id status f => stamp_frame version id status f
  end.

Section peer.
Context {St E : Type} `{Handlers St E}.

Definition handle_msg (msg : SockMsg) (s : St) : St * option E :=
  match msg with
  | MWake => on_polling s
  | MClose id => on_close id s
  | MData id status f => on_fallback id status (drop (Z.to_nat EVENT_HEADER) f) s
  end.

(** Every message handled in turn, up to the first error; then the connection ends. *)
Fixpoint handle_msgs (msgs : list SockMsg) (s : St) : option (Exit E * St) :=
  match msgs with
  | [] => Some (ExitIo InvalidData, s)
  | msg :: msgs =>
      match handle_msg msg s with
      | (s, Some e) => Some (ExitErr (Socket.Failed e), s)
      | (s, None) => handle_msgs msgs s
      end
  end.

Lemma msgs_events (version : Z) (msgs : list SockMsg) (s : St) :
  (0 <= version <= MAX_SUPPORT_PROTO_VERSION)%Z -> Forall msg_ok msgs -> all_events (concat (msg_bytes version <$> msgs)) s = handle_msgs msgs s.
Proof.
  intros Hv Hok. revert s. induction Hok as [|msg msgs Hm Hok IH]; intros s; [done|]. cbn [fmap list_fmap concat handle_msgs].
  destruct msg as [|id|id status f]; cbn [msg_bytes handle_msg].
  - rewrite polling_event by done. destruct (on_polling s) as [s' [e|]]; [done|apply IH].
  - rewrite close_event by done. destruct (on_close id s) as [s' [e|]]; [done|apply IH].
  - destruct Hm as (H1 & H2 & H3). rewrite stamped_event by done. destruct (on_fallback _ _ _ s) as [s' [e|]]; [done|apply IH].
Qed.
End peer.

(** A frame handed to the channel: a message, or nothing, left of a wakeup that the
    socket took in part. *)
Definition says (version : Z) (r : SendReady) : Prop := frame r = [] \/ exists msg, msg_ok msg /\ frame r = msg_bytes version msg.

(** Frames that are messages or empty are some messages. *)
Lemma frames_msgs (version : Z) (fs : list (list Z)) :
  Forall (fun f => f = [] \/ exists msg, msg_ok msg /\ f = msg_bytes version msg) fs ->
  exists msgs, Forall msg_ok msgs /\ msg_bytes version <$> msgs = List.filter (fun f => negb (is_empty_slice f)) fs /\ concat fs = concat (msg_bytes version <$> msgs).
Proof.
  assert (Hne : forall msg, is_empty_slice (msg_bytes version msg) = false) by (intros []; done).
  induction 1 as [|f fs [-> |(msg & Hm & ->)] _ (msgs & H1 & H2 & H3)]; [by exists []|by exists msgs|].
  exists (msg :: msgs). split; [by constructor|]. cbn. rewrite Hne, H3, H2. done.
Qed.

Lemma log_says (log : list (bool * list Z)) (P : list Z -> Prop) :
  Forall P (loop_frames log) -> Forall P (direct_frames log) -> Forall P (frames log).
Proof. unfold loop_frames, direct_frames, frames. induction log as [|[[] f] log IH]; cbn; [done|rewrite Forall_cons..]; rewrite ?Forall_cons; naive_solver. Qed.

(** C10. From one end of the socket to the other: when the writer has nothing half
    written, the peer's read loop, however the bytes are cut for it, handles exactly
    the messages put on the wire, in the order they were begun -- those of the
    channel in the channel's order, and wakeups, the ones written directly among
    them.  (If everything handed to the channel is a frame the session sends.) *)
Theorem socket_end_to_end {Ch St E : Type} `{Channel SendReady Ch} `{Handlers St E} (by_ : WakeBy) (version : Z) (c : Conn (Ch := Ch)) :
  (0 <= version <= MAX_SUPPORT_PROTO_VERSION)%Z -> reachable by_ (msg_bytes version MWake) c ->
  cn_failed c = false -> cn_writer c <> None -> todo c = [] -> Forall (says version) (cn_taken c) ->
  exists msgs, Forall msg_ok msgs /\ msg_bytes version <$> msgs = List.filter (fun f => negb (is_empty_slice f)) (frames (cn_log c)) /\
    loop_frames (cn_log c) `prefix_of` (frame <$> cn_taken c) /\
    forall capacity sched (s : St), (HDR + FALLBACK_DATA_HEADER <= capacity)%nat ->
      read_loop (S (16 * length (cn_wire c) + 16)) (with_capacity capacity (cn_wire c) sched) HDR s = handle_msgs msgs s.
Proof.
  intros Hv Hr Hf Hw Ht Hs. assert (Hne : msg_bytes version MWake <> []) by done.
  pose proof (cinv_reach by_ _ _ _ Hne (cinv_new _) Hr) as [A1 A2 A3 A4 A5 A6 A7 A8 A9 A10 A11 A13 A12 A14].
  destruct A7 as (rest & Eo & _). assert (Hlog : Forall (fun f => f = [] \/ exists msg, msg_ok msg /\ f = msg_bytes version msg) (frames (cn_log c))).
  { apply log_says.
    - assert (Hfr : Forall (fun f => f = [] \/ exists msg, msg_ok msg /\ f = msg_bytes version msg) (frame <$> cn_taken c)) by (by apply Forall_fmap).
      rewrite <- Eo in Hfr. by apply Forall_app in Hfr as [? _].
    - eapply Forall_impl; [exact A14|]. cbn. intros f ->. right. by exists MWake. }
  destruct (frames_msgs version _ Hlog) as (msgs & H1 & H2 & H3). exists msgs. split; [done|]. split; [done|]. split; [rewrite <- Eo; by exists rest|].
  intros capacity sched s Hc. rewrite read_loop_all by done. rewrite <- (msgs_events version) by done. f_equal. rewrite <- H3.
  destruct (A1 Hf) as (todo' & E1 & E2). rewrite E2, Ht, app_nil_r in E1; [done|]. destruct (gone (cn_pc c)); [|done]. by destruct (Hw (proj2 A3 eq_refl)).
Qed.

(** A wakeup of which the socket takes three bytes, then a frame for a waiter,
    offered in two parts, with a second wakeup while the loop writes it. *)
Definition sample_run : list choice :=
  [CLoop NoRoom; CWake true false (Accepted 3); CEnter 0; CSend (Some [1; 2; 3; 4; 5; 6; 7; 8]%Z) [9; 10; 11]%Z; CEnter 0;
   CLoop NoRoom; CLoop NoRoom; CLoop (Accepted 5); CLoop NoRoom; CLoop NoRoom;
   CLoop NoRoom; CLoop NoRoom; CLoop NoRoom; CLoop (Accepted 8); CWake true false (Accepted 8); CLoop NoRoom; CLoop (Accepted 3); CLoop NoRoom].

Definition sample_event : list Z := hdr_encode HEADER_SIZE 5 TYPE_POLLING.

Lemma frames_whole_witness :
  exists c : Conn (Ch := list SendReady), let _ := list_channel (A := SendReady) 4096 in
    run BySocket sample_event sample_run conn_new = Some c /\ cn_wire c = sample_event ++ [1; 2; 3; 4; 5; 6; 7; 8; 9; 10; 11]%Z /\ cn_answers c = [(0, true)] /\
    written c 0 /\ cn_wakes c = 2 /\ loop_frames (cn_log c) `prefix_of` (frame <$> cn_taken c).
Proof.
  pose (I := list_channel (A := SendReady) 4096). pose (c := default conn_new (run (H := I) BySocket sample_event sample_run conn_new)).
  assert (E : run (H := I) BySocket sample_event sample_run conn_new = Some c) by (vm_compute; reflexivity).
  destruct (frames_whole (H := I) BySocket sample_event c ltac:(discriminate) (run_rtc (H := I) _ _ _ _ _ E)) as (_ & H1 & _ & H2 & _).
  exists c. split; [exact E|]. split; [vm_compute; reflexivity|]. split; [vm_compute; reflexivity|].
  split; [apply H2; vm_compute; left|]. split; [vm_compute; reflexivity|exact H1].
Defined.

#[local] Existing Instance log_handlers.

(** A close for a waiter between two wakeups, the first of them in two parts. *)
Definition sample_close : list choice :=
  [CLoop NoRoom; CWake true false (Accepted 3); CEnter 0; CSend None (close_encode 5 9); CEnter 0;
   CLoop NoRoom; CLoop NoRoom; CLoop (Accepted 5); CLoop NoRoom; CLoop NoRoom;
   CLoop NoRoom; CLoop NoRoom; CLoop NoRoom; CLoop (Accepted 7); CLoop (Accepted 5); CLoop NoRoom; CWake true false (Accepted 8)].

Lemma socket_end_to_end_witness :
  exists (c : Conn (Ch := list SendReady)) (msgs : list SockMsg), let _ := list_channel (A := SendReady) 4096 in
    run BySocket (msg_bytes 5 MWake) sample_close conn_new = Some c /\ length (cn_wire c) = 28 /\
    msg_bytes 5 <$> msgs = [msg_bytes 5 MWake; msg_bytes 5 (MClose 9); msg_bytes 5 MWake] /\
    read_loop (S (16 * 28 + 16)) (with_capacity 16 (cn_wire c) [Some 2; None; Some 9; None; Some 3]) HDR ([] : call_log) = handle_msgs msgs ([] : call_log).
Proof.
  pose (I := list_channel (A := SendReady) 4096). pose (c := default conn_new (run (H := I) BySocket (msg_bytes 5 MWake) sample_close conn_new)).
  assert (E : run (H := I) BySocket (msg_bytes 5 MWake) sample_close conn_new = Some c) by (vm_compute; reflexivity).
  destruct (socket_end_to_end (St := call_log) (H := I) BySocket 5 c) as (msgs & _ & H2 & _ & H4).
  - vm_compute. split; discriminate.
  - exact (run_rtc (H := I) _ _ _ _ _ E).
  - vm_compute. reflexivity.
  - vm_compute. discriminate.
  - vm_compute. reflexivity.
  - assert (Et : frame <$> cn_taken c = [[]; msg_bytes 5 (MClose 9)]) by (vm_compute; reflexivity).
    assert (Hf : Forall (fun f => f = [] \/ exists msg, msg_ok msg /\ f = msg_bytes 5 msg) (frame <$> cn_taken c)); [|by apply Forall_fmap in Hf].
    rewrite Et. apply Forall_cons. split; [by left|]. apply Forall_cons. split; [|by apply Forall_nil].
    right. exists (MClose 9). split; [vm_compute; split; [discriminate|reflexivity]|reflexivity].
  - exists c, msgs. split; [exact E|]. split; [vm_compute; reflexivity|]. split; [rewrite H2; vm_compute; reflexivity|].
    apply (H4 16 [Some 2; None; Some 9; None; Some 3] []). vm_compute. lia.
Defined.
