(* ===== verification/StreamIo.v ===== *)
(** * Reading from a stream: the wait and its wakeups

    [Stream::check_read_ready], [take_delivered], [read_more] and the operations on
    top of them ([read_chunk], [wait_readable], [read_exact_bytes], [peek],
    [discard]) of [src/src/stream.rs], interleaved with the event loop that
    delivers and half closes and with a handle that closes.  Every await point and
    every access to what the tasks share is a step.  What a delivery amounts to
    ([drain_pending], in [ReadBuf]) is a parameter: so many bytes, or a corrupt
    chain.  [Notify] is the runtime's; what is relied on is stated as a class.  A
    stream has one reader.  The bytes themselves are in [ReadBuf] and [Linked]; of
    what an operation does with them only their number is kept, so that [discard] of no
    bytes from an empty buffer of the older protocols, which never returns
    ([LinkedTheorems.discard_zero_spins]), is outside this file. *)

From Stdlib Require Import ZArith Lia.
From stdpp Require Import base numbers list relations.
From S2P Require Import Prelude Protocol BufReader Socket.

#[local] Open Scope nat_scope.

(** ** Notifications *)

(** [Notify] as one listener sees it: [nt_ready] says that its wait is over. *)
Class Notify (N : Type) : Type := {
  nt_new : N;
  nt_one : N -> N;
  nt_all : N -> N;
  nt_enable : N -> N;
  nt_leave : N -> N;
  nt_listening : N -> bool;
  nt_ready : N -> bool;
  nt_enable_listening n : nt_listening (nt_enable n) = true;
  nt_one_listening n : nt_listening (nt_one n) = nt_listening n;
  nt_all_listening n : nt_listening (nt_all n) = nt_listening n;
  nt_one_ready n : nt_listening n = true -> nt_ready (nt_one n) = true;
  nt_all_ready n : nt_listening n = true -> nt_ready (nt_all n) = true;
  nt_one_keeps n : nt_ready n = true -> nt_ready (nt_one n) = true;
  nt_all_keeps n : nt_ready n = true -> nt_ready (nt_all n) = true;
}.

(** A permit, a listener, and whether it has been notified. *)
Record Bell : Type := mkBell { bl_permit : bool; bl_listening : bool; bl_fired : bool }.

#[refine] Instance bell_notify : Notify Bell := {|
  nt_new := mkBell false false false;
  nt_one b := if bl_listening b && negb (bl_fired b) then mkBell (bl_permit b) true true else mkBell true (bl_listening b) (bl_fired b);
  nt_all b := mkBell (bl_permit b) (bl_listening b) (bl_fired b || bl_listening b);
  nt_enable b := mkBell false true (bl_permit b);
  nt_leave b := mkBell (bl_permit b) false false;
  nt_listening b := bl_listening b;
  nt_ready b := bl_fired b;
|}.
Proof. all: intros [[] [] []]; done. Defined.

(** ** State *)

Inductive ReadOp : Type :=
| ReadChunk
| WaitReadable
| ReadExact (size : nat)
| Peek (size : nat)
| Discard (size : nat).

Inductive ReadError : Type :=
| EStreamClosed
| EEndOfStream
| ECorrupt
| ENotEnoughData.

#[export] Instance ReadError_eq_dec : EqDecision ReadError.
Proof. solve_decision. Defined.

(** Where the reader is.  In [read_more]: the first [take_delivered] and check,
    enabling the two listeners, the second [take_delivered] and check, the select.
    [RReady]: the wait is over, the bytes are about to be read. *)
Inductive ReaderPc : Type :=
| RIdle
| RTake1
| RCheck1
| REnableRecv
| REnableClose
| RTake2
| RCheck2
| RWait
| RReady
| RFailed (e : ReadError).

Section reader.
Context {D N : Type} `{Notify N}.
(** The bytes [drain_pending] makes of a delivery; [None] for a corrupt chain. *)
Context (weigh : D -> option nat).

(** [rd_due_one] and [rd_due_all]: notifications of the event loop and of closing
    handles that are past their change of the stream and not yet sent. *)
Record Reader : Type := mkReader {
  rd_pc : ReaderPc;
  rd_op : ReadOp;
  rd_state : Z;
  rd_len : nat;
  rd_inbox : list D;
  rd_recv : N;
  rd_close : N;
  rd_due_one : nat;
  rd_due_all : nat;
}.

Definition reader_new : Reader := mkReader RIdle WaitReadable STREAM_OPENED 0 [] nt_new nt_new 0 0.

Definition goto (pc : ReaderPc) (s : Reader) : Reader :=
  mkReader pc (rd_op s) (rd_state s) (rd_len s) (rd_inbox s) (rd_recv s) (rd_close s) (rd_due_one s) (rd_due_all s).
Definition holding (len : nat) (inbox : list D) (s : Reader) : Reader :=
  mkReader (rd_pc s) (rd_op s) (rd_state s) len inbox (rd_recv s) (rd_close s) (rd_due_one s) (rd_due_all s).
Definition listens (recv close : N) (s : Reader) : Reader :=
  mkReader (rd_pc s) (rd_op s) (rd_state s) (rd_len s) (rd_inbox s) recv close (rd_due_one s) (rd_due_all s).

(** ** The reader *)

(** The bytes an operation waits for. *)
Definition needs (op : ReadOp) : nat :=
  match op with ReadChunk | WaitReadable => 1 | ReadExact size | Peek size | Discard size => size end.

(** The operations up to their [read_more]. *)
Definition start (op : ReadOp) (s : Reader) : Reader :=
  let s := mkReader (rd_pc s) op (rd_state s) (rd_len s) (rd_inbox s) (rd_recv s) (rd_close s) (rd_due_one s) (rd_due_all s) in
  let closed := (rd_state s =? STREAM_CLOSED)%Z in
  let wait := if rd_len s <? needs op then RTake1 else RReady in
  goto (match op with
        | ReadChunk | WaitReadable => if closed then RFailed EStreamClosed else wait
        | ReadExact 0 => RReady
        | ReadExact _ => if closed then RFailed EStreamClosed else wait
        | Peek _ | Discard _ => wait
        end) s.

Definition check_read_ready (min_size : nat) (s : Reader) : result ReadError bool :=
  if (rd_state s =? STREAM_CLOSED)%Z then Err EStreamClosed
  else if min_size <=? rd_len s then Ok true
  else if (rd_state s =? STREAM_HALF_CLOSED)%Z then Err EEndOfStream
  else Ok false.

Fixpoint weigh_all (l : list D) : option nat :=
  match l with
  | [] => Some 0
  | d :: l => a ← weigh d; b ← weigh_all l; Some (a + b)
  end.

(** [take_delivered], then [k]; a corrupt chain ends the operation.  The close of the
    session that comes with it is a close by another handle here; the bytes taken in
    ahead of the corrupt chain, on a stream that is about to be closed, are not
    counted. *)
Definition take_delivered (k : ReaderPc) (s : Reader) : Reader :=
  match weigh_all (rd_inbox s) with
  | Some added => goto k (holding (rd_len s + added) [] s)
  | None => goto (RFailed ECorrupt) (holding (rd_len s) [] s)
  end.

(** [if self.check_read_ready(min_size)? { return Ok(()) }], then [k]. *)
Definition check (k : ReaderPc) (s : Reader) : Reader :=
  match check_read_ready (needs (rd_op s)) s with
  | Ok true => goto RReady s
  | Ok false => goto k s
  | Err e => goto (RFailed e) s
  end.

(** Both listeners dropped. *)
Definition unlisten (s : Reader) : Reader := listens (nt_leave (rd_recv s)) (nt_leave (rd_close s)) s.

(** What an operation takes out of [len] bytes; a chunk is some of them, as many as
    lie in one piece. *)
Definition consumes (op : ReadOp) (k len : nat) : nat :=
  match op with ReadChunk => Nat.max 1 (Nat.min k len) | ReadExact size | Discard size => size | WaitReadable | Peek _ => 0 end.

Definition reader_step (k : nat) (s : Reader) : option Reader :=
  match rd_pc s with
  | RIdle | RFailed _ => None
  | RTake1 => Some (take_delivered RCheck1 s)
  | RCheck1 => Some (check REnableRecv s)
  | REnableRecv => Some (goto REnableClose (listens (nt_enable (rd_recv s)) (rd_close s) s))
  | REnableClose => Some (goto RTake2 (listens (rd_recv s) (nt_enable (rd_close s)) s))
  | RTake2 =>
      let s := take_delivered RCheck2 s in
      Some (match rd_pc s with RCheck2 => s | _ => unlisten s end)
  | RCheck2 =>
      let s := check RWait s in
      Some (match rd_pc s with RWait => s | _ => unlisten s end)
  | RWait => if nt_ready (rd_recv s) || nt_ready (rd_close s) then Some (goto RTake1 (unlisten s)) else None
  | RReady =>
      let n := consumes (rd_op s) k (rd_len s) in
      Some (if n <=? rd_len s then goto RIdle (holding (rd_len s - n) (rd_inbox s) s) else goto (RFailed ENotEnoughData) s)
  end.

(** [read_available_into] of a V5 stream, with room for so many bytes: how many it
    copies. *)
Definition read_available_into (room : nat) (s : Reader) : result ReadError nat * Reader :=
  match check_read_ready 1 s with
  | Err e => (Err e, s)
  | Ok false => (Err ENotEnoughData, s)
  | Ok true => let n := Nat.min room (rd_len s) in (Ok n, holding (rd_len s - n) (rd_inbox s) s)
  end.

(** It never reports success without a byte. *)
Lemma read_available_some (room n : nat) (s s' : Reader) :
  0 < room -> read_available_into room s = (Ok n, s') -> 0 < n /\ n <= room /\ rd_len s' + n = rd_len s.
Proof.
  intros Hr. unfold read_available_into, check_read_ready. destruct (_ =? _)%Z; [done|]. destruct (Nat.leb_spec 1 (rd_len s)); [|by destruct (_ =? _)%Z].
  intros [= <- <-]. cbn. lia.
Qed.

(** ** The others *)

(** The event loop delivers, and then notifies ([notify_readable]). *)
Definition deliver (d : D) (s : Reader) : Reader :=
  mkReader (rd_pc s) (rd_op s) (rd_state s) (rd_len s) (rd_inbox s ++ [d]) (rd_recv s) (rd_close s) (S (rd_due_one s)) (rd_due_all s).

Definition notify_readable (s : Reader) : option Reader :=
  match rd_due_one s with
  | 0 => None
  | S n => Some (mkReader (rd_pc s) (rd_op s) (rd_state s) (rd_len s) (rd_inbox s) (nt_one (rd_recv s)) (rd_close s) n (rd_due_all s))
  end.

Definition set_stream (state : Z) (due : nat) (s : Reader) : Reader :=
  mkReader (rd_pc s) (rd_op s) state (rd_len s) (rd_inbox s) (rd_recv s) (rd_close s) (rd_due_one s) (due + rd_due_all s).

(** [half_close], up to its [safe_close_notify]. *)
Definition half_close (s : Reader) : Reader :=
  if (rd_state s =? STREAM_OPENED)%Z then set_stream STREAM_HALF_CLOSED 1 s else s.

(** [Stream::close] by another handle, up to its [safe_close_notify]: [cleans] says
    whether its [clean] drops the local buffers, as it does unless the session is
    closed. *)
Definition close (cleans : bool) (s : Reader) : Reader :=
  if (rd_state s =? STREAM_CLOSED)%Z then s
  else
    let due := if (rd_state s =? STREAM_OPENED)%Z then 1 else 0 in
    let s := set_stream STREAM_CLOSED due s in
    if cleans then holding 0 [] s else s.

Definition safe_close_notify (s : Reader) : option Reader :=
  match rd_due_all s with
  | 0 => None
  | S n => Some (mkReader (rd_pc s) (rd_op s) (rd_state s) (rd_len s) (rd_inbox s) (rd_recv s) (nt_all (rd_close s)) (rd_due_one s) n)
  end.

Inductive rchoice : Type :=
| KStart (op : ReadOp)
| KReader (k : nat)
| KDeliver (d : D)
| KNotify
| KHalfClose
| KClose (cleans : bool)
| KCloseNotify.

(** A finished or failed operation leaves room for the next. *)
Definition between (pc : ReaderPc) : bool := match pc with RIdle | RFailed _ => true | _ => false end.

Definition do_rstep (ch : rchoice) (s : Reader) : option Reader :=
  match ch with
  | KStart op => if between (rd_pc s) then Some (start op s) else None
  | KReader k => reader_step k s
  | KDeliver d => Some (deliver d s)
  | KNotify => notify_readable s
  | KHalfClose => Some (half_close s)
  | KClose cleans => Some (close cleans s)
  | KCloseNotify => safe_close_notify s
  end.

Definition rstep (s s' : Reader) : Prop := exists ch, do_rstep ch s = Some s'.

Fixpoint rrun (l : list rchoice) (s : Reader) : option Reader :=
  match l with
  | [] => Some s
  | ch :: l => s ← do_rstep ch s; rrun l s
  end.

Lemma rrun_rtc (l : list rchoice) (s s' : Reader) : rrun l s = Some s' -> rtc rstep s s'.
Proof.
  revert s. induction l as [|ch l IH]; intros s Hr; cbn in Hr; [by injection Hr as ->|].
  destruct (do_rstep ch s) as [s1|] eqn:E; [|done]. apply (rtc_l _ _ s1); [by exists ch|by apply IH].
Qed.

(** ** The invariant *)















(** ** Where it goes wrong *)

(** The state is read after the deliveries were taken: a message and the half close
    behind it that come in between make the read report the end of the stream, with
    the message still in the inbox. *)
Theorem eof_overtakes_data (d : D) :
  exists s, rtc rstep reader_new s /\ rd_pc s = RFailed EEndOfStream /\ rd_inbox s = [d].
Proof.
  eexists. split; [eapply (rrun_rtc [KStart ReadChunk; KReader 0; KDeliver d; KHalfClose; KReader 0]); reflexivity|]. by split.
Qed.

End reader.


