(* ===== verification/Compact.v ===== *)
(** * The adapter to the runtime's byte streams

    [StreamExt] of [src/src/compact.rs]: [poll_read] over [wait_readable] and
    [read_available_into], [poll_write], [poll_flush] and [poll_shutdown] over
    [write_bytes], [flush] and [close].  The adapter keeps at most one future per
    direction; how each poll of it turns out is a list, after which it stays
    pending, so the statements hold for any stream underneath whose failed reads copy
    nothing: every V5 stream, and the older ones but for an empty slice behind the first
    ([LinkedTheorems.empty_slice_loses]).  What a stream does
    with the bytes is kept as far as the adapter can tell: bytes written wait until
    a flush sends them, a failed flush drops them, and so does a close. *)

From Stdlib Require Import ZArith Lia.
From stdpp Require Import base numbers list.
From S2P Require Import Prelude Protocol BufReader Socket StreamIo.

#[local] Open Scope nat_scope.

Inductive poll (A : Type) : Type :=
| Pending
| Ready (a : A).
Arguments Pending {A}.
Arguments Ready {A} a.

(** ** Reading *)

Inductive ReadState : Type :=
| RsIdle
| RsReading
| RsEof
| RsTransitioning.

#[export] Instance ReadState_eq_dec : EqDecision ReadState.
Proof. solve_decision. Defined.




(** [inner_mut] forgets the future and the end of the stream. *)
Definition inner_mut (st : ReadState) : ReadState := RsIdle.











(** ** Writing *)

Inductive WriteState : Type :=
| WsIdle
| WsFlushing
| WsClosing.

Inductive WriteError : Type :=
| WStreamClosed
| WOther.

Inductive IoFailure : Type :=
| FromStream (e : WriteError)
| CloseInProgress.

(** The stream as the adapter sees it.  [ex_taken]: every byte [poll_write] has
    accepted; [ex_lost]: a flush failed, or a close came, with bytes unsent. *)
Record Ext : Type := mkExt {
  ex_state : WriteState;
  ex_open : bool;
  ex_buf : list Z;
  ex_sent : list Z;
  ex_taken : list Z;
  ex_lost : bool;
}.

Definition ext_new : Ext := mkExt WsIdle true [] [] [] false.

Definition goto_state (st : WriteState) (x : Ext) : Ext := mkExt st (ex_open x) (ex_buf x) (ex_sent x) (ex_taken x) (ex_lost x).

Definition unsent (x : Ext) : bool := match ex_buf x with [] => false | _ => true end.

(** The end of a flush, and of a close. *)
Definition flushed (r : result WriteError unit) (x : Ext) : Ext :=
  match r with
  | Ok _ => mkExt WsIdle (ex_open x) [] (ex_sent x ++ ex_buf x) (ex_taken x) (ex_lost x)
  | Err _ => mkExt WsIdle (ex_open x) [] (ex_sent x) (ex_taken x) (ex_lost x || unsent x)
  end.

Definition closed (x : Ext) : Ext := mkExt WsIdle false [] (ex_sent x) (ex_taken x) (ex_lost x || unsent x).

(** [Stream::write_bytes]. *)
Definition write_bytes (bytes : list Z) (x : Ext) : poll (result IoFailure nat) * Ext :=
  if ex_open x then (Ready (Ok (length bytes)), mkExt (ex_state x) true (ex_buf x ++ bytes) (ex_sent x) (ex_taken x ++ bytes) (ex_lost x))
  else (Ready (Err (FromStream WStreamClosed)), x).

(** The polls of the futures to come. *)
Definition Futures : Type := list (poll (result WriteError unit)).

(** One poll of the future at hand. *)
Definition poll_future (env : Futures) : poll (result WriteError unit) * Futures :=
  match env with [] => (Pending, []) | p :: env => (p, env) end.

Definition poll_write (bytes : list Z) (x : Ext) (env : Futures) : poll (result IoFailure nat) * Ext * Futures :=
  match bytes with
  | [] => (Ready (Ok 0), x, env)
  | _ =>
      match ex_state x with
      | WsIdle => (write_bytes bytes x, env)
      | WsFlushing =>
          match poll_future env with
          | (Pending, env) => (Pending, x, env)
          | (Ready (Err e), env) => (Ready (Err (FromStream e)), flushed (Err e) x, env)
          | (Ready r, env) => (write_bytes bytes (flushed r x), env)
          end
      | WsClosing => (Ready (Err CloseInProgress), x, env)
      end
  end.

Definition poll_flush (x : Ext) (env : Futures) : poll (result IoFailure unit) * Ext * Futures :=
  match ex_state x with
  | WsIdle | WsFlushing =>
      match poll_future env with
      | (Pending, env) => (Pending, goto_state WsFlushing x, env)
      | (Ready r, env) =>
          (Ready (match r with Ok _ | Err WStreamClosed => Ok tt | Err e => Err (FromStream e) end), flushed r x, env)
      end
  | WsClosing => (Ready (Err CloseInProgress), x, env)
  end.

(** The close of [poll_shutdown]. *)
Definition shutting (x : Ext) (env : Futures) : poll (result IoFailure unit) * Ext * Futures :=
  match poll_future env with
  | (Pending, env) => (Pending, goto_state WsClosing x, env)
  | (Ready r, env) => (Ready (match r with Ok _ => Ok tt | Err e => Err (FromStream e) end), closed x, env)
  end.

Definition poll_shutdown (x : Ext) (env : Futures) : poll (result IoFailure unit) * Ext * Futures :=
  match ex_state x with
  | WsIdle | WsClosing => shutting x env
  | WsFlushing =>
      match poll_future env with
      | (Pending, env) => (Pending, x, env)
      | (Ready (Err e), env) => (Ready (Err (FromStream e)), flushed (Err e) x, env)
      | (Ready r, env) => shutting (flushed r x) env
      end
  end.

Inductive Call : Type :=
| CallWrite (bytes : list Z)
| CallFlush
| CallShutdown.

Definition call (c : Call) (x : Ext) (env : Futures) : Ext * Futures :=
  match c with
  | CallWrite bytes => let '(_, x, env) := poll_write bytes x env in (x, env)
  | CallFlush => let '(_, x, env) := poll_flush x env in (x, env)
  | CallShutdown => let '(_, x, env) := poll_shutdown x env in (x, env)
  end.

Fixpoint calls (l : list Call) (x : Ext) (env : Futures) : Ext * Futures :=
  match l with
  | [] => (x, env)
  | c :: l => let '(x, env) := call c x env in calls l x env
  end.

(** Everything accepted is sent or waits to be, in order. *)
Definition ext_ok (x : Ext) : Prop := ex_lost x = false -> ex_taken x = ex_sent x ++ ex_buf x.

Lemma flushed_ok (r : result WriteError unit) (x : Ext) : ext_ok x -> ext_ok (flushed r x).
Proof.
  intros Hok. destruct r; intros Hl; cbn in *.
  - rewrite app_nil_r. by apply Hok.
  - apply orb_false_iff in Hl as [Hl Hu]. rewrite (Hok Hl). unfold unsent in Hu. by destruct (ex_buf x).
Qed.

Lemma closed_ok (x : Ext) : ext_ok x -> ext_ok (closed x).
Proof. intros Hok Hl. cbn in *. apply orb_false_iff in Hl as [Hl Hu]. rewrite (Hok Hl). unfold unsent in Hu. by destruct (ex_buf x). Qed.

Lemma write_ok (bytes : list Z) (x : Ext) : ext_ok x -> ext_ok (write_bytes bytes x).2.
Proof. intros Hok. unfold write_bytes. destruct (ex_open x); [|done]. intros Hl. cbn in *. by rewrite (Hok Hl), app_assoc. Qed.

Lemma call_ok (c : Call) (x : Ext) (env : Futures) : ext_ok x -> ext_ok (call c x env).1.
Proof.
  assert (Hs : forall x env, ext_ok x -> ext_ok (shutting x env).1.2) by (intros y env' Hy; unfold shutting; destruct (poll_future env') as [[|r] env1]; [done|by apply closed_ok]).
  intros Hok. destruct c as [bytes| |]; cbn [call].
  - unfold poll_write. destruct bytes as [|b bytes]; [done|]. destruct (ex_state x); [| |done].
    + pose proof (write_ok (b :: bytes) x Hok) as H. by destruct (write_bytes _ _).
    + destruct (poll_future env) as [[|[[]|e]] env1]; [done| |by apply flushed_ok].
      pose proof (write_ok (b :: bytes) _ (flushed_ok (Ok tt) x Hok)) as H. by destruct (write_bytes _ _).
  - unfold poll_flush. destruct (ex_state x); [| |done]; (destruct (poll_future env) as [[|r] env1]; [done|by apply flushed_ok]).
  - unfold poll_shutdown. destruct (ex_state x); [| |]; [specialize (Hs x env Hok); by destruct (shutting x env) as [[]]| |specialize (Hs x env Hok); by destruct (shutting x env) as [[]]].
    destruct (poll_future env) as [[|[[]|e]] env1]; [done| |by apply flushed_ok]. specialize (Hs _ env1 (flushed_ok (Ok tt) x Hok)). by destruct (shutting _ _) as [[]].
Qed.

(** A writer's bytes are sent in the order it wrote them, none twice, and a flush that
    has ended leaves none behind. *)
Theorem adapter_writes_in_order (l : list Call) (env : Futures) :
  let '(x, env) := calls l ext_new env in
  (ex_lost x = false -> ex_taken x = ex_sent x ++ ex_buf x) /\
  forall r x' env', poll_flush x env = (Ready (Ok r), x', env') -> ex_buf x' = [] /\ ex_state x' = WsIdle /\ (ex_lost x' = false -> ex_sent x' = ex_taken x').
Proof.
  assert (H : forall x env, ext_ok x -> ext_ok (calls l x env).1).
  { induction l as [|c l IH]; intros x e Hok; [done|]. cbn [calls]. pose proof (call_ok c x e Hok) as Hc. destruct (call c x e). by apply IH. }
  specialize (H ext_new env (fun _ => eq_refl)). destruct (calls l ext_new env) as [x e]. cbn [fst] in H. split; [done|].
  intros r x' env' E. unfold poll_flush in E. destruct (ex_state x); try done; (destruct (poll_future e) as [[|q] e1]; [done|]; injection E as _ <- _;
    split; [by destruct q|]; split; [by destruct q|]; intros Hl; pose proof (flushed_ok q x H Hl) as Ht; rewrite Ht; destruct q; cbn; by rewrite app_nil_r).
Qed.

(** Shutting down does not flush: bytes that were written and not flushed are dropped,
    and the shutdown reports success. *)
Theorem shutdown_drops_unflushed :
  let '(_, x, env) := poll_write [1; 2; 3]%Z ext_new [Ready (Ok tt)] in
  exists x', poll_shutdown x env = (Ready (Ok tt), x', []) /\ ex_taken x' = [1; 2; 3]%Z /\ ex_sent x' = [] /\ ex_lost x' = true.
Proof. by eexists. Qed.
