(* ===== verification/LegacyStream.v ===== *)
(** * Streams of protocol versions 2 to 4 ([src/src/stream.rs], [src/src/session/mod.rs])

    A stream writes a message into a linked buffer and flushes it: the offset of its first
    slice goes through the queue, or its bytes over the socket.  The peer drains the
    queue into the streams, and a reader turns what was delivered into slices of its
    own linked buffer. *)

From Stdlib Require Import ZArith Lia.
From stdpp Require Import base numbers list gmap.
From S2P Require Import Prelude Config Protocol Socket LegacyBuf LegacyManager LegacyQueue Linked.

#[local] Open Scope Z_scope.

(** [BufferSliceWrapper]. *)
Inductive wrapper : Type :=
| Fallback (s : BufferSlice)
| Offset (offset : Z).

(** The parts of [StreamInner] that versions 2 to 4 use. *)
Record Stream4 : Type := mkS4 {
  s4_id : Z;
  s4_state : Z;
  s4_fallback : bool;
  s4_recv : LinkedBuffer;
  s4_pending : list wrapper;
  s4_send : LinkedBuffer;
}.

Definition stream4_new (id : Z) : Stream4 := mkS4 id STREAM_OPENED false lb_new [] lb_new.

Definition with_recv (x : Stream4) (lb : LinkedBuffer) : Stream4 := mkS4 (s4_id x) (s4_state x) (s4_fallback x) lb (s4_pending x) (s4_send x).

Definition with_pending (x : Stream4) (l : list wrapper) : Stream4 := mkS4 (s4_id x) (s4_state x) (s4_fallback x) (s4_recv x) l (s4_send x).

Definition with_send (x : Stream4) (lb : LinkedBuffer) : Stream4 := mkS4 (s4_id x) (s4_state x) (s4_fallback x) (s4_recv x) (s4_pending x) lb.

Definition in_fallback (x : Stream4) : Stream4 := mkS4 (s4_id x) (s4_state x) true (s4_recv x) (s4_pending x) (s4_send x).

Inductive StreamError : Type :=
| StreamClosed
| SizeTooLarge
| QueueIsFull
| QueueBroken
| StreamHasUnreadData (n : Z)
| StreamHasPendingData (n : nat).

(** ** Receiving *)

Section side.
Context (bm : BufferManager).

(** The last slice is not followed by another one after all. *)
Definition unlink_back (w : world) (lb : LinkedBuffer) : world :=
  match last (lb_slices lb) with
  | Some back => match bs_header back with Some h => with_mem w (set_in_used h (clear_flag h (w_mem w))) | None => w end
  | None => w
  end.

(** The inner loop of [move_pending_data]: the slices of one message; [None] when the fuel
    runs out. *)
Fixpoint move_chain (fuel : nat) (w : world) (lb : LinkedBuffer) (offset : Z) : option (world * LinkedBuffer) :=
  match fuel with
  | O => None
  | S fuel =>
      match read_buffer_slice bm (w_mem w) offset with
      | None => Some (w, lb)
      | Some s =>
          let more := match bs_header s with Some h => has_next h (w_mem w) | None => false end in
          if slice_size s =? 0 then
            h ← bs_header s;
            let next_offset := next_buffer_offset h (w_mem w) in
            let w := with_mem w (recycle_buffer bm (w_mem w) s) in
            if more then move_chain fuel w lb next_offset else Some (unlink_back w lb, lb)
          else if negb more then Some (w, append_buffer_slice lb s)
          else
            h ← bs_header s;
            move_chain fuel w (append_buffer_slice lb s) (next_buffer_offset h (w_mem w))
      end
  end.

Fixpoint move_all (fuel : nat) (w : world) (lb : LinkedBuffer) (fallback : bool) (pending : list wrapper) : option (world * LinkedBuffer * bool) :=
  match pending with
  | [] => Some (w, lb, fallback)
  | Fallback s :: pending => move_all fuel w (append_buffer_slice lb s) true pending
  | Offset offset :: pending =>
      '(w, lb) ← move_chain fuel w lb offset;
      move_all fuel w lb fallback pending
  end.

Definition move_pending_data (fuel : nat) (w : world) (x : Stream4) : option (world * Stream4) :=
  '(w, lb, fallback) ← move_all fuel w (s4_recv x) (s4_fallback x) (s4_pending x);
  Some (w, mkS4 (s4_id x) (s4_state x) fallback lb [] (s4_send x)).

(** The first offset that does not name a slice ends the loop. *)
Fixpoint clean_pending (fuel : nat) (w : world) (pending : list wrapper) : option world :=
  match pending with
  | [] => Some w
  | Fallback _ :: pending => clean_pending fuel w pending
  | Offset offset :: pending =>
      match read_buffer_slice bm (w_mem w) offset with
      | Some s =>
          m ← recycle_buffers fuel bm (w_mem w) s;
          clean_pending fuel (with_mem w m) pending
      | None => Some w
      end
  end.

Definition clean_pending_data (fuel : nat) (w : world) (x : Stream4) : option (world * Stream4) :=
  w ← clean_pending fuel w (s4_pending x);
  Some (w, with_pending x []).

Definition clean_local_buffers (fuel : nat) (w : world) (x : Stream4) : option (world * Stream4) :=
  '(w, x) ← clean_pending_data fuel w x;
  let '(w, recv) := lb_recycle bm w (s4_recv x) in
  let '(w, send) := lb_recycle bm w (s4_send x) in
  Some (w, with_send (with_recv x recv) send).

Definition fill_data_to_read_buffer (fuel : nat) (w : world) (x : Stream4) (d : wrapper) : option (world * Stream4) :=
  let x := with_pending x (s4_pending x ++ [d]) in
  if s4_state x =? STREAM_CLOSED then
    '(w, x) ← clean_pending_data fuel w x;
    let '(w, recv) := lb_recycle bm w (s4_recv x) in
    Some (w, with_recv x recv)
  else Some (w, x).

Definition half_close4 (x : Stream4) : Stream4 :=
  if s4_state x =? STREAM_OPENED then mkS4 (s4_id x) STREAM_HALF_CLOSED (s4_fallback x) (s4_recv x) (s4_pending x) (s4_send x) else x.

Definition handle_stream_message (fuel : nat) (w : world) (x : Stream4) (d : wrapper) (state : Z) : option (world * Stream4) :=
  if state =? STREAM_CLOSED then Some (w, half_close4 x) else fill_data_to_read_buffer fuel w x d.

(** The payload of a fallback frame becomes a slice as it is. *)
Definition fallback_slice (w : world) (payload : list Z) : world * BufferSlice :=
  let n := Z.of_nat (length payload) in
  let m := write_bytes (w_mem w) (w_heap w) payload in
  let s := slice_new m None (w_heap w) n 0 false in
  (mkW m (w_heap w + n) (w_pins w) (w_fresh w), mkBS (bs_header s) (bs_data s) (bs_cap s) (bs_start s) (bs_offset_in_shm s) (bs_read s) n (bs_from_shm s)).

(** [reset] for a stream of these versions. *)
Definition reset4 (x : Stream4) : result StreamError Stream4 :=
  if negb (s4_state x =? STREAM_OPENED) then Err StreamClosed
  else if lb_len (s4_recv x) >? 0 then Err (StreamHasUnreadData (lb_len (s4_recv x)))
  else match s4_pending x with
  | _ :: _ => Err (StreamHasPendingData (length (s4_pending x)))
  | [] => Ok (mkS4 (s4_id x) (s4_state x) false (s4_recv x) [] (s4_send x))
  end.

Definition release_read_and_reuse (w : world) (x : Stream4) : world * Stream4 :=
  let '(w, recv) := release_previous_read_and_reserve bm w (s4_recv x) in
  if (lb_len recv =? 0) && Nat.eqb (length (lb_slices recv)) 1 then (w, with_send (with_recv x (s4_send x)) recv)
  else (w, with_recv x recv).

(** ** Sending *)

(** The bytes [write_fallback] copies: from the start of every slice up to the write slice. *)
Definition fallback_payload (m : mem) (lb : LinkedBuffer) : list Z :=
  let upto := match lb_write lb with Some k => take (S k) (lb_slices lb) | None => lb_slices lb end in
  mjoin ((fun s => read_bytes m (bs_data s) (Z.to_nat (slice_size s))) <$> upto).

(** The frame that is sent, if it is not too large; the buffer is recycled either way. *)
Definition write_fallback (w : world) (lb : LinkedBuffer) (version id stream_status : Z) : result StreamError (list Z) * world * LinkedBuffer :=
  let buf_len := lb_len lb in
  let '(w', lb') := lb_recycle bm w lb in
  if buf_len >? MAX_CONTROL_FRAME_SIZE - 16 then (Err SizeTooLarge, w', lb')
  else (Ok (fallback_encode (wrap32 buf_len + 16) version id stream_status ++ fallback_payload (w_mem w) lb), w', lb').

Definition QUEUE_FULL_RETRY_COUNT : nat := 10.

(** What one attempt to put an element meets: the memory of the queue at that time, whether
    the stream is told to close in the wait before it, and whether the session is closed. *)
Record attempt : Type := mkAttempt {
  at_mem : mem;
  at_notified : bool;
  at_shutdown : bool;
}.

(** [put] of the queue of the session; a queue without a capacity panics. *)
Definition try_put (q : Queue) (m : mem) (e : QueueElement) : option (result StreamError mem) :=
  '(r, m') ← put q m e;
  Some (match r with Ok _ => Ok m' | Err QueueFull => Err QueueIsFull | Err QueueEmpty => Err QueueBroken end).

(** [retry_queue_put]; the list says what each attempt meets, one that it does not name
    finds the queue full. *)
Fixpoint retry_queue_put (q : Queue) (e : QueueElement) (tries : nat) (env : list attempt) : option (result StreamError mem) :=
  match tries, env with
  | S tries, a :: env =>
      if at_notified a || at_shutdown a then Some (Err StreamClosed)
      else
        r ← try_put q (at_mem a) e;
        match r with
        | Err QueueIsFull => retry_queue_put q e tries env
        | _ => Some r
        end
  | _, _ => Some (Err QueueIsFull)
  end.

(** What a flush sends: an element of the queue, after which the peer is woken, or a frame. *)
Inductive sent : Type :=
| SentQueue (e : QueueElement) (m : mem)
| SentSocket (frame : list Z)
| SentNothing.

(** [flush_v4]; [m] is the memory of the queue, [env] what the retries meet.  Whether the
    wakeup or the frame gets through the socket is not part of the result. *)
Definition flush_v4 (q : Queue) (version : Z) (w : world) (x : Stream4) (m : mem) (env : list attempt) : option (result StreamError sent * world * Stream4) :=
  let lb := s4_send x in
  if lb_len lb =? 0 then Some (Ok SentNothing, w, x)
  else if negb (s4_state x =? STREAM_OPENED) then
    let '(w, lb) := lb_recycle bm w lb in Some (Err StreamClosed, w, with_send x lb)
  else
    let '(w, lb) := lb_done bm w lb in
    let x := if lb_from_shm lb then x else in_fallback x in
    if s4_fallback x then
      let '(r, w, lb) := write_fallback w lb version (s4_id x) (s4_state x) in
      let '(w, lb) := lb_clean bm w lb in
      Some (match r with Ok frame => Ok (SentSocket frame) | Err e => Err e end, w, with_send x lb)
    else
      let e := mkQE (s4_id x) (root_buf_offset lb) (s4_state x) in
      r ← try_put q m e;
      r ← match r with
          | Err QueueIsFull => retry_queue_put q e QUEUE_FULL_RETRY_COUNT env
          | _ => Some r
          end;
      match r with
      | Ok m' => let '(w, lb) := lb_clean bm w lb in Some (Ok (SentQueue e m'), w, with_send x lb)
      | Err err => let '(w, lb) := lb_recycle bm w lb in Some (Err err, w, with_send x lb)
      end.

(** ** Draining the queue *)

(** The streams of a session by their identifiers, and those handed to the acceptor. *)
Record Session4 : Type := mkSess4 {
  se4_client : bool;
  se4_streams : gmap Z Stream4;
  se4_accepted : list Z;
}.

Definition get_stream4 (s : Session4) (id state : Z) : option (Stream4 * Session4) :=
  match se4_streams s !! id with
  | Some x => Some (x, s)
  | None =>
      if negb (se4_client s) && (state =? STREAM_OPENED) then
        let x := stream4_new id in
        Some (x, mkSess4 (se4_client s) (<[id := x]> (se4_streams s)) (se4_accepted s ++ [id]))
      else None
  end.

(** One element; [None] when the fuel for a chain runs out.  The boolean says that the
    drain ends with an error. *)
Definition drain_one (fuel : nat) (w : world) (s : Session4) (e : QueueElement) : option (world * Session4 * bool) :=
  let state := Z.land (status e) 0xff in
  match get_stream4 s (seq_id e) state with
  | Some (x, s) =>
      '(w, x) ← handle_stream_message fuel w x (Offset (offset_in_shm_buf e)) state;
      Some (w, mkSess4 (se4_client s) (<[seq_id e := x]> (se4_streams s)) (se4_accepted s), false)
  | None =>
      if state =? STREAM_OPENED then
        match read_buffer_slice bm (w_mem w) (offset_in_shm_buf e) with
        | Some slice => m ← recycle_buffers fuel bm (w_mem w) slice; Some (with_mem w m, s, false)
        | None => Some (w, s, true)
        end
      else Some (w, s, false)
  end.

(** The elements found from one [mark_not_working] to the next make no difference: the
    drain takes them one by one. *)
Fixpoint drain_recv_queue_v4 (fuel : nat) (w : world) (s : Session4) (es : list QueueElement) : option (world * Session4 * bool) :=
  match es with
  | [] => Some (w, s, false)
  | e :: es =>
      '(w, s, failed) ← drain_one fuel w s e;
      match failed with true => Some (w, s, true) | false => drain_recv_queue_v4 fuel w s es end
  end.

(** ** Events of the socket *)

(** [handle_fallback_payload] for a session of these versions. *)
Definition handle_fallback_payload4 (fuel : nat) (w : world) (s : Session4) (seq_id status : Z) (payload : list Z) : option (world * Session4) :=
  match get_stream4 s seq_id status with
  | None => Some (w, s)
  | Some (x, s) =>
      let '(w, slice) := fallback_slice w payload in
      '(w, x) ← handle_stream_message fuel w x (Fallback slice) status;
      Some (w, mkSess4 (se4_client s) (<[seq_id := x]> (se4_streams s)) (se4_accepted s))
  end.

(** What [handle_stream_close] does with the identifier it was sent: the session forgets
    the stream, which its handles still see half closed. *)
Definition handle_stream_close4 (s : Session4) (id : Z) : option Stream4 * Session4 :=
  (half_close4 <$> se4_streams s !! id, mkSess4 (se4_client s) (delete id (se4_streams s)) (se4_accepted s)).

(** [close] of a stream; [m] is the memory of the queue, [shutdown] whether the session is
    being closed.  The queue is tried once. *)
Definition close4 (q : Queue) (version : Z) (fuel : nat) (w : world) (s : Session4) (x : Stream4) (m : mem) (shutdown : bool) :
    option (sent * world * Session4 * Stream4) :=
  let old_state := s4_state x in
  if old_state =? STREAM_CLOSED then Some (SentNothing, w, s, x)
  else
    let x := mkS4 (s4_id x) STREAM_CLOSED (s4_fallback x) (s4_recv x) (s4_pending x) (s4_send x) in
    let s := mkSess4 (se4_client s) (delete (s4_id x) (se4_streams s)) (se4_accepted s) in
    '(w, x) ← clean_local_buffers fuel w x;
    if negb (old_state =? STREAM_OPENED) || shutdown then Some (SentNothing, w, s, x)
    else
      let frame := SentSocket (close_encode version (s4_id x)) in
      if s4_fallback x then Some (frame, w, s, x)
      else
        let e := mkQE (s4_id x) 0 STREAM_CLOSED in
        r ← try_put q m e;
        Some (match r with Ok m' => SentQueue e m' | Err _ => frame end, w, s, x).

End side.
