(* ===== verification/LegacyStreamFacts.v ===== *)
(** * Streams of the older protocols: what happens to the slices of a message *)

From Stdlib Require Import ZArith Lia.
From stdpp Require Import base numbers list gmap.
From S2P Require Import Prelude Config Protocol Socket LegacyBuf LegacyBufFacts LegacyManager LegacyQueue LegacyPool Linked LinkedFacts LinkedWrite LinkedPins LinkedRead LinkedHand LegacyStream.

#[local] Open Scope Z_scope.

Section stream.
Context {node : Type} `{EqDecision node} (naddr ncap : node -> Z) (len : Z) (pool : mem -> list node -> Prop).
Context {PL : PoolLaws naddr ncap len pool} (bm : BufferManager) {ML : ManagerLaws naddr ncap len pool bm}.

Abbreviation res := (res node).
Abbreviation srep := (srep naddr ncap).
Abbreviation slice_at := (slice_at naddr ncap).
Abbreviation winv := (winv len pool).
Abbreviation same := (same naddr ncap).
Abbreviation lo := (lo naddr).
Abbreviation dlo := (dlo naddr).
Abbreviation hi := (hi naddr ncap).
Abbreviation rd_inv := (rd_inv naddr ncap len pool).
Abbreviation reader := (reader naddr ncap len pool).
Abbreviation wr_ok := (wr_ok naddr ncap).
Abbreviation message := (message naddr ncap).
Abbreviation node_ok := (node_ok naddr ncap).
Abbreviation node_bytes := (node_bytes naddr).

(** ** A reader does not notice what happens elsewhere *)

Lemma reader_frame (w w' : world) (lb : LinkedBuffer) (rs : list res) (ret : list (nat * res)) (others others' : list res) (leases : list lease) (data : list Z) :
  reader w lb rs ret others leases data -> winv w' (rs ++ ret.*2 ++ others') -> pins_same w w' ->
  (forall r, r ∈ rs ++ ret.*2 -> mem_agree (dlo r) (hi r) (w_mem w) (w_mem w')) -> reader w' lb rs ret others' leases data.
Proof.
  intros [HI Hd Hl Hf] W' [P1 P2] Ha. pose proof HI as [H1 H2 H3 H4 H5 H6 H7 H8]. split; [split; rewrite ?P1, ?P2; try done| |done|done].
  - intros id ptr bytes Hin. destruct (H7 _ _ _ Hin) as (r & Ho & B1 & B2 & Hb). exists r. split; [done|]. split; [done|]. split; [done|].
    transitivity (read_bytes (w_mem w) ptr (length bytes)); [|done]. symmetry. apply read_bytes_ext. intros z Hz. apply (Ha r); [|lia].
    pose proof (owner_in naddr lb rs ret [] id r Ho) as Hin'. by rewrite app_nil_r in Hin'.
  - rewrite <- Hd. clear -H2 Ha. unfold contents. f_equal. assert (Ha' : forall r, r ∈ rs -> mem_agree (dlo r) (hi r) (w_mem w) (w_mem w')) by (intros r Hr; apply Ha, elem_of_app; by left). clear Ha.
    induction H2 as [|r s rs ss [Hs Hi] HF IH]; [done|]. cbn [fmap list_fmap]. f_equal; [|apply IH; intros r' Hr'; apply Ha'; by right].
    destruct (slice_at_data naddr ncap r s Hs) as (Ed & Ec & _). unfold sbytes. symmetry. apply read_bytes_ext. intros z Hz. apply (Ha' r ltac:(left)). unfold slice_size in Hz. lia.
Qed.

Lemma same_data (w : world) (all rs : list res) (m m' : mem) : winv w all -> rs ⊆ all -> same rs m m' -> forall r, r ∈ rs -> mem_agree (dlo r) (hi r) m m'.
Proof. intros W Hsub Hs r Hr z Hz. destruct (bounds naddr ncap len pool w all r W (Hsub r Hr)) as (_ & ? & _). apply (Hs r Hr). lia. Qed.

(** ** The buffer of a sender, which nobody leases *)

Lemma plain_retire_all (n : nat) (w : world) (lb : LinkedBuffer) (rs others : list res) :
  winv w (rs ++ others) -> Forall2 srep rs (lb_slices lb) -> lb_slots lb = [] -> n = length (lb_slices lb) ->
  let '(w', lb') := pop_all (retire bm) n w lb in
  winv w' others /\ same others (w_mem w) (w_mem w') /\ pins_same w w' /\ lb_slices lb' = [] /\ lb_slots lb' = [].
Proof.
  revert w lb rs. induction n as [|n IH]; intros w lb rs W HF Es En; cbn [pop_all].
  { assert (Esl : lb_slices lb = []) by (by apply nil_length_inv). rewrite Esl in HF. apply Forall2_nil_inv_r in HF as ->. split; [done|]. split; [apply same_refl|done]. }
  unfold pop_front. destruct (lb_slices lb) as [|s ss] eqn:E; [done|]. apply Forall2_cons_inv_r in HF as (r & rs' & [Hs Hi] & HF & ->). set (lb1 := mkLB ss _ _ _ _).
  assert (Ef : forall key, find_slot (lb_slots lb1) key = None) by (intros key; unfold lb1; cbn [lb_slots]; by rewrite Es). unfold retire at 1. rewrite !Ef.
  destruct (winv_reclaim naddr ncap len pool bm w (rs' ++ others) r s W Hs) as (W1 & S1 & P1 & F1 & _). cbn in En. injection En as En.
  specialize (IH (reclaim_slice bm w s) lb1 rs' W1 HF Es En). destruct (pop_all (retire bm) n (reclaim_slice bm w s) lb1) as [w' lb']. destruct IH as (W' & S' & [P2 F2] & E1 & E2).
  split; [done|]. split; [|split; [split; congruence|done]]. apply (same_trans _ _ _ _ (w_mem (reclaim_slice bm w s))); [|done]. eapply same_sub; [|exact S1]. set_solver.
Qed.

Lemma plain_recycle (w : world) (lb : LinkedBuffer) (rs others : list res) :
  winv w (rs ++ others) -> Forall2 srep rs (lb_slices lb) -> lb_slots lb = [] ->
  let '(w', lb') := lb_recycle bm w lb in
  winv w' others /\ same others (w_mem w) (w_mem w') /\ pins_same w w' /\ lb' = lb_new.
Proof.
  intros W HF Es. unfold lb_recycle. pose proof (plain_retire_all _ w lb rs others W HF Es eq_refl) as H. destruct (pop_all (retire bm) _ w lb) as [w' lb'].
  destruct H as (W' & S' & P' & E1 & E2). unfold emptied. cbn [fst snd]. split; [done|]. split; [done|]. split; [done|]. destruct lb'; cbn in *; by subst.
Qed.

Lemma plain_clean_all (n : nat) (w : world) (lb : LinkedBuffer) :
  lb_slots lb = [] -> n = length (lb_slices lb) -> let '(w', lb') := pop_all (clean_one bm) n w lb in w' = w /\ lb_slices lb' = [] /\ lb_slots lb' = [].
Proof.
  revert lb. induction n as [|n IH]; intros lb Es En; cbn [pop_all]; [split; [done|]; split; [by apply nil_length_inv|done]|].
  unfold pop_front. destruct (lb_slices lb) as [|s ss] eqn:E; [done|]. set (lb1 := mkLB ss _ _ _ _).
  assert (Ef : forall key, find_slot (lb_slots lb1) key = None) by (intros key; unfold lb1; cbn [lb_slots]; by rewrite Es). unfold clean_one at 1, is_pinned, abandon. rewrite !Ef.
  apply IH; [done|]. cbn in En |- *. by injection En.
Qed.

Lemma plain_clean (w : world) (lb : LinkedBuffer) : lb_slots lb = [] -> lb_clean bm w lb = (w, lb_new).
Proof.
  intros Es. unfold lb_clean. pose proof (plain_clean_all _ w lb Es eq_refl) as H. destruct (pop_all (clean_one bm) _ w lb) as [w' lb']. destruct H as (-> & E1 & E2).
  unfold emptied. cbn [fst snd]. destruct lb'; cbn in *; by subst.
Qed.

(** ** The slices of a message, as the other side finds them *)

Lemma read_node (w : world) (rs : list res) (x : node) :
  winv w rs -> RShm x ∈ rs -> node_ok (w_mem w) x ->
  exists s, read_buffer_slice bm (w_mem w) (naddr x) = Some s /\ bs_header s = Some (naddr x) /\ srep (RShm x) s /\ sbytes (w_mem w) s = node_bytes (w_mem w) x /\
    slice_size s = bh_size (naddr x) (w_mem w).
Proof.
  intros W Hx (H1 & H2 & H3). pose proof (wi_pool _ _ _ _ W) as Hp. assert (Hx' : x ∈ nodes_of rs) by (by apply elem_nodes).
  destruct (pl_node naddr ncap len pool _ _ x Hp Hx') as (B0 & B1 & B2 & B3). pose proof (pl_len naddr ncap len pool) as Hlen.
  rewrite (ml_read naddr ncap len pool (w_mem w) _ x Hp Hx'). eexists. split; [done|]. unfold slice_new. rewrite B3. split; [done|].
  unfold LinkedFacts.srep, LinkedFacts.slice_at, node_slice, sbytes, LinkedHand.node_bytes, slice_size. cbn [bs_header bs_data bs_cap bs_offset_in_shm bs_from_shm bs_read bs_write].
  rewrite wrap32_small by lia. split; [split; [done|lia]|]. split; [|lia]. f_equal. f_equal. lia.
Qed.

(** A slice without bytes goes back at once. *)
Lemma reader_returns (w : world) (lb : LinkedBuffer) (rs : list res) (ret : list (nat * res)) (others : list res) (leases : list lease) (data : list Z) (x : node) (s : BufferSlice) :
  reader w lb rs ret (RShm x :: others) leases data -> slice_at (RShm x) s ->
  let w' := with_mem w (recycle_buffer bm (w_mem w) s) in
  reader w' lb rs ret others leases data /\ same others (w_mem w) (w_mem w').
Proof.
  intros R Hs. pose proof (ri_world _ _ _ _ _ _ _ _ _ _ (rd_is _ _ _ _ _ _ _ _ _ _ _ R)) as W.
  assert (W0 : winv w (RShm x :: rs ++ ret.*2 ++ others)) by (eapply winv_perm; [exact PL| |exact W]; by rewrite !app_assoc, Permutation_middle).
  destruct (winv_reclaim naddr ncap len pool bm w _ (RShm x) s W0 Hs) as (W1 & S1 & _). unfold reclaim_slice in W1, S1. destruct (slice_at_data naddr ncap _ s Hs) as (_ & _ & Ef). rewrite Ef in W1, S1. cbn [is_shm] in W1, S1.
  cbn zeta. split; [|eapply same_sub; [|exact S1]; set_solver]. apply (reader_frame w _ lb rs ret (RShm x :: others) others leases data R W1); [done|].
  apply (same_data w (rs ++ ret.*2 ++ RShm x :: others)); [done|set_solver|]. eapply same_sub; [|exact S1]. set_solver.
Qed.

(** Clearing the flag of the last slice changes nothing a reader sees. *)
Lemma reader_unlinks (w : world) (lb : LinkedBuffer) (rs : list res) (ret : list (nat * res)) (others : list res) (leases : list lease) (data : list Z) :
  reader w lb rs ret others leases data -> reader (unlink_back w lb) lb rs ret others leases data /\ same others (w_mem w) (w_mem (unlink_back w lb)).
Proof.
  intros R. unfold unlink_back. destruct (last (lb_slices lb)) as [s|] eqn:El; [|split; [done|apply same_refl]]. destruct (bs_header s) as [h|] eqn:Eh; [|split; [done|apply same_refl]].
  pose proof (rd_is _ _ _ _ _ _ _ _ _ _ _ R) as HI. pose proof (ri_world _ _ _ _ _ _ _ _ _ _ HI) as W. rewrite last_lookup in El.
  destruct (Forall2_lookup_r _ _ _ _ _ (ri_slices _ _ _ _ _ _ _ _ _ _ HI) El) as (r & Hr & [Hs Hi]). apply list_elem_of_lookup_2 in Hr.
  destruct r as [x|a n]; [|destruct Hs as (E & _); congruence]. pose proof Hs as (E & _). rewrite E in Eh. injection Eh as <-.
  assert (Hin : RShm x ∈ rs ++ ret.*2 ++ others) by (apply elem_of_app; by left). pose proof (bounds naddr ncap len pool w _ _ W Hin) as Hb. cbn in Hb.
  set (m' := set_in_used (naddr x) (clear_flag (naddr x) (w_mem w))). assert (F : mem_frame (naddr x + 16) (naddr x + 17) (w_mem w) m').
  { eapply mem_frame_trans; [apply flag_byte_frame|apply flag_byte_frame]. }
  destruct (winv_write naddr ncap len pool w _ (RShm x) m' W Hin) as [W' Ag]; [eapply mem_frame_weaken; [| |exact F]; cbn; lia|].
  pose proof (wi_nodup _ _ _ _ W) as Hnd. apply NoDup_app in Hnd as (_ & Hnd & _). split.
  - apply (reader_frame w (with_mem w m') lb rs ret others others leases data R W'); [done|]. intros r Hr' z Hz. destruct (decide (r = RShm x)) as [->|Hne].
    + symmetry. apply F. cbn in Hz. lia.
    + assert (Hin' : r ∈ rs ++ ret.*2 ++ others) by set_solver. pose proof (bounds naddr ncap len pool w _ r W Hin'). apply (Ag r Hin' Hne). lia.
  - intros r Hr'. apply Ag; [set_solver|]. intros ->. apply (Hnd (RShm x) Hr). set_solver.
Qed.

Lemma message_cons (m : mem) (x : node) (xs : list node) (data : list Z) :
  message m (x :: xs) data -> exists rest, data = node_bytes m x ++ rest /\ message m xs rest /\ node_ok m x /\
    match xs with [] => has_next (naddr x) m = false | y :: _ => has_next (naddr x) m = true /\ next_buffer_offset (naddr x) m = naddr y end.
Proof. intros [[H1 H1'] H2 H3]. apply Forall_cons in H2 as [H2 H2']. exists (mjoin (node_bytes m <$> xs)). split; [by rewrite <- H3|]. split; [by split|]. by split. Qed.

(** [move_pending_data] on one message: its bytes are appended to what is to be read. *)
Lemma move_chain_spec (xs : list node) (x : node) (fuel : nat) (w : world) (lb : LinkedBuffer) (rs : list res) (ret : list (nat * res)) (others : list res) (leases : list lease) (data msg : list Z) :
  reader w lb rs ret ((RShm <$> x :: xs) ++ others) leases data -> message (w_mem w) (x :: xs) msg -> (length xs < fuel)%nat ->
  exists w' lb' rs', move_chain bm fuel w lb (naddr x) = Some (w', lb') /\ reader w' lb' rs' ret others leases (data ++ msg) /\ same others (w_mem w) (w_mem w').
Proof.
  revert x fuel w lb rs data msg. induction xs as [|y xs IH]; intros x fuel w lb rs data msg R M Hf; (destruct fuel as [|fuel]; [lia|]); cbn [move_chain];
    (pose proof (ri_world _ _ _ _ _ _ _ _ _ _ (rd_is _ _ _ _ _ _ _ _ _ _ _ R)) as W);
    destruct (message_cons _ _ _ _ M) as (rest & -> & M' & Hok & Hl); (destruct (read_node w _ x W) as (s & -> & Hh & Hs & Eb & Ez); [set_solver|done|]); rewrite Hh; cbn [mbind option_bind].
  - rewrite Hl. destruct M' as [_ _ E0]. cbn in E0. subst rest. rewrite app_nil_r. destruct (Z.eqb_spec (slice_size s) 0) as [E0|E0].
    + destruct (reader_returns w lb rs ret others leases data x s R ltac:(apply Hs)) as [R1 S1]. destruct (reader_unlinks _ _ _ _ _ _ _ R1) as [R2 S2].
      eexists _, lb, rs. split; [done|]. assert (node_bytes (w_mem w) x = []) as -> by (unfold LinkedHand.node_bytes; by rewrite <- Ez, E0). rewrite app_nil_r. split; [done|].
      by apply (same_trans _ _ _ _ (w_mem (with_mem w (recycle_buffer bm (w_mem w) s)))).
    + cbn [negb]. exists w, (append_buffer_slice lb s), (rs ++ [RShm x]). split; [done|]. rewrite <- Eb. split; [|apply same_refl].
      apply append_slice_spec; [done|done|done|]. destruct Hs as [_ Hi]. unfold slice_size in *. lia.
  - destruct Hl as [-> ->]. destruct (Z.eqb_spec (slice_size s) 0) as [E0|E0].
    + change ((RShm <$> x :: y :: xs) ++ others) with (RShm x :: (RShm <$> y :: xs) ++ others) in R.
      destruct (reader_returns w lb rs ret ((RShm <$> y :: xs) ++ others) leases data x s R ltac:(apply Hs)) as [R1 S1]. set (w1 := with_mem w (recycle_buffer bm (w_mem w) s)) in *.
      assert (M1 : message (w_mem w1) (y :: xs) rest) by (apply (message_agree naddr ncap len pool w _ (y :: xs) (w_mem w) _ rest W); [set_solver| |done]; eapply same_sub; [|exact S1]; set_solver).
      destruct (IH y fuel w1 lb rs data rest R1 M1 ltac:(cbn in Hf; lia)) as (w' & lb' & rs' & E & R' & S'). exists w', lb', rs'. split; [done|].
      assert (node_bytes (w_mem w) x = []) as -> by (unfold LinkedHand.node_bytes; by rewrite <- Ez, E0). split; [done|]. apply (same_trans _ _ _ _ (w_mem w1)); [|done]. eapply same_sub; [|exact S1]. set_solver.
    + cbn [negb]. assert (R1 : reader w (append_buffer_slice lb s) (rs ++ [RShm x]) ret ((RShm <$> y :: xs) ++ others) leases (data ++ sbytes (w_mem w) s)).
      { apply append_slice_spec; [done|done|done|]. destruct Hs as [_ Hi]. unfold slice_size in *. lia. }
      rewrite Eb in R1. destruct (IH y fuel w _ _ _ rest R1 M' ltac:(cbn in Hf; lia)) as (w' & lb' & rs' & E & R' & S'). exists w', lb', rs'. split; [done|]. by rewrite app_assoc.
Qed.

(** [recycle_buffers] on one message. *)
Lemma return_chain (xs : list node) (x : node) (fuel : nat) (w : world) (others : list res) (msg : list Z) (s : BufferSlice) :
  winv w ((RShm <$> x :: xs) ++ others) -> message (w_mem w) (x :: xs) msg -> (length xs < fuel)%nat -> slice_at (RShm x) s ->
  exists m', recycle_chain fuel bm (w_mem w) s = Some m' /\ winv (with_mem w m') others /\ same others (w_mem w) m'.
Proof.
  revert x fuel w msg s. induction xs as [|y xs IH]; intros x fuel w msg s W M Hf Hs; (destruct fuel as [|fuel]; [lia|]); cbn [recycle_chain];
    destruct (message_cons _ _ _ _ M) as (rest & _ & M' & _ & Hl); (pose proof Hs as (Hh & _)); rewrite Hh; cbn [mbind option_bind];
    (destruct (winv_reclaim naddr ncap len pool bm w _ (RShm x) s W Hs) as (W1 & S1 & _)); (destruct (slice_at_data naddr ncap _ s Hs) as (_ & _ & Ef));
    unfold reclaim_slice in W1, S1; rewrite Ef in W1, S1; cbn [is_shm with_mem w_mem] in W1, S1.
  - rewrite Hl. cbn [negb]. eexists. split; [done|]. done.
  - destruct Hl as [-> ->]. cbn [negb]. set (m1 := recycle_buffer bm (w_mem w) s) in *.
    assert (M1 : message m1 (y :: xs) rest).
    { apply (message_agree naddr ncap len pool w _ (y :: xs) (w_mem w) m1 rest W); [set_solver| |done]. eapply same_sub; [|exact S1]. set_solver. }
    destruct (message_cons _ _ _ _ M1) as (_ & _ & _ & Hok & _). destruct (read_node (with_mem w m1) _ y W1) as (s1 & E1 & _ & [Hs1 _] & _); [set_solver|done|]. cbn [with_mem w_mem] in E1. rewrite E1.
    destruct (IH y fuel (with_mem w m1) rest s1 W1 M1 ltac:(cbn in Hf; lia) Hs1) as (m' & E & W' & S'). exists m'. split; [done|]. split; [done|].
    apply (same_trans _ _ _ _ m1); [|done]. eapply same_sub; [|exact S1]. set_solver.
Qed.

Lemma return_message (xs : list node) (x : node) (fuel : nat) (w : world) (others : list res) (msg : list Z) :
  winv w ((RShm <$> x :: xs) ++ others) -> message (w_mem w) (x :: xs) msg -> (length xs < fuel)%nat ->
  exists s m', read_buffer_slice bm (w_mem w) (naddr x) = Some s /\ recycle_buffers fuel bm (w_mem w) s = Some m' /\ winv (with_mem w m') others /\ same others (w_mem w) m'.
Proof.
  intros W M Hf. destruct (message_cons _ _ _ _ M) as (_ & _ & _ & Hok & _). destruct (read_node w _ x W) as (s & E & _ & [Hs _] & _); [set_solver|done|].
  destruct (return_chain xs x fuel w others msg s W M Hf Hs) as (m' & E' & H'). exists s, m'. split; [done|]. split; [|done]. unfold recycle_buffers.
  by destruct (slice_at_data naddr ncap _ s Hs) as (_ & _ & ->).
Qed.

(** ** Sending *)

Lemma fallback_payload_spec (m : mem) (lb : LinkedBuffer) (rs : list res) (data : list Z) : wr_ok m lb rs data -> fallback_payload m lb = data.
Proof.
  intros [H1 H2 H3 H4 H5]. unfold fallback_payload.
  assert (E : forall ss, Forall (fun s => bs_start s = 0 /\ bs_read s = 0) ss -> mjoin ((fun s => read_bytes m (bs_data s) (Z.to_nat (slice_size s))) <$> ss) = contents m ss).
  { intros ss Hss. unfold contents. f_equal. apply list_fmap_ext. intros i s Hi. unfold sbytes. rewrite Forall_forall in Hss. destruct (Hss s) as [_ ->]; [by eapply list_elem_of_lookup_2|]. by rewrite Z.add_0_r. }
  destruct (lb_write lb) as [k|]; [|by rewrite E]. destruct H2 as [_ Hu]. rewrite E by (by apply Forall_take). rewrite <- H4.
  transitivity (contents m (take (S k) (lb_slices lb) ++ drop (S k) (lb_slices lb))); [by rewrite contents_app, (contents_unwritten _ _ Hu), app_nil_r|by rewrite take_drop].
Qed.

(** Whatever the attempts meet, the element is on the queue or it is not. *)
Lemma retry_put_outcome (q : Queue) (e : QueueElement) (tries : nat) (env : list attempt) :
  qu_cap q <> 0 -> exists r, retry_queue_put q e tries env = Some r /\ match r with Ok m' => exists m, put q m e = Some (Ok tt, m') | Err _ => True end.
Proof.
  intros Hc. revert env. induction tries as [|tries IH]; intros env; cbn [retry_queue_put]; [by eexists|]. destruct env as [|a env]; [by eexists|].
  destruct (at_notified a || at_shutdown a); [by eexists|]. unfold try_put. destruct (put q (at_mem a) e) as [[r m']|] eqn:Ep.
  - cbn [mbind option_bind]. destruct r as [[]|[]]; [by eexists; split; [done|]; exists (at_mem a)|apply IH|by eexists].
  - unfold put in Ep. destruct (_ >=? _); [done|]. destruct (Z.eqb_spec (qu_cap q) 0); done.
Qed.

Lemma try_put_outcome (q : Queue) (e : QueueElement) (m : mem) :
  qu_cap q <> 0 -> exists r, try_put q m e = Some r /\ match r with Ok m' => put q m e = Some (Ok tt, m') | Err _ => True end.
Proof.
  intros Hc. unfold try_put. destruct (put q m e) as [[r m']|] eqn:Ep.
  - cbn [mbind option_bind]. destruct r as [[]|[]]; by eexists.
  - unfold put in Ep. destruct (_ >=? _); [done|]. destruct (Z.eqb_spec (qu_cap q) 0); done.
Qed.

(** What a flush does with a message. *)
Definition flushed (version : Z) (q : Queue) (x : Stream4) (data : list Z) (others : list res) (r : result StreamError sent) (w' : world) : Prop :=
  match r with
  | Ok (SentQueue e m') =>
      exists y ys m, message (w_mem w') (y :: ys) data /\ winv w' ((RShm <$> y :: ys) ++ others) /\ e = mkQE (s4_id x) (naddr y) STREAM_OPENED /\
        put q m e = Some (Ok tt, m') /\ s4_fallback x = false
  | Ok (SentSocket frame) => frame = fallback_encode (Z.of_nat (length data) + 16) version (s4_id x) STREAM_OPENED ++ data /\ winv w' others
  | Ok SentNothing => False
  | Err _ => winv w' others
  end.

Lemma flush_spec (q : Queue) (version : Z) (w : world) (x : Stream4) (m : mem) (env : list attempt) (rs others : list res) (data : list Z) :
  qu_cap q <> 0 -> winv w (rs ++ others) -> wr_ok (w_mem w) (s4_send x) rs data -> lb_len (s4_send x) = Z.of_nat (length data) -> data <> [] -> lb_slots (s4_send x) = [] ->
  exists r w' x', flush_v4 bm q version w x m env = Some (r, w', x') /\ flushed version q x data others r w' /\ same others (w_mem w) (w_mem w') /\ pins_same w w' /\
    s4_send x' = lb_new /\ s4_recv x' = s4_recv x /\ s4_pending x' = s4_pending x /\ (s4_state x <> STREAM_OPENED -> r = Err StreamClosed).
Proof.
  intros Hq W Hok Hl Hne Hsl. assert (Hpos : 0 < lb_len (s4_send x)) by (rewrite Hl; destruct data; [done|cbn; lia]). unfold flush_v4. destruct (Z.eqb_spec (lb_len (s4_send x)) 0); [lia|].
  destruct (Z.eqb_spec (s4_state x) STREAM_OPENED) as [Eo|Eo]; cbn [negb].
  2: { pose proof (plain_recycle w (s4_send x) rs others W (wo_slices _ _ _ _ _ _ Hok) Hsl) as H. destruct (lb_recycle bm w (s4_send x)) as [w' lb']. destruct H as (W' & S' & P' & ->).
    eexists _, w', _. split; [done|]. done. }
  assert (Hd : let '(w1, lb1) := lb_done bm w (s4_send x) in exists rs1, winv w1 (rs1 ++ others) /\ wr_ok (w_mem w1) lb1 rs1 data /\ same others (w_mem w) (w_mem w1) /\ pins_same w w1 /\
    lb_len lb1 = lb_len (s4_send x) /\ lb_slots lb1 = [] /\ (lb_from_shm lb1 = true -> exists xs, rs1 = RShm <$> xs /\ message (w_mem w1) xs data)).
  { destruct (lb_from_shm (s4_send x)) eqn:Esh.
    - pose proof (lb_done_spec naddr ncap len pool bm w (s4_send x) rs others data W Hok Esh) as H. destruct (lb_done bm w (s4_send x)) as [w1 lb1].
      destruct H as (xs & W1 & S1 & M1 & Hok1 & P1 & Es1 & El1 & _). exists (RShm <$> xs). split; [done|]. split; [done|]. split; [done|]. split; [done|]. split; [done|]. split; [congruence|]. intros _. by exists xs.
    - unfold lb_done. rewrite Esh. exists rs. split; [done|]. split; [done|]. split; [apply same_refl|]. split; [done|]. split; [done|]. split; [done|]. congruence. }
  destruct (lb_done bm w (s4_send x)) as [w1 lb1]. destruct Hd as (rs1 & W1 & Hok1 & S1 & P1 & El1 & Es1 & Hm).
  set (x1 := if lb_from_shm lb1 then x else in_fallback x). assert (Ex : s4_id x1 = s4_id x /\ s4_state x1 = STREAM_OPENED /\ s4_recv x1 = s4_recv x /\ s4_pending x1 = s4_pending x) by (unfold x1; by destruct (lb_from_shm lb1)).
  destruct Ex as (Ei & Est & Er & Epd). rewrite Ei, Est. pose proof (plain_recycle w1 lb1 rs1 others W1 (wo_slices _ _ _ _ _ _ Hok1) Es1) as Hrec.
  destruct (s4_fallback x1) eqn:Efb.
  - unfold write_fallback. rewrite (fallback_payload_spec _ _ _ _ Hok1), El1, Hl. destruct (lb_recycle bm w1 lb1) as [w2 lb2]. destruct Hrec as (W2 & S2 & P2 & ->).
    assert (S02 : same others (w_mem w) (w_mem w2)) by (by apply (same_trans _ _ _ _ (w_mem w1))). assert (P02 : pins_same w w2) by (destruct P1, P2; split; congruence).
    rewrite Z.gtb_ltb. destruct (Z.ltb_spec (MAX_CONTROL_FRAME_SIZE - 16) (Z.of_nat (length data))) as [Hbig|Hfit]; rewrite (plain_clean _ lb_new eq_refl).
    + eexists _, w2, _. split; [done|]. split; [done|]. split; [done|]. split; [done|]. done.
    + eexists _, w2, _. split; [done|]. split; [|done]. split; [|done]. change MAX_CONTROL_FRAME_SIZE with 268435456 in Hfit. rewrite wrap32_small by (unfold W32; lia). done.
  - assert (Esh : lb_from_shm lb1 = true) by (unfold x1 in Efb; by destruct (lb_from_shm lb1)). assert (Efx : s4_fallback x = false) by (unfold x1 in Efb; by rewrite Esh in Efb).
    destruct (Hm Esh) as (xs & -> & M). destruct xs as [|y ys]; [exfalso; destruct M as [_ _ E]; cbn in E; by subst|].
    assert (Eroot : root_buf_offset lb1 = naddr y).
    { pose proof (wo_slices _ _ _ _ _ _ Hok1) as HF. cbn [fmap list_fmap] in HF. apply Forall2_cons_inv_l in HF as (s & ss & [(_ & _ & _ & E & _) _] & _ & Esl). unfold root_buf_offset. by rewrite Esl. }
    rewrite Eroot. set (e := mkQE (s4_id x) (naddr y) STREAM_OPENED). destruct (try_put_outcome q e m Hq) as (r & -> & Hr). cbn [mbind option_bind].
    assert (Hput : exists r', match r with Err QueueIsFull => retry_queue_put q e QUEUE_FULL_RETRY_COUNT env | _ => Some r end = Some r' /\ match r' with Ok m' => exists m, put q m e = Some (Ok tt, m') | Err _ => True end).
    { destruct r as [m'|[]]; try (by eexists). - eexists. split; [done|]. by exists m. - by apply retry_put_outcome. }
    destruct Hput as (r' & -> & Hr'). cbn [mbind option_bind]. destruct r' as [m'|err].
    + rewrite (plain_clean w1 lb1 Es1). destruct Hr' as (m0 & Hm0). eexists _, w1, _. split; [done|]. split; [by exists y, ys, m0|]. split; [done|]. split; [done|]. done.
    + destruct (lb_recycle bm w1 lb1) as [w2 lb2]. destruct Hrec as (W2 & S2 & P2 & ->). eexists _, w2, _. split; [done|]. split; [done|].
      split; [by apply (same_trans _ _ _ _ (w_mem w1))|]. split; [destruct P1, P2; split; congruence|]. done.
Qed.

(** ** What is delivered and not taken *)

(** A message in shared memory, or a payload on the heap. *)
Inductive item : Type :=
| IMsg (x : node) (xs : list node) (data : list Z)
| IHeap (a n : Z) (data : list Z).

Definition item_res (i : item) : list res := match i with IMsg x xs _ => RShm <$> x :: xs | IHeap a n _ => [RHeap a n] end.

Definition item_data (i : item) : list Z := match i with IMsg _ _ data => data | IHeap _ _ data => data end.

Definition item_size (i : item) : nat := match i with IMsg _ xs _ => length xs | IHeap _ _ _ => 0 end.

Definition holds (m : mem) (d : wrapper) (i : item) : Prop :=
  match d, i with
  | Offset o, IMsg x xs data => o = naddr x /\ message m (x :: xs) data
  | Fallback s, IHeap a n data => srep (RHeap a n) s /\ sbytes m s = data /\ data <> []
  | _, _ => False
  end.

Definition all_res (items : list item) : list res := mjoin (item_res <$> items).

Lemma holds_same (w : world) (all : list res) (m m' : mem) (d : wrapper) (i : item) : winv w all -> item_res i ⊆ all -> same (item_res i) m m' -> holds m d i -> holds m' d i.
Proof.
  intros W Hsub Hs. destruct d as [s|o], i as [x xs data|a n data]; cbn [holds item_res] in *; try done.
  - intros (Hr & Hb & Hne). split; [done|]. split; [|done]. rewrite <- Hb. apply (same_slice naddr ncap [RHeap a n] (RHeap a n)); [done|left|cbn; lia|done].
  - intros [-> M]. split; [done|]. by apply (message_agree naddr ncap len pool w all _ m m' data W).
Qed.

Lemma holds_all_same (w : world) (all : list res) (m m' : mem) (pending : list wrapper) (items : list item) :
  winv w all -> all_res items ⊆ all -> same (all_res items) m m' -> Forall2 (holds m) pending items -> Forall2 (holds m') pending items.
Proof.
  intros W Hsub Hs HF. induction HF as [|d i pending items Hd HF IH]; [done|]. unfold all_res in Hsub, Hs. cbn [fmap list_fmap mjoin list_join] in Hsub, Hs. fold (all_res items) in Hsub, Hs. apply Forall2_cons. split.
  - apply (holds_same w all m m' d i W); [set_solver| |done]. eapply same_sub; [|exact Hs]. set_solver.
  - apply IH; [set_solver|]. eapply same_sub; [|exact Hs]. set_solver.
Qed.

(** [move_pending_data] takes everything over in the order of delivery. *)
Lemma move_all_spec (fuel : nat) (pending : list wrapper) (items : list item) (w : world) (lb : LinkedBuffer) (fallback : bool) (rs : list res) (ret : list (nat * res)) (others : list res) (leases : list lease) (data : list Z) :
  reader w lb rs ret (all_res items ++ others) leases data -> Forall2 (holds (w_mem w)) pending items -> Forall (fun i => item_size i < fuel)%nat items ->
  exists w' lb' fb rs', move_all bm fuel w lb fallback pending = Some (w', lb', fb) /\ reader w' lb' rs' ret others leases (data ++ mjoin (item_data <$> items)) /\ same others (w_mem w) (w_mem w').
Proof.
  intros R HF. revert items w lb fallback rs data R HF. induction pending as [|d pending IH]; intros items w lb fallback rs data R HF Hfu.
  { apply Forall2_nil_inv_l in HF as ->. exists w, lb, fallback, rs. split; [done|]. cbn. rewrite app_nil_r. split; [done|apply same_refl]. }
  apply Forall2_cons_inv_l in HF as (i & items' & Hd & HF & ->). apply Forall_cons in Hfu as [Hfi Hfu]. unfold all_res in R. cbn [fmap list_fmap mjoin list_join] in R. fold (all_res items') in R. rewrite <- app_assoc in R.
  pose proof (ri_world _ _ _ _ _ _ _ _ _ _ (rd_is _ _ _ _ _ _ _ _ _ _ _ R)) as W. cbn [move_all fmap list_fmap mjoin list_join].
  destruct d as [s|o], i as [x xs msg|a n msg]; cbn [holds] in Hd; try done; cbn [item_res item_data item_size] in *.
  - destruct Hd as (Hr & Hb & Hne). assert (Hp : 0 < slice_size s) by (pose proof Hr as [_ Hi]; pose proof (sbytes_length (w_mem w) s ltac:(lia)) as Hsl; rewrite Hb in Hsl; destruct msg; [done|cbn in Hsl; lia]).
    pose proof (append_slice_spec naddr ncap len pool w lb rs ret (all_res items' ++ others) leases data (RHeap a n) s R Hr Hp) as R1. rewrite Hb in R1.
    destruct (IH items' w _ true _ _ R1 HF Hfu) as (w' & lb' & fb & rs' & E & R' & S'). exists w', lb', fb, rs'. split; [done|]. by rewrite app_assoc.
  - destruct Hd as [-> M]. destruct (move_chain_spec xs x fuel w lb rs ret (all_res items' ++ others) leases data msg R M Hfi) as (w1 & lb1 & rs1 & E1 & R1 & S1). rewrite E1. cbn [mbind option_bind].
    assert (HF1 : Forall2 (holds (w_mem w1)) pending items').
    { apply (holds_all_same w (rs ++ ret.*2 ++ (RShm <$> x :: xs) ++ all_res items' ++ others) (w_mem w) (w_mem w1)); [done|set_solver| |done]. eapply same_sub; [|exact S1]. set_solver. }
    destruct (IH items' w1 lb1 fallback rs1 _ R1 HF1 Hfu) as (w' & lb' & fb & rs' & E & R' & S'). exists w', lb', fb, rs'. split; [done|]. rewrite app_assoc. split; [done|].
    apply (same_trans _ _ _ _ (w_mem w1)); [|done]. eapply same_sub; [|exact S1]. set_solver.
Qed.

Lemma winv_drop (w : world) (a n : Z) (rs : list res) : winv w (RHeap a n :: rs) -> winv w rs.
Proof.
  intros [H1 H2 H3 H4 H5]. apply NoDup_cons in H3 as [_ H3]. split; try done.
  - intros b k Hr. apply H4. by right.
  - intros b k b' k' Hr Hr'. apply H5; by right.
Qed.

(** [clean_pending_data] gives everything back. *)
Lemma clean_pending_spec (fuel : nat) (pending : list wrapper) (items : list item) (w : world) (others : list res) :
  winv w (all_res items ++ others) -> Forall2 (holds (w_mem w)) pending items -> Forall (fun i => item_size i < fuel)%nat items ->
  exists w', clean_pending bm fuel w pending = Some w' /\ winv w' others /\ same others (w_mem w) (w_mem w') /\ pins_same w w'.
Proof.
  intros W HF. revert items w W HF. induction pending as [|d pending IH]; intros items w W HF Hfu.
  { apply Forall2_nil_inv_l in HF as ->. exists w. split; [done|]. split; [done|]. split; [apply same_refl|done]. }
  apply Forall2_cons_inv_l in HF as (i & items' & Hd & HF & ->). apply Forall_cons in Hfu as [Hfi Hfu]. unfold all_res in W. cbn [fmap list_fmap mjoin list_join] in W. fold (all_res items') in W. rewrite <- app_assoc in W.
  cbn [clean_pending]. destruct d as [s|o], i as [x xs msg|a n msg]; cbn [holds] in Hd; try done; cbn [item_res item_size] in *.
  - apply winv_drop in W. by apply (IH items').
  - destruct Hd as [-> M]. destruct (return_message xs x fuel w (all_res items' ++ others) msg W M Hfi) as (s & m1 & -> & -> & W1 & S1). cbn [mbind option_bind].
    assert (HF1 : Forall2 (holds m1) pending items').
    { apply (holds_all_same w ((RShm <$> x :: xs) ++ all_res items' ++ others) (w_mem w) m1); [done|set_solver| |done]. eapply same_sub; [|exact S1]. set_solver. }
    destruct (IH items' (with_mem w m1) W1 HF1 Hfu) as (w' & E & W' & S' & [P1 P2]). exists w'. split; [done|]. split; [done|]. split; [|done].
    apply (same_trans _ _ _ _ m1); [|done]. eapply same_sub; [|exact S1]. set_solver.
Qed.

End stream.
