(* ===== verification/LegacyStreamTheorems.v ===== *)
(** * What streams of the older protocols guarantee *)

From Stdlib Require Import ZArith Lia.
From stdpp Require Import base numbers list gmap.
From S2P Require Import Prelude Bytes Config Protocol Socket LegacyBuf LegacyBufFacts LegacyListNew LegacyManager LegacyManagerFacts LegacyManagerTheorems LegacyQueue LegacyPool.
From S2P Require Import Linked LinkedFacts LinkedWrite LinkedPins LinkedRead LinkedHand LinkedTheorems LegacyStream LegacyStreamFacts.

#[local] Open Scope Z_scope.

(** The receiver of an element: it is drained into the streams of the session, and the
    reader of the stream turns it into slices. *)
Definition receive (bm : BufferManager) (fuel : nat) (w : world) (s : Session4) (e : QueueElement) : option (world * Session4) :=
  '(w, s, _) ← drain_one bm fuel w s e;
  x ← se4_streams s !! seq_id e;
  '(w, x) ← move_pending_data bm fuel w x;
  Some (w, mkSess4 (se4_client s) (<[seq_id e := x]> (se4_streams s)) (se4_accepted s)).

(** The receiver of a fallback frame: its header is sixteen bytes, of which the last eight
    say the stream and its state. *)
Definition receive_frame (bm : BufferManager) (fuel : nat) (w : world) (s : Session4) (frame : list Z) : option (world * Session4) :=
  let id := be_val (take 4 (drop 8 frame)) in
  '(w, s) ← handle_fallback_payload4 bm fuel w s id (Z.land (be_val (take 4 (drop 12 frame))) 255) (drop 16 frame);
  x ← se4_streams s !! id;
  '(w, x) ← move_pending_data bm fuel w x;
  Some (w, mkSess4 (se4_client s) (<[id := x]> (se4_streams s)) (se4_accepted s)).

Section streams.
Context {node : Type} `{EqDecision node} (naddr ncap : node -> Z) (len : Z) (pool : mem -> list node -> Prop).
Context {PL : PoolLaws naddr ncap len pool}.
Context (bm peer : BufferManager) {ML : ManagerLaws naddr ncap len pool bm} {MP : ManagerLaws naddr ncap len pool peer}.

Abbreviation res := (res node).
Abbreviation winv := (winv len pool).
Abbreviation same := (same naddr ncap).
Abbreviation reader := (reader naddr ncap len pool).
Abbreviation reading := (reading naddr ncap len pool).
Abbreviation writer := (writer naddr ncap len pool).
Abbreviation flushed := (flushed naddr ncap len pool).
Abbreviation message := (message naddr ncap).

Lemma reading_new (w : world) (others : list res) : winv w others -> w_pins w = ∅ -> reading (mkR w lb_new []) others [] [].
Proof.
  intros W Hp. exists [], [], []. split; [|done]. cbn [r_world r_lb]. split; [|done|done|done]. split; cbn; try done; try apply NoDup_nil_2.
  - intros key id Hin. by apply not_elem_of_nil in Hin.
  - intros id r Hin. by apply not_elem_of_nil in Hin.
  - intros id ptr bytes Hin. by apply not_elem_of_nil in Hin.
  - intros id [p E]. by rewrite Hp in E.
Qed.

(** The fields of a fallback frame. *)
Lemma fallback_fields (n v id st : Z) (payload : list Z) :
  0 <= id < W32 -> 0 <= st < W32 ->
  let frame := fallback_encode n v id st ++ payload in
  be_val (take 4 (drop 8 frame)) = id /\ be_val (take 4 (drop 12 frame)) = st /\ drop 16 frame = payload.
Proof. intros Hid Hst. cbn zeta. split; [exact (be_val_bytes4 id Hid)|]. split; [exact (be_val_bytes4 st Hst)|done]. Qed.

(** A payload on the heap. *)
Lemma fallback_slice_spec (w : world) (rs : list res) (payload : list Z) :
  winv w rs -> 0 < Z.of_nat (length payload) < W32 -> Forall is_byte payload ->
  let '(w', s) := fallback_slice w payload in
  let r := RHeap (w_heap w) (Z.of_nat (length payload)) in
  winv w' (r :: rs) /\ same rs (w_mem w) (w_mem w') /\ srep naddr ncap r s /\ sbytes (w_mem w') s = payload /\ slice_size s = Z.of_nat (length payload) /\ pins_same w w'.
Proof.
  intros W Hn Hb. pose proof (winv_heap naddr ncap len pool w rs (Z.of_nat (length payload)) W Hn) as H. unfold heap_slice in H. rewrite Nat2Z.id in H. cbn [fst snd] in H.
  destruct H as (W1 & _ & _ & _). unfold fallback_slice, slice_new. cbn [bs_header bs_data bs_cap bs_start bs_offset_in_shm bs_read bs_from_shm]. set (n := Z.of_nat (length payload)) in *.
  rewrite wrap32_small by lia. set (m' := write_bytes (w_mem w) (w_heap w) payload). assert (F : mem_frame (w_heap w) (w_heap w + n) (w_mem w) m') by (apply mem_frame_write_bytes; lia).
  destruct (winv_write naddr ncap len pool _ _ (RHeap (w_heap w) n) m' W1 ltac:(left)) as [W2 _].
  { cbn. intros a Ha. rewrite F by lia. symmetry. apply rd_write_bytes_out. rewrite repeat_length. lia. }
  split; [exact W2|]. split; [|split; [|split; [|split; [|done]]]].
  - intros r Hr z Hz. symmetry. apply F. pose proof (bounds naddr ncap len pool w rs r W Hr). lia.
  - split; [by repeat split|]. cbn. lia.
  - unfold sbytes, slice_size. cbn [bs_data bs_read bs_write w_mem]. rewrite Z.add_0_r, Z.sub_0_r. unfold n. rewrite Nat2Z.id. by apply read_write_bytes.
  - unfold slice_size. cbn. lia.
Qed.

(** The state of a receiver while the sender is at work. *)
Lemma reading_frame (w w' : world) (lb : LinkedBuffer) (bufs : list Buf) (others others' : list res) (data : list Z) (vals : list (list Z)) (rs : list res) (ret : list (nat * res)) (leases : list lease) :
  reader w lb rs ret others leases data -> winv w' (rs ++ ret.*2 ++ others') -> same (rs ++ ret.*2 ++ others) (w_mem w) (w_mem w') -> pins_same w w' -> reader w' lb rs ret others' leases data.
Proof.
  intros R W' S' P'. apply (reader_frame naddr ncap len pool w w' lb rs ret others others' leases data R W' P').
  apply (same_data naddr ncap len pool w (rs ++ ret.*2 ++ others)); [apply (ri_world _ _ _ _ _ _ _ _ _ _ (rd_is _ _ _ _ _ _ _ _ _ _ _ R))|set_solver|]. eapply same_sub; [|exact S']. set_solver.
Qed.

Lemma receive_spec (fuel : nat) (w : world) (s : Session4) (e : QueueElement) (y : Stream4) (rs : list res) (ret : list (nat * res)) (others : list res) (leases : list lease) (old msg : list Z) (x : node) (xs : list node) :
  reader w (s4_recv y) rs ret ((RShm <$> x :: xs) ++ others) leases old -> message (w_mem w) (x :: xs) msg -> (length xs < fuel)%nat ->
  se4_streams s !! seq_id e = Some y -> s4_pending y = [] -> s4_state y <> STREAM_CLOSED -> offset_in_shm_buf e = naddr x -> status e = STREAM_OPENED ->
  exists w' s' y' rs', receive peer fuel w s e = Some (w', s') /\ se4_streams s' !! seq_id e = Some y' /\ reader w' (s4_recv y') rs' ret others leases (old ++ msg) /\
    s4_pending y' = [] /\ same others (w_mem w) (w_mem w').
Proof.
  intros R M Hf Hy Hpe Hst Eo Es. unfold receive, drain_one. rewrite Es, Eo. change (Z.land STREAM_OPENED 255) with STREAM_OPENED. unfold get_stream4. rewrite Hy.
  unfold handle_stream_message. change (STREAM_OPENED =? STREAM_CLOSED) with false. unfold fill_data_to_read_buffer. cbn [with_pending s4_state].
  destruct (Z.eqb_spec (s4_state y) STREAM_CLOSED) as [?|_]; [done|]. cbn [mbind option_bind se4_streams]. rewrite lookup_insert_eq. cbn [mbind option_bind].
  unfold move_pending_data. cbn [with_pending s4_recv s4_fallback s4_pending s4_id s4_state s4_send]. rewrite Hpe. cbn [app move_all].
  destruct (move_chain_spec naddr ncap len pool peer xs x fuel w (s4_recv y) rs ret others leases old msg R M Hf) as (w' & lb' & rs' & -> & R' & S'). cbn [mbind option_bind].
  eexists w', _, _, rs'. split; [done|]. cbn [se4_streams]. rewrite lookup_insert_eq. split; [done|]. split; [done|]. done.
Qed.

Lemma receive_frame_spec (fuel : nat) (w : world) (s : Session4) (n v id : Z) (y : Stream4) (rs : list res) (ret : list (nat * res)) (others : list res) (leases : list lease) (old payload : list Z) :
  reader w (s4_recv y) rs ret others leases old -> 0 <= id < W32 -> 0 < Z.of_nat (length payload) < W32 -> Forall is_byte payload ->
  se4_streams s !! id = Some y -> s4_pending y = [] -> s4_state y <> STREAM_CLOSED ->
  exists w' s' y' rs', receive_frame peer fuel w s (fallback_encode n v id STREAM_OPENED ++ payload) = Some (w', s') /\ se4_streams s' !! id = Some y' /\ reader w' (s4_recv y') rs' ret others leases (old ++ payload) /\
    s4_pending y' = [] /\ s4_fallback y' = true /\ same others (w_mem w) (w_mem w').
Proof.
  intros R Hid Hn Hb Hy Hpe Hst. unfold receive_frame. destruct (fallback_fields n v id STREAM_OPENED payload Hid ltac:(done)) as (-> & -> & ->). change (Z.land STREAM_OPENED 255) with STREAM_OPENED.
  pose proof (ri_world _ _ _ _ _ _ _ _ _ _ (rd_is _ _ _ _ _ _ _ _ _ _ _ R)) as W. unfold handle_fallback_payload4, get_stream4. rewrite Hy.
  pose proof (fallback_slice_spec w _ payload W Hn Hb) as H. destruct (fallback_slice w payload) as [w1 sl]. cbn zeta in H. set (r := RHeap (w_heap w) _) in *. destruct H as (W1 & S1 & Hs & Eb & Ez & P1).
  unfold handle_stream_message. change (STREAM_OPENED =? STREAM_CLOSED) with false. unfold fill_data_to_read_buffer. cbn [with_pending s4_state].
  destruct (Z.eqb_spec (s4_state y) STREAM_CLOSED) as [?|_]; [done|]. cbn [mbind option_bind se4_streams]. rewrite lookup_insert_eq. cbn [mbind option_bind].
  unfold move_pending_data. cbn [s4_recv s4_fallback s4_pending s4_id s4_state s4_send]. rewrite Hpe. cbn [app move_all mbind option_bind].
  assert (R1 : reader w1 (s4_recv y) rs ret (r :: others) leases old).
  { apply (reading_frame w w1 (s4_recv y) [] others (r :: others) old [] rs ret leases R); [|done|done]. eapply winv_perm; [exact PL| |exact W1]. by rewrite !app_assoc, Permutation_middle. }
  eexists w1, _, _, (rs ++ [r]). split; [done|]. cbn [se4_streams]. rewrite lookup_insert_eq. split; [done|]. cbn [s4_recv s4_pending s4_fallback]. split; [|split; [done|split; [done|eapply same_sub; [|exact S1]; set_solver]]].
  rewrite <- Eb. apply append_slice_spec; [done|done|done|lia].
Qed.

(** C16. A flush hands a message over whole or keeps nothing of it: it goes to the queue as
    one chain that holds exactly the bytes written, or over the socket as one frame
    with them, or the flush fails; unless the chain is on the queue every slice is
    back in the pool, and nobody else's memory changes, whatever the retries meet. *)
Theorem flush_v4_accounts (q : Queue) (version : Z) (w : world) (x : Stream4) (m : mem) (env : list attempt) (others : list res) (data : list Z) :
  qu_cap q <> 0 -> writer w (s4_send x) others data -> data <> [] -> lb_slots (s4_send x) = [] ->
  exists r w' x', flush_v4 bm q version w x m env = Some (r, w', x') /\ flushed version q x data others r w' /\ same others (w_mem w) (w_mem w') /\
    s4_send x' = lb_new /\ (s4_state x <> STREAM_OPENED -> r = Err StreamClosed).
Proof.
  intros Hq (rs & W & Hok & Hl) Hne Hsl. destruct (flush_spec naddr ncap len pool bm q version w x m env rs others data Hq W Hok Hl Hne Hsl) as (r & w' & x' & E & F & S' & _ & E1 & _ & _ & E2).
  by exists r, w', x'.
Qed.

(** C3. A message crosses between two processes: whatever a sender writes into a fresh
    buffer and flushes, the receiver that takes the element of the queue, or the frame
    from the socket, finds appended to what it has not read yet, byte for byte, and
    what its readers hold is untouched; the two sides may have different managers of
    one mapping. *)
Theorem message_crosses_v4 (q : Queue) (version : Z) (w : world) (x y : Stream4) (s : Session4) (m : mem) (env : list attempt) (ops : list wop) (others : list res)
    (bufs : list Buf) (old : list Z) (vals : list (list Z)) :
  qu_cap q <> 0 -> s4_send x = lb_new -> s4_state x = STREAM_OPENED -> Forall wop_ok ops -> written ops <> [] -> Z.of_nat (length (written ops)) < W32 -> 0 <= s4_id x < W32 ->
  se4_streams s !! s4_id x = Some y -> s4_pending y = [] -> s4_state y <> STREAM_CLOSED -> reading (mkR w (s4_recv y) bufs) others old vals ->
  exists w1 lb1 r w2 x2, write_ops bm w (s4_send x) ops = Some (w1, lb1) /\ flush_v4 bm q version w1 (with_send x lb1) m env = Some (r, w2, x2) /\
    match r with
    | Ok (SentQueue e m') => exists n, forall fuel, (n <= fuel)%nat -> exists w3 s3 y3, receive peer fuel w2 s e = Some (w3, s3) /\
        se4_streams s3 !! s4_id x = Some y3 /\ reading (mkR w3 (s4_recv y3) bufs) others (old ++ written ops) vals
    | Ok (SentSocket frame) => forall fuel, exists w3 s3 y3, receive_frame peer fuel w2 s frame = Some (w3, s3) /\
        se4_streams s3 !! s4_id x = Some y3 /\ reading (mkR w3 (s4_recv y3) bufs) others (old ++ written ops) vals
    | Ok SentNothing => False
    | Err _ => reading (mkR w2 (s4_recv y) bufs) others old vals
    end.
Proof.
  intros Hq Ex Hst Hops Hne Hlen Hid Hy Hpe Hsty (rs & ret & leases & R & Hp & HF). cbn [r_world r_lb r_bufs] in *.
  pose proof (ri_world _ _ _ _ _ _ _ _ _ _ (rd_is _ _ _ _ _ _ _ _ _ _ _ R)) as W. rewrite Ex.
  destruct (write_ops_spec naddr ncap len pool bm w lb_new (rs ++ ret.*2 ++ others) [] ops (writer_new naddr ncap len pool w _ W) Hops) as (w1 & lb1 & E1 & (rs1 & W1 & Hok1 & Hl1) & S1 & P1 & F1 & Es1). cbn [app] in *.
  destruct (flush_spec naddr ncap len pool bm q version w1 (with_send x lb1) m env rs1 (rs ++ ret.*2 ++ others) (written ops) Hq W1 Hok1 Hl1 Hne Es1) as (r & w2 & x2 & E2 & Hfl & S2 & [P2 F2] & _).
  exists w1, lb1, r, w2, x2. split; [done|]. split; [done|]. assert (S02 : same (rs ++ ret.*2 ++ others) (w_mem w) (w_mem w2)) by (by apply (same_trans _ _ _ _ (w_mem w1))).
  assert (P02 : pins_same w w2) by (split; congruence). assert (Hbytes : Forall is_byte (written ops)).
  { unfold written. apply Forall_join, Forall_fmap. eapply Forall_impl; [exact Hops|]. by intros o (? & _). }
  assert (Hkeep : forall others', winv w2 (rs ++ ret.*2 ++ others') -> reader w2 (s4_recv y) rs ret others' leases old).
  { intros others' W'. by apply (reading_frame w w2 (s4_recv y) [] others others' old [] rs ret leases R). }
  destruct r as [[e m'|frame|]|err]; cbn [LegacyStreamFacts.flushed s4_id with_send] in Hfl.
  - destruct Hfl as (n & ns & m0 & M & W2 & -> & _). exists (S (length ns)). intros fuel Hfu. cbn [seq_id offset_in_shm_buf status].
    assert (R2 : reader w2 (s4_recv y) rs ret ((RShm <$> n :: ns) ++ others) leases old).
    { apply Hkeep. eapply winv_perm; [exact PL| |exact W2]. rewrite (Permutation_app_comm (RShm <$> n :: ns)), <- !app_assoc. do 2 f_equiv. by rewrite Permutation_app_comm. }
    destruct (receive_spec fuel w2 s (mkQE (s4_id x) (naddr n) STREAM_OPENED) y rs ret others leases old (written ops) n ns R2 M ltac:(lia) Hy Hpe Hsty eq_refl eq_refl) as (w3 & s3 & y3 & rs3 & E3 & Ey & R3 & _).
    exists w3, s3, y3. split; [done|]. split; [done|]. by exists rs3, ret, leases.
  - destruct Hfl as [-> W2]. intros fuel. assert (Hlp : 0 < Z.of_nat (length (written ops)) < W32) by (destruct (written ops); [done|cbn [length] in *; lia]).
    destruct (receive_frame_spec fuel w2 s (Z.of_nat (length (written ops)) + 16) version (s4_id x) y rs ret others leases old (written ops) (Hkeep others W2) Hid Hlp Hbytes Hy Hpe Hsty)
      as (w3 & s3 & y3 & rs3 & E3 & Ey & R3 & _). exists w3, s3, y3. split; [done|]. split; [done|]. by exists rs3, ret, leases.
  - done.
  - exists rs, ret, leases. split; [|done]. cbn [r_world r_lb]. by apply Hkeep.
Qed.

(** What is delivered is read in the order of delivery, over the queue and over the
    socket. *)
Lemma pending_in_order (fuel : nat) (w : world) (x : Stream4) (items : list item) (others : list res) (bufs : list Buf) (old : list Z) (vals : list (list Z)) :
  Forall2 (holds naddr ncap (w_mem w)) (s4_pending x) items -> Forall (fun i => item_size i < fuel)%nat items ->
  reading (mkR w (s4_recv x) bufs) (all_res items ++ others) old vals ->
  exists w' x', move_pending_data peer fuel w x = Some (w', x') /\ s4_pending x' = [] /\ reading (mkR w' (s4_recv x') bufs) others (old ++ mjoin (item_data <$> items)) vals.
Proof.
  intros HF Hfu (rs & ret & leases & R & Hp & HB). cbn [r_world r_lb r_bufs] in *. unfold move_pending_data.
  destruct (move_all_spec naddr ncap len pool peer fuel (s4_pending x) items w (s4_recv x) (s4_fallback x) rs ret others leases old R HF Hfu) as (w' & lb' & fb & rs' & -> & R' & _). cbn [mbind option_bind].
  eexists w', _. split; [done|]. split; [done|]. by exists rs', ret, leases.
Qed.

(** What a stream holds goes back, except for what its readers have. *)
Lemma clean_local_spec (fuel : nat) (w : world) (x : Stream4) (items : list item) (srs others : list res) (bufs : list Buf) (old unsent : list Z) (vals : list (list Z)) :
  Forall2 (holds naddr ncap (w_mem w)) (s4_pending x) items -> Forall (fun i => item_size i < fuel)%nat items ->
  reading (mkR w (s4_recv x) bufs) (all_res items ++ srs ++ others) old vals -> wr_ok naddr ncap (w_mem w) (s4_send x) srs unsent -> lb_slots (s4_send x) = [] ->
  exists w' x', clean_local_buffers peer fuel w x = Some (w', x') /\ s4_recv x' = lb_new /\ s4_send x' = lb_new /\ s4_pending x' = [] /\ s4_id x' = s4_id x /\ s4_state x' = s4_state x /\ s4_fallback x' = s4_fallback x /\
    buf_bytes (w_mem w') <$> bufs = vals /\ winv (fold_left (drop_buf peer) bufs w') others.
Proof using EqDecision0 PL MP.
  clear dependent bm. intros HF Hfu (rs & ret & leases & R & Hp & HB) Hok Hsl. cbn [r_world r_lb r_bufs] in *. pose proof (ri_world _ _ _ _ _ _ _ _ _ _ (rd_is _ _ _ _ _ _ _ _ _ _ _ R)) as W.
  set (mine := rs ++ ret.*2 ++ srs ++ others). assert (W0 : winv w (all_res items ++ mine)).
  { eapply winv_perm; [exact PL| |exact W]. unfold mine. rewrite !app_assoc. do 2 f_equiv. by rewrite <- !app_assoc, (Permutation_app_comm (all_res items)), app_assoc. }
  unfold clean_local_buffers, clean_pending_data. destruct (clean_pending_spec naddr ncap len pool peer fuel (s4_pending x) items w mine W0 HF Hfu) as (w1 & -> & W1 & S1 & P1). cbn [mbind option_bind with_pending s4_recv s4_send].
  assert (R1 : reader w1 (s4_recv x) rs ret (srs ++ others) leases old).
  { apply (reader_frame naddr ncap len pool w w1 (s4_recv x) rs ret _ (srs ++ others) leases old R W1 P1). apply (same_data naddr ncap len pool w1 mine); [done|unfold mine; set_solver|]. eapply same_sub; [|exact S1]. unfold mine. set_solver. }
  pose proof (recycle_lb_spec naddr ncap len pool peer w1 (s4_recv x) rs ret (srs ++ others) leases (rd_is _ _ _ _ _ _ _ _ _ _ _ R1)) as H. destruct (lb_recycle peer w1 (s4_recv x)) as [w2 lb2].
  destruct H as (ret2 & HI2 & S2 & ->). pose proof (ri_world _ _ _ _ _ _ _ _ _ _ HI2) as W2. cbn [app] in W2.
  assert (W2' : winv w2 (srs ++ ret2.*2 ++ others)) by (eapply winv_perm; [exact PL| |exact W2]; by rewrite !app_assoc, (Permutation_app_comm srs)).
  pose proof (plain_recycle naddr ncap len pool peer w2 (s4_send x) srs (ret2.*2 ++ others) W2' (wo_slices _ _ _ _ _ _ Hok) Hsl) as H. destruct (lb_recycle peer w2 (s4_send x)) as [w3 lb3].
  destruct H as (W3 & S3 & P3 & ->). assert (R3 : reader w3 lb_new [] ret2 others leases []).
  { apply (reader_frame naddr ncap len pool w2 w3 lb_new [] ret2 (srs ++ others) others leases []); [by split|done|done|]. apply (same_data naddr ncap len pool w3 (ret2.*2 ++ others)); [done|set_solver|]. eapply same_sub; [|exact S3]. set_solver. }
  eexists w3, _. split; [done|]. do 6 (split; [done|]). split.
  - apply (reading_vals naddr ncap len pool (mkR w3 lb_new bufs) others []). by exists [], ret2, leases.
  - destruct (drop_all_spec naddr ncap len pool peer w3 lb_new [] ret2 others leases bufs vals (rd_is _ _ _ _ _ _ _ _ _ _ _ R3) Hp (Forall2_length _ _ _ HB)) as (ret4 & HI4 & _).
    destruct ret4 as [|[id r] ret4]; [exact (ri_world _ _ _ _ _ _ _ _ _ _ HI4)|]. destruct (ri_ret _ _ _ _ _ _ _ _ _ _ HI4 id r ltac:(left)) as [_ Hpos]. cbn in Hpos. lia.
Qed.

(** C32. Closing a stream returns all its buffers: what was delivered and not taken, what is
    not read and what is not sent goes back to the pool; what its readers still hold
    stays as it is until they drop it, and then that is back too.  The peer is told
    once, and only of a stream that was open: through the queue if it has room and the
    stream never fell back, and otherwise over the socket. *)
Theorem close_returns_v4 (q : Queue) (version : Z) (fuel : nat) (w : world) (s : Session4) (x : Stream4) (m : mem) (shutdown : bool) (items : list item) (srs others : list res)
    (bufs : list Buf) (old unsent : list Z) (vals : list (list Z)) :
  qu_cap q <> 0 -> s4_state x <> STREAM_CLOSED -> Forall2 (holds naddr ncap (w_mem w)) (s4_pending x) items -> Forall (fun i => item_size i < fuel)%nat items ->
  reading (mkR w (s4_recv x) bufs) (all_res items ++ srs ++ others) old vals -> wr_ok naddr ncap (w_mem w) (s4_send x) srs unsent -> lb_slots (s4_send x) = [] ->
  exists r w' s' x', close4 peer q version fuel w s x m shutdown = Some (r, w', s', x') /\ se4_streams s' = delete (s4_id x) (se4_streams s) /\
    s4_state x' = STREAM_CLOSED /\ s4_recv x' = lb_new /\ s4_send x' = lb_new /\ s4_pending x' = [] /\
    buf_bytes (w_mem w') <$> bufs = vals /\ winv (fold_left (drop_buf peer) bufs w') others /\
    match r with
    | SentNothing => s4_state x <> STREAM_OPENED \/ shutdown = true
    | SentQueue e m' => s4_state x = STREAM_OPENED /\ s4_fallback x = false /\ e = mkQE (s4_id x) 0 STREAM_CLOSED /\ put q m e = Some (Ok tt, m')
    | SentSocket frame => s4_state x = STREAM_OPENED /\ frame = close_encode version (s4_id x)
    end.
Proof using EqDecision0 PL MP.
  clear dependent bm. intros Hq Hc HF Hfu HR Hok Hsl. unfold close4. destruct (Z.eqb_spec (s4_state x) STREAM_CLOSED) as [?|_]; [done|].
  set (x1 := mkS4 (s4_id x) STREAM_CLOSED (s4_fallback x) (s4_recv x) (s4_pending x) (s4_send x)).
  destruct (clean_local_spec fuel w x1 items srs others bufs old unsent vals HF Hfu HR Hok Hsl) as (w' & x' & -> & E1 & E2 & E3 & E4 & E5 & E6 & HV & HW). cbn [mbind option_bind].
  rewrite E4, E6. cbn [x1 s4_id s4_fallback]. destruct (Z.eqb_spec (s4_state x) STREAM_OPENED) as [Ho|Ho]; cbn [negb orb].
  2: { eexists _, w', _, x'. split; [done|]. do 7 (split; [done|]). by left. }
  destruct shutdown; [eexists _, w', _, x'; split; [done|]; do 7 (split; [done|]); by right|].
  destruct (s4_fallback x) eqn:Ef; [eexists _, w', _, x'; split; [done|]; do 7 (split; [done|]); done|].
  destruct (try_put_outcome q (mkQE (s4_id x) 0 STREAM_CLOSED) m Hq) as (r & -> & Hr). cbn [mbind option_bind].
  eexists _, w', _, x'. split; [done|]. do 7 (split; [done|]). by destruct r.
Qed.

(** A message for a stream the client has closed, or does not know, goes back at once. *)
Lemma undelivered_returned (fuel : nat) (w : world) (s : Session4) (e : QueueElement) (others : list res) (msg : list Z) (x : node) (xs : list node) :
  winv w ((RShm <$> x :: xs) ++ others) -> message (w_mem w) (x :: xs) msg -> (length xs < fuel)%nat ->
  se4_client s = true -> se4_streams s !! seq_id e = None -> offset_in_shm_buf e = naddr x -> status e = STREAM_OPENED ->
  exists w', drain_one peer fuel w s e = Some (w', s, false) /\ winv w' others /\ same others (w_mem w) (w_mem w').
Proof.
  intros W M Hf Hc Hn Eo Es. unfold drain_one, get_stream4. rewrite Es, Eo, Hn, Hc. change (Z.land STREAM_OPENED 255) with STREAM_OPENED. cbn [negb andb]. rewrite Z.eqb_refl.
  destruct (return_message naddr ncap len pool peer xs x fuel w others msg W M Hf) as (sl & m' & -> & -> & W' & S'). cbn [mbind option_bind]. by eexists.
Qed.

End streams.

(** ** Corners *)

(** A buffer with bytes in it whose header names itself or another one of a circle, as a
    peer can write it. *)
Definition leads (bm : BufferManager) (m : mem) (a b : Z) : bool :=
  match read_buffer_slice bm m a with
  | Some s => match bs_header s with Some h => negb (slice_size s =? 0) && has_next h m && (next_buffer_offset h m =? b) | None => false end
  | None => false
  end.

Lemma leads_chain (bm : BufferManager) (fuel : nat) (w : world) (lb : LinkedBuffer) (a b : Z) :
  leads bm (w_mem w) a b = true -> exists lb', move_chain bm (S fuel) w lb a = move_chain bm fuel w lb' b.
Proof.
  unfold leads. cbn [move_chain]. destruct (read_buffer_slice bm (w_mem w) a) as [s|]; [|done]. destruct (bs_header s) as [h|]; [|done].
  intros [[?%negb_true_iff ?]%andb_true_iff ?%Z.eqb_eq]%andb_true_iff. simplify_eq. eexists. by rewrite H, H0.
Qed.

(** A circle keeps [move_pending_data] busy for ever: the buffer it fills grows without
    bound. *)
Lemma circle_never_moved (bm : BufferManager) (w : world) (a b : Z) :
  leads bm (w_mem w) a b = true -> leads bm (w_mem w) b a = true -> forall fuel lb, move_chain bm fuel w lb a = None /\ move_chain bm fuel w lb b = None.
Proof.
  intros Ha Hb fuel. induction fuel as [|fuel IH]; intros lb; [done|].
  destruct (leads_chain bm fuel w lb a b Ha) as (? & ->), (leads_chain bm fuel w lb b a Hb) as (? & ->). split; apply IH.
Qed.

(** Two of the buffers of a mapping can be linked that way. *)
Lemma circle_exists :
  let '(bm, m) := made one_size 172 in
  let '(_, m) := alloc_all bm m 2 in
  let m := link_next 76 (link_next 44 (set_size 76 (set_size 44 m 1) 1) 76) 44 in
  leads bm m 44 76 && leads bm m 76 44 = true.
Proof. vm_compute. reflexivity. Qed.

(** Nothing makes the session take what is on the queue before it handles an event of the
    socket.  If another task drains the queue, as with an eventfd or with polling, a
    fallback frame is delivered in front of a message that was flushed before it. *)
Lemma fallback_overtakes_v4 (bm : BufferManager) (fuel : nat) (w : world) (s : Session4) (y : Stream4) (e : QueueElement) (payload : list Z) :
  se4_streams s !! seq_id e = Some y -> s4_state y <> STREAM_CLOSED -> status e = STREAM_OPENED ->
  exists w1 s1 w2 s2 y2 sl, handle_fallback_payload4 bm fuel w s (seq_id e) STREAM_OPENED payload = Some (w1, s1) /\
    drain_one bm fuel w1 s1 e = Some (w2, s2, false) /\ se4_streams s2 !! seq_id e = Some y2 /\ s4_pending y2 = s4_pending y ++ [Fallback sl; Offset (offset_in_shm_buf e)].
Proof.
  intros Hy Hst Es. unfold handle_fallback_payload4, get_stream4. rewrite Hy. destruct (fallback_slice w payload) as [w1 sl].
  unfold handle_stream_message, fill_data_to_read_buffer. change (STREAM_OPENED =? STREAM_CLOSED) with false. cbn [with_pending s4_state].
  destruct (Z.eqb_spec (s4_state y) STREAM_CLOSED) as [?|Hn]; [done|]. cbn [mbind option_bind].
  eexists w1, _, w1, _, _, sl. split; [done|]. unfold drain_one, get_stream4. rewrite Es. change (Z.land STREAM_OPENED 255) with STREAM_OPENED. cbn [se4_streams se4_client se4_accepted]. rewrite lookup_insert_eq.
  unfold handle_stream_message, fill_data_to_read_buffer. change (STREAM_OPENED =? STREAM_CLOSED) with false. cbn [with_pending s4_state s4_pending].
  destruct (Z.eqb_spec (s4_state y) STREAM_CLOSED) as [?|_]; [done|]. cbn [mbind option_bind].
  split; [done|]. cbn [se4_streams]. rewrite lookup_insert_eq. split; [done|]. cbn [s4_pending]. by rewrite <- app_assoc.
Qed.

(** In the same way a close that found the queue full, and went over the socket, overtakes
    the data on the queue: a server has forgotten the stream by then, and the data
    open a new one under the same identifier. *)
Lemma close_overtakes_v4 (bm : BufferManager) (fuel : nat) (w : world) (s : Session4) (y : Stream4) (e : QueueElement) :
  se4_client s = false -> se4_streams s !! seq_id e = Some y -> s4_state y = STREAM_OPENED -> status e = STREAM_OPENED ->
  exists y1 s1 s2 y2, handle_stream_close4 s (seq_id e) = (Some y1, s1) /\ s4_state y1 = STREAM_HALF_CLOSED /\ s4_pending y1 = s4_pending y /\
    drain_one bm fuel w s1 e = Some (w, s2, false) /\ se4_accepted s2 = se4_accepted s ++ [seq_id e] /\
    se4_streams s2 !! seq_id e = Some y2 /\ s4_state y2 = STREAM_OPENED /\ s4_pending y2 = [Offset (offset_in_shm_buf e)].
Proof.
  intros Hc Hy Ho Es. unfold handle_stream_close4. rewrite Hy. cbn [fmap option_fmap option_map].
  unfold drain_one, get_stream4. rewrite Es. change (Z.land STREAM_OPENED 255) with STREAM_OPENED. cbn [se4_streams se4_client se4_accepted].
  eexists _, _, _, _. split; [done|]. unfold half_close4. rewrite Ho, Z.eqb_refl. cbn [s4_state s4_pending]. split; [done|]. split; [done|].
  cbn [se4_streams se4_client se4_accepted]. rewrite lookup_delete_eq, Hc. cbn [negb andb].
  unfold handle_stream_message, fill_data_to_read_buffer. change (STREAM_OPENED =? STREAM_CLOSED) with false. cbn [with_pending s4_state stream4_new s4_pending app].
  change (STREAM_OPENED =? STREAM_CLOSED) with false. cbn [mbind option_bind se4_streams se4_client se4_accepted]. split; [done|]. split; [done|]. cbn [se4_streams]. rewrite lookup_insert_eq. done.
Qed.

(** What is written and not flushed when the stream is released for reuse becomes what is
    read next on the same side, if the last message was read to its end. *)
Lemma reuse_swaps_unsent :
  let '(bm, m) := made one_size 172 in
  let w := mkW m 172 ∅ 0 in
  match write_ops bm w lb_new [WBytes [1; 2; 3]] with
  | Some (w1, unsent) =>
      match alloc_shm_buffer bm (w_mem w1) 3 with
      | (Ok s, m2) =>
          let recv := append_buffer_slice lb_new s in
          let '(w', x') := release_read_and_reuse bm (mkW m2 172 ∅ 0) (mkS4 1 STREAM_OPENED false recv [] unsent) in
          contents (w_mem w') (lb_slices (s4_recv x')) = [1; 2; 3] /\ lb_len (s4_recv x') = 3 /\ lb_len (s4_send x') = 0
      | _ => False
      end
  | None => False
  end.
Proof. vm_compute. repeat split. Qed.

(** ** Witnesses *)

Definition sample_ops : list wop := [WBytes (repeat 7 10); WFill [1; 2; 3; 4]].

Lemma sample_ops_ok : Forall wop_ok sample_ops.
Proof. repeat constructor; cbn; try lia; try discriminate. Qed.

Definition sample_queue : Queue := mkQueue 0 4 LayoutAligned.

Definition sample_stream (lb : LinkedBuffer) : Stream4 := mkS4 1 STREAM_OPENED false lb_new [] lb.

Lemma flush_v4_accounts_witness :
  exists m w lb r w' x', write_ops (sample_bm 20) (mkW m 172 ∅ 0) lb_new sample_ops = Some (w, lb) /\
    flush_v4 (sample_bm 20) sample_queue 4 w (sample_stream lb) ∅ [] = Some (r, w', x') /\
    flushed (addr 8 sample_geo) (bcap sample_geo) 172 (in_use 8 sample_geo) 4 sample_queue (sample_stream lb) (written sample_ops) [] r w' /\ s4_send x' = lb_new.
Proof.
  destruct sample_world as (m & W).
  destruct (write_ops_spec (addr 8 sample_geo) (bcap sample_geo) 172 (in_use 8 sample_geo) (sample_bm 20) (mkW m 172 ∅ 0) lb_new [] [] sample_ops (writer_new _ _ _ _ _ [] W) sample_ops_ok)
    as (w & lb & E & Hw & _ & _ & _ & Es).
  destruct (flush_v4_accounts (addr 8 sample_geo) (bcap sample_geo) 172 (in_use 8 sample_geo) (sample_bm 20) sample_queue 4 w (sample_stream lb) ∅ [] [] (written sample_ops)) as (r & w' & x' & E' & F & _ & Ex & _).
  - discriminate.
  - exact Hw.
  - discriminate.
  - exact Es.
  - exists m, w, lb, r, w', x'. split; [exact E|]. split; [exact E'|]. split; [exact F|exact Ex].
Defined.

Definition sample_session : Session4 := mkSess4 false {[ 1 := stream4_new 1 ]} [].

Lemma message_crosses_v4_witness :
  exists m w1 lb1 r w2 x2, write_ops (sample_bm 20) (mkW m 172 ∅ 0) lb_new sample_ops = Some (w1, lb1) /\
    flush_v4 (sample_bm 20) sample_queue 4 w1 (sample_stream lb1) ∅ [] = Some (r, w2, x2) /\
    match r with
    | Ok (SentQueue e m') => exists n, forall fuel, (n <= fuel)%nat -> exists w3 s3 y3, receive (sample_bm 24) fuel w2 sample_session e = Some (w3, s3) /\
        se4_streams s3 !! 1 = Some y3 /\ contents (w_mem w3) (lb_slices (s4_recv y3)) = repeat 7 10 ++ [1; 2; 3; 4]
    | _ => True
    end.
Proof.
  destruct sample_world as (m & W). exists m.
  destruct (message_crosses_v4 (addr 8 sample_geo) (bcap sample_geo) 172 (in_use 8 sample_geo) (sample_bm 20) (sample_bm 24) sample_queue 4 (mkW m 172 ∅ 0) (sample_stream lb_new) (stream4_new 1) sample_session ∅ [] sample_ops [] [] [] [])
    as (w1 & lb1 & r & w2 & x2 & E1 & E2 & H).
  - discriminate.
  - reflexivity.
  - reflexivity.
  - exact sample_ops_ok.
  - discriminate.
  - reflexivity.
  - split; [discriminate|reflexivity].
  - reflexivity.
  - reflexivity.
  - discriminate.
  - exact (reading_new _ _ _ _ (mkW m 172 ∅ 0) [] W eq_refl).
  - exists w1, lb1, r, w2, x2. split; [exact E1|]. split; [exact E2|]. destruct r as [[e m'|frame|]|err]; [|exact I|exact I|exact I].
    destruct H as (n & H). exists n. intros fuel Hf. destruct (H fuel Hf) as (w3 & s3 & y3 & E3 & Ey & (rs & ret & leases & R & _)). exists w3, s3, y3. split; [exact E3|]. split; [exact Ey|].
    exact (rd_data _ _ _ _ _ _ _ _ _ _ _ R).
Defined.

(** What was flushed is on the queue: there the flush takes shared memory. *)
Lemma sample_flush_queued :
  let '(bm, m) := made one_size 172 in
  match write_ops bm (mkW m 172 ∅ 0) lb_new sample_ops with
  | Some (w, lb) => match flush_v4 bm sample_queue 4 w (sample_stream lb) ∅ [] with Some (Ok (SentQueue e _), _, _) => offset_in_shm_buf e = 44 | _ => False end
  | None => False
  end.
Proof. vm_compute. reflexivity. Qed.

Lemma close_returns_v4_witness :
  exists m w lb r w' s' x', write_ops (sample_bm 24) (mkW m 172 ∅ 0) lb_new sample_ops = Some (w, lb) /\
    close4 (sample_bm 24) sample_queue 4 1 w sample_session (sample_stream lb) ∅ false = Some (r, w', s', x') /\ winv 172 (in_use 8 sample_geo) w' [].
Proof.
  destruct sample_world as (m & W).
  destruct (write_ops_spec (addr 8 sample_geo) (bcap sample_geo) 172 (in_use 8 sample_geo) (sample_bm 24) (mkW m 172 ∅ 0) lb_new [] [] sample_ops (writer_new _ _ _ _ _ [] W) sample_ops_ok)
    as (w & lb & E & (rs & W1 & Hok & _) & _ & P & _ & Es).
  destruct (close_returns_v4 (addr 8 sample_geo) (bcap sample_geo) 172 (in_use 8 sample_geo) (sample_bm 24) sample_queue 4 1 w sample_session (sample_stream lb) ∅ false [] rs [] [] [] (written sample_ops) [])
    as (r & w' & s' & x' & E' & _ & _ & _ & _ & _ & _ & W' & _).
  - discriminate.
  - discriminate.
  - constructor.
  - constructor.
  - exact (reading_new _ _ _ _ w (rs ++ []) W1 P).
  - exact Hok.
  - exact Es.
  - exists m, w, lb, r, w', s', x'. split; [exact E|]. split; [exact E'|exact W'].
Defined.
