(* ===== verification/DataQueue.v ===== *)
(** * The event queue between peers ([src/src/v5/queue.rs])

    A ring of sixteen-byte elements behind a header that holds the consumer's
    working flag.  [SendQueue] and [RecvQueue] are the two roles of one
    [DataQueue]; their methods delegate to it. *)

From Stdlib Require Import ZArith Lia.
From stdpp Require Import base numbers list gmap.
From S2P Require Import Prelude Bytes Mpsc.

#[local] Open Scope Z_scope.

Definition OP_OPEN_STREAM : Z := 1.

Definition OP_CLOSE_STREAM : Z := 2.

Definition OP_STREAM_DATA : Z := 3.

Definition QUEUE_HEADER_SIZE : Z := 64.

(** ** Elements *)

Record Element : Type := mkElement {
  stream_id : Z;
  op : Z;
  unused : list Z;
  e_data : list Z;
}.

#[export] Instance Element_eq_dec : EqDecision Element.
Proof. solve_decision. Defined.

Definition element_new (stream_id op : Z) : Element := mkElement stream_id op (repeat 0 3) (repeat 0 8).

Definition with_offset (stream_id op offset : Z) : Element :=
  mkElement stream_id op (repeat 0 3) (le_bytes 8 offset).

Definition e_offset (e : Element) : Z := to_i64 (le_val (e_data e)).

Definition e_set_offset (e : Element) (offset : Z) : Element :=
  mkElement (stream_id e) (op e) (unused e) (le_bytes 8 offset).

(** Field widths. *)
Definition element_ok (e : Element) : Prop :=
  0 <= stream_id e < W32 /\ is_byte (op e) /\
  length (unused e) = 3%nat /\ Forall is_byte (unused e) /\
  length (e_data e) = 8%nat /\ Forall is_byte (e_data e).

(** The [repr(C)] image of an element. *)
Definition element_bytes (e : Element) : list Z :=
  le_bytes 4 (stream_id e) ++ [op e] ++ unused e ++ e_data e.

Definition element_of (bs : list Z) : Element :=
  mkElement (le_val (take 4 bs)) (default 0 (bs !! 4%nat)) (take 3 (drop 5 bs)) (drop 8 bs).

Lemma element_bytes_length (e : Element) : element_ok e -> length (element_bytes e) = 16%nat.
Proof.
  intros (_ & _ & H1 & _ & H2 & _). unfold element_bytes.
  rewrite !length_app, le_bytes_length, H1, H2. done.
Qed.

Lemma element_bytes_ok (e : Element) : element_ok e -> Forall is_byte (element_bytes e).
Proof.
  intros (_ & H1 & _ & H2 & _ & H3). unfold element_bytes.
  repeat (apply Forall_app; split); try done; [apply le_bytes_ok|by constructor].
Qed.

Lemma element_of_bytes (e : Element) : element_ok e -> element_of (element_bytes e) = e.
Proof.
  intros (H1 & _ & H2 & _ & H3 & _). unfold element_of, element_bytes. destruct e as [s o u d].
  cbn [stream_id op unused e_data] in *. pose proof (le_bytes_length 4 s) as Hs. f_equal.
  - rewrite take_app_exact, le_val_bytes by done. by apply Z.mod_small.
  - change 5%nat with (4 + 1)%nat. rewrite <- drop_drop, (drop_app_exact 4), (drop_app_exact 1) by done.
    by rewrite take_app_exact.
  - change 8%nat with (4 + (1 + 3))%nat. rewrite <- drop_drop, (drop_app_exact 4), <- drop_drop by done.
    by rewrite (drop_app_exact 1), (drop_app_exact 3).
Qed.

(** An element in memory: at most its sixteen bytes are written. *)
Definition element_write (m : mem) (a : Z) (e : Element) : mem :=
  write_bytes m a (take 16 (element_bytes e)).

Definition element_read (m : mem) (a : Z) : Element := element_of (read_bytes m a 16).

#[refine, export] Instance Element_Payload : Payload Element := {|
  psize := 16;
  palign := 4;
  pwrite := element_write;
  pread := element_read;
  pok := element_ok;
|}.
Proof.
  - lia.
  - intros m a e He. unfold element_read, element_write. pose proof (element_bytes_length e He) as Hl.
    rewrite take_ge by lia. rewrite <- Hl at 1. rewrite read_write_bytes by (by apply element_bytes_ok).
    by apply element_of_bytes.
  - intros m a e. apply mem_frame_write_bytes; [lia|]. rewrite length_take. lia.
  - intros m m' a Hx. unfold element_read. f_equal. by apply read_bytes_ext.
Defined.

(** ** Sizes *)

Definition queue_mem_size (cap : Z) : Z := QUEUE_HEADER_SIZE + mpsc_mem_size Element cap.

Definition queue_cap (mapping_len : Z) : Z :=
  if mapping_len <? QUEUE_HEADER_SIZE then 0
  else
    let ring_len := mapping_len - QUEUE_HEADER_SIZE in
    if negb (is_multiple_of ring_len PAGE_SIZE) then 0 else mpsc_cap Element ring_len.

Definition validate_queue_size (size : Z) : bool :=
  if size <? QUEUE_HEADER_SIZE + PAGE_SIZE then false
  else is_multiple_of (size - QUEUE_HEADER_SIZE) PAGE_SIZE.

(** ** The queue *)

Record DataQueue : Type := mkDQ {
  dq_base : Z;
  dq_size : Z;
  dq_ring : Mpsc;
  dq_closed : bool;
}.

Definition with_ring (d : DataQueue) (q : Mpsc) : DataQueue := mkDQ (dq_base d) (dq_size d) q (dq_closed d).

Inductive QueueError : Type :=
| InvalidSize (size : Z)
| QueueTooSmall (size : Z)
| QueueLayout (e : LayoutError).

(** [m] and [base] are the fresh mapping of [queue_mem_size cap] bytes. *)
Definition dq_create (m : mem) (base cap : Z) : result QueueError DataQueue * mem :=
  let size := queue_mem_size cap in
  let m := write_bytes m base (repeat 0 (Z.to_nat QUEUE_HEADER_SIZE)) in
  match mpsc_new Element m (base + QUEUE_HEADER_SIZE) (size - QUEUE_HEADER_SIZE) with
  | (Ok ring, m) => (Ok (mkDQ base size ring false), m)
  | (Err e, m) => (Err (QueueLayout e), m)
  end.

Definition dq_map (base size : Z) : result QueueError DataQueue :=
  if negb (validate_queue_size size) then Err (InvalidSize size)
  else if queue_cap size =? 0 then Err (QueueTooSmall size)
  else match mpsc_map Element (base + QUEUE_HEADER_SIZE) (size - QUEUE_HEADER_SIZE) with
       | Ok ring => Ok (mkDQ base size ring false)
       | Err e => Err (QueueLayout e)
       end.

Definition dq_push (d : DataQueue) (m : mem) (e : Element)
    : option (result PushError unit * DataQueue * mem) :=
  if dq_closed d then Some (Err PushClosed, d, m)
  else
    '(pushed, ring, m) ← try_push (dq_ring d) m e;
    Some (if pushed : bool then Ok tt else Err PushFull, with_ring d ring, m).

(** [None] inside [Some] is the error of a queue closed locally. *)
Definition dq_pop (d : DataQueue) (m : mem) : option (option (option Element) * mem) :=
  if dq_closed d then Some (None, m)
  else '(v, m) ← pop (T := Element) (dq_ring d) m; Some (Some v, m).

Definition dq_try_pop (d : DataQueue) (m : mem) : option (PopResult Element) * mem :=
  if dq_closed d then (None, m)
  else let '(r, m) := try_pop (T := Element) (dq_ring d) m in (Some r, m).

(** The flag is the first word of the mapping. *)
Definition working_flag (d : DataQueue) (m : mem) : Z := load32 m (dq_base d).

Definition consumer_working (d : DataQueue) (m : mem) : bool := negb (working_flag d m =? 0).

Definition mark_working (d : DataQueue) (m : mem) : bool * mem :=
  if dq_closed d then (false, m)
  else if working_flag d m =? 0 then (true, store32 m (dq_base d) 1) else (false, m).

Definition mark_not_working (d : DataQueue) (m : mem) : bool * mem :=
  if dq_closed d then (true, m)
  else
    let m := store32 m (dq_base d) 0 in
    if negb (head_ready (dq_ring d) m) then (true, m)
    else (false, store32 m (dq_base d) 1).

Definition dq_len (d : DataQueue) (m : mem) : Z := mpsc_len (dq_ring d) m.

Definition dq_cap (d : DataQueue) : Z := cap (dq_ring d).

Definition dq_close (d : DataQueue) : DataQueue := mkDQ (dq_base d) (dq_size d) (dq_ring d) true.

(** ** Roles *)

Definition SendQueue : Type := DataQueue.

Definition put (s : SendQueue) (m : mem) (e : Element) : option (result PushError unit * SendQueue * mem) :=
  if dq_closed s then Some (Err PushClosed, s, m) else dq_push s m e.

Definition claim_peer_consumer (s : SendQueue) (m : mem) : bool * mem := mark_working s m.

Definition RecvQueue : Type := DataQueue.

Definition recv_map (base size : Z) : result QueueError RecvQueue := dq_map base size.

Definition recv_try_pop (r : RecvQueue) (m : mem) : option (PopResult Element) * mem := dq_try_pop r m.

Definition finish_draining (r : RecvQueue) (m : mem) : bool * mem := mark_not_working r m.
