(* ===== verification/Wakeup.v ===== *)
(** * The wakeup protocol of a queue, interleaved

    Producers put an element, then claim the consumer's working flag and pay for
    the wakeup if they won it ([Session::wake_up_peer]); the consumer drains,
    clears the flag, looks once more and either goes on or sleeps
    ([Session::drain_recv_queue_v5_locked] with [finish_draining]).  Every atomic
    action of the ring ([MpscConc]) and of the flag is a step of its own, in one
    global order.  The flag is a field here: it lies in the queue header, in
    front of the ring. *)

From Stdlib Require Import ZArith Lia.
From stdpp Require Import base numbers list gmap relations.
From S2P Require Import Prelude Mpsc MpscFacts MpscSeq MpscConc.

#[local] Open Scope Z_scope.

(** Where a sending thread is: not sending, inside [put], about to run
    [claim_peer_consumer], about to write the wakeup. *)
Inductive wprod : Type :=
| WIdle
| WPushing
| WClaiming
| WWaking.

(** Where the consumer is: waiting for a wakeup, popping, past the store that
    clears the flag, past the check that found the head ready. *)
Inductive wcons : Type :=
| Asleep
| Draining
| Cleared
| Rearming.

#[export] Instance wprod_eq_dec : EqDecision wprod.
Proof. solve_decision. Defined.

#[export] Instance wcons_eq_dec : EqDecision wcons.
Proof. solve_decision. Defined.

Section wakeup.
Context {T : Type} `{Payload T}.

Record wstate : Type := mkW {
  w_ring : cstate (T := T);
  w_flag : bool;
  w_prods : list wprod;
  w_cons : wcons;
  w_events : nat;
}.

Inductive wchoice : Type :=
| WCall (i : nat) (v : T)
| WProd (i : nat) (weak : bool)
| WClaim (i : nat)
| WWake (i : nat)
| WSignal (k : nat)
| WPop
| WClear
| WCheck
| WRearm.

(** What a finished [try_push] leads to: a wakeup after a push, nothing after a
    refusal. *)
Definition after_push (pc : ppc T) : wprod :=
  match pc with
  | PDone true => WClaiming
  | PDone false => WIdle
  | _ => WPushing
  end.

(** The drain leaves its pop loop on an empty ring or an unpublished head. *)
Definition drained (pc : cpc T) : bool :=
  match pc with
  | CIdle Empty | CIdle HeadNotReady => true
  | _ => false
  end.

Definition do_wstep (q : Mpsc) (c : wchoice) (st : wstate) : option wstate :=
  let '(mkW ring flag prods consumer events) := st in
  match c with
  | WCall i v =>
      p ← prods !! i;
      if bool_decide (p = WIdle) then
        ring ← do_step q (Call i v) ring;
        Some (mkW ring flag (<[i := WPushing]> prods) consumer events)
      else None
  | WProd i weak =>
      p ← prods !! i;
      if bool_decide (p = WPushing) then
        ring ← do_step q (Prod i weak) ring;
        pc ← c_prods ring !! i;
        Some (mkW ring flag (<[i := after_push pc]> prods) consumer events)
      else None
  | WClaim i =>
      p ← prods !! i;
      if bool_decide (p = WClaiming) then
        if flag then Some (mkW ring flag (<[i := WIdle]> prods) consumer events)
        else Some (mkW ring true (<[i := WWaking]> prods) consumer events)
      else None
  | WWake i =>
      p ← prods !! i;
      if bool_decide (p = WWaking)
      then Some (mkW ring flag (<[i := WIdle]> prods) consumer (S events)) else None
  | WSignal k =>
      if bool_decide (consumer = Asleep) && (0 <? k)%nat && (k <=? events)%nat
      then Some (mkW ring flag prods Draining (events - k)) else None
  | WPop =>
      if bool_decide (consumer = Draining) then
        ring ← do_step q Cons ring; Some (mkW ring flag prods consumer events)
      else None
  | WClear =>
      if bool_decide (consumer = Draining) && drained (c_cons ring)
      then Some (mkW ring false prods Cleared events) else None
  | WCheck =>
      if bool_decide (consumer = Cleared) then
        Some (mkW ring flag prods (if head_ready q (c_mem ring) then Rearming else Asleep) events)
      else None
  | WRearm =>
      if bool_decide (consumer = Rearming) then Some (mkW ring true prods Draining events) else None
  end.

Definition good_wchoice (c : wchoice) : Prop :=
  match c with WCall _ v => pok v | _ => True end.

Definition wstep (q : Mpsc) (st st' : wstate) : Prop :=
  exists c, good_wchoice c /\ do_wstep q c st = Some st'.

(** [n] idle senders over a fresh ring, the consumer asleep. *)
Definition winit (m : mem) (n : nat) : wstate :=
  mkW (cinit m n) false (replicate n WIdle) Asleep 0.

(** ** The invariant *)

(** A sender outside [put] has no ring operation under way. *)
Definition settled (w : wprod) (pc : ppc T) : Prop :=
  match w, pc with
  | WPushing, _ => True
  | _, PDone _ => True
  | _, _ => False
  end.

Record winv (q : Mpsc) (st : wstate) : Prop := {
  wi_ring : inv q (w_ring st);
  wi_prods : forall i w pc, w_prods st !! i = Some w -> c_prods (w_ring st) !! i = Some pc -> settled w pc;
  wi_len : length (w_prods st) = length (c_prods (w_ring st));
  wi_idle : w_cons st <> Draining -> exists r, c_cons (w_ring st) = CIdle r;
  wi_flag : w_flag st = true -> w_cons st = Asleep \/ w_cons st = Cleared ->
    (0 < w_events st)%nat \/ exists i, w_prods st !! i = Some WWaking;
  wi_ready : head_ready q (c_mem (w_ring st)) = true ->
    w_flag st = true \/ (exists i, w_prods st !! i = Some WClaiming) \/ w_cons st <> Asleep;
}.

Lemma exists_insert (l : list wprod) (j : nat) (x y z : wprod) :
  (exists i, l !! i = Some x) -> l !! j = Some y -> y <> x -> exists i, <[j := z]> l !! i = Some x.
Proof.
  intros [i Hi] Hj Hne. exists i. rewrite list_lookup_insert_ne; [done|]. intros ->. congruence.
Qed.

(** Only publishing can make the head ready. *)
Lemma prod_step_ready (q : Mpsc) (m m' : mem) (hc hc' : Z) (pc pc' : ppc T) (weak : bool) (ev : option T) :
  geo T q -> prod_step q m hc pc weak = Some (m', hc', pc', ev) ->
  pc' = PDone true \/ head_ready q m' = head_ready q m.
Proof.
  intros Hg Hs. destruct pc as [v|v tl|v tl|v tl hd|v tl|v p|v p|v p|r]; cbn in Hs;
    repeat case_if_in Hs; try done; injection Hs as <- <- <- <-; try (by right).
  - right. unfold head_ready. rewrite get_head_set_tail.
    by rewrite (proj1 (header_write_slots T q Hg _ _ _ (set_tail_frame q m (tl + 1)))).
  - right. unfold head_ready. rewrite (proj1 (get_head_slot T q Hg _ _ p (slot_val_frame T q m p v))).
    by rewrite (get_turn_set_val T q Hg).
  - by left.
Qed.

Lemma winv_init (q : Mpsc) (m : mem) (n : nat) :
  ring_ok q m ([] : list T) -> get_head q m = 0 -> winv q (winit m n).
Proof.
  intros Hok H0. split; cbn.
  - by apply inv_init.
  - intros i w pc Hw Hpc. apply lookup_replicate in Hw as [-> _]. by apply lookup_replicate in Hpc as [-> _].
  - by rewrite !length_replicate.
  - intros _. by exists Empty.
  - done.
  - pose proof (proj2 (len_spec q m [] Hok)) as E. cbn in E. by rewrite E.
Qed.

(** Replacing one sender's state, the ring unchanged. *)
Lemma settled_insert (q : Mpsc) (st : wstate) (i : nat) (w w' : wprod) :
  winv q st -> w_prods st !! i = Some w -> w <> WPushing ->
  forall j v pc, <[i := w']> (w_prods st) !! j = Some v -> c_prods (w_ring st) !! j = Some pc -> settled v pc.
Proof.
  intros Hinv Hi Hne j v pc Hj Hpc. destruct (decide (i = j)) as [<-|Hij].
  - rewrite list_lookup_insert_eq in Hj by (by eapply lookup_lt_Some). injection Hj as <-.
    pose proof (wi_prods _ _ Hinv i w pc Hi Hpc) as Hs. destruct w, pc; try done; destruct w'; done.
  - rewrite list_lookup_insert_ne in Hj by done. by apply (wi_prods _ _ Hinv j).
Qed.

Ltac guard_in H :=
  match type of H with
  | context [bool_decide ?P] => destruct (bool_decide_reflect P); [|done]; cbn [andb] in H; subst
  end.

Lemma winv_call (q : Mpsc) (st st' : wstate) (i : nat) (v : T) :
  winv q st -> pok v -> do_wstep q (WCall i v) st = Some st' -> winv q st'.
Proof.
  intros Hinv Hv Hs. destruct st as [ring flag prods consumer events]. cbn [do_wstep] in Hs.
  destruct (prods !! i) as [w|] eqn:Ew; [|done]. cbn [mbind option_bind] in Hs. guard_in Hs.
  destruct (do_step q (Call i v) ring) as [ring'|] eqn:Er; [|done]. cbn [mbind option_bind] in Hs. injection Hs as <-.
  pose proof Hinv as [Hr Hp Hl Hi Hf Hrd]. cbn in *.
  assert (Hst : cstep q ring ring') by (by exists (Call i v)).
  destruct (c_prods ring !! i) as [[]|] eqn:Ec; try done. injection Er as <-. split; cbn.
  - by apply (inv_step q ring).
  - intros j w pc Hw Hpc. destruct (decide (i = j)) as [<-|Hij].
    + rewrite list_lookup_insert_eq in Hw by (by eapply lookup_lt_Some). by injection Hw as <-.
    + rewrite list_lookup_insert_ne in Hw by done. rewrite list_lookup_insert_ne in Hpc by done. by apply (Hp j).
  - by rewrite !length_insert.
  - done.
  - intros Hfl Hc. destruct (Hf Hfl Hc) as [?|Hw]; [by left|right]. by eapply exists_insert.
  - intros Hh. destruct (Hrd Hh) as [?|[Hw|?]]; [by left|right; left|by right; right]. by eapply exists_insert.
Qed.

Lemma winv_prod (q : Mpsc) (st st' : wstate) (i : nat) (weak : bool) :
  winv q st -> do_wstep q (WProd i weak) st = Some st' -> winv q st'.
Proof.
  intros Hinv Hs. destruct st as [ring flag prods consumer events]. cbn [do_wstep] in Hs.
  destruct (prods !! i) as [w|] eqn:Ew; [|done]. cbn [mbind option_bind] in Hs. guard_in Hs.
  destruct (do_step q (Prod i weak) ring) as [ring'|] eqn:Er; [|done]. cbn [mbind option_bind] in Hs.
  destruct (c_prods ring' !! i) as [pc1|] eqn:Epc; [|done]. cbn [mbind option_bind] in Hs. injection Hs as <-.
  pose proof Hinv as [Hr Hp Hl Hi Hf Hrd]. cbn in *.
  assert (Hst : cstep q ring ring') by (by exists (Prod i weak)).
  destruct (c_prods ring !! i) as [pc|] eqn:Ec; [|done]. cbn [mbind option_bind] in Er.
  destruct (prod_step q (c_mem ring) (c_cache ring) pc weak) as [[[[m hc] pc'] ev]|] eqn:Eps; [|done].
  cbn [mbind option_bind] in Er. injection Er as <-. cbn in *.
  assert (pc1 = pc') as ->.
  { rewrite list_lookup_insert_eq in Epc by (by eapply lookup_lt_Some). by injection Epc. }
  pose proof (lookup_lt_Some _ _ _ Ew) as Hlt.
  split; cbn.
  - by apply (inv_step q ring).
  - intros j w pc0 Hw Hpc0. destruct (decide (i = j)) as [<-|Hij].
    + rewrite Epc in Hpc0. injection Hpc0 as <-. rewrite list_lookup_insert_eq in Hw by done. injection Hw as <-.
      by destruct pc' as [| | | | | | | |[]].
    + rewrite list_lookup_insert_ne in Hw by done. rewrite list_lookup_insert_ne in Hpc0 by done. by apply (Hp j).
  - by rewrite !length_insert.
  - done.
  - intros Hfl Hc. destruct (Hf Hfl Hc) as [?|Hw]; [by left|right]. by eapply exists_insert.
  - intros Hh. destruct (prod_step_ready q _ _ _ _ _ _ _ _ (i_geo _ _ Hr) Eps) as [-> | E].
    + right; left. exists i. by rewrite list_lookup_insert_eq.
    + rewrite E in Hh. destruct (Hrd Hh) as [?|[Hw|?]]; [by left|right; left|by right; right].
      by eapply exists_insert.
Qed.

Lemma winv_claim (q : Mpsc) (st st' : wstate) (i : nat) :
  winv q st -> do_wstep q (WClaim i) st = Some st' -> winv q st'.
Proof.
  intros Hinv Hs. destruct st as [ring flag prods consumer events]. cbn [do_wstep] in Hs.
  destruct (prods !! i) as [w|] eqn:Ew; [|done]. cbn [mbind option_bind] in Hs. guard_in Hs.
  pose proof Hinv as [Hr Hp Hl Hi Hf Hrd]. cbn in *.
  pose proof (fun w' => settled_insert q _ i WClaiming w' Hinv Ew ltac:(done)) as Hset. cbn in Hset.
  destruct flag; injection Hs as <-; split; cbn; try done; try (by apply Hset); try (by rewrite length_insert).
  - intros _ Hc. destruct (Hf eq_refl Hc) as [?|Hw]; [by left|right]. by eapply exists_insert.
  - by left.
  - intros _ _. right. exists i. rewrite list_lookup_insert_eq; [done|]. by eapply lookup_lt_Some.
  - by left.
Qed.

Lemma winv_wake (q : Mpsc) (st st' : wstate) (i : nat) :
  winv q st -> do_wstep q (WWake i) st = Some st' -> winv q st'.
Proof.
  intros Hinv Hs. destruct st as [ring flag prods consumer events]. cbn [do_wstep] in Hs.
  destruct (prods !! i) as [w|] eqn:Ew; [|done]. cbn [mbind option_bind] in Hs. guard_in Hs. injection Hs as <-.
  pose proof Hinv as [Hr Hp Hl Hi Hf Hrd]. cbn in *.
  pose proof (fun w' => settled_insert q _ i WWaking w' Hinv Ew ltac:(done)) as Hset. cbn in Hset.
  split; cbn; try done; try (by apply Hset); try (by rewrite length_insert).
  - intros _ _. left. lia.
  - intros Hh. destruct (Hrd Hh) as [?|[Hw|?]]; [by left|right; left|by right; right]. by eapply exists_insert.
Qed.

Lemma winv_consumer (q : Mpsc) (st st' : wstate) (c : wchoice) :
  winv q st -> do_wstep q c st = Some st' ->
  match c with WSignal _ | WPop | WClear | WCheck | WRearm => True | _ => False end -> winv q st'.
Proof.
  intros Hinv Hs Hc. destruct st as [ring flag prods consumer events]. pose proof Hinv as [Hr Hp Hl Hi Hf Hrd].
  destruct c as [| | | |k| | | |]; try done; cbn [do_wstep] in Hs; guard_in Hs;
    cbn [w_ring w_flag w_prods w_cons w_events] in *.
  - match type of Hs with (if ?b then _ else _) = _ => destruct b; [|done] end. injection Hs as <-.
    split; cbn; try done.
    + intros _ [?|?]; done.
    + intros _. by right; right.
  - destruct (do_step q Cons ring) as [ring'|] eqn:Ers; [|done]. cbn [mbind option_bind] in Hs.
    assert (Hst : cstep q ring ring') by (by exists Cons). pose proof (inv_step q _ _ Hr Hst) as Hr'.
    cbn in Ers. destruct (cons_step q (c_mem ring) (c_cons ring)) as [[m pc] ev]. injection Ers as <-.
    injection Hs as <-.
    split; cbn; try done. intros _. by right; right.
  - destruct (drained (c_cons ring)) eqn:Ed; [|done]. injection Hs as <-. split; cbn; try done.
    + intros _. destruct (c_cons ring) as [r|?|?|?|? ?|? ?]; try done. by exists r.
    + intros _. by right; right.
  - injection Hs as <-. destruct (head_ready q (c_mem ring)) eqn:Eh; split; cbn; try done.
    + intros _. by apply Hi.
    + intros _ [?|?]; done.
    + intros _. by right; right.
    + intros _. by apply Hi.
    + intros Hfl _. apply (Hf Hfl). by right.
    + by rewrite Eh.
  - injection Hs as <-. split; cbn; try done; [intros _ [?|?]; done|]. by left.
Qed.

Lemma winv_reach (q : Mpsc) (st st' : wstate) : winv q st -> rtc (wstep q) st st' -> winv q st'.
Proof.
  intros Hinv Hr. induction Hr as [|st st1 st2 (c & Hg & Hs) Hr IH]; [done|]. apply IH.
  destruct c as [i v|i weak|i|i|k| | | |].
  - by apply (winv_call q st st1 i v).
  - by apply (winv_prod q st st1 i weak).
  - by apply (winv_claim q st st1 i).
  - by apply (winv_wake q st st1 i).
  - by apply (winv_consumer q st st1 (WSignal k)).
  - by apply (winv_consumer q st st1 WPop).
  - by apply (winv_consumer q st st1 WClear).
  - by apply (winv_consumer q st st1 WCheck).
  - by apply (winv_consumer q st st1 WRearm).
Qed.

(** Nothing claimed is outstanding once no sender is inside [put] and the head is
    not ready. *)
Lemma quiet_empty (q : Mpsc) (st : cstate (T := T)) (r : PopResult T) :
  inv q st -> c_cons st = CIdle r -> Forall (fun pc => exists b, pc = PDone b) (c_prods st) ->
  head_ready q (c_mem st) = false -> get_tail q (c_mem st) = get_head q (c_mem st).
Proof.
  intros [Hg Hh Hmx Hcp Hcl Hpo Hca Hpr Hhe Hsl Hco] Hc Hp Hr.
  destruct (Z.eq_dec (get_tail q (c_mem st)) (get_head q (c_mem st))) as [|Hne]; [done|exfalso].
  pose proof (cap_pos T q Hg). pose proof (Hsl (get_head q (c_mem st)) ltac:(lia)) as Hs.
  unfold slot_inv in Hs. rewrite (proj2 (Z.leb_gt _ _)) in Hs by lia. rewrite Hc in Hs. cbn in Hs.
  assert (Hheld : held (c_prods st) = []).
  { clear -Hp. induction Hp as [|pc l [b ->] _ IH]; [done|]. rewrite held_cons. by rewrite IH. }
  destruct Hs as [[Hin _]|(_ & Hf & _)]; [by rewrite Hheld in Hin|].
  unfold head_ready in Hr. by rewrite Hf, Z.eqb_refl in Hr.
Qed.
End wakeup.
