(* ===== verification/DataQueueTheorems.v ===== *)
(** * What the event queue guarantees *)

From Stdlib Require Import ZArith Lia.
From stdpp Require Import base numbers list gmap relations.
From S2P Require Import Prelude Bytes Mpsc MpscFacts MpscSeq MpscConc MpscTheorems DataQueue Wakeup.

#[local] Open Scope Z_scope.

(** ** The queue as a list and a flag *)

Record dq_ok (d : DataQueue) (m : mem) (vals : list Element) : Prop := {
  do_ring : ring_ok (dq_ring d) m vals;
  do_base : q_base (dq_ring d) = dq_base d + QUEUE_HEADER_SIZE;
}.

Lemma flag_write (d : DataQueue) (m : mem) (vals : list Element) (v : Z) :
  dq_ok d m vals -> dq_ok d (store32 m (dq_base d) v) vals /\
  working_flag d (store32 m (dq_base d) v) = wrap32 v /\
  head_ready (dq_ring d) (store32 m (dq_base d) v) = head_ready (dq_ring d) m.
Proof.
  intros [Hr Hb].
  assert (Hr' : ring_ok (dq_ring d) (store32 m (dq_base d) v) vals).
  { apply (ring_ok_frame _ m); [done|]. intros x Hx. apply (rd_store_out 4). unfold QUEUE_HEADER_SIZE in *.
    simpl. lia. }
  split; [by split|]. split; [apply load32_store32_same|].
  by rewrite (proj2 (len_spec _ _ _ Hr)), (proj2 (len_spec _ _ _ Hr')).
Qed.

Lemma flag_frame (d : DataQueue) (m m' : mem) (vals : list Element) :
  dq_ok d m vals -> mem_frame (q_base (dq_ring d)) (q_base (dq_ring d) + q_len (dq_ring d)) m m' ->
  working_flag d m' = working_flag d m.
Proof.
  intros [_ Hb] Hf. apply (load_frame 4 _ _ _ _ _ Hf). unfold QUEUE_HEADER_SIZE in *. simpl. lia.
Qed.

(** One queue, used by one thread at a time, is a bounded FIFO of elements
    next to a flag: [put] appends or refuses when full, the pop takes the oldest,
    [claim_peer_consumer] wins exactly when the flag was clear, and
    [finish_draining] reports drained exactly when nothing is queued, leaving the
    flag clear then and set otherwise; ring and flag never disturb each other. *)
Theorem data_queue_refines (d : DataQueue) (m : mem) (vals : list Element) (e : Element) :
  dq_ok d m vals -> dq_closed d = false -> get_tail (dq_ring d) m + 1 < POS_MAX -> element_ok e ->
  let room := Z.of_nat (length vals) <? dq_cap d in
  (exists d' m', put d m e = Some (if room then Ok tt else Err PushFull, d', m') /\
     dq_ok d' m' (if room then vals ++ [e] else vals) /\ working_flag d m' = working_flag d m) /\
  match vals with
  | [] => recv_try_pop d m = (Some Empty, m)
  | w :: rest => exists m', recv_try_pop d m = (Some (Ready w), m') /\ dq_ok d m' rest /\
      working_flag d m' = working_flag d m
  end /\
  (let '(won, m') := claim_peer_consumer d m in
   won = (working_flag d m =? 0) /\ working_flag d m' = (if won then 1 else working_flag d m) /\ dq_ok d m' vals) /\
  (let '(sleep, m') := finish_draining d m in
   sleep = match vals with [] => true | _ => false end /\ working_flag d m' = (if sleep then 0 else 1) /\
   dq_ok d m' vals).
Proof.
  intros Hok Hc Hmax He room. pose proof Hok as [Hr Hb]. split; [|split; [|split]].
  - unfold put, dq_push. rewrite Hc.
    destruct (try_push_spec (dq_ring d) m vals e Hr Hmax He) as (b & q' & m' & E & -> & (h & -> & _) & Hr' & Hf & _).
    rewrite E. cbn [mbind option_bind]. eexists _, m'. split; [done|]. split.
    + split; [exact Hr'|exact Hb].
    + by apply (flag_frame d m m' vals).
  - unfold recv_try_pop, dq_try_pop. rewrite Hc. pose proof (try_pop_spec (dq_ring d) m vals Hr) as Hp.
    destruct vals as [|w rest]; [by rewrite Hp|]. destruct Hp as (m' & -> & Hr' & _ & Hf).
    exists m'. split; [done|]. split; [by split|by apply (flag_frame d m m' (w :: rest))].
  - unfold claim_peer_consumer, mark_working. rewrite Hc. destruct (Z.eqb_spec (working_flag d m) 0); [|done].
    destruct (flag_write d m vals 1 Hok) as (Hok' & E & _). done.
  - unfold finish_draining, mark_not_working. rewrite Hc.
    destruct (flag_write d m vals 0 Hok) as (Hok0 & E0 & Eh). rewrite Eh, (proj2 (len_spec _ _ _ Hr)).
    destruct vals as [|w rest]; cbn [negb]; [done|].
    destruct (flag_write d _ (w :: rest) 1 Hok0) as (Hok1 & E1 & _). done.
Qed.

(** Any mapping sized for [c] elements is accepted. *)
Lemma ring_accepts (base c : Z) :
  1 <= c -> mpsc_mem_size Element c <= I64_MAX -> (MAX_PAYLOAD_ALIGN | base) ->
  exists q, from_raw_parts Element base (mpsc_mem_size Element c) = Ok q /\ c <= cap q.
Proof.
  intros Hc Hmax [k Hk]. destruct (mem_size_cap Element c Hc Hmax) as [Hmul Hcap].
  set (len := mpsc_mem_size Element c) in *. unfold from_raw_parts.
  change (palign (T := Element) >? MAX_PAYLOAD_ALIGN) with false. rewrite Hmul. cbn [negb].
  assert (Ha : is_multiple_of base MAX_PAYLOAD_ALIGN = true).
  { unfold is_multiple_of. rewrite Hk, Z.mod_mul by done. done. }
  rewrite Ha. cbn [negb]. change (slot_size Element) with 32 in *. change (Z.log2 32) with 5.
  unfold mpsc_cap, saturating_sub in Hcap. change (slot_size Element) with 32 in Hcap.
  unfold MPSC_HEADER_SIZE in *.
  destruct (Z.eqb_spec (Z.max 0 (len - 128) / 32) 0) as [E|E]; [lia|].
  assert (Hlen : 128 <= len).
  { destruct (Z_le_gt_dec 128 len); [done|]. rewrite Z.max_l in E by lia. by rewrite Z.div_0_l in E. }
  rewrite Z.max_r in * by lia. rewrite (proj2 (Z.ltb_ge _ _)) by done.
  rewrite Z.shiftr_div_pow2 by lia. change (2 ^ 5) with 32. rewrite (proj2 (Z.eqb_neq _ 0)) by done.
  eexists. split; [done|]. unfold cap. cbn [q_mask]. lia.
Qed.

(** Creation and mapping of a queue. *)
Lemma dq_create_map (m : mem) (base c : Z) :
  1 <= c -> queue_mem_size c <= I64_MAX -> (MAX_PAYLOAD_ALIGN | base) ->
  exists d m', dq_create m base c = (Ok d, m') /\ dq_ok d m' [] /\ c <= dq_cap d /\
    working_flag d m' = 0 /\ dq_size d = queue_mem_size c /\
    recv_map base (queue_mem_size c) = Ok d /\
    mem_frame base (base + queue_mem_size c) m m'.
Proof.
  intros Hc Hmax [k Hk]. unfold queue_mem_size in *. unfold QUEUE_HEADER_SIZE in *.
  assert (Hm : mpsc_mem_size Element c <= I64_MAX) by lia.
  set (len := mpsc_mem_size Element c) in *.
  destruct (ring_accepts (base + 64) c Hc Hm) as (q & Eq & Hcap).
  { exists (k + 8). rewrite Hk. unfold MAX_PAYLOAD_ALIGN. lia. }
  fold len in Eq. set (m0 := write_bytes m base (repeat 0 64)).
  assert (Ecr : dq_create m base c = (Ok (mkDQ base (64 + len) q false),
      write_bytes m0 (base + 64) (repeat 0 (Z.to_nat len)))).
  { unfold dq_create, queue_mem_size, QUEUE_HEADER_SIZE. fold len.
    change (Z.to_nat 64) with 64%nat. fold m0. replace (64 + len - 64) with len by lia.
    unfold mpsc_new. by rewrite Eq. }
  set (m1 := write_bytes m0 (base + 64) (repeat 0 (Z.to_nat len))) in *.
  destruct (mpsc_new_ok (T := Element) m0 m1 (base + 64) len q ltac:(lia)) as (Hr & Eb & El & Ecap & Hf).
  { unfold mpsc_new. by rewrite Eq. }
  assert (Hlen : 4096 <= len).
  { destruct (mem_size_cap Element c Hc Hm) as [Hmul Hge]. fold len in Hmul, Hge.
    unfold is_multiple_of, PAGE_SIZE in Hmul. change (4096 =? 0) with false in Hmul. cbn in Hmul. bools.
    assert (0 < len).
    { destruct (Z_lt_ge_dec 0 len); [done|]. unfold mpsc_cap, saturating_sub, MPSC_HEADER_SIZE in Hge.
      rewrite Z.max_l in Hge by lia. change (0 / slot_size Element) with 0 in Hge. cbn in Hge. lia. }
    pose proof (Z.div_mod len 4096 ltac:(lia)). assert (0 < len / 4096) by lia. lia. }
  eexists _, m1. split; [exact Ecr|]. split; [split; [exact Hr|exact Eb]|]. split; [exact Hcap|]. split; [|split; [done|split]].
  - unfold working_flag. cbn [dq_base]. apply load_zero. intros x Hx. simpl in Hx.
    rewrite Hf by lia. apply rd_zeroed. simpl. lia.
  - unfold recv_map, dq_map, validate_queue_size, queue_cap, QUEUE_HEADER_SIZE, PAGE_SIZE.
    rewrite !(proj2 (Z.ltb_ge _ _)) by lia. replace (64 + len - 64) with len by lia.
    destruct (mem_size_cap Element c Hc Hm) as [Hmul Hge]. fold len in Hmul, Hge.
    unfold PAGE_SIZE in Hmul. rewrite Hmul. cbn [negb]. rewrite (proj2 (Z.eqb_neq _ 0)) by lia.
    unfold mpsc_map. by rewrite Eq.
  - eapply mem_frame_trans; [apply mem_frame_write_bytes|eapply mem_frame_weaken; [| |exact Hf]]; rewrite ?repeat_length; lia.
Qed.

(** The creator and the peer that maps the descriptor agree: creation for a
    capacity succeeds with an empty queue of at least that many elements and a
    clear flag, and mapping the same bytes yields the same geometry. *)
Theorem queue_create_map (m : mem) (base c : Z) :
  1 <= c -> queue_mem_size c <= I64_MAX -> (MAX_PAYLOAD_ALIGN | base) ->
  exists d m', dq_create m base c = (Ok d, m') /\ dq_ok d m' [] /\ c <= dq_cap d /\
    working_flag d m' = 0 /\ dq_size d = queue_mem_size c /\
    recv_map base (queue_mem_size c) = Ok d /\
    mem_frame base (base + queue_mem_size c) m m'.
Proof. apply dq_create_map. Qed.

Lemma with_offset_ok (sid o off : Z) :
  0 <= sid < W32 -> 0 <= o < 256 -> element_ok (with_offset sid o off).
Proof.
  intros Hs Ho. unfold with_offset, element_ok. cbn [stream_id op unused e_data].
  split; [done|]. split; [done|]. split; [done|]. split; [repeat constructor; done|].
  split; [apply le_bytes_length|apply le_bytes_ok].
Qed.

(** An element carries its offset across: whatever its stream and operation,
    the sixteen bytes written are read back as the same element, and the offset
    put in is the offset read out, negative ones included. *)
Theorem element_offset_roundtrip (m : mem) (a sid o off : Z) :
  0 <= sid < W32 -> 0 <= o < 256 -> - (I64_MAX + 1) <= off <= I64_MAX ->
  let e := with_offset sid o off in
  element_read (element_write m a e) a = e /\ e_offset (element_read (element_write m a e) a) = off /\ mem_frame a (a + 16) m (element_write m a e).
Proof.
  intros Hs Ho Hoff e.
  pose proof (with_offset_ok sid o off Hs Ho : element_ok e) as He.
  pose proof (pread_pwrite (T := Element) m a e He) as E. cbn in E. rewrite E.
  split; [done|]. split; [|exact (pwrite_frame (T := Element) m a e)].
  unfold e, e_offset, with_offset. cbn [e_data]. rewrite le_val_bytes.
  change (256 ^ Z.of_nat 8) with W64. by apply to_i64_wrap.
Qed.

Section wake.
Context {T : Type} `{Payload T}.

(** C12. No wakeup is lost: under any interleaving of senders and the consumer,
    whenever an element is ready at the head while the consumer sleeps, a wakeup
    is already on its way to it or a sender is still about to claim or write one. *)
Theorem no_lost_wakeup (q : Mpsc) (m : mem) (n : nat) (st : wstate (T := T)) :
  ring_ok q m ([] : list T) -> get_head q m = 0 -> rtc (wstep q) (winit m n) st ->
  head_ready q (c_mem (w_ring st)) = true -> w_cons st = Asleep ->
  (0 < w_events st)%nat \/ exists i, w_prods st !! i = Some WClaiming \/ w_prods st !! i = Some WWaking.
Proof.
  intros Hok H0 Hr Hh Hc. pose proof (winv_reach q _ st (winv_init q m n Hok H0) Hr) as Hinv.
  destruct (wi_ready _ _ Hinv Hh) as [Hf|[[i Hi]|?]]; [|right; exists i; by left|done].
  destruct (wi_flag _ _ Hinv Hf (or_introl Hc)) as [?|[i Hi]]; [by left|right; exists i; by right].
Qed.

(** C37. When everything has come to rest -- no sender active, no wakeup pending,
    the consumer asleep -- every element ever accepted has been taken out, in the
    order the positions were claimed. *)
Theorem quiescent_queue_drained (q : Mpsc) (m : mem) (n : nat) (st : wstate (T := T)) :
  ring_ok q m ([] : list T) -> get_head q m = 0 -> rtc (wstep q) (winit m n) st ->
  Forall (eq WIdle) (w_prods st) -> w_cons st = Asleep -> w_events st = 0%nat ->
  c_popped (w_ring st) = c_claims (w_ring st).
Proof.
  intros Hok H0 Hr Hidle Hc He. pose proof (winv_reach q _ st (winv_init q m n Hok H0) Hr) as Hinv.
  pose proof Hinv as [Hring Hp Hl Hi Hf Hrd]. rewrite Forall_lookup in Hidle.
  assert (Hnr : head_ready q (c_mem (w_ring st)) = false).
  { destruct (head_ready q (c_mem (w_ring st))) eqn:Eh; [|done]. exfalso.
    destruct (Hrd eq_refl) as [Hfl|[[i Hw]|?]]; [|by pose proof (Hidle i _ Hw)|done].
    destruct (Hf Hfl (or_introl Hc)) as [?|[i Hw]]; [lia|by pose proof (Hidle i _ Hw)]. }
  destruct (Hi ltac:(by rewrite Hc)) as [r Er].
  assert (Hdone : Forall (fun pc => exists b, pc = PDone b) (c_prods (w_ring st))).
  { apply Forall_lookup. intros i pc Hpc. destruct (lookup_lt_is_Some_2 (w_prods st) i) as [w Hw].
    { rewrite Hl. by eapply lookup_lt_Some. }
    pose proof (Hp i w pc Hw Hpc) as Hs. rewrite <- (Hidle i w Hw) in Hs. destruct pc; try done. by eexists. }
  pose proof (quiet_empty q (w_ring st) r Hring Er Hdone Hnr) as Et.
  rewrite (i_popped _ _ Hring), <- Et, <- (i_claims _ _ Hring), Nat2Z.id. by rewrite firstn_all.
Qed.
End wake.

(** ** Samples *)

Definition sample_elem : Element := with_offset 7 OP_STREAM_DATA 4096.

Lemma sample_elem_ok : element_ok sample_elem.
Proof. apply with_offset_ok; unfold W32, OP_STREAM_DATA; lia. Qed.

Lemma queue_create_map_witness :
  exists d m', dq_create ∅ 4096 100 = (Ok d, m') /\ dq_ok d m' [] /\ 100 <= dq_cap d /\
    working_flag d m' = 0 /\ dq_size d = queue_mem_size 100 /\
    recv_map 4096 (queue_mem_size 100) = Ok d /\
    mem_frame 4096 (4096 + queue_mem_size 100) ∅ m'.
Proof.
  apply (queue_create_map ∅ 4096 100); [lia | vm_compute; discriminate | by apply Z.mod_divide].
Defined.

Definition sample_dq : DataQueue := mkDQ 4096 4160 (mkMpsc 4160 4096 6 5 63 0) false.

(** The empty memory holds an empty queue too: creation only zeroes it. *)
Lemma sample_dq_ok : dq_ok sample_dq ∅ [].
Proof.
  split; [|done].
  destruct (mpsc_new_ok (T := Element) ∅ (write_bytes ∅ 4160 (repeat 0 (Z.to_nat 4096))) 4160 4096
              (mkMpsc 4160 4096 6 5 63 0)) as (Hr & _ & _ & _ & _); [done| |].
  { unfold mpsc_new. replace (from_raw_parts Element 4160 4096) with (Ok (mkMpsc 4160 4096 6 5 63 0) : result LayoutError Mpsc) by (vm_compute; reflexivity).
    reflexivity. }
  apply (ring_ok_frame _ _ _ _ Hr). intros x Hx. cbn in Hx. rewrite rd_zeroed; [|simpl; lia].
  unfold rd. by rewrite lookup_empty.
Qed.

Lemma data_queue_refines_witness :
  (exists d' m', put sample_dq ∅ sample_elem = Some (Ok tt, d', m') /\
     dq_ok d' m' [sample_elem] /\ working_flag sample_dq m' = working_flag sample_dq ∅) /\
  recv_try_pop sample_dq ∅ = (Some Empty, ∅).
Proof.
  destruct (data_queue_refines sample_dq ∅ [] sample_elem sample_dq_ok) as ((d' & m' & H1 & H2 & H3) & H4 & _);
    [reflexivity | vm_compute; reflexivity | apply sample_elem_ok |].
  split; [|exact H4]. exists d', m'. split; [exact H1|]. split; [exact H2|exact H3].
Defined.

Lemma element_offset_roundtrip_witness :
  e_offset (element_read (element_write ∅ 100 (with_offset 7 OP_STREAM_DATA (-5))) 100) = -5.
Proof.
  apply (element_offset_roundtrip ∅ 100 7 OP_STREAM_DATA (-5)); unfold W32, OP_STREAM_DATA, I64_MAX; lia.
Defined.

(** A schedule run over the sample ring. *)
Fixpoint wexec (q : Mpsc) (cs : list (wchoice (T := Z))) (st : wstate (T := Z)) : option (wstate (T := Z)) :=
  match cs with
  | [] => Some st
  | c :: cs => st' ← do_wstep q c st; wexec q cs st'
  end.

Lemma wexec_rtc (q : Mpsc) (cs : list wchoice) (st st' : wstate) :
  Forall good_wchoice cs -> wexec q cs st = Some st' -> rtc (wstep q) st st'.
Proof.
  revert st. induction cs as [|c cs IH]; intros st Hg He; [injection He as ->; apply rtc_refl|].
  apply Forall_cons in Hg as [Hc Hg]. cbn in He. destruct (do_wstep q c st) as [st1|] eqn:E; [|done].
  apply rtc_l with st1; [by exists c|by apply IH].
Qed.

(** One sender sends a value, wakes the consumer, which drains and sleeps. *)
Definition send_one : list (wchoice (T := Z)) := WCall 0 7 :: repeat (WProd 0 false) 6.

Definition round_trip : list (wchoice (T := Z)) :=
  send_one ++ [WClaim 0; WWake 0; WSignal 1] ++ repeat WPop 8 ++ [WClear; WCheck].

Definition wcheck (cs : list (wchoice (T := Z))) (p : wstate (T := Z) -> bool) : bool :=
  match wexec sample_q cs (winit sample_ring_mem 2) with Some st => p st | None => false end.

Lemma wcheck_spec (cs : list wchoice) (p : wstate -> bool) :
  Forall good_wchoice cs -> wcheck cs p = true ->
  exists st, rtc (wstep sample_q) (winit sample_ring_mem 2) st /\ p st = true.
Proof.
  intros Hg. unfold wcheck. destruct (wexec sample_q cs _) as [st|] eqn:E; [|done].
  exists st. split; [by apply (wexec_rtc _ cs)|done].
Qed.

Lemma send_one_good : Forall (good_wchoice (T := Z)) send_one.
Proof. constructor; [cbn; unfold I64_MAX; lia|]. repeat constructor. Qed.

Lemma round_trip_good : Forall (good_wchoice (T := Z)) round_trip.
Proof. apply Forall_app. split; [apply send_one_good|repeat constructor]. Qed.

Lemma no_lost_wakeup_witness :
  exists st : wstate (T := Z), head_ready sample_q (c_mem (w_ring st)) = true /\ w_cons st = Asleep /\
    ((0 < w_events st)%nat \/ exists i, w_prods st !! i = Some WClaiming \/ w_prods st !! i = Some WWaking).
Proof.
  destruct (wcheck_spec send_one (fun st : wstate (T := Z) => head_ready sample_q (c_mem (w_ring st)) && bool_decide (w_cons st = Asleep)))
    as (st & Hr & Hp); [apply send_one_good | vm_compute; reflexivity |].
  apply andb_true_iff in Hp as [Hp1 Hp2]. apply bool_decide_eq_true in Hp2.
  exists st. split; [exact Hp1|]. split; [exact Hp2|].
  exact (no_lost_wakeup sample_q sample_ring_mem 2 st sample_ring_ok sample_head Hr Hp1 Hp2).
Defined.

Lemma quiescent_queue_drained_witness :
  exists st : wstate (T := Z), c_claims (w_ring st) = [7] /\ c_popped (w_ring st) = c_claims (w_ring st).
Proof.
  destruct (wcheck_spec round_trip (fun st : wstate (T := Z) => bool_decide (c_claims (w_ring st) = [7]) &&
      (bool_decide (w_prods st = [WIdle; WIdle]) && (bool_decide (w_cons st = Asleep) && (w_events st =? 0)%nat))))
    as (st & Hr & Hp); [apply round_trip_good | vm_compute; reflexivity |].
  apply andb_true_iff in Hp as [H1 Hp]. apply andb_true_iff in Hp as [H2 Hp]. apply andb_true_iff in Hp as [H3 H4].
  apply bool_decide_eq_true in H1, H2, H3. apply Nat.eqb_eq in H4.
  exists st. split; [exact H1|].
  apply (quiescent_queue_drained sample_q sample_ring_mem 2 st sample_ring_ok sample_head Hr); [|exact H3|exact H4].
  rewrite H2. repeat constructor.
Defined.
