(* ===== verification/Handshake.v ===== *)
(** * The handshake ([src/src/protocol])

    Each side of the handshake is a blocking program over one unix socket: it
    writes bytes, reads an exact number of bytes, and passes file descriptors out
    of band.  The programs below are [negotiation.rs], [adapter.rs] and
    [initializer/v5.rs], call by call; [exchange] runs two of them against each
    other.  A descriptor is the file it refers to, so passing it keeps the file.
    Initialisation of V2 to V4 is an argument of the programs here; [LegacyInit] has it. *)

From Stdlib Require Import ZArith Lia String.
From stdpp Require Import base numbers list gmap strings.
From S2P Require Import Prelude Bytes Protocol Fixed Config Negotiation Header Region Mpsc LocalManager RemoteManager DataQueue.

#[local] Open Scope Z_scope.

(** ** Programs over a socket *)

(** A file passed as a descriptor: its identity and its length. *)
Record Fd : Type := mkFd {
  fd_file : nat;
  fd_len : Z;
}.

Inductive prog (A : Type) : Type :=
| Ret (a : A)
| Write (bytes : list Z) (k : bool -> prog A)
| Read (n : nat) (k : option (list Z) -> prog A)
| SendFds (fds : list Fd) (k : bool -> prog A)
| RecvFds (k : option (list Fd) -> prog A).

Arguments Ret {A} a.

Arguments Write {A} bytes k.

Arguments Read {A} n k.

Arguments SendFds {A} fds k.

Arguments RecvFds {A} k.

(** The [?] operator. *)
Fixpoint and_then {A B} (p : prog (result HsError A)) (f : A -> prog (result HsError B)) : prog (result HsError B) :=
  match p with
  | Ret (Ok a) => f a
  | Ret (Err e) => Ret (Err e)
  | Write b k => Write b (fun r => and_then (k r) f)
  | Read n k => Read n (fun r => and_then (k r) f)
  | SendFds l k => SendFds l (fun r => and_then (k r) f)
  | RecvFds k => RecvFds (fun r => and_then (k r) f)
  end.

Fixpoint map_err {A} (g : HsError -> HsError) (p : prog (result HsError A)) : prog (result HsError A) :=
  match p with
  | Ret (Ok a) => Ret (Ok a)
  | Ret (Err e) => Ret (Err (g e))
  | Write b k => Write b (fun r => map_err g (k r))
  | Read n k => Read n (fun r => map_err g (k r))
  | SendFds l k => SendFds l (fun r => map_err g (k r))
  | RecvFds k => RecvFds (fun r => map_err g (k r))
  end.

Declare Scope prog_scope.

Notation "x <- p ?; q" := (and_then p (fun x => q)) (at level 100, p at level 99, right associativity) : prog_scope.

#[local] Open Scope prog_scope.

Definition ret_of {A} (r : result HsError A) : prog (result HsError A) := Ret r.

(** ** Blocking I/O ([block_io.rs]) *)

Definition block_write_full (bytes : list Z) : prog (result HsError unit) :=
  Write bytes (fun ok => Ret (if ok then Ok tt else Err OtherError)).

Definition block_read_full (n : nat) : prog (result HsError (list Z)) :=
  Read n (fun r => Ret (match r with Some b => Ok b | None => Err OtherError end)).

Definition send_fd (fds : list Fd) : prog (result HsError unit) :=
  SendFds fds (fun ok => Ret (if ok then Ok tt else Err OtherError)).

Definition block_read_out_of_bound_for_fd (expected : nat) : prog (result HsError (list Fd)) :=
  RecvFds (fun r =>
    Ret (match r with
         | Some fds => if (length fds <? expected)%nat then Err OtherError else Ok fds
         | None => Err OtherError
         end)).

(** ** Events ([initializer/mod.rs]) *)

Definition block_read_event_header : prog (result HsError (list Z)) :=
  h <- block_read_full (Z.to_nat HEADER_SIZE) ?;
  Ret (match check_event_valid h with Ok _ => Ok h | Err _ => Err OtherError end).

Definition wait_event_header (expect : EventType) : prog (result HsError (list Z)) :=
  h <- block_read_event_header ?;
  Ret (if hdr_msg_type h =? expect then Ok h else Err OtherError).

Definition send_shm_metadata_and_fds (event : list Z) (fds : list Fd) : prog (result HsError unit) :=
  _ <- block_write_full event ?;
  _ <- wait_event_header TYPE_ACK_READY_RECV_FD ?;
  send_fd fds.

Definition ack_and_recv_fds (msg_version : Z) (expected : nat) : prog (result HsError (list Fd)) :=
  _ <- block_write_full (hdr_encode HEADER_SIZE msg_version TYPE_ACK_READY_RECV_FD) ?;
  block_read_out_of_bound_for_fd expected.

Definition MAX_LEGACY_PROTO_VERSION : Z := 3.

Definition handle_exchange_version : prog (result HsError unit) :=
  block_write_full (hdr_encode HEADER_SIZE MAX_LEGACY_PROTO_VERSION TYPE_EXCHANGE_PROTO_VERSION).

(** ** Negotiation ([negotiation.rs]) *)

Definition write_negotiation (payload : list Z) : prog (result HsError unit) :=
  block_write_full (hdr_encode (HEADER_SIZE + Z.of_nat (length payload)) DEFAULT_MSG_VERSION TYPE_NEGOTIATION ++ payload).

Definition read_message_body (h : list Z) : prog (result HsError (list Z)) :=
  if hdr_length h <? HEADER_SIZE then Ret (Err OtherError)
  else
    let n := Z.to_nat (hdr_length h - HEADER_SIZE) in
    if (n =? 0)%nat then Ret (Ok []) else block_read_full n.

Section handshake.
Context {Value : Type} `{Serde Value}.

Definition negotiate_client (c : Config) : prog (result HsError (NegotiationResponse Value * NegotiatedFeature)) :=
  request <- ret_of (from_config c) ?;
  _ <- map_err (fun _ => NetworkOrProtocol) (write_negotiation (request_to_vec request)) ?;
  h <- map_err (fun _ => NetworkOrProtocol) (wait_event_header TYPE_NEGOTIATION) ?;
  body <- map_err (fun _ => NetworkOrProtocol) (read_message_body h) ?;
  Ret (match response_from_slice body with
       | None => Err InvalidResponse
       | Some response =>
           match rs_error response with
           | Some e => Err (Rejected e)
           | None =>
               if negb (existsb (Z.eqb (selected_protocol response)) (supports_protocols request))
               then Err (UnsupportedProtocol (selected_protocol response))
               else
                 match selected_feature response request with
                 | Err _ => Err InvalidResponse
                 | Ok f => Ok (response, f)
                 end
           end
       end).

Definition negotiate_server (first_event : list Z) : prog (result HsError (NegotiationResponse Value * NegotiatedFeature)) :=
  if negb (hdr_msg_type first_event =? TYPE_NEGOTIATION) then Ret (Err OtherError)
  else
    body <- read_message_body first_event ?;
    match request_from_slice body with
    | None =>
        Write (hdr_encode (HEADER_SIZE + Z.of_nat (length (response_to_vec (json_parse_error (parse_message body)))))
                 DEFAULT_MSG_VERSION TYPE_NEGOTIATION ++ response_to_vec (json_parse_error (parse_message body)))
          (fun _ => Ret (Err OtherError))
    | Some request =>
        match select_protocol request with
        | None =>
            _ <- write_negotiation (response_to_vec version_not_supported) ?;
            Ret (Err OtherError)
        | Some version =>
            let f := select_feature request in
            response <- ret_of (response_ok version f) ?;
            _ <- write_negotiation (response_to_vec response) ?;
            Ret (Ok (response, f))
        end
    end.

(** ** Metadata of the memory a side publishes ([initializer/v5.rs]) *)

Definition ADVERTISED_DYNSHM_SIZE : Z := 0.

Definition METADATA_MIN_SIZE : nat := 2 + 4.

Definition MEMFD_COUNT : nat := 2.

Definition MEMFD_COUNT_EVENTFD_V5 : nat := 3.

(** [std::str::from_utf8]: well-formed sequences of one to four bytes. *)
Definition cont (b : Z) : bool := (128 <=? b) && (b <=? 191).

Fixpoint utf8_valid (bs : list Z) : bool :=
  match bs with
  | [] => true
  | b0 :: r1 =>
      if (0 <=? b0) && (b0 <=? 127) then utf8_valid r1
      else match r1 with
      | [] => false
      | b1 :: r2 =>
          if (194 <=? b0) && (b0 <=? 223) then cont b1 && utf8_valid r2
          else match r2 with
          | [] => false
          | b2 :: r3 =>
              if (224 <=? b0) && (b0 <=? 239) then
                cont b1 && cont b2 && negb ((b0 =? 224) && (b1 <=? 159)) && negb ((b0 =? 237) && (160 <=? b1)) && utf8_valid r3
              else match r3 with
              | [] => false
              | b3 :: r4 =>
                  (240 <=? b0) && (b0 <=? 244) && cont b1 && cont b2 && cont b3 &&
                  negb ((b0 =? 240) && (b1 <=? 143)) && negb ((b0 =? 244) && (144 <=? b1)) && utf8_valid r4
              end
          end
      end
  end.

Definition generate_v5_shm_metadata (path : list Z) (version : Z) : result HsError (list Z) :=
  let len := Z.of_nat (length path) in
  if len >=? W16 then Err OtherError
  else if len =? 0 then Err OtherError
  else Ok (hdr_encode (HEADER_SIZE + 2 + len + 4) version TYPE_SHARE_MEMORY_BY_MEMFD ++
           be_bytes 2 len ++ path ++ be_bytes 4 ADVERTISED_DYNSHM_SIZE).

Definition extract_v5_shm_metadata (body : list Z) : result HsError (list Z * Z) :=
  if (length body <? METADATA_MIN_SIZE)%nat then Err OtherError
  else
    let path_len := Z.to_nat (be_val (take 2 body)) in
    let path_end := (2 + path_len)%nat in
    if (path_len =? 0)%nat || negb (length body =? path_end + 4)%nat then Err OtherError
    else
      let path := take path_len (drop 2 body) in
      if negb (utf8_valid path) then Err OtherError
      else Ok (path, be_val (take 4 (drop path_end body))).

(** ** The exchange of memory *)

(** What the kernel gives a process: where it maps files, which files it creates,
    and the environment of the segment. *)
Record Host : Type := mkHost {
  h_env : option string;
  h_pinned : option Z;
  h_queue_at : Z;
  h_segment_at : Z;
  h_peer_queue_at : Z;
  h_peer_segment_at : Z;
  h_queue_file : nat;
  h_segment_file : nat;
  h_eventfd_file : nat;
}.

Record OwnEndpoint : Type := mkOwn {
  own_queue_fd : Fd;
  own_queue : DataQueue;
  own_segment_fd : Fd;
  own_dynshm : LocalManager;
}.

Record PeerEndpoint : Type := mkPeer {
  peer_queue_fd : Fd;
  peer_queue : RecvQueue;
  peer_segment_fd : Fd;
  peer_dynshm : RemoteManager;
}.

Record EventFdPair : Type := mkEventFds {
  wakeup_send : Fd;
  wakeup_recv : Fd;
}.

Record ProtocolInitialized : Type := mkInitialized {
  in_own : OwnEndpoint;
  in_peer : PeerEndpoint;
  in_proto_version : Z;
  in_msg_version : Z;
  in_feature : NegotiatedFeature;
  in_eventfd : option EventFdPair;
}.

Definition is_eventfd_feature (n : Negotiated) : bool := bool_decide (feature n = FeatureEventFd).

(** A new file reads as zeroes. *)
Definition create_own_shm (h : Host) (c : Config) : result HsError OwnEndpoint :=
  match dq_create ∅ (h_queue_at h) (cf_queue_cap c) with
  | (Err _, _) => Err OtherError
  | (Ok q, _) =>
      match lm_new (h_env h) (h_pinned h) ∅ (h_segment_at h) with
      | Some (Ok lm, _) => Ok (mkOwn (mkFd (h_queue_file h) (dq_size q)) q (mkFd (h_segment_file h) DYNSHM_TOTAL_SIZE) lm)
      | _ => Err OtherError
      end
  end.

Definition send_fds_to_peer (h : Host) (path : list Z) (own : OwnEndpoint) (n : Negotiated)
    : prog (result HsError (option Fd)) :=
  let wakeup_recv := if is_eventfd_feature n then Some (mkFd (h_eventfd_file h) 0) else None in
  event <- ret_of (generate_v5_shm_metadata path (message_version n)) ?;
  let fds := [own_queue_fd own; own_segment_fd own] ++ match wakeup_recv with Some fd => [fd] | None => [] end in
  _ <- send_shm_metadata_and_fds event fds ?;
  Ret (Ok wakeup_recv).

(** The descriptors in order: the queue, the segment, and the eventfd if agreed. *)
Definition take_fds (n : Negotiated) (fds : list Fd) : result HsError (Fd * Fd * option Fd) :=
  match fds with
  | q :: s :: rest =>
      if is_eventfd_feature n then
        match rest with
        | w :: _ => Ok (q, s, Some w)
        | [] => Err OtherError
        end
      else Ok (q, s, None)
  | _ => Err OtherError
  end.

Definition map_peer (h : Host) (q s : Fd) (advertised : Z) : result HsError PeerEndpoint :=
  match recv_map (h_peer_queue_at h) (fd_len q) with
  | Err _ => Err OtherError
  | Ok queue =>
      match rm_map (h_peer_segment_at h) (fd_len s) advertised with
      | Err _ => Err OtherError
      | Ok rm => Ok (mkPeer q queue s rm)
      end
  end.

Definition recv_fds_from_peer (h : Host) (n : Negotiated) : prog (result HsError (PeerEndpoint * option Fd)) :=
  header <- wait_event_header TYPE_SHARE_MEMORY_BY_MEMFD ?;
  body <- read_message_body header ?;
  meta <- ret_of (extract_v5_shm_metadata body) ?;
  fds <- ack_and_recv_fds (message_version n) (if is_eventfd_feature n then MEMFD_COUNT_EVENTFD_V5 else MEMFD_COUNT) ?;
  taken <- ret_of (take_fds n fds) ?;
  let '(q, s, wakeup_send) := taken in
  peer <- ret_of (map_peer h q s meta.2) ?;
  Ret (Ok (peer, wakeup_send)).

Definition initialized (own : OwnEndpoint) (peer : PeerEndpoint) (n : Negotiated) (wakeup_send wakeup_recv : option Fd)
    : result HsError ProtocolInitialized :=
  match wakeup_send, wakeup_recv with
  | Some s, Some r => Ok (mkInitialized own peer PROTO_VERSION_V5 (message_version n) (feature n) (Some (mkEventFds s r)))
  | None, None => Ok (mkInitialized own peer PROTO_VERSION_V5 (message_version n) (feature n) None)
  | _, _ => Err OtherError
  end.

Definition v5_client_init (h : Host) (c : Config) (n : Negotiated) : prog (result HsError ProtocolInitialized) :=
  own <- ret_of (create_own_shm h c) ?;
  wakeup_recv <- send_fds_to_peer h (queue_path c) own n ?;
  got <- recv_fds_from_peer h n ?;
  Ret (initialized own got.1 n got.2 wakeup_recv).

Definition v5_server_init (h : Host) (c : Config) (n : Negotiated) : prog (result HsError ProtocolInitialized) :=
  got <- recv_fds_from_peer h n ?;
  own <- ret_of (create_own_shm h c) ?;
  wakeup_recv <- send_fds_to_peer h (queue_path c) own n ?;
  Ret (initialized own got.1 n got.2 wakeup_recv).

(** ** Adapters ([adapter.rs]) *)

Inductive ProtocolInitializer : Type :=
| InitV2
| InitV3
| InitV4 (n : Negotiated)
| InitV5 (n : Negotiated).

Record ClientNegotiation : Type := mkNegotiation {
  cn_selected : Z;
  cn_negotiated : option Negotiated;
}.

Definition needs_shared_pool (n : ClientNegotiation) : bool := negb (cn_selected n =? PROTO_VERSION_V5).

Definition client_negotiate (c : Config) : prog (result HsError ClientNegotiation) :=
  if negb (is_legacy (mode (protocol c))) then
    got <- negotiate_client c ?;
    Ret (Ok (mkNegotiation (selected_protocol got.1) (Some (negotiated_new got.2))))
  else if negb (is_memfd (mem_map_type c)) then Ret (Ok (mkNegotiation 2 None))
  else
    _ <- block_write_full (hdr_encode HEADER_SIZE MAX_LEGACY_PROTO_VERSION TYPE_EXCHANGE_PROTO_VERSION) ?;
    header <- wait_event_header TYPE_EXCHANGE_PROTO_VERSION ?;
    let selected := Z.min MAX_LEGACY_PROTO_VERSION (hdr_version header) in
    Ret (if (selected =? 2) || (selected =? 3) then Ok (mkNegotiation selected None) else Err OtherError).

(** [pool]: whether a shared pool was created. *)
Definition client_get_initializer (pool : bool) (n : ClientNegotiation) : result HsError ProtocolInitializer :=
  if cn_selected n =? PROTO_VERSION_V5 then
    match cn_negotiated n with Some f => Ok (InitV5 f) | None => Err OtherError end
  else if cn_selected n =? PROTO_VERSION_V4 then
    match cn_negotiated n with Some f => if pool then Ok (InitV4 f) else Err OtherError | None => Err OtherError end
  else if cn_selected n =? 3 then if pool then Ok InitV3 else Err OtherError
  else if cn_selected n =? 2 then if pool then Ok InitV2 else Err OtherError
  else Err OtherError.

Definition negotiated_initializer (first_event : list Z) : prog (result HsError ProtocolInitializer) :=
  got <- negotiate_server first_event ?;
  let n := negotiated_new got.2 in
  Ret (if selected_protocol got.1 =? PROTO_VERSION_V5 then Ok (InitV5 n)
       else if selected_protocol got.1 =? PROTO_VERSION_V4 then Ok (InitV4 n)
       else Err OtherError).

(** The initializer with the event it starts from. *)
Definition server_get_initializer : prog (result HsError (ProtocolInitializer * list Z)) :=
  h <- block_read_event_header ?;
  if hdr_msg_type h =? TYPE_SHARE_MEMORY_BY_FILE_PATH then Ret (Ok (InitV2, h))
  else if hdr_msg_type h =? TYPE_EXCHANGE_PROTO_VERSION then Ret (Ok (InitV3, h))
  else if hdr_msg_type h =? TYPE_NEGOTIATION then
    i <- negotiated_initializer h ?; Ret (Ok (i, h))
  else Ret (Err OtherError).

(** ** Both sides, whole

    Negotiation, then initialisation; [old_client] and [old_server] are the
    initialisers of V2 to V4, which publish one shared pool. *)
Section whole.
Context (old_client : ProtocolInitializer -> prog (result HsError ProtocolInitialized)).

Context (old_server : ProtocolInitializer -> list Z -> prog (result HsError ProtocolInitialized)).

Definition client_handshake (h : Host) (c : Config) : prog (result HsError ProtocolInitialized) :=
  n <- client_negotiate c ?;
  i <- ret_of (client_get_initializer (needs_shared_pool n) n) ?;
  match i with
  | InitV5 f => v5_client_init h c f
  | _ => old_client i
  end.

Definition server_handshake (h : Host) (c : Config) : prog (result HsError ProtocolInitialized) :=
  got <- server_get_initializer ?;
  match got.1 with
  | InitV5 f => v5_server_init h c f
  | _ => old_server got.1 got.2
  end.

End whole.

End handshake.

(** ** Metadata of the older versions ([initializer/mod.rs]) *)

(** [len as u16] keeps the low sixteen bits. *)
Definition generate_shm_metadata (event_type : EventType) (buffer_path queue_path : list Z) (version : Z) : list Z :=
  let lb := Z.of_nat (length buffer_path) in
  let lq := Z.of_nat (length queue_path) in
  hdr_encode (HEADER_SIZE + 2 + lb + 2 + lq) version event_type ++
  be_bytes 2 lq ++ queue_path ++ be_bytes 2 lb ++ buffer_path.

(** A path with its length in front, and the rest; [None] is the panic of a slice
    out of range. *)
Definition extract_path (body : list Z) : option (list Z * list Z) :=
  if (length body <? 2)%nat then None
  else
    let n := Z.to_nat (be_val (take 2 body)) in
    if (length body - 2 <? n)%nat then None else Some (take n (drop 2 body), drop (2 + n) body).

Definition extract_shm_metadata (body : list Z) : option (list Z * list Z) :=
  '(queue_path, body) ← extract_path body;
  '(buffer_path, _) ← extract_path body;
  Some (buffer_path, queue_path).

(** ** Falling back ([Session::client]) *)

Inductive ClientError : Type :=
| ConnectFailed
| InitFailed (e : HsError)
| FallbackFailed (e : HsError).

Definition falls_back (m : ProtocolMode) : bool := match m with V4 b | V5 b => b | Legacy => false end.

(** [connect] and [new_session] at their first and second use. *)
Definition session_client {S} (connect : nat -> bool) (new_session : nat -> Config -> result HsError S) (c : Config)
    : result ClientError S :=
  if negb (connect 0%nat) then Err ConnectFailed
  else
    match new_session 0%nat c with
    | Ok s => Ok s
    | Err e =>
        if falls_back (mode (protocol c)) && is_network_or_protocol e then
          if negb (connect 1%nat) then Err (FallbackFailed e)
          else
            match new_session 1%nat (with_protocol c (mkProtocol Legacy WakeupDefault)) with
            | Ok s => Ok s
            | Err _ => Err (FallbackFailed e)
            end
        else Err (InitFailed e)
    end.

(** ** Running two sides against each other *)

(** What a socket carries: bytes, and descriptors with the one byte they ride on. *)
Inductive wire : Type :=
| WByte (b : Z)
| WFds (fds : list Fd).

Definition wire_byte (w : wire) : Z := match w with WByte b => b | WFds _ => 0 end.

(** A side runs until it waits for input that is not there yet.  [gone]: the peer
    has finished, so nothing more will come; [failed]: it has hung up. *)
Fixpoint feed {A} (gone failed : bool) (p : prog A) (inp : list wire) : list wire * list wire * prog A :=
  match p with
  | Ret a => ([], inp, Ret a)
  | Write b k => let '(o, i, r) := feed gone failed (k (negb failed)) inp in ((if failed then [] else WByte <$> b) ++ o, i, r)
  | Read n k =>
      if (length inp <? n)%nat then
        if gone then feed gone failed (k None) [] else ([], inp, p)
      else feed gone failed (k (Some (wire_byte <$> take n inp))) (drop n inp)
  | SendFds l k => let '(o, i, r) := feed gone failed (k (negb failed)) inp in ((if failed then [] else [WFds l]) ++ o, i, r)
  | RecvFds k =>
      match inp with
      | [] => if gone then feed gone failed (k None) [] else ([], inp, p)
      | WFds l :: inp => feed gone failed (k (Some l)) inp
      | WByte _ :: inp => feed gone failed (k None) inp
      end
  end.

Definition is_done {A} (p : prog A) : bool := match p with Ret _ => true | _ => false end.

Definition is_failed {A} (p : prog (result HsError A)) : bool := match p with Ret (Err _) => true | _ => false end.

(** Rounds of the first side, then the second. *)
Fixpoint exchange {A B} (fuel : nat) (c : prog (result HsError A)) (s : prog (result HsError B)) (to_c to_s : list wire)
    : option (result HsError A * result HsError B) :=
  match c, s with
  | Ret a, Ret b => Some (a, b)
  | _, _ =>
      match fuel with
      | O => None
      | S fuel =>
          let '(out_c, to_c, c) := feed (is_done s) (is_failed s) c to_c in
          let '(out_s, to_s, s) := feed (is_done c) (is_failed c) s (to_s ++ out_c) in
          exchange fuel c s (to_c ++ out_s) to_s
      end
  end.
