(* ===== verification/HandshakeFacts.v ===== *)
(** * Running the programs of the handshake *)

From Stdlib Require Import ZArith Lia String.
From stdpp Require Import base numbers list gmap strings.
From S2P Require Import Prelude Bytes Protocol Fixed Config Negotiation Header Region Mpsc LocalManager RemoteManager DataQueue Handshake.

#[local] Open Scope Z_scope.

#[local] Open Scope prog_scope.

(** ** Composition *)

Section feed.
Context {A B : Type} (gone failed : bool).

(** Output in front. *)
Definition prefix (o : list wire) {C} (r : list wire * list wire * C) : list wire * list wire * C :=
  let '(o', i, p) := r in (o ++ o', i, p).

Lemma prefix_prefix (o1 o2 : list wire) {C} (r : list wire * list wire * C) : prefix o1 (prefix o2 r) = prefix (o1 ++ o2) r.
Proof. destruct r as [[o i] p]. cbn. by rewrite app_assoc. Qed.

Lemma prefix_nil {C} (r : list wire * list wire * C) : prefix [] r = r.
Proof. by destruct r as [[o i] p]. Qed.

(** A program that ends hands over to the next one. *)
Lemma feed_then (p : prog (result HsError A)) (f : A -> prog (result HsError B)) (inp i : list wire) (o : list wire)
    (r : result HsError A) :
  feed gone failed p inp = (o, i, Ret r) ->
  feed gone failed (and_then p f) inp =
    match r with Ok a => prefix o (feed gone failed (f a) i) | Err e => (o, i, Ret (Err e)) end.
Proof.
  revert inp i o. induction p as [a|b k IH|n k IH|l k IH|k IH]; intros inp i o E; cbn [feed and_then] in *.
  - injection E as <- <- <-. destruct a; [by rewrite prefix_nil|done].
  - destruct (feed gone failed (k (negb failed)) inp) as [[o1 i1] p1] eqn:E1. injection E as <- <- ->.
    rewrite (IH _ _ _ _ E1). destruct r as [a|e]; [|done]. rewrite <- prefix_prefix. destruct (prefix o1 _) as [[o2 i2] p2]. done.
  - destruct (length inp <? n)%nat; [destruct gone; [|done]|]; by apply IH.
  - destruct (feed gone failed (k (negb failed)) inp) as [[o1 i1] p1] eqn:E1. injection E as <- <- ->.
    rewrite (IH _ _ _ _ E1). destruct r as [a|e]; [|done]. rewrite <- prefix_prefix. destruct (prefix o1 _) as [[o2 i2] p2]. done.
  - destruct inp as [|[b|l] inp]; [destruct gone; [|done]|..]; by apply IH.
Qed.

(** A program that waits is waited for. *)
Lemma feed_then_waits (p p' : prog (result HsError A)) (f : A -> prog (result HsError B)) (inp i o : list wire) :
  feed gone failed p inp = (o, i, p') -> is_done p' = false ->
  feed gone failed (and_then p f) inp = (o, i, and_then p' f).
Proof.
  intros E Hd. revert inp i o E. induction p as [a|b k IH|n k IH|l k IH|k IH]; intros inp i o E; cbn [feed and_then] in *.
  - by injection E as <- <- <-.
  - destruct (feed gone failed (k (negb failed)) inp) as [[o1 i1] p1] eqn:E1. injection E as <- <- ->.
    by rewrite (IH _ _ _ _ E1).
  - destruct (length inp <? n)%nat; [destruct gone|]; [by apply IH|by injection E as <- <- <-|by apply IH].
  - destruct (feed gone failed (k (negb failed)) inp) as [[o1 i1] p1] eqn:E1. injection E as <- <- ->.
    by rewrite (IH _ _ _ _ E1).
  - destruct inp as [|[b|l] inp]; [destruct gone|..]; [by apply IH|by injection E as <- <- <-|by apply IH|by apply IH].
Qed.

Lemma feed_map_err (g : HsError -> HsError) (p : prog (result HsError A)) (inp i o : list wire) (r : result HsError A) :
  feed gone failed p inp = (o, i, Ret r) ->
  feed gone failed (map_err g p) inp = (o, i, Ret (match r with Ok a => Ok a | Err e => Err (g e) end)).
Proof.
  revert inp i o. induction p as [a|b k IH|n k IH|l k IH|k IH]; intros inp i o E; cbn [feed map_err] in *.
  - injection E as <- <- <-. by destruct a.
  - destruct (feed gone failed (k (negb failed)) inp) as [[o1 i1] p1] eqn:E1. injection E as <- <- ->.
    by rewrite (IH _ _ _ _ E1).
  - destruct (length inp <? n)%nat; [destruct gone; [|done]|]; by apply IH.
  - destruct (feed gone failed (k (negb failed)) inp) as [[o1 i1] p1] eqn:E1. injection E as <- <- ->.
    by rewrite (IH _ _ _ _ E1).
  - destruct inp as [|[b|l] inp]; [destruct gone; [|done]|..]; by apply IH.
Qed.

End feed.

Lemma feed_write (gone : bool) (bytes : list Z) (inp : list wire) :
  feed gone false (block_write_full bytes) inp = (WByte <$> bytes, inp, Ret (Ok tt)).
Proof. cbn. by rewrite app_nil_r. Qed.

Lemma feed_send_fd (gone : bool) (fds : list Fd) (inp : list wire) :
  feed gone false (send_fd fds) inp = ([WFds fds], inp, Ret (Ok tt)).
Proof. done. Qed.

(** ** Input *)

Lemma wire_bytes (bytes : list Z) : wire_byte <$> (WByte <$> bytes) = bytes.
Proof. induction bytes as [|b bytes IH]; cbn; [done|by rewrite IH]. Qed.

Lemma feed_read (gone failed : bool) (n : nat) (bytes : list Z) (rest : list wire) :
  length bytes = n ->
  feed gone failed (block_read_full n) ((WByte <$> bytes) ++ rest) = ([], rest, Ret (Ok bytes)).
Proof.
  intros <-. cbn [feed block_read_full]. rewrite length_app, length_fmap. replace (_ <? _)%nat with false by (symmetry; apply Nat.ltb_ge; lia).
  rewrite take_app_exact, drop_app_exact by by rewrite length_fmap. by rewrite wire_bytes.
Qed.

(** A header that was written is what is waited for. *)
Lemma feed_header (gone failed : bool) (n v t : Z) (rest : list wire) :
  0 <= n < W32 -> 0 <= v <= MAX_SUPPORT_PROTO_VERSION -> MIN_EVENT_TYPE <= t <= MAX_EVENT_TYPE ->
  feed gone failed block_read_event_header ((WByte <$> hdr_encode n v t) ++ rest) = ([], rest, Ret (Ok (hdr_encode n v t))).
Proof.
  intros Hn Hv Ht. unfold block_read_event_header. rewrite (feed_then _ _ _ _ _ _ _ _ (feed_read _ _ (Z.to_nat HEADER_SIZE) (hdr_encode n v t) rest eq_refl)).
  pose proof (check_encoded n v t [] Hn Hv Ht) as Hc. rewrite app_nil_r in Hc. by rewrite Hc.
Qed.

Lemma feed_wait (gone failed : bool) (n v t : Z) (rest : list wire) :
  0 <= n < W32 -> 0 <= v <= MAX_SUPPORT_PROTO_VERSION -> MIN_EVENT_TYPE <= t <= MAX_EVENT_TYPE ->
  feed gone failed (wait_event_header t) ((WByte <$> hdr_encode n v t) ++ rest) = ([], rest, Ret (Ok (hdr_encode n v t))).
Proof.
  intros Hn Hv Ht. unfold wait_event_header. rewrite (feed_then _ _ _ _ _ _ _ _ (feed_header _ _ _ _ _ _ Hn Hv Ht)).
  destruct (hdr_fields n v t [] Hn) as (_ & _ & _ & E). rewrite app_nil_r in E. rewrite E, Z.eqb_refl. done.
Qed.

Lemma feed_body (gone failed : bool) (v t : Z) (body : list Z) (rest : list wire) :
  HEADER_SIZE + Z.of_nat (length body) < W32 ->
  feed gone failed (read_message_body (hdr_encode (HEADER_SIZE + Z.of_nat (length body)) v t)) ((WByte <$> body) ++ rest) =
    ([], rest, Ret (Ok body)).
Proof.
  intros Hl. unfold read_message_body. destruct (hdr_fields (HEADER_SIZE + Z.of_nat (length body)) v t []) as (E & _ & _ & _).
  { unfold HEADER_SIZE, SIZE_OF_LENGTH, SIZE_OF_MAGIC, SIZE_OF_VERSION, SIZE_OF_TYPE in *. lia. }
  rewrite app_nil_r in E. rewrite E. replace (_ <? HEADER_SIZE) with false by (symmetry; apply Z.ltb_ge; lia).
  replace (Z.to_nat (HEADER_SIZE + Z.of_nat (length body) - HEADER_SIZE)) with (length body) by lia.
  destruct (length body =? 0)%nat eqn:E0; [|by apply feed_read].
  apply Nat.eqb_eq, nil_length_inv in E0. by subst body.
Qed.

(** ** Metadata *)

Lemma generate_spec (path : list Z) (version : Z) :
  0 < Z.of_nat (length path) < W16 ->
  generate_v5_shm_metadata path version =
    Ok (hdr_encode (HEADER_SIZE + Z.of_nat (length (be_bytes 2 (Z.of_nat (length path)) ++ path ++ be_bytes 4 ADVERTISED_DYNSHM_SIZE)))
          version TYPE_SHARE_MEMORY_BY_MEMFD ++ be_bytes 2 (Z.of_nat (length path)) ++ path ++ be_bytes 4 ADVERTISED_DYNSHM_SIZE).
Proof.
  intros Hl. unfold generate_v5_shm_metadata. replace (_ >=? W16) with false by (symmetry; rewrite Z.geb_leb; apply Z.leb_gt; lia).
  replace (_ =? 0) with false by (symmetry; apply Z.eqb_neq; lia). rewrite !length_app, !be_bytes_length. do 3 f_equal. lia.
Qed.

Lemma extract_generated (path : list Z) :
  0 < Z.of_nat (length path) < W16 -> utf8_valid path = true ->
  extract_v5_shm_metadata (be_bytes 2 (Z.of_nat (length path)) ++ path ++ be_bytes 4 ADVERTISED_DYNSHM_SIZE) =
    Ok (path, ADVERTISED_DYNSHM_SIZE).
Proof.
  intros Hl Hu. unfold extract_v5_shm_metadata, METADATA_MIN_SIZE. rewrite !length_app, !be_bytes_length.
  replace (_ <? _)%nat with false by (symmetry; apply Nat.ltb_ge; lia).
  rewrite take_app_exact, drop_app_exact by apply be_bytes_length.
  rewrite be_val_bytes, Z.mod_small, Nat2Z.id by (unfold W16 in Hl; cbn; lia).
  replace (length path =? 0)%nat with false by (symmetry; apply Nat.eqb_neq; lia).
  replace (2 + (length path + 4) =? 2 + length path + 4)%nat with true by (symmetry; apply Nat.eqb_eq; lia).
  rewrite take_app_exact, Hu by done. cbn [negb orb]. f_equal. f_equal.
  rewrite drop_app_ge by (rewrite be_bytes_length; lia). rewrite be_bytes_length, drop_app_exact by lia. done.
Qed.

Lemma extract_accepted (p body : list Z) (n : Z) :
  Forall is_byte body -> extract_v5_shm_metadata body = Ok (p, n) ->
  body = be_bytes 2 (Z.of_nat (length p)) ++ p ++ be_bytes 4 n /\ 0 < Z.of_nat (length p) < W16 /\ utf8_valid p = true.
Proof.
  intros Hb. unfold extract_v5_shm_metadata. destruct (Nat.ltb_spec (length body) METADATA_MIN_SIZE) as [|Hmin]; [done|].
  unfold METADATA_MIN_SIZE in Hmin. set (len := Z.to_nat (be_val (take 2 body))).
  destruct (Nat.eqb_spec len 0) as [|Hlen]; [done|]. destruct (Nat.eqb_spec (length body) (2 + len + 4)) as [Htot|]; [|done]. cbn [negb orb].
  destruct (utf8_valid (take len (drop 2 body))) eqn:Hu; [|done]. cbn [negb]. intros [= <- <-].
  assert (H2 : length (take 2 body) = 2%nat) by (rewrite length_take; lia).
  assert (Hval : 0 <= be_val (take 2 body) < W16).
  { pose proof (be_val_bound (take 2 body) (Forall_take _ _ _ Hb)) as Hv. rewrite H2 in Hv. exact Hv. }
  assert (Hp : length (take len (drop 2 body)) = len) by (rewrite length_take, length_drop; lia).
  assert (H4 : length (take 4 (drop (2 + len) body)) = 4%nat) by (rewrite length_take, length_drop; lia).
  rewrite Hp. split; [|split; [subst len; lia|done]].
  rewrite <- (take_drop 2 body) at 1. f_equal.
  { rewrite <- (be_bytes_val (take 2 body)) at 1 by by apply Forall_take. rewrite H2. f_equal. subst len. lia. }
  rewrite <- (take_drop len (drop 2 body)) at 1. f_equal. rewrite drop_drop.
  set (tail := drop (2 + len) body) in *.
  assert (Ht : length tail = 4%nat) by (subst tail; rewrite length_drop; lia).
  rewrite (take_ge tail) by lia. rewrite <- Ht. symmetry. apply be_bytes_val. by apply Forall_drop.
Qed.

(** The metadata of a published segment round trips: what a side generates for
    a path the peer can accept is read back as that path and the advertised size,
    and every body that is accepted is one that could have been generated: a
    non-empty UTF-8 path of the declared length, followed by four bytes. *)
Theorem metadata_roundtrip (path body : list Z) (version : Z) :
  (0 < Z.of_nat (length path) < W16 -> utf8_valid path = true ->
   exists event, generate_v5_shm_metadata path version = Ok event /\
     extract_v5_shm_metadata (drop (Z.to_nat HEADER_SIZE) event) = Ok (path, ADVERTISED_DYNSHM_SIZE)) /\
  (forall p n, Forall is_byte body -> extract_v5_shm_metadata body = Ok (p, n) ->
   body = be_bytes 2 (Z.of_nat (length p)) ++ p ++ be_bytes 4 n /\ 0 < Z.of_nat (length p) < W16 /\ utf8_valid p = true).
Proof.
  split.
  - intros Hl Hu. exists (hdr_encode (HEADER_SIZE + Z.of_nat (length (be_bytes 2 (Z.of_nat (length path)) ++ path ++ be_bytes 4 ADVERTISED_DYNSHM_SIZE)))
          version TYPE_SHARE_MEMORY_BY_MEMFD ++ be_bytes 2 (Z.of_nat (length path)) ++ path ++ be_bytes 4 ADVERTISED_DYNSHM_SIZE).
    split; [by apply generate_spec|]. rewrite drop_app_exact by done. by apply extract_generated.
  - intros p n Hb. apply extract_accepted; done.
Qed.

(** ** Rounds *)

Lemma exchange_round {A B} (fuel : nat) (c c' : prog (result HsError A)) (s s' : prog (result HsError B))
    (to_c to_s in_c in_s out_c out_s : list wire) :
  is_done c = false -> feed (is_done s) (is_failed s) c to_c = (out_c, in_c, c') ->
  feed (is_done c') (is_failed c') s (to_s ++ out_c) = (out_s, in_s, s') ->
  exchange (S fuel) c s to_c to_s = exchange fuel c' s' (in_c ++ out_s) in_s.
Proof. intros Hd E1 E2. destruct c; [done|..]; cbn [exchange]; by rewrite E1, E2. Qed.

Lemma waiting_not_done {A} (gone failed : bool) (p p' : prog A) (inp o i : list wire) :
  feed gone failed p inp = (o, i, p') -> is_done p' = false -> is_done p = false.
Proof. intros E Hd. destruct p; [|done..]. cbn in E. by injection E as <- <- <-. Qed.

(** ** The older metadata *)

Lemma extract_path_app (path rest : list Z) :
  Z.of_nat (length path) < W16 -> extract_path (be_bytes 2 (Z.of_nat (length path)) ++ path ++ rest) = Some (path, rest).
Proof.
  intros Hl. unfold extract_path. rewrite !length_app, be_bytes_length.
  replace (_ <? 2)%nat with false by (symmetry; apply Nat.ltb_ge; lia).
  rewrite take_app_exact, drop_app_exact by apply be_bytes_length.
  rewrite be_val_bytes, Z.mod_small, Nat2Z.id by (unfold W16 in Hl; cbn; lia).
  replace (_ <? _)%nat with false by (symmetry; apply Nat.ltb_ge; lia).
  rewrite take_app_exact by done. do 2 f_equal. rewrite drop_app_ge by (rewrite be_bytes_length; lia).
  rewrite be_bytes_length. apply drop_app_exact. lia.
Qed.

(** Paths of less than 64 KiB round trip. *)
Lemma shm_metadata_roundtrip (t : EventType) (buffer_path queue_path : list Z) (version : Z) :
  Z.of_nat (length buffer_path) < W16 -> Z.of_nat (length queue_path) < W16 ->
  extract_shm_metadata (drop (Z.to_nat HEADER_SIZE) (generate_shm_metadata t buffer_path queue_path version)) =
    Some (buffer_path, queue_path).
Proof.
  intros Hb Hq. unfold generate_shm_metadata. rewrite drop_app_exact by done. unfold extract_shm_metadata.
  rewrite extract_path_app by done. cbn [mbind option_bind].
  rewrite <- (app_nil_r buffer_path) at 2. rewrite extract_path_app by done. done.
Qed.

(** Nothing checks a body from the peer before it is sliced: a short one panics. *)
Lemma short_metadata_panics : extract_shm_metadata [0] = None /\ extract_shm_metadata [0; 1; 113] = None.
Proof. done. Qed.

(** A second attempt is made only after the first one got no answer, with the
    protocol reset to legacy. *)
Lemma fallback_only_unanswered {S} (connect : nat -> bool) (new_session : nat -> Config -> result HsError S) (c : Config) (e : HsError) :
  new_session 0%nat c = Err e -> connect 0%nat = true -> is_network_or_protocol e = false ->
  session_client connect new_session c = Err (InitFailed e).
Proof. intros E Hc He. unfold session_client. rewrite Hc, E, He, andb_false_r. done. Qed.

Lemma metadata_roundtrip_witness :
  exists event, generate_v5_shm_metadata (bytes_of "/dev/shm/q") 5 = Ok event /\
    extract_v5_shm_metadata (drop (Z.to_nat HEADER_SIZE) event) = Ok (bytes_of "/dev/shm/q", ADVERTISED_DYNSHM_SIZE).
Proof.
  apply (proj1 (metadata_roundtrip (bytes_of "/dev/shm/q") [] 5)); [vm_compute; split; reflexivity|vm_compute; reflexivity].
Defined.
