(* ===== verification/HandshakeTheorems.v ===== *)
(** * What the handshake guarantees *)

From Stdlib Require Import ZArith Lia String.
From stdpp Require Import base numbers list gmap strings.
From S2P Require Import Prelude Bytes Protocol Fixed Config Negotiation Header Region Mpsc LocalManager LocalManagerTheorems.
From S2P Require Import RemoteManager DataQueue DataQueueTheorems Handshake HandshakeFacts.

#[local] Open Scope Z_scope.

#[local] Open Scope prog_scope.

Section theorems.
Context {Value : Type} `{SerdeLaws Value}.

(** ** Why a negotiation fails *)

(** A complete negotiation event is at the front of the bytes. *)
Definition answered (bytes : list Z) : bool :=
  (8 <=? length bytes)%nat && is_ok (check_event_valid (take 8 bytes)) &&
  (hdr_msg_type (take 8 bytes) =? TYPE_NEGOTIATION) && (HEADER_SIZE <=? hdr_length (take 8 bytes)) &&
  (Z.to_nat (hdr_length (take 8 bytes)) <=? length bytes)%nat.

Lemma feed_read_all (n : nat) (bytes : list Z) :
  exists i, feed true false (block_read_full n) (WByte <$> bytes) =
    ([], i, Ret (if (n <=? length bytes)%nat then Ok (take n bytes) else Err OtherError)) /\
    ((n <= length bytes)%nat -> i = WByte <$> drop n bytes).
Proof.
  cbn [feed block_read_full]. rewrite length_fmap. destruct (Nat.ltb_spec (length bytes) n) as [Hl|Hl].
  - exists []. replace (n <=? length bytes)%nat with false by (symmetry; by apply Nat.leb_gt). split; [done|lia].
  - exists (WByte <$> drop n bytes). replace (n <=? length bytes)%nat with true by (symmetry; by apply Nat.leb_le).
    rewrite <- fmap_take, wire_bytes, fmap_drop. done.
Qed.

Lemma feed_wait_all (bytes : list Z) :
  exists i, feed true false (wait_event_header TYPE_NEGOTIATION) (WByte <$> bytes) =
    ([], i, Ret (if (8 <=? length bytes)%nat && is_ok (check_event_valid (take 8 bytes)) && (hdr_msg_type (take 8 bytes) =? TYPE_NEGOTIATION)
                 then Ok (take 8 bytes) else Err OtherError)) /\
    ((8 <= length bytes)%nat -> i = WByte <$> drop 8 bytes).
Proof.
  destruct (feed_read_all 8 bytes) as (i & E & Hi). exists i. split; [|done]. unfold wait_event_header, block_read_event_header.
  assert (Eh : feed true false (and_then (block_read_full (Z.to_nat HEADER_SIZE))
      (fun h => Ret (match check_event_valid h with Ok _ => Ok h | Err _ => Err OtherError end))) (WByte <$> bytes) =
      ([], i, Ret (if (8 <=? length bytes)%nat && is_ok (check_event_valid (take 8 bytes)) then Ok (take 8 bytes) else Err OtherError))).
  { change (Z.to_nat HEADER_SIZE) with 8%nat. rewrite (feed_then _ _ _ _ _ _ _ _ E).
    destruct (8 <=? length bytes)%nat; [|done]. by destruct (check_event_valid (take 8 bytes)). }
  rewrite (feed_then _ _ _ _ _ _ _ _ Eh). destruct (_ && is_ok _); [|done]. cbn.
  by destruct (hdr_msg_type (take 8 bytes) =? TYPE_NEGOTIATION).
Qed.

Lemma feed_body_all (h bytes : list Z) :
  exists i, feed true false (read_message_body h) (WByte <$> bytes) =
    ([], i, Ret (if (HEADER_SIZE <=? hdr_length h) && (Z.to_nat (hdr_length h - HEADER_SIZE) <=? length bytes)%nat
                 then Ok (take (Z.to_nat (hdr_length h - HEADER_SIZE)) bytes) else Err OtherError)).
Proof.
  unfold read_message_body. destruct (Z.ltb_spec (hdr_length h) HEADER_SIZE) as [Hl|Hl].
  - exists (WByte <$> bytes). by replace (HEADER_SIZE <=? hdr_length h) with false by (symmetry; by apply Z.leb_gt).
  - replace (HEADER_SIZE <=? hdr_length h) with true by (symmetry; by apply Z.leb_le). cbn [andb].
    destruct (Z.to_nat (hdr_length h - HEADER_SIZE)) as [|n] eqn:En; cbn [Nat.eqb].
    + by eexists.
    + destruct (feed_read_all (S n) bytes) as (i & E & _). by exists i.
Qed.

(** C28. A client falls back to the legacy protocol only when it got no answer:
    whatever bytes the peer sends before it stops, a negotiation ends, and it ends
    in the error that permits the fallback exactly if those bytes do not start
    with one complete negotiation event.  A refusal, an answer that does not parse
    or one that names an unknown protocol reaches the caller. *)
Theorem negotiation_error_classes (c : Config) (request : NegotiationRequest Value) (bytes : list Z) :
  from_config c = Ok request ->
  exists out rest r, feed true false (negotiate_client c) (WByte <$> bytes) = (out, rest, Ret r) /\
    (r = Err NetworkOrProtocol <-> answered bytes = false).
Proof.
  intros Hc. unfold negotiate_client. rewrite Hc. cbn [ret_of and_then]. unfold write_negotiation.
  rewrite (feed_then _ _ _ _ _ _ _ _ (feed_map_err _ _ _ _ _ _ _ _ (feed_write _ _ _))).
  destruct (feed_wait_all bytes) as (i & Ew & Hi). rewrite (feed_then _ _ _ _ _ _ _ _ (feed_map_err _ _ _ _ _ _ _ _ Ew)).
  unfold answered. destruct (Nat.leb_spec 8 (length bytes)) as [Hl|Hl]; [|by eexists _, _, _].
  destruct (is_ok _); [|by eexists _, _, _]. destruct (hdr_msg_type _ =? _); [|by eexists _, _, _]. cbn [andb].
  rewrite (Hi Hl). destruct (feed_body_all (take 8 bytes) (drop 8 bytes)) as (i2 & Eb).
  rewrite (feed_then _ _ _ _ _ _ _ _ (feed_map_err _ _ _ _ _ _ _ _ Eb)).
  rewrite length_drop. set (len := hdr_length (take 8 bytes)).
  destruct (Z.leb_spec HEADER_SIZE len) as [Hh|Hh]; [|by eexists _, _, _]. cbn [andb].
  replace (Z.to_nat (len - HEADER_SIZE) <=? length bytes - 8)%nat with (Z.to_nat len <=? length bytes)%nat.
  2:{ unfold HEADER_SIZE, SIZE_OF_LENGTH, SIZE_OF_MAGIC, SIZE_OF_VERSION, SIZE_OF_TYPE in *.
      destruct (Nat.leb_spec (Z.to_nat len) (length bytes)); symmetry; [apply Nat.leb_le|apply Nat.leb_gt]; lia. }
  destruct (Z.to_nat len <=? length bytes)%nat; [|by eexists _, _, _].
  eexists _, _, _. split; [reflexivity|]. split; [|done]. repeat case_match; done.
Qed.

(** ** The exchange of memory *)

(** The kernel maps at addresses aligned for the ring, and the configuration can
    be published: a queue that fits its mapping, a path the peer accepts. *)
Record ready (h : Host) (c : Config) : Prop := {
  rd_queue_at : (MAX_PAYLOAD_ALIGN | h_queue_at h);
  rd_segment_at : (MAX_PAYLOAD_ALIGN | h_segment_at h);
  rd_peer_queue_at : (MAX_PAYLOAD_ALIGN | h_peer_queue_at h);
  rd_peer_segment_at : (MAX_PAYLOAD_ALIGN | h_peer_segment_at h);
  rd_pinned : 0 <= default 0 (h_pinned h);
  rd_cap : 1 <= cf_queue_cap c;
  rd_size : queue_mem_size (cf_queue_cap c) <= I64_MAX;
  rd_path : 0 < Z.of_nat (length (queue_path c)) < W16;
  rd_utf8 : utf8_valid (queue_path c) = true;
}.

Definition queue_fd (h : Host) (c : Config) : Fd := mkFd (h_queue_file h) (queue_mem_size (cf_queue_cap c)).

Definition segment_fd (h : Host) : Fd := mkFd (h_segment_file h) DYNSHM_TOTAL_SIZE.

Lemma create_ready (h : Host) (c : Config) :
  ready h c -> exists own, create_own_shm h c = Ok own /\ own_queue_fd own = queue_fd h c /\ own_segment_fd own = segment_fd h.
Proof.
  intros [A1 A2 _ _ Hp Hc Hs _ _]. unfold create_own_shm.
  destruct (dq_create_map ∅ _ _ Hc Hs A1) as (d & m' & E & _ & _ & _ & Esz & _). rewrite E.
  destruct (lm_new_built (h_env h) (h_pinned h) ∅ _ A2 Hp) as (lm & m2 & El & _). rewrite El.
  eexists. split; [reflexivity|]. cbn. by rewrite Esz.
Qed.

Lemma rm_map_segment (data : Z) : (MAX_PAYLOAD_ALIGN | data) -> exists rm, rm_map data DYNSHM_TOTAL_SIZE 0 = Ok rm.
Proof.
  intros [k Hk]. unfold rm_map, map_rq, mpsc_map, from_raw_parts. change (0 =? 0) with true. cbn iota.
  rewrite Z.eqb_refl. change (DYNSHM_TOTAL_SIZE <? _) with false. change (RQ_SIZE <? RQ_SIZE) with false. cbn [negb orb].
  change (palign >? MAX_PAYLOAD_ALIGN) with false. change (is_multiple_of RQ_SIZE PAGE_SIZE) with true.
  change (RQ_SIZE <? MPSC_HEADER_SIZE) with false. cbn [negb].
  replace (is_multiple_of data MAX_PAYLOAD_ALIGN) with true.
  2:{ symmetry. unfold is_multiple_of. change (MAX_PAYLOAD_ALIGN =? 0) with false. cbn iota. rewrite Hk, Z.mod_mul by done. done. }
  cbn [negb]. match goal with |- context [if ?b then _ else _] => change b with false end. by eexists.
Qed.

Lemma map_ready (h hp : Host) (c cp : Config) :
  ready h c -> ready hp cp ->
  exists peer, map_peer h (queue_fd hp cp) (segment_fd hp) ADVERTISED_DYNSHM_SIZE = Ok peer /\
    peer_queue_fd peer = queue_fd hp cp /\ peer_segment_fd peer = segment_fd hp.
Proof.
  intros Hh Hp. unfold map_peer.
  destruct (dq_create_map ∅ _ _ (rd_cap _ _ Hp) (rd_size _ _ Hp) (rd_peer_queue_at _ _ Hh)) as (d & m' & _ & _ & _ & _ & _ & E & _).
  cbn [queue_fd segment_fd fd_len]. rewrite E. change ADVERTISED_DYNSHM_SIZE with 0. destruct (rm_map_segment _ (rd_peer_segment_at _ _ Hh)) as [rm ->].
  eexists. split; [reflexivity|]. done.
Qed.

(** What a side sends: the metadata, and after the acknowledgement its files. *)
Definition metadata_body (c : Config) : list Z :=
  be_bytes 2 (Z.of_nat (length (queue_path c))) ++ queue_path c ++ be_bytes 4 ADVERTISED_DYNSHM_SIZE.

Definition metadata_event (c : Config) (v : Z) : list Z :=
  hdr_encode (HEADER_SIZE + Z.of_nat (length (metadata_body c))) v TYPE_SHARE_MEMORY_BY_MEMFD ++ metadata_body c.

Definition ack (v : Z) : list Z := hdr_encode HEADER_SIZE v TYPE_ACK_READY_RECV_FD.

Definition wakeup_fd (h : Host) (n : Negotiated) : option Fd :=
  if is_eventfd_feature n then Some (mkFd (h_eventfd_file h) 0) else None.

Definition published (h : Host) (c : Config) (n : Negotiated) : list Fd :=
  [queue_fd h c; segment_fd h] ++ match wakeup_fd h n with Some fd => [fd] | None => [] end.

Lemma take_published (h : Host) (c : Config) (n : Negotiated) :
  take_fds n (published h c n) = Ok (queue_fd h c, segment_fd h, wakeup_fd h n) /\
  (length (published h c n) <? (if is_eventfd_feature n then MEMFD_COUNT_EVENTFD_V5 else MEMFD_COUNT))%nat = false.
Proof. unfold published, wakeup_fd, take_fds. by destruct (is_eventfd_feature n) eqn:E; cbn; rewrite ?E. Qed.

Section phases.
Context {B : Type} (h hp : Host) (c cp : Config) (n : Negotiated) (Hh : ready h c) (Hp : ready hp cp).

Context (Hv : 0 <= message_version n <= MAX_SUPPORT_PROTO_VERSION).

(** The sender, once its metadata is out. *)
Definition awaiting_ack (k : option Fd -> prog (result HsError B)) : prog (result HsError B) :=
  and_then (and_then (and_then (wait_event_header TYPE_ACK_READY_RECV_FD) (fun _ => send_fd (published h c n)))
             (fun _ => Ret (Ok (wakeup_fd h n)))) k.

Lemma send_metadata (own : OwnEndpoint) (k : option Fd -> prog (result HsError B)) :
  own_queue_fd own = queue_fd h c -> own_segment_fd own = segment_fd h ->
  feed false false (and_then (send_fds_to_peer h (queue_path c) own n) k) [] =
    (WByte <$> metadata_event c (message_version n), [], awaiting_ack k).
Proof.
  intros E1 E2. unfold send_fds_to_peer. rewrite (generate_spec _ _ (rd_path _ _ Hh)), E1, E2.
  fold (metadata_body c). fold (metadata_event c (message_version n)). fold (wakeup_fd h n). fold (published h c n).
  cbn [ret_of and_then send_shm_metadata_and_fds block_write_full feed negb].
  transitivity ((WByte <$> metadata_event c (message_version n)) ++ [], @nil wire, awaiting_ack k); [reflexivity|by rewrite app_nil_r].
Qed.

Lemma send_files (gone : bool) (k : option Fd -> prog (result HsError B)) (rest : list wire) :
  feed gone false (awaiting_ack k) ((WByte <$> ack (message_version n)) ++ rest) =
    prefix [WFds (published h c n)] (feed gone false (k (wakeup_fd h n)) rest).
Proof.
  unfold awaiting_ack.
  assert (E1 : feed gone false (and_then (wait_event_header TYPE_ACK_READY_RECV_FD) (fun _ => send_fd (published h c n)))
                 ((WByte <$> ack (message_version n)) ++ rest) = ([WFds (published h c n)], rest, Ret (Ok tt))).
  { rewrite (feed_then _ _ _ _ _ _ _ _ (feed_wait gone false HEADER_SIZE (message_version n) TYPE_ACK_READY_RECV_FD rest
      ltac:(vm_compute; split; [discriminate|reflexivity]) Hv ltac:(vm_compute; split; discriminate))). done. }
  erewrite feed_then; [|rewrite (feed_then _ _ _ _ _ _ _ _ E1); reflexivity]. done.
Qed.

(** The receiver, once it has acknowledged the metadata. *)
Definition awaiting_files (k : PeerEndpoint * option Fd -> prog (result HsError B)) : prog (result HsError B) :=
  and_then (and_then (block_read_out_of_bound_for_fd (if is_eventfd_feature n then MEMFD_COUNT_EVENTFD_V5 else MEMFD_COUNT))
    (fun fds => taken <- ret_of (take_fds n fds) ?;
       let '(q, s, wakeup_send) := taken in
       peer <- ret_of (map_peer h q s ADVERTISED_DYNSHM_SIZE) ?; Ret (Ok (peer, wakeup_send)))) k.

Lemma recv_metadata (k : PeerEndpoint * option Fd -> prog (result HsError B)) :
  feed false false (and_then (recv_fds_from_peer h n) k) (WByte <$> metadata_event cp (message_version n)) =
    (WByte <$> ack (message_version n), [], awaiting_files k).
Proof.
  unfold metadata_event. rewrite fmap_app.
  assert (Hlen : 0 <= HEADER_SIZE + Z.of_nat (length (metadata_body cp)) < W32).
  { unfold metadata_body. rewrite !length_app, !be_bytes_length. pose proof (rd_path _ _ Hp). unfold W16, W32 in *.
    change HEADER_SIZE with 8. lia. }
  pose proof (feed_wait false false _ (message_version n) TYPE_SHARE_MEMORY_BY_MEMFD (WByte <$> metadata_body cp) Hlen Hv
    ltac:(vm_compute; split; discriminate)) as E1.
  pose proof (feed_body false false (message_version n) TYPE_SHARE_MEMORY_BY_MEMFD (metadata_body cp) [] ltac:(lia)) as E2.
  rewrite app_nil_r in E2. unfold recv_fds_from_peer.
  assert (Ex : extract_v5_shm_metadata (metadata_body cp) = Ok (queue_path cp, ADVERTISED_DYNSHM_SIZE)).
  { apply extract_generated; [apply (rd_path _ _ Hp)|apply (rd_utf8 _ _ Hp)]. }
  rewrite (feed_then_waits _ _ _ (and_then (block_read_out_of_bound_for_fd (if is_eventfd_feature n then MEMFD_COUNT_EVENTFD_V5 else MEMFD_COUNT))
    (fun fds => taken <- ret_of (take_fds n fds) ?;
       let '(q, s, wakeup_send) := taken in
       peer <- ret_of (map_peer h q s ADVERTISED_DYNSHM_SIZE) ?; Ret (Ok (peer, wakeup_send)))) k _ []
    (WByte <$> ack (message_version n))); [reflexivity| |reflexivity].
  rewrite (feed_then _ _ _ _ _ _ _ _ E1), prefix_nil. rewrite (feed_then _ _ _ _ _ _ _ _ E2), prefix_nil. rewrite Ex.
  cbn [ret_of and_then snd]. unfold ack_and_recv_fds. reflexivity.
Qed.

Lemma recv_files (gone : bool) (k : PeerEndpoint * option Fd -> prog (result HsError B)) :
  exists peer, peer_queue_fd peer = queue_fd hp cp /\ peer_segment_fd peer = segment_fd hp /\
    forall rest, feed gone false (awaiting_files k) (WFds (published hp cp n) :: rest) =
      feed gone false (k (peer, wakeup_fd hp n)) rest.
Proof.
  destruct (map_ready h hp c cp Hh Hp) as (peer & E & E1 & E2). destruct (take_published hp cp n) as [Et El].
  exists peer. split; [done|]. split; [done|]. intros rest. unfold awaiting_files, block_read_out_of_bound_for_fd.
  cbn [and_then feed]. rewrite El. cbn [and_then ret_of]. rewrite Et. cbn [and_then ret_of]. rewrite E. reflexivity.
Qed.

End phases.

(** ** Negotiation between two peers *)

Definition frame (payload : list Z) : list Z :=
  hdr_encode (HEADER_SIZE + Z.of_nat (length payload)) DEFAULT_MSG_VERSION TYPE_NEGOTIATION ++ payload.

Definition fits (payload : list Z) : Prop := HEADER_SIZE + Z.of_nat (length payload) < W32.

Lemma feed_frame_header (gone : bool) (payload : list Z) (rest : list wire) :
  fits payload ->
  feed gone false block_read_event_header ((WByte <$> frame payload) ++ rest) =
    ([], (WByte <$> payload) ++ rest,
     Ret (Ok (hdr_encode (HEADER_SIZE + Z.of_nat (length payload)) DEFAULT_MSG_VERSION TYPE_NEGOTIATION))).
Proof.
  intros Hf. unfold frame. rewrite fmap_app, <- app_assoc. apply feed_header.
  - unfold fits in Hf. change HEADER_SIZE with 8 in *. lia.
  - vm_compute. split; discriminate.
  - vm_compute. split; discriminate.
Qed.

Lemma frame_type (payload : list Z) :
  fits payload ->
  hdr_msg_type (hdr_encode (HEADER_SIZE + Z.of_nat (length payload)) DEFAULT_MSG_VERSION TYPE_NEGOTIATION) = TYPE_NEGOTIATION.
Proof. done. Qed.

(** The client, once its request is out. *)
Definition awaiting_answer (request : NegotiationRequest Value) : prog (result HsError (NegotiationResponse Value * NegotiatedFeature)) :=
  h <- map_err (fun _ => NetworkOrProtocol) (wait_event_header TYPE_NEGOTIATION) ?;
  body <- map_err (fun _ => NetworkOrProtocol) (read_message_body h) ?;
  Ret (match response_from_slice body with
       | None => Err InvalidResponse
       | Some response =>
           match rs_error response with
           | Some e => Err (Rejected e)
           | None =>
               if negb (existsb (Z.eqb (selected_protocol response)) (supports_protocols request))
               then Err (UnsupportedProtocol (selected_protocol response))
               else
                 match selected_feature response request with
                 | Err _ => Err InvalidResponse
                 | Ok f => Ok (response, f)
                 end
           end
       end).

Lemma client_asks (c : Config) (request : NegotiationRequest Value) :
  from_config c = Ok request ->
  feed false false (negotiate_client c) [] = (WByte <$> frame (request_to_vec request), [], awaiting_answer request).
Proof.
  intros Hc. unfold negotiate_client. rewrite Hc. cbn [ret_of and_then]. unfold write_negotiation.
  rewrite (feed_then _ _ _ _ _ _ _ _ (feed_map_err _ _ _ _ _ _ _ _ (feed_write _ _ _))). fold (frame (request_to_vec request)).
  transitivity ((WByte <$> frame (request_to_vec request)) ++ [], @nil wire, awaiting_answer request); [reflexivity|by rewrite app_nil_r].
Qed.

Lemma client_takes_answer (gone : bool) (request : NegotiationRequest Value) (response : NegotiationResponse Value)
    (f : NegotiatedFeature) (rest : list wire) :
  fits (response_to_vec response) -> rs_error response = None ->
  existsb (Z.eqb (selected_protocol response)) (supports_protocols request) = true ->
  selected_feature response request = Ok f ->
  feed gone false (awaiting_answer request) ((WByte <$> frame (response_to_vec response)) ++ rest) = ([], rest, Ret (Ok (response, f))).
Proof.
  intros Hfit He Hp Hf. unfold awaiting_answer.
  assert (Ew : feed gone false (wait_event_header TYPE_NEGOTIATION) ((WByte <$> frame (response_to_vec response)) ++ rest) =
    ([], (WByte <$> response_to_vec response) ++ rest,
     Ret (Ok (hdr_encode (HEADER_SIZE + Z.of_nat (length (response_to_vec response))) DEFAULT_MSG_VERSION TYPE_NEGOTIATION)))).
  { unfold wait_event_header. by rewrite (feed_then _ _ _ _ _ _ _ _ (feed_frame_header gone _ rest Hfit)). }
  rewrite (feed_then _ _ _ _ _ _ _ _ (feed_map_err _ _ _ _ _ _ _ _ Ew)), prefix_nil.
  rewrite (feed_then _ _ _ _ _ _ _ _ (feed_map_err _ _ _ _ _ _ _ _ (feed_body gone false _ _ _ rest Hfit))), prefix_nil.
  cbn [feed]. by rewrite response_roundtrip, He, Hp, Hf.
Qed.

Lemma server_answers (gone : bool) (request : NegotiationRequest Value) (response : NegotiationResponse Value) (v : Z) :
  fits (request_to_vec request) -> select_protocol request = Some v -> response_ok v (select_feature request) = Ok response ->
  v = PROTO_VERSION_V5 \/ v = PROTO_VERSION_V4 -> selected_protocol response = v ->
  exists first, feed gone false server_get_initializer (WByte <$> frame (request_to_vec request)) =
    (WByte <$> frame (response_to_vec response), [], Ret (Ok (if v =? PROTO_VERSION_V5 then InitV5 (negotiated_new (select_feature request)) else InitV4 (negotiated_new (select_feature request)), first))).
Proof.
  intros Hfit Hp Hr Hv45 Hv. set (hdr := hdr_encode (HEADER_SIZE + Z.of_nat (length (request_to_vec request))) DEFAULT_MSG_VERSION TYPE_NEGOTIATION).
  assert (En : feed gone false (negotiate_server hdr) (WByte <$> request_to_vec request) =
    (WByte <$> frame (response_to_vec response), [], Ret (Ok (response, select_feature request)))).
  { unfold negotiate_server, hdr. rewrite (frame_type _ Hfit), Z.eqb_refl. cbn [negb].
    pose proof (feed_body gone false DEFAULT_MSG_VERSION TYPE_NEGOTIATION (request_to_vec request) [] Hfit) as Eb. rewrite app_nil_r in Eb.
    rewrite (feed_then _ _ _ _ _ _ _ _ Eb), prefix_nil, request_roundtrip, Hp, Hr. cbn [ret_of and_then].
    unfold write_negotiation. rewrite (feed_then _ _ _ _ _ _ _ _ (feed_write _ _ _)). cbn. by rewrite app_nil_r. }
  assert (Ei : feed gone false (negotiated_initializer hdr) (WByte <$> request_to_vec request) =
    (WByte <$> frame (response_to_vec response), [], Ret (Ok (if v =? PROTO_VERSION_V5 then InitV5 (negotiated_new (select_feature request)) else InitV4 (negotiated_new (select_feature request)))))).
  { unfold negotiated_initializer. rewrite (feed_then _ _ _ _ _ _ _ _ En). cbn. rewrite Hv, app_nil_r. by destruct Hv45 as [-> | ->]. }
  exists hdr. unfold server_get_initializer. pose proof (feed_frame_header gone (request_to_vec request) [] Hfit) as Eh.
  rewrite !app_nil_r in Eh. rewrite (feed_then _ _ _ _ _ _ _ _ Eh), prefix_nil. fold hdr.
  replace (hdr_msg_type hdr) with TYPE_NEGOTIATION by (symmetry; by apply frame_type).
  change (TYPE_NEGOTIATION =? TYPE_SHARE_MEMORY_BY_FILE_PATH) with false. change (TYPE_NEGOTIATION =? TYPE_EXCHANGE_PROTO_VERSION) with false.
  rewrite Z.eqb_refl. rewrite (feed_then _ _ _ _ _ _ _ _ Ei). cbn. by rewrite app_nil_r.
Qed.

(** ** Two V5 peers *)

(** Two results of one handshake: each side maps the files the other created, and
    signals the eventfd the other waits on. *)
Definition crossed (a b : ProtocolInitialized) : Prop :=
  peer_queue_fd (in_peer a) = own_queue_fd (in_own b) /\ peer_segment_fd (in_peer a) = own_segment_fd (in_own b) /\
  wakeup_send <$> in_eventfd a = wakeup_recv <$> in_eventfd b.

Definition v5_result (n : Negotiated) (i : ProtocolInitialized) : Prop :=
  in_proto_version i = PROTO_VERSION_V5 /\ in_msg_version i = message_version n /\ in_feature i = feature n /\
  (is_Some (in_eventfd i) <-> feature n = FeatureEventFd).

Lemma initialized_ok (h hp : Host) (own : OwnEndpoint) (peer : PeerEndpoint) (n : Negotiated) :
  exists i, initialized own peer n (wakeup_fd hp n) (wakeup_fd h n) = Ok i /\ in_own i = own /\ in_peer i = peer /\ v5_result n i /\
    wakeup_send <$> in_eventfd i = wakeup_fd hp n /\ wakeup_recv <$> in_eventfd i = wakeup_fd h n.
Proof.
  unfold initialized, wakeup_fd, v5_result. destruct (is_eventfd_feature n) eqn:E; unfold is_eventfd_feature in E.
  - apply bool_decide_eq_true in E. eexists. split; [reflexivity|]. cbn. rewrite E. do 2 (split; [done|]). split; [|done].
    do 3 (split; [done|]). split; [done|by eexists].
  - apply bool_decide_eq_false in E. eexists. split; [reflexivity|]. cbn. do 2 (split; [done|]). split; [|done].
    do 3 (split; [done|]). split; [by intros []|done].
Qed.

(** What a client's configuration settles. *)
Definition agreed (c : Config) : Negotiated := negotiated_new (expected_feature c).

Section peers.
Context (old_client : ProtocolInitializer -> prog (result HsError ProtocolInitialized)).

Context (old_server : ProtocolInitializer -> list Z -> prog (result HsError ProtocolInitialized)).

Context (hc hs : Host) (cc cs : Config) (request : NegotiationRequest Value) (response : NegotiationResponse Value).

Context (Hm : is_v5 (mode (protocol cc)) = true) (Hc : from_config cc = Ok request) (Rc : ready hc cc) (Rs : ready hs cs).

Context (Hfit : fits (request_to_vec request)) (Hrfit : fits (response_to_vec response)).

Context (Hresp : response_ok PROTO_VERSION_V5 (expected_feature cc) = Ok response).

Lemma agreed_version : 0 <= message_version (agreed cc) <= MAX_SUPPORT_PROTO_VERSION.
Proof. vm_compute. split; discriminate. Qed.

(** The client after its request, and after the answer. *)
Definition client_waits : prog (result HsError ProtocolInitialized) :=
  and_then (and_then (awaiting_answer request)
              (fun got => Ret (Ok (mkNegotiation (selected_protocol got.1) (Some (negotiated_new got.2))))))
    (fun m => i <- ret_of (client_get_initializer (needs_shared_pool m) m) ?;
       match i with InitV5 f => v5_client_init hc cc f | _ => old_client i end).

Definition client_rest (own : OwnEndpoint) (wakeup_recv : option Fd) : prog (result HsError ProtocolInitialized) :=
  got <- recv_fds_from_peer hc (agreed cc) ?; Ret (initialized own got.1 (agreed cc) got.2 wakeup_recv).

Lemma client_round1 : feed false false (client_handshake old_client hc cc) [] = (WByte <$> frame (request_to_vec request), [], client_waits).
Proof.
  unfold client_handshake, client_negotiate. replace (is_legacy (mode (protocol cc))) with false by (by destruct (mode (protocol cc))).
  cbn [negb]. apply feed_then_waits; [|done]. apply feed_then_waits; [|done]. by apply client_asks.
Qed.

Lemma client_round2 (own : OwnEndpoint) :
  create_own_shm hc cc = Ok own -> own_queue_fd own = queue_fd hc cc -> own_segment_fd own = segment_fd hc ->
  feed false false client_waits (WByte <$> frame (response_to_vec response)) =
    (WByte <$> metadata_event cc (message_version (agreed cc)), [], awaiting_ack hc cc (agreed cc) (client_rest own)).
Proof.
  intros Eo Eq Es. destruct (select_of_config cc request Hc) as (_ & _ & Hin & _); [by destruct (mode (protocol cc))|].
  unfold expected_protocol in Hin. rewrite Hm in Hin.
  destruct (selected_of_ok _ _ response request Hresp (expected_polling cc)) as (Hsel & Hver & Herr).
  assert (Ea : feed false false (awaiting_answer request) (WByte <$> frame (response_to_vec response)) =
    ([], [], Ret (Ok (response, expected_feature cc)))).
  { pose proof (client_takes_answer false request response (expected_feature cc) [] Hrfit Herr) as E. rewrite app_nil_r in E.
    apply E; [by rewrite Hver|done]. }
  unfold client_waits. erewrite feed_then; [|rewrite (feed_then _ _ _ _ _ _ _ _ Ea); reflexivity]. cbn [fst snd]. rewrite Hver, prefix_nil.
  unfold client_get_initializer. cbn [cn_selected cn_negotiated]. rewrite Z.eqb_refl.
  cbn [and_then]. unfold v5_client_init. rewrite Eo. cbn [ret_of and_then].
  by apply (send_metadata hc cc (agreed cc) Rc own (client_rest own)).
Qed.

(** The server after its answer. *)
Definition server_rest (got : PeerEndpoint * option Fd) : prog (result HsError ProtocolInitialized) :=
  own <- ret_of (create_own_shm hs cs) ?;
  wakeup_recv <- send_fds_to_peer hs (queue_path cs) own (agreed cc) ?;
  Ret (initialized own got.1 (agreed cc) got.2 wakeup_recv).

Lemma server_round1 :
  feed false false (server_handshake old_server hs cs) (WByte <$> frame (request_to_vec request)) =
    (WByte <$> frame (response_to_vec response), [], and_then (recv_fds_from_peer hs (agreed cc)) server_rest).
Proof.
  destruct (select_of_config cc request Hc) as (Hp & Hf & _); [by destruct (mode (protocol cc))|].
  unfold expected_protocol in Hp. rewrite Hm in Hp.
  destruct (selected_of_ok _ _ response request Hresp (expected_polling cc)) as (_ & Hver & _).
  destruct (server_answers false request response PROTO_VERSION_V5 Hfit Hp) as (first & E); [by rewrite Hf|by left|done|].
  unfold server_handshake. rewrite (feed_then _ _ _ _ _ _ _ _ E), Hf. cbn [fst].
  transitivity ((WByte <$> frame (response_to_vec response)) ++ [], @nil wire, and_then (recv_fds_from_peer hs (agreed cc)) server_rest);
    [reflexivity|by rewrite app_nil_r].
Qed.

End peers.

(** C17. Two peers that speak V5 complete the handshake: for every client that asks
    for V5 and every server, the exchange ends, both sides succeed and agree on the
    version, the message version and the wakeup feature the client asked for; each
    maps the queue and the segment the other created, and signals the eventfd the
    other one waits on, exactly if that feature was agreed. *)
Theorem v5_handshake_agrees (old_client : ProtocolInitializer -> prog (result HsError ProtocolInitialized))
    (old_server : ProtocolInitializer -> list Z -> prog (result HsError ProtocolInitialized))
    (hc hs : Host) (cc cs : Config) (request : NegotiationRequest Value) :
  is_v5 (mode (protocol cc)) = true -> from_config cc = Ok request -> ready hc cc -> ready hs cs ->
  fits (request_to_vec request) ->
  (forall response, response_ok PROTO_VERSION_V5 (expected_feature cc) = Ok response -> fits (response_to_vec response)) ->
  exists ci si, exchange 5 (client_handshake old_client hc cc) (server_handshake old_server hs cs) [] [] = Some (Ok ci, Ok si) /\
    v5_result (agreed cc) ci /\ v5_result (agreed cc) si /\
    crossed ci si /\ crossed si ci.
Proof.
  intros Hm Hc Rc Rs Hfit Hrfit. pose proof (select_of_config cc request Hc) as Hsel.
  destruct Hsel as (_ & _ & _ & resp & Hresp); [by destruct (mode (protocol cc))|]. unfold expected_protocol in Hresp. rewrite Hm in Hresp.
  specialize (Hrfit resp Hresp). set (n := agreed cc). pose proof (agreed_version cc) as Hv. fold n in Hv.
  destruct (create_ready hc cc Rc) as (own_c & Eoc & Oq & Os). destruct (create_ready hs cs Rs) as (own_s & Eos & Sq & Ss).
  (* the residues of both sides *)
  set (kc := fun got : PeerEndpoint * option Fd => @Ret (result HsError ProtocolInitialized) (initialized own_c got.1 n got.2 (wakeup_fd hc n))).
  destruct (recv_files hc hs cc cs n Rc Rs true kc) as (pc & Pq & Ps & Ec5).
  destruct (recv_files hs hc cs cc n Rs Rc false (server_rest hs cc cs)) as (ps & Qq & Qs & Es3).
  set (ks := fun w => @Ret (result HsError ProtocolInitialized) (initialized own_s ps n (wakeup_fd hc n) w)).
  destruct (initialized_ok hc hs own_c pc n) as (ci & Eic & Ic1 & Ic2 & Ic3 & Ic4 & Ic5).
  destruct (initialized_ok hs hc own_s ps n) as (si & Eis & Is1 & Is2 & Is3 & Is4 & Is5).
  exists ci, si. split; [|unfold crossed; rewrite Ic1, Ic2, Is1, Is2, Ic4, Ic5, Is4, Is5; repeat split; try congruence; try apply Ic3; apply Is3].
  pose proof (client_round1 old_client hc cc request Hm Hc) as C1.
  assert (C3 : feed false false (awaiting_ack hc cc n (client_rest hc cc own_c)) (WByte <$> ack (message_version n)) =
    ([WFds (published hc cc n)], [], and_then (recv_fds_from_peer hc n) kc)).
  { pose proof (send_files hc cc n Hv false (client_rest hc cc own_c) []) as E. rewrite app_nil_r in E. rewrite E. reflexivity. }
  assert (S3 : feed false false (awaiting_files hs n (server_rest hs cc cs)) [WFds (published hc cc n)] =
    (WByte <$> metadata_event cs (message_version n), [], awaiting_ack hs cs n ks)).
  { rewrite Es3. unfold server_rest. rewrite Eos. cbn [ret_of and_then]. by apply (send_metadata hs cs n Rs own_s ks). }
  assert (S4 : feed false false (awaiting_ack hs cs n ks) (WByte <$> ack (message_version n)) = ([WFds (published hs cs n)], [], Ret (Ok si))).
  { pose proof (send_files hs cs n Hv false ks []) as E. rewrite app_nil_r in E. rewrite E. subst ks. cbn beta. by rewrite Eis. }
  etransitivity; [eapply exchange_round; [by apply (waiting_not_done _ _ _ _ _ _ _ C1)|exact C1|by apply (server_round1 _ _ cc _ request resp)]|].
  etransitivity; [eapply exchange_round; [done|by apply (client_round2 _ _ cc request resp)|by apply (recv_metadata hs hc cc n)]|].
  etransitivity; [eapply exchange_round; [done|exact C3|exact S3]|].
  etransitivity; [eapply exchange_round; [done|by apply (recv_metadata hc hs cs n)|exact S4]|].
  etransitivity; [eapply exchange_round; [done|exact (Ec5 [])|reflexivity]|]. cbn. by rewrite Eic.
Qed.

End theorems.

(** ** Witnesses: a codec with the laws, and two processes *)

Fixpoint bits (p : positive) : list Z :=
  match p with
  | xH => []
  | xO p => 0 :: bits p
  | xI p => 1 :: bits p
  end.

Fixpoint unbits (l : list Z) : positive :=
  match l with
  | [] => xH
  | b :: l => if b =? 0 then xO (unbits l) else xI (unbits l)
  end.

Lemma unbits_bits (p : positive) : unbits (bits p) = p.
Proof. induction p as [p IH|p IH|]; cbn; by rewrite ?IH. Qed.

(** A request and a response as tuples. *)
Definition request_tuple (r : NegotiationRequest Z) : list Z * string * string * list string * gmap string Z :=
  (supports_protocols r, rq_sdk_name _ r, rq_sdk_version _ r, supports_features r, rq_settings r).

Definition response_tuple (r : NegotiationResponse Z)
    : Z * string * string * list string * gmap string Z * option (string * string) :=
  (selected_protocol r, rs_sdk_name _ r, rs_sdk_version _ r, selected_features r, rs_settings r,
   (fun e => (code e, message e)) <$> rs_error r).

#[local] Instance sample_serde : Serde Z := {|
  settings_to_value s := polling_interval_us s;
  settings_from_value v := Some (mkSettings v);
  request_to_vec r := bits (encode (request_tuple r));
  request_from_slice l :=
    '(a, b, c, d, e) ← decode (unbits l); Some (mkRequest a b c d e);
  response_to_vec r := bits (encode (response_tuple r));
  response_from_slice l :=
    '(a, b, c, d, e, f) ← decode (unbits l); Some (mkResponse a b c d e ((fun p => mkNegError p.1 p.2) <$> f));
  parse_message _ := EmptyString;
  eventfd_supported := true;
  CARGO_PKG_VERSION := "0.1.0"%string;
|}.

#[local] Instance sample_serde_laws : SerdeLaws Z.
Proof.
  split.
  - by intros [].
  - intros []. cbn [request_from_slice request_to_vec sample_serde]. by rewrite unbits_bits, decode_encode.
  - intros [? ? ? ? ? [[]|]]; cbn [response_from_slice response_to_vec sample_serde]; by rewrite unbits_bits, decode_encode.
Qed.

Definition sample_host (base : Z) (file : nat) : Host :=
  mkHost None None base (base + 2 ^ 40) (base + 2 ^ 41) (base + 2 ^ 42) file (S file) (S (S file)).

Definition sample_peer_config : Config := with_v5_eventfd config_default.

Lemma sample_ready (k : Z) (file : nat) : ready (sample_host (4096 * k) file) sample_peer_config.
Proof.
  assert (Hd : forall j, (MAX_PAYLOAD_ALIGN | 4096 * k + 4096 * j)) by (intros j; exists (512 * (k + j)); unfold MAX_PAYLOAD_ALIGN; lia).
  split; cbn [sample_host h_queue_at h_segment_at h_peer_queue_at h_peer_segment_at h_pinned default].
  - replace (4096 * k) with (4096 * k + 4096 * 0) by lia. apply Hd.
  - apply (Hd (2 ^ 28)).
  - apply (Hd (2 ^ 29)).
  - apply (Hd (2 ^ 30)).
  - cbn. lia.
  - vm_compute. discriminate.
  - vm_compute. discriminate.
  - vm_compute. split; reflexivity.
  - vm_compute. reflexivity.
Qed.

Lemma v5_handshake_agrees_witness :
  exists ci si,
    exchange 5 (client_handshake (fun _ => Ret (Err OtherError)) (sample_host 4096 0) sample_peer_config)
      (server_handshake (fun _ _ => Ret (Err OtherError)) (sample_host 8192 10) sample_peer_config) [] [] = Some (Ok ci, Ok si) /\
    v5_result (agreed sample_peer_config) ci /\ v5_result (agreed sample_peer_config) si /\ crossed ci si /\ crossed si ci.
Proof.
  apply (v5_handshake_agrees (fun _ => Ret (Err OtherError)) (fun _ _ => Ret (Err OtherError)) (sample_host 4096 0) (sample_host 8192 10)
           sample_peer_config sample_peer_config (mkRequest [5; 4] SDK_NAME "0.1.0"%string [FEATURE_EVENTFD_WAKEUP] ∅)).
  - reflexivity.
  - reflexivity.
  - apply (sample_ready 1).
  - apply (sample_ready 2).
  - vm_compute. reflexivity.
  - intros response E. injection E as <-. vm_compute. reflexivity.
Defined.

Lemma negotiation_error_classes_witness :
  exists out rest r,
    feed true false (negotiate_client sample_peer_config) (WByte <$> [0; 0; 0; 8; 119; 88; 3; 4]) = (out, rest, Ret r) /\
    (r = Err NetworkOrProtocol <-> answered [0; 0; 0; 8; 119; 88; 3; 4] = false).
Proof.
  apply (negotiation_error_classes sample_peer_config (mkRequest [5; 4] SDK_NAME "0.1.0"%string [FEATURE_EVENTFD_WAKEUP] ∅)).
  reflexivity.
Defined.
