(* ===== verification/LegacyInit.v ===== *)
(** * Initialisation of protocol versions 2 to 4 ([src/src/protocol/initializer])

    The client creates one pool of buffers and one pair of queues ([init_manager] of
    [src/src/protocol/mod.rs]) and tells the server where they are, by path or by
    descriptor; the server maps them.  [client_session] and [server_session] are
    negotiation and initialisation of all versions together.

    A mapping is the memory of its file, addressed from its start.  The handshake runs in
    a task of its own, so that a panic in it, such as the index out of range on a
    short body, is an error for the session. *)

From Stdlib Require Import ZArith Lia String.
From stdpp Require Import base numbers list gmap strings.
From S2P Require Import Prelude Bytes Protocol Fixed Config Negotiation Handshake LegacyQueue LegacyBuf LegacyManager.

#[local] Open Scope Z_scope.

#[local] Open Scope prog_scope.

Definition BUFFER_PATH_SUFFIX : list Z := bytes_of "_buffer".

Definition MEMFD_COUNT_EVENTFD : nat := 4.

(** What a process has and what the kernel gives it. *)
Record Process : Type := mkProcess {
  pr_strict : bool;
  pr_managers : list Z -> option (BufferManager * Fd);
  pr_files : nat -> mem;
  pr_open : list Z -> option Fd;
  pr_room : Z -> bool;
  pr_buffer_file : nat;
  pr_queue_file : nat;
  pr_eventfds : nat * nat;
}.

(** ** The pool of the client *)

(** [SharedPool], with the managers it was taken from and what the new files hold. *)
Record SharedPool : Type := mkPool {
  po_bm : BufferManager;
  po_qm : QueueManager;
  po_buffer_path : list Z;
  po_queue_path : list Z;
  po_buffer_fd : Fd;
  po_queue_fd : Fd;
  po_buffer_mem : option mem;
  po_queue_mem : mem;
}.

(** [sort_by_key] on the sizes, which keeps the order of equal ones. *)
Fixpoint insert_by_size (p : SizePercentPair) (l : list SizePercentPair) : list SizePercentPair :=
  match l with
  | [] => [p]
  | q :: l' => if sp_bytes p <=? sp_bytes q then p :: l else q :: insert_by_size p l'
  end.

Definition sort_by_size (l : list SizePercentPair) : list SizePercentPair := foldr insert_by_size [] l.

(** [get_with_memfd] and [get_with_file] with [create]; the latter asks for room first. *)
Definition create_manager (h : Process) (by_file : bool) (path : list Z) (capacity : Z) (pairs : list SizePercentPair)
    : result HsError (BufferManager * Fd * option mem) :=
  match pr_managers h path with
  | Some (bm, fd) => Ok (bm, fd, None)
  | None =>
      if by_file && negb (pr_room h capacity) then Err OtherError
      else
        match bm_create (sort_by_size pairs) ∅ capacity 0 with
        | Ok (bm, m) => Ok (bm, mkFd (pr_buffer_file h) capacity, Some m)
        | Err _ => Err OtherError
        end
  end.

Definition create_queues (h : Process) (by_file : bool) (path : list Z) (cap proto_version : Z) : result HsError (QueueManager * Fd * mem) :=
  let fd := mkFd (pr_queue_file h) (count_queue_mem_size cap * QUEUE_COUNT) in
  if by_file then
    match create_with_file (pr_strict h) (bool_decide (is_Some (pr_open h path))) (pr_room h) ∅ 0 cap proto_version with
    | Ok (qm, m) => Ok (qm, fd, m)
    | Err _ => Err OtherError
    end
  else let '(qm, m) := qm_create ∅ 0 cap (for_protocol_version (pr_strict h) proto_version) in Ok (qm, fd, m).

Definition init_manager (h : Process) (c : Config) (proto_version : Z) : result HsError SharedPool :=
  let by_file := negb (is_memfd (mem_map_type c)) in
  let buffer_path := share_memory_path_prefix c ++ BUFFER_PATH_SUFFIX in
  match create_manager h by_file buffer_path (share_memory_buffer_cap c) (buffer_slice_sizes c) with
  | Err e => Err e
  | Ok (bm, bfd, bmem) =>
      match create_queues h by_file (queue_path c) (cf_queue_cap c) proto_version with
      | Err e => Err e
      | Ok (qm, qfd, qmem) => Ok (mkPool bm qm buffer_path (queue_path c) bfd qfd bmem qmem)
      end
  end.

(** ** Telling the server *)

Definition send_share_memory_by_file_path (p : SharedPool) (version : Z) : prog (result HsError unit) :=
  block_write_full (generate_shm_metadata TYPE_SHARE_MEMORY_BY_FILE_PATH (po_buffer_path p) (po_queue_path p) version).

Definition send_memfd_to_peer_with_fds (p : SharedPool) (extra_fds : list Fd) (version : Z) : prog (result HsError unit) :=
  let event := generate_shm_metadata TYPE_SHARE_MEMORY_BY_MEMFD (po_buffer_path p) (po_queue_path p) version in
  send_shm_metadata_and_fds event ([po_buffer_fd p; po_queue_fd p] ++ extra_fds).

Definition send_memfd_to_peer (p : SharedPool) (version : Z) : prog (result HsError unit) := send_memfd_to_peer_with_fds p [] version.

(** ** Mapping on the server *)

Definition read_paths (header : list Z) : prog (result HsError (list Z * list Z)) :=
  if hdr_length header <? HEADER_SIZE then Ret (Err OtherError)
  else
    body <- block_read_full (Z.to_nat (hdr_length header - HEADER_SIZE)) ?;
    Ret (match extract_shm_metadata body with Some paths => Ok paths | None => Err OtherError end).

Definition map_queues (h : Process) (fd : Fd) (proto_version : Z) : result HsError QueueManager :=
  match qm_mapping (pr_files h (fd_file fd)) 0 (fd_len fd) (for_protocol_version (pr_strict h) proto_version) with
  | Ok qm => Ok qm
  | Err _ => Err OtherError
  end.

(** [get_with_memfd] and [get_with_file] without [create]; [file] says where to find the
    memory of a path that is not known yet. *)
Definition map_manager (h : Process) (path : list Z) (file : option Fd) : result HsError BufferManager :=
  match pr_managers h path with
  | Some (bm, _) => Ok bm
  | None =>
      match file with
      | None => Err OtherError
      | Some fd =>
          if (fd_len fd <? 0) || (fd_len fd >=? W32) then Err OtherError
          else
            match bm_mapping (pr_files h (fd_file fd)) (fd_len fd) 0 with
            | Ok bm => Ok bm
            | Err _ => Err OtherError
            end
      end
  end.

Definition map_pool (h : Process) (buffer_path : list Z) (buffer : option Fd) (queue : option Fd) (proto_version : Z)
    : result HsError (BufferManager * QueueManager) :=
  match queue with
  | None => Err OtherError
  | Some fd =>
      match map_queues h fd proto_version with
      | Err e => Err e
      | Ok qm =>
          match map_manager h buffer_path buffer with
          | Err e => Err e
          | Ok bm => Ok (bm, qm)
          end
      end
  end.

Definition handle_share_memory_by_file_path (h : Process) (header : list Z) (proto_version : Z) : prog (result HsError (BufferManager * QueueManager)) :=
  paths <- read_paths header ?;
  Ret (map_pool h paths.1 (pr_open h paths.1) (pr_open h paths.2) proto_version).

Definition handle_share_memory_by_memfd_with_expected (h : Process) (header : list Z) (proto_version msg_version : Z) (expected : nat)
    : prog (result HsError (BufferManager * QueueManager * list Fd)) :=
  paths <- read_paths header ?;
  fds <- ack_and_recv_fds msg_version expected ?;
  pool <- ret_of (map_pool h paths.1 (fds !! 0%nat) (fds !! 1%nat) proto_version) ?;
  Ret (Ok (pool, fds)).

Definition handle_share_memory_by_memfd (h : Process) (header : list Z) (proto_version msg_version : Z) : prog (result HsError (BufferManager * QueueManager)) :=
  got <- handle_share_memory_by_memfd_with_expected h header proto_version msg_version MEMFD_COUNT ?;
  Ret (Ok got.1).

Definition ack_share_memory (version : Z) : prog (result HsError unit) :=
  block_write_full (hdr_encode HEADER_SIZE version TYPE_ACK_SHARE_MEMORY).

(** ** The initialisers *)

(** [ProtocolInitialized] with a [SharedPool]. *)
Record Initialized4 : Type := mkInit4 {
  i4_pool : option (BufferManager * QueueManager);
  i4_proto_version : Z;
  i4_msg_version : Z;
  i4_feature : NegotiatedFeature;
  i4_eventfd : option EventFdPair;
}.

Definition legacy (pool : option (BufferManager * QueueManager)) (version : Z) : Initialized4 := mkInit4 pool version version NoFeature None.

Definition v2_client_init (p : SharedPool) : prog (result HsError Initialized4) :=
  _ <- send_share_memory_by_file_path p 2 ?;
  Ret (Ok (legacy None 2)).

Definition v2_server_init (h : Process) (first_event : list Z) : prog (result HsError Initialized4) :=
  if negb (hdr_msg_type first_event =? TYPE_SHARE_MEMORY_BY_FILE_PATH) then Ret (Err OtherError)
  else
    pool <- handle_share_memory_by_file_path h first_event 2 ?;
    Ret (Ok (legacy (Some pool) 2)).

Definition v3_client_init (c : Config) (p : SharedPool) : prog (result HsError Initialized4) :=
  _ <- (if is_memfd (mem_map_type c) then send_memfd_to_peer p 3 else send_share_memory_by_file_path p 3) ?;
  _ <- wait_event_header TYPE_ACK_SHARE_MEMORY ?;
  Ret (Ok (legacy None 3)).

Definition v3_server_init (h : Process) (first_event : list Z) : prog (result HsError Initialized4) :=
  if negb (hdr_msg_type first_event =? TYPE_EXCHANGE_PROTO_VERSION) then Ret (Err OtherError)
  else
    _ <- handle_exchange_version ?;
    header <- block_read_event_header ?;
    pool <- (if hdr_msg_type header =? TYPE_SHARE_MEMORY_BY_FILE_PATH then handle_share_memory_by_file_path h header 3
             else if hdr_msg_type header =? TYPE_SHARE_MEMORY_BY_MEMFD then handle_share_memory_by_memfd h header 3 3
             else Ret (Err OtherError)) ?;
    _ <- ack_share_memory 3 ?;
    Ret (Ok (legacy (Some pool) 3)).

Definition v4_client_init (h : Process) (c : Config) (p : SharedPool) (n : Negotiated) : prog (result HsError Initialized4) :=
  let eventfd := if is_eventfd_feature n then Some (mkEventFds (mkFd (pr_eventfds h).1 0) (mkFd (pr_eventfds h).2 0)) else None in
  let extra_fds := match eventfd with Some e => [wakeup_send e; wakeup_recv e] | None => [] end in
  _ <- (if is_memfd (mem_map_type c) then send_memfd_to_peer_with_fds p extra_fds (message_version n)
        else send_share_memory_by_file_path p (message_version n)) ?;
  _ <- wait_event_header TYPE_ACK_SHARE_MEMORY ?;
  Ret (Ok (mkInit4 None PROTO_VERSION_V4 (message_version n) (feature n) eventfd)).

Definition v4_map_pool (h : Process) (n : Negotiated) (header : list Z) : prog (result HsError (BufferManager * QueueManager * option EventFdPair)) :=
  if hdr_msg_type header =? TYPE_SHARE_MEMORY_BY_FILE_PATH then
    pool <- handle_share_memory_by_file_path h header PROTO_VERSION_V4 ?;
    Ret (Ok (pool, None))
  else if hdr_msg_type header =? TYPE_SHARE_MEMORY_BY_MEMFD then
    got <- handle_share_memory_by_memfd_with_expected h header PROTO_VERSION_V4 (message_version n)
             (if is_eventfd_feature n then MEMFD_COUNT_EVENTFD else MEMFD_COUNT) ?;
    Ret (if is_eventfd_feature n then
           match got.2 !! 2%nat, got.2 !! 3%nat with
           | Some wakeup_recv, Some wakeup_send => Ok (got.1, Some (mkEventFds wakeup_send wakeup_recv))
           | _, _ => Err OtherError
           end
         else Ok (got.1, None))
  else Ret (Err OtherError).

Definition v4_server_init (h : Process) (n : Negotiated) : prog (result HsError Initialized4) :=
  header <- block_read_event_header ?;
  if is_eventfd_feature n && negb (hdr_msg_type header =? TYPE_SHARE_MEMORY_BY_MEMFD) then Ret (Err OtherError)
  else
    got <- v4_map_pool h n header ?;
    _ <- ack_share_memory (message_version n) ?;
    Ret (Ok (mkInit4 (Some got.1) PROTO_VERSION_V4 (message_version n) (feature n) got.2)).

(** ** All versions *)

(** [SharedMemoryMode]: what a handshake ends with. *)
Inductive Initialized : Type :=
| PerEndpointPool (i : ProtocolInitialized)
| SharedPoolInit (i : Initialized4).

Definition per_endpoint (p : prog (result HsError ProtocolInitialized)) : prog (result HsError Initialized) := i <- p ?; Ret (Ok (PerEndpointPool i)).

Definition shared_pool (p : prog (result HsError Initialized4)) : prog (result HsError Initialized) := i <- p ?; Ret (Ok (SharedPoolInit i)).

(** [init] on either side; a client that needs a pool has one. *)
Definition init_client (h5 : Host) (h : Process) (c : Config) (pool : option SharedPool) (i : ProtocolInitializer) : prog (result HsError Initialized) :=
  match i, pool with
  | InitV5 n, _ => per_endpoint (v5_client_init h5 c n)
  | InitV2, Some p => shared_pool (v2_client_init p)
  | InitV3, Some p => shared_pool (v3_client_init c p)
  | InitV4 n, Some p => shared_pool (v4_client_init h c p n)
  | _, None => Ret (Err OtherError)
  end.

Definition init_server (h5 : Host) (h : Process) (c : Config) (i : ProtocolInitializer) (first_event : list Z) : prog (result HsError Initialized) :=
  match i with
  | InitV5 n => per_endpoint (v5_server_init h5 c n)
  | InitV2 => shared_pool (v2_server_init h first_event)
  | InitV3 => shared_pool (v3_server_init h first_event)
  | InitV4 n => shared_pool (v4_server_init h n)
  end.

Section sessions.
Context {Value : Type} `{Serde Value}.

(** The two sides of [Session::new], up to the handshake: a client creates its pool once
    the version is settled. *)
Definition client_session (h5 : Host) (h : Process) (c : Config) : prog (result HsError (option SharedPool * Initialized)) :=
  n <- client_negotiate c ?;
  pool <- ret_of (if needs_shared_pool n then
                    match init_manager h c (cn_selected n) with Ok p => Ok (Some p) | Err e => Err e end
                  else Ok None) ?;
  i <- ret_of (client_get_initializer (bool_decide (is_Some pool)) n) ?;
  r <- init_client h5 h c pool i ?;
  Ret (Ok (pool, r)).

(** [take] of the managers: a V5 session has none, any other needs them. *)
Definition server_session (h5 : Host) (h : Process) (c : Config) : prog (result HsError Initialized) :=
  got <- server_get_initializer ?;
  r <- init_server h5 h c got.1 got.2 ?;
  Ret (match r with
       | PerEndpointPool _ => Ok r
       | SharedPoolInit i => match i4_pool i with Some _ => Ok r | None => Err OtherError end
       end).

End sessions.
