(* ===== verification/LegacyInitTheorems.v ===== *)
(** * What the handshake of the older versions guarantees *)

From Stdlib Require Import ZArith Lia String.
From stdpp Require Import base numbers list gmap strings.
From S2P Require Import Prelude Bytes Protocol Fixed Config Negotiation LegacyQueue LegacyQueueTheorems LegacyBuf LegacyManager LegacyManagerFacts LegacyManagerTheorems.
From S2P Require Import Handshake HandshakeFacts HandshakeTheorems LegacyInit.

#[local] Open Scope Z_scope.

#[local] Open Scope prog_scope.

(** ** The pool *)

Lemma insert_by_size_perm (p : SizePercentPair) (l : list SizePercentPair) : insert_by_size p l ≡ₚ p :: l.
Proof. induction l as [|q l IH]; cbn; [done|]. destruct (_ <=? _); [done|]. by rewrite IH, Permutation_swap. Qed.

Lemma sort_by_size_perm (l : list SizePercentPair) : sort_by_size l ≡ₚ l.
Proof. induction l as [|p l IH]; cbn; [done|]. rewrite insert_by_size_perm. by rewrite IH. Qed.

Lemma percents_perm (l l' : list SizePercentPair) : l ≡ₚ l' -> percents l = percents l'.
Proof. induction 1; cbn; lia. Qed.

(** The buffers of every size a configuration asks for. *)
Definition config_geo (c : Config) : list (Z * Z) :=
  geo_of (share_memory_buffer_cap c - 36 * Z.of_nat (length (buffer_slice_sizes c)) - 8) (sort_by_size (buffer_slice_sizes c)).

(** A configuration as [verify] leaves it, whose memory has a buffer of every size; a
    process that has no manager under its path; paths that can be published. *)
Record pool_ready (h : Process) (c : Config) : Prop := {
  pl_new : pr_managers h (share_memory_path_prefix c ++ BUFFER_PATH_SUFFIX) = None;
  pl_cap : 0 < cf_queue_cap c < W32;
  pl_mult : (8 | cf_queue_cap c);
  pl_some : buffer_slice_sizes c <> [];
  pl_few : Z.of_nat (length (buffer_slice_sizes c)) < 65536;
  pl_sizes : Forall pair_ok (buffer_slice_sizes c);
  pl_percents : percents (buffer_slice_sizes c) <= 100;
  pl_each : Forall (fun g => 0 < g.2) (config_geo c);
  pl_room : 36 * Z.of_nat (length (buffer_slice_sizes c)) + 8 <= share_memory_buffer_cap c < W32;
  pl_buffer_path : Z.of_nat (length (share_memory_path_prefix c ++ BUFFER_PATH_SUFFIX)) < W16;
  pl_queue_path : Z.of_nat (length (queue_path c)) < W16;
  pl_files : is_memfd (mem_map_type c) = false -> pr_open h (queue_path c) = None /\ forall n, pr_room h n = true;
}.

(** A server finds what the client created, under the paths or behind the descriptors. *)
Record sees (hs : Process) (p : SharedPool) : Prop := {
  se_new : pr_managers hs (po_buffer_path p) = None;
  se_buffer : Some (pr_files hs (fd_file (po_buffer_fd p))) = po_buffer_mem p;
  se_queue : pr_files hs (fd_file (po_queue_fd p)) = po_queue_mem p;
  se_buffer_path : pr_open hs (po_buffer_path p) = Some (po_buffer_fd p);
  se_queue_path : pr_open hs (po_queue_path p) = Some (po_queue_fd p);
}.

(** The two managers of one pool: the same lists, which differ in where they count, and
    the same two rings with their roles swapped. *)
Definition same_pool (p : SharedPool) (b : BufferManager * QueueManager) : Prop :=
  b.2 = mkQM (recv_queue (po_qm p)) (send_queue (po_qm p)) /\
  exists geo len mn mx m, geo_ok 8 geo /\ layout_end 8 geo <= len /\ po_buffer_mem p = Some m /\ lists_ok 8 geo m (full geo) /\
    po_bm p = mkBM (layout 8 20 geo) len mn mx /\ b.1 = mkBM (layout 8 24 geo) len mn mx.

Lemma pool_built (h : Process) (c : Config) (v : Z) :
  pool_ready h c ->
  exists p, init_manager h c v = Ok p /\ po_buffer_path p = share_memory_path_prefix c ++ BUFFER_PATH_SUFFIX /\ po_queue_path p = queue_path c /\
    fd_file (po_buffer_fd p) = pr_buffer_file h /\ fd_file (po_queue_fd p) = pr_queue_file h /\ is_Some (po_buffer_mem p) /\
    forall hs, pr_strict hs = pr_strict h -> sees hs p ->
      exists b, map_pool hs (po_buffer_path p) (Some (po_buffer_fd p)) (Some (po_queue_fd p)) v = Ok b /\ same_pool p b.
Proof.
  intros [Hnew Hcap Hmul Hsome Hfew Hsz Hpc Heach Hroom _ _ Hfiles]. set (pairs := sort_by_size (buffer_slice_sizes c)).
  assert (Hp : pairs ≡ₚ buffer_slice_sizes c) by apply sort_by_size_perm.
  assert (El : length pairs = length (buffer_slice_sizes c)) by (by rewrite Hp).
  destruct (manager_built pairs ∅ (share_memory_buffer_cap c)) as (bm & m' & E1 & E2 & GO & Hend & Hok & E3 & _).
  - intros E. apply Hsome. apply Permutation_nil. rewrite E in Hp. done.
  - by rewrite El.
  - by rewrite Hp.
  - by rewrite (percents_perm _ _ Hp).
  - rewrite El. exact Heach.
  - by rewrite El.
  - set (geo := geo_of _ _) in *. unfold init_manager, create_manager. rewrite Hnew. fold pairs.
    replace (negb (is_memfd (mem_map_type c)) && negb (pr_room h (share_memory_buffer_cap c))) with false.
    2: { destruct (is_memfd (mem_map_type c)); [done|]. by rewrite (proj2 (Hfiles eq_refl)). }
    rewrite E1. set (l := for_protocol_version (pr_strict h) v).
    pose proof (queue_pair_crossed ∅ 0 (cf_queue_cap c) l Hcap Hmul) as HQ. destruct (qm_create ∅ 0 (cf_queue_cap c) l) as [qm mq] eqn:Eq. destruct HQ as (Emap & _).
    assert (Ec : create_queues h (negb (is_memfd (mem_map_type c))) (queue_path c) (cf_queue_cap c) v =
      Ok (qm, mkFd (pr_queue_file h) (count_queue_mem_size (cf_queue_cap c) * QUEUE_COUNT), mq)).
    { unfold create_queues, create_with_file. fold l. destruct (is_memfd (mem_map_type c)); cbn [negb]; [by rewrite Eq|].
      destruct (Hfiles eq_refl) as [-> Hr]. rewrite Hr, bool_decide_eq_false_2 by (by intros []). cbn [negb]. by rewrite Eq. }
    rewrite Ec. eexists. split; [done|]. split; [done|]. split; [done|]. split; [done|]. split; [done|]. split; [by eexists|]. intros hs Hst [S1 S2 S3 _ _]. cbn [po_bm po_qm po_buffer_path po_queue_path po_buffer_fd po_queue_fd po_buffer_mem po_queue_mem fd_file fd_len] in *.
    unfold map_pool, map_queues, map_manager. cbn [fd_file fd_len]. rewrite S1, S3, Hst. fold l. rewrite Emap. injection S2 as ->.
    replace (_ || _) with false by (symmetry; apply orb_false_iff; split; lia). rewrite E3. eexists. split; [done|]. split; [done|].
    exists geo, (share_memory_buffer_cap c), (bm_min bm), (bm_max bm), m'. by rewrite <- E2.
Qed.

(** ** The exchange of the pool *)

Definition paths_body (p : SharedPool) : list Z :=
  be_bytes 2 (Z.of_nat (length (po_queue_path p))) ++ po_queue_path p ++ be_bytes 2 (Z.of_nat (length (po_buffer_path p))) ++ po_buffer_path p.

Definition paths_header (t v : Z) (p : SharedPool) : list Z := hdr_encode (HEADER_SIZE + Z.of_nat (length (paths_body p))) v t.

Definition paths_ok (p : SharedPool) : Prop := Z.of_nat (length (po_buffer_path p)) < W16 /\ Z.of_nat (length (po_queue_path p)) < W16.

Lemma paths_event (t v : Z) (p : SharedPool) :
  generate_shm_metadata t (po_buffer_path p) (po_queue_path p) v = paths_header t v p ++ paths_body p.
Proof. unfold generate_shm_metadata, paths_header, paths_body. rewrite !length_app, !be_bytes_length. do 2 f_equal. lia. Qed.

Lemma paths_length (p : SharedPool) : paths_ok p -> 0 <= HEADER_SIZE + Z.of_nat (length (paths_body p)) < W32.
Proof. intros [H1 H2]. unfold paths_body. rewrite !length_app, !be_bytes_length. change HEADER_SIZE with 8. unfold W16, W32 in *. lia. Qed.

Lemma paths_header_type (t v : Z) (p : SharedPool) : hdr_msg_type (paths_header t v p) = t.
Proof. done. Qed.

(** The header of the metadata arrives ... *)
Lemma feed_paths_header (gone : bool) (t v : Z) (p : SharedPool) (rest : list wire) :
  paths_ok p -> 0 <= v <= MAX_SUPPORT_PROTO_VERSION -> MIN_EVENT_TYPE <= t <= MAX_EVENT_TYPE ->
  feed gone false block_read_event_header ((WByte <$> generate_shm_metadata t (po_buffer_path p) (po_queue_path p) v) ++ rest) =
    ([], (WByte <$> paths_body p) ++ rest, Ret (Ok (paths_header t v p))).
Proof. intros Hp Hv Ht. rewrite paths_event, fmap_app, <- app_assoc. by apply feed_header; [apply paths_length|..]. Qed.

(** ... and then the paths. *)
Lemma feed_paths (gone : bool) (t v : Z) (p : SharedPool) (rest : list wire) :
  paths_ok p -> feed gone false (read_paths (paths_header t v p)) ((WByte <$> paths_body p) ++ rest) = ([], rest, Ret (Ok (po_buffer_path p, po_queue_path p))).
Proof.
  intros Hp. unfold read_paths. destruct (hdr_fields _ v t [] (paths_length p Hp)) as (E & _). rewrite app_nil_r in E. unfold paths_header. rewrite E.
  replace (_ <? HEADER_SIZE) with false by (symmetry; apply Z.ltb_ge; lia).
  replace (Z.to_nat (HEADER_SIZE + Z.of_nat (length (paths_body p)) - HEADER_SIZE)) with (length (paths_body p)) by lia.
  rewrite (feed_then _ _ _ _ _ _ _ _ (feed_read gone false _ (paths_body p) rest eq_refl)), prefix_nil.
  pose proof (shm_metadata_roundtrip t _ _ v (proj1 Hp) (proj2 Hp)) as Er. rewrite paths_event, drop_app_exact in Er by done. by rewrite Er.
Qed.

Definition types_ok (t : Z) : Prop := MIN_EVENT_TYPE <= t <= MAX_EVENT_TYPE.

Lemma event_types :
  types_ok TYPE_SHARE_MEMORY_BY_FILE_PATH /\ types_ok TYPE_SHARE_MEMORY_BY_MEMFD /\ types_ok TYPE_ACK_SHARE_MEMORY /\ types_ok TYPE_ACK_READY_RECV_FD /\
  types_ok TYPE_EXCHANGE_PROTO_VERSION.
Proof. vm_compute. repeat split; discriminate. Qed.

Lemma header_fits : 0 <= HEADER_SIZE < W32.
Proof. vm_compute. split; [discriminate|reflexivity]. Qed.

Section pool.
Context (p : SharedPool) (hs : Process) (b : BufferManager * QueueManager) (v proto : Z) (Hp : paths_ok p).

Context (Hv : 0 <= v <= MAX_SUPPORT_PROTO_VERSION).

Context (Hmap : map_pool hs (po_buffer_path p) (Some (po_buffer_fd p)) (Some (po_queue_fd p)) proto = Ok b).

(** The client once its metadata is out, and the server once it has acknowledged it. *)
Definition ready_awaited (extra : list Fd) : prog (result HsError unit) :=
  _ <- wait_event_header TYPE_ACK_READY_RECV_FD ?; send_fd ([po_buffer_fd p; po_queue_fd p] ++ extra).

Definition fds_awaited (expected : nat) : prog (result HsError (BufferManager * QueueManager * list Fd)) :=
  fds <- block_read_out_of_bound_for_fd expected ?;
  pool <- ret_of (map_pool hs (po_buffer_path p) (fds !! 0%nat) (fds !! 1%nat) proto) ?;
  Ret (Ok (pool, fds)).

Lemma publish_metadata (extra : list Fd) :
  feed false false (send_memfd_to_peer_with_fds p extra v) [] =
    (WByte <$> generate_shm_metadata TYPE_SHARE_MEMORY_BY_MEMFD (po_buffer_path p) (po_queue_path p) v, [], ready_awaited extra).
Proof.
  unfold send_memfd_to_peer_with_fds, send_shm_metadata_and_fds.
  rewrite (feed_then _ _ _ _ _ _ _ _ (feed_write false _ [])). cbn [prefix].
  transitivity ((WByte <$> generate_shm_metadata TYPE_SHARE_MEMORY_BY_MEMFD (po_buffer_path p) (po_queue_path p) v) ++ [], @nil wire, ready_awaited extra); [reflexivity|by rewrite app_nil_r].
Qed.

Lemma publish_fds (extra : list Fd) :
  feed false false (ready_awaited extra) (WByte <$> hdr_encode HEADER_SIZE v TYPE_ACK_READY_RECV_FD) =
    ([WFds ([po_buffer_fd p; po_queue_fd p] ++ extra)], [], Ret (Ok tt)).
Proof.
  destruct event_types as (_ & _ & _ & T & _). unfold ready_awaited. pose proof (feed_wait false false HEADER_SIZE v TYPE_ACK_READY_RECV_FD [] header_fits Hv T) as E. rewrite app_nil_r in E.
  by rewrite (feed_then _ _ _ _ _ _ _ _ E).
Qed.

Lemma take_metadata (t : Z) (expected : nat) :
  feed false false (handle_share_memory_by_memfd_with_expected hs (paths_header t v p) proto v expected) (WByte <$> paths_body p) =
    (WByte <$> hdr_encode HEADER_SIZE v TYPE_ACK_READY_RECV_FD, [], fds_awaited expected).
Proof.
  unfold handle_share_memory_by_memfd_with_expected. pose proof (feed_paths false t v p [] Hp) as E. rewrite app_nil_r in E.
  rewrite (feed_then _ _ _ _ _ _ _ _ E), prefix_nil. cbn [fst snd]. unfold ack_and_recv_fds.
  transitivity ((WByte <$> hdr_encode HEADER_SIZE v TYPE_ACK_READY_RECV_FD) ++ [], @nil wire, fds_awaited expected); [reflexivity|by rewrite app_nil_r].
Qed.

Lemma take_pool_fds (gone : bool) (extra : list Fd) (expected : nat) :
  (expected <= 2 + length extra)%nat ->
  feed gone false (fds_awaited expected) [WFds ([po_buffer_fd p; po_queue_fd p] ++ extra)] = ([], [], Ret (Ok (b, [po_buffer_fd p; po_queue_fd p] ++ extra))).
Proof.
  intros He. unfold fds_awaited, block_read_out_of_bound_for_fd. cbn [and_then feed]. replace (_ <? expected)%nat with false by (symmetry; apply Nat.ltb_ge; cbn; lia).
  cbn [and_then ret_of app lookup list_lookup]. by rewrite Hmap.
Qed.

Lemma take_pool_path (gone : bool) (t : Z) (rest : list wire) :
  pr_open hs (po_buffer_path p) = Some (po_buffer_fd p) -> pr_open hs (po_queue_path p) = Some (po_queue_fd p) ->
  feed gone false (handle_share_memory_by_file_path hs (paths_header t v p) proto) ((WByte <$> paths_body p) ++ rest) = ([], rest, Ret (Ok b)).
Proof.
  intros E1 E2. unfold handle_share_memory_by_file_path. rewrite (feed_then _ _ _ _ _ _ _ _ (feed_paths gone t v p rest Hp)), prefix_nil. cbn [fst snd]. by rewrite E1, E2, Hmap.
Qed.

(** The acknowledgement ends the wait of the client. *)
Lemma acknowledged {A} (gone : bool) (r : A) :
  feed gone false (_ <- wait_event_header TYPE_ACK_SHARE_MEMORY ?; Ret (Ok r)) (WByte <$> hdr_encode HEADER_SIZE v TYPE_ACK_SHARE_MEMORY) = ([], [], Ret (Ok r)).
Proof.
  destruct event_types as (_ & _ & T & _). pose proof (feed_wait gone false HEADER_SIZE v TYPE_ACK_SHARE_MEMORY [] header_fits Hv T) as E. rewrite app_nil_r in E.
  by rewrite (feed_then _ _ _ _ _ _ _ _ E).
Qed.

End pool.

(** ** The older initialisers as parts of a session *)

Lemma writing_not_done {A} (gone failed : bool) (q q' : prog A) (inp o i : list wire) :
  feed gone failed q inp = (o, i, q') -> o <> [] -> is_done q = false.
Proof. intros E Ho. destruct q; [|done..]. cbn in E. by injection E as <- <- <-. Qed.

Definition client_part (pool : SharedPool) (q : prog (result HsError Initialized4)) : prog (result HsError (option SharedPool * Initialized)) :=
  r <- shared_pool q ?; Ret (Ok (Some pool, r)).

Definition server_part (q : prog (result HsError Initialized4)) : prog (result HsError Initialized) :=
  r <- shared_pool q ?;
  Ret (match r with
       | PerEndpointPool _ => Ok r
       | SharedPoolInit i => match i4_pool i with Some _ => Ok r | None => Err OtherError end
       end).

Lemma client_part_waits (pool : SharedPool) (gone : bool) (q q' : prog (result HsError Initialized4)) (inp o i : list wire) :
  feed gone false q inp = (o, i, q') -> is_done q' = false -> feed gone false (client_part pool q) inp = (o, i, client_part pool q').
Proof. intros E Hd. apply feed_then_waits; [by apply feed_then_waits|by destruct q']. Qed.

Lemma client_part_done (pool : SharedPool) (gone : bool) (q : prog (result HsError Initialized4)) (x : Initialized4) (inp o i : list wire) :
  feed gone false q inp = (o, i, Ret (Ok x)) -> feed gone false (client_part pool q) inp = (o, i, Ret (Ok (Some pool, SharedPoolInit x))).
Proof. intros E. unfold client_part, shared_pool. erewrite feed_then; [|rewrite (feed_then _ _ _ _ _ _ _ _ E); reflexivity]. cbn. by rewrite !app_nil_r. Qed.

Lemma server_part_waits (gone : bool) (q q' : prog (result HsError Initialized4)) (inp o i : list wire) :
  feed gone false q inp = (o, i, q') -> is_done q' = false -> feed gone false (server_part q) inp = (o, i, server_part q').
Proof. intros E Hd. apply feed_then_waits; [by apply feed_then_waits|by destruct q']. Qed.

Lemma server_part_done (gone : bool) (q : prog (result HsError Initialized4)) (x : Initialized4) (inp o i : list wire) :
  feed gone false q inp = (o, i, Ret (Ok x)) -> is_Some (i4_pool x) -> feed gone false (server_part q) inp = (o, i, Ret (Ok (SharedPoolInit x))).
Proof. intros E [? Hx]. unfold server_part, shared_pool. erewrite feed_then; [|rewrite (feed_then _ _ _ _ _ _ _ _ E); reflexivity]. cbn. by rewrite Hx, !app_nil_r. Qed.

Section sessions.
Context {Value : Type} `{SerdeLaws Value}.

Context (h5c h5s : Host) (hc hs : Process) (cc cs : Config) (Rc : pool_ready hc cc) (Hstrict : pr_strict hs = pr_strict hc).

(** What a client does once the version is settled. *)
Definition client_after (n : ClientNegotiation) : prog (result HsError (option SharedPool * Initialized)) :=
  pool <- ret_of (if needs_shared_pool n then match init_manager hc cc (cn_selected n) with Ok p => Ok (Some p) | Err e => Err e end else Ok None) ?;
  i <- ret_of (client_get_initializer (bool_decide (is_Some pool)) n) ?;
  r <- init_client h5c hc cc pool i ?;
  Ret (Ok (pool, r)).

Lemma paths_publishable (p : SharedPool) :
  po_buffer_path p = share_memory_path_prefix cc ++ BUFFER_PATH_SUFFIX -> po_queue_path p = queue_path cc -> paths_ok p.
Proof. intros E1 E2. split; [rewrite E1; apply (pl_buffer_path _ _ Rc)|rewrite E2; apply (pl_queue_path _ _ Rc)]. Qed.

(** *** Version 2 *)

Lemma v2_agrees (p : SharedPool) (b : BufferManager * QueueManager) :
  mode (protocol cc) = Legacy -> is_memfd (mem_map_type cc) = false -> init_manager hc cc 2 = Ok p -> paths_ok p -> sees hs p ->
  map_pool hs (po_buffer_path p) (Some (po_buffer_fd p)) (Some (po_queue_fd p)) 2 = Ok b ->
  exchange 1 (client_session h5c hc cc) (server_session h5s hs cs) [] [] =
    Some (Ok (Some p, SharedPoolInit (legacy None 2)), Ok (SharedPoolInit (legacy (Some b) 2))).
Proof.
  intros Hm Hf Ei Hp Hsee Hmap. destruct event_types as (T & _). set (event := generate_shm_metadata TYPE_SHARE_MEMORY_BY_FILE_PATH (po_buffer_path p) (po_queue_path p) 2).
  assert (Hv2 : 0 <= 2 <= MAX_SUPPORT_PROTO_VERSION) by (vm_compute; split; discriminate).
  assert (C1 : feed false false (client_session h5c hc cc) [] = (WByte <$> event, [], Ret (Ok (Some p, SharedPoolInit (legacy None 2))))).
  { unfold client_session, client_negotiate. rewrite Hm, Hf. cbn [is_legacy negb and_then]. change (needs_shared_pool (mkNegotiation 2 None)) with true. cbn [cn_selected]. rewrite Ei. cbn [ret_of and_then].
    change (feed false false (client_part p (v2_client_init p)) [] = (WByte <$> event, [], Ret (Ok (Some p, SharedPoolInit (legacy None 2))))). apply client_part_done.
    unfold v2_client_init, send_share_memory_by_file_path. rewrite (feed_then _ _ _ _ _ _ _ _ (feed_write false _ [])). cbn. by rewrite app_nil_r. }
  assert (S1 : feed true false (server_session h5s hs cs) (WByte <$> event) = ([], [], Ret (Ok (SharedPoolInit (legacy (Some b) 2))))).
  { assert (Eg : feed true false server_get_initializer (WByte <$> event) = ([], WByte <$> paths_body p, Ret (Ok (InitV2, paths_header TYPE_SHARE_MEMORY_BY_FILE_PATH 2 p)))).
    { pose proof (feed_paths_header true TYPE_SHARE_MEMORY_BY_FILE_PATH 2 p [] Hp Hv2 T) as E. rewrite !app_nil_r in E. unfold server_get_initializer. by rewrite (feed_then _ _ _ _ _ _ _ _ E). }
    unfold server_session. rewrite (feed_then _ _ _ _ _ _ _ _ Eg), prefix_nil. cbn [fst snd init_server]. fold (server_part (v2_server_init hs (paths_header TYPE_SHARE_MEMORY_BY_FILE_PATH 2 p))).
    apply server_part_done; [|by eexists]. unfold v2_server_init. rewrite paths_header_type, Z.eqb_refl. cbn [negb].
    pose proof (take_pool_path p hs b 2 2 Hp Hmap true TYPE_SHARE_MEMORY_BY_FILE_PATH [] (se_buffer_path _ _ Hsee) (se_queue_path _ _ Hsee)) as E. rewrite app_nil_r in E.
    by rewrite (feed_then _ _ _ _ _ _ _ _ E). }
  etransitivity; [eapply exchange_round; [by apply (writing_not_done _ _ _ _ _ _ _ C1)|exact C1|exact S1]|]. reflexivity.
Qed.

(** *** Descriptors *)

(** A client that passes descriptors: the metadata, the descriptors once the server is
    ready for them, and the acknowledgement. *)
Definition fd_client (p : SharedPool) (extra : list Fd) (v : Z) (r : Initialized4) : prog (result HsError Initialized4) :=
  _ <- send_memfd_to_peer_with_fds p extra v ?;
  _ <- wait_event_header TYPE_ACK_SHARE_MEMORY ?;
  Ret (Ok r).

Definition fd_client_ready (p : SharedPool) (extra : list Fd) (r : Initialized4) : prog (result HsError Initialized4) :=
  _ <- ready_awaited p extra ?;
  _ <- wait_event_header TYPE_ACK_SHARE_MEMORY ?;
  Ret (Ok r).

Definition fd_client_sent (r : Initialized4) : prog (result HsError Initialized4) := _ <- wait_event_header TYPE_ACK_SHARE_MEMORY ?; Ret (Ok r).

Lemma fd_client_rounds (p : SharedPool) (extra : list Fd) (v : Z) (r : Initialized4) :
  0 <= v <= MAX_SUPPORT_PROTO_VERSION ->
  feed false false (client_part p (fd_client p extra v r)) [] =
    (WByte <$> generate_shm_metadata TYPE_SHARE_MEMORY_BY_MEMFD (po_buffer_path p) (po_queue_path p) v, [], client_part p (fd_client_ready p extra r)) /\
  feed false false (client_part p (fd_client_ready p extra r)) (WByte <$> hdr_encode HEADER_SIZE v TYPE_ACK_READY_RECV_FD) =
    ([WFds ([po_buffer_fd p; po_queue_fd p] ++ extra)], [], client_part p (fd_client_sent r)) /\
  feed true false (client_part p (fd_client_sent r)) (WByte <$> hdr_encode HEADER_SIZE v TYPE_ACK_SHARE_MEMORY) = ([], [], Ret (Ok (Some p, SharedPoolInit r))).
Proof.
  intros Hv. split; [|split].
  - apply client_part_waits; [|done]. apply feed_then_waits; [apply publish_metadata|done].
  - apply client_part_waits; [|done]. unfold fd_client_ready. by rewrite (feed_then _ _ _ _ _ _ _ _ (publish_fds p v Hv extra)).
  - apply client_part_done. by apply acknowledged.
Qed.

(** The server: it takes the metadata, and then maps what it is passed. *)
Lemma fd_server_rounds {X} (p : SharedPool) (b : BufferManager * QueueManager) (v proto : Z) (extra : list Fd) (expected : nat) (r : Initialized4) (x : X)
    (q : list Z -> prog (result HsError Initialized4)) (g : BufferManager * QueueManager * list Fd -> prog (result HsError X)) (k : X -> prog (result HsError Initialized4)) :
  paths_ok p -> 0 <= v <= MAX_SUPPORT_PROTO_VERSION -> (expected <= 2 + length extra)%nat -> is_Some (i4_pool r) ->
  map_pool hs (po_buffer_path p) (Some (po_buffer_fd p)) (Some (po_queue_fd p)) proto = Ok b ->
  q (paths_header TYPE_SHARE_MEMORY_BY_MEMFD v p) =
    and_then (and_then (handle_share_memory_by_memfd_with_expected hs (paths_header TYPE_SHARE_MEMORY_BY_MEMFD v p) proto v expected) g) k ->
  g (b, [po_buffer_fd p; po_queue_fd p] ++ extra) = Ret (Ok x) -> k x = (_ <- ack_share_memory v ?; Ret (Ok r)) ->
  feed false false (server_part (and_then block_read_event_header q)) (WByte <$> generate_shm_metadata TYPE_SHARE_MEMORY_BY_MEMFD (po_buffer_path p) (po_queue_path p) v) =
    (WByte <$> hdr_encode HEADER_SIZE v TYPE_ACK_READY_RECV_FD, [], server_part (and_then (and_then (fds_awaited p hs proto expected) g) k)) /\
  feed false false (server_part (and_then (and_then (fds_awaited p hs proto expected) g) k)) [WFds ([po_buffer_fd p; po_queue_fd p] ++ extra)] =
    (WByte <$> hdr_encode HEADER_SIZE v TYPE_ACK_SHARE_MEMORY, [], Ret (Ok (SharedPoolInit r))).
Proof.
  intros Hp Hv He Hr Hmap Hq Hg Hk. destruct event_types as (_ & T & _). split.
  - apply server_part_waits; [|done]. pose proof (feed_paths_header false TYPE_SHARE_MEMORY_BY_MEMFD v p [] Hp Hv T) as E. rewrite !app_nil_r in E.
    rewrite (feed_then _ _ _ _ _ _ _ _ E), prefix_nil, Hq. apply feed_then_waits; [|done]. apply feed_then_waits; [by apply take_metadata|done].
  - apply server_part_done; [|done]. erewrite feed_then; [|rewrite (feed_then _ _ _ _ _ _ _ _ (take_pool_fds p hs b proto Hmap false extra expected He)), Hg; reflexivity].
    cbn beta iota. rewrite Hk. unfold ack_share_memory. rewrite (feed_then _ _ _ _ _ _ _ _ (feed_write false _ [])). done.
Qed.

(** *** Version 3 *)

Definition exchange_event : list Z := hdr_encode HEADER_SIZE MAX_LEGACY_PROTO_VERSION TYPE_EXCHANGE_PROTO_VERSION.

Definition version_awaited : prog (result HsError ClientNegotiation) :=
  header <- wait_event_header TYPE_EXCHANGE_PROTO_VERSION ?;
  let selected := Z.min MAX_LEGACY_PROTO_VERSION (hdr_version header) in
  Ret (if (selected =? 2) || (selected =? 3) then Ok (mkNegotiation selected None) else Err OtherError).

Definition v3_rest (header : list Z) : prog (result HsError Initialized4) :=
  pool <- (if hdr_msg_type header =? TYPE_SHARE_MEMORY_BY_FILE_PATH then handle_share_memory_by_file_path hs header 3
           else if hdr_msg_type header =? TYPE_SHARE_MEMORY_BY_MEMFD then handle_share_memory_by_memfd hs header 3 3
           else Ret (Err OtherError)) ?;
  _ <- ack_share_memory 3 ?;
  Ret (Ok (legacy (Some pool) 3)).

Lemma v3_settled (p : SharedPool) :
  mode (protocol cc) = Legacy -> is_memfd (mem_map_type cc) = true -> init_manager hc cc 3 = Ok p ->
  feed false false (client_session h5c hc cc) [] = (WByte <$> exchange_event, [], and_then version_awaited client_after) /\
  feed false false (server_session h5s hs cs) (WByte <$> exchange_event) = (WByte <$> exchange_event, [], server_part (and_then block_read_event_header v3_rest)) /\
  feed false false (and_then version_awaited client_after) (WByte <$> exchange_event) = feed false false (client_part p (fd_client p [] 3 (legacy None 3))) [].
Proof.
  intros Hm Hf Ei. destruct event_types as (_ & _ & _ & _ & T). assert (Hv3 : 0 <= MAX_LEGACY_PROTO_VERSION <= MAX_SUPPORT_PROTO_VERSION) by (vm_compute; split; discriminate).
  split; [|split].
  - unfold client_session, client_negotiate. rewrite Hm, Hf. cbn [is_legacy negb]. apply feed_then_waits; [|done].
    rewrite (feed_then _ _ _ _ _ _ _ _ (feed_write false _ [])). done.
  - pose proof (feed_header false false HEADER_SIZE MAX_LEGACY_PROTO_VERSION TYPE_EXCHANGE_PROTO_VERSION [] header_fits Hv3 T) as E. rewrite app_nil_r in E.
    assert (Eg : feed false false server_get_initializer (WByte <$> exchange_event) = ([], [], Ret (Ok (InitV3, exchange_event)))) by (unfold server_get_initializer; by rewrite (feed_then _ _ _ _ _ _ _ _ E)).
    unfold server_session. rewrite (feed_then _ _ _ _ _ _ _ _ Eg), prefix_nil. cbn [fst snd init_server]. fold (server_part (v3_server_init hs exchange_event)).
    apply server_part_waits; [|done]. unfold v3_server_init, handle_exchange_version. change (hdr_msg_type exchange_event =? TYPE_EXCHANGE_PROTO_VERSION) with true. cbn [negb].
    rewrite (feed_then _ _ _ _ _ _ _ _ (feed_write false _ [])). done.
  - pose proof (feed_wait false false HEADER_SIZE MAX_LEGACY_PROTO_VERSION TYPE_EXCHANGE_PROTO_VERSION [] header_fits Hv3 T) as E. rewrite app_nil_r in E.
    assert (Ev : feed false false version_awaited (WByte <$> exchange_event) = ([], [], Ret (Ok (mkNegotiation 3 None)))) by (unfold version_awaited; by rewrite (feed_then _ _ _ _ _ _ _ _ E)).
    rewrite (feed_then _ _ _ _ _ _ _ _ Ev), prefix_nil. unfold client_after. change (needs_shared_pool (mkNegotiation 3 None)) with true. cbn [cn_selected]. rewrite Ei. cbn [ret_of and_then].
    rewrite bool_decide_eq_true_2 by (by eexists). cbn [client_get_initializer]. unfold client_get_initializer. cbn [cn_selected cn_negotiated]. change (3 =? PROTO_VERSION_V5) with false. change (3 =? PROTO_VERSION_V4) with false.
    rewrite Z.eqb_refl. cbn [and_then init_client]. unfold v3_client_init. by rewrite Hf.
Qed.

Lemma v3_agrees (p : SharedPool) (b : BufferManager * QueueManager) :
  mode (protocol cc) = Legacy -> is_memfd (mem_map_type cc) = true -> init_manager hc cc 3 = Ok p -> paths_ok p ->
  map_pool hs (po_buffer_path p) (Some (po_buffer_fd p)) (Some (po_queue_fd p)) 3 = Ok b ->
  exchange 4 (client_session h5c hc cc) (server_session h5s hs cs) [] [] =
    Some (Ok (Some p, SharedPoolInit (legacy None 3)), Ok (SharedPoolInit (legacy (Some b) 3))).
Proof.
  intros Hm Hf Ei Hp Hmap. assert (Hv3 : 0 <= 3 <= MAX_SUPPORT_PROTO_VERSION) by (vm_compute; split; discriminate). destruct (v3_settled p Hm Hf Ei) as (C1 & S1 & C2).
  destruct (fd_client_rounds p [] 3 (legacy None 3) Hv3) as (C2' & C3 & C4). rewrite C2' in C2.
  destruct (fd_server_rounds p b 3 3 [] MEMFD_COUNT (legacy (Some b) 3) b v3_rest (fun got => Ret (Ok got.1)) (fun pool => _ <- ack_share_memory 3 ?; Ret (Ok (legacy (Some pool) 3)))) as (S2 & S3);
    [done|done|done|by eexists|done|reflexivity|reflexivity|reflexivity|].
  etransitivity; [eapply exchange_round; [by apply (writing_not_done _ _ _ _ _ _ _ C1)|exact C1|exact S1]|].
  etransitivity; [eapply exchange_round; [done|exact C2|exact S2]|].
  etransitivity; [eapply exchange_round; [done|exact C3|exact S3]|].
  etransitivity; [eapply exchange_round; [done|exact C4|reflexivity]|]. reflexivity.
Qed.

(** *** Version 4 *)

Section v4.
Context (request : NegotiationRequest Value) (response : NegotiationResponse Value) (p : SharedPool) (b : BufferManager * QueueManager).

Context (Hleg : is_legacy (mode (protocol cc)) = false) (Hv5 : is_v5 (mode (protocol cc)) = false) (Hc : from_config cc = Ok request).

Context (Hfit : fits (request_to_vec request)) (Hrfit : fits (response_to_vec response)).

Context (Hresp : response_ok PROTO_VERSION_V4 (expected_feature cc) = Ok response).

Context (Ei : init_manager hc cc PROTO_VERSION_V4 = Ok p) (Hp : paths_ok p).

Context (Hmap : map_pool hs (po_buffer_path p) (Some (po_buffer_fd p)) (Some (po_queue_fd p)) PROTO_VERSION_V4 = Ok b).

Definition answer_awaited : prog (result HsError ClientNegotiation) :=
  and_then (awaiting_answer request) (fun got => Ret (Ok (mkNegotiation (selected_protocol got.1) (Some (negotiated_new got.2))))).

Lemma v4_settled :
  feed false false (client_session h5c hc cc) [] = (WByte <$> frame (request_to_vec request), [], and_then answer_awaited client_after) /\
  feed false false (server_session h5s hs cs) (WByte <$> frame (request_to_vec request)) =
    (WByte <$> frame (response_to_vec response), [], server_part (v4_server_init hs (agreed cc))) /\
  feed false false (and_then answer_awaited client_after) (WByte <$> frame (response_to_vec response)) =
    feed false false (client_part p (v4_client_init hc cc p (agreed cc))) [].
Proof.
  destruct (select_of_config cc request Hc) as (Hpr & Hf & Hin & _); [by destruct (mode (protocol cc))|]. unfold expected_protocol in Hpr, Hin. rewrite Hv5 in Hpr, Hin.
  destruct (selected_of_ok _ _ response request Hresp (expected_polling cc)) as (Hsel & Hver & Herr). split; [|split].
  - unfold client_session, client_negotiate. rewrite Hleg. cbn [negb]. apply feed_then_waits; [|done]. apply feed_then_waits; [by apply client_asks|done].
  - destruct (server_answers false request response PROTO_VERSION_V4 Hfit Hpr) as (first & E); [by rewrite Hf|by right|done|].
    unfold server_session. rewrite (feed_then _ _ _ _ _ _ _ _ E), Hf. cbn [fst snd]. change (PROTO_VERSION_V4 =? PROTO_VERSION_V5) with false. cbn [init_server].
    fold (agreed cc). fold (server_part (v4_server_init hs (agreed cc))).
    transitivity ((WByte <$> frame (response_to_vec response)) ++ [], @nil wire, server_part (v4_server_init hs (agreed cc))); [reflexivity|by rewrite app_nil_r].
  - assert (Ea : feed false false (awaiting_answer request) (WByte <$> frame (response_to_vec response)) = ([], [], Ret (Ok (response, expected_feature cc)))).
    { pose proof (client_takes_answer false request response (expected_feature cc) [] Hrfit Herr) as E. rewrite app_nil_r in E. apply E; [by rewrite Hver|done]. }
    assert (Eb : feed false false answer_awaited (WByte <$> frame (response_to_vec response)) = ([], [], Ret (Ok (mkNegotiation PROTO_VERSION_V4 (Some (agreed cc)))))).
    { unfold answer_awaited. rewrite (feed_then _ _ _ _ _ _ _ _ Ea), prefix_nil. cbn [fst snd]. by rewrite Hver. }
    rewrite (feed_then _ _ _ _ _ _ _ _ Eb), prefix_nil. unfold client_after. change (needs_shared_pool (mkNegotiation PROTO_VERSION_V4 (Some (agreed cc)))) with true. cbn [cn_selected]. rewrite Ei. cbn [ret_of and_then].
    rewrite bool_decide_eq_true_2 by (by eexists). unfold client_get_initializer. cbn [cn_selected cn_negotiated]. change (PROTO_VERSION_V4 =? PROTO_VERSION_V5) with false. rewrite Z.eqb_refl. done.
Qed.

(** The eventfds of a client, and of its server. *)
Definition client_eventfds : option EventFdPair :=
  if is_eventfd_feature (agreed cc) then Some (mkEventFds (mkFd (pr_eventfds hc).1 0) (mkFd (pr_eventfds hc).2 0)) else None.

Definition server_eventfds : option EventFdPair := (fun e => mkEventFds (wakeup_recv e) (wakeup_send e)) <$> client_eventfds.

Definition v4_result (pool : option (BufferManager * QueueManager)) (e : option EventFdPair) : Initialized4 :=
  mkInit4 pool PROTO_VERSION_V4 (message_version (agreed cc)) (expected_feature cc) e.

Lemma v4_agrees_fds :
  is_memfd (mem_map_type cc) = true ->
  exchange 4 (client_session h5c hc cc) (server_session h5s hs cs) [] [] =
    Some (Ok (Some p, SharedPoolInit (v4_result None client_eventfds)), Ok (SharedPoolInit (v4_result (Some b) server_eventfds))).
Proof.
  intros Hf. pose proof (agreed_version cc) as Hv. destruct v4_settled as (C1 & S1 & C2). set (n := agreed cc) in *. set (v := message_version n) in *.
  set (extra := match client_eventfds with Some e => [wakeup_send e; wakeup_recv e] | None => [] end).
  assert (Ec : v4_client_init hc cc p n = fd_client p extra v (v4_result None client_eventfds)) by (unfold v4_client_init; by rewrite Hf). rewrite Ec in C2.
  destruct (fd_client_rounds p extra v (v4_result None client_eventfds) Hv) as (C2' & C3 & C4). rewrite C2' in C2.
  set (q := fun header => if is_eventfd_feature n && negb (hdr_msg_type header =? TYPE_SHARE_MEMORY_BY_MEMFD) then Ret (Err OtherError)
    else got <- v4_map_pool hs n header ?; _ <- ack_share_memory v ?; Ret (Ok (mkInit4 (Some got.1) PROTO_VERSION_V4 v (feature n) got.2))).
  destruct (fd_server_rounds p b v PROTO_VERSION_V4 extra (if is_eventfd_feature n then MEMFD_COUNT_EVENTFD else MEMFD_COUNT) (v4_result (Some b) server_eventfds) (b, server_eventfds) q
    (fun got => Ret (if is_eventfd_feature n then match got.2 !! 2%nat, got.2 !! 3%nat with Some r, Some s => Ok (got.1, Some (mkEventFds s r)) | _, _ => Err OtherError end else Ok (got.1, None)))
    (fun got => _ <- ack_share_memory v ?; Ret (Ok (mkInit4 (Some got.1) PROTO_VERSION_V4 v (feature n) got.2)))) as (S2 & S3); try done.
  - unfold extra, client_eventfds. fold n. by destruct (is_eventfd_feature n).
  - unfold q. rewrite paths_header_type, Z.eqb_refl, andb_false_r. reflexivity.
  - unfold extra, server_eventfds, client_eventfds. fold n. by destruct (is_eventfd_feature n).
  - etransitivity; [eapply exchange_round; [by apply (writing_not_done _ _ _ _ _ _ _ C1)|exact C1|exact S1]|].
    etransitivity; [eapply exchange_round; [done|exact C2|exact S2]|].
    etransitivity; [eapply exchange_round; [done|exact C3|exact S3]|].
    etransitivity; [eapply exchange_round; [done|exact C4|reflexivity]|]. reflexivity.
Qed.

Lemma v4_agrees_paths :
  is_memfd (mem_map_type cc) = false -> is_eventfd_feature (agreed cc) = false -> sees hs p ->
  exchange 3 (client_session h5c hc cc) (server_session h5s hs cs) [] [] =
    Some (Ok (Some p, SharedPoolInit (v4_result None None)), Ok (SharedPoolInit (v4_result (Some b) None))).
Proof.
  intros Hf He Hsee. pose proof (agreed_version cc) as Hv. destruct v4_settled as (C1 & S1 & C2). set (n := agreed cc) in *. set (v := message_version n) in *. destruct event_types as (T & _).
  set (event := generate_shm_metadata TYPE_SHARE_MEMORY_BY_FILE_PATH (po_buffer_path p) (po_queue_path p) v).
  assert (C2' : feed false false (client_part p (v4_client_init hc cc p n)) [] = (WByte <$> event, [], client_part p (fd_client_sent (v4_result None None)))).
  { apply client_part_waits; [|done]. unfold v4_client_init. rewrite Hf, He. unfold send_share_memory_by_file_path. rewrite (feed_then _ _ _ _ _ _ _ _ (feed_write false _ [])).
    transitivity ((WByte <$> event) ++ [], @nil wire, fd_client_sent (v4_result None None)); [reflexivity|by rewrite app_nil_r]. }
  rewrite C2' in C2.
  assert (S2 : feed false false (server_part (v4_server_init hs n)) (WByte <$> event) = (WByte <$> hdr_encode HEADER_SIZE v TYPE_ACK_SHARE_MEMORY, [], Ret (Ok (SharedPoolInit (v4_result (Some b) None))))).
  { apply server_part_done; [|by eexists]. unfold v4_server_init. pose proof (feed_paths_header false TYPE_SHARE_MEMORY_BY_FILE_PATH v p [] Hp Hv T) as E. rewrite !app_nil_r in E.
    rewrite (feed_then _ _ _ _ _ _ _ _ E), prefix_nil, He. cbn [andb]. unfold v4_map_pool. rewrite paths_header_type, Z.eqb_refl.
    pose proof (take_pool_path p hs b v PROTO_VERSION_V4 Hp Hmap false TYPE_SHARE_MEMORY_BY_FILE_PATH [] (se_buffer_path _ _ Hsee) (se_queue_path _ _ Hsee)) as E2. rewrite app_nil_r in E2.
    erewrite feed_then; [|rewrite (feed_then _ _ _ _ _ _ _ _ E2); reflexivity]. cbn beta iota. unfold ack_share_memory. by rewrite (feed_then _ _ _ _ _ _ _ _ (feed_write false _ [])). }
  etransitivity; [eapply exchange_round; [by apply (writing_not_done _ _ _ _ _ _ _ C1)|exact C1|exact S1]|].
  etransitivity; [eapply exchange_round; [done|exact C2|exact S2]|].
  etransitivity; [eapply exchange_round; [done|apply client_part_done; by apply acknowledged|reflexivity]|]. reflexivity.
Qed.

End v4.

End sessions.

(** ** All together *)

(** More rounds than needed change nothing. *)
Lemma exchange_more {A B} (n n' : nat) (c : prog (result HsError A)) (s : prog (result HsError B)) (to_c to_s : list wire) r :
  (n <= n')%nat -> exchange n c s to_c to_s = Some r -> exchange n' c s to_c to_s = Some r.
Proof.
  revert n' c s to_c to_s. induction n as [|n IH]; intros n' c s to_c to_s Hle E.
  - destruct c, s; try done. by destruct n'.
  - destruct n' as [|n']; [lia|]. cbn [exchange] in *. destruct (feed (is_done s) (is_failed s) c to_c) as [[o1 i1] c']. destruct (feed (is_done c') (is_failed c') s (to_s ++ o1)) as [[o2 i2] s'].
    destruct c, s; try done; (apply IH; [lia|done]).
Qed.

(** The version a configuration ends up with against a server of this library. *)
Definition settled_version (c : Config) : Z :=
  if is_v5 (mode (protocol c)) then PROTO_VERSION_V5
  else if negb (is_legacy (mode (protocol c))) then PROTO_VERSION_V4
  else if is_memfd (mem_map_type c) then 3 else 2.

(** Two ends of a handshake: the server maps the pool of the client, both agree on the
    versions and the feature, and each signals the eventfd the other waits on. *)
Definition joined (c : Config) (p : SharedPool) (ci si : Initialized4) : Prop :=
  (exists b, i4_pool si = Some b /\ same_pool p b) /\
  i4_proto_version ci = settled_version c /\ i4_proto_version si = settled_version c /\ i4_msg_version ci = i4_msg_version si /\
  i4_feature ci = (if is_legacy (mode (protocol c)) then NoFeature else expected_feature c) /\ i4_feature si = i4_feature ci /\
  wakeup_send <$> i4_eventfd ci = wakeup_recv <$> i4_eventfd si /\ wakeup_recv <$> i4_eventfd ci = wakeup_send <$> i4_eventfd si /\
  (is_Some (i4_eventfd ci) <-> i4_feature ci = FeatureEventFd).

Lemma eventfd_feature (c : Config) : is_eventfd_feature (agreed c) = true <-> expected_feature c = FeatureEventFd.
Proof. unfold is_eventfd_feature, agreed. cbn [feature negotiated_new]. by rewrite bool_decide_eq_true. Qed.

Lemma joined_legacy (c : Config) (p : SharedPool) (b : BufferManager * QueueManager) (v : Z) :
  same_pool p b -> is_v5 (mode (protocol c)) = false -> is_legacy (mode (protocol c)) = true -> (if is_memfd (mem_map_type c) then 3 else 2) = v ->
  joined c p (legacy None v) (legacy (Some b) v).
Proof.
  intros Hb H5 Hl <-. unfold joined, settled_version. rewrite H5, Hl. cbn [legacy i4_pool i4_proto_version i4_msg_version i4_feature i4_eventfd negb].
  split; [by exists b|]. do 6 (split; [done|]). split; [done|]. split; [by intros []|done].
Qed.

Section claim.
Context {Value : Type} `{SerdeLaws Value}.

Lemma joined_v4 (hc : Process) (c : Config) (p : SharedPool) (b : BufferManager * QueueManager) :
  same_pool p b -> is_v5 (mode (protocol c)) = false -> is_legacy (mode (protocol c)) = false ->
  joined c p (v4_result c None (client_eventfds hc c)) (v4_result c (Some b) (server_eventfds hc c)).
Proof.
  intros Hb H5 Hl. unfold joined, settled_version. rewrite H5, Hl. cbn [v4_result i4_pool i4_proto_version i4_msg_version i4_feature i4_eventfd negb].
  split; [by exists b|]. do 5 (split; [done|]). unfold server_eventfds, client_eventfds. pose proof (eventfd_feature c) as E. destruct (is_eventfd_feature (agreed c)).
  - do 2 (split; [done|]). split; [intros _; by apply E|by eexists].
  - do 2 (split; [done|]). split; [by intros []|]. intros E'. by apply E in E'.
Qed.

(** The handshake with any server of this library, whatever the server's configuration. *)
Lemma legacy_exchange (h5c h5s : Host) (hc hs : Process) (cc cs : Config) (request : NegotiationRequest Value) :
  is_v5 (mode (protocol cc)) = false -> from_config cc = Ok request -> fits (request_to_vec request) ->
  (forall response, response_ok PROTO_VERSION_V4 (expected_feature cc) = Ok response -> fits (response_to_vec response)) ->
  (expected_feature cc = FeatureEventFd -> is_memfd (mem_map_type cc) = true) ->
  pool_ready hc cc -> pr_strict hs = pr_strict hc -> (forall p, init_manager hc cc (settled_version cc) = Ok p -> sees hs p) ->
  exists p ci si, exchange 4 (client_session h5c hc cc) (server_session h5s hs cs) [] [] = Some (Ok (Some p, SharedPoolInit ci), Ok (SharedPoolInit si)) /\
    init_manager hc cc (settled_version cc) = Ok p /\ joined cc p ci si.
Proof.
  intros H5 Hc Hfit Hrfit Hev Rc Hst Hsee. destruct (pool_built hc cc (settled_version cc) Rc) as (p & Ei & P1 & P2 & _ & _ & _ & Hmap).
  specialize (Hsee p Ei). destruct (Hmap hs Hst Hsee) as (b & Eb & Hb). pose proof (paths_publishable hc cc Rc p P1 P2) as Hp.
  destruct (is_legacy (mode (protocol cc))) eqn:Hl.
  - assert (Hm : mode (protocol cc) = Legacy) by (by destruct (mode (protocol cc))). destruct (is_memfd (mem_map_type cc)) eqn:Hf.
    + assert (Ev : settled_version cc = 3) by (unfold settled_version; by rewrite H5, Hl, Hf). rewrite Ev in *. exists p, (legacy None 3), (legacy (Some b) 3).
      split; [by apply v3_agrees|]. split; [done|]. apply joined_legacy; [done..|by rewrite Hf].
    + assert (Ev : settled_version cc = 2) by (unfold settled_version; by rewrite H5, Hl, Hf). rewrite Ev in *. exists p, (legacy None 2), (legacy (Some b) 2).
      split; [apply (exchange_more 1); [lia|by apply v2_agrees]|]. split; [done|]. apply joined_legacy; [done..|by rewrite Hf].
  - assert (Ev : settled_version cc = PROTO_VERSION_V4) by (unfold settled_version; by rewrite H5, Hl). rewrite Ev in *.
    destruct (select_of_config cc request Hc) as (_ & _ & _ & resp & Hresp); [by destruct (mode (protocol cc))|]. unfold expected_protocol in Hresp. rewrite H5 in Hresp. specialize (Hrfit resp Hresp).
    destruct (is_memfd (mem_map_type cc)) eqn:Hf.
    + exists p, (v4_result cc None (client_eventfds hc cc)), (v4_result cc (Some b) (server_eventfds hc cc)). split; [by apply (v4_agrees_fds h5c h5s hc hs cc cs request resp p b)|]. split; [done|]. by apply joined_v4.
    + assert (He : is_eventfd_feature (agreed cc) = false) by (destruct (is_eventfd_feature (agreed cc)) eqn:E; [|done]; by apply eventfd_feature, Hev in E).
      pose proof (joined_v4 hc cc p b Hb H5 Hl) as J. unfold server_eventfds, client_eventfds in J. rewrite He in J. cbn [fmap option_fmap option_map] in J.
      exists p, (v4_result cc None None), (v4_result cc (Some b) None). split; [apply (exchange_more 3); [lia|by apply (v4_agrees_paths h5c h5s hc hs cc cs request resp p b)]|]. by split.
Qed.

(** C18. Whatever older version a client is configured for, the handshake with a server of
    this library completes, where eventfds are only asked for if both ends are
    configured for memfd memory: both ends succeed with the version the configuration
    asks for and the same message version and feature, the server has mapped the very
    pool and pair of queues the client created, with the roles of the rings swapped, and
    eventfds are crossed, exactly if that feature was agreed. *)
Theorem legacy_handshake_agrees (h5c h5s : Host) (hc hs : Process) (cc cs : Config) (request : NegotiationRequest Value) :
  is_v5 (mode (protocol cc)) = false -> from_config cc = Ok request -> fits (request_to_vec request) ->
  (forall response, response_ok PROTO_VERSION_V4 (expected_feature cc) = Ok response -> fits (response_to_vec response)) ->
  (expected_feature cc = FeatureEventFd -> is_memfd (mem_map_type cc) = true /\ is_memfd (mem_map_type cs) = true) ->
  pool_ready hc cc -> pr_strict hs = pr_strict hc -> (forall p, init_manager hc cc (settled_version cc) = Ok p -> sees hs p) ->
  exists p ci si, exchange 4 (client_session h5c hc cc) (server_session h5s hs cs) [] [] = Some (Ok (Some p, SharedPoolInit ci), Ok (SharedPoolInit si)) /\
    init_manager hc cc (settled_version cc) = Ok p /\ joined cc p ci si.
Proof. intros H5 Hc Hfit Hrfit Hev. apply (legacy_exchange _ _ _ _ _ _ request); [done..|]. intros E. by destruct (Hev E). Qed.

End claim.

(** ** Corners *)

(** A client whose queues cannot be created, because the path is taken, gives up with its
    pool of buffers already registered; nothing takes it out again. *)
Lemma pool_left_behind (h : Process) (c : Config) (v : Z) :
  is_memfd (mem_map_type c) = false -> is_Some (pr_open h (queue_path c)) ->
  (exists r, create_manager h true (share_memory_path_prefix c ++ BUFFER_PATH_SUFFIX) (share_memory_buffer_cap c) (buffer_slice_sizes c) = Ok r) ->
  init_manager h c v = Err OtherError.
Proof.
  intros Hf Ho [[[bm fd] m] E]. unfold init_manager. rewrite Hf. cbn [negb]. rewrite E. unfold create_queues, create_with_file. by rewrite bool_decide_eq_true_2.
Qed.

(** ** Witnesses *)

#[local] Existing Instance sample_serde.

#[local] Existing Instance sample_serde_laws.

Definition sample_v4_config : Config := with_v4_eventfd config_default.

Definition sample_client : Process := mkProcess false (fun _ => None) (fun _ => ∅) (fun _ => None) (fun _ => true) 0 1 (2, 3)%nat.

(** A server in front of what a client has created. *)
Definition sample_server (p : SharedPool) : Process :=
  mkProcess false (fun _ => None) (fun k => if Nat.eqb k 1 then po_queue_mem p else default ∅ (po_buffer_mem p))
    (fun path => if bool_decide (path = po_queue_path p) then Some (po_queue_fd p) else Some (po_buffer_fd p)) (fun _ => true) 10 11 (12, 13)%nat.

Lemma sample_pool_ready : pool_ready sample_client sample_v4_config.
Proof.
  split.
  - reflexivity.
  - vm_compute. split; reflexivity.
  - exists 1024. reflexivity.
  - discriminate.
  - reflexivity.
  - repeat constructor; vm_compute; (reflexivity || discriminate).
  - vm_compute. discriminate.
  - unfold config_geo, geo_of. repeat constructor; vm_compute; reflexivity.
  - vm_compute. split; [discriminate|reflexivity].
  - vm_compute. reflexivity.
  - vm_compute. reflexivity.
  - discriminate.
Qed.

Lemma sample_sees (p : SharedPool) : init_manager sample_client sample_v4_config 4 = Ok p -> sees (sample_server p) p.
Proof.
  intros E. destruct (pool_built sample_client sample_v4_config 4 sample_pool_ready) as (p' & E' & P1 & P2 & F1 & F2 & [m Hm] & _). rewrite E in E'. injection E' as <-.
  split; cbn [sample_server pr_managers pr_files pr_open].
  - reflexivity.
  - rewrite F1. cbn. by rewrite Hm.
  - by rewrite F2.
  - rewrite bool_decide_eq_false_2; [done|]. rewrite P1, P2. vm_compute. discriminate.
  - by rewrite bool_decide_eq_true_2.
Qed.

Lemma legacy_handshake_agrees_witness :
  exists hs p ci si, exchange 4 (client_session (sample_host 4096 0) sample_client sample_v4_config) (server_session (sample_host 8192 10) hs config_default) [] [] =
      Some (Ok (Some p, SharedPoolInit ci), Ok (SharedPoolInit si)) /\
    init_manager sample_client sample_v4_config 4 = Ok p /\ joined sample_v4_config p ci si.
Proof.
  destruct (pool_built sample_client sample_v4_config 4 sample_pool_ready) as (p & Ei & _). exists (sample_server p).
  apply (legacy_handshake_agrees (sample_host 4096 0) (sample_host 8192 10) sample_client (sample_server p) sample_v4_config config_default (mkRequest [4] SDK_NAME "0.1.0"%string [FEATURE_EVENTFD_WAKEUP] ∅)).
  - reflexivity.
  - reflexivity.
  - vm_compute. reflexivity.
  - intros response E. injection E as <-. vm_compute. reflexivity.
  - by split.
  - exact sample_pool_ready.
  - reflexivity.
  - intros p' E. change (settled_version sample_v4_config) with 4 in E. assert (p' = p) as -> by congruence. exact (sample_sees p Ei).
Defined.

(** A server configured for files in /dev/shm does not refuse a client that asks for
    eventfds, although the documentation of [Config] says so: the server's own
    configuration plays no part in the selection. *)
Lemma devshm_server_takes_eventfd :
  exists cs hs p ci si, mem_map_type cs = MemMapTypeDevShmFile /\ expected_feature sample_v4_config = FeatureEventFd /\
    exchange 4 (client_session (sample_host 4096 0) sample_client sample_v4_config) (server_session (sample_host 8192 10) hs cs) [] [] =
      Some (Ok (Some p, SharedPoolInit ci), Ok (SharedPoolInit si)) /\ joined sample_v4_config p ci si.
Proof.
  destruct (pool_built sample_client sample_v4_config 4 sample_pool_ready) as (p & Ei & _).
  set (cs := mkConfig 0 None None 0 8 [47] (2 ^ 20) [47] [mkPair 4096 100] MemMapTypeDevShmFile 0 0 (mkProtocol Legacy WakeupDefault) 0).
  destruct (legacy_exchange (sample_host 4096 0) (sample_host 8192 10) sample_client (sample_server p) sample_v4_config cs (mkRequest [4] SDK_NAME "0.1.0"%string [FEATURE_EVENTFD_WAKEUP] ∅))
    as (p' & ci & si & E & _ & J).
  - done.
  - done.
  - vm_compute. done.
  - intros response Er. injection Er as <-. vm_compute. done.
  - done.
  - exact sample_pool_ready.
  - done.
  - intros p' E. change (settled_version sample_v4_config) with 4 in E. assert (p' = p) as -> by congruence. exact (sample_sees p Ei).
  - exists cs, (sample_server p), p', ci, si. split; [reflexivity|]. split; [reflexivity|]. split; [exact E|exact J].
Qed.
