(* ===== verification/WriteBuf.v ===== *)
(** * The write half of a stream ([V5WriteBuffer] of [src/src/buffer/buf_v5.rs])

    A message is collected into blocks of the local segment, linked into one
    chain, and spills to the heap when the segment cannot carry it.  The segment
    and the memory are passed along; the two flags of [StreamShared] that the
    code consults are arguments.  The logging and counting are left out. *)

From Stdlib Require Import ZArith Lia.
From stdpp Require Import base numbers list gmap.
From S2P Require Import Prelude BufHeader Region Mpsc LocalManager.

#[local] Open Scope Z_scope.

Definition MAX_DYN_SHM_TRANSFER_SIZE : Z := Z.shiftl 1 30.

Definition DEFAULT_SINGLE_BUFFER_SIZE : Z := 4096.

Inductive BufError : Type :=
| SizeTooLarge
| StreamClosed
| SessionShutdown
| BrokenBuffer
| NotEnoughData.

#[export] Instance BufError_eq_dec : EqDecision BufError.
Proof. solve_decision. Defined.

Record ShmBlock : Type := mkBlock {
  b_hdr : Z;
  b_offset : Z;
}.

(** A [Vec<u8>] of the fallback list: its capacity and its contents. *)
Record HeapChunk : Type := mkHeap {
  hc_cap : Z;
  hc_bytes : list Z;
}.

Record V5WriteBuffer : Type := mkWB {
  wb_pending : list ShmBlock;
  wb_fallback : list HeapChunk;
  wb_len : Z;
}.

Definition wb_new : V5WriteBuffer := mkWB [] [] 0.

Definition is_nil {A} (l : list A) : bool := match l with [] => true | _ => false end.

Definition wb_is_fallback (wb : V5WriteBuffer) : bool := negb (is_nil (wb_fallback wb)).

(** The slice a reserve hands back: nothing, a run of the segment, or the tail of
    the last heap chunk from an index on. *)
Inductive Room : Type :=
| RoomEmpty
| RoomShm (addr : Z)
| RoomHeap (start : nat).

Definition reserve_fallback (wb : V5WriteBuffer) (size : Z) : Room * V5WriteBuffer :=
  let reusable :=
    match last (wb_fallback wb) with
    | Some c => hc_cap c - Z.of_nat (length (hc_bytes c)) >=? size
    | None => false
    end in
  let chunks :=
    if reusable then wb_fallback wb
    else wb_fallback wb ++ [mkHeap (Z.max size DEFAULT_SINGLE_BUFFER_SIZE) []] in
  match vec_pop chunks with
  | Some (c, rest) =>
      (RoomHeap (length (hc_bytes c)),
       mkWB (wb_pending wb) (rest ++ [mkHeap (hc_cap c) (hc_bytes c ++ repeat 0 (Z.to_nat size))])
            (wb_len wb + size))
  | None => (RoomEmpty, wb)
  end.

Definition wb_outcome : Type := result BufError Room * V5WriteBuffer * LocalManager * mem.

Definition wb_reserve (open in_fallback : bool) (wb : V5WriteBuffer) (lm : LocalManager) (m : mem)
    (now size : Z) : option wb_outcome :=
  let heap lm m := let '(room, wb) := reserve_fallback wb size in Some (Ok room, wb, lm, m) in
  let fresh :=
    '(res, lm, m) ← lm_alloc lm m now size;
    match res with
    | Err Closed => Some (Err SessionShutdown, wb, lm, m)
    | Err _ => heap lm m
    | Ok hdr =>
        let offset := get_offset m hdr in
        let m := match last (wb_pending wb) with
                 | Some prev => set_next m (b_hdr prev) offset
                 | None => m
                 end in
        Some (Ok (RoomShm (hdr + DYNSHM_BUFFER_HEADER_SIZE)),
              mkWB (wb_pending wb ++ [mkBlock hdr offset]) (wb_fallback wb) (wb_len wb + size), lm, m)
    end in
  if size =? 0 then Some (Ok RoomEmpty, wb, lm, m)
  else if size >? W64 - 1 - wb_len wb then Some (Err SizeTooLarge, wb, lm, m)
  else if negb open then Some (Err StreamClosed, wb, lm, m)
  else if wb_is_fallback wb || in_fallback then heap lm m
  else if (size >? MAX_DYN_SHM_TRANSFER_SIZE) || (wb_len wb >? MAX_DYN_SHM_TRANSFER_SIZE - size)
  then heap lm m
  else
    match last (wb_pending wb) with
    | Some b =>
        match reserve m (b_hdr b) size with
        | Some (room, m) =>
            Some (Ok (RoomShm room), mkWB (wb_pending wb) (wb_fallback wb) (wb_len wb + size), lm, m)
        | None => fresh
        end
    | None => fresh
    end.

(** [copy_from_slice] into the reserved room. *)
Definition fill_room (wb : V5WriteBuffer) (m : mem) (room : Room) (bytes : list Z) : V5WriteBuffer * mem :=
  match room with
  | RoomEmpty => (wb, m)
  | RoomShm addr => (wb, Prelude.write_bytes m addr bytes)
  | RoomHeap start =>
      match vec_pop (wb_fallback wb) with
      | Some (c, rest) =>
          (mkWB (wb_pending wb) (rest ++ [mkHeap (hc_cap c) (take start (hc_bytes c) ++ bytes)]) (wb_len wb), m)
      | None => (wb, m)
      end
  end.

Definition wb_write_bytes (open in_fallback : bool) (wb : V5WriteBuffer) (lm : LocalManager) (m : mem)
    (now : Z) (bytes : list Z) : option (result BufError Z * V5WriteBuffer * LocalManager * mem) :=
  if is_nil bytes then Some (Ok 0, wb, lm, m)
  else
    '(res, wb, lm, m) ← wb_reserve open in_fallback wb lm m now (Z.of_nat (length bytes));
    match res with
    | Err e => Some (Err e, wb, lm, m)
    | Ok room =>
        let '(wb, m) := fill_room wb m room bytes in
        Some (Ok (Z.of_nat (length bytes)), wb, lm, m)
    end.

(** [V5Outgoing]: the blocks of one message on their way to the peer. *)
Definition V5Outgoing : Type := list ShmBlock.

Definition root (o : V5Outgoing) : option Z := b_offset <$> head o.

Definition take_shm (wb : V5WriteBuffer) : result BufError (option V5Outgoing) * V5WriteBuffer :=
  if wb_is_fallback wb then (Err BrokenBuffer, wb)
  else match wb_pending wb with
       | [] => (Ok None, wb)
       | blocks => (Ok (Some blocks), mkWB [] (wb_fallback wb) 0)
       end.

(** [bigger]: whether the handed-over vector has the larger capacity. *)
Definition recycle (bigger : bool) (wb : V5WriteBuffer) : V5WriteBuffer :=
  if bigger then mkWB [] (wb_fallback wb) (wb_len wb) else wb.

Inductive OutChunk : Type :=
| OutShm (b : ShmBlock)
| OutHeap (c : HeapChunk).

(** [Deref for OutChunk]. *)
Definition chunk_bytes (m : mem) (c : OutChunk) : list Z :=
  match c with
  | OutShm b => data m (b_hdr b)
  | OutHeap c => hc_bytes c
  end.

Definition take_fallback (wb : V5WriteBuffer) : list OutChunk * V5WriteBuffer :=
  ((OutShm <$> wb_pending wb) ++ (OutHeap <$> wb_fallback wb), mkWB [] [] 0).

(** Blocks given back to the manager one after the other: [discard], and the
    drop of an outgoing message that was not handed over. *)
Fixpoint free_blocks (lm : LocalManager) (m : mem) (now : Z) (bs : list ShmBlock)
    : option (LocalManager * mem) :=
  match bs with
  | [] => Some (lm, m)
  | b :: bs => '(lm, m) ← lm_free_at lm m now (b_offset b); free_blocks lm m now bs
  end.

Definition wb_discard (wb : V5WriteBuffer) (lm : LocalManager) (m : mem) (now : Z)
    : option (V5WriteBuffer * LocalManager * mem) :=
  '(lm, m) ← free_blocks lm m now (wb_pending wb); Some (mkWB [] [] 0, lm, m).
