(* ===== verification/WriteBufFacts.v ===== *)
(** * The message a write buffer holds *)

From Stdlib Require Import ZArith Lia String.
From stdpp Require Import base numbers list gmap.
From S2P Require Import Prelude Header BufHeader Region RegionFacts Mpsc MpscFacts MpscSeq LocalManager.
From S2P Require Import LocalManagerFacts LocalManagerSpec LocalManagerAlloc LocalManagerPrune.
From S2P Require Import LocalManagerExec WriteBuf.

#[local] Open Scope Z_scope.

(** ** Blocks of a chain *)

Definition offsets (bs : list ShmBlock) : list Z := b_offset <$> bs.

Definition nexts (m : mem) (base : Z) (offs : list Z) : list Z := (fun o => get_next m (base + o)) <$> offs.

Definition payload (m : mem) (base : Z) (offs : list Z) : list Z :=
  concat ((fun o => data m (base + o)) <$> offs).

(** Each block names the one behind it, the last names none. *)
Definition linked (m : mem) (base : Z) (offs : list Z) : Prop :=
  offs = [] \/ nexts m base offs = tail offs ++ [0].

(** A block whose bytes are the same reads the same. *)
Lemma block_same (m m' : mem) (p l : Z) :
  24 <= l -> get_len m p <= l - 24 -> (forall x, p <= x < p + l -> rd m' x = rd m x) ->
  get_hdr m' p = get_hdr m p /\ data m' p = data m p.
Proof.
  intros Hl Hlen Hx. assert (Eh : get_hdr m' p = get_hdr m p).
  { apply get_hdr_ext. intros x H. apply Hx. lia. }
  split; [done|]. injection Eh as _ _ El _. unfold data. rewrite El. unfold DYNSHM_BUFFER_HEADER_SIZE.
  pose proof (get_len_bound m p). apply read_bytes_ext. intros x H1. apply Hx. lia.
Qed.

Definition same_blocks (m m' : mem) (base : Z) (offs : list Z) : Prop :=
  Forall (fun o => get_next m' (base + o) = get_next m (base + o) /\ data m' (base + o) = data m (base + o)) offs.

Lemma same_blocks_spec (m m' : mem) (base : Z) (offs : list Z) :
  same_blocks m m' base offs -> nexts m' base offs = nexts m base offs /\ payload m' base offs = payload m base offs.
Proof.
  unfold nexts, payload. induction 1 as [|o offs [H1 H2] _ [IH1 IH2]]; [done|].
  rewrite !fmap_cons. cbn [concat]. by rewrite H1, H2, IH1, IH2.
Qed.

Lemma nexts_app (m : mem) (base : Z) (a b : list Z) : nexts m base (a ++ b) = nexts m base a ++ nexts m base b.
Proof. apply fmap_app. Qed.

Lemma payload_app (m : mem) (base : Z) (a b : list Z) :
  payload m base (a ++ b) = payload m base a ++ payload m base b.
Proof. unfold payload. by rewrite fmap_app, concat_app. Qed.

(** ** The invariant *)

Record wb_ok (lm : LocalManager) (m : mem) (vals : list Z) (B : Z -> Z -> Prop) (wb : V5WriteBuffer)
    (msg : list Z) : Prop := {
  wk_inv : lm_inv lm m vals B;
  wk_vals : NoDup vals /\ forall o, In o vals -> exists l, B o l;
  wk_open : lm_closed lm = false;
  wk_hdr : Forall (fun b => b_hdr b = lm_data lm + b_offset b) (wb_pending wb);
  wk_nodup : NoDup (offsets (wb_pending wb));
  wk_live : forall o, In o (offsets (wb_pending wb)) -> (exists l, B o l) /\ ~ In o vals;
  wk_link : linked m (lm_data lm) (offsets (wb_pending wb));
  wk_msg : msg = payload m (lm_data lm) (offsets (wb_pending wb)) ++ concat (hc_bytes <$> wb_fallback wb);
  wk_len : wb_len wb = Z.of_nat (length msg);
  wk_small : wb_fallback wb = [] -> wb_len wb <= MAX_DYN_SHM_TRANSFER_SIZE;
}.

(** The bytes of live buffers the message does not own stay. *)
Definition rest_kept (lm : LocalManager) (B : Z -> Z -> Prop) (vals offs : list Z) (m m' : mem) : Prop :=
  forall o l x, B o l -> ~ In o vals -> ~ In o offs -> o <= x < o + l ->
    rd m' (lm_data lm + x) = rd m (lm_data lm + x).

(** ** The heap *)

Lemma reserve_fill (wb : V5WriteBuffer) (m : mem) (bytes : list Z) :
  let '(room, wb1) := reserve_fallback wb (Z.of_nat (length bytes)) in
  let '(wb2, m') := fill_room wb1 m room bytes in
  m' = m /\ wb_pending wb2 = wb_pending wb /\ wb_fallback wb2 <> [] /\
  concat (hc_bytes <$> wb_fallback wb2) = concat (hc_bytes <$> wb_fallback wb) ++ bytes /\
  wb_len wb2 = wb_len wb + Z.of_nat (length bytes).
Proof.
  unfold reserve_fallback. rewrite Nat2Z.id.
  assert (Hgen : forall chunks c rest, chunks = rest ++ [c] ->
    concat (hc_bytes <$> chunks) = concat (hc_bytes <$> wb_fallback wb) ->
    let wb1 := mkWB (wb_pending wb)
      (rest ++ [mkHeap (hc_cap c) (hc_bytes c ++ repeat 0 (length bytes))]) (wb_len wb + Z.of_nat (length bytes)) in
    let '(wb2, m') := fill_room wb1 m (RoomHeap (length (hc_bytes c))) bytes in
    m' = m /\ wb_pending wb2 = wb_pending wb /\ wb_fallback wb2 <> [] /\
    concat (hc_bytes <$> wb_fallback wb2) = concat (hc_bytes <$> wb_fallback wb) ++ bytes /\
    wb_len wb2 = wb_len wb + Z.of_nat (length bytes)).
  { intros chunks c rest -> Hc. cbn [fill_room wb_fallback]. rewrite vec_pop_snoc.
    cbn [hc_bytes hc_cap wb_pending wb_fallback wb_len]. rewrite take_app_length.
    split; [done|]. split; [done|]. split; [by destruct rest|]. split; [|done].
    rewrite <- Hc, !fmap_app, !concat_app. cbn. by rewrite !app_nil_r, app_assoc. }
  destruct (last (wb_fallback wb)) as [c|] eqn:El.
  - apply last_Some in El as [rest El]. case_if.
    + pose proof (Hgen (wb_fallback wb) c rest El eq_refl) as Hg. rewrite El in Hg |- *. by rewrite vec_pop_snoc.
    + rewrite vec_pop_snoc. apply (Hgen (wb_fallback wb ++ [mkHeap (Z.max (Z.of_nat (length bytes)) DEFAULT_SINGLE_BUFFER_SIZE) []])
        (mkHeap (Z.max (Z.of_nat (length bytes)) DEFAULT_SINGLE_BUFFER_SIZE) [])); [done|].
      rewrite fmap_app, concat_app. cbn. by rewrite app_nil_r.
  - rewrite vec_pop_snoc. apply (Hgen (wb_fallback wb ++ [mkHeap (Z.max (Z.of_nat (length bytes)) DEFAULT_SINGLE_BUFFER_SIZE) []])
        (mkHeap (Z.max (Z.of_nat (length bytes)) DEFAULT_SINGLE_BUFFER_SIZE) [])); [done|].
    rewrite fmap_app, concat_app. cbn. by rewrite app_nil_r.
Qed.

Lemma heap_ok (lm : LocalManager) (m : mem) (vals : list Z) (B : Z -> Z -> Prop) (wb : V5WriteBuffer)
    (msg bytes : list Z) :
  wb_ok lm m vals B wb msg ->
  let '(room, wb1) := reserve_fallback wb (Z.of_nat (length bytes)) in
  let '(wb2, m') := fill_room wb1 m room bytes in
  m' = m /\ wb_pending wb2 = wb_pending wb /\ wb_ok lm m vals B wb2 (msg ++ bytes).
Proof.
  intros [H1 H2 H3 H4 H5 H6 H7 H8 H9 _]. pose proof (reserve_fill wb m bytes) as H.
  destruct (reserve_fallback wb _) as [room wb1]. destruct (fill_room wb1 m room bytes) as [wb2 m'].
  destruct H as (-> & Ep & Hne & Ef & El). split; [done|]. split; [done|].
  split; rewrite ?Ep; try done.
  - by rewrite Ef, app_assoc, H8.
  - rewrite El, H9, length_app. lia.
Qed.

(** ** Blocks other than the one touched *)

Lemma same_blocks_others (lm : LocalManager) (m m' : mem) (vals : list Z) (B : Z -> Z -> Prop)
    (offs : list Z) :
  lm_inv lm m vals B -> (forall o, In o offs -> exists l, B o l) ->
  (forall o l x, In o offs -> B o l -> o <= x < o + l -> rd m' (lm_data lm + x) = rd m (lm_data lm + x)) ->
  same_blocks m m' (lm_data lm) offs.
Proof.
  intros Hinv Hlive Hx. apply List.Forall_forall. intros o Ho. destruct (Hlive o Ho) as [l Hl].
  destruct (buf_stamp lm m vals B o l Hinv Hl) as (_ & _ & S3).
  destruct (bufs_range lm m vals B o l Hinv Hl) as (_ & R2 & _).
  destruct (block_same m m' (lm_data lm + o) l R2 S3) as [Eh Ed].
  { intros x Hxx. replace x with (lm_data lm + (x - lm_data lm)) by lia. apply (Hx o l); [done|done|lia]. }
  injection Eh as _ En _ _. done.
Qed.

(** The holder of one live buffer writes: the others, and their blocks, stay. *)
Lemma holder_others (lm : LocalManager) (m m' : mem) (vals : list Z) (B : Z -> Z -> Prop) (off len o l x : Z) :
  lm_inv lm m vals B -> B off len -> holder_writes lm off len m m' -> B o l -> o <> off ->
  o <= x < o + l -> rd m' (lm_data lm + x) = rd m (lm_data lm + x).
Proof.
  intros Hinv Hb [Hf _] Ho Hne Hx. apply Hf.
  destruct (bufs_disjoint lm m vals B o l off len Hinv Ho Hb Hne); lia.
Qed.

(** [append] into a live buffer keeps to what a holder may do. *)
Lemma append_holder (lm : LocalManager) (m : mem) (vals : list Z) (B : Z -> Z -> Prop) (off len : Z) (bytes : list Z) :
  lm_inv lm m vals B -> B off len -> Forall is_byte bytes ->
  forall m', append m (lm_data lm + off) bytes = (true, m') ->
  holder_writes lm off len m m' /\ data m' (lm_data lm + off) = data m (lm_data lm + off) ++ bytes /\
  get_next m' (lm_data lm + off) = get_next m (lm_data lm + off).
Proof.
  intros Hinv Hb Hby m' Ha. destruct (buf_stamp lm m vals B off len Hinv Hb) as (S1 & S2 & S3).
  destruct (bufs_range lm m vals B off len Hinv Hb) as (_ & R2 & _).
  set (p := lm_data lm + off) in *. pose proof (append_spec m p bytes Hby ltac:(lia)) as Hs.
  rewrite Ha in Hs. destruct Hs as (Hfit & Hh & Hd & Hfr). symmetry in Hfit. apply Z.leb_le in Hfit.
  injection Hh as _ Hn Hl Hc. pose proof (get_len_bound m p). split; [|done].
  split; [|split; [done|]].
  - intros x Hx. apply Hfr; unfold p in *; lia.
  - fold p. lia.
Qed.

(** ** Writing *)

Lemma offsets_app (a b : list ShmBlock) : offsets (a ++ b) = offsets a ++ offsets b.
Proof. apply fmap_app. Qed.

(** More bytes in the block allocated last. *)
Lemma write_last (lm : LocalManager) (m m' : mem) (vals : list Z) (B : Z -> Z -> Prop) (wb : V5WriteBuffer)
    (msg bytes : list Z) (bs : list ShmBlock) (b : ShmBlock) :
  wb_ok lm m vals B wb msg -> wb_fallback wb = [] -> wb_pending wb = bs ++ [b] -> Forall is_byte bytes ->
  wb_len wb + Z.of_nat (length bytes) <= MAX_DYN_SHM_TRANSFER_SIZE ->
  append m (b_hdr b) bytes = (true, m') ->
  wb_ok lm m' vals B (mkWB (wb_pending wb) [] (wb_len wb + Z.of_nat (length bytes))) (msg ++ bytes) /\
  rest_kept lm B vals (offsets (wb_pending wb)) m m'.
Proof.
  intros Hok Hfb Hp Hby Hsmall Ha. pose proof Hok as [H1 H2 H3 H4 H5 H6 H7 H8 H9 _].
  rewrite Hp in H4, H5, H6, H7, H8. rewrite offsets_app in H5, H6, H7, H8. cbn in H5, H6, H7, H8.
  apply Forall_app in H4 as [H4 H4b]. rewrite Forall_singleton in H4b. cbv beta in H4b.
  set (offs := offsets bs) in *. set (off := b_offset b) in *.
  destruct (H6 off) as [[len Hlen] Hnv]; [apply in_app_iff; right; by left|]. rewrite H4b in Ha.
  destruct (append_holder lm m vals B off len bytes H1 Hlen Hby m' Ha) as (Hw & Hd & Hn).
  assert (Hni : ~ In off offs).
  { apply NoDup_app in H5 as (_ & Hdis & _). intros Hin. apply (Hdis off); [by apply list_elem_of_In|by left]. }
  assert (Hsb : same_blocks m m' (lm_data lm) offs).
  { apply (same_blocks_others lm m m' vals B); [done| |].
    - intros o Ho. apply H6, in_app_iff. by left.
    - intros o l x Ho Hl Hx. apply (holder_others lm m m' vals B off len o l x H1 Hlen Hw Hl); [|done].
      intros ->. by apply Hni. }
  destruct (same_blocks_spec _ _ _ _ Hsb) as [Es Ep].
  split.
  - split; cbn [wb_pending wb_fallback wb_len]; rewrite ?Hp, ?offsets_app; cbn; fold off; fold offs; try done.
    + by apply (holder_writes_inv lm m m' vals B off len).
    + apply Forall_app. split; [done|]. by apply Forall_singleton.
    + right. destruct H7 as [H7|H7]; [by destruct offs|]. rewrite <- H7, !nexts_app, Es. cbn. by rewrite Hn.
    + rewrite H8, Hfb, !payload_app, Ep. unfold payload. cbn. rewrite !app_nil_r, Hd. by rewrite app_assoc.
    + rewrite H9, length_app. lia.
  - intros o l x Ho Hnv' Hno Hx. apply (holder_others lm m m' vals B off len o l x H1 Hlen Hw Ho); [|done].
    intros ->. apply Hno. rewrite Hp, offsets_app. apply in_app_iff. right. by left.
Qed.

(** Linking a fresh block behind the last one. *)
Lemma link_prev (lm : LocalManager) (m : mem) (vals : list Z) (B : Z -> Z -> Prop) (prev l off : Z) :
  lm_inv lm m vals B -> B prev l -> - (I64_MAX + 1) <= off <= I64_MAX ->
  let m' := set_next m (lm_data lm + prev) off in
  holder_writes lm prev l m m' /\ get_next m' (lm_data lm + prev) = off /\
  data m' (lm_data lm + prev) = data m (lm_data lm + prev).
Proof.
  intros Hinv Hb Hoff m'. destruct (buf_stamp lm m vals B prev l Hinv Hb) as (S1 & S2 & S3).
  destruct (bufs_range lm m vals B prev l Hinv Hb) as (_ & R2 & _). set (p := lm_data lm + prev) in *.
  assert (Hx : forall x, (x < p + 8 \/ p + 16 <= x) -> rd m' x = rd m x).
  { intros x Hx. unfold m', set_next, store64. apply rd_store_out. simpl. lia. }
  assert (El : get_len m' p = get_len m p) by (apply load_ext; intros x H; simpl in H; apply Hx; lia).
  assert (Ec : get_cap m' p = get_cap m p) by (apply load_ext; intros x H; simpl in H; apply Hx; lia).
  split; [split; [intros x H; apply Hx; unfold p in *; lia|split; [done|fold p; lia]]|].
  split; [by apply load_i64_store64_same|]. unfold data. rewrite El. unfold DYNSHM_BUFFER_HEADER_SIZE.
  apply read_bytes_ext. intros x H. apply Hx. lia.
Qed.

(** The payload of a fresh block, whose length was stamped by the allocation. *)
Lemma fill_fresh (lm : LocalManager) (m : mem) (vals : list Z) (B : Z -> Z -> Prop) (off len : Z) (bytes : list Z) :
  lm_inv lm m vals B -> B off len -> Forall is_byte bytes ->
  get_len m (lm_data lm + off) = Z.of_nat (length bytes) ->
  let m' := Prelude.write_bytes m (lm_data lm + off + 24) bytes in
  holder_writes lm off len m m' /\ data m' (lm_data lm + off) = bytes /\
  get_next m' (lm_data lm + off) = get_next m (lm_data lm + off).
Proof.
  intros Hinv Hb Hby Hl m'. destruct (buf_stamp lm m vals B off len Hinv Hb) as (S1 & S2 & S3).
  set (p := lm_data lm + off) in *.
  assert (Hx : forall x, (x < p + 24 \/ p + 24 + Z.of_nat (length bytes) <= x) -> rd m' x = rd m x).
  { intros x Hx. by apply rd_write_bytes_out. }
  assert (Eh : get_hdr m' p = get_hdr m p) by (apply get_hdr_ext; intros x H; apply Hx; lia).
  injection Eh as Eo En El Ec. split; [|split; [|done]].
  - split; [intros x H; apply Hx; unfold p in *; lia|split; [done|fold p; lia]].
  - unfold data. rewrite El, Hl, Nat2Z.id. by apply read_write_bytes.
Qed.

(** A fresh block at the end of the chain. *)
Lemma write_fresh (lm lm1 : LocalManager) (m m1 : mem) (vals : list Z) (B : Z -> Z -> Prop) (wb : V5WriteBuffer)
    (msg bytes : list Z) (off len : Z) :
  wb_ok lm m vals B wb msg -> wb_fallback wb = [] -> Forall is_byte bytes -> same_manager lm lm1 ->
  wb_len wb + Z.of_nat (length bytes) <= MAX_DYN_SHM_TRANSFER_SIZE ->
  let B1 := fun o l => (B o l /\ ~ In o vals) \/ (o = off /\ l = len) in
  lm_inv lm1 m1 [] B1 -> get_hdr m1 (lm_data lm + off) = mkHdr off 0 (Z.of_nat (length bytes)) (len - 24) ->
  (forall o l, B o l -> ~ In o vals -> o + l <= off \/ off + len <= o) ->
  (forall o l x, B o l -> ~ In o vals -> o <= x < o + l -> rd m1 (lm_data lm + x) = rd m (lm_data lm + x)) ->
  let m2 := match last (wb_pending wb) with Some prev => set_next m1 (b_hdr prev) off | None => m1 end in
  let m3 := Prelude.write_bytes m2 (lm_data lm + off + 24) bytes in
  wb_ok lm1 m3 [] B1 (mkWB (wb_pending wb ++ [mkBlock (lm_data lm + off) off]) []
    (wb_len wb + Z.of_nat (length bytes))) (msg ++ bytes) /\
  rest_kept lm B vals (offsets (wb_pending wb)) m m3.
Proof.
  intros Hok Hfb Hby Hsm Hsmall B1 Hinv1 Hh Hdis Hk m2 m3. pose proof Hok as [H1 H2 H3 H4 H5 H6 H7 H8 H9 _].
  pose proof Hsm as (Ed & _ & _ & _ & _ & _ & Ec & _). set (offs := offsets (wb_pending wb)) in *.
  injection Hh as Ho Hn Hl Hc.
  assert (Hnew : B1 off len) by (by right).
  assert (Hlive : forall o, In o offs -> exists l, B1 o l).
  { intros o Hin. destruct (H6 o Hin) as [[l Hl'] Hnv]. exists l. by left. }
  destruct (bufs_range lm1 m1 [] B1 off len Hinv1 Hnew) as (R1 & R2 & R3).
  assert (Hni : ~ In off offs).
  { intros Hin. destruct (H6 off Hin) as [[l Hl'] Hnv]. destruct (bufs_range lm m vals B off l H1 Hl').
    destruct (Hdis off l Hl' Hnv); lia. }
  assert (Hoff : - (I64_MAX + 1) <= off <= I64_MAX).
  { destruct Hinv1 as (lives & busy & Hok1 & _). pose proof (lo_bound _ _ _ _ _ Hok1) as [_ ?].
    pose proof rq_size_pos. lia. }
  assert (Hsb1 : same_blocks m m1 (lm_data lm) offs).
  { apply (same_blocks_others lm m m1 vals B); [done| |].
    - intros o Hin. by apply H6.
    - intros o l x Hin Hl' Hx. apply (Hk o l x Hl'); [|done]. by apply H6. }
  destruct (same_blocks_spec _ _ _ _ Hsb1) as [Es1 Ep1]. rewrite <- Ed in *.
  (* the link *)
  assert (Hlink : lm_inv lm1 m2 [] B1 /\ payload m2 (lm_data lm1) offs = payload m1 (lm_data lm1) offs /\
    (offs = [] \/ nexts m2 (lm_data lm1) offs = tail offs ++ [off]) /\
    get_hdr m2 (lm_data lm1 + off) = get_hdr m1 (lm_data lm1 + off) /\
    (forall o l x, B o l -> ~ In o vals -> ~ In o offs -> o <= x < o + l ->
       rd m2 (lm_data lm1 + x) = rd m1 (lm_data lm1 + x))).
  { unfold m2. destruct (last (wb_pending wb)) as [prev|] eqn:Elast.
    2:{ apply last_None in Elast. unfold offs. rewrite Elast. split; [done|]. split; [done|].
        split; [by left|done]. }
    apply last_Some in Elast as [bs Ebs].
    assert (Eoffs : offs = offsets bs ++ [b_offset prev]) by (unfold offs; by rewrite Ebs, offsets_app).
    rewrite Ebs in H4. apply Forall_app in H4 as [_ H4]. rewrite Forall_singleton in H4. cbv beta in H4. rewrite H4.
    set (po := b_offset prev) in *.
    destruct (Hlive po) as [pl Hpl]; [rewrite Eoffs; apply in_app_iff; right; by left|].
    destruct (link_prev lm1 m1 [] B1 po pl off Hinv1 Hpl Hoff) as (Hw & En' & Ed').
    set (m2' := set_next m1 (lm_data lm1 + po) off) in *.
    assert (Hpni : ~ In po (offsets bs)).
    { rewrite Eoffs in H5. apply NoDup_app in H5 as (_ & Hd' & _). intros Hin.
      apply (Hd' po); [by apply list_elem_of_In|by left]. }
    assert (Hne : off <> po) by (intros ->; apply Hni; rewrite Eoffs; apply in_app_iff; right; by left).
    assert (Hoth : forall o l x, B1 o l -> o <> po -> o <= x < o + l -> rd m2' (lm_data lm1 + x) = rd m1 (lm_data lm1 + x)).
    { intros o l x Ho' Hne' Hx. by apply (holder_others lm1 m1 m2' [] B1 po pl o l x). }
    assert (Hsb2 : same_blocks m1 m2' (lm_data lm1) (offsets bs)).
    { apply (same_blocks_others lm1 m1 m2' [] B1); [done| |].
      - intros o Hin. apply Hlive. rewrite Eoffs. apply in_app_iff. by left.
      - intros o l x Hin Hl' Hx. apply (Hoth o l x Hl'); [|done]. by intros ->. }
    destruct (same_blocks_spec _ _ _ _ Hsb2) as [Es2 Ep2].
    split; [by apply (holder_writes_inv lm1 m1 m2' [] B1 po pl)|]. split; [|split; [|split]].
    - rewrite Eoffs, !payload_app, Ep2. f_equal. unfold payload. cbn. by rewrite Ed'.
    - right. rewrite Eoffs, nexts_app, Es2. unfold nexts at 2. cbn. rewrite En'.
      destruct H7 as [H7|H7]; [by rewrite H7 in Eoffs; destruct (offsets bs)|].
      rewrite <- Es1, Eoffs, nexts_app in H7. unfold nexts at 2 in H7. cbn in H7.
      by apply app_inj_tail in H7 as [-> _].
    - apply get_hdr_ext. intros x Hx. replace x with (lm_data lm1 + (x - lm_data lm1)) by lia.
      apply (Hoth off len); [done|done|lia].
    - intros o l x Ho' Hnv Hno Hx. apply (Hoth o l x); [by left| |done].
      intros ->. apply Hno. rewrite Eoffs. apply in_app_iff. right. by left. }
  destruct Hlink as (Hinv2 & Ep2 & En2 & Eh2 & Hk2). injection Eh2 as Eo2 Enx2 El2 Ec2.
  (* the bytes *)
  destruct (fill_fresh lm1 m2 [] B1 off len bytes Hinv2 Hnew Hby ltac:(lia)) as (Hw & Hd & Hn3).
  assert (Em3 : Prelude.write_bytes m2 (lm_data lm1 + off + 24) bytes = m3) by (unfold m3; by rewrite Ed).
  rewrite Em3 in Hw, Hd, Hn3. clearbody m3.
  assert (Hoth : forall o l x, B1 o l -> o <> off -> o <= x < o + l -> rd m3 (lm_data lm1 + x) = rd m2 (lm_data lm1 + x)).
  { intros o l x Ho' Hne' Hx. by apply (holder_others lm1 m2 m3 [] B1 off len o l x). }
  assert (Hsb3 : same_blocks m2 m3 (lm_data lm1) offs).
  { apply (same_blocks_others lm1 m2 m3 [] B1); [done|done|].
    intros o l x Hin Hl' Hx. apply (Hoth o l x Hl'); [|done]. by intros ->. }
  destruct (same_blocks_spec _ _ _ _ Hsb3) as [Es3 Ep3].
  split.
  - split; cbn [wb_pending wb_fallback wb_len]; rewrite ?offsets_app; cbn; fold offs; try done.
    + by apply (holder_writes_inv lm1 m2 m3 [] B1 off len).
    + split; [constructor|by intros o []].
    + by rewrite Ec.
    + apply Forall_app. split; [done|]. by apply Forall_singleton.
    + apply NoDup_app. split; [done|]. split; [|apply NoDup_singleton].
      intros o Ho'. rewrite list_elem_of_singleton. intros ->. by apply Hni, list_elem_of_In.
    + intros o Ho'. split; [|by intros []]. apply in_app_iff in Ho' as [Ho' | [<- | []]]; [by apply Hlive|by exists len].
    + right. rewrite nexts_app, Es3. unfold nexts at 2. cbn. rewrite Hn3, Enx2, Hn.
      clear -En2. clearbody offs. destruct offs as [|o offs]; destruct En2 as [En2|En2]; try done.
      by rewrite En2.
    + rewrite payload_app, Ep3, Ep2, Ep1. unfold payload at 2. cbn. rewrite Hd, !app_nil_r.
      rewrite H8, Hfb. cbn. by rewrite app_nil_r.
    + rewrite H9, length_app. lia.
  - intros o l x Ho' Hnv Hno Hx. rewrite <- Ed. rewrite (Hoth o l x); [|by left| |done].
    + rewrite (Hk2 o l x) by done. by apply (Hk o l x).
    + intros ->. destruct (bufs_range lm m vals B off l H1 Ho'). destruct (Hdis off l Ho' Hnv); lia.
Qed.

(** What one write comes to: the message grows by the bytes, on the segment or on
    the heap, and whatever else is live stays live with its bytes. *)
Definition written (lm : LocalManager) (m : mem) (vals : list Z) (B : Z -> Z -> Prop) (wb : V5WriteBuffer)
    (msg : list Z) (lm' : LocalManager) (m' : mem) (wb' : V5WriteBuffer) : Prop :=
  exists vals' B', wb_ok lm' m' vals' B' wb' msg /\ same_manager lm lm' /\
    rest_kept lm B vals (offsets (wb_pending wb)) m m' /\
    (forall o l, B o l -> ~ In o vals -> B' o l /\ ~ In o vals').

Lemma heap_written (lm : LocalManager) (m : mem) (vals : list Z) (B : Z -> Z -> Prop) (wb : V5WriteBuffer)
    (msg bytes : list Z) :
  wb_ok lm m vals B wb msg ->
  let '(room, wb1) := reserve_fallback wb (Z.of_nat (length bytes)) in
  let '(wb2, m') := fill_room wb1 m room bytes in
  written lm m vals B wb (msg ++ bytes) lm m' wb2.
Proof.
  intros Hok. pose proof (heap_ok lm m vals B wb msg bytes Hok) as H.
  destruct (reserve_fallback wb _) as [room wb1]. destruct (fill_room wb1 m room bytes) as [wb2 m'].
  destruct H as (-> & _ & Hok2). exists vals, B. done.
Qed.

(** After an allocation that found no room the message is as it was. *)
Lemma wb_ok_drained (lm lm1 : LocalManager) (m m1 : mem) (vals : list Z) (B : Z -> Z -> Prop) (wb : V5WriteBuffer)
    (msg : list Z) :
  wb_ok lm m vals B wb msg -> same_manager lm lm1 ->
  lm_inv lm1 m1 [] (fun o l => B o l /\ ~ In o vals) ->
  (forall o l x, B o l -> ~ In o vals -> o <= x < o + l -> rd m1 (lm_data lm + x) = rd m (lm_data lm + x)) ->
  wb_ok lm1 m1 [] (fun o l => B o l /\ ~ In o vals) wb msg.
Proof.
  intros [H1 H2 H3 H4 H5 H6 H7 H8 H9 H10] Hsm Hinv Hk.
  pose proof Hsm as (Ed & _ & _ & _ & _ & _ & Ec & _).
  assert (Hsb : same_blocks m m1 (lm_data lm) (offsets (wb_pending wb))).
  { apply (same_blocks_others lm m m1 vals B); [done| |].
    - intros o Hin. by apply H6.
    - intros o l x Hin Hl' Hx. apply (Hk o l x Hl'); [|done]. by apply H6. }
  destruct (same_blocks_spec _ _ _ _ Hsb) as [Es Ep].
  split; rewrite ?Ed; try done.
  - split; [constructor|by intros o []].
  - by rewrite Ec.
  - intros o Hin. destruct (H6 o Hin) as [[l Hl] Hnv]. split; [by exists l|by intros []].
  - unfold linked in *. by rewrite Es.
  - by rewrite Ep.
Qed.

Lemma wb_write_spec (in_fallback : bool) (lm : LocalManager) (m : mem) (vals : list Z) (B : Z -> Z -> Prop)
    (wb : V5WriteBuffer) (msg bytes : list Z) (now : Z) :
  wb_ok lm m vals B wb msg -> Forall is_byte bytes -> 0 < now ->
  wb_len wb + Z.of_nat (length bytes) < W64 ->
  exists wb' lm' m',
    wb_write_bytes true in_fallback wb lm m now bytes = Some (Ok (Z.of_nat (length bytes)), wb', lm', m') /\
    written lm m vals B wb (msg ++ bytes) lm' m' wb'.
Proof.
  intros Hok Hby Hn Hmax. unfold wb_write_bytes. destruct bytes as [|b0 bytes0] eqn:Eb.
  { cbn. exists wb, lm, m. split; [done|]. exists vals, B. by rewrite app_nil_r. }
  rewrite <- Eb in *. assert (Hne : 0 < Z.of_nat (length bytes)) by (rewrite Eb; cbn; lia).
  replace (is_nil bytes) with false by (by rewrite Eb). clear Eb b0 bytes0.
  unfold wb_reserve. rewrite (proj2 (Z.eqb_neq _ 0)) by lia.
  replace (Z.of_nat (length bytes) >? W64 - 1 - wb_len wb) with false
    by (symmetry; rewrite Z.gtb_ltb; apply Z.ltb_ge; lia).
  cbn [negb].
  assert (Hheap : forall lm0 m0 vals0 B0, wb_ok lm0 m0 vals0 B0 wb msg -> exists wb' m',
    ('(res, wb, lm, m) ← (let '(room, wb) := reserve_fallback wb (Z.of_nat (length bytes)) in
        Some (Ok (E := BufError) room, wb, lm0, m0));
     match res with
     | Ok room => let '(wb, m) := fill_room wb m room bytes in Some (Ok (Z.of_nat (length bytes)), wb, lm, m)
     | Err e => Some (Err e, wb, lm, m)
     end) = Some (Ok (Z.of_nat (length bytes)), wb', lm0, m') /\
    written lm0 m0 vals0 B0 wb (msg ++ bytes) lm0 m' wb').
  { intros lm0 m0 vals0 B0 Hok0. pose proof (heap_written lm0 m0 vals0 B0 wb msg bytes Hok0) as Hw.
    destruct (reserve_fallback wb _) as [room wb1]. cbn [mbind option_bind].
    destruct (fill_room wb1 m0 room bytes) as [wb2 m2]. by exists wb2, m2. }
  case_if. { destruct (Hheap lm m vals B Hok) as (wb' & m' & E1 & Hw). by exists wb', lm, m'. }
  case_if. { destruct (Hheap lm m vals B Hok) as (wb' & m' & E1 & Hw). by exists wb', lm, m'. }
  apply orb_false_iff in E as [E _]. apply orb_false_iff in E0 as [_ E0]. rewrite Z.gtb_ltb, Z.ltb_ge in E0.
  assert (Hfb : wb_fallback wb = []) by (unfold wb_is_fallback in E; by destruct (wb_fallback wb)).
  assert (Hsmall : wb_len wb + Z.of_nat (length bytes) <= MAX_DYN_SHM_TRANSFER_SIZE) by lia.
  assert (Hfresh : exists wb' lm' m',
    ('(res, wb, lm, m) ←
       ('(res, lm1, m1) ← lm_alloc lm m now (Z.of_nat (length bytes));
        match res with
        | Err Closed => Some (Err SessionShutdown, wb, lm1, m1)
        | Err _ => let '(room, wb) := reserve_fallback wb (Z.of_nat (length bytes)) in Some (Ok room, wb, lm1, m1)
        | Ok hdr =>
            let offset := get_offset m1 hdr in
            let m1 := match last (wb_pending wb) with
                     | Some prev => set_next m1 (b_hdr prev) offset
                     | None => m1
                     end in
            Some (Ok (RoomShm (hdr + DYNSHM_BUFFER_HEADER_SIZE)),
                  mkWB (wb_pending wb ++ [mkBlock hdr offset]) (wb_fallback wb)
                       (wb_len wb + Z.of_nat (length bytes)), lm1, m1)
        end);
     match res with
     | Ok room => let '(wb, m) := fill_room wb m room bytes in Some (Ok (Z.of_nat (length bytes)), wb, lm, m)
     | Err e => Some (Err e, wb, lm, m)
     end) = Some (Ok (Z.of_nat (length bytes)), wb', lm', m') /\
    written lm m vals B wb (msg ++ bytes) lm' m' wb').
  { pose proof Hok as [H1 [H2 H2'] H3 _ _ H6 _ _ _ _].
    destruct (lm_alloc_spec lm m vals B now (Z.of_nat (length bytes)) H1 H2 H2' H3 Hne Hn)
      as (res & lm1 & m1 & -> & Hsm & Hk & Hres). cbn [mbind option_bind]. destruct res as [p|e].
    - destruct Hres as (off & len & -> & Hinv1 & Hh & Hlen & Hdis).
      assert (Eo : get_offset m1 (lm_data lm + off) = off) by (by injection Hh).
      rewrite Eo. cbn [mbind option_bind fill_room]. rewrite Hfb.
      destruct (write_fresh lm lm1 m m1 vals B wb msg bytes off len Hok Hfb Hby Hsm Hsmall Hinv1 Hh Hdis Hk)
        as [Hok3 Hrest].
      eexists _, lm1, _. split; [done|]. eexists [], _. split; [exact Hok3|]. split; [done|]. split; [exact Hrest|].
      intros o l Ho Hnv. split; [by left|by intros []].
    - destruct Hres as [-> Hinv1]. pose proof (wb_ok_drained lm lm1 m m1 vals B wb msg Hok Hsm Hinv1 Hk) as Hok1.
      destruct (Hheap lm1 m1 [] _ Hok1) as (wb' & m' & -> & vals' & B' & Hok' & Hsm' & Hr' & Hl').
      exists wb', lm1, m'. split; [done|]. exists vals', B'. split; [done|]. split; [done|]. split.
      + intros o l x Ho Hnv Hno Hx. pose proof Hsm as (Ed & _). rewrite <- Ed.
        rewrite (Hr' o l x); [|done|by intros []|done|done]. rewrite Ed. by apply (Hk o l x).
      + intros o l Ho Hnv. apply Hl'; [done|by intros []]. }
  destruct (last (wb_pending wb)) as [b|] eqn:Elast; [|exact Hfresh].
  destruct (reserve m (b_hdr b) (Z.of_nat (length bytes))) as [[room m1]|] eqn:Er; [|exact Hfresh].
  apply last_Some in Elast as [bs Ebs]. cbn [mbind option_bind fill_room].
  assert (Ha : append m (b_hdr b) bytes = (true, Prelude.write_bytes m1 room bytes)).
  { unfold append. by rewrite Er. }
  destruct (write_last lm m _ vals B wb msg bytes bs b Hok Hfb Ebs Hby Hsmall Ha) as [Hok' Hrest].
  rewrite Hfb. eexists _, lm, _. split; [done|]. exists vals, B. split; [exact Hok'|]. split; [done|].
  split; [exact Hrest|done].
Qed.

(** ** Once a stream has fallen back *)

(** Everything a stream writes after it has fallen back goes to the heap, so its
    next messages travel over the socket as well. *)
Lemma write_after_fallback (in_fallback : bool) (wb wb' : V5WriteBuffer) (lm lm' : LocalManager) (m m' : mem)
    (now n : Z) (bytes : list Z) :
  wb_is_fallback wb || in_fallback = true -> bytes <> [] ->
  wb_write_bytes true in_fallback wb lm m now bytes = Some (Ok n, wb', lm', m') ->
  wb_is_fallback wb' = true.
Proof.
  intros Hf Hne. unfold wb_write_bytes, wb_reserve. replace (is_nil bytes) with false by (by destruct bytes).
  replace (Z.of_nat (length bytes) =? 0) with false by (symmetry; apply Z.eqb_neq; destruct bytes; [done|cbn; lia]).
  rewrite Hf. cbn [negb]. destruct (_ >? _); [done|]. unfold reserve_fallback.
  match goal with |- context [vec_pop ?l] => set (chunks := l) end. destruct (vec_pop chunks) as [[c rest]|] eqn:Ec; cbn [mbind option_bind]; intros E.
  - unfold fill_room in E. cbn [wb_fallback] in E. rewrite vec_pop_snoc in E. injection E as <- <- _ _.
    unfold wb_is_fallback. cbn. by destruct rest.
  - exfalso. subst chunks. destruct (last (wb_fallback wb)) as [c|] eqn:El; [destruct (_ >=? _)|]; try by rewrite vec_pop_snoc in Ec.
    apply last_Some in El as [l El]. by rewrite El, vec_pop_snoc in Ec.
Qed.
