(* ===== verification/ReadBuf.v ===== *)
(** * The read half of a stream ([V5Inbox], [V5ReadBuffer] of [src/src/buffer/buf_v5.rs])

    The event loop delivers chains and socket bytes to the inbox; the reader walks
    the chains into readable chunks and consumes them.  A zero-copy read shares
    the block's pin ([Arc<V5Pin>]); the pins live in a store keyed by identity
    with their reference count, so that a block goes back to the peer when the
    last holder of its pin is gone.  The copy statistics are left out. *)

From Stdlib Require Import ZArith Lia.
From stdpp Require Import base numbers list gmap.
From S2P Require Import Prelude BufHeader Region Mpsc LocalManager RemoteManager WriteBuf.

#[local] Open Scope Z_scope.

(** ** The inbox *)

Inductive PendingInput : Type :=
| InShm (root : Z)
| InHeap (bytes : list Z).

(** [generation] is an [AtomicU64]. *)
Record V5Inbox : Type := mkInbox {
  in_generation : Z;
  in_pending : list PendingInput;
}.

Definition inbox_new : V5Inbox := mkInbox 0 [].

Definition add_pending (b : V5Inbox) (offset : Z) : V5Inbox :=
  mkInbox (in_generation b) (in_pending b ++ [InShm offset]).

Definition add_fallback (b : V5Inbox) (bytes : list Z) : V5Inbox :=
  mkInbox (in_generation b) (in_pending b ++ [InHeap bytes]).

Definition add_pending_batch (b : V5Inbox) (offsets : list Z) : V5Inbox :=
  if is_nil offsets then b else mkInbox (in_generation b) (in_pending b ++ (InShm <$> offsets)).

(** [open] is [StreamShared::is_open] at the check. *)
Definition add_pending_batch_if_generation (open : bool) (b : V5Inbox) (offsets : list Z) (generation : Z)
    : bool * V5Inbox :=
  if is_nil offsets then (true, b)
  else if negb (in_generation b =? generation) || negb open then (false, b)
  else (true, mkInbox (in_generation b) (in_pending b ++ (InShm <$> offsets))).

Definition advance_generation_if_idle (b : V5Inbox) : bool * V5Inbox :=
  if negb (is_nil (in_pending b)) then (false, b)
  else (true, mkInbox (wrap64 (in_generation b + 1)) (in_pending b)).

Definition add_fallback_if_generation (open : bool) (b : V5Inbox) (bytes : list Z) (generation : Z)
    : bool * V5Inbox :=
  if negb (in_generation b =? generation) || negb open then (false, b)
  else (true, mkInbox (in_generation b) (in_pending b ++ [InHeap bytes])).

(** ** Chunks *)

Inductive ChunkSrc : Type :=
| SrcShm (offset ptr len : Z) (pin : option nat)
| SrcHeap (bytes : list Z).

Record ReadChunk : Type := mkChunk {
  ck_src : ChunkSrc;
  ck_pos : Z;
}.

Definition ck_len (c : ReadChunk) : Z :=
  match ck_src c with
  | SrcShm _ _ len _ => len
  | SrcHeap bytes => Z.of_nat (length bytes)
  end.

Definition remaining (c : ReadChunk) : Z := ck_len c - ck_pos c.

Definition ck_bytes (m : mem) (c : ReadChunk) : list Z :=
  match ck_src c with
  | SrcShm _ ptr len _ => read_bytes m ptr (Z.to_nat len)
  | SrcHeap bytes => bytes
  end.

Definition ck_pin (c : ReadChunk) : option nat :=
  match ck_src c with SrcShm _ _ _ pin => pin | SrcHeap _ => None end.

(** The value a read returns: a run of the segment with its lease, or owned bytes. *)
Inductive Buf : Type :=
| BufShm (ptr size : Z) (pin : nat)
| BufExm (bytes : list Z).

Definition buf_bytes (m : mem) (b : Buf) : list Z :=
  match b with
  | BufShm ptr size _ => read_bytes m ptr (Z.to_nat size)
  | BufExm bytes => bytes
  end.

(** [rb_pins] maps a pin to its block's offset and its count of holders. *)
Record V5ReadBuffer : Type := mkRB {
  rb_ready : list ReadChunk;
  rb_len : Z;
  rb_pins : gmap nat (Z * nat);
  rb_fresh : nat;
}.

Definition rb_new : V5ReadBuffer := mkRB [] 0 ∅ 0.

Definition with_ready (rb : V5ReadBuffer) (ready : list ReadChunk) (len : Z) : V5ReadBuffer :=
  mkRB ready len (rb_pins rb) (rb_fresh rb).

(** One holder of a pin is gone; the last one releases the block
    ([Drop for V5Pin]).  What [free] answers is ignored. *)
Definition drop_pin (rb : V5ReadBuffer) (rm : RemoteManager) (m : mem) (id : nat)
    : option (V5ReadBuffer * RemoteManager * mem) :=
  match rb_pins rb !! id with
  | Some (offset, S O) =>
      '(_, rm, m) ← rm_free rm m offset;
      Some (mkRB (rb_ready rb) (rb_len rb) (delete id (rb_pins rb)) (rb_fresh rb), rm, m)
  | Some (offset, S k) =>
      Some (mkRB (rb_ready rb) (rb_len rb) (<[id := (offset, k)]> (rb_pins rb)) (rb_fresh rb), rm, m)
  | _ => Some (rb, rm, m)
  end.

(** [ReadChunk::release] on a chunk that has left the list. *)
Definition release (rb : V5ReadBuffer) (rm : RemoteManager) (m : mem) (c : ReadChunk)
    : option (V5ReadBuffer * RemoteManager * mem) :=
  match ck_src c with
  | SrcShm offset _ _ None => '(_, rm, m) ← rm_free rm m offset; Some (rb, rm, m)
  | SrcShm _ _ _ (Some id) => drop_pin rb rm m id
  | SrcHeap _ => Some (rb, rm, m)
  end.

Definition pop_if_spent (rb : V5ReadBuffer) (rm : RemoteManager) (m : mem)
    : option (V5ReadBuffer * RemoteManager * mem) :=
  match rb_ready rb with
  | c :: rest =>
      if remaining c =? 0 then release (with_ready rb rest (rb_len rb)) rm m c else Some (rb, rm, m)
  | [] => Some (rb, rm, m)
  end.

(** The front chunk's pin, created on first use, with one more holder. *)
Definition shm_lease (rb : V5ReadBuffer) (c : ReadChunk) (rest : list ReadChunk)
    : option (Z * nat * V5ReadBuffer) :=
  match ck_src c with
  | SrcShm offset ptr len (Some id) =>
      '(o, k) ← rb_pins rb !! id;
      Some (ptr, id, mkRB (c :: rest) (rb_len rb) (<[id := (o, S k)]> (rb_pins rb)) (rb_fresh rb))
  | SrcShm offset ptr len None =>
      let id := rb_fresh rb in
      Some (ptr, id, mkRB (mkChunk (SrcShm offset ptr len (Some id)) (ck_pos c) :: rest) (rb_len rb)
                          (<[id := (offset, 2%nat)]> (rb_pins rb)) (S id))
  | SrcHeap _ => None
  end.

(** ** Reading *)

(** The loop that consumes across chunks: [read_exact_bytes] and [read] copy what
    it takes, [discard] drops it.  [fuel] bounds the chunks visited. *)
Fixpoint take_loop (fuel : nat) (size : Z) (rb : V5ReadBuffer) (rm : RemoteManager) (m : mem)
    : option (list Z * V5ReadBuffer * RemoteManager * mem) :=
  if size <=? 0 then Some ([], rb, rm, m)
  else
    match fuel with
    | O => None
    | S fuel =>
        match rb_ready rb with
        | [] => Some ([], rb, rm, m)
        | c :: rest =>
            let n := Z.min (remaining c) size in
            let got := take (Z.to_nat n) (drop (Z.to_nat (ck_pos c)) (ck_bytes m c)) in
            let rb := with_ready rb (mkChunk (ck_src c) (ck_pos c + n) :: rest) (rb_len rb - n) in
            '(rb, rm, m) ← pop_if_spent rb rm m;
            '(more, rb, rm, m) ← take_loop fuel (size - n) rb rm m;
            Some (got ++ more, rb, rm, m)
        end
    end.

Definition loop_fuel (rb : V5ReadBuffer) : nat := S (length (rb_ready rb)).

Definition rb_outcome (A : Type) : Type := result BufError A * V5ReadBuffer * RemoteManager * mem.

(** The borrow of [size] bytes from the front chunk, which holds them all. *)
Definition front_buf (rb : V5ReadBuffer) (c : ReadChunk) (rest : list ReadChunk) (size : Z)
    : option (Buf * V5ReadBuffer) :=
  match ck_src c with
  | SrcHeap bytes => Some (BufExm (take (Z.to_nat size) (drop (Z.to_nat (ck_pos c)) bytes)), rb)
  | _ => '(ptr, id, rb) ← shm_lease rb c rest; Some (BufShm (ptr + ck_pos c) size id, rb)
  end.

Definition read_exact_bytes (rb : V5ReadBuffer) (rm : RemoteManager) (m : mem) (size : Z)
    : option (rb_outcome Buf) :=
  let slow :=
    '(out, rb, rm, m) ← take_loop (loop_fuel rb) size rb rm m; Some (Ok (BufExm out), rb, rm, m) in
  if size =? 0 then Some (Ok (BufExm []), rb, rm, m)
  else if rb_len rb <? size then Some (Err NotEnoughData, rb, rm, m)
  else
    match rb_ready rb with
    | c :: rest =>
        if remaining c >=? size then
          '(buf, rb) ← front_buf rb c rest size;
          match rb_ready rb with
          | c :: rest =>
              let rb := with_ready rb (mkChunk (ck_src c) (ck_pos c + size) :: rest) (rb_len rb - size) in
              '(rb, rm, m) ← pop_if_spent rb rm m; Some (Ok buf, rb, rm, m)
          | [] => None
          end
        else slow
    | [] => slow
    end.

Definition read_chunk (rb : V5ReadBuffer) (rm : RemoteManager) (m : mem) : option (rb_outcome Buf) :=
  let size := match rb_ready rb with c :: _ => remaining c | [] => 0 end in
  if size =? 0 then Some (Err NotEnoughData, rb, rm, m) else read_exact_bytes rb rm m size.

(** The gathering loop of [peek], over chunks it leaves in place. *)
Fixpoint peek_loop (m : mem) (size : Z) (cs : list ReadChunk) : list Z :=
  match cs with
  | [] => []
  | c :: cs =>
      if size <=? 0 then []
      else
        let n := Z.min (remaining c) size in
        take (Z.to_nat n) (drop (Z.to_nat (ck_pos c)) (ck_bytes m c)) ++ peek_loop m (size - n) cs
  end.

Definition peek (rb : V5ReadBuffer) (m : mem) (size : Z) : option (result BufError Buf * V5ReadBuffer) :=
  if size =? 0 then Some (Ok (BufExm []), rb)
  else if rb_len rb <? size then Some (Err NotEnoughData, rb)
  else
    match rb_ready rb with
    | c :: rest =>
        if remaining c >=? size then '(buf, rb) ← front_buf rb c rest size; Some (Ok buf, rb)
        else Some (Ok (BufExm (peek_loop m size (rb_ready rb))), rb)
    | [] => Some (Ok (BufExm (peek_loop m size (rb_ready rb))), rb)
    end.

Definition discard (rb : V5ReadBuffer) (rm : RemoteManager) (m : mem) (size : Z)
    : option (rb_outcome Z) :=
  if rb_len rb <? size then Some (Err NotEnoughData, rb, rm, m)
  else '(out, rb, rm, m) ← take_loop (loop_fuel rb) size rb rm m;
       Some (Ok (Z.of_nat (length out)), rb, rm, m).

(** [read] into a destination of [size] bytes: the bytes copied. *)
Definition read (rb : V5ReadBuffer) (rm : RemoteManager) (m : mem) (size : Z)
    : option (list Z * V5ReadBuffer * RemoteManager * mem) :=
  take_loop (loop_fuel rb) size rb rm m.

Definition release_previous_read (rb : V5ReadBuffer) (rm : RemoteManager) (m : mem)
    : option (V5ReadBuffer * RemoteManager * mem) :=
  '(_, rm, m) ← retry_pending_releases rm m; Some (rb, rm, m).

(** A [Buf] goes out of scope. *)
Definition drop_buf (rb : V5ReadBuffer) (rm : RemoteManager) (m : mem) (b : Buf)
    : option (V5ReadBuffer * RemoteManager * mem) :=
  match b with
  | BufShm _ _ id => drop_pin rb rm m id
  | BufExm _ => Some (rb, rm, m)
  end.

(** ** Walking chains *)

(** The loop of [walk_chain]: [nodes] visited so far, the lazily built set, the
    bytes of this chain so far.  [fuel] bounds the iterations. *)
Fixpoint walk_loop (fuel : nat) (rb : V5ReadBuffer) (rm : RemoteManager) (m : mem) (root : Z)
    (visited : option (gset Z)) (nodes chain_total offset : Z) : option (result BufError Z * V5ReadBuffer) :=
  match fuel with
  | O => None
  | S fuel =>
      if negb (offset >? 0) then Some (Ok chain_total, rb)
      else if nodes >=? MAX_CHAIN_NODES then Some (Err BrokenBuffer, rb)
      else
        let seen := default {[root]} visited in
        if (nodes >? 0) && bool_decide (offset ∈ seen) then Some (Err BrokenBuffer, rb)
        else
          let visited := if nodes >? 0 then Some ({[offset]} ∪ seen) else visited in
          match rm_read rm m offset with
          | None => Some (Err BrokenBuffer, rb)
          | Some (bytes, next) =>
              let len := Z.of_nat (length bytes) in
              if chain_total + len >? MAX_DYN_SHM_TRANSFER_SIZE then Some (Err SizeTooLarge, rb)
              else
                let ptr := rm_data rm + (offset + DYNSHM_BUFFER_HEADER_SIZE) in
                let rb := with_ready rb (rb_ready rb ++ [mkChunk (SrcShm offset ptr len None) 0])
                                     (rb_len rb + len) in
                walk_loop fuel rb rm m root visited (nodes + 1) (chain_total + len) next
          end
  end.

Definition walk_chain (rb : V5ReadBuffer) (rm : RemoteManager) (m : mem) (root : Z)
    : option (result BufError Z * V5ReadBuffer) :=
  walk_loop walk_fuel rb rm m root None 0 0 root.

(** What follows a bad chain is handed back unread. *)
Fixpoint free_rest (rm : RemoteManager) (m : mem) (inputs : list PendingInput)
    : option (RemoteManager * mem) :=
  match inputs with
  | [] => Some (rm, m)
  | InShm offset :: inputs => '(_, rm, m) ← free_chain rm m offset; free_rest rm m inputs
  | InHeap _ :: inputs => free_rest rm m inputs
  end.

Fixpoint drain_inputs (rb : V5ReadBuffer) (rm : RemoteManager) (m : mem) (inputs : list PendingInput)
    (total : Z) : option (rb_outcome Z) :=
  match inputs with
  | [] => Some (Ok total, rb, rm, m)
  | InHeap bytes :: inputs =>
      let n := Z.of_nat (length bytes) in
      let rb := with_ready rb (rb_ready rb ++ [mkChunk (SrcHeap bytes) 0]) (rb_len rb + n) in
      drain_inputs rb rm m inputs (total + n)
  | InShm root :: inputs =>
      '(res, rb) ← walk_chain rb rm m root;
      match res with
      | Ok added => drain_inputs rb rm m inputs (total + added)
      | Err e => '(rm, m) ← free_rest rm m inputs; Some (Err e, rb, rm, m)
      end
  end.

Definition drain_pending (rb : V5ReadBuffer) (b : V5Inbox) (rm : RemoteManager) (m : mem)
    : option (rb_outcome Z * V5Inbox) :=
  out ← drain_inputs rb rm m (in_pending b) 0; Some (out, mkInbox (in_generation b) []).

(** [Drop for V5Inbox] and [Drop for V5ReadBuffer]. *)
Definition inbox_drop (b : V5Inbox) (rm : RemoteManager) (m : mem) : option (RemoteManager * mem) :=
  free_rest rm m (in_pending b).

Fixpoint release_all (rb : V5ReadBuffer) (rm : RemoteManager) (m : mem) (cs : list ReadChunk)
    : option (V5ReadBuffer * RemoteManager * mem) :=
  match cs with
  | [] => Some (rb, rm, m)
  | c :: cs => '(rb, rm, m) ← release (with_ready rb cs (rb_len rb)) rm m c; release_all rb rm m cs
  end.

Definition rb_drop (rb : V5ReadBuffer) (rm : RemoteManager) (m : mem)
    : option (V5ReadBuffer * RemoteManager * mem) :=
  release_all rb rm m (rb_ready rb).
