(* ===== verification/ReadBufFacts.v ===== *)
(** * The reader's invariant and its ledger of blocks

    Every block the reader was handed is in exactly one place: unread in a chunk,
    held through a pin, waiting in the backlog, or in the release queue. *)

From Stdlib Require Import ZArith Lia Permutation.
From stdpp Require Import base numbers list gmap.
From S2P Require Import Prelude Header BufHeader Region RegionFacts Mpsc MpscFacts MpscSeq LocalManager.
From S2P Require Import LocalManagerFacts LocalManagerSpec RemoteManager RemoteManagerFacts WriteBuf ReadBuf.

#[local] Open Scope Z_scope.

Definition same_rm (rm rm' : RemoteManager) : Prop :=
  rm_data rm' = rm_data rm /\ rm_size rm' = rm_size rm /\ rm_closed rm' = rm_closed rm /\
  cap (rm_rq rm') = cap (rm_rq rm).

Lemma same_rm_refl (rm : RemoteManager) : same_rm rm rm.
Proof. done. Qed.

Lemma same_rm_trans (a b c : RemoteManager) : same_rm a b -> same_rm b c -> same_rm a c.
Proof. unfold same_rm. intuition congruence. Qed.

(** A block that [free] accepts. *)
Definition block_ok (rm : RemoteManager) (m : mem) (off : Z) : Prop :=
  off_range rm off = true /\ get_offset m (rm_data rm + off) = off.

(** Positions the ring has handed out or will hand out for the backlog. *)
Definition spent (rm : RemoteManager) (m : mem) : Z :=
  get_tail (rm_rq rm) m + Z.of_nat (length (rm_pending rm)).

Definition rq_frame (rm : RemoteManager) (m m' : mem) : Prop :=
  mem_frame (rm_data rm) (rm_data rm + RQ_SIZE) m m'.

Lemma rm_free_spec (rm : RemoteManager) (m : mem) (vals : list Z) (off : Z) :
  rm_ok rm m vals -> rm_closed rm = false -> block_ok rm m off -> spent rm m + 1 < POS_MAX ->
  exists res rm' m' vals', rm_free rm m off = Some (res, rm', m') /\ rm_ok rm' m' vals' /\
    vals' ++ rm_pending rm' = vals ++ rm_pending rm ++ [off] /\ same_rm rm rm' /\ rq_frame rm m m' /\
    spent rm' m' = spent rm m + 1.
Proof.
  intros Hok Hc [Hr Hs] Hsp. unfold rm_free, spent in *. rewrite Hc, Hr, Hs, Z.eqb_refl. cbn [negb].
  destruct (flush_releases_spec rm m vals (rm_pending rm ++ [off]) Hok)
    as (res & h & m' & vals' & rest & -> & Hok' & Hcons & _ & _ & Eh & Hf).
  - apply Forall_app. split; [apply (mo_pending _ _ _ Hok)|by constructor].
  - rewrite length_app. cbn. lia.
  - eexists res, _, m', vals'. split; [done|]. split; [done|]. split; [done|]. split; [done|]. split; [done|].
    cbn [with_release rm_rq rm_pending]. pose proof (rk_tail _ _ _ (mo_ring _ _ _ Hok)) as Ht.
    pose proof (rk_tail _ _ _ (mo_ring _ _ _ Hok')) as Ht'. cbn [with_release rm_rq] in Ht'.
    change (get_tail (with_cache (rm_rq rm) h)) with (get_tail (rm_rq rm)) in *.
    change (get_head (with_cache (rm_rq rm) h)) with (get_head (rm_rq rm)) in *.
    apply (f_equal length) in Hcons. rewrite !length_app in Hcons. cbn in Hcons. lia.
Qed.

(** ** Chunks *)

Definition chunk_ok (rm : RemoteManager) (m : mem) (c : ReadChunk) : Prop :=
  0 <= ck_pos c <= ck_len c /\
  match ck_src c with
  | SrcShm off ptr len _ =>
      block_ok rm m off /\ ptr = rm_data rm + (off + 24) /\ 0 <= len /\ off + 24 + len <= rm_size rm
  | SrcHeap _ => True
  end.

(** The unread bytes of a chunk and of the whole buffer. *)
Definition unread (m : mem) (c : ReadChunk) : list Z := drop (Z.to_nat (ck_pos c)) (ck_bytes m c).

Definition content (m : mem) (cs : list ReadChunk) : list Z := concat (unread m <$> cs).

Lemma ck_bytes_length (rm : RemoteManager) (m : mem) (c : ReadChunk) :
  chunk_ok rm m c -> Z.of_nat (length (ck_bytes m c)) = ck_len c.
Proof.
  intros [_ H]. unfold ck_bytes, ck_len. destruct (ck_src c) as [off ptr len pin|bytes]; [|done].
  rewrite read_bytes_length. lia.
Qed.

Lemma unread_length (rm : RemoteManager) (m : mem) (c : ReadChunk) :
  chunk_ok rm m c -> Z.of_nat (length (unread m c)) = remaining c.
Proof.
  intros Hc. pose proof (ck_bytes_length rm m c Hc). destruct Hc as [? _]. unfold unread, remaining.
  rewrite length_drop. lia.
Qed.

Lemma block_ok_frame (rm rm' : RemoteManager) (m m' : mem) (off : Z) :
  same_rm rm rm' -> rq_frame rm m m' -> block_ok rm m off -> block_ok rm' m' off.
Proof.
  intros (Ed & Es & _) Hf [Hr Hs]. unfold block_ok. rewrite Ed. split.
  - unfold off_range in *. by rewrite Es.
  - rewrite <- Hs at 2. apply off_range_spec in Hr. unfold get_offset, load_i64. f_equal.
    apply load_ext. intros x Hx. apply Hf. simpl in Hx. lia.
Qed.

Lemma chunk_ok_frame (rm rm' : RemoteManager) (m m' : mem) (c : ReadChunk) :
  same_rm rm rm' -> rq_frame rm m m' -> chunk_ok rm m c ->
  chunk_ok rm' m' c /\ unread m' c = unread m c.
Proof.
  intros Hsm Hf [Hp Hs]. unfold chunk_ok, unread, ck_bytes. pose proof Hsm as (Ed & Es & _).
  destruct (ck_src c) as [off ptr len pin|bytes]; [|done]. destruct Hs as (Hb & -> & Hl & He).
  split.
  - split; [done|]. split; [by apply (block_ok_frame rm rm' m m')|]. rewrite Ed, Es. done.
  - destruct Hb as [Hr _]. apply off_range_spec in Hr. f_equal. apply read_bytes_ext. intros x Hx.
    apply Hf. lia.
Qed.

Lemma content_frame (rm rm' : RemoteManager) (m m' : mem) (cs : list ReadChunk) :
  same_rm rm rm' -> rq_frame rm m m' -> Forall (chunk_ok rm m) cs ->
  Forall (chunk_ok rm' m') cs /\ content m' cs = content m cs.
Proof.
  intros Hsm Hf. unfold content. induction 1 as [|c cs Hc _ [IH1 IH2]]; [done|].
  destruct (chunk_ok_frame rm rm' m m' c Hsm Hf Hc) as [H1 H2].
  split; [by constructor|]. rewrite !fmap_cons. cbn [concat]. by rewrite H2, IH2.
Qed.

(** ** Pins *)

Definition chunk_pins (cs : list ReadChunk) : list nat := omap ck_pin cs.

(** The unpinned blocks of the chunks. *)
Definition unpinned (cs : list ReadChunk) : list Z :=
  omap (fun c => match ck_src c with SrcShm off _ _ None => Some off | _ => None end) cs.

Definition pinned (pins : gmap nat (Z * nat)) : list Z := (fun e : nat * (Z * nat) => e.2.1) <$> map_to_list pins.

Record pins_ok (rm : RemoteManager) (m : mem) (pins : gmap nat (Z * nat)) (fresh : nat) (holders : list nat)
    : Prop := {
  po_count : forall id o k, pins !! id = Some (o, k) ->
    k = count_occ Nat.eq_dec holders id /\ (0 < k)%nat /\ block_ok rm m o /\ (id < fresh)%nat;
  po_held : forall id, In id holders -> is_Some (pins !! id);
}.

Lemma pins_ok_perm (rm : RemoteManager) (m : mem) (pins : gmap nat (Z * nat)) (fresh : nat) (h h' : list nat) :
  pins_ok rm m pins fresh h -> h ≡ₚ h' -> pins_ok rm m pins fresh h'.
Proof.
  intros [H1 H2] Hp. split.
  - intros id o k Hid. destruct (H1 id o k Hid) as (-> & ? & ? & ?).
    rewrite (Permutation_count_occ Nat.eq_dec h h') in Hp. rewrite <- Hp. done.
  - intros id Hin. apply H2. by apply (Permutation_in id (Permutation_sym Hp)).
Qed.

Lemma pins_ok_frame (rm rm' : RemoteManager) (m m' : mem) (pins : gmap nat (Z * nat)) (fresh : nat) (h : list nat) :
  same_rm rm rm' -> rq_frame rm m m' -> pins_ok rm m pins fresh h -> pins_ok rm' m' pins fresh h.
Proof.
  intros Hsm Hf [H1 H2]. split; [|done]. intros id o k Hid. destruct (H1 id o k Hid) as (-> & ? & ? & ?).
  split; [done|]. split; [done|]. split; [|done]. by apply (block_ok_frame rm rm' m m').
Qed.

Lemma pinned_insert_new (pins : gmap nat (Z * nat)) (id : nat) (o : Z) (k : nat) :
  pins !! id = None -> pinned (<[id := (o, k)]> pins) ≡ₚ o :: pinned pins.
Proof.
  intros Hn. unfold pinned. by rewrite map_to_list_insert.
Qed.

Lemma pinned_update (pins : gmap nat (Z * nat)) (id : nat) (o : Z) (k k' : nat) :
  pins !! id = Some (o, k) -> pinned (<[id := (o, k')]> pins) ≡ₚ pinned pins.
Proof.
  intros Hid. rewrite <- (insert_delete_id pins id (o, k) Hid) at 2. rewrite <- insert_delete_eq.
  rewrite !pinned_insert_new by (by rewrite lookup_delete_eq). done.
Qed.

Lemma pinned_delete (pins : gmap nat (Z * nat)) (id : nat) (o : Z) (k : nat) :
  pins !! id = Some (o, k) -> pinned pins ≡ₚ o :: pinned (delete id pins).
Proof.
  intros Hid. rewrite <- (insert_delete_id pins id (o, k) Hid) at 1.
  by rewrite pinned_insert_new by (by rewrite lookup_delete_eq).
Qed.

(** ** The invariant *)

(** [L] lists the pins held by borrowed values the caller still has. *)
Record rb_ok (rb : V5ReadBuffer) (rm : RemoteManager) (m : mem) (vals : list Z) (L : list nat) : Prop := {
  ko_rm : rm_ok rm m vals;
  ko_open : rm_closed rm = false;
  ko_chunks : Forall (chunk_ok rm m) (rb_ready rb);
  ko_pins : pins_ok rm m (rb_pins rb) (rb_fresh rb) (L ++ chunk_pins (rb_ready rb));
  ko_src : forall c off ptr len id, In c (rb_ready rb) -> ck_src c = SrcShm off ptr len (Some id) ->
    exists k, rb_pins rb !! id = Some (off, k);
  ko_room : spent rm m + Z.of_nat (length (unpinned (rb_ready rb) ++ pinned (rb_pins rb))) < POS_MAX;
}.

Definition held (rb : V5ReadBuffer) : list Z := unpinned (rb_ready rb) ++ pinned (rb_pins rb).

(** Every block handed to the reader, wherever it is. *)
Definition ledger (rb : V5ReadBuffer) (rm : RemoteManager) (vals : list Z) : list Z :=
  vals ++ rm_pending rm ++ held rb.

Definition len_ok (rb : V5ReadBuffer) (m : mem) : Prop := rb_len rb = Z.of_nat (length (content m (rb_ready rb))).

(** What a step of the reader leaves behind: the invariant, every block accounted
    for, and memory touched in the release queue only. *)
Definition settles (rb : V5ReadBuffer) (rm : RemoteManager) (m : mem) (vals : list Z)
    (rb' : V5ReadBuffer) (rm' : RemoteManager) (m' : mem) (vals' : list Z) : Prop :=
  ledger rb' rm' vals' ≡ₚ ledger rb rm vals /\ same_rm rm rm' /\ rq_frame rm m m'.

Lemma settles_refl (rb : V5ReadBuffer) (rm : RemoteManager) (m : mem) (vals : list Z) :
  settles rb rm m vals rb rm m vals.
Proof. split; [done|]. split; [done|]. apply mem_frame_refl. Qed.

Lemma settles_trans (rb1 rb2 rb3 : V5ReadBuffer) (rm1 rm2 rm3 : RemoteManager) (m1 m2 m3 : mem)
    (v1 v2 v3 : list Z) :
  settles rb1 rm1 m1 v1 rb2 rm2 m2 v2 -> settles rb2 rm2 m2 v2 rb3 rm3 m3 v3 ->
  settles rb1 rm1 m1 v1 rb3 rm3 m3 v3.
Proof.
  intros (L1 & S1 & F1) (L2 & S2 & F2). split; [by rewrite L2|]. split; [by apply (same_rm_trans rm1 rm2)|].
  unfold rq_frame in *. destruct S1 as (Ed & _). rewrite Ed in F2. by apply (mem_frame_trans _ _ m1 m2).
Qed.

Lemma count_occ_cons_perm (id : nat) (L1 L2 : list nat) : L1 ++ id :: L2 ≡ₚ id :: L1 ++ L2.
Proof. symmetry. apply Permutation_middle. Qed.

(** One holder of a pin goes: the count drops, and the last one releases the block. *)
Lemma drop_pin_spec (rb : V5ReadBuffer) (rm : RemoteManager) (m : mem) (vals : list Z) (L1 L2 : list nat)
    (id : nat) :
  rb_ok rb rm m vals (L1 ++ id :: L2) ->
  exists rb' rm' m' vals', drop_pin rb rm m id = Some (rb', rm', m') /\
    rb_ok rb' rm' m' vals' (L1 ++ L2) /\ rb_ready rb' = rb_ready rb /\ rb_len rb' = rb_len rb /\
    settles rb rm m vals rb' rm' m' vals'.
Proof.
  intros [Hrm Hc Hck Hpins Hsrc Hroom]. set (cp := chunk_pins (rb_ready rb)) in *.
  assert (Hperm : (L1 ++ id :: L2) ++ cp ≡ₚ id :: (L1 ++ L2) ++ cp) by (by rewrite count_occ_cons_perm).
  apply (pins_ok_perm _ _ _ _ _ _ Hpins) in Hperm as Hp'. destruct Hp' as [Hcnt Hheld].
  destruct (Hheld id (or_introl eq_refl)) as [[o k] Hid].
  destruct (Hcnt id o k Hid) as (Ek & Hpos & Hb & Hfr). cbn [count_occ] in Ek.
  destruct (Nat.eq_dec id id) as [_|]; [|done]. unfold drop_pin. rewrite Hid.
  destruct k as [|[|k]]; [lia| |].
  - assert (Hz : count_occ Nat.eq_dec ((L1 ++ L2) ++ cp) id = 0%nat) by lia.
    pose proof (pinned_delete _ _ _ _ Hid) as Hdel.
    destruct (rm_free_spec rm m vals o Hrm Hc Hb) as (res & rm' & m' & vals' & -> & Hrm' & Hcons & Hsm & Hf & Esp).
    { rewrite length_app, Hdel in Hroom. cbn in Hroom. lia. }
    cbn [mbind option_bind]. eexists _, rm', m', vals'. split; [done|].
    assert (Hled : ledger (mkRB (rb_ready rb) (rb_len rb) (delete id (rb_pins rb)) (rb_fresh rb)) rm' vals'
                   ≡ₚ ledger rb rm vals).
    { unfold ledger, held. cbn. rewrite Hdel, app_assoc, Hcons, <- !app_assoc. do 2 f_equiv. cbn.
      apply Permutation_middle. }
    split; [|split; [done|split; [done|by split]]]. destruct (content_frame rm rm' m m' _ Hsm Hf Hck) as [Hck' _].
    split; cbn [rb_ready rb_pins rb_fresh]; try done.
    + destruct Hsm as (_ & _ & E & _). by rewrite E.
    + apply (pins_ok_frame rm rm' m m'); [done|done|]. split.
      * intros id' o' k' Hid'. apply lookup_delete_Some in Hid' as [Hne Hid'].
        destruct (Hcnt id' o' k' Hid') as (Ek' & ? & ? & ?). cbn [count_occ] in Ek'.
        destruct (Nat.eq_dec id id'); [congruence|done].
      * intros id' Hin. assert (id <> id') by (intros <-; by apply count_occ_not_In in Hz).
        rewrite lookup_delete_ne by done. apply Hheld. by right.
    + intros c off ptr len id' Hin Hs. destruct (Hsrc c off ptr len id' Hin Hs) as [k' Hk'].
      assert (id <> id').
      { intros <-. apply count_occ_not_In in Hz. apply Hz, in_app_iff. right. unfold cp, chunk_pins.
        apply list_elem_of_In, list_elem_of_omap. exists c. split; [by apply list_elem_of_In|].
        unfold ck_pin. by rewrite Hs. }
      exists k'. by rewrite lookup_delete_ne.
    + rewrite Esp. rewrite length_app, Hdel in Hroom. rewrite length_app. cbn in Hroom. lia.
  - eexists _, rm, m, vals. split; [done|].
    assert (Hled : ledger (mkRB (rb_ready rb) (rb_len rb) (<[id := (o, S k)]> (rb_pins rb)) (rb_fresh rb)) rm vals
                   ≡ₚ ledger rb rm vals).
    { unfold ledger, held. cbn. by rewrite (pinned_update _ id o (S (S k))). }
    split; [|split; [done|split; [done|split; [done|split; [done|apply mem_frame_refl]]]]].
    split; cbn [rb_ready rb_pins rb_fresh]; try done.
    + split.
      * intros id' o' k' Hid'. destruct (decide (id = id')) as [<-|Hne].
        -- rewrite lookup_insert_eq in Hid'. injection Hid' as <- <-. split; [by injection Ek|]. split; [lia|done].
        -- rewrite lookup_insert_ne in Hid' by done. destruct (Hcnt id' o' k' Hid') as (Ek' & ? & ? & ?).
           cbn [count_occ] in Ek'. destruct (Nat.eq_dec id id'); [congruence|done].
      * intros id' Hin. destruct (decide (id = id')) as [<-|Hne]; [by rewrite lookup_insert_eq|].
        rewrite lookup_insert_ne by done. apply Hheld. by right.
    + intros c off ptr len id' Hin Hs. destruct (Hsrc c off ptr len id' Hin Hs) as [k' Hk'].
      destruct (decide (id = id')) as [<-|Hne].
      * rewrite Hid in Hk'. injection Hk' as <- _. eexists. by rewrite lookup_insert_eq.
      * exists k'. by rewrite lookup_insert_ne.
    + unfold spent in *. rewrite length_app in *. by rewrite (pinned_update _ id o (S (S k))).
Qed.

(** A chunk leaves the list. *)
Lemma chunk_release_spec (rb : V5ReadBuffer) (rm : RemoteManager) (m : mem) (vals : list Z) (L : list nat)
    (c : ReadChunk) (rest : list ReadChunk) (n : Z) :
  rb_ok rb rm m vals L -> rb_ready rb = c :: rest ->
  exists rb' rm' m' vals', release (with_ready rb rest n) rm m c = Some (rb', rm', m') /\
    rb_ok rb' rm' m' vals' L /\ rb_ready rb' = rest /\ rb_len rb' = n /\
    settles rb rm m vals rb' rm' m' vals'.
Proof.
  intros [Hrm Hc Hck Hpins Hsrc Hroom] Er. unfold release. rewrite Er in *.
  apply Forall_cons in Hck as [Hcc Hck].
  assert (Hsrc' : forall c0 off ptr len id, In c0 rest -> ck_src c0 = SrcShm off ptr len (Some id) ->
    exists k, rb_pins rb !! id = Some (off, k)) by (intros; eapply Hsrc; [right|]; eauto).
  destruct (ck_src c) as [off ptr len pin|bytes] eqn:Es.
  2:{ eexists _, rm, m, vals. split; [done|].
      split; [split; cbn in *; unfold chunk_pins, ck_pin in Hpins; cbn in Hpins; rewrite Es in *; done|]. split; [done|]. split; [done|]. split; [|split; [done|apply mem_frame_refl]].
      unfold ledger, held. cbn. by rewrite Er; cbn; rewrite Es. }
  destruct pin as [id|].
  - assert (Hok' : rb_ok (with_ready rb rest n) rm m vals ([] ++ id :: L)).
    { split; cbn; try done.
      - apply (pins_ok_perm _ _ _ _ _ _ Hpins). cbn. unfold chunk_pins, ck_pin. cbn. rewrite Es.
        symmetry. apply Permutation_middle.
      - cbn in Hroom. rewrite Es in Hroom. done. }
    destruct (drop_pin_spec _ rm m vals [] L id Hok') as (rb' & rm' & m' & vals' & E & Hok2 & H1 & H2 & Hset).
    exists rb', rm', m', vals'. split; [done|]. split; [done|]. split; [done|]. split; [done|].
    destruct Hset as (Hl & Hs & Hf). split; [|done]. rewrite Hl. unfold ledger, held. cbn.
    by rewrite Er; cbn; rewrite Es.
  - destruct Hcc as [_ Hcc]. rewrite Es in Hcc. destruct Hcc as (Hb & _).
    assert (Eu : unpinned (c :: rest) = off :: unpinned rest) by (cbn; by rewrite Es).
    rewrite Eu in Hroom. cbn [length app] in Hroom. rewrite length_app in Hroom.
    destruct (rm_free_spec rm m vals off Hrm Hc Hb) as (res & rm' & m' & vals' & -> & Hrm' & Hcons & Hsm & Hf & Esp); [lia|].
    cbn [mbind option_bind]. eexists _, rm', m', vals'. split; [done|].
    destruct (content_frame rm rm' m m' _ Hsm Hf Hck) as [Hck' _].
    split; [|split; [done|split; [done|split; [|done]]]].
    + split; cbn [with_ready rb_ready rb_pins rb_fresh]; try done.
      * destruct Hsm as (_ & _ & E & _). by rewrite E.
      * apply (pins_ok_frame rm rm' m m'); [done|done|]. unfold chunk_pins, ck_pin in Hpins.
        cbn in Hpins. by rewrite Es in Hpins.
      * rewrite length_app, Esp. lia.
    + unfold ledger, held. rewrite Er, Eu. cbn [rb_ready with_ready rb_pins].
      rewrite app_assoc, Hcons, <- !app_assoc. done.
Qed.

(** ** Consuming *)

Lemma content_cons (m : mem) (c : ReadChunk) (cs : list ReadChunk) :
  content m (c :: cs) = unread m c ++ content m cs.
Proof. done. Qed.

Lemma advance_ok (rb : V5ReadBuffer) (rm : RemoteManager) (m : mem) (vals : list Z) (L : list nat)
    (c : ReadChunk) (rest : list ReadChunk) (n k : Z) :
  rb_ok rb rm m vals L -> rb_ready rb = c :: rest -> 0 <= n <= remaining c ->
  let c' := mkChunk (ck_src c) (ck_pos c + n) in
  rb_ok (with_ready rb (c' :: rest) k) rm m vals L /\
  held (with_ready rb (c' :: rest) k) = held rb /\
  unread m c' = drop (Z.to_nat n) (unread m c).
Proof.
  intros [Hrm Hc Hck Hpins Hsrc Hroom] Er Hn c'. rewrite Er in *. unfold remaining in Hn.
  split; [|split].
  - split; cbn [with_ready rb_ready rb_pins rb_fresh]; try done.
    + apply Forall_cons in Hck as [[Hp Hs] Hck]. constructor; [|done]. split; [|done].
      unfold ck_len in *. cbn. lia.
    + intros c0 off ptr len id [<- | Hin] Hs; eapply Hsrc; [by left|exact Hs|by right|exact Hs].
  - unfold held. rewrite Er. done.
  - unfold unread, ck_bytes. cbn. rewrite drop_drop. f_equal.
    apply Forall_cons in Hck as [[Hp Hs] Hck]. lia.
Qed.

Lemma advance_spec (rb : V5ReadBuffer) (rm : RemoteManager) (m : mem) (vals : list Z) (L : list nat)
    (c : ReadChunk) (rest : list ReadChunk) (n : Z) :
  rb_ok rb rm m vals L -> rb_ready rb = c :: rest -> 0 <= n <= remaining c ->
  exists rb' rm' m' vals',
    pop_if_spent (with_ready rb (mkChunk (ck_src c) (ck_pos c + n) :: rest) (rb_len rb - n)) rm m
      = Some (rb', rm', m') /\
    rb_ok rb' rm' m' vals' L /\ settles rb rm m vals rb' rm' m' vals' /\
    content m' (rb_ready rb') = drop (Z.to_nat n) (content m (rb_ready rb)) /\
    rb_len rb' = rb_len rb - n /\ (n = remaining c -> rb_ready rb' = rest).
Proof.
  intros Hok Er Hn.
  destruct (advance_ok rb rm m vals L c rest n (rb_len rb - n) Hok Er Hn) as (Hok1 & Hh & Hu).
  set (c' := mkChunk (ck_src c) (ck_pos c + n)) in *.
  set (rb1 := with_ready rb (c' :: rest) (rb_len rb - n)) in *.
  pose proof (ko_chunks _ _ _ _ _ Hok) as Hck. rewrite Er in Hck. apply Forall_cons in Hck as [Hcc Hck].
  pose proof (unread_length rm m c Hcc) as Hul.
  assert (Hrem : remaining c' = remaining c - n) by (unfold c', remaining, ck_len; cbn; lia).
  assert (Hcont : content m (c' :: rest) = drop (Z.to_nat n) (content m (rb_ready rb))).
  { rewrite Er, !content_cons, Hu, drop_app_le by lia. done. }
  unfold pop_if_spent. cbn [rb1 with_ready rb_ready]. fold c'. rewrite Hrem.
  destruct (Z.eqb_spec (remaining c - n) 0) as [E|E].
  - destruct (chunk_release_spec rb1 rm m vals L c' rest (rb_len rb - n) Hok1 eq_refl)
      as (rb' & rm' & m' & vals' & E1 & Hok' & H1 & H2 & Hset).
    exists rb', rm', m', vals'. split; [exact E1|]. split; [done|].
    assert (Hset' : settles rb rm m vals rb' rm' m' vals').
    { destruct Hset as (Hl & ? & ?). split; [|done]. rewrite Hl. unfold ledger. by rewrite Hh. }
    split; [done|]. split; [|split; [done|by intros _]].
    rewrite H1, <- Hcont, content_cons.
    pose proof (ko_chunks _ _ _ _ _ Hok1) as Hck1. apply Forall_cons in Hck1 as [Hcc1 _].
    pose proof (unread_length rm m c' Hcc1) as Hz. rewrite Hrem, E in Hz.
    destruct (unread m c'); [|cbn in Hz; lia]. cbn. destruct Hset as (_ & Hsm & Hf).
    by apply (content_frame rm rm' m m').
  - exists rb1, rm, m, vals. split; [done|]. split; [done|]. split.
    { split; [|split; [done|apply mem_frame_refl]]. unfold ledger. by rewrite Hh. }
    split; [done|]. split; [done|]. lia.
Qed.

Lemma take_loop_spec (fuel : nat) (size : Z) (rb : V5ReadBuffer) (rm : RemoteManager) (m : mem)
    (vals : list Z) (L : list nat) :
  rb_ok rb rm m vals L -> len_ok rb m -> (length (rb_ready rb) < fuel)%nat ->
  let k := Z.to_nat size in
  exists rb' rm' m' vals',
    take_loop fuel size rb rm m = Some (take k (content m (rb_ready rb)), rb', rm', m') /\
    rb_ok rb' rm' m' vals' L /\ len_ok rb' m' /\ settles rb rm m vals rb' rm' m' vals' /\
    content m' (rb_ready rb') = drop k (content m (rb_ready rb)).
Proof.
  revert size rb rm m vals. induction fuel as [|fuel IH]; intros size rb rm m vals Hok Hlen Hf k; [lia|].
  cbn [take_loop]. destruct (Z.leb_spec size 0) as [Hs|Hs].
  { exists rb, rm, m, vals. replace k with 0%nat by lia. split; [done|]. split; [done|]. split; [done|].
    split; [apply settles_refl|]. by rewrite drop_0. }
  destruct (rb_ready rb) as [|c rest] eqn:Er.
  { exists rb, rm, m, vals. cbn [content fmap list_fmap concat]. rewrite take_nil, drop_nil, Er. split; [done|].
    split; [done|]. split; [done|]. split; [apply settles_refl|done]. }
  pose proof (ko_chunks _ _ _ _ _ Hok) as Hck. rewrite Er in Hck. apply Forall_cons in Hck as [Hcc Hck].
  pose proof (unread_length rm m c Hcc) as Hul. set (n := Z.min (remaining c) size).
  destruct (advance_spec rb rm m vals L c rest n Hok Er ltac:(lia))
    as (rb1 & rm1 & m1 & vals1 & E1 & Hok1 & Hset1 & Hc1 & Hl1 & Hpop).
  rewrite E1. cbn [mbind option_bind].
  assert (Hlen1 : len_ok rb1 m1).
  { unfold len_ok in *. rewrite Hl1, Hc1, length_drop, Hlen. rewrite Er, content_cons, length_app in *. lia. }
  assert (Hgot : take (Z.to_nat n) (unread m c) = take (Z.to_nat n) (content m (c :: rest))).
  { rewrite content_cons, take_app_le by lia. done. }
  assert (Hsplit : forall X : list Z, take k X = take (Z.to_nat n) X ++ take (Z.to_nat (size - n)) (drop (Z.to_nat n) X)).
  { intros X. replace k with (Z.to_nat n + Z.to_nat (size - n))%nat by lia. symmetry. apply take_take_drop. }
  assert (Hdrop : forall X : list Z, drop (Z.to_nat (size - n)) (drop (Z.to_nat n) X) = drop k X).
  { intros X. rewrite drop_drop. f_equal. lia. }
  assert (Hrec : exists rb' rm' m' vals',
    take_loop fuel (size - n) rb1 rm1 m1
      = Some (take (Z.to_nat (size - n)) (content m1 (rb_ready rb1)), rb', rm', m') /\
    rb_ok rb' rm' m' vals' L /\ len_ok rb' m' /\ settles rb1 rm1 m1 vals1 rb' rm' m' vals' /\
    content m' (rb_ready rb') = drop (Z.to_nat (size - n)) (content m1 (rb_ready rb1))).
  { destruct (Z_le_gt_dec size (remaining c)) as [Hle|Hgt].
    - replace (size - n) with 0 by lia. exists rb1, rm1, m1, vals1. cbn [Z.to_nat take drop].
      split; [by destruct fuel|]. split; [done|]. split; [done|]. split; [apply settles_refl|done].
    - apply IH; [done|done|]. rewrite Hpop by lia. cbn in Hf. lia. }
  destruct Hrec as (rb' & rm' & m' & vals' & -> & Hok' & Hlen' & Hset' & Hc').
  cbn [mbind option_bind]. exists rb', rm', m', vals'.
  rewrite Hc1 in *. rewrite Er in *. unfold unread in Hgot. rewrite Hgot, <- Hsplit. split; [done|].
  split; [done|]. split; [done|]. split; [by apply (settles_trans rb rb1 rb' rm rm1 rm' m m1 m' vals vals1)|].
  rewrite Hc'. apply Hdrop.
Qed.

(** ** Borrowing *)

Definition lease_of (b : Buf) : list nat := match b with BufShm _ _ id => [id] | BufExm _ => [] end.

(** The bytes of a borrowed value lie in the segment past the release queue. *)
Definition buf_ok (rm : RemoteManager) (b : Buf) : Prop :=
  match b with
  | BufShm ptr size _ => rm_data rm + RQ_SIZE <= ptr /\ ptr + size <= rm_data rm + rm_size rm
  | BufExm _ => True
  end.

Lemma buf_bytes_frame (rm : RemoteManager) (m m' : mem) (b : Buf) :
  rq_frame rm m m' -> buf_ok rm b -> buf_bytes m' b = buf_bytes m b.
Proof.
  intros Hf Hb. destruct b as [ptr size id|]; [|done]. cbn in *. apply read_bytes_ext. intros x Hx. apply Hf. lia.
Qed.

Lemma read_bytes_take_drop (m : mem) (p : Z) (n a k : nat) :
  (a + k <= n)%nat -> take k (drop a (read_bytes m p n)) = read_bytes m (p + Z.of_nat a) k.
Proof.
  intros H. replace n with (a + (k + (n - a - k)))%nat by lia. rewrite read_bytes_app.
  rewrite drop_app_length' by (by rewrite read_bytes_length). rewrite read_bytes_app.
  by rewrite take_app_length' by (by rewrite read_bytes_length).
Qed.

Lemma lease_new (rb : V5ReadBuffer) (rm : RemoteManager) (m : mem) (vals : list Z) (L : list nat)
    (c : ReadChunk) (rest : list ReadChunk) (off ptr len : Z) :
  rb_ok rb rm m vals L -> rb_ready rb = c :: rest -> ck_src c = SrcShm off ptr len None ->
  let id := rb_fresh rb in
  let rb1 := mkRB (mkChunk (SrcShm off ptr len (Some id)) (ck_pos c) :: rest) (rb_len rb)
                  (<[id := (off, 2%nat)]> (rb_pins rb)) (S id) in
  rb_ok rb1 rm m vals (id :: L) /\ held rb1 ≡ₚ held rb.
Proof.
  intros [Hrm Hc Hck Hpins Hsrc Hroom] Er Es id rb1. rewrite Er in *.
  apply Forall_cons in Hck as [[Hp Hcc] Hck]. rewrite Es in Hcc. pose proof Hpins as [Hcnt Hheld].
  assert (Hnone : rb_pins rb !! id = None).
  { destruct (rb_pins rb !! id) as [[o k]|] eqn:E; [|done]. destruct (Hcnt id o k E) as (_ & _ & _ & ?).
    unfold id in *. lia. }
  assert (Ecp : chunk_pins (c :: rest) = chunk_pins rest) by (unfold chunk_pins, ck_pin; cbn; by rewrite Es).
  rewrite Ecp in *. assert (Hni : ~ In id (L ++ chunk_pins rest)).
  { intros Hin. destruct (Hheld id Hin) as [? E]. congruence. }
  assert (Hheq : held rb1 ≡ₚ held rb).
  { unfold held. rewrite Er. cbn [rb1 rb_ready rb_pins]. unfold unpinned. cbn. rewrite Es.
    rewrite pinned_insert_new by done. cbn. symmetry. apply Permutation_middle. }
  split; [|done].
  assert (Hperm : (id :: L) ++ (id :: chunk_pins rest) ≡ₚ id :: id :: (L ++ chunk_pins rest)).
  { cbn. f_equiv. symmetry. apply Permutation_middle. }
  split; try done.
  - constructor; [|done]. split; [|done]. unfold ck_len in *. cbn. by rewrite Es in Hp.
  - apply (pins_ok_perm _ _ _ _ (id :: id :: (L ++ chunk_pins rest))); [|by symmetry]. split.
    + intros id' o k Hid'. cbn [rb1 rb_pins rb_fresh] in *. cbn [count_occ]. destruct (Nat.eq_dec id id') as [<-|Hne].
      * rewrite lookup_insert_eq in Hid'. injection Hid' as <- <-.
        rewrite (proj1 (count_occ_not_In Nat.eq_dec _ _) Hni). split; [done|]. split; [lia|].
        split; [by destruct Hcc|lia].
      * rewrite lookup_insert_ne in Hid' by done. destruct (Hcnt id' o k Hid') as (-> & ? & ? & ?).
        split; [done|]. split; [done|]. split; [done|]. unfold id. lia.
    + intros id' Hin. cbn [rb1 rb_pins]. destruct (decide (id = id')) as [<-|Hne]; [by rewrite lookup_insert_eq|].
      rewrite lookup_insert_ne by done. apply Hheld. destruct Hin as [?|[?|?]]; done.
  - cbn [rb1 rb_ready rb_pins]. intros c0 off0 ptr0 len0 id0 [<- | Hin] Hs.
    + cbn in Hs. injection Hs as <- <- <- <-. eexists. by rewrite lookup_insert_eq.
    + destruct (Hsrc c0 off0 ptr0 len0 id0 (or_intror Hin) Hs) as [k Hk]. exists k.
      rewrite lookup_insert_ne; [done|]. congruence.
  - change (unpinned (rb_ready rb1) ++ pinned (rb_pins rb1)) with (held rb1). rewrite Hheq. unfold held.
    by rewrite Er.
Qed.

Lemma lease_more (rb : V5ReadBuffer) (rm : RemoteManager) (m : mem) (vals : list Z) (L : list nat)
    (off : Z) (id k : nat) :
  rb_ok rb rm m vals L -> rb_pins rb !! id = Some (off, k) ->
  let rb1 := mkRB (rb_ready rb) (rb_len rb) (<[id := (off, S k)]> (rb_pins rb)) (rb_fresh rb) in
  rb_ok rb1 rm m vals (id :: L) /\ held rb1 ≡ₚ held rb.
Proof.
  intros [Hrm Hc Hck Hpins Hsrc Hroom] Hid rb1. pose proof Hpins as [Hcnt Hheld].
  assert (Hheq : held rb1 ≡ₚ held rb).
  { unfold held. cbn [rb1 rb_ready rb_pins]. by rewrite (pinned_update _ id off k). }
  split; [|done]. split; try done.
  - cbn [rb1 rb_pins rb_fresh rb_ready app]. split.
    + intros id' o k' Hid'. cbn [count_occ]. destruct (Nat.eq_dec id id') as [<-|Hne].
      * rewrite lookup_insert_eq in Hid'. injection Hid' as <- <-. destruct (Hcnt id off k Hid) as (-> & ? & ? & ?).
        split; [done|]. split; [lia|done].
      * rewrite lookup_insert_ne in Hid' by done. by apply Hcnt.
    + intros id' Hin. destruct (decide (id = id')) as [<-|Hne]; [by rewrite lookup_insert_eq|].
      rewrite lookup_insert_ne by done. apply Hheld. by destruct Hin.
  - cbn [rb1 rb_ready rb_pins]. intros c0 off0 ptr0 len0 id0 Hin Hs.
    destruct (Hsrc c0 off0 ptr0 len0 id0 Hin Hs) as [k0 Hk0]. destruct (decide (id = id0)) as [<-|Hne].
    + rewrite Hid in Hk0. injection Hk0 as <- _. eexists. by rewrite lookup_insert_eq.
    + exists k0. by rewrite lookup_insert_ne.
  - change (unpinned (rb_ready rb1) ++ pinned (rb_pins rb1)) with (held rb1). by rewrite Hheq.
Qed.

Lemma front_buf_spec (rb : V5ReadBuffer) (rm : RemoteManager) (m : mem) (vals : list Z) (L : list nat)
    (c : ReadChunk) (rest : list ReadChunk) (size : Z) :
  rb_ok rb rm m vals L -> rb_ready rb = c :: rest -> 0 < size <= remaining c ->
  exists buf rb1 c1, front_buf rb c rest size = Some (buf, rb1) /\
    rb_ok rb1 rm m vals (lease_of buf ++ L) /\ held rb1 ≡ₚ held rb /\ rb_len rb1 = rb_len rb /\
    rb_ready rb1 = c1 :: rest /\ remaining c1 = remaining c /\ unread m c1 = unread m c /\
    buf_bytes m buf = take (Z.to_nat size) (unread m c) /\ buf_ok rm buf.
Proof.
  intros Hok Er Hsz. pose proof (ko_chunks _ _ _ _ _ Hok) as Hck. rewrite Er in Hck.
  apply Forall_cons in Hck as [[Hp Hcc] Hck]. unfold front_buf, shm_lease.
  destruct (ck_src c) as [off ptr len [id|]|bytes] eqn:Es.
  - destruct (ko_src _ _ _ _ _ Hok c off ptr len id) as [k Hk]; [rewrite Er; by left|done|].
    rewrite Hk. cbn [mbind option_bind]. destruct (lease_more rb rm m vals L off id k Hok Hk) as [Hok1 Hh].
    rewrite <- Er. eexists _, _, c. split; [done|]. split; [exact Hok1|]. split; [exact Hh|]. split; [done|].
    split; [done|]. split; [done|]. split; [done|]. destruct Hcc as ((Hr & _) & -> & Hl & He).
    apply off_range_spec in Hr. unfold remaining, ck_len in *. rewrite Es in *. cbn [buf_bytes buf_ok].
    split; [|lia]. unfold unread, ck_bytes. rewrite Es, read_bytes_take_drop by lia. f_equal. lia.
  - destruct (lease_new rb rm m vals L c rest off ptr len Hok Er Es) as [Hok1 Hh]. cbn [mbind option_bind].
    eexists _, _, (mkChunk (SrcShm off ptr len (Some (rb_fresh rb))) (ck_pos c)). split; [done|].
    split; [exact Hok1|]. split; [exact Hh|]. split; [done|]. split; [done|].
    destruct Hcc as ((Hr & _) & -> & Hl & He). apply off_range_spec in Hr.
    unfold remaining, ck_len, unread, ck_bytes in *. rewrite Es in *. cbn [ck_src ck_pos buf_bytes buf_ok].
    split; [done|]. split; [done|]. split; [|lia]. rewrite read_bytes_take_drop by lia. f_equal. lia.
  - eexists _, rb, c. split; [done|]. split; [done|]. split; [done|]. split; [done|]. split; [done|].
    split; [done|]. split; [done|]. unfold unread, ck_bytes. by rewrite Es.
Qed.
