(* ===== verification/ReadBufSpec.v ===== *)
(** * The reader's operations against the bytes it holds *)

From Stdlib Require Import ZArith Lia Permutation.
From stdpp Require Import base numbers list gmap.
From S2P Require Import Prelude Header BufHeader Region RegionFacts Mpsc MpscFacts MpscSeq LocalManager.
From S2P Require Import LocalManagerFacts LocalManagerSpec LocalManagerExec RemoteManager RemoteManagerFacts.
From S2P Require Import WriteBuf WriteBufFacts ReadBuf ReadBufFacts.

#[local] Open Scope Z_scope.

Lemma content_length_ge (rb : V5ReadBuffer) (m : mem) (size : Z) :
  len_ok rb m -> size <= rb_len rb -> (Z.to_nat size <= length (content m (rb_ready rb)))%nat.
Proof. unfold len_ok. lia. Qed.

Lemma read_exact_spec (rb : V5ReadBuffer) (rm : RemoteManager) (m : mem) (vals : list Z) (L : list nat) (size : Z) :
  rb_ok rb rm m vals L -> len_ok rb m -> 0 <= size <= rb_len rb ->
  let k := Z.to_nat size in
  exists buf rb' rm' m' vals', read_exact_bytes rb rm m size = Some (Ok buf, rb', rm', m') /\
    rb_ok rb' rm' m' vals' (lease_of buf ++ L) /\ len_ok rb' m' /\ settles rb rm m vals rb' rm' m' vals' /\
    buf_bytes m' buf = take k (content m (rb_ready rb)) /\ buf_ok rm buf /\
    content m' (rb_ready rb') = drop k (content m (rb_ready rb)).
Proof.
  intros Hok Hlen Hsz k. unfold read_exact_bytes. destruct (Z.eqb_spec size 0) as [->|Hne].
  { exists (BufExm []), rb, rm, m, vals. split; [done|]. split; [done|]. split; [done|].
    split; [apply settles_refl|]. done. }
  rewrite (proj2 (Z.ltb_ge _ _)) by lia.
  assert (Hslow : exists buf rb' rm' m' vals',
    ('(out, rb, rm, m) ← take_loop (loop_fuel rb) size rb rm m; Some (Ok (E := BufError) (BufExm out), rb, rm, m))
      = Some (Ok buf, rb', rm', m') /\
    rb_ok rb' rm' m' vals' (lease_of buf ++ L) /\ len_ok rb' m' /\ settles rb rm m vals rb' rm' m' vals' /\
    buf_bytes m' buf = take k (content m (rb_ready rb)) /\ buf_ok rm buf /\
    content m' (rb_ready rb') = drop k (content m (rb_ready rb))).
  { destruct (take_loop_spec (loop_fuel rb) size rb rm m vals L Hok Hlen) as (rb' & rm' & m' & vals' & -> & H1 & H2 & H3 & H4);
      [unfold loop_fuel; lia|]. cbn [mbind option_bind]. eexists _, rb', rm', m', vals'. split; [done|].
    split; [done|]. split; [done|]. split; [done|]. done. }
  destruct (rb_ready rb) as [|c rest] eqn:Er; [exact Hslow|]. case_if; [|exact Hslow].
  rewrite Z.geb_leb, Z.leb_le in E. clear Hslow.
  destruct (front_buf_spec rb rm m vals L c rest size Hok Er ltac:(lia))
    as (buf & rb1 & c1 & -> & Hok1 & Hh & Hl1 & Er1 & Hrem & Hu & Hby & Hbo).
  cbn [mbind option_bind]. rewrite Er1.
  destruct (advance_spec rb1 rm m vals (lease_of buf ++ L) c1 rest size Hok1 Er1 ltac:(lia))
    as (rb' & rm' & m' & vals' & -> & Hok' & Hset & Hc & Hl & _). cbn [mbind option_bind].
  assert (Hc1 : content m (rb_ready rb1) = content m (c :: rest)) by (by rewrite Er1, !content_cons, Hu).
  exists buf, rb', rm', m', vals'. split; [done|]. split; [done|].
  pose proof (ko_chunks _ _ _ _ _ Hok) as Hck. rewrite Er in Hck. apply Forall_cons in Hck as [Hcc _].
  pose proof (unread_length rm m c Hcc) as Hul.
  split; [|split; [|split; [|split; [done|]]]].
  - unfold len_ok in *. rewrite Hl, Hc, length_drop, Hl1, Hlen, Er, Hc1.
    rewrite content_cons, length_app. lia.
  - destruct Hset as (Hled & Hsm & Hf). split; [|done]. rewrite Hled. unfold ledger. by rewrite Hh.
  - destruct Hset as (_ & _ & Hf). rewrite (buf_bytes_frame rm m m' buf Hf Hbo), Hby, content_cons.
    rewrite take_app_le by lia. done.
  - by rewrite Hc, Hc1.
Qed.

Lemma peek_loop_spec (rm : RemoteManager) (m : mem) (cs : list ReadChunk) (size : Z) :
  Forall (chunk_ok rm m) cs -> peek_loop m size cs = take (Z.to_nat size) (content m cs).
Proof.
  revert size. induction cs as [|c cs IH]; intros size Hck; cbn [peek_loop].
  - unfold content. cbn. by rewrite take_nil.
  - apply Forall_cons in Hck as [Hc Hck]. pose proof (unread_length rm m c Hc) as Hul.
    destruct (Z.leb_spec size 0) as [Hs|Hs]; [by replace (Z.to_nat size) with 0%nat by lia|].
    rewrite (IH _ Hck), content_cons. fold (unread m c).
    destruct (Z_le_gt_dec size (remaining c)) as [Hle|Hgt].
    + rewrite Z.min_r by lia. rewrite Z.sub_diag. cbn [Z.to_nat]. rewrite take_0, app_nil_r.
      by rewrite take_app_le by lia.
    + rewrite Z.min_l by lia. rewrite take_app_ge by lia. f_equal; [apply take_ge; lia|]. f_equal. lia.
Qed.

Lemma peek_spec (rb : V5ReadBuffer) (rm : RemoteManager) (m : mem) (vals : list Z) (L : list nat) (size : Z) :
  rb_ok rb rm m vals L -> len_ok rb m -> 0 <= size <= rb_len rb ->
  exists buf rb', peek rb m size = Some (Ok buf, rb') /\
    rb_ok rb' rm m vals (lease_of buf ++ L) /\ len_ok rb' m /\ held rb' ≡ₚ held rb /\
    buf_bytes m buf = take (Z.to_nat size) (content m (rb_ready rb)) /\ buf_ok rm buf /\
    content m (rb_ready rb') = content m (rb_ready rb).
Proof.
  intros Hok Hlen Hsz. unfold peek. destruct (Z.eqb_spec size 0) as [->|Hne].
  { exists (BufExm []), rb. done. }
  rewrite (proj2 (Z.ltb_ge _ _)) by lia. pose proof (ko_chunks _ _ _ _ _ Hok) as Hck.
  assert (Hslow : exists buf rb', Some (Ok (E := BufError) (BufExm (peek_loop m size (rb_ready rb))), rb) = Some (Ok buf, rb') /\
    rb_ok rb' rm m vals (lease_of buf ++ L) /\ len_ok rb' m /\ held rb' ≡ₚ held rb /\
    buf_bytes m buf = take (Z.to_nat size) (content m (rb_ready rb)) /\ buf_ok rm buf /\
    content m (rb_ready rb') = content m (rb_ready rb)).
  { eexists _, rb. split; [done|]. split; [done|]. split; [done|]. split; [done|].
    split; [by apply (peek_loop_spec rm)|done]. }
  destruct (rb_ready rb) as [|c rest] eqn:Er; [exact Hslow|]. case_if; [|exact Hslow].
  rewrite Z.geb_leb, Z.leb_le in E.
  destruct (front_buf_spec rb rm m vals L c rest size Hok Er ltac:(lia))
    as (buf & rb1 & c1 & -> & Hok1 & Hh & Hl1 & Er1 & Hrem & Hu & Hby & Hbo).
  cbn [mbind option_bind]. exists buf, rb1. split; [done|]. split; [done|].
  assert (Hc : content m (rb_ready rb1) = content m (c :: rest)) by (by rewrite Er1, !content_cons, Hu).
  split; [unfold len_ok in *; by rewrite Hl1, Hc, Hlen, Er|]. split; [done|]. split; [|done].
  apply Forall_cons in Hck as [Hcc _]. pose proof (unread_length rm m c Hcc).
  rewrite Hby, content_cons, take_app_le by lia. done.
Qed.

Lemma retry_spec (rb : V5ReadBuffer) (rm : RemoteManager) (m : mem) (vals : list Z) (L : list nat) :
  rb_ok rb rm m vals L -> len_ok rb m ->
  exists rm' m' vals', release_previous_read rb rm m = Some (rb, rm', m') /\
    rb_ok rb rm' m' vals' L /\ len_ok rb m' /\ settles rb rm m vals rb rm' m' vals' /\
    content m' (rb_ready rb) = content m (rb_ready rb).
Proof.
  intros [Hrm Hc Hck Hpins Hsrc Hroom] Hlen. unfold release_previous_read, retry_pending_releases. rewrite Hc.
  destruct (flush_releases_spec rm m vals (rm_pending rm) Hrm (mo_pending _ _ _ Hrm))
    as (res & h & m' & vals' & rest & -> & Hrm' & Hcons & _ & _ & Eh & Hf).
  { unfold spent in Hroom. lia. }
  cbn [mbind option_bind]. eexists _, m', vals'. split; [done|].
  set (rm' := with_release rm (with_cache (rm_rq rm) h) rest) in *.
  assert (Hsm : same_rm rm rm') by done.
  destruct (content_frame rm rm' m m' _ Hsm Hf Hck) as [Hck' Hcont].
  assert (Esp : spent rm' m' = spent rm m).
  { unfold spent. pose proof (rk_tail _ _ _ (mo_ring _ _ _ Hrm)) as Ht.
    pose proof (rk_tail _ _ _ (mo_ring _ _ _ Hrm')) as Ht'.
    cbn [rm' with_release rm_rq rm_pending] in *.
    change (get_tail (with_cache (rm_rq rm) h)) with (get_tail (rm_rq rm)) in *.
    change (get_head (with_cache (rm_rq rm) h)) with (get_head (rm_rq rm)) in *.
    apply (f_equal length) in Hcons. rewrite !length_app in Hcons. lia. }
  split; [|split; [unfold len_ok in *; by rewrite Hcont|split; [|done]]].
  - split; try done; [by apply (pins_ok_frame rm rm' m m')|by rewrite Esp].
  - split; [|done]. unfold ledger. cbn [rm' with_release rm_pending]. by rewrite !app_assoc, Hcons.
Qed.

(** ** Walking a chain *)

Lemma chunk_pins_app (a b : list ReadChunk) : chunk_pins (a ++ b) = chunk_pins a ++ chunk_pins b.
Proof. apply omap_app. Qed.

Lemma unpinned_app (a b : list ReadChunk) : unpinned (a ++ b) = unpinned a ++ unpinned b.
Proof. apply omap_app. Qed.

Lemma content_app (m : mem) (a b : list ReadChunk) : content m (a ++ b) = content m a ++ content m b.
Proof. unfold content. by rewrite fmap_app, concat_app. Qed.

(** A chunk joins the end of the list. *)
Lemma push_ok (rb : V5ReadBuffer) (rm : RemoteManager) (m : mem) (vals : list Z) (L : list nat) (c : ReadChunk) :
  rb_ok rb rm m vals L -> len_ok rb m -> chunk_ok rm m c -> ck_pos c = 0 -> ck_pin c = None ->
  spent rm m + Z.of_nat (length (held rb)) + 1 < POS_MAX ->
  let rb' := with_ready rb (rb_ready rb ++ [c]) (rb_len rb + ck_len c) in
  rb_ok rb' rm m vals L /\ len_ok rb' m /\ content m (rb_ready rb') = content m (rb_ready rb) ++ ck_bytes m c /\
  held rb' ≡ₚ unpinned [c] ++ held rb.
Proof.
  intros [Hrm Hc Hck Hpins Hsrc Hroom] Hlen Hcc Hp Hpin Hsp rb'.
  assert (Hu : unread m c = ck_bytes m c) by (unfold unread; by rewrite Hp).
  assert (Hcont : content m (rb_ready rb') = content m (rb_ready rb) ++ ck_bytes m c).
  { cbn [rb' with_ready rb_ready]. rewrite content_app. f_equal. unfold content. cbn. by rewrite app_nil_r. }
  assert (Hheld : held rb' ≡ₚ unpinned [c] ++ held rb).
  { unfold held. cbn [rb' with_ready rb_ready rb_pins]. rewrite unpinned_app. rewrite app_assoc. f_equiv.
    apply Permutation_app_comm. }
  split; [|split; [|split; [done|done]]].
  - split; try done.
    + cbn [rb' with_ready rb_ready]. apply Forall_app. split; [done|]. by constructor.
    + cbn [rb' with_ready rb_ready rb_pins rb_fresh]. rewrite chunk_pins_app.
      assert (E : chunk_pins [c] = []) by (unfold chunk_pins; cbn; by rewrite Hpin). by rewrite E, app_nil_r.
    + cbn [rb' with_ready rb_ready rb_pins]. intros c0 off ptr len id Hin Hs.
      apply in_app_iff in Hin as [Hin | [<- | []]]; [by eapply Hsrc|]. unfold ck_pin in Hpin. by rewrite Hs in Hpin.
    + change (unpinned (rb_ready rb') ++ pinned (rb_pins rb')) with (held rb'). rewrite Hheld, length_app.
      assert ((length (unpinned [c]) <= 1)%nat).
      { unfold unpinned. cbn. by destruct (ck_src c) as [? ? ? [?|]|?]; cbn; lia. }
      lia.
  - unfold len_ok in *. rewrite Hcont, length_app. cbn [rb' with_ready rb_len]. rewrite Hlen.
    pose proof (ck_bytes_length rm m c Hcc). lia.
Qed.

Lemma rm_read_open (rm : RemoteManager) (m : mem) (off : Z) :
  rm_closed rm = false -> rm_read rm m off = read_inner rm m off.
Proof. intros Hc. unfold rm_read. by rewrite Hc. Qed.

Lemma walk_push (rb : V5ReadBuffer) (rm : RemoteManager) (m : mem) (vals : list Z) (L : list nat)
    (off next : Z) (bytes : list Z) :
  rb_ok rb rm m vals L -> len_ok rb m -> read_inner rm m off = Some (bytes, next) ->
  spent rm m + Z.of_nat (length (held rb)) + 1 < POS_MAX ->
  let len := Z.of_nat (length bytes) in
  let rb' := with_ready rb (rb_ready rb ++ [mkChunk (SrcShm off (rm_data rm + (off + DYNSHM_BUFFER_HEADER_SIZE)) len None) 0])
                        (rb_len rb + len) in
  rb_ok rb' rm m vals L /\ len_ok rb' m /\
  content m (rb_ready rb') = content m (rb_ready rb) ++ data m (rm_data rm + off) /\
  held rb' ≡ₚ off :: held rb /\ bytes = data m (rm_data rm + off).
Proof.
  intros Hok Hlen Hr Hsp len rb'. apply read_inner_spec in Hr as (H1 & H2 & H3 & H4 & H5 & H6 & Hb).
  assert (El : len = get_len m (rm_data rm + off)).
  { unfold len. rewrite Hb. unfold data. rewrite read_bytes_length. pose proof (get_len_bound m (rm_data rm + off)). lia. }
  set (c := mkChunk (SrcShm off (rm_data rm + (off + DYNSHM_BUFFER_HEADER_SIZE)) len None) 0).
  assert (Hcc : chunk_ok rm m c).
  { split; cbn; [unfold len; lia|]. unfold block_ok, DYNSHM_BUFFER_HEADER_SIZE. repeat split; try done; unfold len; lia. }
  destruct (push_ok rb rm m vals L c Hok Hlen Hcc eq_refl eq_refl Hsp) as (P1 & P2 & P3 & P4).
  split; [exact P1|]. split; [exact P2|]. split; [|split; [exact P4|exact Hb]].
  etransitivity; [exact P3|]. f_equal. unfold ck_bytes, c. cbn [ck_src]. unfold data.
  rewrite El, Z.add_assoc. done.
Qed.

(** What a walk adds to the buffer, whatever it meets. *)
Definition walked (rb : V5ReadBuffer) (rm : RemoteManager) (m : mem) (vals : list Z) (L : list nat)
    (offs : list Z) (rb' : V5ReadBuffer) : Prop :=
  rb_ok rb' rm m vals L /\ len_ok rb' m /\
  content m (rb_ready rb') = content m (rb_ready rb) ++ payload m (rm_data rm) offs /\
  held rb' ≡ₚ offs ++ held rb.

Lemma payload_cons (m : mem) (base o : Z) (offs : list Z) :
  payload m base (o :: offs) = data m (base + o) ++ payload m base offs.
Proof. done. Qed.

Lemma walked_cons (rb rb1 rb' : V5ReadBuffer) (rm : RemoteManager) (m : mem) (vals : list Z) (L : list nat)
    (o : Z) (offs : list Z) :
  content m (rb_ready rb1) = content m (rb_ready rb) ++ data m (rm_data rm + o) -> held rb1 ≡ₚ o :: held rb ->
  walked rb1 rm m vals L offs rb' -> walked rb rm m vals L (o :: offs) rb'.
Proof.
  intros H1 H2 (W1 & W2 & W3 & W4). split; [done|]. split; [done|]. split.
  - by rewrite W3, H1, payload_cons, <- app_assoc.
  - rewrite W4, H2. cbn. symmetry. apply Permutation_middle.
Qed.

Lemma walk_loop_spec (fuel : nat) (rb : V5ReadBuffer) (rm : RemoteManager) (m : mem) (vals : list Z) (L : list nat)
    (root : Z) (visited : option (gset Z)) (nodes total offset : Z) :
  rb_ok rb rm m vals L -> len_ok rb m -> 0 <= nodes <= MAX_CHAIN_NODES ->
  MAX_CHAIN_NODES - nodes < Z.of_nat fuel ->
  spent rm m + Z.of_nat (length (held rb)) + (MAX_CHAIN_NODES - nodes) < POS_MAX ->
  exists res rb' offs, walk_loop fuel rb rm m root visited nodes total offset = Some (res, rb') /\
    walked rb rm m vals L offs rb' /\ nodes + Z.of_nat (length offs) <= MAX_CHAIN_NODES /\
    match res with
    | Ok t => is_chain rm m offset offs /\ t = total + Z.of_nat (length (payload m (rm_data rm) offs))
    | Err e => e = BrokenBuffer \/ e = SizeTooLarge
    end.
Proof.
  revert rb visited nodes total offset.
  induction fuel as [|fuel IH]; intros rb visited nodes total offset Hok Hlen Hn Hf Hsp; [lia|].
  assert (Hstop : forall res, (match res with
      | Ok t => offset <= 0 /\ t = total | Err e => e = BrokenBuffer \/ e = SizeTooLarge end) ->
    exists res' rb' offs, Some (res, rb) = Some (res', rb') /\
      walked rb rm m vals L offs rb' /\ nodes + Z.of_nat (length offs) <= MAX_CHAIN_NODES /\
      match res' with
      | Ok t => is_chain rm m offset offs /\ t = total + Z.of_nat (length (payload m (rm_data rm) offs))
      | Err e => e = BrokenBuffer \/ e = SizeTooLarge
      end).
  { intros res Hres. exists res, rb, []. split; [done|]. split.
    - split; [done|]. split; [done|]. split; [by rewrite app_nil_r|done].
    - split; [cbn; lia|]. destruct res; [|done]. destruct Hres as [? ->]. cbn. split; [done|lia]. }
  cbn [walk_loop]. case_if; [apply Hstop; bools; split; [lia|done]|].
  case_if; [apply Hstop; by left|]. case_if; [apply Hstop; by left|].
  rewrite (rm_read_open rm m offset (ko_open _ _ _ _ _ Hok)).
  destruct (read_inner rm m offset) as [[bytes next]|] eqn:Er; [|apply Hstop; by left].
  case_if; [apply Hstop; by right|]. bools.
  destruct (walk_push rb rm m vals L offset next bytes Hok Hlen Er) as (P1 & P2 & P3 & P4 & Hb); [lia|].
  set (rb1 := with_ready rb _ _) in *.
  destruct (IH rb1 (if nodes >? 0 then Some ({[offset]} ∪ default {[root]} visited) else visited)
             (nodes + 1) (total + Z.of_nat (length bytes)) next P1 P2) as (res & rb' & offs & -> & W & Hl & Hres).
  - lia.
  - lia.
  - rewrite P4. cbn. lia.
  - exists res, rb', (offset :: offs). split; [done|]. split; [by apply (walked_cons rb rb1)|].
    split; [cbn; lia|]. destruct res as [t|e]; [|done]. destruct Hres as [Hch ->]. split.
    + cbn. split; [done|]. split; [lia|]. by exists bytes, next.
    + rewrite payload_cons, length_app, Hb. lia.
Qed.

Lemma walk_loop_complete (fuel : nat) (rb : V5ReadBuffer) (rm : RemoteManager) (m : mem) (vals : list Z)
    (L : list nat) (root : Z) (visited : option (gset Z)) (nodes total offset : Z) (offs : list Z) (seen : list Z) :
  rb_ok rb rm m vals L -> len_ok rb m -> (length offs < fuel)%nat ->
  is_chain rm m offset offs -> NoDup (seen ++ offs) -> nodes = Z.of_nat (length seen) ->
  (0 < nodes -> forall x, x ∈ default {[root]} visited <-> x ∈ seen) ->
  (nodes = 0 -> root = offset /\ visited = None) ->
  nodes + Z.of_nat (length offs) <= MAX_CHAIN_NODES ->
  total + Z.of_nat (length (payload m (rm_data rm) offs)) <= MAX_DYN_SHM_TRANSFER_SIZE ->
  spent rm m + Z.of_nat (length (held rb)) + Z.of_nat (length offs) < POS_MAX ->
  exists rb', walk_loop fuel rb rm m root visited nodes total offset
      = Some (Ok (total + Z.of_nat (length (payload m (rm_data rm) offs))), rb') /\
    walked rb rm m vals L offs rb'.
Proof.
  revert rb visited nodes total offset offs seen.
  induction fuel as [|fuel IH]; intros rb visited nodes total offset offs seen Hok Hlen Hf Hch Hnd Hn Hv Hroot Hmax Htot Hsp; [lia|].
  cbn [walk_loop]. destruct offs as [|o offs]; cbn [is_chain] in Hch.
  { replace (offset >? 0) with false by (symmetry; rewrite Z.gtb_ltb; apply Z.ltb_ge; lia). cbn [negb].
    exists rb. cbn. rewrite Z.add_0_r. split; [done|]. split; [done|]. split; [done|]. split; [by rewrite app_nil_r|done]. }
  destruct Hch as (-> & Hp & bytes & next & Er & Hch).
  replace (o >? 0) with true by (symmetry; apply Z.gtb_lt; lia). cbn [negb length] in *.
  replace (nodes >=? MAX_CHAIN_NODES) with false by (symmetry; rewrite Z.geb_leb; apply Z.leb_gt; lia).
  apply NoDup_app in Hnd as Hnd'. destruct Hnd' as (_ & Hdis & _).
  assert (Hseen : (nodes >? 0) && bool_decide (o ∈ default {[root]} visited) = false).
  { destruct (Z.gtb_spec nodes 0) as [Hpos|]; [|done]. cbn. apply bool_decide_eq_false_2. rewrite (Hv Hpos).
    intros Hin. apply (Hdis o Hin). by left. }
  rewrite Hseen. rewrite (rm_read_open rm m o (ko_open _ _ _ _ _ Hok)), Er.
  destruct (walk_push rb rm m vals L o next bytes Hok Hlen Er) as (P1 & P2 & P3 & P4 & Hb); [lia|].
  rewrite payload_cons, length_app, <- Hb in Htot |- *.
  replace (total + Z.of_nat (length bytes) >? MAX_DYN_SHM_TRANSFER_SIZE) with false
    by (symmetry; rewrite Z.gtb_ltb; apply Z.ltb_ge; lia).
  set (rb1 := with_ready rb _ _) in *.
  destruct (IH rb1 (if nodes >? 0 then Some ({[o]} ∪ default {[root]} visited) else visited)
             (nodes + 1) (total + Z.of_nat (length bytes)) next offs (seen ++ [o]) P1 P2) as (rb' & E & W).
  - lia.
  - done.
  - by rewrite <- app_assoc.
  - rewrite length_app. cbn. lia.
  - intros _ x. destruct (Z.gtb_spec nodes 0) as [Hpos|Hz]; cbn.
    + rewrite elem_of_union, elem_of_singleton, (Hv Hpos), elem_of_app, list_elem_of_singleton. tauto.
    + destruct (Hroot ltac:(lia)) as [-> ->]. cbn. destruct seen; [|cbn in Hn; lia]. cbn.
      rewrite elem_of_singleton, list_elem_of_singleton. done.
  - lia.
  - lia.
  - lia.
  - rewrite P4. cbn. lia.
  - exists rb'. split; [rewrite E; do 3 f_equal; lia|]. by apply (walked_cons rb rb1).
Qed.

(** [walk_chain] takes in any chain of distinct blocks within the limits. *)
Lemma walk_chain_complete (rb : V5ReadBuffer) (rm : RemoteManager) (m : mem) (vals : list Z) (L : list nat)
    (root : Z) (offs : list Z) :
  rb_ok rb rm m vals L -> len_ok rb m -> is_chain rm m root offs -> NoDup offs ->
  Z.of_nat (length offs) <= MAX_CHAIN_NODES ->
  Z.of_nat (length (payload m (rm_data rm) offs)) <= MAX_DYN_SHM_TRANSFER_SIZE ->
  spent rm m + Z.of_nat (length (held rb)) + Z.of_nat (length offs) < POS_MAX ->
  exists rb', walk_chain rb rm m root = Some (Ok (Z.of_nat (length (payload m (rm_data rm) offs))), rb') /\
    walked rb rm m vals L offs rb'.
Proof.
  intros Hok Hlen Hch Hnd Hl Ht Hsp. unfold walk_chain.
  apply (walk_loop_complete walk_fuel rb rm m vals L root None 0 0 root offs []); try done; try lia.
  unfold walk_fuel. lia.
Qed.

(** ** Draining the inbox *)

(** A chain handed back unread leaves the reader as it is. *)
Lemma free_chain_keeps (rb : V5ReadBuffer) (rm : RemoteManager) (m : mem) (vals : list Z) (L : list nat) (root : Z) :
  rb_ok rb rm m vals L -> len_ok rb m ->
  spent rm m + Z.of_nat (length (held rb)) + MAX_CHAIN_NODES < POS_MAX ->
  exists res rm' m' vals', free_chain rm m root = Some (res, rm', m') /\ rb_ok rb rm' m' vals' L /\ len_ok rb m' /\
    same_rm rm rm' /\ rq_frame rm m m' /\ spent rm' m' <= spent rm m + MAX_CHAIN_NODES /\
    content m' (rb_ready rb) = content m (rb_ready rb).
Proof.
  intros [Hrm Hc Hck Hpins Hsrc Hroom] Hlen Hsp.
  destruct (free_chain_spec rm m vals root Hrm Hc) as (res & rm' & m' & E & Hres); [unfold spent in *; lia|].
  destruct Hres as [(-> & -> & _)|(offs & vals' & _ & _ & Hl & Hrm' & Hcons & Hf & Eh & (h & Erm) & _)].
  { exists res, rm, m, vals. split; [done|]. split; [done|]. split; [done|]. split; [done|].
    split; [apply mem_frame_refl|]. split; [|done].
    assert (0 < MAX_CHAIN_NODES) by done. lia. }
  exists res, rm', m', vals'. split; [done|].
  assert (Hsm : same_rm rm rm') by (rewrite Erm; done).
  destruct (content_frame rm rm' m m' _ Hsm Hf Hck) as [Hck' Hcont].
  assert (Esp : spent rm' m' = spent rm m + Z.of_nat (length offs)).
  { unfold spent. pose proof (rk_tail _ _ _ (mo_ring _ _ _ Hrm)) as Ht.
    pose proof (rk_tail _ _ _ (mo_ring _ _ _ Hrm')) as Ht'. rewrite Erm in Ht' |- *.
    cbn [with_release rm_rq rm_pending] in *.
    change (get_tail (with_cache (rm_rq rm) h)) with (get_tail (rm_rq rm)) in *.
    change (get_head (with_cache (rm_rq rm) h)) with (get_head (rm_rq rm)) in *.
    apply (f_equal length) in Hcons. rewrite !length_app in Hcons. lia. }
  split; [|split; [unfold len_ok in *; by rewrite Hcont|]].
  - split; try done.
    + destruct Hsm as (_ & _ & E3 & _). by rewrite E3.
    + by apply (pins_ok_frame rm rm' m m').
    + unfold held in Hsp. rewrite Esp. lia.
  - split; [done|]. split; [done|]. split; [lia|done].
Qed.

Lemma free_rest_keeps (inputs : list PendingInput) (rb : V5ReadBuffer) (rm : RemoteManager) (m : mem)
    (vals : list Z) (L : list nat) :
  rb_ok rb rm m vals L -> len_ok rb m ->
  spent rm m + Z.of_nat (length (held rb)) + Z.of_nat (length inputs) * MAX_CHAIN_NODES < POS_MAX ->
  exists rm' m' vals', free_rest rm m inputs = Some (rm', m') /\ rb_ok rb rm' m' vals' L /\ len_ok rb m' /\
    same_rm rm rm' /\ rq_frame rm m m' /\ content m' (rb_ready rb) = content m (rb_ready rb).
Proof.
  revert rm m vals. induction inputs as [|input inputs IH]; intros rm m vals Hok Hlen Hsp; cbn [free_rest].
  - exists rm, m, vals. split; [done|]. split; [done|]. split; [done|]. split; [done|].
    split; [apply mem_frame_refl|done].
  - assert (Hpos : 0 < MAX_CHAIN_NODES) by done. cbn [length] in Hsp. destruct input as [root|bytes].
    2:{ apply (IH rm m vals Hok Hlen). lia. }
    destruct (free_chain_keeps rb rm m vals L root Hok Hlen)
      as (res & rm1 & m1 & vals1 & -> & Hok1 & Hlen1 & Hsm1 & Hf1 & Hsp1 & Hc1); [lia|].
    cbn [mbind option_bind].
    destruct (IH rm1 m1 vals1 Hok1 Hlen1) as (rm2 & m2 & vals2 & -> & Hok2 & Hlen2 & Hsm2 & Hf2 & Hc2); [lia|].
    exists rm2, m2, vals2. split; [done|]. split; [done|]. split; [done|].
    split; [by apply (same_rm_trans rm rm1)|]. split; [|by rewrite Hc2].
    unfold rq_frame in *. destruct Hsm1 as (Ed & _). rewrite Ed in Hf2. by apply (mem_frame_trans _ _ m m1).
Qed.

(** Any delivery, good or bad: the drain ends and the reader stays in order. *)
Lemma drain_inputs_safe (inputs : list PendingInput) (rb : V5ReadBuffer) (rm : RemoteManager) (m : mem)
    (vals : list Z) (L : list nat) (total : Z) :
  rb_ok rb rm m vals L -> len_ok rb m ->
  spent rm m + Z.of_nat (length (held rb)) + Z.of_nat (length inputs) * (MAX_CHAIN_NODES + 1) < POS_MAX ->
  exists res rb' rm' m' vals' added, drain_inputs rb rm m inputs total = Some (res, rb', rm', m') /\
    rb_ok rb' rm' m' vals' L /\ len_ok rb' m' /\ same_rm rm rm' /\ rq_frame rm m m' /\
    content m' (rb_ready rb') = content m (rb_ready rb) ++ added /\
    match res with
    | Ok t => t = total + Z.of_nat (length added)
    | Err e => e = BrokenBuffer \/ e = SizeTooLarge
    end.
Proof.
  revert rb total. induction inputs as [|input inputs IH]; intros rb total Hok Hlen Hsp; cbn [drain_inputs].
  - exists (Ok total), rb, rm, m, vals, []. rewrite app_nil_r, Z.add_0_r. split; [done|]. split; [done|]. split; [done|].
    split; [done|]. split; [apply mem_frame_refl|done].
  - assert (Hpos : 0 < MAX_CHAIN_NODES) by done. cbn [length] in Hsp. destruct input as [root|bytes].
    + destruct (walk_loop_spec walk_fuel rb rm m vals L root None 0 0 root Hok Hlen)
        as (res & rb1 & offs & E & (W1 & W2 & W3 & W4) & Hl & Hres).
      { lia. } { unfold walk_fuel. rewrite Nat2Z.inj_succ, Z2Nat.id by done. lia. } { lia. }
      unfold walk_chain. rewrite E. cbn [mbind option_bind].
      assert (Hh1 : Z.of_nat (length (held rb1)) = Z.of_nat (length offs) + Z.of_nat (length (held rb))).
      { rewrite W4, length_app. lia. }
      destruct res as [t|e].
      * destruct Hres as [_ ->].
        destruct (IH rb1 (total + (0 + Z.of_nat (length (payload m (rm_data rm) offs)))) W1 W2) as
          (res & rb' & rm' & m' & vals' & added & -> & H1 & H2 & H3 & H4 & H5 & H6); [nia|].
        exists res, rb', rm', m', vals', (payload m (rm_data rm) offs ++ added). split; [done|].
        split; [done|]. split; [done|]. split; [done|]. split; [done|]. split; [by rewrite H5, W3, <- app_assoc|].
        destruct res; [|done]. rewrite length_app. lia.
      * destruct (free_rest_keeps inputs rb1 rm m vals L W1 W2) as (rm' & m' & vals' & -> & H1 & H2 & H3 & H4 & H5); [nia|].
        cbn [mbind option_bind]. exists (Err e), rb1, rm', m', vals', (payload m (rm_data rm) offs).
        split; [done|]. split; [done|]. split; [done|]. split; [done|]. split; [done|]. split; [by rewrite H5|done].
    + destruct (push_ok rb rm m vals L (mkChunk (SrcHeap bytes) 0) Hok Hlen) as (P1 & P2 & P3 & P4); try done.
      { split; cbn; [lia|done]. } { nia. }
      cbn [ck_len ck_src] in P1, P2, P3, P4. set (rb1 := with_ready rb _ _) in *.
      destruct (IH rb1 (total + Z.of_nat (length bytes)) P1 P2) as
        (res & rb' & rm' & m' & vals' & added & -> & H1 & H2 & H3 & H4 & H5 & H6).
      { rewrite P4. cbn. nia. }
      exists res, rb', rm', m', vals', (bytes ++ added). split; [done|]. split; [done|]. split; [done|].
      split; [done|]. split; [done|]. split; [by rewrite H5, P3, <- app_assoc|].
      destruct res; [|done]. rewrite length_app. lia.
Qed.

(** ** The end of a reader *)

Lemma release_all_spec (cs : list ReadChunk) (rb : V5ReadBuffer) (rm : RemoteManager) (m : mem) (vals : list Z)
    (L : list nat) :
  rb_ok rb rm m vals L -> rb_ready rb = cs ->
  exists rb' rm' m' vals', release_all rb rm m cs = Some (rb', rm', m') /\ rb_ok rb' rm' m' vals' L /\
    rb_ready rb' = [] /\ settles rb rm m vals rb' rm' m' vals'.
Proof.
  revert rb rm m vals. induction cs as [|c cs IH]; intros rb rm m vals Hok Er; cbn [release_all].
  - exists rb, rm, m, vals. split; [done|]. split; [done|]. split; [done|]. apply settles_refl.
  - destruct (chunk_release_spec rb rm m vals L c cs (rb_len rb) Hok Er) as (rb1 & rm1 & m1 & vals1 & -> & Hok1 & Er1 & _ & Hs1).
    cbn [mbind option_bind]. destruct (IH rb1 rm1 m1 vals1 Hok1 Er1) as (rb2 & rm2 & m2 & vals2 & -> & Hok2 & Er2 & Hs2).
    exists rb2, rm2, m2, vals2. split; [done|]. split; [done|]. split; [done|].
    by apply (settles_trans rb rb1 rb2 rm rm1 rm2 m m1 m2 vals vals1 vals2).
Qed.

(** With no chunk and no borrowed value left, no pin is left either. *)
Lemma no_pins (rb : V5ReadBuffer) (rm : RemoteManager) (m : mem) (vals : list Z) :
  rb_ok rb rm m vals [] -> rb_ready rb = [] -> held rb = [].
Proof.
  intros [_ _ _ [Hcnt _] _ _] Er. rewrite Er in Hcnt. unfold held. rewrite Er. cbn.
  destruct (map_choose_or_empty (rb_pins rb)) as [(id & [o k] & Hid)|Hempty].
  - destruct (Hcnt id o k Hid) as (-> & Hk & _). cbn in Hk. lia.
  - rewrite Hempty. unfold pinned. by rewrite map_to_list_empty.
Qed.

Lemma rb_new_ok (rm : RemoteManager) (m : mem) (vals : list Z) :
  rm_ok rm m vals -> rm_closed rm = false -> spent rm m < POS_MAX -> rb_ok rb_new rm m vals [] /\ len_ok rb_new m.
Proof.
  intros Hrm Hc Hsp. split; [|done]. split; try done.
  cbn. unfold pinned. rewrite map_to_list_empty. cbn. lia.
Qed.
