(* ===== verification/ReadBufTheorems.v ===== *)
(** * What the reader guarantees *)

From Stdlib Require Import ZArith Lia Permutation.
From stdpp Require Import base numbers list gmap.
From S2P Require Import Prelude Header BufHeader Region RegionFacts Mpsc MpscFacts MpscSeq LocalManager.
From S2P Require Import LocalManagerFacts LocalManagerSpec LocalManagerExec LocalManagerTheorems.
From S2P Require Import RemoteManager RemoteManagerFacts RemoteManagerTheorems WriteBuf WriteBufFacts ReadBuf.
From S2P Require Import ReadBufFacts ReadBufSpec.

#[local] Open Scope Z_scope.

(** ** Runs of a reader with the values it has lent out *)

Record reader : Type := mkReader {
  r_buf : V5ReadBuffer;
  r_rm : RemoteManager;
  r_mem : mem;
  r_out : list Buf;
}.

Inductive rop : Type :=
| ORead (size : Z)
| OChunk
| OPeek (size : Z)
| ODiscard (size : Z)
| OCopy (size : Z)
| ODrop (i : nat)
| ORetry.

Definition lend (out : list Buf) (rb : V5ReadBuffer) (rm : RemoteManager) (m : mem) (res : result BufError Buf)
    : list Z * reader :=
  match res with
  | Ok buf => (buf_bytes m buf, mkReader rb rm m (out ++ [buf]))
  | Err _ => ([], mkReader rb rm m out)
  end.

(** One operation and the bytes it consumed. *)
Definition do_op (st : reader) (op : rop) : option (list Z * reader) :=
  let '(mkReader rb rm m out) := st in
  match op with
  | ORead size => '(res, rb, rm, m) ← read_exact_bytes rb rm m size; Some (lend out rb rm m res)
  | OChunk => '(res, rb, rm, m) ← read_chunk rb rm m; Some (lend out rb rm m res)
  | OPeek size => '(res, rb) ← peek rb m size; Some ([], (lend out rb rm m res).2)
  | ODiscard size =>
      let before := content m (rb_ready rb) in
      '(res, rb, rm, m) ← discard rb rm m size;
      Some (match res with Ok n => take (Z.to_nat n) before | Err _ => [] end, mkReader rb rm m out)
  | OCopy size => '(got, rb, rm, m) ← read rb rm m size; Some (got, mkReader rb rm m out)
  | ODrop i =>
      match out !! i with
      | Some buf => '(rb, rm, m) ← drop_buf rb rm m buf; Some ([], mkReader rb rm m (delete i out))
      | None => Some ([], st)
      end
  | ORetry => '(rb, rm, m) ← release_previous_read rb rm m; Some ([], mkReader rb rm m out)
  end.

Fixpoint run (st : reader) (ops : list rop) : option (list Z * reader) :=
  match ops with
  | [] => Some ([], st)
  | op :: ops => '(a, st) ← do_op st op; '(b, st) ← run st ops; Some (a ++ b, st)
  end.

(** Sizes are unsigned. *)
Definition op_ok (op : rop) : Prop :=
  match op with
  | ORead n | OPeek n | ODiscard n | OCopy n => 0 <= n
  | _ => True
  end.

Definition leases (out : list Buf) : list nat := concat (lease_of <$> out).

Definition reader_ok (st : reader) (vals : list Z) : Prop :=
  rb_ok (r_buf st) (r_rm st) (r_mem st) vals (leases (r_out st)) /\ len_ok (r_buf st) (r_mem st) /\
  Forall (buf_ok (r_rm st)) (r_out st).

(** Blocks are conserved and lent bytes stay put between two states. *)
Definition carries (st st' : reader) (vals vals' : list Z) : Prop :=
  settles (r_buf st) (r_rm st) (r_mem st) vals (r_buf st') (r_rm st') (r_mem st') vals'.

Lemma leases_snoc (out : list Buf) (buf : Buf) : leases (out ++ [buf]) ≡ₚ lease_of buf ++ leases out.
Proof.
  unfold leases. rewrite fmap_app, concat_app. cbn. rewrite app_nil_r. apply Permutation_app_comm.
Qed.

Lemma rb_ok_perm (rb : V5ReadBuffer) (rm : RemoteManager) (m : mem) (vals : list Z) (L L' : list nat) :
  rb_ok rb rm m vals L -> L ≡ₚ L' -> rb_ok rb rm m vals L'.
Proof.
  intros [H1 H2 H3 H4 H5 H6] Hp. split; try done. apply (pins_ok_perm _ _ _ _ _ _ H4). by rewrite Hp.
Qed.

Lemma bufs_same (rm rm' : RemoteManager) (out : list Buf) :
  same_rm rm rm' -> Forall (buf_ok rm) out -> Forall (buf_ok rm') out.
Proof.
  intros (Ed & Es & _) H. eapply Forall_impl; [exact H|]. intros [ptr size id|]; [|done]. cbn. by rewrite Ed, Es.
Qed.

(** A value joins those lent out. *)
Lemma lend_ok (rb' : V5ReadBuffer) (rm rm' : RemoteManager) (m' : mem) (out : list Buf) (vals' : list Z)
    (buf : Buf) :
  rb_ok rb' rm' m' vals' (lease_of buf ++ leases out) -> len_ok rb' m' -> same_rm rm rm' ->
  Forall (buf_ok rm) out -> buf_ok rm buf -> reader_ok (mkReader rb' rm' m' (out ++ [buf])) vals'.
Proof.
  intros Hok Hlen Hsm Hout Hbuf. split; [|split; [done|]]; cbn [r_buf r_rm r_mem r_out].
  - apply (rb_ok_perm _ _ _ _ _ _ Hok). symmetry. apply leases_snoc.
  - apply (bufs_same rm rm'); [done|]. apply Forall_app. split; [done|]. by constructor.
Qed.

Lemma read_ok (rb : V5ReadBuffer) (rm : RemoteManager) (m : mem) (out : list Buf) (vals : list Z) (size : Z) :
  reader_ok (mkReader rb rm m out) vals -> 0 <= size ->
  exists got st' vals',
    ('(res, rb, rm, m) ← read_exact_bytes rb rm m size; Some (lend out rb rm m res)) = Some (got, st') /\
    reader_ok st' vals' /\ carries (mkReader rb rm m out) st' vals vals' /\
    content m (rb_ready rb) = got ++ content (r_mem st') (rb_ready (r_buf st')) /\
    (size <= rb_len rb -> Z.of_nat (length got) = size).
Proof.
  intros (Hok & Hlen & Hout) Hs. cbn [r_buf r_rm r_mem r_out] in Hok, Hlen, Hout. destruct (Z_le_gt_dec size (rb_len rb)) as [Hle|Hgt].
  - destruct (read_exact_spec rb rm m vals _ size Hok Hlen ltac:(lia))
      as (buf & rb' & rm' & m' & vals' & -> & H1 & H2 & H3 & H4 & H5 & H6).
    cbn [mbind option_bind lend]. eexists _, _, vals'. split; [done|]. cbn.
    split; [apply (lend_ok rb' rm rm'); try done; apply H3|].
    split; [done|]. rewrite H4, H6, take_drop. split; [done|]. intros _.
    rewrite length_take. unfold len_ok in Hlen. lia.
  - unfold read_exact_bytes. rewrite (proj2 (Z.eqb_neq _ 0)) by (unfold len_ok in Hlen; lia).
    rewrite (proj2 (Z.ltb_lt _ _)) by lia. cbn. exists [], (mkReader rb rm m out), vals.
    split; [done|]. split; [done|]. split; [apply settles_refl|]. split; [done|lia].
Qed.

Lemma leases_split (out : list Buf) (i : nat) (buf : Buf) :
  out !! i = Some buf -> leases out = leases (take i out) ++ lease_of buf ++ leases (drop (S i) out) /\
  leases (delete i out) = leases (take i out) ++ leases (drop (S i) out).
Proof.
  intros Hi. rewrite delete_take_drop. unfold leases. rewrite fmap_app, concat_app. split; [|done].
  rewrite <- (take_drop_middle out i buf Hi) at 1. rewrite fmap_app, concat_app. done.
Qed.

Lemma do_op_ok (st : reader) (op : rop) (vals : list Z) :
  reader_ok st vals -> op_ok op ->
  exists got st' vals', do_op st op = Some (got, st') /\ reader_ok st' vals' /\ carries st st' vals vals' /\
    content (r_mem st) (rb_ready (r_buf st)) = got ++ content (r_mem st') (rb_ready (r_buf st')).
Proof.
  destruct st as [rb rm m out]. intros Hst Hop. pose proof Hst as (Hok & Hlen & Hout). cbn [r_buf r_rm r_mem r_out] in Hok, Hlen, Hout.
  destruct op as [size| |size|size|size|i|]; cbn [do_op op_ok] in *.
  - destruct (read_ok rb rm m out vals size Hst Hop) as (got & st' & vals' & E & H1 & H2 & H3 & _).
    exists got, st', vals'. done.
  - unfold read_chunk. set (size := match rb_ready rb with [] => 0 | c :: _ => remaining c end).
    destruct (Z.eqb_spec size 0) as [|Hne].
    + cbn. exists [], (mkReader rb rm m out), vals. split; [done|]. split; [done|]. split; [apply settles_refl|done].
    + assert (Hs : 0 <= size).
      { unfold size. pose proof (ko_chunks _ _ _ _ _ Hok) as Hck. destruct (rb_ready rb) as [|c rest]; [done|].
        apply Forall_cons in Hck as [[Hp _] _]. unfold remaining. lia. }
      destruct (read_ok rb rm m out vals size Hst Hs) as (got & st' & vals' & E & H1 & H2 & H3 & _).
      exists got, st', vals'. done.
  - destruct (Z_le_gt_dec size (rb_len rb)) as [Hle|Hgt].
    + destruct (peek_spec rb rm m vals _ size Hok Hlen ltac:(lia)) as (buf & rb' & -> & H1 & H2 & H3 & H4 & H5 & H6).
      cbn [mbind option_bind lend snd]. eexists [], _, vals. split; [done|]. cbn.
      split; [by apply (lend_ok rb' rm rm)|]. split; [|by rewrite H6].
      split; [|split; [done|apply mem_frame_refl]]. unfold ledger. cbn. by rewrite H3.
    + unfold peek. rewrite (proj2 (Z.eqb_neq _ 0)) by (unfold len_ok in Hlen; lia).
      rewrite (proj2 (Z.ltb_lt _ _)) by lia. cbn. exists [], (mkReader rb rm m out), vals.
      split; [done|]. split; [done|]. split; [apply settles_refl|done].
  - unfold discard. destruct (Z.ltb_spec (rb_len rb) size) as [Hlt|Hge].
    + cbn. exists [], (mkReader rb rm m out), vals. split; [done|]. split; [done|]. split; [apply settles_refl|done].
    + destruct (take_loop_spec (loop_fuel rb) size rb rm m vals _ Hok Hlen) as (rb' & rm' & m' & vals' & -> & H1 & H2 & H3 & H4);
        [unfold loop_fuel; lia|]. cbn [mbind option_bind]. eexists _, _, vals'. split; [done|]. cbn.
      split; [split; [done|split; [done|apply (bufs_same rm rm'); [apply H3|done]]]|]. split; [done|].
      rewrite H4, Nat2Z.id, length_take, Nat.min_l by (unfold len_ok in Hlen; lia). by rewrite take_drop.
  - unfold read. destruct (take_loop_spec (loop_fuel rb) size rb rm m vals _ Hok Hlen) as (rb' & rm' & m' & vals' & -> & H1 & H2 & H3 & H4);
      [unfold loop_fuel; lia|]. cbn [mbind option_bind]. eexists _, _, vals'. split; [done|]. cbn.
    split; [split; [done|split; [done|apply (bufs_same rm rm'); [apply H3|done]]]|]. split; [done|].
    by rewrite H4, take_drop.
  - destruct (out !! i) as [buf|] eqn:Ei.
    2:{ exists [], (mkReader rb rm m out), vals. split; [done|]. split; [done|]. split; [apply settles_refl|done]. }
    destruct (leases_split out i buf Ei) as [El Ed].
    assert (Hdel : Forall (buf_ok rm) (delete i out)) by (by apply Forall_delete).
    destruct buf as [ptr size id|bytes]; cbn [drop_buf lease_of] in *.
    + rewrite El in Hok. cbn [app] in Hok.
      destruct (drop_pin_spec rb rm m vals _ _ id Hok) as (rb' & rm' & m' & vals' & -> & H1 & H2 & H3 & H4).
      cbn [mbind option_bind]. eexists [], _, vals'. split; [done|]. cbn [r_buf r_rm r_mem r_out].
      destruct H4 as (L4 & S4 & F4).
      destruct (content_frame rm rm' m m' _ S4 F4 (ko_chunks _ _ _ _ _ Hok)) as [_ Hc].
      split; [|split; [done|by rewrite H2]]. split; [cbn [r_buf r_rm r_mem r_out]; by rewrite Ed|].
      split; [|by apply (bufs_same rm rm')]. unfold len_ok in *. cbn. by rewrite H2, H3, Hc.
    + cbn [mbind option_bind]. eexists [], _, vals. split; [done|]. cbn [r_buf r_rm r_mem r_out].
      split; [|split; [apply settles_refl|done]]. split; [cbn [r_buf r_rm r_mem r_out]; by rewrite Ed, El in * |].
      split; [done|done].
  - destruct (retry_spec rb rm m vals _ Hok Hlen) as (rm' & m' & vals' & -> & H1 & H2 & H3 & H4).
    cbn [mbind option_bind]. eexists [], _, vals'. split; [done|]. cbn.
    split; [split; [done|split; [done|apply (bufs_same rm rm'); [apply H3|done]]]|]. split; [done|]. by rewrite H4.
Qed.

Lemma run_ok (ops : list rop) (st : reader) (vals : list Z) :
  reader_ok st vals -> Forall op_ok ops ->
  exists got st' vals', run st ops = Some (got, st') /\ reader_ok st' vals' /\ carries st st' vals vals' /\
    content (r_mem st) (rb_ready (r_buf st)) = got ++ content (r_mem st') (rb_ready (r_buf st')).
Proof.
  revert st vals. induction ops as [|op ops IH]; intros st vals Hst Hops; cbn [run].
  - exists [], st, vals. split; [done|]. split; [done|]. split; [apply settles_refl|done].
  - apply Forall_cons in Hops as [Hop Hops].
    destruct (do_op_ok st op vals Hst Hop) as (a & st1 & vals1 & -> & H1 & C1 & E1). cbn [mbind option_bind].
    destruct (IH st1 vals1 H1 Hops) as (b & st2 & vals2 & -> & H2 & C2 & E2). cbn [mbind option_bind].
    exists (a ++ b), st2, vals2. split; [done|]. split; [done|].
    split; [by apply (settles_trans _ (r_buf st1) _ _ (r_rm st1) _ _ (r_mem st1) _ _ vals1)|].
    by rewrite E1, E2, app_assoc.
Qed.

(** C6. Whatever a reader does -- exact reads, chunk reads, peeks, discards,
    copies, dropping borrowed values, retrying releases, in any order -- it never
    gets stuck, the bytes it consumes are the buffered bytes in order with none
    skipped or repeated, every block is unread, lent out, in the backlog or in the
    release queue exactly once, the block behind a borrowed value is among those
    not released, and a borrowed value's bytes never change. *)
Theorem reader_executions (ops : list rop) (st : reader) (vals : list Z) :
  reader_ok st vals -> Forall op_ok ops ->
  exists got st' vals', run st ops = Some (got, st') /\ reader_ok st' vals' /\
    content (r_mem st) (rb_ready (r_buf st)) = got ++ content (r_mem st') (rb_ready (r_buf st')) /\
    ledger (r_buf st') (r_rm st') vals' ≡ₚ ledger (r_buf st) (r_rm st) vals /\
    (forall buf, buf_ok (r_rm st) buf -> buf_bytes (r_mem st') buf = buf_bytes (r_mem st) buf) /\
    (forall ptr size id, In (BufShm ptr size id) (r_out st') ->
       exists off k, rb_pins (r_buf st') !! id = Some (off, k) /\ In off (held (r_buf st'))).
Proof.
  intros Hst Hops. destruct (run_ok ops st vals Hst Hops) as (got & st' & vals' & E & H1 & (C1 & C2 & C3) & E1).
  exists got, st', vals'. do 4 (split; [done|]). split.
  - intros buf Hb. by apply (buf_bytes_frame (r_rm st)).
  - intros ptr size id Hin. destruct H1 as ([_ _ _ [_ Hheld] _ _] & _).
    destruct (Hheld id) as [[off k] Hid].
    { apply in_app_iff. left. unfold leases. apply in_concat. exists [id]. split; [|by left].
      apply (in_map lease_of) in Hin. exact Hin. }
    exists off, k. split; [done|]. unfold held. apply in_app_iff. right. unfold pinned.
    apply in_map_iff. exists (id, (off, k)). split; [done|].
    by apply list_elem_of_In, elem_of_map_to_list.
Qed.

(** An exact read returns exactly the next bytes, or reports that there are
    not enough and changes nothing; peeking returns the same bytes and consumes
    none. *)
Theorem read_exact_correct (rb : V5ReadBuffer) (rm : RemoteManager) (m : mem) (vals : list Z) (L : list nat) (size : Z) :
  rb_ok rb rm m vals L -> len_ok rb m -> 0 <= size ->
  if size <=? rb_len rb then
    (exists buf rb' rm' m', read_exact_bytes rb rm m size = Some (Ok buf, rb', rm', m') /\
       buf_bytes m' buf = take (Z.to_nat size) (content m (rb_ready rb)) /\
       content m' (rb_ready rb') = drop (Z.to_nat size) (content m (rb_ready rb)) /\
       rb_len rb' = rb_len rb - size) /\
    (exists buf rb', peek rb m size = Some (Ok buf, rb') /\
       buf_bytes m buf = take (Z.to_nat size) (content m (rb_ready rb)) /\
       content m (rb_ready rb') = content m (rb_ready rb) /\ rb_len rb' = rb_len rb)
  else
    read_exact_bytes rb rm m size = Some (Err NotEnoughData, rb, rm, m) /\
    peek rb m size = Some (Err NotEnoughData, rb).
Proof.
  intros Hok Hlen Hs. destruct (Z.leb_spec size (rb_len rb)) as [Hle|Hgt].
  - split.
    + destruct (read_exact_spec rb rm m vals L size Hok Hlen ltac:(lia))
        as (buf & rb' & rm' & m' & vals' & E & _ & H2 & _ & H4 & _ & H6).
      exists buf, rb', rm', m'. split; [done|]. split; [done|]. split; [done|].
      unfold len_ok in *. rewrite H2, H6, length_drop. lia.
    + destruct (peek_spec rb rm m vals L size Hok Hlen ltac:(lia)) as (buf & rb' & E & _ & H2 & _ & H4 & _ & H6).
      exists buf, rb'. split; [done|]. split; [done|]. split; [done|].
      unfold len_ok in *. by rewrite H2, H6.
  - unfold read_exact_bytes, peek. rewrite (proj2 (Z.eqb_neq _ 0)) by (unfold len_ok in Hlen; lia).
    by rewrite (proj2 (Z.ltb_lt _ _)) by lia.
Qed.

(** Dropping a reader from which nothing is lent out hands every block it
    still held back to the peer: afterwards each block is in the release queue or
    in the backlog for it. *)
Theorem reader_returns_all (rb : V5ReadBuffer) (rm : RemoteManager) (m : mem) (vals : list Z) :
  rb_ok rb rm m vals [] ->
  exists rb' rm' m' vals', rb_drop rb rm m = Some (rb', rm', m') /\ rm_ok rm' m' vals' /\
    vals' ++ rm_pending rm' ≡ₚ vals ++ rm_pending rm ++ held rb.
Proof.
  intros Hok. destruct (release_all_spec (rb_ready rb) rb rm m vals [] Hok eq_refl)
    as (rb' & rm' & m' & vals' & E & Hok' & Er & (Hl & _)).
  exists rb', rm', m', vals'. split; [done|]. split; [apply (ko_rm _ _ _ _ _ Hok')|].
  unfold ledger in Hl. rewrite (no_pins rb' rm' m' vals' Hok' Er), app_nil_r in Hl. done.
Qed.

(** What the reader relies on in memory the peer can write: the release queue, and the
    offset field in the header of every block it holds. *)
Definition left_intact (rb : V5ReadBuffer) (rm : RemoteManager) (m0 m : mem) : Prop :=
  mem_agree (rm_data rm) (rm_data rm + RQ_SIZE) m m0 /\
  forall o, In o (held rb) -> get_offset m (rm_data rm + o) = get_offset m0 (rm_data rm + o).

Lemma content_length (m m' : mem) (cs : list ReadChunk) : length (content m cs) = length (content m' cs).
Proof.
  unfold content. induction cs as [|c cs IH]; [done|]. rewrite !fmap_cons. cbn [concat]. rewrite !length_app, IH. f_equal.
  unfold unread, ck_bytes. rewrite !length_drop. destruct (ck_src c); [by rewrite !read_bytes_length|done].
Qed.

(** The invariant survives whatever else the peer writes. *)
Lemma rb_ok_scribbled (rb : V5ReadBuffer) (rm : RemoteManager) (m0 m : mem) (vals : list Z) (L : list nat) :
  rb_ok rb rm m0 vals L -> left_intact rb rm m0 m -> rb_ok rb rm m vals L /\ spent rm m = spent rm m0.
Proof.
  intros [[R1 [R2 R2'] R3 R4] H2 H3 [P1 P2] H5 H6] [Hr Hh]. unfold held in Hh.
  assert (Hb : forall o, In o (held rb) -> block_ok rm m0 o -> block_ok rm m o).
  { intros o Ho [B1 B2]. split; [done|]. by rewrite Hh. }
  assert (Hp : forall id o k, rb_pins rb !! id = Some (o, k) -> In o (held rb)).
  { intros id o k E. apply in_app_iff. right. apply list_elem_of_In, list_elem_of_fmap. exists (id, (o, k)). split; [done|]. by apply elem_of_map_to_list. }
  assert (R1' : ring_ok (rm_rq rm) m vals) by (apply (ring_ok_frame _ m0); [done|by rewrite R2, R2']).
  assert (Es : spent rm m = spent rm m0).
  { unfold spent. f_equal. pose proof (rk_geo _ _ _ R1) as Hg. pose proof (slot_bounds Z (rm_rq rm) Hg 0) as [B1 B2]. unfold get_tail, load64. apply load_ext. intros x Hx. apply Hr.
    rewrite <- R2, <- R2'. unfold tail_addr, MPSC_HEADER_SIZE, SLOT_HEADER_SIZE in *. pose proof (psize_pos (T := Z)). cbn in Hx. lia. }
  split; [|done]. split; [by split|done| |split; [|done]|done|by rewrite Es].
  - apply Forall_forall. intros c Hc. pose proof (proj1 (Forall_forall _ _) H3 c Hc) as [C1 C2]. split; [done|].
    destruct (ck_src c) as [off ptr len pin|bytes] eqn:Ec; [|done]. destruct C2 as (C2 & C3). split; [|done]. apply Hb; [|done].
    destruct pin as [id|]; [destruct (H5 c off ptr len id) as [k Hk]; [by apply list_elem_of_In|done|by apply (Hp id off k)]|].
    apply in_app_iff. left. apply list_elem_of_In, list_elem_of_omap. exists c. by rewrite Ec.
  - intros id o k E. destruct (P1 id o k E) as (Q1 & Q2 & Q3 & Q4). split; [done|]. split; [done|]. split; [|done]. apply Hb; [by apply (Hp id o k)|done].
Qed.

(** C22. Taking in deliveries is safe whatever the peer wrote into the buffers: on any
    memory (cycles, bad offsets, oversized chains) in which only the release queue and
    the headers of the blocks already held are as they were, the drain ends, writes
    the release queue only, appends whole blocks that lie inside the mapping, and
    reports exactly the bytes it appended, or the chain as broken or too large. *)
Theorem drain_pending_safe (rb : V5ReadBuffer) (b : V5Inbox) (rm : RemoteManager) (m0 m : mem) (vals : list Z) (L : list nat) :
  rb_ok rb rm m0 vals L -> len_ok rb m0 -> left_intact rb rm m0 m ->
  spent rm m0 + Z.of_nat (length (held rb)) + Z.of_nat (length (in_pending b)) * (MAX_CHAIN_NODES + 1) < POS_MAX ->
  exists res rb' rm' m' vals' added,
    drain_pending rb b rm m = Some ((res, rb', rm', m'), mkInbox (in_generation b) []) /\
    rb_ok rb' rm' m' vals' L /\ len_ok rb' m' /\ Forall (chunk_ok rm' m') (rb_ready rb') /\ rq_frame rm m m' /\
    content m' (rb_ready rb') = content m (rb_ready rb) ++ added /\
    match res with
    | Ok t => t = Z.of_nat (length added)
    | Err e => e = BrokenBuffer \/ e = SizeTooLarge
    end.
Proof.
  intros Hok0 Hlen0 Hi Hsp. destruct (rb_ok_scribbled _ _ _ _ _ _ Hok0 Hi) as [Hok Es]. rewrite <- Es in Hsp.
  assert (Hlen : len_ok rb m) by (unfold len_ok in *; by rewrite (content_length m m0)).
  destruct (drain_inputs_safe (in_pending b) rb rm m vals L 0 Hok Hlen Hsp)
    as (res & rb' & rm' & m' & vals' & added & E & H1 & H2 & H3 & H4 & H5 & H6).
  exists res, rb', rm', m', vals', added. unfold drain_pending. rewrite E. split; [done|].
  split; [done|]. split; [done|]. split; [apply (ko_chunks _ _ _ _ _ H1)|]. done.
Qed.

(** [read_chunk] does not skip an empty chunk at the front: with an empty
    socket delivery ahead of data, it reports that there is not enough data
    although bytes are buffered. *)
Theorem read_chunk_stops_at_empty (rm : RemoteManager) (m : mem) (byte : Z) :
  exists rb, len_ok rb m /\ rb_len rb = 1 /\ content m (rb_ready rb) = [byte] /\
    drain_pending rb_new (add_fallback (add_fallback inbox_new []) [byte]) rm m
      = Some ((Ok 1, rb, rm, m), inbox_new) /\
    read_chunk rb rm m = Some (Err NotEnoughData, rb, rm, m).
Proof.
  exists (mkRB [mkChunk (SrcHeap []) 0; mkChunk (SrcHeap [byte]) 0] 1 ∅ 0). done.
Qed.

(** Generations fence a stream's lives off from each other: once an idle
    inbox has moved on, a batch or socket bytes collected for the life before are
    refused and leave the inbox as it is, while the new life's are queued in
    order; and an inbox with something queued refuses to move on. *)
Theorem inbox_generations (b : V5Inbox) (open : bool) (offs : list Z) (bytes : list Z) :
  0 <= in_generation b < W64 -> offs <> [] ->
  let '(moved, b') := advance_generation_if_idle b in
  (moved = true <-> in_pending b = []) /\
  (moved = false -> b' = b) /\
  (moved = true ->
     add_pending_batch_if_generation open b' offs (in_generation b) = (false, b') /\
     add_fallback_if_generation open b' bytes (in_generation b) = (false, b') /\
     add_pending_batch_if_generation true b' offs (in_generation b')
       = (true, mkInbox (in_generation b') (InShm <$> offs))).
Proof.
  intros Hg Hne. unfold advance_generation_if_idle. destruct (in_pending b) as [|i l] eqn:E; cbn [is_nil negb].
  - split; [done|]. split; [done|]. intros _.
    assert (Hd : wrap64 (in_generation b + 1) <> in_generation b).
    { unfold wrap64. destruct (Z.eq_dec (in_generation b + 1) W64) as [Eg|Hn].
      - rewrite Eg, Z.mod_same by done. unfold W64 in *. lia.
      - rewrite Z.mod_small by lia. lia. }
    unfold add_pending_batch_if_generation, add_fallback_if_generation. cbn [in_generation in_pending].
    rewrite (proj2 (Z.eqb_neq _ _) Hd), Z.eqb_refl. destruct offs; done.
  - split; [done|]. split; done.
Qed.

(** ** Samples: one block of the sample segment and three socket bytes, delivered *)

Definition sample_inbox : V5Inbox := add_fallback (add_pending inbox_new sample_off) [1; 2; 3].

Lemma sample_spent : spent sample_rm sample_m1 = 0.
Proof. vm_compute. reflexivity. Qed.

Lemma sample_rb_new : rb_ok rb_new sample_rm sample_m1 [] [] /\ len_ok rb_new sample_m1.
Proof. apply rb_new_ok; [apply sample_rm_ok | reflexivity | rewrite sample_spent; vm_compute; reflexivity]. Qed.

Definition sample_rb : V5ReadBuffer :=
  mkRB [mkChunk (SrcShm sample_off (4096 + (sample_off + 24)) 100 None) 0; mkChunk (SrcHeap [1; 2; 3]) 0] 103 ∅ 0.

Lemma sample_drain :
  drain_inputs rb_new sample_rm sample_m1 (in_pending sample_inbox) 0 = Some (Ok 103, sample_rb, sample_rm, sample_m1).
Proof. vm_compute. reflexivity. Qed.

Lemma sample_rb_ok : exists vals, rb_ok sample_rb sample_rm sample_m1 vals [] /\ len_ok sample_rb sample_m1.
Proof.
  destruct sample_rb_new as [Hok Hlen].
  destruct (drain_inputs_safe (in_pending sample_inbox) rb_new sample_rm sample_m1 [] [] 0 Hok Hlen)
    as (res & rb' & rm' & m' & vals' & added & E & H1 & H2 & _); [rewrite sample_spent; vm_compute; reflexivity|].
  rewrite sample_drain in E. injection E as <- <- <- <-. by exists vals'.
Qed.

(** The peer has made the block its own successor. *)
Definition sample_cycle : mem := set_next sample_m1 (4096 + sample_off) sample_off.

Lemma drain_pending_safe_witness :
  left_intact rb_new sample_rm sample_m1 sample_cycle /\
  exists rb' rm' m', drain_pending rb_new sample_inbox sample_rm sample_cycle = Some ((Err BrokenBuffer, rb', rm', m'), mkInbox 0 []) /\ rq_frame sample_rm sample_cycle m'.
Proof.
  destruct sample_rb_new as [Hok Hlen].
  assert (Hi : left_intact rb_new sample_rm sample_m1 sample_cycle).
  { split; [|by intros o []]. intros a Ha. apply (mem_frame_store 8 (4096 + sample_off + 8) (4096 + sample_off + 16)); [lia|cbn; lia|]. left.
    assert (E : rm_data sample_rm + RQ_SIZE <= 4096 + sample_off + 8) by (vm_compute; discriminate). lia. }
  split; [exact Hi|].
  destruct (drain_pending_safe rb_new sample_inbox sample_rm sample_m1 sample_cycle [] [] Hok Hlen Hi)
    as (res & rb' & rm' & m' & vals' & added & E & _ & _ & _ & Hf & _); [rewrite sample_spent; vm_compute; reflexivity|].
  assert (Er : (fun o => o.1.1.1.1) <$> drain_pending rb_new sample_inbox sample_rm sample_cycle = Some (Err BrokenBuffer)) by (vm_compute; reflexivity).
  rewrite E in Er. injection Er as ->. exists rb', rm', m'. split; [exact E|exact Hf].
Defined.

Lemma reader_executions_witness :
  exists vals got st' vals',
    run (mkReader sample_rb sample_rm sample_m1 []) [OPeek 4; ORead 60; OChunk; ODrop 0; OCopy 9; ORetry]
      = Some (got, st') /\
    ledger (r_buf st') (r_rm st') vals' ≡ₚ ledger sample_rb sample_rm vals.
Proof.
  destruct sample_rb_ok as (vals & Hok & Hlen). exists vals.
  destruct (reader_executions [OPeek 4; ORead 60; OChunk; ODrop 0; OCopy 9; ORetry]
              (mkReader sample_rb sample_rm sample_m1 []) vals) as (got & st' & vals' & E & _ & _ & Hl & _).
  - split; [exact Hok|]. split; [exact Hlen|constructor].
  - repeat (constructor; [unfold op_ok; first [exact I | lia]|]). constructor.
  - exists got, st', vals'. split; [exact E|exact Hl].
Defined.

Lemma read_exact_correct_witness :
  exists buf rb' rm' m', read_exact_bytes sample_rb sample_rm sample_m1 102 = Some (Ok buf, rb', rm', m') /\
    content m' (rb_ready rb') = [3].
Proof.
  destruct sample_rb_ok as (vals & Hok & Hlen).
  destruct (read_exact_correct sample_rb sample_rm sample_m1 vals [] 102 Hok Hlen ltac:(lia))
    as [(buf & rb' & rm' & m' & E & _ & Hc & _) _].
  exists buf, rb', rm', m'. split; [exact E|]. rewrite Hc. vm_compute. reflexivity.
Defined.

Lemma reader_returns_all_witness :
  exists vals rb' rm' m' vals', rb_drop sample_rb sample_rm sample_m1 = Some (rb', rm', m') /\
    vals' ++ rm_pending rm' ≡ₚ vals ++ [sample_off].
Proof.
  destruct sample_rb_ok as (vals & Hok & Hlen). exists vals.
  destruct (reader_returns_all sample_rb sample_rm sample_m1 vals Hok) as (rb' & rm' & m' & vals' & E & _ & Hl).
  exists rb', rm', m', vals'. split; [exact E|exact Hl].
Defined.

Lemma inbox_generations_witness :
  add_pending_batch_if_generation true (mkInbox 1 []) [7] 0 = (false, mkInbox 1 []).
Proof.
  destruct (inbox_generations inbox_new true [7] []) as (_ & _ & H); [cbn; unfold W64; lia | discriminate |].
  destruct (H eq_refl) as (H1 & _). exact H1.
Defined.

(** The release queue is trusted: with a turn in it that the peer has overwritten, the
    release of a block waits for a slot that never becomes free. *)
Lemma corrupt_turn_spins :
  exists m, (forall a, rm_data sample_rm + RQ_SIZE <= a -> rd m a = rd sample_m1 a) /\
    is_Some (rm_free sample_rm sample_m1 sample_off) /\ rm_free sample_rm m sample_off = None.
Proof.
  exists (set_turn (rm_rq sample_rm) sample_m1 0 7). split; [|split; [eexists|]; vm_compute; reflexivity].
  intros a Ha. apply rd_store_out. right. etransitivity; [|exact Ha]. vm_compute. discriminate.
Qed.
