(* ===== verification/Message.v ===== *)
(** * A message from one process to the other

    Writing on the owner's side, handing the chain's root over, taking it in and
    reading it on the peer's side; and [Stream::flush_v5] with its retries, which hands
    a message over on the queue or in frames, or gives its blocks back. *)

From Stdlib Require Import ZArith Lia Permutation String.
From stdpp Require Import base numbers list gmap.
From S2P Require Import Protocol BufReader Socket SocketTheorems DataQueue LegacyStream.
From S2P Require Import Prelude Header BufHeader Region RegionFacts Mpsc MpscFacts MpscSeq LocalManager.
From S2P Require Import LocalManagerFacts LocalManagerSpec LocalManagerAlloc LocalManagerExec.
From S2P Require Import LocalManagerTheorems RemoteManager RemoteManagerFacts RemoteManagerTheorems WriteBuf.
From S2P Require Import WriteBufFacts ReadBuf ReadBufFacts ReadBufSpec.

#[local] Open Scope Z_scope.

(** A run of writes into one message. *)
Fixpoint write_all (in_fallback : bool) (now : Z) (wb : V5WriteBuffer) (lm : LocalManager) (m : mem)
    (ws : list (list Z)) : option (V5WriteBuffer * LocalManager * mem) :=
  match ws with
  | [] => Some (wb, lm, m)
  | w :: ws =>
      '(res, wb, lm, m) ← wb_write_bytes true in_fallback wb lm m now w;
      match res with
      | Ok _ => write_all in_fallback now wb lm m ws
      | Err _ => None
      end
  end.

Lemma write_all_spec (ws : list (list Z)) (in_fallback : bool) (now : Z) (lm : LocalManager) (m : mem)
    (vals : list Z) (B : Z -> Z -> Prop) (wb : V5WriteBuffer) (msg : list Z) :
  wb_ok lm m vals B wb msg -> Forall (Forall is_byte) ws -> 0 < now ->
  Z.of_nat (length (msg ++ concat ws)) < W64 ->
  exists wb' lm' m' vals' B', write_all in_fallback now wb lm m ws = Some (wb', lm', m') /\
    wb_ok lm' m' vals' B' wb' (msg ++ concat ws) /\ same_manager lm lm'.
Proof.
  revert lm m vals B wb msg. induction ws as [|w ws IH]; intros lm m vals B wb msg Hok Hby Hn Hmax; cbn [write_all concat].
  - exists wb, lm, m, vals, B. by rewrite app_nil_r.
  - apply Forall_cons in Hby as [Hw Hby]. cbn [concat] in Hmax. rewrite !length_app in Hmax.
    destruct (wb_write_spec in_fallback lm m vals B wb msg w now Hok Hw Hn)
      as (wb1 & lm1 & m1 & -> & vals1 & B1 & Hok1 & Hsm1 & _).
    { rewrite (wk_len _ _ _ _ _ _ Hok). lia. }
    cbn [mbind option_bind]. destruct (IH lm1 m1 vals1 B1 wb1 (msg ++ w) Hok1 Hby Hn)
      as (wb2 & lm2 & m2 & vals2 & B2 & E & Hok2 & Hsm2).
    { rewrite !length_app. lia. }
    exists wb2, lm2, m2, vals2, B2. split; [done|]. rewrite app_assoc. split; [done|].
    by apply (same_manager_trans lm lm1).
Qed.

(** The peer's mapping of a segment, nothing pending. *)
Definition mapping_of (lm : LocalManager) : RemoteManager :=
  mkRM (lm_data lm) (lm_size lm) (with_cache (lm_rq lm) 0) [] false.

(** The blocks of a message as the peer walks them. *)
Lemma message_chain (lm : LocalManager) (m : mem) (vals : list Z) (B : Z -> Z -> Prop) (wb : V5WriteBuffer)
    (msg : list Z) (rm : RemoteManager) :
  wb_ok lm m vals B wb msg -> maps rm lm -> rm_closed rm = false ->
  forall bs1 b bs2, wb_pending wb = bs1 ++ b :: bs2 -> is_chain rm m (b_offset b) (offsets (b :: bs2)).
Proof.
  intros [H1 H2 H3 H4 H5 H6 H7 H8 H9 H10] Hm Hc bs1 b bs2 Hp. pose proof Hm as (Ed & _).
  set (offs := offsets (wb_pending wb)) in *.
  assert (Hnx : forall os1 o os2, offs = os1 ++ o :: os2 ->
    get_next m (lm_data lm + o) = match os2 with [] => 0 | o' :: _ => o' end).
  { intros os1 o os2 E. destruct H7 as [H7|H7]; [by rewrite H7 in E; destruct os1|].
    assert (Hl : length (nexts m (lm_data lm) os1) = length os1) by apply length_fmap.
    apply (f_equal (lookup (length os1))) in H7. rewrite E, nexts_app, lookup_app_r in H7 by lia.
    rewrite Hl, Nat.sub_diag in H7. cbn in H7.
    destruct os1 as [|o0 os1]; cbn [tail length app] in H7.
    - destruct os2; cbn in H7; by injection H7.
    - rewrite <- app_assoc, lookup_app_r in H7 by lia. replace (S (length os1) - length os1)%nat with 1%nat in H7 by lia.
      destruct os2; cbn in H7; by injection H7. }
  clear H7 H8 H9 H10 H4. revert bs1 b Hp. induction bs2 as [|b2 bs2 IH]; intros bs1 b Hp; cbn [offsets fmap list_fmap is_chain].
  all: pose proof (f_equal offsets Hp) as Eo; rewrite offsets_app in Eo; fold offs in Eo; cbn [offsets fmap list_fmap] in Eo.
  all: destruct (H6 (b_offset b)) as [[l Hl] _]; [rewrite Eo; apply in_app_iff; right; by left|].
  all: destruct (bufs_range lm m vals B _ l H1 Hl) as (R1 & _ & _); pose proof rq_size_pos.
  all: split; [done|]; split; [lia|].
  - pose proof (Hnx _ _ _ Eo) as En. cbn in En.
    exists (data m (lm_data lm + b_offset b)), 0. rewrite <- En at 2. split; [|cbn; lia].
    rewrite <- En. apply (read_live rm lm m vals B _ l H1 Hm Hl). by left.
  - pose proof (Hnx _ _ _ Eo) as En. cbn in En.
    exists (data m (lm_data lm + b_offset b)), (b_offset b2). split.
    + rewrite <- En. apply (read_live rm lm m vals B _ l H1 Hm Hl). right. rewrite En. split.
      * intros E. rewrite Eo in H5. apply NoDup_app in H5 as (_ & _ & H5). apply NoDup_cons in H5 as [H5 _].
        apply H5. rewrite <- E. by left.
      * apply H6. rewrite Eo. apply in_app_iff. right. right. by left.
    + apply (IH (bs1 ++ [b]) b2). by rewrite Hp, <- app_assoc.
Qed.

(** C1. A message written in any number of pieces into the segment and handed
    over by its root offset is read back on the other side byte for byte; when
    the segment could not carry it, what goes to the socket is the same bytes. *)
Theorem message_roundtrip (lm : LocalManager) (m : mem) (vals : list Z) (B : Z -> Z -> Prop) (ws : list (list Z))
    (in_fallback : bool) (now : Z) :
  lm_inv lm m vals B -> NoDup vals -> (forall o, In o vals -> exists l, B o l) -> lm_closed lm = false ->
  Forall (Forall is_byte) ws -> 0 < now -> Z.of_nat (length (concat ws)) < W64 ->
  let msg := concat ws in
  let size := Z.of_nat (length msg) in
  exists wb lm' m', write_all in_fallback now wb_new lm m ws = Some (wb, lm', m') /\
    concat (chunk_bytes m' <$> (take_fallback wb).1) = msg /\
    (wb_is_fallback wb = false -> msg <> [] -> Z.of_nat (length (wb_pending wb)) <= MAX_CHAIN_NODES ->
     let rm := mapping_of lm' in
     spent rm m' + Z.of_nat (length (wb_pending wb)) < POS_MAX ->
     exists blocks r rb buf rb' rm' m'', take_shm wb = (Ok (Some blocks), wb_new) /\ root blocks = Some r /\
       drain_pending rb_new (add_pending inbox_new r) rm m' = Some ((Ok size, rb, rm, m'), inbox_new) /\
       read_exact_bytes rb rm m' size = Some (Ok buf, rb', rm', m'') /\ buf_bytes m'' buf = msg).
Proof.
  intros Hinv Hnd Hin Hc Hby Hn Hmax msg size.
  assert (Hok0 : wb_ok lm m vals B wb_new []).
  { split; cbn; try done; [by constructor|by left]. }
  destruct (write_all_spec ws in_fallback now lm m vals B wb_new [] Hok0 Hby Hn Hmax)
    as (wb & lm' & m' & vals' & B' & E & Hok & Hsm). cbn [app] in Hok. fold msg in Hok.
  exists wb, lm', m'. split; [done|]. pose proof Hok as [H1 H2 H3 H4 H5 H6 H7 H8 H9 H10]. split.
  { rewrite H8. cbn [take_fallback fst]. rewrite fmap_app, concat_app. f_equal.
    - unfold payload, offsets. rewrite <- !list_fmap_compose. f_equal. clear -H4.
      induction H4 as [|b bs Hb _ IH]; [done|]. cbn. by rewrite Hb, IH.
    - rewrite <- list_fmap_compose. done. }
  intros Hfb Hne Hnodes rm Hsp.
  assert (Hfb0 : wb_fallback wb = []) by (unfold wb_is_fallback in Hfb; by destruct (wb_fallback wb)).
  rewrite Hfb0 in H8. cbn in H8. rewrite app_nil_r in H8.
  destruct (wb_pending wb) as [|b bs] eqn:Ep; [by cbn in H8|].
  assert (Hmaps : maps rm lm') by (split; [done|split; [done|by exists 0]]).
  assert (Hrm : rm_ok rm m' vals').
  { apply (rm_ok_maps rm lm' m' vals' B' H1 Hmaps); [|by constructor]. cbn.
    destruct H1 as (lives & busy & Hlm & _). pose proof (rk_head _ _ _ (lo_ring _ _ _ _ _ Hlm)). lia. }
  pose proof (message_chain lm' m' vals' B' wb msg rm Hok Hmaps eq_refl [] b bs Ep) as Hch.
  destruct (rb_new_ok rm m' vals' Hrm eq_refl) as [Hrb Hlen]; [lia|].
  assert (Hpl : payload m' (rm_data rm) (offsets (b :: bs)) = msg) by done.
  assert (Hol : length (offsets (b :: bs)) = length (b :: bs)) by apply length_fmap.
  destruct (walk_chain_complete rb_new rm m' vals' [] (b_offset b) (offsets (b :: bs)) Hrb Hlen Hch H5)
    as (rb & Ew & (W1 & W2 & W3 & W4)).
  { by rewrite Hol. }
  { rewrite Hpl, <- H9. by apply H10. }
  { rewrite Hol. replace (held rb_new) with (@nil Z) by reflexivity. cbn [length] in *. lia. }
  rewrite Hpl in Ew, W3. cbn [rb_new rb_ready] in W3.
  replace (content m' []) with (@nil Z) in W3 by reflexivity. cbn [app] in W3.
  destruct (read_exact_spec rb rm m' vals' [] size W1 W2) as (buf & rb' & rm' & m'' & vals'' & Er & _ & _ & _ & Hbuf & _).
  { unfold len_ok in W2. rewrite W2, W3. unfold size. lia. }
  exists (b :: bs), (b_offset b), rb, buf, rb', rm', m''. split.
  - unfold take_shm. by rewrite Hfb, Ep, Hfb0.
  - split; [done|]. split; [|split; [done|]].
    + unfold drain_pending. cbn [in_pending add_pending inbox_new app drain_inputs]. rewrite Ew.
      cbn [mbind option_bind drain_inputs]. by rewrite Z.add_0_l.
    + rewrite Hbuf, W3. unfold size. rewrite Nat2Z.id. apply firstn_all.
Qed.

(** ** Flushing *)

Inductive FlushError : Type :=
| FStreamClosed
| FSessionShutdown
| FQueueFull
| FBuffer (e : BufError)
| FWriteTimeout
| FSendFailed
| FIo.


(** How the pause between two attempts ends. *)
Inductive Pause : Type :=
| Slept
| SawClose
| SawShutdown.

(** One attempt: what the queue says, the two flags after the listeners are
    enabled, and the pause. *)
Record Attempt : Type := mkAttempt {
  at_put : result PushError unit;
  at_is_open : bool;
  at_is_closed : bool;
  at_pause : Pause;
}.

Definition v5_put (r : result PushError unit) : result FlushError unit :=
  match r with
  | Ok _ => Ok tt
  | Err PushFull => Err FQueueFull
  | Err PushClosed => Err FSessionShutdown
  end.

(** [retry_queue_put_v5] with so many attempts left: the outcome, and how often it
    woke the peer.  An attempt the list does not name finds the queue full. *)
Fixpoint retry_queue_put_v5 (tries : nat) (env : list Attempt) : result FlushError unit * nat :=
  match tries with
  | O => (Err FQueueFull, O)
  | S tries =>
      match env with
      | [] => (Err FQueueFull, S tries)
      | a :: env =>
          match v5_put (at_put a) with
          | Err FQueueFull =>
              let '(r, n) :=
                match tries with
                | O => (Err FQueueFull, O)
                | _ =>
                    if negb (at_is_open a) then (Err FStreamClosed, O)
                    else if at_is_closed a then (Err FSessionShutdown, O)
                    else match at_pause a with
                         | Slept => retry_queue_put_v5 tries env
                         | SawClose => (Err FStreamClosed, O)
                         | SawShutdown => (Err FSessionShutdown, O)
                         end
                end in
              (r, S n)
          | r => (r, O)
          end
      end
  end.






(** The retries end: at most eleven attempts, each failed one waking the peer; the
    queue is reported full only when every one of them found it so. *)
Lemma retry_bound (tries : nat) (env : list Attempt) : ((retry_queue_put_v5 tries env).2 <= tries)%nat.
Proof.
  revert env. induction tries as [|tries IH]; intros env; [done|]. destruct env as [|a env]; [done|]. cbn [retry_queue_put_v5].
  destruct (at_put a) as [[]|[]]; cbn [v5_put snd]; try lia. destruct tries as [|tries]; [cbn; lia|]. specialize (IH env).
  destruct (negb _); [cbn; lia|]. destruct (at_is_closed a); [cbn; lia|]. destruct (at_pause a); cbn [snd]; try lia.
  destruct (retry_queue_put_v5 (S tries) env). cbn [snd] in *. lia.
Qed.

Lemma retry_full (tries : nat) (env : list Attempt) :
  (retry_queue_put_v5 tries env).1 = Err FQueueFull -> Forall (fun a => at_put a = Err PushFull) (take tries env).
Proof.
  revert env. induction tries as [|tries IH]; intros env; [constructor|]. destruct env as [|a env]; [constructor|]. cbn [retry_queue_put_v5 take].
  destruct (at_put a) as [[]|[]] eqn:Ea; cbn [v5_put fst]; try done. destruct tries as [|tries]; [by repeat constructor|].
  destruct (negb _); [done|]. destruct (at_is_closed a); [done|]. destruct (at_pause a); [|done..]. intros Hr. constructor; [done|]. apply IH.
  by destruct (retry_queue_put_v5 (S tries) env).
Qed.




(** *** A message of two writes through a segment of one region *)

Definition sample_writes : list (list Z) := [[1; 2; 3]; [4; 5]].

Lemma sample_write_run :
  (fun '(wb, lm, m) => (wb_is_fallback wb, length (wb_pending wb), spent (mapping_of lm) m))
    <$> write_all false 1 wb_new sample_lm ∅ sample_writes = Some (false, 1%nat, 0).
Proof. vm_compute. reflexivity. Qed.

Lemma message_roundtrip_witness :
  exists wb lm m rb rm m', write_all false 1 wb_new sample_lm ∅ sample_writes = Some (wb, lm, m) /\
    exists buf rb' rm', read_exact_bytes rb rm m 5 = Some (Ok buf, rb', rm', m') /\ buf_bytes m' buf = [1; 2; 3; 4; 5].
Proof.
  destruct (message_roundtrip sample_lm ∅ [] no_bufs sample_writes false 1) as (wb & lm & m & E & _ & H).
  - apply sample_inv_fresh.
  - constructor.
  - by intros o [].
  - done.
  - repeat constructor; unfold is_byte; lia.
  - lia.
  - vm_compute. done.
  - pose proof sample_write_run as Hs. rewrite E in Hs. cbn [fmap option_fmap option_map] in Hs.
    injection Hs as H1 H2 H3.
    destruct H as (blocks & r & rb & buf & rb' & rm' & m' & _ & _ & _ & Hr & Hb); [done|done|rewrite H2; vm_compute; done| |].
    + rewrite H2, H3. vm_compute. done.
    + exists wb, lm, m, rb, (mapping_of lm), m'. split; [done|]. by exists buf, rb', rm'.
Defined.


