(* ===== verification/Session.v ===== *)
(** * A V5 session: streams, the drain, and what arrives over the socket

    [src/src/session/mod.rs], [src/src/session/pool.rs] and the parts of
    [src/src/stream.rs] that keep a stream's state.  Streams are objects with an
    identity of their own (a handle can outlive the session's map), so the
    session holds a list of objects and the map holds indices into it.  Calls that
    leave the session -- blocks handed back to the peer, notifications, elements
    and frames sent -- are recorded in order as actions. *)

From Stdlib Require Import ZArith Lia.
From stdpp Require Import base numbers list gmap.
From S2P Require Import Prelude Bytes Protocol BufReader Socket DataQueue WriteBuf ReadBuf.

#[local] Open Scope Z_scope.

(** What one [try_pop] of the receive queue finds: a published element, a head
    that is claimed only (with whether [publish_timeout] has run out by then), an
    empty ring, or a closed queue.  After the list the ring stays empty.  Other
    processes push between two pops, so the list is arbitrary. *)
Inductive Pop : Type :=
| PReady (e : Element)
| PNotReady (elapsed : bool)
| PEmpty
| PClosed.

Inductive Action : Type :=
| Release (root : Z)
| NotifyReadable (o : nat)
| NotifyClose (o : nat)
| Accept (o : nat)
| CleanBuffers (o : nat)
| ReleaseRead (o : nat)
| PutQueue (e : Element)
| WakePeer
| SendSocket (bytes : list Z).

(** [StreamInner] with the [StreamShared] its buffers see, and its inbox. *)
Record StreamObj : Type := mkStream {
  so_id : Z;
  so_state : Z;
  so_fallback : bool;
  so_inbox : V5Inbox;
}.

Record Session : Type := mkSession {
  se_client : bool;
  se_version : Z;
  se_next_id : Z;
  se_objs : list StreamObj;
  se_streams : gmap Z nat;
  se_pool : list nat;
  se_pool_cap : nat;
  se_shutdown : bool;
  se_unhealthy : bool;
  se_pops : list Pop;
  se_actions : list Action;
}.

Inductive SessError : Type :=
| QueuePublishTimeout
| QueueClosed
| Shutdown
| SessionUnhealthy
| StreamsExhausted
| StreamIsClosed
| QueueFull
| HasUnreadData
| HasPendingData
| StreamPoolFull.

#[export] Instance SessError_eq_dec : EqDecision SessError.
Proof. solve_decision. Defined.

(** ** Updates *)

Definition act (a : Action) (s : Session) : Session :=
  mkSession (se_client s) (se_version s) (se_next_id s) (se_objs s) (se_streams s) (se_pool s) (se_pool_cap s)
    (se_shutdown s) (se_unhealthy s) (se_pops s) (se_actions s ++ [a]).

Definition with_objs (s : Session) (objs : list StreamObj) (streams : gmap Z nat) : Session :=
  mkSession (se_client s) (se_version s) (se_next_id s) objs streams (se_pool s) (se_pool_cap s)
    (se_shutdown s) (se_unhealthy s) (se_pops s) (se_actions s).

Definition with_pops (s : Session) (pops : list Pop) : Session :=
  mkSession (se_client s) (se_version s) (se_next_id s) (se_objs s) (se_streams s) (se_pool s) (se_pool_cap s)
    (se_shutdown s) (se_unhealthy s) pops (se_actions s).

Definition with_pool (s : Session) (pool : list nat) : Session :=
  mkSession (se_client s) (se_version s) (se_next_id s) (se_objs s) (se_streams s) pool (se_pool_cap s)
    (se_shutdown s) (se_unhealthy s) (se_pops s) (se_actions s).

Definition with_next_id (s : Session) (id : Z) : Session :=
  mkSession (se_client s) (se_version s) id (se_objs s) (se_streams s) (se_pool s) (se_pool_cap s)
    (se_shutdown s) (se_unhealthy s) (se_pops s) (se_actions s).

Definition upd_obj (o : nat) (f : StreamObj -> StreamObj) (s : Session) : Session :=
  with_objs s (alter f o (se_objs s)) (se_streams s).

(** ** Streams *)

Definition stream_new (id : Z) : StreamObj := mkStream id STREAM_OPENED false inbox_new.

Definition set_state (state : Z) (x : StreamObj) : StreamObj :=
  mkStream (so_id x) state (so_fallback x) (so_inbox x).

Definition set_fallback (b : bool) (x : StreamObj) : StreamObj :=
  mkStream (so_id x) (so_state x) b (so_inbox x).

Definition set_inbox (b : V5Inbox) (x : StreamObj) : StreamObj :=
  mkStream (so_id x) (so_state x) (so_fallback x) b.

Definition so_open (x : StreamObj) : bool := so_state x =? STREAM_OPENED.

Definition half_close (o : nat) (s : Session) : Session :=
  match se_objs s !! o with
  | Some x => if so_open x then act (NotifyClose o) (upd_obj o (set_state STREAM_HALF_CLOSED) s) else s
  | None => s
  end.

(** A stream created for [id], in the map. *)
Definition insert_stream (id : Z) (s : Session) : nat * Session :=
  let o := length (se_objs s) in
  (o, with_objs s (se_objs s ++ [stream_new id]) (<[id := o]> (se_streams s))).

Definition get_stream (id state : Z) (s : Session) : option nat * Session :=
  match se_streams s !! id with
  | Some o => (Some o, s)
  | None =>
      if negb (se_client s) && (state =? STREAM_OPENED) then
        let '(o, s) := insert_stream id s in (Some o, act (Accept o) s)
      else (None, s)
  end.

(** ** Draining the receive queue *)

Record V5NotifyBatch : Type := mkBatch {
  ba_obj : nat;
  ba_generation : Z;
  ba_offsets : list Z;
}.

(** Join the first batch that is for the same inbox and generation. *)
Fixpoint join_batch (o : nat) (generation offset : Z) (bs : list V5NotifyBatch) : option (list V5NotifyBatch) :=
  match bs with
  | [] => None
  | b :: bs =>
      if (ba_obj b =? o)%nat && (ba_generation b =? generation)
      then Some (mkBatch (ba_obj b) (ba_generation b) (ba_offsets b ++ [offset]) :: bs)
      else bs' ← join_batch o generation offset bs; Some (b :: bs')
  end.

Definition batch_v5_data (e : Element) (batches : list V5NotifyBatch) (s : Session)
    : list V5NotifyBatch * Session :=
  let offset := e_offset e in
  match get_stream (stream_id e) STREAM_OPENED s with
  | (None, s) => (batches, act (Release offset) s)
  | (Some o, s) =>
      match se_objs s !! o with
      | None => (batches, act (Release offset) s)
      | Some x =>
          let generation := in_generation (so_inbox x) in
          match join_batch o generation offset batches with
          | Some batches => (batches, s)
          | None => (batches ++ [mkBatch o generation [offset]], s)
          end
      end
  end.

Definition release_offsets (offsets : list Z) (s : Session) : Session :=
  foldl (fun s off => act (Release off) s) s offsets.

Definition flush_batch (b : V5NotifyBatch) (s : Session) : Session :=
  match se_objs s !! ba_obj b with
  | None => release_offsets (ba_offsets b) s
  | Some x =>
      match add_pending_batch_if_generation (so_open x) (so_inbox x) (ba_offsets b) (ba_generation b) with
      | (true, inbox) => act (NotifyReadable (ba_obj b)) (upd_obj (ba_obj b) (set_inbox inbox) s)
      | (false, _) => release_offsets (ba_offsets b) s
      end
  end.

Definition flush_v5_batches (batches : list V5NotifyBatch) (s : Session) : Session :=
  foldl (fun s b => flush_batch b s) s batches.

Definition handle_v5_close (id : Z) (s : Session) : Session :=
  match get_stream id STREAM_CLOSED s with
  | (Some o, s) => half_close o s
  | (None, s) => s
  end.

(** What the drain does with a popped element. *)
Definition drain_element (e : Element) (batches : list V5NotifyBatch) (s : Session)
    : list V5NotifyBatch * Session :=
  if op e =? OP_STREAM_DATA then batch_v5_data e batches s
  else if op e =? OP_CLOSE_STREAM then ([], handle_v5_close (stream_id e) (flush_v5_batches batches s))
  else (batches, s).

(** [drain_recv_queue_v5_locked] from its pop on; [finish_draining] reports not
    drained when an element has been published meanwhile, and the loop goes on.
    The result is the error, if any, and what the queue will show next. *)
Fixpoint drain_loop (wait : bool) (pops : list Pop) (batches : list V5NotifyBatch) (s : Session)
    : option SessError * list Pop * Session :=
  let finish (err : option SessError) (pops : list Pop) := (err, pops, flush_v5_batches batches s) in
  match pops with
  | [] => finish None []
  | PReady e :: pops => let '(batches, s) := drain_element e batches s in drain_loop wait pops batches s
  | PNotReady elapsed :: pops =>
      if wait then if elapsed then finish (Some QueuePublishTimeout) pops else drain_loop wait pops batches s
      else
        match pops with
        | PReady _ :: _ => drain_loop wait pops [] (flush_v5_batches batches s)
        | _ => finish None pops
        end
  | PEmpty :: pops =>
      match pops with
      | PReady _ :: _ => drain_loop wait pops [] (flush_v5_batches batches s)
      | _ => finish None pops
      end
  | PClosed :: pops => finish (Some QueueClosed) pops
  end.

(** A session that is closed already stops before the first pop. *)
Definition drain_v5 (wait : bool) (s : Session) : option SessError * Session :=
  if se_shutdown s then (if wait then Some Shutdown else None, s)
  else let '(err, pops, s) := drain_loop wait (se_pops s) [] s in (err, with_pops s pops).

(** ** Events *)

(** [Stream::fill_fallback_to_read_buffer]. *)
Definition fill_fallback (o : nat) (bytes : list Z) (s : Session) : Session :=
  match se_objs s !! o with
  | None => s
  | Some x =>
      if is_nil bytes then s
      else
        match add_fallback_if_generation (so_open x) (so_inbox x) bytes (in_generation (so_inbox x)) with
        | (true, inbox) => act (NotifyReadable o) (upd_obj o (set_inbox inbox) s)
        | (false, _) => s
        end
  end.

Definition handle_fallback_payload (seq_id status : Z) (payload : list Z) (s : Session)
    : Session * option SessError :=
  match drain_v5 true s with
  | (Some err, s) => (s, Some err)
  | (None, s) =>
      match get_stream seq_id status s with
      | (None, s) => (s, None)
      | (Some o, s) =>
          let s := upd_obj o (set_fallback true) s in
          let s := fill_fallback o payload s in
          (if status =? STREAM_CLOSED then half_close o s else s, None)
      end
  end.

(** [handle_stream_close] once the id is there. *)
Definition close_stream_event (id : Z) (s : Session) : Session * option SessError :=
  match drain_v5 true s with
  | (Some err, s) => (s, Some err)
  | (None, s) =>
      match se_streams s !! id with
      | Some o => (half_close o (with_objs s (se_objs s) (delete id (se_streams s))), None)
      | None => (s, None)
      end
  end.

Definition handle_polling (s : Session) : Session * option SessError :=
  let '(err, s) := drain_v5 false s in (s, err).

(** A session that relies on the socket for its wakeups. *)
#[export] Instance session_handlers : Handlers Session SessError := {|
  on_polling := handle_polling;
  on_close := close_stream_event;
  on_fallback := handle_fallback_payload;
|}.

(** ** The life of a stream *)

(** [Session::open_stream]; the counter of identifiers wraps. *)
Definition open_stream (s : Session) : result SessError nat * Session :=
  if se_shutdown s then (Err Shutdown, s)
  else if se_unhealthy s then (Err SessionUnhealthy, s)
  else
    let id := wrap32 (se_next_id s + 1) in
    let s := with_next_id s id in
    match se_streams s !! id with
    | Some _ => (Err StreamsExhausted, s)
    | None => let '(o, s) := insert_stream id s in (Ok o, s)
    end.

(** The pop loop of [get_or_open_stream]: the first pooled stream still open. *)
Fixpoint pop_open (objs : list StreamObj) (pool : list nat) : option nat * list nat :=
  match pool with
  | [] => (None, [])
  | o :: pool =>
      match objs !! o with
      | Some x => if so_open x then (Some o, pool) else pop_open objs pool
      | None => pop_open objs pool
      end
  end.

Definition get_or_open_stream (s : Session) : result SessError nat * Session :=
  if se_unhealthy s then (Err SessionUnhealthy, s)
  else
    match pop_open (se_objs s) (se_pool s) with
    | (Some o, pool) => (Ok o, with_pool s pool)
    | (None, pool) => open_stream (with_pool s pool)
    end.

(** [Stream::reset]; [unread] is the length of the read buffer. *)
Definition reset (o : nat) (unread : Z) (s : Session) : result SessError unit * Session :=
  match se_objs s !! o with
  | None => (Err StreamIsClosed, s)
  | Some x =>
      if negb (so_open x) then (Err StreamIsClosed, s)
      else if unread >? 0 then (Err HasUnreadData, s)
      else
        match advance_generation_if_idle (so_inbox x) with
        | (false, _) => (Err HasPendingData, s)
        | (true, inbox) => (Ok tt, upd_obj o (fun x => set_fallback false (set_inbox inbox x)) s)
        end
  end.

(** [Stream::close]; [queued] is whether the queue took the close element. *)
Definition close (o : nat) (queued : bool) (s : Session) : Session :=
  match se_objs s !! o with
  | None => s
  | Some x =>
      if so_state x =? STREAM_CLOSED then s
      else
        let s := upd_obj o (set_state STREAM_CLOSED) s in
        let s := with_objs s (se_objs s) (delete (so_id x) (se_streams s)) in
        let s := if se_shutdown s then s else act (CleanBuffers o) s in
        if negb (so_open x) then s
        else
          let s := act (NotifyClose o) s in
          if se_shutdown s then s
          else if negb (so_fallback x) && queued
          then act WakePeer (act (PutQueue (element_new (so_id x) OP_CLOSE_STREAM)) s)
          else act (SendSocket (close_encode (se_version s) (so_id x))) s
  end.

(** [StreamPool::push]. *)
Definition pool_push (o : nat) (queued : bool) (s : Session) : result SessError unit * Session :=
  if (length (se_pool s) <? se_pool_cap s)%nat then (Ok tt, with_pool s (se_pool s ++ [o]))
  else (Err StreamPoolFull, close o queued (act (NotifyClose o) s)).

Definition put_or_close_stream (o : nat) (unread : Z) (queued : bool) (s : Session) : Session :=
  match se_objs s !! o with
  | None => s
  | Some x =>
      if so_fallback x then close o queued s
      else
        match reset o unread s with
        | (Ok _, s) => (pool_push o queued (act (ReleaseRead o) s)).2
        | (Err _, s) => close o queued s
        end
  end.

(** [Session::on_stream_close]. *)
Definition on_stream_close (id : Z) (s : Session) : Session := with_objs s (se_objs s) (delete id (se_streams s)).

(** ** Shutdown *)

Definition with_shutdown (s : Session) : Session :=
  mkSession (se_client s) (se_version s) (se_next_id s) (se_objs s) (se_streams s) (se_pool s) (se_pool_cap s) true (se_unhealthy s) (se_pops s) (se_actions s).

(** [StreamPool::close]. *)
Definition pool_close (s : Session) : Session :=
  foldl (fun s o => close o false (act (NotifyClose o) s)) (with_pool s []) (se_pool s).

(** [Session::close] as far as the streams are concerned, in the order the map lists
    them; what is left out is the notification of its tasks and the unmapping. *)
Definition session_close (s : Session) : Session :=
  if se_shutdown s then s
  else
    let s := pool_close (with_shutdown s) in
    foldl (fun s o => close o false s) (with_objs s (se_objs s) ∅) (map_to_list (se_streams s)).*2.
