(* ===== verification/SessionFacts.v ===== *)
(** * Batched delivery against delivery one by one

    The drain collects the offsets of each stream and hands them over in batches.
    The reference delivers every element as it is popped; both leave the same
    streams behind, release the same blocks and accept the same streams. *)

From Stdlib Require Import ZArith Lia.
From stdpp Require Import base numbers list gmap.
From S2P Require Import Prelude Bytes Protocol BufReader Socket DataQueue WriteBuf ReadBuf Session.

#[local] Open Scope Z_scope.

(** ** The reference *)

Definition deliver_data (e : Element) (s : Session) : Session :=
  match get_stream (stream_id e) STREAM_OPENED s with
  | (Some o, s) =>
      match se_objs s !! o with
      | Some x => flush_batch (mkBatch o (in_generation (so_inbox x)) [e_offset e]) s
      | None => act (Release (e_offset e)) s
      end
  | (None, s) => act (Release (e_offset e)) s
  end.

Definition deliver_one (s : Session) (e : Element) : Session :=
  if op e =? OP_STREAM_DATA then deliver_data e s
  else if op e =? OP_CLOSE_STREAM then handle_v5_close (stream_id e) s
  else s.

Definition elements (pops : list Pop) : list Element :=
  omap (fun p => match p with PReady e => Some e | _ => None end) pops.

(** ** Sessions up to the order of releases and to readable notifications *)

Definition releases (s : Session) : list Z :=
  omap (fun a => match a with Release r => Some r | _ => None end) (se_actions s).

(** The other actions, less the hint that a stream has become readable. *)
Definition others (s : Session) : list Action :=
  omap (fun a => match a with Release _ | NotifyReadable _ => None | _ => Some a end) (se_actions s).

Definition with_actions (s : Session) (l : list Action) : Session :=
  mkSession (se_client s) (se_version s) (se_next_id s) (se_objs s) (se_streams s) (se_pool s) (se_pool_cap s)
    (se_shutdown s) (se_unhealthy s) (se_pops s) l.

(** A session without its record, and with more in front of it. *)
Definition prepend (l : list Action) (s : Session) : Session := with_actions s (l ++ se_actions s).

Definition core (s : Session) : Session := with_actions s [].

Record same_effect (s t : Session) : Prop := {
  sf_core : core s = core t;
  sf_releases : releases s ≡ₚ releases t;
  sf_others : others s = others t;
}.

#[export] Instance same_effect_equiv : Equivalence same_effect.
Proof.
  split.
  - intros s. by split.
  - intros s t [H1 H2 H3]. by split.
  - intros s t u [H1 H2 H3] [G1 G2 G3]. split; [congruence|by rewrite H2|congruence].
Qed.

Lemma prepend_core (s : Session) : prepend (se_actions s) (core s) = s.
Proof. destruct s. unfold prepend, core, with_actions. cbn. by rewrite app_nil_r. Qed.

Lemma releases_prepend (l : list Action) (s : Session) : releases (prepend l s) = releases (prepend l (core s)) ++ releases s.
Proof. unfold releases. cbn. by rewrite app_nil_r, omap_app. Qed.

Lemma others_prepend (l : list Action) (s : Session) : others (prepend l s) = others (prepend l (core s)) ++ others s.
Proof. unfold others. cbn. by rewrite app_nil_r, omap_app. Qed.

(** An operation that does not look at the record respects the equivalence. *)
Lemma same_effect_cong (f : Session -> Session) (s t : Session) :
  (forall l u, f (prepend l u) = prepend l (f u)) -> same_effect s t -> same_effect (f s) (f t).
Proof.
  intros Hf [H1 H2 H3]. rewrite <- (prepend_core s), <- (prepend_core t), !Hf, <- H1. split.
  - done.
  - rewrite (releases_prepend (se_actions s)), (releases_prepend (se_actions t)). apply Permutation_app_tail.
    unfold releases in *. cbn in *. by rewrite !app_nil_r.
  - rewrite (others_prepend (se_actions s)), (others_prepend (se_actions t)). f_equal.
    unfold others in *. cbn in *. by rewrite !app_nil_r.
Qed.

(** ** Operations do not look at the record *)

Lemma act_prepend (a : Action) (l : list Action) (s : Session) : act a (prepend l s) = prepend l (act a s).
Proof. unfold act, prepend, with_actions. cbn. by rewrite app_assoc. Qed.

Lemma half_close_prepend (o : nat) (l : list Action) (s : Session) :
  half_close o (prepend l s) = prepend l (half_close o s).
Proof.
  unfold half_close. cbn [prepend with_actions se_objs]. destruct (se_objs s !! o) as [x|]; [|done]. destruct (so_open x); [|done].
  by rewrite <- act_prepend.
Qed.

Lemma get_stream_prepend (id state : Z) (l : list Action) (s : Session) :
  get_stream id state (prepend l s) = let '(o, t) := get_stream id state s in (o, prepend l t).
Proof.
  unfold get_stream. cbn [prepend with_actions se_streams se_client]. destruct (se_streams s !! id); [done|].
  destruct (negb (se_client s) && (state =? STREAM_OPENED)); [|done]. cbn. f_equal. by rewrite <- act_prepend.
Qed.

Lemma release_offsets_prepend (offs : list Z) (l : list Action) (s : Session) :
  release_offsets offs (prepend l s) = prepend l (release_offsets offs s).
Proof.
  unfold release_offsets. revert s. induction offs as [|o offs IH]; intros s; cbn [foldl]; [done|].
  by rewrite act_prepend, IH.
Qed.

Lemma flush_batch_prepend (b : V5NotifyBatch) (l : list Action) (s : Session) :
  flush_batch b (prepend l s) = prepend l (flush_batch b s).
Proof.
  unfold flush_batch. cbn [prepend with_actions se_objs]. destruct (se_objs s !! ba_obj b) as [x|]; [|apply release_offsets_prepend].
  destruct (add_pending_batch_if_generation _ _ _ _) as [[] inbox]; [|apply release_offsets_prepend].
  by rewrite <- act_prepend.
Qed.

Lemma deliver_one_prepend (e : Element) (l : list Action) (s : Session) :
  deliver_one (prepend l s) e = prepend l (deliver_one s e).
Proof.
  unfold deliver_one, deliver_data, handle_v5_close. destruct (op e =? OP_STREAM_DATA); [|destruct (op e =? OP_CLOSE_STREAM)].
  - rewrite get_stream_prepend. destruct (get_stream _ _ s) as [[o|] t]; [|apply act_prepend].
    cbn [prepend with_actions se_objs]. destruct (se_objs t !! o) as [x|]; [apply flush_batch_prepend|apply act_prepend].
  - rewrite get_stream_prepend. destruct (get_stream _ _ s) as [[o|] t]; [apply half_close_prepend|done].
  - done.
Qed.

Lemma deliver_cong (e : Element) (s t : Session) : same_effect s t -> same_effect (deliver_one s e) (deliver_one t e).
Proof. apply (same_effect_cong (fun u => deliver_one u e)). intros. apply deliver_one_prepend. Qed.

Lemma deliver_all_cong (es : list Element) (s t : Session) :
  same_effect s t -> same_effect (foldl deliver_one s es) (foldl deliver_one t es).
Proof. revert s t. induction es as [|e es IH]; intros s t Hs; cbn [foldl]; [done|]. by apply IH, deliver_cong. Qed.

(** ** What a flush does *)

(** Whether an inbox takes a batch. *)
Definition takes (b : V5NotifyBatch) (x : StreamObj) : bool :=
  (in_generation (so_inbox x) =? ba_generation b) && so_open x.

(** A stream with a batch in its inbox, if it takes it. *)
Definition absorb (b : V5NotifyBatch) (x : StreamObj) : StreamObj :=
  if takes b x
  then set_inbox (mkInbox (in_generation (so_inbox x)) (in_pending (so_inbox x) ++ (InShm <$> ba_offsets b))) x
  else x.

Definition refused (objs : list StreamObj) (b : V5NotifyBatch) : list Z :=
  match objs !! ba_obj b with
  | Some x => if takes b x then [] else ba_offsets b
  | None => ba_offsets b
  end.

Definition absorb_all (bs : list V5NotifyBatch) (objs : list StreamObj) : list StreamObj :=
  foldl (fun objs b => alter (absorb b) (ba_obj b) objs) objs bs.

Lemma set_inbox_same (x : StreamObj) : set_inbox (so_inbox x) x = x.
Proof. by destruct x. Qed.

Lemma release_offsets_eq (offs : list Z) (s : Session) : release_offsets offs s = with_actions s (se_actions s ++ (Release <$> offs)).
Proof.
  unfold release_offsets. revert s. induction offs as [|o offs IH]; intros s; cbn [foldl].
  - rewrite app_nil_r. by destruct s.
  - rewrite IH. unfold act, with_actions. cbn. by rewrite <- app_assoc.
Qed.

Lemma alter_none (f : StreamObj -> StreamObj) (o : nat) (objs : list StreamObj) : objs !! o = None -> alter f o objs = objs.
Proof. intros Hn. apply list_eq. intros i. rewrite list_lookup_alter. case_decide; [subst; by rewrite Hn|done]. Qed.

Lemma alter_same (f : StreamObj -> StreamObj) (o : nat) (objs : list StreamObj) (x : StreamObj) :
  objs !! o = Some x -> f x = x -> alter f o objs = objs.
Proof. intros Hx Hf. rewrite <- (list_alter_id (fun y => y) objs o) at 2 by done. apply list_alter_ext; [|done]. intros y Hy. congruence. Qed.

Lemma omap_release (offs : list Z) :
  omap (fun a => match a with Release r => Some r | _ => None end) (Release <$> offs) = offs.
Proof. induction offs as [|o offs IH]; cbn; [done|]. by rewrite IH. Qed.

Lemma omap_not_release (offs : list Z) :
  omap (fun a => match a with Release _ | NotifyReadable _ => None | _ => Some a end) (Release <$> offs) = [].
Proof. induction offs as [|o offs IH]; cbn; done. Qed.

Lemma release_offsets_effect (offs : list Z) (s : Session) :
  core (release_offsets offs s) = core s /\ releases (release_offsets offs s) = releases s ++ offs /\
  others (release_offsets offs s) = others s.
Proof.
  rewrite release_offsets_eq. unfold releases, others. cbn. rewrite !omap_app, omap_release, omap_not_release, app_nil_r.
  done.
Qed.

Definition flushed (objs : list StreamObj) (rel : list Z) (s t : Session) : Prop :=
  core t = core (with_objs s objs (se_streams s)) /\ releases t = releases s ++ rel /\ others t = others s.

Lemma flush_batch_effect (b : V5NotifyBatch) (s : Session) :
  flushed (alter (absorb b) (ba_obj b) (se_objs s)) (refused (se_objs s) b) s (flush_batch b s).
Proof.
  unfold flushed, flush_batch, refused. destruct (se_objs s !! ba_obj b) as [x|] eqn:Ex.
  2:{ rewrite alter_none by done. destruct (release_offsets_effect (ba_offsets b) s) as (-> & -> & ->). by destruct s. }
  unfold add_pending_batch_if_generation. destruct (is_nil (ba_offsets b)) eqn:En.
  - destruct (ba_offsets b) eqn:Eo; [|done]. unfold upd_obj.
    rewrite (alter_same (set_inbox (so_inbox x)) _ _ x Ex) by apply set_inbox_same.
    rewrite (alter_same (absorb b) _ _ x Ex).
    2:{ unfold absorb. destruct (takes b x); [|done]. rewrite Eo. cbn. rewrite app_nil_r. destruct x as [? ? ? []]. done. }
    replace (if takes b x then [] else []) with (@nil Z) by (by destruct (takes b x)).
    unfold releases, others. cbn. rewrite !omap_app. cbn. by rewrite !app_nil_r.
  - rewrite <- negb_andb. fold (takes b x). destruct (takes b x) eqn:Et; cbn [negb].
    + unfold upd_obj.
      rewrite (list_alter_ext (set_inbox _) (absorb b) (se_objs s) (se_objs s) (ba_obj b)); [|intros y Hy|done].
      * unfold releases, others. cbn. rewrite !omap_app. cbn. by rewrite !app_nil_r.
      * replace y with x by congruence. unfold absorb. by rewrite Et.
    + rewrite (alter_same (absorb b) _ _ x Ex) by (unfold absorb; by rewrite Et).
      destruct (release_offsets_effect (ba_offsets b) s) as (-> & -> & ->). by destruct s.
Qed.

(** Absorbing a batch changes neither what other batches find nor the fields
    that decide about them. *)
Lemma absorb_keeps (b : V5NotifyBatch) (x : StreamObj) :
  in_generation (so_inbox (absorb b x)) = in_generation (so_inbox x) /\ so_open (absorb b x) = so_open x /\
  so_id (absorb b x) = so_id x /\ so_state (absorb b x) = so_state x.
Proof. unfold absorb. by destruct (takes b x). Qed.

Lemma refused_absorb (b b' : V5NotifyBatch) (objs : list StreamObj) :
  refused (alter (absorb b) (ba_obj b) objs) b' = refused objs b'.
Proof.
  unfold refused. rewrite list_lookup_alter. case_decide as E; [|done]. rewrite E. destruct (objs !! ba_obj b') as [x|]; [|done].
  cbn. unfold takes. destruct (absorb_keeps b x) as (-> & -> & _). done.
Qed.

Lemma flush_all_effect (bs : list V5NotifyBatch) (s : Session) :
  flushed (absorb_all bs (se_objs s)) (concat (refused (se_objs s) <$> bs)) s (flush_v5_batches bs s).
Proof.
  revert s. induction bs as [|b bs IH]; intros s; cbn [absorb_all foldl flush_v5_batches fmap list_fmap concat].
  - unfold flushed. rewrite app_nil_r. by destruct s.
  - destruct (flush_batch_effect b s) as (E1 & E2 & E3). destruct (IH (flush_batch b s)) as (F1 & F2 & F3).
    fold (flush_v5_batches bs (flush_batch b s)). unfold flushed. rewrite F1, F2, F3, E2, E3.
    assert (Eo : se_objs (flush_batch b s) = alter (absorb b) (ba_obj b) (se_objs s)) by (apply (f_equal se_objs) in E1; done).
    rewrite Eo. split; [|split; [|done]].
    + set (objs := foldl _ _ _). change (with_objs (core (flush_batch b s)) objs (se_streams (core (flush_batch b s)))
        = core (with_objs s objs (se_streams s))). by rewrite E1.
    + rewrite <- app_assoc. do 3 f_equal. apply list_fmap_ext. intros i b' _. apply refused_absorb.
Qed.

Lemma flushed_same (objs : list StreamObj) (r1 r2 : list Z) (s t1 t2 : Session) :
  flushed objs r1 s t1 -> flushed objs r2 s t2 -> r1 ≡ₚ r2 -> same_effect t1 t2.
Proof.
  intros (H1 & H2 & H3) (G1 & G2 & G3) Hr. split; [congruence| |congruence]. by rewrite H2, G2, Hr.
Qed.

Lemma flushed_trans (o1 o2 : list StreamObj) (r1 r2 : list Z) (s t u : Session) :
  flushed o1 r1 s t -> flushed o2 r2 t u -> flushed o2 (r1 ++ r2) s u.
Proof.
  intros (H1 & H2 & H3) (G1 & G2 & G3). split; [|split].
  - rewrite G1. change (with_objs (core t) o2 (se_streams (core t)) = core (with_objs s o2 (se_streams s))). by rewrite H1.
  - by rewrite G2, H2, app_assoc.
  - congruence.
Qed.

Lemma same_objs (s t : Session) : same_effect s t -> se_objs s = se_objs t.
Proof. intros [H1 _ _]. by apply (f_equal se_objs) in H1. Qed.

(** ** Well-formed sessions and batches *)

(** The map names existing objects, each under its own id. *)
Definition sess_ok (s : Session) : Prop :=
  forall id o, se_streams s !! id = Some o -> exists x, se_objs s !! o = Some x /\ so_id x = id.

(** Open batches are for distinct objects, at their current generation. *)
Definition batches_ok (objs : list StreamObj) (bs : list V5NotifyBatch) : Prop :=
  NoDup (ba_obj <$> bs) /\
  Forall (fun b => exists x, objs !! ba_obj b = Some x /\ in_generation (so_inbox x) = ba_generation b) bs.

Lemma absorb_all_lookup (bs : list V5NotifyBatch) (objs : list StreamObj) (o : nat) :
  match objs !! o, absorb_all bs objs !! o with
  | Some x, Some y => in_generation (so_inbox y) = in_generation (so_inbox x) /\ so_open y = so_open x /\ so_id y = so_id x
  | None, None => True
  | _, _ => False
  end.
Proof.
  revert objs. induction bs as [|b bs IH]; intros objs; cbn [absorb_all foldl]; [by destruct (objs !! o)|].
  specialize (IH (alter (absorb b) (ba_obj b) objs)). unfold absorb_all in IH. rewrite list_lookup_alter in IH.
  case_decide as E; [|done]. subst o. destruct (objs !! ba_obj b) as [x|]; cbn [fmap option_fmap option_map] in IH; [|done].
  destruct (foldl _ _ bs !! ba_obj b) as [y|]; [|done]. destruct (absorb_keeps b x) as (K1 & K2 & K3 & _). by rewrite K1, K2, K3 in IH.
Qed.

Lemma absorb_all_length (bs : list V5NotifyBatch) (objs : list StreamObj) : length (absorb_all bs objs) = length objs.
Proof.
  revert objs. induction bs as [|b bs IH]; intros objs; cbn [absorb_all foldl]; [done|].
  etransitivity; [apply IH|]. apply length_alter.
Qed.

Lemma absorb_all_app_r (bs : list V5NotifyBatch) (objs : list StreamObj) (x : StreamObj) :
  Forall (fun b => (ba_obj b < length objs)%nat) bs -> absorb_all bs (objs ++ [x]) = absorb_all bs objs ++ [x].
Proof.
  revert objs. induction bs as [|b bs IH]; intros objs Hb; cbn [absorb_all foldl]; [done|]. apply Forall_cons in Hb as [Hb Hbs].
  rewrite alter_app_l by done. apply IH. eapply Forall_impl; [done|]. intros b'. by rewrite length_alter.
Qed.

Lemma batches_in_range (objs : list StreamObj) (bs : list V5NotifyBatch) :
  batches_ok objs bs -> Forall (fun b => (ba_obj b < length objs)%nat) bs.
Proof. intros [_ Hb]. eapply Forall_impl; [done|]. intros b (x & Hx & _). by apply lookup_lt_Some in Hx. Qed.

(** Looking a stream up before or after a flush. *)
Lemma get_stream_flush (id state : Z) (bs : list V5NotifyBatch) (s : Session) :
  batches_ok (se_objs s) bs ->
  let '(o, s1) := get_stream id state s in
  exists t, get_stream id state (flush_v5_batches bs s) = (o, t) /\ same_effect t (flush_v5_batches bs s1).
Proof.
  intros Hbs. destruct (flush_all_effect bs s) as (F1 & F2 & F3). set (T := flush_v5_batches bs s) in *.
  assert (Es : se_streams T = se_streams s) by (by apply (f_equal se_streams) in F1).
  assert (Ec : se_client T = se_client s) by (by apply (f_equal se_client) in F1).
  assert (Eo : se_objs T = absorb_all bs (se_objs s)) by (by apply (f_equal se_objs) in F1).
  unfold get_stream. rewrite Es, Ec. destruct (se_streams s !! id) as [o|]; [by exists T|].
  destruct (negb (se_client s) && (state =? STREAM_OPENED)); [|by exists T]. cbn [insert_stream].
  rewrite Eo, Es, absorb_all_length. eexists. split; [reflexivity|].
  set (n := length (se_objs s)).
  set (s1 := act (Accept n) (with_objs s (se_objs s ++ [stream_new id]) (<[id := n]> (se_streams s)))).
  destruct (flush_all_effect bs s1) as (G1 & G2 & G3).
  assert (Er : concat (refused (se_objs s1) <$> bs) = concat (refused (se_objs s) <$> bs)).
  { f_equal. apply list_fmap_ext. intros i b Hb. unfold refused, s1. cbn.
    rewrite lookup_app_l; [done|]. eapply Forall_lookup in Hb; [|apply (batches_in_range _ _ Hbs)]. done. }
  split.
  - rewrite G1. unfold s1. cbn [act with_objs se_objs se_streams]. rewrite absorb_all_app_r by by apply batches_in_range.
    change (with_objs (core T) (absorb_all bs (se_objs s) ++ [stream_new id]) (<[id:=n]> (se_streams s)) =
            with_objs (core s) (absorb_all bs (se_objs s) ++ [stream_new id]) (<[id:=n]> (se_streams s))).
    rewrite F1. reflexivity.
  - rewrite G2, Er. unfold releases in *. cbn. rewrite !omap_app, F2. cbn. by rewrite !app_nil_r.
  - rewrite G3. unfold others in *. cbn. rewrite !omap_app, F3. done.
Qed.

(** ** One element *)

Definition more (b : V5NotifyBatch) (offset : Z) : V5NotifyBatch :=
  mkBatch (ba_obj b) (ba_generation b) (ba_offsets b ++ [offset]).

Lemma join_spec (o : nat) (g offset : Z) (bs : list V5NotifyBatch) :
  match join_batch o g offset bs with
  | Some bs' => exists l1 b l2, bs = l1 ++ b :: l2 /\ ba_obj b = o /\ ba_generation b = g /\ bs' = l1 ++ more b offset :: l2
  | None => Forall (fun b => ba_obj b = o -> ba_generation b <> g) bs
  end.
Proof.
  induction bs as [|b bs IH]; cbn [join_batch]; [by constructor|].
  destruct ((ba_obj b =? o)%nat && (ba_generation b =? g)) eqn:E.
  - apply andb_true_iff in E as [E1 E2]. apply Nat.eqb_eq in E1. apply Z.eqb_eq in E2. by exists [], b, bs.
  - destruct (join_batch o g offset bs) as [bs'|]; cbn [mbind option_bind].
    + destruct IH as (l1 & b' & l2 & -> & H1 & H2 & ->). by exists (b :: l1), b', l2.
    + constructor; [|done]. intros <- <-. by rewrite Nat.eqb_refl, Z.eqb_refl in E.
Qed.

Lemma absorb_more (b : V5NotifyBatch) (offset : Z) (x : StreamObj) :
  absorb (more b offset) x = absorb (mkBatch (ba_obj b) (ba_generation b) [offset]) (absorb b x).
Proof.
  unfold absorb at 1 2. unfold takes at 2. cbn [ba_generation]. destruct (absorb_keeps b x) as (-> & -> & _).
  unfold absorb, takes. cbn [more ba_generation ba_offsets]. destruct (_ && so_open x); [|done].
  unfold set_inbox. cbn. by rewrite fmap_app, <- app_assoc.
Qed.

Lemma absorb_all_alter (f : StreamObj -> StreamObj) (o : nat) (bs : list V5NotifyBatch) (objs : list StreamObj) :
  ~ In o (ba_obj <$> bs) -> absorb_all bs (alter f o objs) = alter f o (absorb_all bs objs).
Proof.
  revert objs. induction bs as [|b bs IH]; intros objs Hn; cbn [absorb_all foldl]; [done|].
  change (absorb_all bs (alter (absorb b) (ba_obj b) (alter f o objs)) =
          alter f o (absorb_all bs (alter (absorb b) (ba_obj b) objs))).
  rewrite <- IH by (intros Hin; apply Hn; by right). f_equal. apply list_alter_alter_ne. intros E. apply Hn. left. done.
Qed.

(** A joined batch flushes like the batch and the single offset after it. *)
Lemma flush_joined (l1 l2 : list V5NotifyBatch) (b : V5NotifyBatch) (offset : Z) (s : Session) :
  ~ In (ba_obj b) (ba_obj <$> l2) ->
  same_effect (flush_v5_batches (l1 ++ more b offset :: l2) s)
    (flush_batch (mkBatch (ba_obj b) (ba_generation b) [offset]) (flush_v5_batches (l1 ++ b :: l2) s)).
Proof.
  intros Hn. set (nb := mkBatch _ _ _). pose proof (flush_all_effect (l1 ++ more b offset :: l2) s) as H1.
  pose proof (flushed_trans _ _ _ _ _ _ _ (flush_all_effect (l1 ++ b :: l2) s) (flush_batch_effect nb _)) as H2.
  assert (Eo : se_objs (flush_v5_batches (l1 ++ b :: l2) s) = absorb_all (l1 ++ b :: l2) (se_objs s)).
  { destruct (flush_all_effect (l1 ++ b :: l2) s) as (E & _). by apply (f_equal se_objs) in E. }
  assert (Ea : alter (absorb nb) (ba_obj nb) (absorb_all (l1 ++ b :: l2) (se_objs s)) = absorb_all (l1 ++ more b offset :: l2) (se_objs s)).
  { unfold absorb_all. rewrite !foldl_app. cbn [foldl]. fold (absorb_all l1 (se_objs s)). set (O1 := absorb_all l1 (se_objs s)).
    change (alter (absorb nb) (ba_obj nb) (absorb_all l2 (alter (absorb b) (ba_obj b) O1)) =
            absorb_all l2 (alter (absorb (more b offset)) (ba_obj b) O1)).
    rewrite <- absorb_all_alter by done. f_equal. cbn [ba_obj nb]. rewrite list_alter_alter_eq.
    apply list_alter_ext; [|done]. intros x _. symmetry. apply absorb_more. }
  rewrite Eo, Ea in H2. apply (flushed_same _ _ _ _ _ _ H1 H2). clear H1 H2 Ea Eo.
  rewrite !fmap_app. cbn [fmap list_fmap]. rewrite !concat_app. cbn [concat]. rewrite <- !app_assoc. apply Permutation_app_head.
  assert (Er : refused (se_objs s) (more b offset) = refused (se_objs s) b ++ refused (absorb_all (l1 ++ b :: l2) (se_objs s)) nb).
  { unfold refused. cbn [more ba_obj ba_offsets nb]. pose proof (absorb_all_lookup (l1 ++ b :: l2) (se_objs s) (ba_obj b)) as Hk.
    destruct (se_objs s !! ba_obj b) as [x|]; destruct (absorb_all _ _ !! ba_obj b) as [y|]; try done.
    unfold takes. cbn [ba_generation]. destruct Hk as (-> & -> & _). by destruct (_ && so_open x). }
  rewrite Er, <- app_assoc. apply Permutation_app_head, Permutation_app_comm.
Qed.

Lemma get_stream_ok (id state : Z) (s : Session) :
  sess_ok s -> let '(o, t) := get_stream id state s in
  sess_ok t /\ (exists l, se_objs t = se_objs s ++ l) /\
  match o with Some o => exists x, se_objs t !! o = Some x /\ so_id x = id | None => t = s end.
Proof.
  intros Hok. unfold get_stream. destruct (se_streams s !! id) as [o|] eqn:Eo.
  - split; [done|]. split; [exists []; by rewrite app_nil_r|]. by apply Hok.
  - destruct (negb (se_client s) && (state =? STREAM_OPENED)); [|split; [done|split; [exists []; by rewrite app_nil_r|done]]].
    cbn. assert (El : (se_objs s ++ [stream_new id]) !! length (se_objs s) = Some (stream_new id)) by apply list_lookup_middle, eq_refl.
    split; [|split; [by eexists|by exists (stream_new id)]].
    intros i o Hi. cbn in Hi. apply lookup_insert_Some in Hi as [[<- <-]|[_ Hi]]; [by exists (stream_new id)|].
    destruct (Hok i o Hi) as (x & Hx & Hid). exists x. split; [|done]. cbn. by apply lookup_app_l_Some.
Qed.

Lemma batch_step (e : Element) (bs : list V5NotifyBatch) (s : Session) :
  sess_ok s -> batches_ok (se_objs s) bs ->
  let '(bs', s') := batch_v5_data e bs s in
  sess_ok s' /\ batches_ok (se_objs s') bs' /\
  same_effect (flush_v5_batches bs' s') (deliver_data e (flush_v5_batches bs s)).
Proof.
  intros Hok Hbs. unfold batch_v5_data, deliver_data. pose proof (get_stream_ok (stream_id e) STREAM_OPENED s Hok) as Hg.
  pose proof (get_stream_flush (stream_id e) STREAM_OPENED bs s Hbs) as Hf.
  destruct (get_stream _ _ s) as [[o|] s1].
  2:{ destruct Hg as (Hok1 & _ & ->). destruct Hf as (t & -> & Ht). split; [done|]. split; [done|].
      etransitivity; [|apply (same_effect_cong (act (Release (e_offset e)))); [intros; apply act_prepend|symmetry; exact Ht]].
      pose proof (flush_all_effect bs (act (Release (e_offset e)) s)) as (F1 & F2 & F3).
      destruct (flush_all_effect bs s) as (G1 & G2 & G3). split.
      - rewrite F1. symmetry. exact G1.
      - rewrite F2. unfold releases in *. cbn. rewrite !omap_app, G2, <- !app_assoc. apply Permutation_app_head, Permutation_app_comm.
      - rewrite F3. unfold others in *. cbn. rewrite !omap_app, G3. done. }
  destruct Hg as (Hok1 & (l & El) & x & Hx & _). destruct Hf as (t & -> & Ht). rewrite Hx.
  assert (Hbs1 : batches_ok (se_objs s1) bs).
  { split; [apply Hbs|]. eapply Forall_impl; [apply Hbs|]. intros b (y & Hy & Hgen). exists y. split; [|done].
    rewrite El. by apply lookup_app_l_Some. }
  pose proof (absorb_all_lookup bs (se_objs s1) o) as Hk. rewrite Hx in Hk.
  assert (Eo : se_objs t = absorb_all bs (se_objs s1)).
  { rewrite (same_objs _ _ Ht). destruct (flush_all_effect bs s1) as (E & _). by apply (f_equal se_objs) in E. }
  rewrite Eo. destruct (absorb_all bs (se_objs s1) !! o) as [y|]; [|done]. destruct Hk as (-> & _ & _).
  set (g := in_generation (so_inbox x)). set (nb := mkBatch o g [e_offset e]).
  assert (Hc : same_effect (flush_batch nb (flush_v5_batches bs s1)) (flush_batch nb t)).
  { apply same_effect_cong; [intros; apply flush_batch_prepend|by symmetry]. }
  pose proof (join_spec o g (e_offset e) bs) as Hj. destruct (join_batch o g (e_offset e) bs) as [bs'|].
  - destruct Hj as (l1 & b & l2 & -> & Hb1 & Hb2 & ->). split; [done|]. destruct Hbs1 as [Hnd Hall]. rewrite fmap_app in Hnd. split.
    + split; [by rewrite fmap_app|]. apply Forall_app in Hall as [Ha1 Ha2]. apply Forall_cons in Ha2 as [Ha2 Ha3].
      apply Forall_app. split; [done|]. by constructor.
    + etransitivity; [|exact Hc]. unfold nb. rewrite <- Hb1, <- Hb2. apply flush_joined.
      apply NoDup_app in Hnd as (_ & _ & Hnd). apply NoDup_cons in Hnd as [Hnd _]. by rewrite <- list_elem_of_In.
  - split; [done|]. split.
    + destruct Hbs1 as [Hnd Hall]. split.
      * rewrite fmap_app. apply NoDup_app. split; [done|]. split; [|apply NoDup_singleton].
        intros i Hi Hin. apply list_elem_of_singleton in Hin. cbn in Hin. subst i. apply list_elem_of_fmap in Hi as (b & -> & Hb).
        rewrite Forall_forall in Hj, Hall. destruct (Hall b Hb) as (z & Hz & Hgz). apply (Hj b Hb eq_refl).
        unfold g. congruence.
      * apply Forall_app. split; [done|]. apply Forall_singleton. by exists x.
    + etransitivity; [|exact Hc]. unfold flush_v5_batches. rewrite foldl_app. done.
Qed.

(** ** The whole drain *)

Lemma sess_ok_core (s t : Session) : core s = core t -> sess_ok s -> sess_ok t.
Proof.
  intros E Hok id o. pose proof (f_equal se_streams E) as E1. pose proof (f_equal se_objs E) as E2. cbn in E1, E2.
  rewrite <- E1, <- E2. apply Hok.
Qed.

Lemma flush_ok (bs : list V5NotifyBatch) (s : Session) : sess_ok s -> sess_ok (flush_v5_batches bs s).
Proof.
  intros Hok. destruct (flush_all_effect bs s) as (E & _). apply (sess_ok_core _ _ (eq_sym E)).
  intros id o Hid. cbn in *. destruct (Hok id o Hid) as (x & Hx & Hi). pose proof (absorb_all_lookup bs (se_objs s) o) as Hk.
  rewrite Hx in Hk. destruct (absorb_all _ _ !! o) as [y|]; [|done]. exists y. split; [done|]. destruct Hk as (_ & _ & ->). done.
Qed.

Lemma upd_obj_ok (o : nat) (f : StreamObj -> StreamObj) (s : Session) :
  (forall x, so_id (f x) = so_id x) -> sess_ok s -> sess_ok (upd_obj o f s).
Proof.
  intros Hf Hok id i Hi. destruct (Hok id i Hi) as (x & Hx & Hid). cbn. rewrite list_lookup_alter.
  case_decide as E; [subst; rewrite Hx; exists (f x); split; [done|apply Hf]|by exists x].
Qed.

Lemma act_ok (a : Action) (s : Session) : sess_ok s -> sess_ok (act a s).
Proof. apply sess_ok_core. done. Qed.

Lemma half_close_ok (o : nat) (s : Session) : sess_ok s -> sess_ok (half_close o s).
Proof.
  intros Hok. unfold half_close. destruct (se_objs s !! o) as [x|]; [|done]. destruct (so_open x); [|done].
  by apply act_ok, upd_obj_ok.
Qed.

Lemma handle_v5_close_ok (id : Z) (s : Session) : sess_ok s -> sess_ok (handle_v5_close id s).
Proof.
  intros Hok. unfold handle_v5_close. pose proof (get_stream_ok id STREAM_CLOSED s Hok) as Hg.
  destruct (get_stream id STREAM_CLOSED s) as [[o|] t]; destruct Hg as (H1 & _ & _); [by apply half_close_ok|done].
Qed.

Lemma batches_nil (objs : list StreamObj) : batches_ok objs [].
Proof. split; constructor. Qed.

Lemma drain_element_step (e : Element) (bs : list V5NotifyBatch) (s : Session) :
  sess_ok s -> batches_ok (se_objs s) bs ->
  let '(bs', s') := drain_element e bs s in
  sess_ok s' /\ batches_ok (se_objs s') bs' /\ same_effect (flush_v5_batches bs' s') (deliver_one (flush_v5_batches bs s) e).
Proof.
  intros Hok Hbs. unfold drain_element, deliver_one. destruct (op e =? OP_STREAM_DATA); [by apply batch_step|].
  destruct (op e =? OP_CLOSE_STREAM); [|done].
  split; [by apply handle_v5_close_ok, flush_ok|]. split; [apply batches_nil|]. done.
Qed.

(** How a drain can end, by what it saw last and what the queue shows next. *)
Definition drain_end (wait : bool) (seen rest : list Pop) (err : option SessError) : Prop :=
  match err with
  | None => (forall e rest', rest <> PReady e :: rest') /\
      (rest = [] \/ last seen = Some PEmpty \/ (wait = false /\ exists b, last seen = Some (PNotReady b)))
  | Some QueuePublishTimeout => wait = true /\ last seen = Some (PNotReady true)
  | Some e => e = QueueClosed /\ last seen = Some PClosed
  end.

Lemma drain_end_cons (wait : bool) (p : Pop) (seen rest : list Pop) (err : option SessError) :
  drain_end wait seen rest err -> drain_end wait (p :: seen) rest err.
Proof.
  assert (Hl : forall q, last seen = Some q -> last (p :: seen) = Some q) by (intros q Hq; rewrite last_cons, Hq; done).
  unfold drain_end. destruct err as [[]|]; try (intros [H1 H2]; split; [done|by apply Hl]); try (intros [? _]; done).
  intros [H1 H2]. split; [done|]. destruct H2 as [H2|[H2|[H2 [b H3]]]]; [by left|right; left; by apply Hl|].
  right. right. split; [done|]. exists b. by apply Hl.
Qed.

Definition drained_like (wait : bool) (pops : list Pop) (s0 : Session) (r : option SessError * list Pop * Session) : Prop :=
  let '(err, rest, s') := r in
  exists seen, pops = seen ++ rest /\ sess_ok s' /\ same_effect s' (foldl deliver_one s0 (elements seen)) /\
    drain_end wait seen rest err.

Lemma drained_cons (wait : bool) (p : Pop) (pops : list Pop) (s0 s1 : Session) (r : option SessError * list Pop * Session) :
  drained_like wait pops s1 r -> same_effect s1 (foldl deliver_one s0 (elements [p])) -> drained_like wait (p :: pops) s0 r.
Proof.
  destruct r as [[err rest] s']. intros (seen & -> & H1 & H2 & H3) Hs. exists (p :: seen). split; [done|]. split; [done|]. split.
  - etransitivity; [exact H2|]. replace (elements (p :: seen)) with (elements [p] ++ elements seen) by (by destruct p).
    rewrite foldl_app. by apply deliver_all_cong.
  - by apply drain_end_cons.
Qed.

Lemma session_drain_spec (wait : bool) (pops : list Pop) (bs : list V5NotifyBatch) (s : Session) :
  sess_ok s -> batches_ok (se_objs s) bs ->
  drained_like wait pops (flush_v5_batches bs s) (drain_loop wait pops bs s).
Proof.
  assert (Hstop : forall p rest err bs s, sess_ok s -> elements [p] = [] -> drain_end wait [p] rest err ->
    drained_like wait (p :: rest) (flush_v5_batches bs s) (err, rest, flush_v5_batches bs s)).
  { intros p rest err bs0 s0 Hok0 Hel Hend. exists [p]. split; [done|]. split; [by apply flush_ok|]. by rewrite Hel. }
  assert (Hagain : forall p rest bs s, sess_ok s -> elements [p] = [] ->
    (forall bs s, sess_ok s -> batches_ok (se_objs s) bs -> drained_like wait rest (flush_v5_batches bs s) (drain_loop wait rest bs s)) ->
    ((forall e rest', rest <> PReady e :: rest') -> drain_end wait [p] rest None) ->
    drained_like wait (p :: rest) (flush_v5_batches bs s)
      match rest with PReady _ :: _ => drain_loop wait rest [] (flush_v5_batches bs s) | _ => (None, rest, flush_v5_batches bs s) end).
  { intros p rest bs0 s0 Hok0 Hel IH Hend. destruct rest as [|[e| | |] rest'] eqn:Er; [by apply Hstop, Hend| |by apply Hstop, Hend..].
    apply (drained_cons _ _ _ _ (flush_v5_batches bs0 s0)); [|by rewrite Hel].
    apply (IH [] (flush_v5_batches bs0 s0)); [by apply flush_ok|apply batches_nil]. }
  revert bs s. induction pops as [|p pops IH]; intros bs s Hok Hbs; cbn [drain_loop].
  { exists []. split; [done|]. split; [by apply flush_ok|]. split; [done|]. split; [done|by left]. }
  destruct p as [e|elapsed| |].
  - pose proof (drain_element_step e bs s Hok Hbs) as He. destruct (drain_element e bs s) as [bs1 s1].
    destruct He as (H1 & H2 & H3). apply (drained_cons _ _ _ _ (flush_v5_batches bs1 s1)); [by apply IH|done].
  - destruct wait; [destruct elapsed|].
    + by apply Hstop.
    + apply (drained_cons _ _ _ _ (flush_v5_batches bs s)); [by apply IH|done].
    + apply Hagain; [done|done|done|]. intros Hr. split; [done|]. right. right. split; [done|]. by exists elapsed.
  - apply Hagain; [done|done|done|]. intros Hr. split; [done|]. right. by left.
  - by apply Hstop.
Qed.
