(* ===== verification/SessionTheorems.v ===== *)
(** * Sessions: the drain, and the life of streams *)

From Stdlib Require Import ZArith Lia.
From stdpp Require Import base numbers list gmap relations.
From S2P Require Import Prelude Bytes Protocol BufReader Socket DataQueue WriteBuf ReadBuf Session SessionFacts.

#[local] Open Scope Z_scope.

(** C15. Batching changes nothing but the order of hand-backs: a drain of the
    receive queue, over any sequence of pops it observes, leaves the session as
    delivering each popped element by itself would -- the same streams, inboxes
    and states, the same streams accepted and closed in the same order, the same
    blocks released -- and it stops only on an empty or unpublished head with
    nothing published behind it, on a timeout or on a closed queue; a barrier
    never stops at an unpublished head in time.  A closed session pops nothing. *)
Theorem drain_batches_exact (wait : bool) (s : Session) :
  sess_ok s ->
  let '(err, s') := drain_v5 wait s in
  exists seen, se_pops s = seen ++ se_pops s' /\ sess_ok s' /\
    same_effect s' (with_pops (foldl deliver_one s (elements seen)) (se_pops s')) /\
    (if se_shutdown s then seen = [] /\ err = (if wait then Some Shutdown else None) else drain_end wait seen (se_pops s') err).
Proof.
  intros Hok. unfold drain_v5. destruct (se_shutdown s); [by exists []; destruct s|]. pose proof (session_drain_spec wait (se_pops s) [] s Hok (batches_nil _)) as Hd.
  destruct (drain_loop wait (se_pops s) [] s) as [[err rest] s1]. destruct Hd as (seen & E & Hok1 & [H1 H2 H3] & Hend).
  exists seen. split; [done|]. split; [done|]. split; [|done]. split; [|done|done].
  change (with_pops (core s1) rest = with_pops (core (foldl deliver_one s (elements seen))) rest). by rewrite H1.
Qed.

(** ** Streams over the life of a session *)

(** Everything that changes a session's streams. *)
Inductive sess_step : Session -> Session -> Prop :=
| ss_drain wait s : sess_step s (drain_v5 wait s).2
| ss_fallback id status bytes s : sess_step s (handle_fallback_payload id status bytes s).1
| ss_close_event id s : sess_step s (close_stream_event id s).1
| ss_arrive pops s : sess_step s (with_pops s pops)
| ss_open res s s' : get_or_open_stream s = (res, s') -> sess_step s s'
| ss_put o unread queued s : sess_step s (put_or_close_stream o unread queued s)
| ss_close o queued s : sess_step s (close o queued s)
| ss_read o inbox s : sess_step s (upd_obj o (set_inbox inbox) s)
| ss_shutdown s : sess_step s (session_close s).

Definition rank (state : Z) : Z :=
  if state =? STREAM_OPENED then 0 else if state =? STREAM_HALF_CLOSED then 1 else 2.

(** Streams are never forgotten as objects, keep their id, and only move from
    open to half closed to closed. *)
Definition moves_on (s t : Session) : Prop :=
  forall o x, se_objs s !! o = Some x -> exists y, se_objs t !! o = Some y /\ so_id y = so_id x /\
    rank (so_state x) <= rank (so_state y) /\ (so_state x = STREAM_CLOSED -> so_state y = STREAM_CLOSED).

#[local] Instance moves_on_preorder : PreOrder moves_on.
Proof.
  split.
  - intros s o x Hx. by exists x.
  - intros s t u H1 H2 o x Hx. destruct (H1 o x Hx) as (y & Hy & E1 & R1 & C1). destruct (H2 o y Hy) as (z & Hz & E2 & R2 & C2).
    exists z. split; [done|]. split; [congruence|]. split; [lia|auto].
Qed.

(** The map names each object under its own id, and never a closed stream. *)
Definition sess_inv (s : Session) : Prop :=
  sess_ok s /\ forall id o x, se_streams s !! id = Some o -> se_objs s !! o = Some x -> so_state x <> STREAM_CLOSED.

Definition advances (s t : Session) : Prop := (sess_inv s -> sess_inv t) /\ moves_on s t.

#[local] Instance advances_preorder : PreOrder advances.
Proof.
  split.
  - intros s. by split.
  - intros s t u [H1 H2] [H3 H4]. split; [auto|by transitivity t].
Qed.

(** No more streams in the map, and the same objects. *)
Lemma advances_sub (s t : Session) : se_objs t = se_objs s -> se_streams t ⊆ se_streams s -> advances s t.
Proof.
  intros E1 E2. split.
  - intros [Hok Hlive]. split.
    + intros id o Ho. rewrite E1. apply Hok. by eapply lookup_weaken.
    + intros id o x Ho. rewrite E1. apply (Hlive id). by eapply lookup_weaken.
  - intros o x Hx. exists x. by rewrite E1.
Qed.

Lemma advances_objs (s t : Session) : se_objs t = se_objs s -> se_streams t = se_streams s -> advances s t.
Proof. intros E1 E2. apply advances_sub; [done|by rewrite E2]. Qed.

Lemma advances_delete (id : Z) (s t : Session) : se_objs t = se_objs s -> se_streams t = delete id (se_streams s) -> advances s t.
Proof. intros E1 E2. apply advances_sub; [done|]. rewrite E2. apply delete_subseteq. Qed.

Lemma moves_upd (o : nat) (f : StreamObj -> StreamObj) (s : Session) :
  (forall x, so_id (f x) = so_id x) ->
  (forall x, se_objs s !! o = Some x -> rank (so_state x) <= rank (so_state (f x)) /\ (so_state x = STREAM_CLOSED -> so_state (f x) = STREAM_CLOSED)) ->
  moves_on s (upd_obj o f s).
Proof.
  intros Hid Hr i x Hx. cbn. rewrite list_lookup_alter. case_decide as E; [|by exists x].
  subst i. rewrite Hx. exists (f x). split; [done|]. split; [apply Hid|]. by apply Hr.
Qed.

(** An update of a stream that does not close it. *)
Lemma advances_upd (o : nat) (f : StreamObj -> StreamObj) (s : Session) :
  (forall x, so_id (f x) = so_id x) ->
  (forall x, se_objs s !! o = Some x -> rank (so_state x) <= rank (so_state (f x)) /\ (so_state (f x) = STREAM_CLOSED <-> so_state x = STREAM_CLOSED)) ->
  advances s (upd_obj o f s).
Proof.
  intros Hid Hr. split.
  - intros [Hok Hlive]. split; [by apply upd_obj_ok|]. intros id i x Hi Hx. cbn in Hi, Hx. rewrite list_lookup_alter in Hx.
    case_decide as E; [|by apply (Hlive id i)]. subst i. destruct (se_objs s !! o) as [y|] eqn:Ey; [|done]. cbn in Hx.
    simplify_eq. intros Hc. apply (Hr y eq_refl) in Hc. by apply (Hlive id o y).
  - apply moves_upd; [done|]. intros x Hx. destruct (Hr x Hx) as [H1 H2]. split; [done|apply H2].
Qed.

Lemma advances_half_close (o : nat) (s : Session) : advances s (half_close o s).
Proof.
  unfold half_close. destruct (se_objs s !! o) as [x|] eqn:Ex; [|reflexivity]. destruct (so_open x) eqn:Eo; [|reflexivity].
  transitivity (upd_obj o (set_state STREAM_HALF_CLOSED) s); [|by apply advances_objs].
  apply advances_upd; [done|]. intros y Hy. replace y with x by congruence. apply Z.eqb_eq in Eo. rewrite Eo.
  split; [vm_compute; discriminate|done].
Qed.

Lemma advances_insert (id : Z) (s : Session) : se_streams s !! id = None -> advances s (insert_stream id s).2.
Proof.
  intros Hn. assert (Hlast : (se_objs s ++ [stream_new id]) !! length (se_objs s) = Some (stream_new id)).
  { by apply list_lookup_middle. }
  split; [intros [Hok Hlive]; split|].
  - intros i o Hi. cbn in Hi |- *. apply lookup_insert_Some in Hi as [[<- <-]|[_ Hi]]; [by exists (stream_new id)|].
    destruct (Hok i o Hi) as (x & Hx & Hid). exists x. split; [by apply lookup_app_l_Some|done].
  - intros i o x Hi Hx. cbn in Hi, Hx. apply lookup_insert_Some in Hi as [[<- <-]|[_ Hi]]; [rewrite Hlast in Hx; by simplify_eq|].
    destruct (Hok i o Hi) as (y & Hy & _). rewrite (lookup_app_l_Some _ _ _ _ Hy) in Hx. simplify_eq. by apply (Hlive i o).
  - intros o x Hx. exists x. cbn. split; [by apply lookup_app_l_Some|done].
Qed.

Lemma advances_get_stream (id state : Z) (s : Session) : advances s (get_stream id state s).2.
Proof.
  unfold get_stream. destruct (se_streams s !! id) as [o|] eqn:E; [reflexivity|].
  destruct (negb (se_client s) && (state =? STREAM_OPENED)); [|reflexivity].
  transitivity (insert_stream id s).2; [by apply advances_insert|by apply advances_objs].
Qed.

Lemma advances_core (s t : Session) : core s = core t -> advances s t.
Proof. intros E. apply advances_objs; [by apply (f_equal se_objs) in E|by apply (f_equal se_streams) in E]. Qed.

Lemma advances_flush (b : V5NotifyBatch) (s : Session) : advances s (flush_batch b s).
Proof.
  destruct (flush_batch_effect b s) as (E & _). transitivity (upd_obj (ba_obj b) (absorb b) s); [|by apply advances_core].
  apply advances_upd.
  - intros x. by destruct (absorb_keeps b x) as (_ & _ & -> & _).
  - intros x _. by destruct (absorb_keeps b x) as (_ & _ & _ & ->).
Qed.

Lemma advances_deliver (e : Element) (s : Session) : advances s (deliver_one s e).
Proof.
  unfold deliver_one, deliver_data, handle_v5_close. destruct (op e =? OP_STREAM_DATA); [|destruct (op e =? OP_CLOSE_STREAM); [|reflexivity]].
  - pose proof (advances_get_stream (stream_id e) STREAM_OPENED s) as Hg. destruct (get_stream _ _ s) as [[o|] t]; cbn in Hg.
    + destruct (se_objs t !! o) as [x|]; (transitivity t; [done|]); [apply advances_flush|by apply advances_objs].
    + transitivity t; [done|by apply advances_objs].
  - pose proof (advances_get_stream (stream_id e) STREAM_CLOSED s) as Hg. destruct (get_stream _ _ s) as [[o|] t]; cbn in Hg; [|done].
    transitivity t; [done|apply advances_half_close].
Qed.

Lemma advances_deliver_all (es : list Element) (s : Session) : advances s (foldl deliver_one s es).
Proof.
  revert s. induction es as [|e es IH]; intros s; cbn [foldl]; [reflexivity|].
  transitivity (deliver_one s e); [apply advances_deliver|apply IH].
Qed.

Lemma advances_drain (wait : bool) (s : Session) : sess_ok s -> advances s (drain_v5 wait s).2.
Proof.
  intros Hok. unfold drain_v5. destruct (se_shutdown s); [reflexivity|]. pose proof (session_drain_spec wait (se_pops s) [] s Hok (batches_nil _)) as Hd.
  destruct (drain_loop wait (se_pops s) [] s) as [[err rest] s1]. destruct Hd as (seen & _ & _ & [H1 _ _] & _).
  transitivity (foldl deliver_one s (elements seen)); [apply advances_deliver_all|].
  transitivity s1; [by apply advances_core|by apply advances_objs].
Qed.

(** The stream is closed and leaves the map. *)
Lemma advances_closing (o : nat) (x : StreamObj) (s : Session) :
  se_objs s !! o = Some x ->
  advances s (with_objs s (alter (set_state STREAM_CLOSED) o (se_objs s)) (delete (so_id x) (se_streams s))).
Proof.
  intros Hx. split.
  - intros [Hok Hlive]. assert (Hne : forall id i, delete (so_id x) (se_streams s) !! id = Some i -> se_streams s !! id = Some i /\ i <> o).
    { intros id i Hi. apply lookup_delete_Some in Hi as [Hne Hi]. split; [done|]. intros ->.
      destruct (Hok id o Hi) as (y & Hy & <-). congruence. }
    split.
    + intros id i Hi. cbn in Hi |- *. destruct (Hne id i Hi) as [Hi' Hio]. rewrite list_lookup_alter_ne by done. by apply Hok.
    + intros id i y Hi Hy. cbn in Hi, Hy. destruct (Hne id i Hi) as [Hi' Hio]. rewrite list_lookup_alter_ne in Hy by done.
      by apply (Hlive id i).
  - assert (Hm : moves_on s (upd_obj o (set_state STREAM_CLOSED) s)).
    { apply moves_upd; [done|]. intros y Hy. unfold rank. cbn. repeat case_if; try done; lia. }
    exact Hm.
Qed.

Lemma advances_close (o : nat) (queued : bool) (s : Session) : advances s (close o queued s).
Proof.
  unfold close. destruct (se_objs s !! o) as [x|] eqn:Ex; [|reflexivity]. destruct (so_state x =? STREAM_CLOSED); [reflexivity|].
  transitivity (with_objs s (alter (set_state STREAM_CLOSED) o (se_objs s)) (delete (so_id x) (se_streams s))); [by apply advances_closing|].
  cbn zeta. repeat case_match; by apply advances_objs.
Qed.

Lemma advances_reset (o : nat) (unread : Z) (s : Session) : advances s (reset o unread s).2.
Proof.
  unfold reset. destruct (se_objs s !! o) as [x|]; [|reflexivity]. destruct (so_open x); [|reflexivity]. cbn [negb].
  destruct (unread >? 0); [reflexivity|]. destruct (advance_generation_if_idle (so_inbox x)) as [[] inbox]; [|reflexivity].
  by apply advances_upd.
Qed.

Lemma advances_put (o : nat) (unread : Z) (queued : bool) (s : Session) : advances s (put_or_close_stream o unread queued s).
Proof.
  unfold put_or_close_stream. destruct (se_objs s !! o) as [x|]; [|reflexivity]. destruct (so_fallback x); [apply advances_close|].
  pose proof (advances_reset o unread s) as Hr. destruct (reset o unread s) as [[[]|e] s1]; cbn in Hr; (transitivity s1; [done|]).
  - unfold pool_push. destruct (_ <? _)%nat; cbn [snd]; [by apply advances_objs|].
    transitivity (act (NotifyClose o) (act (ReleaseRead o) s1)); [by apply advances_objs|apply advances_close].
  - apply advances_close.
Qed.

Lemma advances_set_fallback (o : nat) (b : bool) (s : Session) : advances s (upd_obj o (set_fallback b) s).
Proof. by apply advances_upd. Qed.

Lemma advances_set_inbox (o : nat) (inbox : V5Inbox) (s : Session) : advances s (upd_obj o (set_inbox inbox) s).
Proof. by apply advances_upd. Qed.

Lemma advances_fill (o : nat) (bytes : list Z) (s : Session) : advances s (fill_fallback o bytes s).
Proof.
  unfold fill_fallback. destruct (se_objs s !! o) as [x|]; [|reflexivity]. destruct (is_nil bytes); [reflexivity|].
  destruct (add_fallback_if_generation _ _ _ _) as [[] inbox]; [|reflexivity].
  transitivity (upd_obj o (set_inbox inbox) s); [apply advances_set_inbox|by apply advances_objs].
Qed.

Lemma advances_fallback (id status : Z) (bytes : list Z) (s : Session) :
  sess_ok s -> advances s (handle_fallback_payload id status bytes s).1.
Proof.
  intros Hok. unfold handle_fallback_payload. pose proof (advances_drain true s Hok) as Hd.
  destruct (drain_v5 true s) as [[err|] s1]; [done|]. cbn in Hd. transitivity s1; [done|].
  pose proof (advances_get_stream id status s1) as Hg. destruct (get_stream id status s1) as [[o|] s2]; [|done].
  transitivity s2; [done|]. transitivity (upd_obj o (set_fallback true) s2); [apply advances_set_fallback|].
  etransitivity; [apply advances_fill|]. cbn. case_match; [apply advances_half_close|reflexivity].
Qed.

Lemma advances_close_event (id : Z) (s : Session) : sess_ok s -> advances s (close_stream_event id s).1.
Proof.
  intros Hok. unfold close_stream_event. pose proof (advances_drain true s Hok) as Hd.
  destruct (drain_v5 true s) as [[err|] s1]; [done|]. cbn in Hd. transitivity s1; [done|].
  destruct (se_streams s1 !! id) as [o|]; [|reflexivity].
  etransitivity; [|apply advances_half_close]. by apply (advances_delete id).
Qed.

Lemma advances_open (res : result SessError nat) (s s' : Session) : open_stream s = (res, s') -> advances s s'.
Proof.
  unfold open_stream. destruct (se_shutdown s); [intros E; by simplify_eq|]. destruct (se_unhealthy s); [intros E; by simplify_eq|].
  set (s1 := with_next_id s _). change (se_streams s) with (se_streams s1).
  destruct (se_streams s1 !! wrap32 (se_next_id s + 1)) eqn:E; intros Ho.
  - simplify_eq. by apply advances_objs.
  - injection Ho as _ <-. transitivity s1; [by apply advances_objs|exact (advances_insert _ s1 E)].
Qed.

Lemma advances_get_or_open (res : result SessError nat) (s s' : Session) : get_or_open_stream s = (res, s') -> advances s s'.
Proof.
  unfold get_or_open_stream. destruct (se_unhealthy s); [intros E; by simplify_eq|].
  destruct (pop_open _ _) as [[o|] pool]; intros E.
  - simplify_eq. by apply advances_objs.
  - transitivity (with_pool s pool); [by apply advances_objs|by eapply advances_open].
Qed.

Lemma advances_foldl {A} (f : Session -> A -> Session) (l : list A) (s : Session) : (forall s x, advances s (f s x)) -> advances s (foldl f s l).
Proof. intros Hf. revert s. induction l as [|x l IH]; intros s; cbn [foldl]; [reflexivity|]. transitivity (f s x); [apply Hf|apply IH]. Qed.

Lemma advances_shutdown (s : Session) : advances s (session_close s).
Proof.
  unfold session_close. destruct (se_shutdown s); [reflexivity|]. set (s1 := pool_close (with_shutdown s)).
  transitivity s1; [|transitivity (with_objs s1 (se_objs s1) ∅); [apply advances_sub; [done|apply map_empty_subseteq]|apply advances_foldl; intros; apply advances_close]].
  transitivity (with_pool (with_shutdown s) []); [by apply advances_objs|]. apply advances_foldl. intros t o. transitivity (act (NotifyClose o) t); [by apply advances_objs|apply advances_close].
Qed.

Lemma advances_step (s t : Session) : sess_step s t -> sess_ok s -> advances s t.
Proof.
  intros [] Hok.
  - by apply advances_drain.
  - by apply advances_fallback.
  - by apply advances_close_event.
  - by apply advances_objs.
  - by eapply advances_get_or_open.
  - apply advances_put.
  - apply advances_close.
  - apply advances_set_inbox.
  - apply advances_shutdown.
Qed.

(** C20. Over any interleaving of drains, events from the peer, streams opened,
    put back, read and closed, the session's map names every stream under its own
    id and never a closed one; a stream keeps its id and only moves from open to
    half closed to closed; and once closed it stays closed. *)
Theorem stream_states_monotone (s t : Session) :
  sess_inv s -> rtc sess_step s t -> sess_inv t /\ moves_on s t.
Proof.
  intros Hinv Hrtc. induction Hrtc as [s|s u t Hstep _ IH].
  - split; [done|reflexivity].
  - destruct (advances_step s u Hstep (proj1 Hinv)) as [H1 H2]. destruct (IH (H1 Hinv)) as [H3 H4].
    split; [done|by transitivity u].
Qed.

(** ** Shutdown *)

Definition notices (l : list Action) : Prop := Forall (fun a => exists o, a = NotifyClose o) l.

Definition is_closed (s : Session) (o : nat) : Prop := exists x, se_objs s !! o = Some x /\ so_state x = STREAM_CLOSED.

(** What closing streams of a session that is shut down changes: a stream leaves the map
    because one of its identifier is closed. *)
Record winds_down (s t : Session) : Prop := {
  wd_shut : se_shutdown t = se_shutdown s;
  wd_pool : se_pool t = se_pool s;
  wd_ids : so_id <$> se_objs t = so_id <$> se_objs s;
  wd_map : se_streams t ⊆ se_streams s;
  wd_lost : forall id o, se_streams s !! id = Some o -> se_streams t !! id = Some o \/ exists i, is_closed t i /\ so_id <$> se_objs t !! i = Some id;
  wd_closed : forall o, is_closed s o -> is_closed t o;
  wd_told : forall o, se_objs t !! o = se_objs s !! o \/ forall x, se_objs s !! o = Some x -> so_open x = true -> NotifyClose o ∈ se_actions t;
  wd_acts : exists l, se_actions t = se_actions s ++ l /\ notices l;
}.

#[local] Instance winds_down_preorder : PreOrder winds_down.
Proof.
  split.
  - intros s. split; try done; [by left|by left|]. exists []. split; [by rewrite app_nil_r|constructor].
  - intros s t u [A1 A2 A3 A4 A5 A6 At (l1 & A7 & A8)] [B1 B2 B3 B4 B5 B6 Bt (l2 & B7 & B8)]. split; try congruence.
    + by transitivity (se_streams t).
    + intros id o Ho. destruct (A5 id o Ho) as [Ho'|(i & Hi & Hid)]; [by apply B5|]. right. exists i. split; [by apply B6|].
      by rewrite <- list_lookup_fmap, B3, list_lookup_fmap.
    + auto.
    + intros o. destruct (At o) as [E|Ha]; [rewrite <- E; apply Bt|]. right. intros x Hx Hp. rewrite B7. apply elem_of_app. left. by apply (Ha x).
    + exists (l1 ++ l2). split; [by rewrite B7, A7, app_assoc|by apply Forall_app].
Qed.

Lemma winds_down_act (o : nat) (s : Session) : winds_down s (act (NotifyClose o) s).
Proof. split; try done; [by left|by left|]. exists [NotifyClose o]. split; [done|]. repeat constructor. by eexists. Qed.

Lemma close_shut (o : nat) (s : Session) :
  se_shutdown s = true -> (o < length (se_objs s))%nat -> winds_down s (close o false s) /\ is_closed (close o false s) o.
Proof.
  intros Hs Ho. unfold close. destruct (lookup_lt_is_Some_2 _ _ Ho) as [x Hx]. rewrite Hx. destruct (Z.eqb_spec (so_state x) STREAM_CLOSED) as [Hc|Hc]; [split; [reflexivity|by exists x]|].
  set (s1 := with_objs (upd_obj o (set_state STREAM_CLOSED) s) _ _). assert (El : forall i, se_objs s1 !! i = if decide (o = i) then set_state STREAM_CLOSED <$> se_objs s !! i else se_objs s !! i).
  { intros i. cbn. rewrite list_lookup_alter. by case_decide; subst. }
  assert (C : is_closed s1 o) by (exists (set_state STREAM_CLOSED x); split; [rewrite El, decide_True, Hx by done; done|done]).
  assert (W : forall l, notices l -> (so_open x = true -> NotifyClose o ∈ l) -> winds_down s (with_actions s1 (se_actions s1 ++ l))).
  { intros l Hl Hin. split; try done.
    - change (so_id <$> se_objs s1 = so_id <$> se_objs s). apply list_eq. intros i. rewrite !list_lookup_fmap, El. case_decide; [|done]. by destruct (se_objs s !! i).
    - apply delete_subseteq.
    - intros id i Hi. destruct (decide (so_id x = id)) as [E|E]; [right; exists o; split; [done|]; change (so_id <$> se_objs s1 !! o = Some id); rewrite El, decide_True, Hx by done; by rewrite <- E|left; by apply lookup_delete_Some].
    - intros i (y & Hy & Hcl). destruct (decide (o = i)) as [-> |E]; [done|]. exists y. split; [|done]. change (se_objs s1 !! i = Some y). by rewrite El, decide_False.
    - intros i. destruct (decide (o = i)) as [<- |E]; [right|left; change (se_objs s1 !! i = se_objs s !! i); by rewrite El, decide_False]. intros y Hy Hop. cbn. apply elem_of_app. right. apply Hin. congruence.
    - by exists l. }
  replace (se_shutdown s1) with true by done. destruct (so_open x) eqn:Eo; cbn [negb].
  - change (se_shutdown (act (NotifyClose o) s1)) with (se_shutdown s). rewrite Hs. split; [|done].
    apply (W [NotifyClose o]); [by repeat econstructor|intros _; by left].
  - split; [|done]. specialize (W []). rewrite app_nil_r in W. by apply W; [constructor|].
Qed.

Lemma close_all_shut (f : Session -> nat -> Session) (l : list nat) (s : Session) :
  (forall s o, se_shutdown s = true -> (o < length (se_objs s))%nat -> winds_down s (f s o) /\ is_closed (f s o) o) ->
  se_shutdown s = true -> Forall (fun o => o < length (se_objs s))%nat l -> winds_down s (foldl f s l) /\ Forall (is_closed (foldl f s l)) l.
Proof.
  intros Hf. revert s. induction l as [|o l IH]; intros s Hs Hl; cbn [foldl]; [by split|]. apply Forall_cons in Hl as [Ho Hl]. destruct (Hf s o Hs Ho) as [W C].
  assert (Hlen : length (se_objs (f s o)) = length (se_objs s)) by (pose proof (f_equal length (wd_ids _ _ W)) as E; by rewrite !length_fmap in E).
  destruct (IH (f s o)) as [W' C']; [by rewrite (wd_shut _ _ W)|by rewrite Hlen|]. split; [by transitivity (f s o)|]. constructor; [by apply (wd_closed _ _ W')|done].
Qed.

(** Closing a session winds it down completely: the streams of the pool first, then
    those still in the map. *)
Lemma session_close_spec (s : Session) :
  sess_inv s -> NoDup (so_id <$> se_objs s) -> Forall (fun o => o < length (se_objs s))%nat (se_pool s) -> se_shutdown s = false ->
  let t := session_close s in
  se_shutdown t = true /\ se_streams t = ∅ /\ se_pool t = [] /\ (forall o, o ∈ se_pool s \/ (exists id, se_streams s !! id = Some o) -> is_closed t o) /\
  (forall o, se_objs t !! o = se_objs s !! o \/ forall x, se_objs s !! o = Some x -> so_open x = true -> NotifyClose o ∈ se_actions t) /\
  exists l, se_actions t = se_actions s ++ l /\ notices l.
Proof.
  intros [Hok _] Hnd Hp Hs. unfold session_close. rewrite Hs. set (s0 := with_pool (with_shutdown s) []).
  destruct (close_all_shut (fun s o => close o false (act (NotifyClose o) s)) (se_pool s) s0) as [W C].
  { intros u o Hu Ho. destruct (close_shut o (act (NotifyClose o) u) Hu Ho) as [W C]. split; [transitivity (act (NotifyClose o) u); [apply winds_down_act|done]|done]. }
  { done. }
  { done. }
  change (foldl (fun s o => close o false (act (NotifyClose o) s)) s0 (se_pool s)) with (pool_close (with_shutdown s)) in *. set (s1 := pool_close (with_shutdown s)) in *. cbn zeta.
  assert (Hlen : length (se_objs s1) = length (se_objs s)) by (pose proof (f_equal length (wd_ids _ _ W)) as E; by rewrite !length_fmap in E).
  destruct (close_all_shut (fun s o => close o false s) (map_to_list (se_streams s1)).*2 (with_objs s1 (se_objs s1) ∅)) as [W' C'].
  { intros u o Hu Ho. by apply close_shut. }
  { exact (wd_shut _ _ W). }
  { apply Forall_fmap, Forall_forall. intros [id o] Ho%elem_of_map_to_list. change (o < length (se_objs s1))%nat. rewrite Hlen. pose proof (lookup_weaken _ _ _ _ Ho (wd_map _ _ W)) as Ho'.
    destruct (Hok id o Ho') as (x & Hx & _). by eapply lookup_lt_Some. }
  set (t := foldl _ _ _) in *. split; [rewrite (wd_shut _ _ W'); exact (wd_shut _ _ W)|]. split; [|split; [rewrite (wd_pool _ _ W'); exact (wd_pool _ _ W)|split; [|split]]].
  - apply map_eq. intros id. rewrite lookup_empty. destruct (se_streams t !! id) as [o|] eqn:E; [|done]. by pose proof (lookup_weaken _ _ _ _ E (wd_map _ _ W')).
  - intros o [Ho|[id Ho]]; [apply (wd_closed _ _ W'); by apply (proj1 (Forall_forall _ _) C)|].
    destruct (wd_lost _ _ W id o Ho) as [Ho'|(i & Hi & Hid)].
    + apply (proj1 (Forall_forall _ _) C'). apply list_elem_of_fmap. exists (id, o). split; [done|]. by apply elem_of_map_to_list.
    + destruct (Hok id o Ho) as (x & Hx & Ex). assert (i = o) as ->; [|by apply (wd_closed _ _ W')].
      apply (NoDup_lookup _ i o id Hnd); [|by rewrite list_lookup_fmap, Hx; cbn; rewrite Ex]. rewrite <- list_lookup_fmap, (wd_ids _ _ W) in Hid. exact Hid.
  - intros o. destruct (wd_told _ _ W' o) as [E|Ho].
    + destruct (wd_told _ _ W o) as [E'|Ho]; [left; by rewrite E|]. right. intros x Hx Hop. destruct (wd_acts _ _ W') as (l2 & -> & _). apply elem_of_app. left. by apply (Ho x).
    + destruct (wd_told _ _ W o) as [E'|Ho']; [right; intros x Hx; apply Ho; change (se_objs s1 !! o = Some x); rewrite E'; exact Hx|].
      right. intros x Hx Hop. destruct (wd_acts _ _ W') as (l2 & -> & _). apply elem_of_app. left. by apply (Ho' x).
  - destruct (wd_acts _ _ W) as (l1 & E1 & N1), (wd_acts _ _ W') as (l2 & E2 & N2). exists (l1 ++ l2). split; [|by apply Forall_app]. rewrite E2. cbn [with_objs se_actions]. rewrite E1. by rewrite app_assoc.
Qed.

(** C21. Closing a session closes every stream it knows, in the map or in the pool, empties
    both, and wakes whoever waits on one of them that was open -- provided no two streams
    have the same identifier. *)
Theorem shutdown_closes (s : Session) :
  sess_inv s -> NoDup (so_id <$> se_objs s) -> Forall (fun o => o < length (se_objs s))%nat (se_pool s) -> se_shutdown s = false ->
  let t := session_close s in
  se_shutdown t = true /\ se_streams t = ∅ /\ se_pool t = [] /\
  forall o, o ∈ se_pool s \/ (exists id, se_streams s !! id = Some o) ->
    is_closed t o /\ forall x, se_objs s !! o = Some x -> so_open x = true -> NotifyClose o ∈ se_actions t.
Proof.
  intros Hi Hnd Hp Hs. destruct (session_close_spec s Hi Hnd Hp Hs) as (H1 & H2 & H3 & H4 & H5 & _).
  do 3 (split; [done|]). intros o Ho. destruct (H4 o Ho) as (y & Hy & Hc). split; [by exists y|]. destruct (H5 o) as [E|Ht]; [|done].
  intros x Hx Hop. rewrite E, Hx in Hy. injection Hy as ->. unfold so_open in Hop. by rewrite Hc in Hop.
Qed.

(** Closing a session sends the peer nothing, neither on the queue nor on the socket,
    although the comment on [Session::close] speaks of a GoAway. *)
Lemma close_sends_nothing (s : Session) :
  sess_inv s -> NoDup (so_id <$> se_objs s) -> Forall (fun o => o < length (se_objs s))%nat (se_pool s) -> se_shutdown s = false ->
  exists l, se_actions (session_close s) = se_actions s ++ l /\ notices l.
Proof. intros Hi Hnd Hp Hs. by destruct (session_close_spec s Hi Hnd Hp Hs) as (_ & _ & _ & _ & _ & H). Qed.

(** ** No block is lost in a drain *)

(** The blocks waiting in an inbox. *)
Definition pending_roots (x : StreamObj) : list Z :=
  omap (fun i => match i with InShm r => Some r | InHeap _ => None end) (in_pending (so_inbox x)).

(** Every block the session answers for: in an inbox, or handed back. *)
Definition held (s : Session) : list Z := concat (pending_roots <$> se_objs s) ++ releases s.

Definition data_offsets (es : list Element) : list Z :=
  e_offset <$> filter (fun e => op e = OP_STREAM_DATA) es.

Lemma roots_alter (f : StreamObj -> StreamObj) (o : nat) (x : StreamObj) (l : list Z) (objs : list StreamObj) :
  objs !! o = Some x -> pending_roots (f x) = pending_roots x ++ l ->
  concat (pending_roots <$> alter f o objs) ≡ₚ concat (pending_roots <$> objs) ++ l.
Proof.
  intros Hx Hf. rewrite <- (take_drop_middle objs o x Hx) at 1 2.
  assert (Hl : length (take o objs) = o) by (apply length_take_le; apply lookup_lt_Some in Hx; lia).
  rewrite alter_app_r_alt by lia. rewrite Hl, Nat.sub_diag. cbn [alter list_alter].
  rewrite !fmap_app. cbn [fmap list_fmap]. rewrite !concat_app. cbn [concat]. rewrite Hf, <- !app_assoc.
  do 2 apply Permutation_app_head. apply Permutation_app_comm.
Qed.

Lemma absorb_roots (b : V5NotifyBatch) (x : StreamObj) :
  pending_roots (absorb b x) = pending_roots x ++ (if takes b x then ba_offsets b else []).
Proof.
  unfold absorb. destruct (takes b x); [|by rewrite app_nil_r]. unfold pending_roots. cbn. rewrite omap_app. f_equal.
  induction (ba_offsets b) as [|r l IH]; cbn; [done|]. by rewrite IH.
Qed.

Lemma flush_held (b : V5NotifyBatch) (s : Session) : held (flush_batch b s) ≡ₚ held s ++ ba_offsets b.
Proof.
  destruct (flush_batch_effect b s) as (E1 & E2 & _). unfold held. rewrite E2.
  replace (se_objs (flush_batch b s)) with (alter (absorb b) (ba_obj b) (se_objs s)) by (by apply (f_equal se_objs) in E1).
  unfold refused. destruct (se_objs s !! ba_obj b) as [x|] eqn:Ex.
  - rewrite (roots_alter (absorb b) _ x _ _ Ex (absorb_roots b x)), <- !app_assoc. apply Permutation_app_head.
    destruct (takes b x); [|done]. rewrite app_nil_r. apply Permutation_app_comm.
  - rewrite alter_none by done. by rewrite app_assoc.
Qed.

Lemma get_stream_held (id state : Z) (s : Session) : held (get_stream id state s).2 ≡ₚ held s.
Proof.
  unfold get_stream. destruct (se_streams s !! id); [done|]. destruct (negb (se_client s) && (state =? STREAM_OPENED)); [|done].
  cbn. unfold held, releases. cbn. rewrite fmap_app, concat_app, omap_app. cbn. by rewrite !app_nil_r.
Qed.

Lemma half_close_held (o : nat) (s : Session) : held (half_close o s) ≡ₚ held s.
Proof.
  unfold half_close. destruct (se_objs s !! o) as [x|] eqn:Ex; [|done]. destruct (so_open x); [|done].
  unfold held, releases. cbn. rewrite omap_app. cbn. rewrite app_nil_r. apply Permutation_app_tail.
  rewrite (roots_alter _ o x [] _ Ex); by rewrite app_nil_r.
Qed.

Lemma release_held (r : Z) (s : Session) : held (act (Release r) s) ≡ₚ held s ++ [r].
Proof. unfold held, releases. cbn. rewrite omap_app. cbn. by rewrite app_assoc. Qed.

Lemma deliver_held (e : Element) (s : Session) : held (deliver_one s e) ≡ₚ held s ++ data_offsets [e].
Proof.
  unfold deliver_one, deliver_data, handle_v5_close, data_offsets. rewrite filter_cons, filter_nil.
  destruct (Z.eqb_spec (op e) OP_STREAM_DATA) as [E|E].
  - rewrite decide_True by done. cbn [fmap list_fmap]. pose proof (get_stream_held (stream_id e) STREAM_OPENED s) as Hg.
    destruct (get_stream _ _ s) as [[o|] t]; cbn in Hg; rewrite <- Hg; [|apply release_held].
    destruct (se_objs t !! o); [apply flush_held|apply release_held].
  - rewrite decide_False by done. cbn [fmap list_fmap]. rewrite app_nil_r. destruct (op e =? OP_CLOSE_STREAM); [|done].
    pose proof (get_stream_held (stream_id e) STREAM_CLOSED s) as Hg. destruct (get_stream _ _ s) as [[o|] t]; cbn in Hg; [|done].
    by rewrite half_close_held.
Qed.

Lemma deliver_all_held (es : list Element) (s : Session) : held (foldl deliver_one s es) ≡ₚ held s ++ data_offsets es.
Proof.
  revert s. induction es as [|e es IH]; intros s; cbn [foldl]; [by rewrite app_nil_r|].
  rewrite IH, deliver_held, <- app_assoc. apply Permutation_app_head. unfold data_offsets.
  change (e :: es) with ([e] ++ es). by rewrite filter_app, fmap_app.
Qed.

(** C19. A drain neither loses nor duplicates a block: every data element it pops
    puts its block in exactly one place, the inbox of its stream or the list of
    blocks handed back to the peer, and everything held before is still held. *)
Theorem drain_no_leak (wait : bool) (s : Session) :
  sess_ok s ->
  let s' := (drain_v5 wait s).2 in
  exists seen, se_pops s = seen ++ se_pops s' /\ held s' ≡ₚ held s ++ data_offsets (elements seen).
Proof.
  intros Hok. unfold drain_v5. destruct (se_shutdown s); [exists []; split; [done|by rewrite app_nil_r]|].
  pose proof (session_drain_spec wait (se_pops s) [] s Hok (batches_nil _)) as Hd.
  destruct (drain_loop wait (se_pops s) [] s) as [[err rest] s1]. destruct Hd as (seen & E & _ & Hs & _).
  exists seen. split; [done|]. rewrite <- deliver_all_held. change (held s1 ≡ₚ held (foldl deliver_one s (elements seen))).
  unfold held. rewrite (same_objs _ _ Hs). apply Permutation_app_head, sf_releases, Hs.
Qed.

(** ** Reuse of a stream *)

(** A stream put back for reuse is fenced off: once [reset] succeeded, data
    that was batched for the stream before is refused, all of its blocks go back
    to the peer, and the stream starts out empty, open and without fallback. *)
Theorem reset_fences (o : nat) (unread : Z) (s s' : Session) (x : StreamObj) (offsets : list Z) :
  se_objs s !! o = Some x -> 0 <= in_generation (so_inbox x) < W64 -> offsets <> [] ->
  reset o unread s = (Ok tt, s') ->
  let late := flush_batch (mkBatch o (in_generation (so_inbox x)) offsets) s' in
  se_objs late = se_objs s' /\ releases late = releases s ++ offsets /\
  exists y, se_objs s' !! o = Some y /\ in_pending (so_inbox y) = [] /\ so_open y = true /\ so_fallback y = false.
Proof.
  intros Hx Hg Hne. unfold reset. rewrite Hx. destruct (so_open x) eqn:Eo; [|done]. cbn [negb]. destruct (unread >? 0); [done|].
  unfold advance_generation_if_idle. destruct (in_pending (so_inbox x)) as [|] eqn:Ep; cbn [is_nil]; [|done]. intros Hr.
  apply (f_equal snd) in Hr. cbn in Hr. set (g := in_generation (so_inbox x)) in *.
  set (y := set_fallback false (set_inbox (mkInbox (wrap64 (g + 1)) []) x)).
  assert (Hy : se_objs s' !! o = Some y) by (rewrite <- Hr; cbn; by rewrite list_lookup_alter_eq, Hx).
  assert (Ht : takes (mkBatch o g offsets) y = false).
  { unfold takes. cbn. replace (wrap64 (g + 1) =? g) with false; [done|]. symmetry. apply Z.eqb_neq. unfold wrap64, W64 in *.
    destruct (Z.eq_dec (g + 1) 18446744073709551616) as [E|]; [rewrite E, Z.mod_same; lia|rewrite Z.mod_small; lia]. }
  destruct (flush_batch_effect (mkBatch o g offsets) s') as (E1 & E2 & _). apply (f_equal se_objs) in E1. cbn in E1, E2.
  unfold refused in E2. cbn in E2. rewrite Hy, Ht in E2. cbn zeta. split; [|split].
  - rewrite E1. apply (alter_same _ _ _ y Hy). unfold absorb. by rewrite Ht.
  - rewrite E2, <- Hr. done.
  - exists y. split; [done|]. split; [done|]. split; [exact Eo|done].
Qed.

(** ** Witnesses *)

(** A server that has seen two streams; the queue shows data for both, a close
    of the first one, and data for it after the close. *)
Definition sample_session : Session :=
  mkSession false 5 0 [stream_new 3] {[3 := 0%nat]} [] 4%nat false false
    [PReady (with_offset 3 OP_STREAM_DATA 100); PReady (with_offset 7 OP_STREAM_DATA 200);
     PNotReady false; PReady (with_offset 3 OP_STREAM_DATA 300); PReady (element_new 3 OP_CLOSE_STREAM);
     PReady (with_offset 3 OP_STREAM_DATA 400); PEmpty; PNotReady true] [].

Lemma sample_session_inv : sess_inv sample_session.
Proof.
  split.
  - intros id o Ho. cbn in Ho. apply lookup_singleton_Some in Ho as [<- <-]. by exists (stream_new 3).
  - intros id o x Ho. cbn in Ho. apply lookup_singleton_Some in Ho as [<- <-]. cbn. intros E. by simplify_eq.
Qed.

Lemma sample_rest : se_pops (drain_v5 true sample_session).2 = [PNotReady true].
Proof. vm_compute. reflexivity. Qed.

Lemma sample_seen (seen : list Pop) :
  se_pops sample_session = seen ++ [PNotReady true] -> seen = removelast (se_pops sample_session).
Proof. intros ->. symmetry. apply removelast_last. Qed.

Lemma drain_batches_exact_witness :
  exists seen s1, drain_v5 true sample_session = (None, s1) /\ se_pops sample_session = seen ++ se_pops s1 /\
    same_effect s1 (with_pops (foldl deliver_one sample_session (elements seen)) (se_pops s1)).
Proof.
  pose proof (drain_batches_exact true sample_session (proj1 sample_session_inv)) as H.
  assert (He : (drain_v5 true sample_session).1 = None) by (vm_compute; reflexivity).
  destruct (drain_v5 true sample_session) as [err s1]. destruct H as (seen & E & _ & Hs & _). exists seen, s1.
  cbn in He. rewrite He. split; [reflexivity|]. split; [exact E|exact Hs].
Defined.

Lemma drain_no_leak_witness : held (drain_v5 true sample_session).2 ≡ₚ [100; 200; 300; 400].
Proof.
  destruct (drain_no_leak true sample_session (proj1 sample_session_inv)) as (seen & E & H).
  rewrite H. rewrite sample_rest in E. rewrite (sample_seen seen E).
  assert (Ev : held sample_session ++ data_offsets (elements (removelast (se_pops sample_session))) = [100; 200; 300; 400])
    by (vm_compute; reflexivity).
  rewrite Ev. reflexivity.
Defined.

(** Data, a close by the peer, and the close of the handle. *)
Definition sample_closed : Session := close 0 true (drain_v5 true sample_session).2.

Lemma stream_states_monotone_witness :
  sess_inv sample_closed /\ exists y, se_objs sample_closed !! 0%nat = Some y /\ so_id y = 3 /\ so_state y = STREAM_CLOSED.
Proof.
  destruct (stream_states_monotone sample_session sample_closed sample_session_inv) as [H1 H2].
  - eapply rtc_l; [apply (ss_drain true)|]. eapply rtc_l; [apply (ss_close 0 true)|]. apply rtc_refl.
  - split; [exact H1|]. destruct (H2 0%nat (stream_new 3) eq_refl) as (y & Hy & Hid & _). exists y. split; [exact Hy|].
    split; [exact Hid|].
    assert (Hc : so_state <$> se_objs sample_closed !! 0%nat = Some STREAM_CLOSED) by (vm_compute; reflexivity).
    rewrite Hy in Hc. injection Hc as ->. reflexivity.
Defined.

(** Two streams, one of them in the pool. *)
Definition sample_pooled : Session :=
  mkSession true 5 5 [stream_new 3; stream_new 5] {[3 := 0%nat; 5 := 1%nat]} [1%nat] 4 false false [] [].

Lemma shutdown_closes_witness :
  let t := session_close sample_pooled in
  se_shutdown t = true /\ se_streams t = ∅ /\ se_pool t = [] /\ is_closed t 0 /\ is_closed t 1 /\ NotifyClose 0 ∈ se_actions t.
Proof.
  destruct (shutdown_closes sample_pooled) as (H1 & H2 & H3 & H4).
  - assert (H : forall id o, se_streams sample_pooled !! id = Some o -> exists x, se_objs sample_pooled !! o = Some x /\ so_id x = id /\ so_state x = STREAM_OPENED).
    { intros id o Ho. cbn [sample_pooled se_streams] in Ho. apply lookup_insert_Some in Ho as [[<- <-]|[_ Ho]]; [by eexists|]. apply lookup_singleton_Some in Ho as [<- <-]. by eexists. }
    split; [intros id o Ho; destruct (H id o Ho) as (x & Hx & Hi & _); by exists x|].
    intros id o x Ho Hx. destruct (H id o Ho) as (y & Hy & _ & Hs). rewrite Hx in Hy. injection Hy as ->. by rewrite Hs.
  - apply NoDup_cons. split; [by intros ?%list_elem_of_singleton|apply NoDup_singleton].
  - repeat constructor.
  - reflexivity.
  - split; [exact H1|]. split; [exact H2|]. split; [exact H3|]. split; [apply H4; right; exists 3; reflexivity|]. split; [apply H4; left; left|].
    apply (proj2 (H4 0%nat (or_intror (ex_intro _ 3 eq_refl))) (stream_new 3)); reflexivity.
Defined.

Lemma reset_fences_witness :
  let s' := (reset 0 0 sample_session).2 in
  releases (flush_batch (mkBatch 0 (in_generation inbox_new) [100; 300]) s') = [100; 300].
Proof.
  cbn zeta. destruct (reset_fences 0 0 sample_session (reset 0 0 sample_session).2 (stream_new 3) [100; 300]) as (_ & H & _).
  - reflexivity.
  - vm_compute. split; [discriminate|reflexivity].
  - discriminate.
  - vm_compute. reflexivity.
  - exact H.
Defined.
