(* ===== verification/Manager.v ===== *)
(** * The session manager ([src/src/session/manager.rs], [session_config] of [mod.rs])

    A manager keeps a number of sessions with one server, each under names of its own,
    hands out streams from them in turn, takes them back, and replaces a session that
    has ended. *)

From Stdlib Require Import ZArith Lia String Ascii.
From stdpp Require Import base numbers list gmap strings pretty.
From S2P Require Import Prelude Fixed Config Negotiation Handshake LegacyInit ReadBuf Session.

#[local] Open Scope Z_scope.

(** ** Names *)

Definition FILE_NAME_MAX_LEN : Z := 255.

Definition EPOCH_INFO_MAX_LEN : Z := 7 + 20 + 1 + 20.

Definition QUEUE_INFO_MAX_LEN : Z := 7 + 20.

(** A number as [format!] prints it. *)
Definition decimal (n : Z) : list Z := bytes_of (pretty n).

Definition with_names (c : Config) (prefix queue : list Z) : Config :=
  mkConfig (connection_write_timeout c) (connection_read_timeout c) (connection_timeout c) (initialize_timeout c) (cf_queue_cap c) queue (share_memory_buffer_cap c)
    prefix (buffer_slice_sizes c) (mem_map_type c) (rebuild_interval c) (max_stream_num c) (protocol c) (v5_queue_publish_timeout c).

Inductive ManagerError : Type :=
| FileNameTooLong
| SessionFailed (e : ClientError).

(** [session_config]; [pid] is the process. *)
Definition session_config (base : Config) (pid session_id epoch_id rand_id : Z) : result ManagerError Config :=
  let prefix := share_memory_path_prefix base ++ bytes_of "_" ++ decimal pid in
  if negb (is_memfd (mem_map_type base)) && (Z.of_nat (length prefix) + EPOCH_INFO_MAX_LEN + QUEUE_INFO_MAX_LEN >? FILE_NAME_MAX_LEN) then Err FileNameTooLong
  else
    let prefix := if epoch_id >? 0 then prefix ++ bytes_of "_epoch_" ++ decimal epoch_id ++ bytes_of "_" ++ decimal rand_id else prefix in
    let queue := match prefix with [] => queue_path base | _ => prefix ++ bytes_of "_queue_" ++ decimal session_id end in
    Ok (with_names base prefix queue).

(** ** The manager *)

Definition SESSION_ROUND_ROBIN_THRESHOLD : Z := 32.

Record SessionManager : Type := mkManager {
  sm_sessions : list Session;
  sm_count : Z;
}.

(** [SessionManager::new]: the sessions in order, up to the first that fails. *)
Fixpoint open_sessions (client : nat -> Config -> result ClientError Session) (base : Config) (pid : Z) (ids : list nat) : result ManagerError (list Session) :=
  match ids with
  | [] => Ok []
  | i :: ids =>
      match session_config base pid (Z.of_nat i) 0 0 with
      | Err e => Err e
      | Ok c =>
          match client i c with
          | Err e => Err (SessionFailed e)
          | Ok s => match open_sessions client base pid ids with Ok l => Ok (s :: l) | Err e => Err e end
          end
      end
  end.

Definition sm_new (client : nat -> Config -> result ClientError Session) (base : Config) (pid : Z) (session_num : nat) : result ManagerError SessionManager :=
  match open_sessions client base pid (seq 0 session_num) with
  | Ok l => Ok (mkManager l 0)
  | Err e => Err e
  end.

(** The session the next stream comes from. *)
Definition next_index (sm : SessionManager) : nat :=
  Z.to_nat (wrap64 (sm_count sm + 1) / SESSION_ROUND_ROBIN_THRESHOLD mod Z.of_nat (length (sm_sessions sm))).

(** [get_stream]: the session it took, and the stream of it. *)
Definition sm_get_stream (sm : SessionManager) : option (nat * result SessError nat * SessionManager) :=
  match sm_sessions sm with
  | [] => Some (0%nat, Err SessionUnhealthy, sm)
  | _ =>
      let i := next_index sm in
      s ← sm_sessions sm !! i;
      let '(r, s) := get_or_open_stream s in
      Some (i, r, mkManager (<[i := s]> (sm_sessions sm)) (wrap64 (sm_count sm + 1)))
  end.

(** [put_back] of stream [o] of the session in slot [i], with its unread bytes and what
    the queue says if it has to be closed. *)
Definition sm_put_back (i o : nat) (recv_len : Z) (queued : bool) (sm : SessionManager) : option SessionManager :=
  s ← sm_sessions sm !! i;
  Some (mkManager (<[i := put_or_close_stream o recv_len queued s]> (sm_sessions sm)) (sm_count sm)).

(** [SessionManager::close] as far as the sessions are concerned. *)
Definition sm_close (sm : SessionManager) : SessionManager := mkManager (session_close <$> sm_sessions sm) (sm_count sm).

(** *** Rebuilding a session *)

(** Where [rebuild_session] is: about to load the session of its slot and to listen
    for its end, listening, pausing before the next attempt, done. *)
Inductive RebuildPc : Type :=
| RbListen
| RbWait
| RbPause
| RbDone.

(** A slot of the manager: how often its session was replaced, whether the one in it
    is shut down, whether the task heard of it, and whether it heard that the manager
    was closed.  A listener hears what is announced after it has been created. *)
Record Slot : Type := mkSlot {
  sl_pc : RebuildPc;
  sl_replaced : nat;
  sl_shut : bool;
  sl_told : bool;
  sl_stop : bool;
}.

Inductive SlotEvent : Type :=
| SeShutdown
| SeStop
| SeTask (connected : bool).

Definition slot_step (e : SlotEvent) (s : Slot) : option Slot :=
  let '(mkSlot pc n shut told stop) := s in
  match e with
  | SeShutdown => Some (if shut then s else mkSlot pc n true (match pc with RbWait => true | _ => told end) stop)
  | SeStop => Some (mkSlot pc n shut told true)
  | SeTask connected =>
      match pc with
      | RbListen => Some (mkSlot RbWait n shut false stop)
      | RbWait =>
          if told then Some (mkSlot RbPause n shut told stop)
          else if stop then Some (mkSlot RbDone n shut told stop) else None
      | RbPause =>
          if stop then Some (mkSlot RbDone n shut told stop)
          else Some (if connected then mkSlot RbListen (S n) false false stop else s)
      | RbDone => None
      end
  end.

Fixpoint slot_run (l : list SlotEvent) (s : Slot) : option Slot :=
  match l with
  | [] => Some s
  | e :: l => s ← slot_step e s; slot_run l s
  end.

(** A number of requests after another. *)
Fixpoint serve (n : nat) (sm : SessionManager) : option (list nat * SessionManager) :=
  match n with
  | O => Some ([], sm)
  | S n =>
      '(i, _, sm) ← sm_get_stream sm;
      '(l, sm) ← serve n sm;
      Some (i :: l, sm)
  end.

(** ** The length of a number *)

Lemma bytes_of_length (s : string) : length (bytes_of s) = String.length s.
Proof. unfold bytes_of. rewrite length_fmap. induction s as [|a s IH]; cbn; [done|by rewrite IH]. Qed.

Lemma bytes_of_inj (s t : string) : bytes_of s = bytes_of t -> s = t.
Proof.
  unfold bytes_of. revert t. induction s as [|a s IH]; intros [|b t]; cbn; try done. intros [= E1 E2]. f_equal; [|by apply IH].
  apply N2Z.inj in E1. rewrite <- (ascii_N_embedding a), <- (ascii_N_embedding b). by rewrite E1.
Qed.

Lemma pretty_go_length (k : nat) (x : N) (s : string) : (x < 10 ^ N.of_nat k)%N -> (String.length (pretty_N_go x s) <= k + String.length s)%nat.
Proof.
  revert x s. induction k as [|k IH]; intros x s Hx; [assert (x = 0%N) as -> by (change (10 ^ N.of_nat 0)%N with 1%N in Hx; lia); by rewrite pretty_N_go_0|].
  destruct (decide (0 < x)%N) as [Hp|Hp]; [|assert (x = 0%N) as -> by lia; rewrite pretty_N_go_0; clear; lia].
  rewrite pretty_N_go_step by done. etransitivity; [apply IH|cbn; lia]. rewrite Nat2N.inj_succ, N.pow_succ_r' in Hx. by apply N.Div0.div_lt_upper_bound.
Qed.

Lemma decimal_length (k : nat) (n : Z) : (1 <= k)%nat -> 0 <= n < 10 ^ Z.of_nat k -> Z.of_nat (length (decimal n)) <= Z.of_nat k.
Proof.
  intros Hk Hn. unfold decimal. rewrite bytes_of_length. destruct n as [|q|q]; [cbn; lia| |lia].
  change (pretty (Z.pos q)) with (pretty (N.pos q)). unfold pretty, pretty_N. destruct (decide (N.pos q = 0%N)) as [|_]; [done|].
  pose proof (pretty_go_length k (N.pos q) "" ltac:(apply N2Z.inj_lt; rewrite N2Z.inj_pow, nat_N_Z; exact (proj2 Hn))) as H.
  change (String.length "") with 0%nat in H. lia.
Qed.

Lemma decimal_inj (a b : Z) : decimal a = decimal b -> a = b.
Proof. intros E. apply bytes_of_inj in E. by apply (inj pretty) in E. Qed.

(** ** What the names guarantee *)

Lemma u64_digits (n : Z) : 0 <= n < W64 -> Z.of_nat (length (decimal n)) <= 20.
Proof. intros Hn. apply (decimal_length 20); [lia|]. assert (W64 < 10 ^ Z.of_nat 20) by (vm_compute; reflexivity). lia. Qed.

Lemma Ok_injective {E A} (x y : A) : @Ok E A x = Ok y -> x = y.
Proof. congruence. Qed.

(** C34. The names of the sessions of a process: they share one pool of buffers and never a
    queue, and where the names are those of files neither is longer than a file name
    may be, whatever the process, the epoch and the session are. *)
Theorem session_names (base c d : Config) (pid i j epoch rand : Z) :
  0 <= i < W64 -> 0 <= epoch < W64 -> 0 <= rand < W64 -> session_config base pid i epoch rand = Ok c -> session_config base pid j epoch rand = Ok d ->
  share_memory_path_prefix c = share_memory_path_prefix d /\ (queue_path c = queue_path d -> i = j) /\
  (is_memfd (mem_map_type base) = false ->
   Z.of_nat (length (queue_path c)) <= FILE_NAME_MAX_LEN /\ Z.of_nat (length (share_memory_path_prefix c ++ BUFFER_PATH_SUFFIX)) <= FILE_NAME_MAX_LEN).
Proof.
  intros Hi He Hr. unfold session_config. set (prefix := share_memory_path_prefix base ++ bytes_of "_" ++ decimal pid).
  destruct (_ && _) eqn:Eb; [done|]. intros Ec%Ok_injective Ed%Ok_injective. subst c d. cbn [with_names share_memory_path_prefix queue_path mem_map_type].
  set (full := if epoch >? 0 then _ else prefix). assert (Hl : Z.of_nat (length full) <= Z.of_nat (length prefix) + EPOCH_INFO_MAX_LEN).
  { pose proof (u64_digits epoch He). pose proof (u64_digits rand Hr). unfold full, EPOCH_INFO_MAX_LEN. destruct (epoch >? 0); [|lia].
    rewrite !length_app, !bytes_of_length. cbn [String.length]. lia. }
  assert (Hne : full <> []).
  { assert (prefix <> []) by (unfold prefix; destruct (share_memory_path_prefix base); done). unfold full. destruct (epoch >? 0); [|done]. by destruct prefix. }
  destruct full as [|z full'] eqn:Ef; [done|]. rewrite <- Ef in *. clear Hne. split; [done|]. split.
  - intros E. apply app_inv_head, app_inv_head in E. by apply decimal_inj.
  - intros Hm. rewrite Hm in Eb. cbn [negb andb] in Eb. pose proof (u64_digits i Hi). unfold FILE_NAME_MAX_LEN, QUEUE_INFO_MAX_LEN, BUFFER_PATH_SUFFIX in *.
    rewrite !length_app, !bytes_of_length. cbn [String.length]. lia.
Qed.

(** ** Turns *)

Lemma count_none (l : list nat) (i : nat) : Forall (fun k => k <> i) l -> count_occ Nat.eq_dec l i = 0%nat.
Proof. induction 1 as [|k l Hk _ IH]; cbn; [done|]. by destruct (Nat.eq_dec k i). Qed.

Lemma count_all (l : list nat) (i : nat) : Forall (fun k => k = i) l -> count_occ Nat.eq_dec l i = length l.
Proof. induction 1 as [|k l Hk _ IH]; cbn; [done|]. destruct (Nat.eq_dec k i); [by rewrite IH|done]. Qed.

(** The blocks of 32 requests from the start on. *)
Lemma count_blocks (n i : nat) : count_occ Nat.eq_dec ((fun k => (k / 32)%nat) <$> seq 0 (32 * n)) i = if (i <? n)%nat then 32%nat else 0%nat.
Proof.
  induction n as [|n IH]; [done|]. replace (32 * S n)%nat with (32 * n + 32)%nat by lia. rewrite seq_app, fmap_app, count_occ_app, IH. cbn [plus].
  assert (Hb : Forall (fun k => k = n) ((fun k => (k / 32)%nat) <$> seq (32 * n) 32)).
  { apply Forall_fmap, Forall_forall. intros k Hk%elem_of_seq. cbn. symmetry. apply (Nat.div_unique k 32 n (k - 32 * n)); lia. }
  destruct (decide (i = n)) as [-> |Hne].
  - rewrite (count_all _ _ Hb), length_fmap, length_seq. destruct (Nat.ltb_spec n n), (Nat.ltb_spec n (S n)); lia.
  - rewrite count_none by (eapply Forall_impl; [exact Hb|]; cbn; lia). destruct (Nat.ltb_spec i n), (Nat.ltb_spec i (S n)); lia.
Qed.

(** Any window of that length has every session as often. *)
Lemma count_window (n i a : nat) : (i < n)%nat -> count_occ Nat.eq_dec ((fun k => (k / 32 mod n)%nat) <$> seq a (32 * n)) i = 32%nat.
Proof.
  intros Hi. set (f := fun k => (k / 32 mod n)%nat). induction a as [|a IH].
  - transitivity (count_occ Nat.eq_dec ((fun k => (k / 32)%nat) <$> seq 0 (32 * n)) i).
    + f_equal. apply list_fmap_ext. intros j k [-> Hj]%lookup_seq. unfold f. apply Nat.mod_small, Nat.Div0.div_lt_upper_bound. lia.
    + rewrite count_blocks. by rewrite (proj2 (Nat.ltb_lt i n) Hi).
  - assert (Ef : f (a + 32 * n)%nat = f a) by (unfold f; rewrite (Nat.mul_comm 32 n), Nat.div_add by done; by rewrite <- (Nat.mul_1_l n) at 1; rewrite Nat.Div0.mod_add).
    assert (E : f a :: (f <$> seq (S a) (32 * n)) = (f <$> seq a (32 * n)) ++ [f a]).
    { rewrite <- Ef at 2. change (f a :: (f <$> seq (S a) (32 * n))) with (f <$> seq a (S (32 * n))). by rewrite seq_S, fmap_app. }
    apply (f_equal (fun l => count_occ Nat.eq_dec l i)) in E. rewrite count_occ_app, IH in E. cbn [count_occ] in E. destruct (Nat.eq_dec (f a) i); lia.
Qed.

Lemma serve_spec (n : nat) (sm : SessionManager) :
  sm_sessions sm <> [] -> 0 <= sm_count sm -> sm_count sm + Z.of_nat n < W64 ->
  exists sm', serve n sm = Some ((fun k => (k / 32 mod length (sm_sessions sm))%nat) <$> seq (S (Z.to_nat (sm_count sm))) n, sm').
Proof.
  revert sm. induction n as [|n IH]; intros sm Hne Hc Hw; [by eexists|]. cbn [serve]. set (m := length (sm_sessions sm)). set (k := S (Z.to_nat (sm_count sm))).
  assert (Hm : (0 < m)%nat) by (unfold m; destruct (sm_sessions sm); [done|cbn; lia]).
  assert (Ew : wrap64 (sm_count sm + 1) = Z.of_nat k) by (unfold wrap64; rewrite Z.mod_small by (unfold W64 in *; lia); unfold k; lia).
  assert (Ei : next_index sm = (k / 32 mod m)%nat).
  { unfold next_index, SESSION_ROUND_ROBIN_THRESHOLD. rewrite Ew. fold m. change 32 with (Z.of_nat 32). rewrite <- Nat2Z.inj_div, <- Nat2Z.inj_mod, Nat2Z.id. done. }
  assert (Hlt : (next_index sm < m)%nat) by (rewrite Ei; apply Nat.mod_upper_bound; lia). destruct (lookup_lt_is_Some_2 _ _ Hlt) as [s Hs].
  destruct (get_or_open_stream s) as [r s'] eqn:Eg.
  assert (E : sm_get_stream sm = Some (next_index sm, r, mkManager (<[next_index sm := s']> (sm_sessions sm)) (Z.of_nat k))).
  { unfold sm_get_stream. destruct (sm_sessions sm) as [|s0 l] eqn:El; [done|]. rewrite <- El in *. by rewrite Hs, <- Ew; cbn [mbind option_bind]; rewrite Eg. }
  rewrite E. cbn [mbind option_bind]. destruct (IH (mkManager (<[next_index sm := s']> (sm_sessions sm)) (Z.of_nat k))) as (sm' & ->); cbn [sm_sessions sm_count].
  - intros E0. apply (f_equal length) in E0. rewrite length_insert in E0. fold m in E0. cbn in E0. lia.
  - lia.
  - unfold k. lia.
  - exists sm'. cbn [mbind option_bind seq fmap list_fmap]. rewrite length_insert, Ei, Nat2Z.id. done.
Qed.

(** The manager is fair: whenever it starts, of 32 requests for every session each session
    serves exactly 32. *)
Theorem round_robin_fair (sm : SessionManager) (i : nat) :
  let n := length (sm_sessions sm) in
  (i < n)%nat -> 0 <= sm_count sm -> sm_count sm + 32 * Z.of_nat n < W64 ->
  exists served sm', serve (32 * n) sm = Some (served, sm') /\ count_occ Nat.eq_dec served i = 32%nat.
Proof.
  intros n Hi Hc Hw. destruct (serve_spec (32 * n) sm) as (sm' & E).
  - intros E. unfold n in Hi. rewrite E in Hi. cbn in Hi. lia.
  - done.
  - lia.
  - eexists _, sm'. split; [exact E|]. by apply count_window.
Qed.

(** ** Rebuilding *)

(** A session that ends while its task listens is replaced, after any number of failed
    attempts and one that succeeds. *)
Theorem rebuild_replaces (n fails : nat) :
  slot_run (SeShutdown :: SeTask false :: repeat (SeTask false) fails ++ [SeTask true]) (mkSlot RbWait n false false false) =
  Some (mkSlot RbListen (S n) false false false).
Proof. cbn. induction fails as [|k IH]; [done|]. exact IH. Qed.

(** A session that ends before its task listens is never replaced: the task waits for
    a notification that has been given. *)
Theorem rebuild_misses_shutdown (n : nat) (l : list SlotEvent) (s : Slot) :
  slot_run l (mkSlot RbWait n true false false) = Some s -> sl_replaced s = n /\ (sl_pc s = RbWait \/ sl_pc s = RbDone) /\ sl_shut s = true.
Proof.
  assert (H : forall pc stop, pc = RbWait \/ pc = RbDone -> forall l s, slot_run l (mkSlot pc n true false stop) = Some s ->
    sl_replaced s = n /\ (sl_pc s = RbWait \/ sl_pc s = RbDone) /\ sl_shut s = true); [|by apply H; left].
  intros pc stop Hpc l'. revert pc stop Hpc. induction l' as [|e l' IH]; intros pc stop Hpc s' Hr; cbn in Hr; [by injection Hr as <-|].
  destruct e as [| |b]; cbn in Hr; [by apply (IH pc stop)|by apply (IH pc true)|].
  destruct Hpc as [-> | ->]; [|done]. destruct stop; [|done]. cbn in Hr. apply (IH RbDone true); [by right|done].
Qed.

(** The window: after a rebuild the new session is in its slot before the task listens
    for its end. *)
Lemma rebuild_window (n : nat) :
  slot_run [SeTask true; SeShutdown; SeTask false] (mkSlot RbPause n true true false) = Some (mkSlot RbWait (S n) true false false).
Proof. done. Qed.

(** ** Witnesses *)

Definition sample_base : Config :=
  mkConfig (initialize_timeout config_default) None None (initialize_timeout config_default) 8 (bytes_of "q") 4096 (bytes_of "/dev/shm/a") [] MemMapTypeDevShmFile 0 4
    (mkProtocol Legacy WakeupDefault) 0.

Lemma session_names_witness :
  exists c d, session_config sample_base 77 0 0 0 = Ok c /\ session_config sample_base 77 1 0 0 = Ok d /\ share_memory_path_prefix c = share_memory_path_prefix d /\
    (queue_path c = queue_path d -> 0 = 1) /\ Z.of_nat (length (queue_path c)) <= FILE_NAME_MAX_LEN.
Proof.
  eexists _, _. split; [reflexivity|]. split; [reflexivity|].
  destruct (session_names sample_base _ _ 77 0 1 0 0 ltac:(vm_compute; split; [discriminate|reflexivity]) ltac:(vm_compute; split; [discriminate|reflexivity]) ltac:(vm_compute; split; [discriminate|reflexivity]) eq_refl eq_refl) as (E1 & E2 & E3).
  split; [exact E1|]. split; [exact E2|]. exact (proj1 (E3 eq_refl)).
Defined.

Definition sample_manager : SessionManager := mkManager (repeat (mkSession true 5 1 [] ∅ [] 4 false false [] []) 3) 50.

Lemma round_robin_fair_witness : exists served sm', serve 96 sample_manager = Some (served, sm') /\ count_occ Nat.eq_dec served 2%nat = 32%nat.
Proof.
  apply (round_robin_fair sample_manager 2%nat).
  - cbn. lia.
  - discriminate.
  - reflexivity.
Defined.
