(* ===== verification/StreamOrder.v ===== *)
(** * One direction of a session: messages over two channels

    A stream's messages travel as elements of the shared queue until the first
    one that did not fit the segment, and as frames on the unix socket from then
    on ([Stream::flush_v5]; the write buffer stays on the heap once a flush has
    fallen back); its close takes whichever channel the stream is on
    ([Stream::close]).  The receiving session drains the queue on wakeups, and
    before it handles anything from the socket.  Here sender, queue, socket and
    receiver are put together; a drain sees every element published before it. *)

From Stdlib Require Import ZArith Lia.
From stdpp Require Import base numbers list gmap relations.
From S2P Require Import Prelude Bytes Protocol BufReader Socket DataQueue WriteBuf ReadBuf Session SessionFacts.

#[local] Open Scope Z_scope.

(** ** The sending side of a stream *)

(** [sd_socket]: a message of this stream has gone over the socket. *)
Record Sender : Type := mkSender {
  sd_state : Z;
  sd_socket : bool;
}.

(** What the socket carries of it, as the read loop hands it to the session. *)
Inductive SockMsg : Type :=
| KData (id status : Z) (bytes : list Z)
| KClose (id : Z).

Record Sys : Type := mkSys {
  y_snd : Z -> Sender;
  y_rcv : Session;
  y_sock : list SockMsg;
  y_taken : Z -> list PendingInput;
  y_sent : Z -> list PendingInput;
}.

Definition upd {A} (f : Z -> A) (id : Z) (v : A) : Z -> A := fun i => if i =? id then v else f i.

(** [flush_v5] of a message in the segment, its put accepted. *)
Definition flush_queue (id root : Z) (y : Sys) : option Sys :=
  let sd := y_snd y id in
  if negb (sd_state sd =? STREAM_OPENED) || sd_socket sd then None
  else Some (mkSys (y_snd y)
         (with_pops (y_rcv y) (se_pops (y_rcv y) ++ [PReady (with_offset id OP_STREAM_DATA root)]))
         (y_sock y) (y_taken y) (upd (y_sent y) id (y_sent y id ++ [InShm root]))).

(** [flush_v5] of a message with heap parts: its frames' payloads, in order. *)
Definition flush_socket (id : Z) (payloads : list (list Z)) (y : Sys) : option Sys :=
  let sd := y_snd y id in
  if negb (sd_state sd =? STREAM_OPENED) || existsb is_nil payloads then None
  else Some (mkSys (upd (y_snd y) id (mkSender (sd_state sd) true)) (y_rcv y)
         (y_sock y ++ (KData id STREAM_OPENED <$> payloads)) (y_taken y)
         (upd (y_sent y) id (y_sent y id ++ (InHeap <$> payloads)))).

(** [Stream::close] on an open stream: over the queue when the stream is on it
    and the put is accepted, over the socket otherwise. *)
Definition close_stream (id : Z) (queued : bool) (y : Sys) : option Sys :=
  let sd := y_snd y id in
  if negb (sd_state sd =? STREAM_OPENED) then None
  else
    let snd := upd (y_snd y) id (mkSender STREAM_CLOSED (sd_socket sd)) in
    Some (if queued && negb (sd_socket sd)
          then mkSys snd (with_pops (y_rcv y) (se_pops (y_rcv y) ++ [PReady (element_new id OP_CLOSE_STREAM)]))
                 (y_sock y) (y_taken y) (y_sent y)
          else mkSys snd (y_rcv y) (y_sock y ++ [KClose id]) (y_taken y) (y_sent y)).

(** ** The receiving side *)

Definition recv_poll (y : Sys) : Sys :=
  mkSys (y_snd y) (handle_polling (y_rcv y)).1 (y_sock y) (y_taken y) (y_sent y).

Definition recv_socket (y : Sys) : option Sys :=
  match y_sock y with
  | [] => None
  | KData id status bytes :: k =>
      Some (mkSys (y_snd y) (on_fallback id status bytes (y_rcv y)).1 k (y_taken y) (y_sent y))
  | KClose id :: k => Some (mkSys (y_snd y) (on_close id (y_rcv y)).1 k (y_taken y) (y_sent y))
  end.

(** A reader takes what is in an inbox ([V5Inbox::swap_pending]). *)
Definition take_inbox (o : nat) (y : Sys) : option Sys :=
  x ← se_objs (y_rcv y) !! o;
  Some (mkSys (y_snd y) (upd_obj o (set_inbox (mkInbox (in_generation (so_inbox x)) [])) (y_rcv y)) (y_sock y)
         (upd (y_taken y) (so_id x) (y_taken y (so_id x) ++ in_pending (so_inbox x))) (y_sent y)).

Inductive sys_step : Sys -> Sys -> Prop :=
| y_flush_queue id root y y' : - (I64_MAX + 1) <= root <= I64_MAX -> flush_queue id root y = Some y' -> sys_step y y'
| y_flush_socket id ps y y' : flush_socket id ps y = Some y' -> sys_step y y'
| y_close id queued y y' : close_stream id queued y = Some y' -> sys_step y y'
| y_poll y : sys_step y (recv_poll y)
| y_recv y y' : recv_socket y = Some y' -> sys_step y y'
| y_take o y y' : take_inbox o y = Some y' -> sys_step y y'.

(** A server that knows no stream yet; every id is still to be used. *)
Definition session_start (version : Z) : Session :=
  mkSession false version 2 [] ∅ [] 0 false false [] [].

Definition sys_init (version : Z) : Sys :=
  mkSys (fun _ => mkSender STREAM_OPENED false) (session_start version) [] (fun _ => []) (fun _ => []).

(** ** What is where *)

Definition data_of (id : Z) (e : Element) : option PendingInput :=
  if (op e =? OP_STREAM_DATA) && (stream_id e =? id) then Some (InShm (e_offset e)) else None.

Definition in_queue (id : Z) (q : list Element) : list PendingInput := omap (data_of id) q.

Definition sock_data (id : Z) (m : SockMsg) : option PendingInput :=
  match m with
  | KData i _ bytes => if i =? id then Some (InHeap bytes) else None
  | KClose _ => None
  end.

Definition in_socket (id : Z) (k : list SockMsg) : list PendingInput := omap (sock_data id) k.

(** What the inboxes of a stream's objects hold. *)
Definition in_inbox (id : Z) (objs : list StreamObj) : list PendingInput :=
  concat ((fun x => if so_id x =? id then in_pending (so_inbox x) else []) <$> objs).

(** A close of [id] is not followed by data of [id]. *)
Definition close_last_queue (id : Z) (q : list Element) : Prop :=
  forall a b, q = a ++ element_new id OP_CLOSE_STREAM :: b -> in_queue id b = [].

Definition close_last_socket (id : Z) (k : list SockMsg) : Prop :=
  forall a b, k = a ++ KClose id :: b -> in_socket id b = [].

(** ** The invariant *)

Definition session_mode (s : Session) : bool * bool := (se_client s, se_shutdown s).

Record flow (snd : Z -> Sender) (s : Session) (q : list Element) (k : list SockMsg)
    (taken sent : Z -> list PendingInput) : Prop := {
  fl_ok : sess_ok s;
  fl_server : session_mode s = (false, false);
  fl_unique : forall i j x y, se_objs s !! i = Some x -> se_objs s !! j = Some y -> so_id x = so_id y -> i = j;
  fl_open : forall i x, se_objs s !! i = Some x -> so_open x = true -> se_streams s !! so_id x = Some i;
  fl_done : forall i x, se_objs s !! i = Some x -> so_open x = false ->
    sd_state (snd (so_id x)) = STREAM_CLOSED /\ in_queue (so_id x) q = [] /\ in_socket (so_id x) k = [];
  fl_elems : Forall (fun e => op e = OP_STREAM_DATA \/ e = element_new (stream_id e) OP_CLOSE_STREAM) q;
  fl_payloads : Forall (fun m => match m with KData _ st b => st = STREAM_OPENED /\ b <> [] | _ => True end) k;
  fl_socket : forall id, sd_socket (snd id) = false -> in_socket id k = [];
  fl_close_queue : forall id, In (element_new id OP_CLOSE_STREAM) q ->
    sd_state (snd id) = STREAM_CLOSED /\ sd_socket (snd id) = false /\ close_last_queue id q;
  fl_close_socket : forall id, In (KClose id) k ->
    sd_state (snd id) = STREAM_CLOSED /\ close_last_socket id k;
  fl_conserve : forall id, taken id ++ in_inbox id (se_objs s) ++ in_queue id q ++ in_socket id k = sent id;
}.
