(* ===== verification/StreamOrderTheorems.v ===== *)
(** * Every stream arrives in order and whole *)

From Stdlib Require Import ZArith Lia.
From stdpp Require Import base numbers list gmap relations.
From S2P Require Import Prelude Bytes Protocol BufReader Socket DataQueue WriteBuf ReadBuf Session SessionFacts.
From S2P Require Import StreamOrder.

#[local] Open Scope Z_scope.

(** ** Inboxes *)

Definition unique_ids (objs : list StreamObj) : Prop :=
  forall i j x y, objs !! i = Some x -> objs !! j = Some y -> so_id x = so_id y -> i = j.

Lemma in_inbox_app (id : Z) (a b : list StreamObj) : in_inbox id (a ++ b) = in_inbox id a ++ in_inbox id b.
Proof. unfold in_inbox. by rewrite fmap_app, concat_app. Qed.

Lemma in_inbox_none (id : Z) (objs : list StreamObj) :
  (forall i x, objs !! i = Some x -> so_id x <> id) -> in_inbox id objs = [].
Proof.
  induction objs as [|x objs IH]; intros Hn; [done|]. unfold in_inbox. cbn [fmap list_fmap concat]. fold (in_inbox id objs).
  destruct (Z.eqb_spec (so_id x) id) as [E|_]; [by destruct (Hn 0%nat x eq_refl)|].
  apply IH. intros i y Hy. by apply (Hn (S i) y).
Qed.

Lemma in_inbox_unique (objs : list StreamObj) (o : nat) (x : StreamObj) :
  unique_ids objs -> objs !! o = Some x -> in_inbox (so_id x) objs = in_pending (so_inbox x).
Proof.
  intros Hu Ho. pose proof (lookup_lt_Some _ _ _ Ho) as Hlt. rewrite <- (take_drop_middle objs o x Ho) at 1.
  rewrite in_inbox_app. change (x :: drop (S o) objs) with ([x] ++ drop (S o) objs). rewrite in_inbox_app.
  rewrite (in_inbox_none _ (take o objs)), (in_inbox_none _ (drop (S o) objs)).
  - unfold in_inbox. cbn. rewrite Z.eqb_refl. by rewrite !app_nil_r.
  - intros i y Hy E. rewrite lookup_drop in Hy. specialize (Hu _ _ _ _ Hy Ho E). lia.
  - intros i y Hy E. apply lookup_take_Some in Hy as [Hy Hi]. specialize (Hu _ _ _ _ Hy Ho E). lia.
Qed.

Lemma in_inbox_other (id : Z) (objs : list StreamObj) (o : nat) (x : StreamObj) (f : StreamObj -> StreamObj) :
  objs !! o = Some x -> so_id x <> id -> so_id (f x) = so_id x -> in_inbox id (alter f o objs) = in_inbox id objs.
Proof.
  intros Ho Hne Hf. pose proof (lookup_lt_Some _ _ _ Ho) as Hlt. rewrite <- (take_drop_middle objs o x Ho).
  rewrite alter_app_r_alt by (rewrite length_take; lia). rewrite length_take, Nat.min_l, Nat.sub_diag by lia.
  cbn [alter list_alter]. rewrite !in_inbox_app. f_equal. unfold in_inbox. cbn [fmap list_fmap concat]. rewrite Hf.
  destruct (Z.eqb_spec (so_id x) id); [done|]. done.
Qed.

(** ** Shapes: the ids and states of the objects *)

Definition shape (x : StreamObj) : Z * Z := (so_id x, so_state x).

Lemma shape_lookup (objs objs' : list StreamObj) (i : nat) (y : StreamObj) :
  shape <$> objs' = shape <$> objs -> objs' !! i = Some y -> exists x, objs !! i = Some x /\ shape x = shape y.
Proof.
  intros Hs Hy. apply (f_equal (fun l => l !! i)) in Hs. rewrite !list_lookup_fmap, Hy in Hs. cbn in Hs.
  destruct (objs !! i) as [x|]; [|done]. exists x. split; [done|]. cbn in Hs. congruence.
Qed.

Lemma shape_alter (f : StreamObj -> StreamObj) (o : nat) (objs : list StreamObj) :
  (forall x, shape (f x) = shape x) -> shape <$> alter f o objs = shape <$> objs.
Proof.
  intros Hf. apply list_eq. intros i. rewrite !list_lookup_fmap, list_lookup_alter.
  case_decide as E; [subst; destruct (objs !! i); cbn; [by rewrite Hf|done]|done].
Qed.

Lemma shape_eq (x y : StreamObj) : shape x = shape y -> so_id x = so_id y /\ so_open x = so_open y.
Proof. intros E. injection E as E1 E2. unfold so_open. by rewrite E1, E2. Qed.

(** ** Moving forward in the channels *)

Lemma in_queue_app (id : Z) (a b : list Element) : in_queue id (a ++ b) = in_queue id a ++ in_queue id b.
Proof. apply omap_app. Qed.

Lemma in_socket_app (id : Z) (a b : list SockMsg) : in_socket id (a ++ b) = in_socket id a ++ in_socket id b.
Proof. apply omap_app. Qed.

Section advance.
Context (snd : Z -> Sender) (s s' : Session) (qa q : list Element) (ka k : list SockMsg).
Context (taken taken' sent : Z -> list PendingInput).

(** Nothing but the contents of inboxes has changed, and the front of the
    channels has been used up. *)
Lemma flow_advance :
  flow snd s (qa ++ q) (ka ++ k) taken sent ->
  session_mode s' = session_mode s -> se_streams s' = se_streams s -> shape <$> se_objs s' = shape <$> se_objs s ->
  (forall id, taken' id ++ in_inbox id (se_objs s') = taken id ++ in_inbox id (se_objs s) ++ in_queue id qa ++ in_socket id ka
     /\ (in_socket id ka = [] \/ in_queue id q = [])) ->
  flow snd s' q k taken' sent.
Proof.
  intros [F1 F2 F3 F4 F5 F6 F7 F8 F9 F10 F11] Ec Es Eo Hc. split.
  - intros id o Ho. rewrite Es in Ho. destruct (F1 id o Ho) as (x & Hx & Hid).
    destruct (shape_lookup _ _ _ _ (eq_sym Eo) Hx) as (y & Hy & E). exists y. split; [done|]. apply shape_eq in E as [-> _]. done.
  - by rewrite Ec.
  - intros i j x y Hx Hy E. destruct (shape_lookup _ _ _ _ Eo Hx) as (x0 & Hx0 & Ex). destruct (shape_lookup _ _ _ _ Eo Hy) as (y0 & Hy0 & Ey).
    apply shape_eq in Ex as [Ex _]. apply shape_eq in Ey as [Ey _]. apply (F3 i j x0 y0 Hx0 Hy0). congruence.
  - intros i x Hx Hop. destruct (shape_lookup _ _ _ _ Eo Hx) as (x0 & Hx0 & Ex). apply shape_eq in Ex as [Ex1 Ex2].
    rewrite Es, <- Ex1. apply (F4 i x0 Hx0). congruence.
  - intros i x Hx Hop. destruct (shape_lookup _ _ _ _ Eo Hx) as (x0 & Hx0 & Ex). apply shape_eq in Ex as [Ex1 Ex2].
    rewrite <- Ex1. destruct (F5 i x0 Hx0) as (G1 & G2 & G3); [congruence|]. rewrite in_queue_app in G2. rewrite in_socket_app in G3.
    apply app_eq_nil in G2 as [_ G2]. apply app_eq_nil in G3 as [_ G3]. done.
  - by apply Forall_app in F6 as [_ F6].
  - by apply Forall_app in F7 as [_ F7].
  - intros id Hid. specialize (F8 id Hid). rewrite in_socket_app in F8. by apply app_eq_nil in F8 as [_ F8].
  - intros id Hin. destruct (F9 id) as (G1 & G2 & G3); [apply in_app_iff; by right|]. split; [done|]. split; [done|].
    intros a b E. apply (G3 (qa ++ a) b). by rewrite E, app_assoc.
  - intros id Hin. destruct (F10 id) as (G1 & G3); [apply in_app_iff; by right|]. split; [done|].
    intros a b E. apply (G3 (ka ++ a) b). by rewrite E, app_assoc.
  - intros id. rewrite <- (F11 id), in_queue_app, in_socket_app. destruct (Hc id) as [E [E2|E2]].
    + rewrite E2, app_nil_r in E. rewrite app_assoc, E, E2, <- !app_assoc. done.
    + rewrite E2 in *. rewrite app_assoc, E, app_nil_r, <- !app_assoc. done.
Qed.

End advance.

Section flow.
Context (snd : Z -> Sender) (k : list SockMsg) (taken sent : Z -> list PendingInput).

Lemma flow_core (s t : Session) (q : list Element) : core s = core t -> flow snd s q k taken sent -> flow snd t q k taken sent.
Proof.
  intros E F. pose proof (f_equal session_mode E) as E1. pose proof (f_equal se_objs E) as E2. pose proof (f_equal se_streams E) as E3.
  cbn in E1, E2, E3. apply (flow_advance snd s t [] q [] k taken taken sent F); [done|done|by rewrite E2|].
  intros id. rewrite E2. split; [by rewrite app_nil_r|by left].
Qed.

Lemma flow_pops (s : Session) (q : list Element) (pops : list Pop) :
  flow snd s q k taken sent -> flow snd (with_pops s pops) q k taken sent.
Proof.
  intros F. apply (flow_advance snd s _ [] q [] k taken taken sent F); [done|done|done|].
  intros id. split; [by rewrite app_nil_r|by left].
Qed.

(** Data for [id] is under way. *)
Definition under_way (id : Z) (q : list Element) : Prop := in_queue id q <> [] \/ in_socket id k <> [].

Lemma under_way_open (s : Session) (q : list Element) (id : Z) (i : nat) (x : StreamObj) :
  flow snd s q k taken sent -> under_way id q -> se_objs s !! i = Some x -> so_id x = id -> so_open x = true.
Proof.
  intros F Hu Hx <-. destruct (so_open x) eqn:Eo; [done|]. destruct (fl_done _ _ _ _ _ _ F i x Hx Eo) as (_ & H1 & H2).
  by destruct Hu.
Qed.

(** The stream data under way belongs to is found open, or created. *)
Lemma flow_get_stream (s : Session) (q : list Element) (id : Z) :
  flow snd s q k taken sent -> under_way id q ->
  exists o x s1, get_stream id STREAM_OPENED s = (Some o, s1) /\ se_objs s1 !! o = Some x /\ so_id x = id /\
    so_open x = true /\ flow snd s1 q k taken sent.
Proof.
  intros F Hu. unfold get_stream. destruct (se_streams s !! id) as [o|] eqn:Eo.
  - destruct (fl_ok _ _ _ _ _ _ F id o Eo) as (x & Hx & Hid). exists o, x, s. split; [done|]. split; [done|]. split; [done|].
    split; [by apply (under_way_open s q id o x)|done].
  - replace (se_client s) with false by (symmetry; apply (f_equal Datatypes.fst (fl_server _ _ _ _ _ _ F))). cbn [negb andb]. change (STREAM_OPENED =? STREAM_OPENED) with true. cbn [insert_stream].
    set (n := length (se_objs s)). exists n, (stream_new id). eexists. split; [reflexivity|].
    assert (El : (se_objs s ++ [stream_new id]) !! n = Some (stream_new id)) by apply list_lookup_middle, eq_refl.
    split; [done|]. split; [done|]. split; [done|].
    assert (Hno : forall i y, se_objs s !! i = Some y -> so_id y <> id).
    { intros i y Hy E. pose proof (under_way_open s q id i y F Hu Hy E) as Hop.
      pose proof (fl_open _ _ _ _ _ _ F i y Hy Hop) as Hm. congruence. }
    assert (Hcase : forall i y, (se_objs s ++ [stream_new id]) !! i = Some y -> se_objs s !! i = Some y \/ (i = n /\ y = stream_new id)).
    { intros i y Hy. apply lookup_app_Some in Hy as [Hy|[Hl Hy]]; [by left|]. right. apply list_lookup_singleton_Some in Hy as [Hi <-].
      split; [unfold n; lia|done]. }
    destruct F as [F1 F2 F3 F4 F5 F6 F7 F8 F9 F10 F11]. split; try done; cbn [act with_objs se_objs se_streams se_client].
    + apply act_ok. intros i o Hi. cbn in Hi. apply lookup_insert_Some in Hi as [[<- <-]|[_ Hi]]; [by exists (stream_new id)|].
      destruct (F1 i o Hi) as (x & Hx & Hid). exists x. split; [|done]. cbn. by apply lookup_app_l_Some.
    + intros i j x y Hx Hy E. apply Hcase in Hx as [Hx|[-> ->]]; apply Hcase in Hy as [Hy|[-> ->]]; try done.
      * by apply (F3 i j x y).
      * by destruct (Hno i x Hx).
      * by destruct (Hno j y Hy).
    + intros i x Hx Hop. apply Hcase in Hx as [Hx|[-> ->]].
      * rewrite lookup_insert_ne by (intros E; by apply (Hno i x Hx)). by apply F4.
      * cbn. by rewrite lookup_insert_eq.
    + intros i x Hx Hop. apply Hcase in Hx as [Hx|[-> ->]]; [by apply (F5 i x)|done].
    + intros i. rewrite <- (F11 i), in_inbox_app. f_equal. unfold in_inbox at 2. cbn. destruct (id =? i); by rewrite !app_nil_r.
Qed.

(** A session whose object [o] has more in its inbox. *)
Lemma flow_deposit (s s' : Session) (qa q : list Element) (ka k' : list SockMsg) (o : nat) (x : StreamObj)
    (f : StreamObj -> StreamObj) (p : list PendingInput) :
  k = ka ++ k' -> flow snd s (qa ++ q) k taken sent -> se_objs s !! o = Some x ->
  session_mode s' = session_mode s -> se_streams s' = se_streams s -> se_objs s' = alter f o (se_objs s) ->
  (forall y, shape (f y) = shape y) -> in_pending (so_inbox (f x)) = in_pending (so_inbox x) ++ p ->
  (forall id, in_queue id qa ++ in_socket id ka = if id =? so_id x then p else []) -> (ka = [] \/ q = []) ->
  flow snd s' q k' taken sent.
Proof.
  intros -> F Hx Ec Es Eo Hf Hp Hq Hk. apply (flow_advance snd s s' qa q ka k' taken taken sent F); [done|done| |].
  - rewrite Eo. by apply shape_alter.
  - intros id. split; [|destruct Hk as [->| ->]; [by left|by right]]. f_equal. rewrite Hq, Eo.
    assert (Hid : so_id (f x) = so_id x) by (by apply (shape_eq (f x) x)).
    destruct (Z.eqb_spec id (so_id x)) as [->|Hne].
    + rewrite (in_inbox_unique (se_objs s) o x (fl_unique _ _ _ _ _ _ F) Hx), <- Hp, <- Hid.
      apply (in_inbox_unique _ o).
      * intros i j a b Ha Hb E. assert (Es' : shape <$> alter f o (se_objs s) = shape <$> se_objs s) by by apply shape_alter.
        destruct (shape_lookup _ _ _ _ Es' Ha) as (a0 & Ha0 & Ea). destruct (shape_lookup _ _ _ _ Es' Hb) as (b0 & Hb0 & Eb).
        apply shape_eq in Ea as [Ea _]. apply shape_eq in Eb as [Eb _]. apply (fl_unique _ _ _ _ _ _ F i j a0 b0 Ha0 Hb0). congruence.
      * by rewrite list_lookup_alter_eq, Hx.
    + rewrite app_nil_r. by apply (in_inbox_other id _ o x).
Qed.

(** Closing an object whose sender is done and has nothing under way; [del]
    says whether it leaves the map as well. *)
Lemma flow_half_close (s s' : Session) (q : list Element) (o : nat) (x : StreamObj) (del : bool) :
  flow snd s q k taken sent -> se_objs s !! o = Some x -> sd_state (snd (so_id x)) = STREAM_CLOSED ->
  in_queue (so_id x) q = [] -> in_socket (so_id x) k = [] ->
  session_mode s' = session_mode s -> se_streams s' = (if del then delete (so_id x) (se_streams s) else se_streams s) ->
  se_objs s' = (if so_open x then alter (set_state STREAM_HALF_CLOSED) o (se_objs s) else se_objs s) ->
  flow snd s' q k taken sent.
Proof.
  intros F Hx Hst Hq Hk Ec Es Eo. pose proof F as [F1 F2 F3 F4 F5 F6 F7 F8 F9 F10 F11].
  assert (Hl : forall i y, se_objs s' !! i = Some y -> exists y0, se_objs s !! i = Some y0 /\ so_id y = so_id y0 /\
    so_inbox y = so_inbox y0 /\ (so_open y = true -> so_open y0 = true /\ i <> o) /\ (so_open y = false -> so_open y0 = true -> i = o)).
  { intros i y Hy. rewrite Eo in Hy. destruct (so_open x) eqn:Eop.
    - rewrite list_lookup_alter in Hy. case_decide as E.
      + subst i. rewrite Hx in Hy. injection Hy as <-. exists x. done.
      + exists y. repeat split; try done. congruence.
    - exists y. repeat split; try done; [|congruence]. intros ->. congruence. }
  assert (Hm : forall id i, se_streams s' !! id = Some i -> se_streams s !! id = Some i).
  { intros id i. rewrite Es. destruct del; [|done]. intros Hd. by apply lookup_delete_Some in Hd as [_ Hd]. }
  assert (Hinb : forall id, in_inbox id (se_objs s') = in_inbox id (se_objs s)).
  { intros id. rewrite Eo. destruct (so_open x); [|done]. unfold in_inbox. f_equal. apply list_eq. intros i.
    rewrite !list_lookup_fmap, list_lookup_alter. case_decide; [subst|done]. by destruct (se_objs s !! i). }
  split; try done.
  - intros id i Hi. destruct (F1 id i (Hm id i Hi)) as (y & Hy & Hid). rewrite Eo. destruct (so_open x); [|by exists y].
    rewrite list_lookup_alter. case_decide; [subst; rewrite Hy; by eexists|by exists y].
  - by rewrite Ec.
  - intros i j a b Ha Hb E. destruct (Hl i a Ha) as (a0 & Ha0 & Ea & _). destruct (Hl j b Hb) as (b0 & Hb0 & Eb & _).
    apply (F3 i j a0 b0 Ha0 Hb0). congruence.
  - intros i y Hy Hop. destruct (Hl i y Hy) as (y0 & Hy0 & E & _ & H1 & _). destruct (H1 Hop) as [H2 Hne]. rewrite E, Es.
    destruct del; [|by apply F4]. rewrite lookup_delete_ne; [by apply F4|]. intros Ex. apply Hne. symmetry. by apply (F3 o i x y0).
  - intros i y Hy Hop. destruct (Hl i y Hy) as (y0 & Hy0 & E & _ & _ & H2). rewrite E. destruct (so_open y0) eqn:Ey.
    + specialize (H2 Hop eq_refl). subst i. replace y0 with x by congruence. done.
    + by apply (F5 i y0).
  - intros id. by rewrite Hinb.
Qed.

End flow.

(** ** The drain *)

Lemma element_new_inj (i j o : Z) : element_new i o = element_new j o -> i = j.
Proof. by intros [= ->]. Qed.

Lemma deliver_flow (snd : Z -> Sender) (k : list SockMsg) (taken sent : Z -> list PendingInput) (s : Session)
    (e : Element) (q : list Element) :
  flow snd s (e :: q) k taken sent -> flow snd (deliver_one s e) q k taken sent.
Proof.
  intros F. pose proof (fl_elems _ _ _ _ _ _ F) as He. apply Forall_cons in He as [He _]. unfold deliver_one, deliver_data.
  destruct (Z.eqb_spec (op e) OP_STREAM_DATA) as [Eop|Eop].
  - set (id := stream_id e). assert (Hin : forall i, in_queue i [e] = if i =? id then [InShm (e_offset e)] else []).
    { intros i. unfold in_queue, data_of. cbn [omap list_omap]. rewrite Eop, Z.eqb_refl, (Z.eqb_sym i). fold id. by destruct (id =? i). }
    destruct (flow_get_stream snd k taken sent s (e :: q) id F) as (o & x & s1 & -> & Hx & Hid & Hop & F1).
    { left. change (e :: q) with ([e] ++ q). rewrite in_queue_app, Hin, Z.eqb_refl. done. }
    rewrite Hx. set (b := mkBatch o _ _). destruct (flush_batch_effect b s1) as (E1 & _ & _). cbn [ba_obj b] in E1.
    eapply (flow_deposit snd k taken sent s1 _ [e] q [] k o x (absorb b) [InShm (e_offset e)]); [done|exact F1|exact Hx| | | | | | |by left].
    + by apply (f_equal session_mode) in E1.
    + by apply (f_equal se_streams) in E1.
    + by apply (f_equal se_objs) in E1.
    + intros y. unfold shape. by destruct (absorb_keeps b y) as (_ & _ & -> & ->).
    + unfold absorb, takes. cbn [b ba_generation]. rewrite Z.eqb_refl, Hop. done.
    + intros i. rewrite Hin, Hid. change (in_socket i []) with (@nil PendingInput). by rewrite app_nil_r.
  - destruct He as [He|He]; [done|]. rewrite He at 1. cbn [op element_new]. change (OP_CLOSE_STREAM =? OP_CLOSE_STREAM) with true. cbv iota.
    set (id := stream_id e) in *. assert (Hin : forall i, in_queue i [e] = []).
    { intros i. unfold in_queue. cbn. unfold data_of. rewrite He. done. }
    assert (F1 : flow snd s q k taken sent).
    { apply (flow_advance snd s s [e] q [] k taken taken sent F); [done|done|done|]. intros i. rewrite Hin. cbn.
      split; [by rewrite app_nil_r|by left]. }
    destruct (fl_close_queue _ _ _ _ _ _ F id) as (H1 & H2 & H3); [rewrite <- He; by left|].
    unfold handle_v5_close, get_stream. replace (se_client s) with false by (symmetry; apply (f_equal Datatypes.fst (fl_server _ _ _ _ _ _ F))). change (STREAM_CLOSED =? STREAM_OPENED) with false. cbn [negb andb].
    destruct (se_streams s !! id) as [o|] eqn:Eo; [|done]. destruct (fl_ok _ _ _ _ _ _ F id o Eo) as (x & Hx & Hid).
    apply (flow_half_close snd k taken sent s _ q o x false F1 Hx); rewrite ?Hid.
    + done.
    + apply (H3 [] q). by rewrite <- He.
    + by apply (fl_socket _ _ _ _ _ _ F).
    + unfold half_close. rewrite Hx. by destruct (so_open x).
    + unfold half_close. rewrite Hx. by destruct (so_open x).
    + unfold half_close. rewrite Hx. by destruct (so_open x).
Qed.

Lemma deliver_all_flow (snd : Z -> Sender) (k : list SockMsg) (taken sent : Z -> list PendingInput) (q : list Element) (s : Session) :
  flow snd s q k taken sent -> flow snd (foldl deliver_one s q) [] k taken sent.
Proof. revert s. induction q as [|e q IH]; intros s F; cbn [foldl]; [done|]. by apply IH, deliver_flow. Qed.

Lemma elements_ready (q : list Element) : elements (PReady <$> q) = q.
Proof. induction q as [|e q IH]; [done|]. change (e :: elements (PReady <$> q) = e :: q). by rewrite IH. Qed.

(** A drain of a quiet queue takes everything. *)
Lemma drain_quiet (wait : bool) (q : list Element) (bs : list V5NotifyBatch) (s : Session) :
  exists s', drain_loop wait (PReady <$> q) bs s = (None, [], s').
Proof.
  revert bs s. induction q as [|e q IH]; intros bs s; cbn [fmap list_fmap drain_loop]; [by eexists|].
  destruct (drain_element e bs s). apply IH.
Qed.

Lemma drain_flow (snd : Z -> Sender) (k : list SockMsg) (taken sent : Z -> list PendingInput) (wait : bool) (s : Session) (q : list Element) :
  flow snd s q k taken sent -> se_pops s = PReady <$> q ->
  exists s', drain_v5 wait s = (None, s') /\ flow snd s' [] k taken sent /\ se_pops s' = [].
Proof.
  intros F Hp. unfold drain_v5. replace (se_shutdown s) with false by (symmetry; apply (f_equal Datatypes.snd (fl_server _ _ _ _ _ _ F))).
  rewrite Hp. pose proof (session_drain_spec wait (PReady <$> q) [] s (fl_ok _ _ _ _ _ _ F) (batches_nil _)) as Hd.
  destruct (drain_quiet wait q [] s) as (s1 & E). rewrite E in Hd |- *. destruct Hd as (seen & Es & _ & [Hc _ _] & _).
  eexists. split; [reflexivity|]. split; [|done]. apply flow_pops. rewrite app_nil_r in Es. subst seen. rewrite elements_ready in Hc.
  apply (flow_core snd k taken sent (foldl deliver_one s q)); [done|]. by apply deliver_all_flow.
Qed.

(** ** The two sides together *)

Definition sys_ok (y : Sys) : Prop :=
  exists q, se_pops (y_rcv y) = PReady <$> q /\ flow (y_snd y) (y_rcv y) q (y_sock y) (y_taken y) (y_sent y).

(** ** Sending *)

Lemma upd_eq {A} (f : Z -> A) (id : Z) (v : A) : upd f id v id = v.
Proof. unfold upd. by rewrite Z.eqb_refl. Qed.

Lemma upd_ne {A} (f : Z -> A) (id i : Z) (v : A) : i <> id -> upd f id v i = f i.
Proof. intros H. unfold upd. by rewrite (proj2 (Z.eqb_neq i id) H). Qed.

(** Where an entry of a list extended at the end sits. *)
Lemma snoc_split {A} (l a b : list A) (x c : A) :
  l ++ [x] = a ++ c :: b -> (exists b', l = a ++ c :: b' /\ b = b' ++ [x]) \/ (c = x /\ b = []).
Proof.
  intros E. destruct (decide (b = [])) as [->|Hb].
  - right. apply app_inj_tail in E as [_ ->]. done.
  - left. apply exists_last in Hb as (b' & y & ->). rewrite app_comm_cons, app_assoc in E. apply app_inj_tail in E as [-> ->].
    by exists b'.
Qed.

Section sending.
Context (snd : Z -> Sender) (s : Session) (q : list Element) (k : list SockMsg) (taken sent : Z -> list PendingInput).
Context (F : flow snd s q k taken sent) (id : Z) (Hopen : sd_state (snd id) = STREAM_OPENED).

Lemma closed_other (i : Z) : sd_state (snd i) = STREAM_CLOSED -> i <> id.
Proof. intros Hc ->. rewrite Hopen in Hc. discriminate. Qed.

(** One more element of a stream that is on the queue. *)
Lemma flow_put (e : Element) (snd' : Z -> Sender) (p : list PendingInput) :
  stream_id e = id -> (op e = OP_STREAM_DATA \/ e = element_new id OP_CLOSE_STREAM) -> sd_socket (snd id) = false ->
  in_queue id [e] = p -> (forall i, i <> id -> snd' i = snd i) -> sd_socket (snd' id) = false ->
  (e = element_new id OP_CLOSE_STREAM -> sd_state (snd' id) = STREAM_CLOSED) ->
  flow snd' s (q ++ [e]) k taken (upd sent id (sent id ++ p)).
Proof.
  intros He Hop Hns Hp Hsnd Hs' Hcl. pose proof F as [F1 F2 F3 F4 F5 F6 F7 F8 F9 F10 F11].
  assert (Hother : forall i, i <> id -> in_queue i [e] = []).
  { intros i Hi. unfold in_queue, data_of. cbn [omap list_omap]. rewrite He. destruct (Z.eqb_spec id i); [congruence|].
    by rewrite andb_false_r. }
  split; try done.
  - intros i x Hx Hn. destruct (F5 i x Hx Hn) as (G1 & G2 & G3). pose proof (closed_other _ G1) as Hne.
    rewrite Hsnd, in_queue_app, G2, Hother by done. done.
  - apply Forall_app. split; [done|]. apply Forall_singleton. rewrite He. done.
  - intros i Hi. destruct (Z.eq_dec i id) as [->|Hne]; [by apply F8|]. rewrite Hsnd in Hi by done. by apply F8.
  - intros i Hin. apply in_app_iff in Hin as [Hin|[Hin|[]]].
    + destruct (F9 i Hin) as (G1 & G2 & G3). pose proof (closed_other _ G1) as Hne. rewrite Hsnd by done.
      split; [done|]. split; [done|]. intros a b E. apply snoc_split in E as [(b' & -> & ->)|[E ->]]; [|done].
      rewrite in_queue_app, Hother by done. by rewrite (G3 a b').
    + assert (Ei : i = id) by (rewrite <- He, Hin; done). subst i. split; [by apply Hcl|]. split; [done|].
      intros a b E. apply snoc_split in E as [(b' & E & ->)|[_ ->]]; [|done].
      destruct (F9 id) as (G1 & _); [rewrite E; apply in_app_iff; right; by left|]. by apply closed_other in G1.
  - intros i Hin. destruct (F10 i Hin) as (G1 & G2). rewrite Hsnd by by apply closed_other. done.
  - intros i. destruct (Z.eq_dec i id) as [->|Hne].
    + rewrite upd_eq, <- (F11 id), in_queue_app, Hp, (F8 id Hns), !app_nil_r, <- !app_assoc. done.
    + rewrite upd_ne, in_queue_app, Hother, app_nil_r by done. apply F11.
Qed.

(** More messages of a stream on the socket. *)
Lemma flow_send (ms : list SockMsg) (snd' : Z -> Sender) (p : list PendingInput) :
  (forall i, i <> id -> in_socket i ms = []) -> in_socket id ms = p ->
  Forall (fun m => match m with KData _ st b => st = STREAM_OPENED /\ b <> [] | _ => True end) ms ->
  (forall i, i <> id -> snd' i = snd i) -> (sd_socket (snd' id) = false -> sd_socket (snd id) = false /\ p = []) ->
  (forall i, In (KClose i) ms -> ms = [KClose id] /\ sd_state (snd' id) = STREAM_CLOSED) ->
  flow snd' s q (k ++ ms) taken (upd sent id (sent id ++ p)).
Proof.
  intros Hother Hp Hms Hsnd Hs' Hcl. pose proof F as [F1 F2 F3 F4 F5 F6 F7 F8 F9 F10 F11]. split; try done.
  - intros i x Hx Hn. destruct (F5 i x Hx Hn) as (G1 & G2 & G3). pose proof (closed_other _ G1) as Hne.
    rewrite Hsnd, in_socket_app, G3, Hother by done. done.
  - by apply Forall_app.
  - intros i Hi. rewrite in_socket_app. destruct (Z.eq_dec i id) as [->|Hne].
    + destruct (Hs' Hi) as [G1 ->]. rewrite Hp, (F8 id G1). done.
    + rewrite Hsnd in Hi by done. by rewrite (F8 i Hi), Hother.
  - intros i Hin. destruct (F9 i Hin) as (G1 & G2 & G3). rewrite Hsnd by by apply closed_other. done.
  - intros i Hin. apply in_app_iff in Hin as [Hin|Hin].
    + destruct (F10 i Hin) as (G1 & G2). pose proof (closed_other _ G1) as Hne. rewrite Hsnd by done. split; [done|].
      intros a b E. assert (exists b', k = a ++ KClose i :: b' /\ b = b' ++ ms) as (b' & -> & ->).
      { clear -E Hcl Hne. revert b E. induction ms as [|m ms' IH] using rev_ind; intros b E.
        - exists b. by rewrite !app_nil_r in *.
        - rewrite app_assoc in E. apply snoc_split in E as [(b' & E & ->)|[<- ->]].
          + assert (Hcl' : forall i, In (KClose i) ms' -> ms' = [KClose id] /\ sd_state (snd' id) = STREAM_CLOSED).
            { intros j Hj. destruct (Hcl j) as [Em _]; [apply in_app_iff; by left|]. destruct ms' as [|? [|]]; done. }
            destruct (IH Hcl' b' E) as (b'' & -> & ->). exists b''. by rewrite <- app_assoc.
          + destruct (Hcl i) as [Em _]; [apply in_app_iff; right; by left|]. destruct ms' as [|? [|]]; [|done..].
            injection Em as ->. done. }
      rewrite in_socket_app, (G2 a b'), Hother by done. done.
    + destruct (Hcl i Hin) as [-> Hst]. destruct Hin as [[= <-]|[]]. split; [done|].
      intros a b E. apply snoc_split in E as [(b' & E & ->)|[_ ->]]; [|done].
      destruct (F10 id) as (G1 & _); [rewrite E; apply in_app_iff; right; by left|]. by apply closed_other in G1.
  - intros i. rewrite in_socket_app. destruct (Z.eq_dec i id) as [->|Hne].
    + rewrite upd_eq, <- (F11 id), Hp, <- !app_assoc. done.
    + rewrite upd_ne, Hother, app_nil_r by done. apply F11.
Qed.

End sending.

Lemma with_offset_offset (id o off : Z) : - (I64_MAX + 1) <= off <= I64_MAX -> e_offset (with_offset id o off) = off.
Proof. intros Ho. unfold e_offset, with_offset. cbn [e_data]. rewrite le_val_bytes. by apply to_i64_wrap. Qed.

Lemma flush_queue_ok (id root : Z) (y y' : Sys) :
  - (I64_MAX + 1) <= root <= I64_MAX -> flush_queue id root y = Some y' -> sys_ok y -> sys_ok y'.
Proof.
  intros Hr Hf (q & Hp & F). unfold flush_queue in Hf. destruct (Z.eqb_spec (sd_state (y_snd y id)) STREAM_OPENED) as [Ho|]; [|done].
  destruct (sd_socket (y_snd y id)) eqn:Es; [done|]. injection Hf as <-. set (e := with_offset id OP_STREAM_DATA root).
  exists (q ++ [e]). split; [cbn; by rewrite Hp, fmap_app|]. apply flow_pops. cbn [y_snd y_rcv y_sock y_taken y_sent].
  apply (flow_put _ _ _ _ _ _ F id Ho e); try done; [by left|].
  unfold in_queue, data_of. cbn [omap list_omap]. change (op e) with OP_STREAM_DATA. change (stream_id e) with id.
  rewrite !Z.eqb_refl. cbn [andb]. unfold e. by rewrite with_offset_offset.
Qed.

Lemma flush_socket_ok (id : Z) (ps : list (list Z)) (y y' : Sys) : flush_socket id ps y = Some y' -> sys_ok y -> sys_ok y'.
Proof.
  intros Hf (q & Hp & F). unfold flush_socket in Hf. destruct (Z.eqb_spec (sd_state (y_snd y id)) STREAM_OPENED) as [Ho|]; [|done].
  destruct (existsb is_nil ps) eqn:Ene; [done|]. injection Hf as <-. exists q. split; [done|]. cbn [y_snd y_rcv y_sock y_taken y_sent].
  assert (Hin : forall i, in_socket i (KData id STREAM_OPENED <$> ps) = if i =? id then InHeap <$> ps else []).
  { intros i. rewrite (Z.eqb_sym i). clear. induction ps as [|p ps IH]; [by destruct (id =? i)|].
    unfold in_socket in *. cbn [fmap list_fmap omap list_omap sock_data]. rewrite IH. by destruct (id =? i). }
  apply (flow_send _ _ _ _ _ _ F id Ho).
  - intros i Hi. rewrite Hin. by rewrite (proj2 (Z.eqb_neq i id) Hi).
  - by rewrite Hin, Z.eqb_refl.
  - apply Forall_fmap, Forall_forall. intros p Hel. cbn. split; [done|]. intros ->.
    apply list_elem_of_In in Hel. apply not_true_iff_false in Ene. apply Ene, existsb_exists. by exists [].
  - intros i Hi. by apply upd_ne.
  - rewrite upd_eq. done.
  - intros i Hi. apply list_elem_of_In, list_elem_of_fmap in Hi as (p & E & _). done.
Qed.

Lemma upd_same (f : Z -> list PendingInput) (id : Z) (snd : Z -> Sender) (s : Session) (q : list Element) (k : list SockMsg)
    (taken : Z -> list PendingInput) :
  flow snd s q k taken (upd f id (f id ++ [])) -> flow snd s q k taken f.
Proof.
  intros [F1 F2 F3 F4 F5 F6 F7 F8 F9 F10 F11]. split; try done. intros i. rewrite (F11 i). rewrite app_nil_r.
  unfold upd. destruct (Z.eqb_spec i id); [by subst|done].
Qed.

Lemma close_stream_ok (id : Z) (queued : bool) (y y' : Sys) : close_stream id queued y = Some y' -> sys_ok y -> sys_ok y'.
Proof.
  intros Hf (q & Hp & F). unfold close_stream in Hf. destruct (Z.eqb_spec (sd_state (y_snd y id)) STREAM_OPENED) as [Ho|]; [|done].
  cbn [negb] in Hf. injection Hf as <-. destruct (queued && negb (sd_socket (y_snd y id))) eqn:Eq.
  - apply andb_true_iff in Eq as [_ Es]. apply negb_true_iff in Es. set (e := element_new id OP_CLOSE_STREAM).
    exists (q ++ [e]). split; [cbn; by rewrite Hp, fmap_app|]. apply flow_pops. cbn [y_snd y_rcv y_sock y_taken y_sent].
    apply (upd_same _ id), (flow_put _ _ _ _ _ _ F id Ho e); try done; [by right|intros i Hi; by apply upd_ne|by rewrite upd_eq|by rewrite upd_eq].
  - exists q. split; [done|]. cbn [y_snd y_rcv y_sock y_taken y_sent].
    apply (upd_same _ id), (flow_send _ _ _ _ _ _ F id Ho); try done.
    + by constructor.
    + intros i Hi. by apply upd_ne.
    + rewrite upd_eq. done.
    + intros i [[= <-]|[]]. by rewrite upd_eq.
Qed.

(** ** Receiving *)

Lemma poll_ok (y : Sys) : sys_ok y -> sys_ok (recv_poll y).
Proof.
  intros (q & Hp & F). exists []. unfold recv_poll, handle_polling. destruct (drain_flow _ _ _ _ false _ _ F Hp) as (s' & -> & F' & Hp').
  cbn. by rewrite Hp'.
Qed.

Lemma fallback_flow (snd : Z -> Sender) (s : Session) (k : list SockMsg) (taken sent : Z -> list PendingInput) (id : Z) (bytes : list Z)
    (q : list Element) :
  flow snd s q (KData id STREAM_OPENED bytes :: k) taken sent -> se_pops s = PReady <$> q ->
  let s' := (handle_fallback_payload id STREAM_OPENED bytes s).1 in flow snd s' [] k taken sent /\ se_pops s' = [].
Proof.
  intros F Hp. unfold handle_fallback_payload. destruct (drain_flow _ _ _ _ true _ _ F Hp) as (s1 & -> & F1 & Hp1).
  pose proof (fl_payloads _ _ _ _ _ _ F1) as Hpl. apply Forall_cons in Hpl as [[_ Hne] _].
  destruct (flow_get_stream snd _ taken sent s1 [] id F1) as (o & x & s2 & Eg & Hx & Hid & Hop & F2).
  { right. unfold in_socket. cbn. rewrite Z.eqb_refl. done. }
  assert (Hp2 : se_pops s2 = []).
  { unfold get_stream in Eg. destruct (se_streams s1 !! id); [by injection Eg as _ <-|].
    destruct (negb (se_client s1) && _); [|done]. by injection Eg as _ <-. }
  rewrite Eg. change (STREAM_OPENED =? STREAM_CLOSED) with false. cbv iota. cbn [fst]. unfold fill_fallback.
  cbn [upd_obj with_objs se_objs]. rewrite list_lookup_alter_eq, Hx. cbn [fmap option_fmap option_map].
  destruct bytes as [|b bytes]; [done|]. cbn [is_nil]. set (p := b :: bytes) in *.
  unfold add_fallback_if_generation. cbn [set_fallback so_inbox]. rewrite Z.eqb_refl. change (so_open (set_fallback true x)) with (so_open x).
  rewrite Hop. cbn [negb orb]. split; [|done].
  apply (flow_deposit snd (KData id STREAM_OPENED p :: k) taken sent s2 _ [] [] [KData id STREAM_OPENED p] k o x
    (set_inbox (mkInbox (in_generation (so_inbox x)) (in_pending (so_inbox x) ++ [InHeap p])) ∘ set_fallback true) [InHeap p]); try done.
  - cbn. by rewrite list_alter_alter_eq.
  - intros i. unfold in_socket. cbn. rewrite Hid, (Z.eqb_sym i). by destruct (id =? i).
  - by right.
Qed.

Lemma close_flow (snd : Z -> Sender) (s : Session) (k : list SockMsg) (taken sent : Z -> list PendingInput) (id : Z) (q : list Element) :
  flow snd s q (KClose id :: k) taken sent -> se_pops s = PReady <$> q ->
  let s' := (close_stream_event id s).1 in flow snd s' [] k taken sent /\ se_pops s' = [].
Proof.
  intros F Hp. unfold close_stream_event. destruct (drain_flow _ _ _ _ true _ _ F Hp) as (s1 & -> & F1 & Hp1).
  destruct (fl_close_socket _ _ _ _ _ _ F1 id) as (H1 & H2); [by left|].
  assert (F2 : flow snd s1 [] k taken sent).
  { apply (flow_advance snd s1 s1 [] [] [KClose id] k taken taken sent F1); [done|done|done|]. intros i. cbn.
    split; [by rewrite app_nil_r|by left]. }
  destruct (se_streams s1 !! id) as [o|] eqn:Eo; [|done]. destruct (fl_ok _ _ _ _ _ _ F1 id o Eo) as (x & Hx & Hid).
  cbn [fst]. unfold half_close. cbn [with_objs se_objs]. rewrite Hx. split; [|by destruct (so_open x)].
  apply (flow_half_close snd k taken sent s1 _ [] o x true F2 Hx); rewrite ?Hid; try done.
  - by apply (H2 [] k).
  - by destruct (so_open x).
  - by destruct (so_open x).
  - by destruct (so_open x).
Qed.

Lemma recv_ok (y y' : Sys) : recv_socket y = Some y' -> sys_ok y -> sys_ok y'.
Proof.
  intros Hr (q & Hp & F). unfold recv_socket in Hr. destruct (y_sock y) as [|[id status bytes|id] k] eqn:Ek; [done| |].
  - injection Hr as <-. exists []. pose proof (fl_payloads _ _ _ _ _ _ F) as Hpl. apply Forall_cons in Hpl as [[-> _] _].
    destruct (fallback_flow _ _ _ _ _ _ _ _ F Hp) as [F' Hp']. done.
  - injection Hr as <-. exists []. destruct (close_flow _ _ _ _ _ _ _ F Hp) as [F' Hp']. done.
Qed.

Lemma take_ok (o : nat) (y y' : Sys) : take_inbox o y = Some y' -> sys_ok y -> sys_ok y'.
Proof.
  intros Ht (q & Hp & F). unfold take_inbox in Ht. destruct (se_objs (y_rcv y) !! o) as [x|] eqn:Ex; [|done]. injection Ht as <-.
  exists q. split; [done|]. cbn [y_snd y_rcv y_sock y_taken y_sent]. set (f := set_inbox _).
  assert (Hf : forall z, shape (f z) = shape z) by done.
  assert (Hx' : alter f o (se_objs (y_rcv y)) !! o = Some (f x)) by (by rewrite list_lookup_alter_eq, Ex).
  apply (flow_advance _ _ _ [] q [] (y_sock y) (y_taken y) _ _ F); [done|done|by apply shape_alter|].
  intros id. split; [|by left]. cbn [in_queue in_socket omap list_omap upd_obj with_objs se_objs]. rewrite !app_nil_r.
  unfold upd. destruct (Z.eqb_spec id (so_id x)) as [->|Hne].
  - rewrite (in_inbox_unique _ o x (fl_unique _ _ _ _ _ _ F) Ex).
    rewrite (in_inbox_unique _ o (f x)); [cbn; by rewrite app_nil_r| |done].
    intros i j a b Ha Hb E. assert (Es' : shape <$> alter f o (se_objs (y_rcv y)) = shape <$> se_objs (y_rcv y)) by by apply shape_alter.
    destruct (shape_lookup _ _ _ _ Es' Ha) as (a0 & Ha0 & Ea). destruct (shape_lookup _ _ _ _ Es' Hb) as (b0 & Hb0 & Eb).
    apply shape_eq in Ea as [Ea _]. apply shape_eq in Eb as [Eb _]. apply (fl_unique _ _ _ _ _ _ F i j a0 b0 Ha0 Hb0). congruence.
  - f_equal. by apply (in_inbox_other id _ o x).
Qed.

Lemma step_ok (y y' : Sys) : sys_step y y' -> sys_ok y -> sys_ok y'.
Proof.
  intros [id root z z' Hr Hf|id ps z z' Hf|id b z z' Hf|z|z z' Hf|o z z' Hf];
    [by apply (flush_queue_ok id root)|by apply (flush_socket_ok id ps)|by apply (close_stream_ok id b)|apply poll_ok|
     by apply recv_ok|by apply (take_ok o)].
Qed.

Lemma init_ok (version : Z) : sys_ok (sys_init version).
Proof.
  exists []. split; [done|]. by split.
Qed.

(** C2. Every stream arrives in order and whole, over both channels: whatever
    streams send, by queue, by socket or switching from one to the other, however
    sends, wakeups, socket events and readers interleave, what a stream's reader
    has taken followed by what its inbox holds is a prefix of what was sent on
    it; and it is all of it once the peer's close has been seen, or once both
    channels are empty. *)
Theorem stream_order (version : Z) (y : Sys) :
  rtc sys_step (sys_init version) y ->
  forall id, exists rest, y_taken y id ++ in_inbox id (se_objs (y_rcv y)) ++ rest = y_sent y id /\
    (forall i x, se_objs (y_rcv y) !! i = Some x -> so_id x = id -> so_open x = false -> rest = []) /\
    (se_pops (y_rcv y) = [] -> y_sock y = [] -> rest = []).
Proof.
  intros Hr. assert (Hok : sys_ok y).
  { clear -Hr. pose proof (init_ok version) as H0. revert H0. induction Hr as [z|a b c Hs _ IH]; intros H0; [done|].
    by apply IH, (step_ok a). }
  destruct Hok as (q & Hp & F). intros id. exists (in_queue id q ++ in_socket id (y_sock y)).
  split; [apply (fl_conserve _ _ _ _ _ _ F)|]. split.
  - intros i x Hx <- Hop. destruct (fl_done _ _ _ _ _ _ F i x Hx Hop) as (_ & -> & ->). done.
  - intros Hp0 ->. rewrite Hp in Hp0. apply fmap_nil_inv in Hp0 as ->. done.
Qed.

(** *** A message by queue, one by socket, a close, all received *)

Definition run_sys (f : Sys -> option Sys) (y : Sys) : Sys := default y (f y).

Definition sample_sys : Sys :=
  run_sys recv_socket (run_sys recv_socket (run_sys (close_stream 3 true) (run_sys (flush_socket 3 [[7; 8]])
    (run_sys (flush_queue 3 4096) (sys_init 5))))).

Lemma stream_order_witness :
  exists rest, y_taken sample_sys 3 ++ in_inbox 3 (se_objs (y_rcv sample_sys)) ++ rest = [InShm 4096; InHeap [7; 8]] /\
    rest = [].
Proof.
  destruct (stream_order 5 sample_sys) with (id := 3) as (rest & H1 & _ & H3).
  - unfold sample_sys, run_sys. eapply rtc_l; [apply (y_flush_queue 3 4096); [vm_compute; split; discriminate|vm_compute; reflexivity]|].
    eapply rtc_l; [apply (y_flush_socket 3 [[7; 8]]); vm_compute; reflexivity|].
    eapply rtc_l; [apply (y_close 3 true); vm_compute; reflexivity|].
    eapply rtc_l; [apply y_recv; vm_compute; reflexivity|].
    eapply rtc_l; [apply y_recv; vm_compute; reflexivity|].
    vm_compute. apply rtc_refl.
  - exists rest. split; [exact H1|]. apply H3; vm_compute; reflexivity.
Defined.
